(* ===== verification/_CoqProject ===== *)
-Q . S2P
Prelude.v
Bytes.v
Fields.v
Dsp56.v
DspCore.v
DspDecode.v
DspAlu.v
DspAddr.v
DspCpu.v
DspMove.v
DspInst.v
DspExec.v
DspSafe.v
DspSafeInst.v
DspStep.v
DspLoop.v
DspTime.v
DspDma.v
Dsp.v
Apu.v
ApuFront.v
Swizzle.v
Lru.v
Nv2a.v
Pfifo.v
Xxhash.v
PgraphRegs.v
Gl.v
GlImage.v
PgraphState.v
Surface.v
Texture.v
Vsh.v
Text.v
VshText.v
VshRun.v
Psh.v
Shader.v
Vertex.v
Pgraph.v
PgraphFrame.v
PgraphInit.v
SurfaceCopy.v
PgraphDraw.v
GpuRun.v
Smbus.v
Nvnet.v
Lpc.v
