(* ===== verification/Prelude.v ===== *)
(** * Verification of the XQEMU Xbox machine

    XQEMU emulates the original Xbox on top of QEMU.  This development models the devices
    of src/hw/xbox that compute (audio unit with its two DSPs, GPU, system management bus,
    network controller, super I/O chip) and the parts of QEMU under them that the proofs need
    (src/hw/i2c), as functions on explicit states, and proves them correct.

    ** The program and its model

    The machine is a set of devices with registers the guest reads and writes, memory the
    devices and the guest share, and threads or timers that advance the devices.

    - The DSP56300 core (src/hw/xbox/dsp/dsp_cpu.c, dsp_cpu.h, dsp_emu.inl) executes the
      programs of the audio unit.  [Dsp56]: the 56-bit accumulator routines.  [DspCore]: the
      state [dsp_core_t], registers, stack, memories.  [DspDecode]: the opcode table.
      [DspAlu], [DspAddr], [DspCpu], [DspMove], [DspInst]: the emulation functions of
      dsp_emu.inl (data ALU, addressing, monad, parallel moves, other instructions).
      [DspExec]: one step, the program counter, interrupts.
    - The DSP as a device: [DspDma] is dsp_dma.c, the DMA engine; [Dsp] is dsp.c, a core with
      engine and interrupt register, and its peripheral page.
    - The audio unit (src/hw/xbox/mcpx_apu.c): [Apu] has the scattered memories and FIFOs the
      DSPs reach, [ApuFront] the registers, the front-end methods, the voice lists in guest
      memory, the windows onto the DSPs and the frame timer [se_frame].
    - The GPU (src/hw/xbox/nv2a): [Nv2a] has the register blocks of the MMIO window, the
      interrupt line and the display parameters; [Pfifo] the pusher and puller threads,
      CACHE1 and the object table of nv2a_pfifo.c; [Swizzle] is swizzle.c; [Lru] is lru.c;
      [Xxhash] is xxhash.c.
    - The graphics engine of the GPU (nv2a_pgraph.c): [PgraphRegs] has the constants, [Gl]
      the calls of OpenGL and the arithmetic of [float], [GlImage] what the specification of
      OpenGL says of images and pixel storage, [PgraphState] the state.  [Surface]
      moves the render surfaces between video memory and OpenGL, [Texture] converts and
      caches textures, [Shader] gathers the shader state and updates the uniforms, [Vertex]
      collects the vertices, [Pgraph] is [pgraph_method] with all of its cases, [PgraphInit]
      has [pgraph_init] and [pgraph_destroy].  [Vsh], [VshText] are nv2a_vsh.c and [Psh] is
      nv2a_psh.c, the translations of vertex and pixel shaders to text ([Text]).  [GpuRun]
      composes PFIFO and PGRAPH.
    - The system management bus: [Smbus] has the controller (amd_smbus.c), the protocols, the
      bus and the device state machine of src/hw/i2c, and the four chips of the Xbox.
    - The network controller: [Nvnet] has the registers, the PHY and the descriptor rings of
      nvnet.c.  The super I/O chip: [Lpc] is lpc47m157.c.

    The layers below: this file (C integers, errors, arrays, record update), [Bytes] (byte
    buffers) and [Fields] (bit fields of registers, GET_MASK and SET_MASK).

    ** How code is translated

    A C function is the definition of the same name.  A C integer is a [Z], wrapped ([u32],
    ...) where the source lets it wrap.  A struct is a record whose fields have the names of
    the source; a function that mutates it takes and returns the record.  An array is a map
    [mem] that reads 0 where nothing was written, as an object of QEMU starts zeroed.  A
    function that can stop returns [res]: [assert_failed] for an [assert], [out_of_bounds]
    for an access outside of an array, [undefined_behaviour] for a shift or division C leaves
    undefined, [out_of_fuel] for a loop that has used up the turns it was given.  Where the C
    file spells out one function per operand combination (dsp_emu.inl), a family is one
    definition and each function is the instance named after it.

    Interfaces between components are type classes with laws.  The core reaches its
    peripherals through [Peripherals] (laws: [PeripheralsOk], [PeripheralsTimed]); [Dsp]
    supplies the instance.  The DMA engine reaches memory through [ScratchBus] (laws:
    [ScratchBusOk], [ScratchMemory]); [Apu] supplies both buses of the audio unit.  The LRU
    cache reaches its objects through [LruObject], a bus its chips through [SmbusChip], the
    GPU the VGA device of QEMU through [VgaPort], the network controller guest memory
    through [PciDma] (laws: [PciDmaOk]).  Physical memory outside of RAM is a parameter of
    the audio unit.  OpenGL is the class [OpenGL]: calls are recorded in a log, and what it
    answers is a function of the log; the theorems name the laws they use ([fresh_buffers]:
    names of buffers are new; [OpenGLReads]: pixels read back are those of the image that
    the calls attached).  [generate_shaders], from a shader state to a linked program with the
    locations of its uniforms, is a parameter of [Pgraph] (law: [distinct_locations]).

    ** What is shown

    - DSP core.  [DspSafe], [DspSafeInst], [DspStep]: one invariant of the core is kept by
      every instruction, and no instruction indexes outside of an array.  [DspDecode]: the
      decoder finds the one matching entry, and which words it aborts on.  [DspAlu], [Dsp56]:
      the digit-wise arithmetic is arithmetic modulo 2^56, the flags are carry and overflow,
      and the dispatch table follows the encoding.  [DspAddr]: linear, modulo and bit-reversed
      addressing (bit-reversed: addition on the digits in reverse), and the limiter.  [DspCore]: the stack refines a bounded LIFO, memory reads
      back.  [DspStep], [DspLoop]: interrupt arbitration and the REP loop.
    - DSP device.  The DMA engine runs its list and copies out and in; the device is safe to
      step; time slices end, or stop at a fault of a step that was reached, such as the endless
      list of the DMA engine ([DspTime]: an instruction takes at least two cycles, at most a
      constant), and add up; interrupts are acknowledged bit by bit; booting.
    - Audio unit.  Scattered memory behaves as one memory and a FIFO as a ring; switching a
      voice on inserts it in its list and the frame timer reaches the end of every list; the
      windows read back.
    - GPU.  PGRAPH executes the methods in the order of submission in every interleaving of
      pusher, puller, PGRAPH, register accesses and stores of the guest to video and instance
      memory, as long as the guest leaves the ring of CACHE1 alone ([GpuRun]); CACHE1 refines a bounded
      queue; commands are unpacked; the interrupt line follows the units; the texel order of
      swizzled textures and its round trip; the cache refines a sequence in order of recent
      use; hashing piece by piece is hashing at once.
    - Graphics engine.  The reference counts of textures, the uniforms that hold the
      constants and the buffers of the attributes are invariants of every run from
      [pgraph_init] on, with any accesses of the guest ([PgraphFrame], [PgraphInit],
      [GpuRun]).  From a state with these invariants and a bound object of the Kelvin class, a
      primitive given vertex by vertex is drawn with these vertices, program and uniforms, the
      clip regions among them, and the invariants hold again ([PgraphDraw]).  A surface whose
      rows have a multiple of four bytes survives an upload and a download ([SurfaceCopy]).  A
      translated vertex program does what its instructions do ([VshRun]).  The translation of
      pixel shaders succeeds exactly on the states that are described, with a text that is
      given in full and declares each name once ([Psh]).
    - System management bus.  A transaction, carried out byte by byte over the bus, is one
      call of the chip; registers read back through the ports.
    - Network controller.  A received packet is stored in the first buffer that can take it
      and its descriptor is handed back; a kick sends the valid packets in the order of the
      ring; nothing else in guest memory changes.
    - Super I/O chip.  The configuration sequence attaches the serial port it describes.
    - Faults.  Where the code stops, hangs or reads out of bounds, a theorem says on which
      inputs: a stale interrupt line, the object table, a jump that never ends, packets over
      registers, surfaces of an odd width; further ones are lemmas next to the component.

    ** Bounds and fuel

    A loop of C is a [Fixpoint] on fuel that faults with [out_of_fuel].  The fuel is a
    constant where the source bounds the loop (32 bits in [fill_loop], 33 turns in
    [masks_loop], 24 bits in the address generator, 256 descriptors in the network rings)
    and the theorems show it is enough.
    Where the guest decides how long a loop runs (voice lists, DMA lists, [dsp_run], pusher,
    puller, heap walks) the fuel is an argument, and the theorems state how much is enough
    for a well-formed list (or that no amount is: [pusher_jump_hangs], [voice_walk_hangs],
    [dma_self_loop]).

    ** Not modelled

    What OpenGL draws: the calls are recorded, the results are in the host GPU.  Of the
    shader text, the fixed-function vertex shader and the geometry shader of nv2a_shaders.c,
    which select pieces of text by the shader state, and compiling and linking.  The
    host windows and contexts of gl/.  The overlay of the display.  [process_voice], which
    the source disables.  The disassembler and trace output.  Threads and locks as
    such: a critical section of a thread is a step.  The construction of the machine, PCI
    and USB plumbing, game controllers, migration, and QEMU itself. *)

From stdpp Require Export base numbers list gmap strings.
From Stdlib Require Export ZArith Lia Btauto.

Declare Scope c_scope.
Delimit Scope c_scope with C.
Global Open Scope Z_scope.
Global Open Scope c_scope.

(** ** C expressions on fixed-width integers

    A C integer is a [Z]; the width is written out wherever the source lets a
    value wrap.  Bit operations are those of [Z]. *)

Notation "a .& b" := (Z.land a b) (at level 40, left associativity) : c_scope.
Notation "a .| b" := (Z.lor a b) (at level 50, left associativity) : c_scope.
Notation "a .^ b" := (Z.lxor a b) (at level 50, left associativity) : c_scope.
Notation "a .<< b" := (Z.shiftl a b) (at level 38, left associativity) : c_scope.
Notation "a .>> b" := (Z.shiftr a b) (at level 38, left associativity) : c_scope.
Notation ".~ a" := (Z.lnot a) (at level 30, right associativity) : c_scope.

(** Conversion to an unsigned type of [w] bits. *)
Definition wrap (w z : Z) : Z := z mod 2 ^ w.
Abbreviation u8 := (wrap 8).
Abbreviation u16 := (wrap 16).
Abbreviation u32 := (wrap 32).
Abbreviation u64 := (wrap 64).

(** Conversion to a signed type of [w] bits (two's complement). *)
Definition swrap (w z : Z) : Z := (z + 2 ^ (w - 1)) mod 2 ^ w - 2 ^ (w - 1).
Abbreviation s16 := (swrap 16).
Abbreviation s32 := (swrap 32).

Arguments wrap : simpl never.
Arguments swrap : simpl never.

(** The truth value of a C scalar. *)
Definition nz (z : Z) : bool := negb (z =? 0).

(** A C comparison yields 0 or 1. *)
Definition b2z (b : bool) : Z := if b then 1 else 0.

(** ** Faults

    What the modelled code cannot return from: a failed [assert] (the process
    aborts), an access outside an array, an operation whose behaviour C leaves
    undefined, and, for loops that are run with a step bound, the bound. *)

Inductive fault :=
| assert_failed
| out_of_bounds
| undefined_behaviour
| out_of_fuel.

Inductive res (A : Type) :=
| Ok (a : A)
| Fault (f : fault).
Arguments Ok {A} _.
Arguments Fault {A} _.

#[global] Instance fault_eq_dec : EqDecision fault.
Proof. solve_decision. Defined.
#[global] Instance res_eq_dec {A} `{EqDecision A} : EqDecision (res A).
Proof. solve_decision. Defined.

#[global] Instance res_ret : MRet res := @Ok.
#[global] Instance res_bind : MBind res := λ A B f m,
  match m with Ok a => f a | Fault e => Fault e end.

(** [assert(b)]. *)
Definition assert (b : bool) : res () := if b then Ok tt else Fault assert_failed.

(** An access that is defined only when [b] holds. *)
Definition in_bounds (b : bool) : res () := if b then Ok tt else Fault out_of_bounds.

Definition is_ok {A} (r : res A) : bool := match r with Ok _ => true | Fault _ => false end.

Lemma bind_ok {A B} (m : res A) (f : A → res B) b :
  m ≫= f = Ok b ↔ ∃ a, m = Ok a ∧ f a = Ok b.
Proof. destruct m; cbn; naive_solver. Qed.

Lemma assert_ok b : assert b = Ok tt ↔ b = true.
Proof. destruct b; cbn; naive_solver. Qed.

Lemma in_bounds_ok b : in_bounds b = Ok tt ↔ b = true.
Proof. destruct b; cbn; naive_solver. Qed.

(** ** Zero-initialised arrays

    A C array of integers that starts zeroed, as a finite map from index to
    value; an index never written reads 0.  Bounds are checked by the accessor
    that models the access, not here. *)

Abbreviation mem := (gmap Z Z).

Definition rd (m : mem) (i : Z) : Z := default 0 (m !! i).
Definition wr (m : mem) (i v : Z) : mem := <[i := v]> m.

Arguments rd : simpl never.
Arguments wr : simpl never.

Lemma rd_wr_eq m i v : rd (wr m i v) i = v.
Proof. unfold rd, wr. by rewrite lookup_insert_eq. Qed.

Lemma rd_wr_ne m i j v : i ≠ j → rd (wr m i v) j = rd m j.
Proof. intros ?. unfold rd, wr. by rewrite lookup_insert_ne. Qed.

Lemma rd_wr m i j v : rd (wr m i v) j = if decide (i = j) then v else rd m j.
Proof. case_decide; subst; auto using rd_wr_eq, rd_wr_ne. Qed.

Lemma rd_empty i : rd ∅ i = 0.
Proof. done. Qed.

(** Two arrays that read the same. *)
Definition mem_eq (m1 m2 : mem) : Prop := ∀ i, rd m1 i = rd m2 i.

#[global] Instance mem_eq_equiv : Equivalence mem_eq.
Proof. split; red; unfold mem_eq; intros; congruence. Qed.

#[global] Instance rd_proper : Proper (mem_eq ==> eq ==> eq) rd.
Proof. intros m1 m2 E i ? <-. apply E. Qed.

#[global] Instance wr_proper : Proper (mem_eq ==> eq ==> eq ==> mem_eq) wr.
Proof. intros m1 m2 E i ? <- v ? <- j. rewrite !rd_wr. case_decide; auto. Qed.

Lemma wr_same m i : mem_eq (wr m i (rd m i)) m.
Proof. intros j. rewrite rd_wr. case_decide; by subst. Qed.

Lemma wr_wr m i v w : wr (wr m i v) i w = wr m i w.
Proof. apply insert_insert_eq. Qed.

(** All cells of [m] are values of a [w]-bit unsigned type. *)
Definition mem_ok (w : Z) (m : mem) : Prop := ∀ i, 0 ≤ rd m i < 2 ^ w.

Lemma mem_ok_wr w m i v : mem_ok w m → 0 ≤ v < 2 ^ w → mem_ok w (wr m i v).
Proof. intros Hm Hv j. rewrite rd_wr. case_decide; auto. Qed.

(** ** Record update

    [r <| f := v |>] is [r] with its field [f] replaced by [v].  A record type
    declares its eta-expansion once, as an instance of [Eta]; the setter of a
    field is found by abstracting that field in the expansion. *)

Class Eta (R : Type) := eta : R → R.
Class Setter {R T : Type} (f : R → T) := set : (T → T) → R → R.
Arguments set {R T} f {_} _ _.
#[global] Typeclasses Opaque Eta Setter.

Ltac solve_setter :=
  lazymatch goal with
  | |- @Setter ?R ?T ?f =>
    let up := constr:(fun r : R => ltac:(
      let e := eval cbv [eta] in (@eta R _ r) in
      let e := eval hnf in e in
      let p := eval pattern (f r) in e in
      lazymatch p with ?g _ => exact g end)) in
    let up := eval cbv beta in (fun (h : T → T) (r : R) => up r (h (f r))) in
    exact up
  end.

#[global] Hint Extern 1 (Setter _) => solve_setter : typeclass_instances.

Notation "r <| f := v |>" := (set f (λ _, v) r)
  (at level 1, f at next level, v at level 200, left associativity,
   format "r  <| f  :=  v |>") : c_scope.
Notation "r <| f ::= h |>" := (set f h r)
  (at level 1, f at next level, h at level 200, left associativity,
   format "r  <| f  ::=  h |>") : c_scope.

(** ** Bit masks and widths as arithmetic *)

Definition BITMASK (x : Z) : Z := (1 .<< x) - 1.

Lemma BITMASK_ones n : 0 ≤ n → BITMASK n = Z.ones n.
Proof. intros. unfold BITMASK. rewrite Z.ones_equiv, Z.shiftl_1_l. lia. Qed.

Lemma land_BITMASK z n : 0 ≤ n → z .& BITMASK n = z mod 2 ^ n.
Proof. intros. rewrite BITMASK_ones by done. by apply Z.land_ones. Qed.

Lemma land_mask z n m : 0 ≤ n → m = Z.ones n → z .& m = z mod 2 ^ n.
Proof. intros ? ->. by apply Z.land_ones. Qed.

Lemma shiftr_div z n : 0 ≤ n → z .>> n = z / 2 ^ n.
Proof. apply Z.shiftr_div_pow2. Qed.

Lemma shiftl_mul z n : 0 ≤ n → z .<< n = z * 2 ^ n.
Proof. apply Z.shiftl_mul_pow2. Qed.

Lemma lor_add a b : a .& b = 0 → a .| b = a + b.
Proof. intros H. pose proof (Z.add_lor_land a b). lia. Qed.

(** Concatenation of bit fields: the low part fits below the high one. *)
Lemma lor_concat hi lo n : 0 ≤ n → 0 ≤ lo < 2 ^ n → (hi .<< n) .| lo = hi * 2 ^ n + lo.
Proof.
  intros Hn Hlo. rewrite <- shiftl_mul by done. apply lor_add.
  apply Z.bits_inj'. intros i Hi. rewrite Z.land_spec, Z.bits_0, Z.shiftl_spec by done.
  destruct (Z.lt_ge_cases i n).
  - by rewrite Z.testbit_neg_r by lia.
  - rewrite <- (Z.mod_small lo (2 ^ n)) by lia.
    rewrite Z.mod_pow2_bits_high by lia. apply andb_false_r.
Qed.

Lemma wrap_bound w z : 0 ≤ w → 0 ≤ wrap w z < 2 ^ w.
Proof. intros. apply Z.mod_pos_bound. by apply Z.pow_pos_nonneg. Qed.

Lemma wrap_small w z : 0 ≤ z < 2 ^ w → wrap w z = z.
Proof. apply Z.mod_small. Qed.

Lemma wrap_wrap w z : wrap w (wrap w z) = wrap w z.
Proof. apply Zmod_mod. Qed.

Lemma mod_mod_pow2 z m n : 0 ≤ n ≤ m → (z mod 2 ^ m) mod 2 ^ n = z mod 2 ^ n.
Proof.
  intros. apply Z.bits_inj'. intros i Hi. rewrite !Z.testbit_mod_pow2 by lia.
  destruct (Z.ltb_spec i n), (Z.ltb_spec i m); try done; lia.
Qed.

(** Distinct offsets below [n] stay distinct modulo [n]. *)
Lemma mod_add_inj n g i j : 0 ≤ i < n → 0 ≤ j < n → (g + i) mod n = (g + j) mod n → i = j.
Proof.
  intros Hi Hj E. pose proof (Z.div_mod (g + i) n ltac:(lia)). pose proof (Z.div_mod (g + j) n ltac:(lia)).
  set (q := (g + i) / n - (g + j) / n). assert (i - j = n * q) by (unfold q; lia). assert (q = 0) by nia. lia.
Qed.

Lemma land_1 z : z .& 1 = z mod 2.
Proof. by rewrite (land_mask z 1). Qed.

(** A bound on an unsigned value, as a fact about its bits. *)
Lemma testbit_high z n i : 0 ≤ z < 2 ^ n → n ≤ i → Z.testbit z i = false.
Proof.
  intros Hz Hi. destruct (Z.lt_ge_cases n 0).
  { rewrite Z.pow_neg_r in Hz; lia. }
  rewrite <- (Z.mod_small z (2 ^ n)) by done. by apply Z.mod_pow2_bits_high.
Qed.

Lemma bits_bound z n : 0 ≤ n → 0 ≤ z → (∀ i, n ≤ i → Z.testbit z i = false) → z < 2 ^ n.
Proof.
  intros Hn Hz Hb. destruct (Z.eq_dec z 0) as [-> | Hnz]; [by apply Z.pow_pos_nonneg |].
  apply Z.log2_lt_pow2; [lia |]. apply Z.nle_gt. intros Hle.
  pose proof (Z.bit_log2 z ltac:(lia)) as B. by rewrite (Hb _ Hle) in B.
Qed.

Lemma land_bound a b n : 0 ≤ n → 0 ≤ b < 2 ^ n → 0 ≤ a .& b < 2 ^ n.
Proof.
  intros Hn Hb. assert (0 ≤ a .& b) by (apply Z.land_nonneg; lia).
  split; [done |]. apply bits_bound; try done.
  intros i Hi. rewrite Z.land_spec, (testbit_high b n) by done. apply andb_false_r.
Qed.

Lemma lor_bound a b n : 0 ≤ n → 0 ≤ a < 2 ^ n → 0 ≤ b < 2 ^ n → 0 ≤ a .| b < 2 ^ n.
Proof.
  intros Hn Ha Hb. assert (0 ≤ a .| b) by (apply Z.lor_nonneg; lia).
  split; [done |]. apply bits_bound; try done.
  intros i Hi. by rewrite Z.lor_spec, (testbit_high a n), (testbit_high b n).
Qed.

Lemma lxor_bound a b n : 0 ≤ n → 0 ≤ a < 2 ^ n → 0 ≤ b < 2 ^ n → 0 ≤ a .^ b < 2 ^ n.
Proof.
  intros Hn Ha Hb. assert (0 ≤ a .^ b) by (apply Z.lxor_nonneg; lia).
  split; [done |]. apply bits_bound; try done.
  intros i Hi. by rewrite Z.lxor_spec, (testbit_high a n), (testbit_high b n).
Qed.

(** A mask that clears the low [k] bits of an [n]-bit value. *)
Lemma land_high z n k : 0 ≤ k ≤ n → 0 ≤ z < 2 ^ n → z .& (2 ^ n - 2 ^ k) = z - z mod 2 ^ k.
Proof.
  intros Hk Hz.
  assert (E : 2 ^ n - 2 ^ k = Z.ones (n - k) .<< k).
  { rewrite shiftl_mul, Z.ones_equiv, Z.mul_pred_l, <- Z.pow_add_r by lia. do 2 f_equal; lia. }
  transitivity ((z .>> k) .<< k).
  - rewrite E. apply Z.bits_inj'. intros i Hi. rewrite Z.land_spec, !Z.shiftl_spec by done.
    destruct (Z.lt_ge_cases i k); [rewrite !(Z.testbit_neg_r _ (i - k)) by lia; apply andb_false_r |].
    rewrite Z.shiftr_spec, Z.testbit_ones_nonneg by lia. replace (i - k + k) with i by lia.
    destruct (Z.ltb_spec (i - k) (n - k)); [apply andb_true_r |].
    rewrite (testbit_high z n) by lia. done.
  - rewrite shiftl_mul, shiftr_div by lia. rewrite (Z.div_mod z (2 ^ k)) at 2 by lia. lia.
Qed.

(** ** Automation

    [width] closes bounds of masked and wrapped values; [arith] turns masks and
    shifts by constants into division and remainder and calls [lia]. *)

Create HintDb width.
#[export] Hint Resolve wrap_bound land_bound lor_bound lxor_bound : width.
#[export] Hint Extern 5 (_ ≤ _) => lia : width.
#[export] Hint Extern 5 (_ < _) => lia : width.
#[export] Hint Extern 5 (_ ≤ _ < _) => lia : width.

Ltac width := eauto with width.

(** The exponents of [2 ^ k] that occur are literals: compute them. *)
Ltac pow2_lits :=
  repeat match goal with
  | |- context [2 ^ ?k] =>
      let k' := eval vm_compute in k in
      lazymatch k' with Z0 => idtac | Zpos _ => idtac end;
      let v := eval vm_compute in (2 ^ k') in change (2 ^ k) with v
  | H : context [2 ^ ?k] |- _ =>
      let k' := eval vm_compute in k in
      lazymatch k' with Z0 => idtac | Zpos _ => idtac end;
      let v := eval vm_compute in (2 ^ k') in change (2 ^ k) with v in H
  end.

Ltac unbit :=
  unfold wrap, swrap in *;
  rewrite ?land_BITMASK, ?land_1, ?shiftr_div, ?shiftl_mul in * by lia;
  pow2_lits.

Ltac arith := unbit; Z.to_euclidean_division_equations; lia.

(** Case analysis on the integer comparisons of the goal. *)
Ltac booleans :=
  repeat match goal with
  | |- context [Z.leb ?a ?b] => destruct (Z.leb_spec a b)
  | |- context [Z.ltb ?a ?b] => destruct (Z.ltb_spec a b)
  | |- context [Z.eqb ?a ?b] => destruct (Z.eqb_spec a b)
  end.

Lemma bit_b2z z k : 0 ≤ k → (z .>> k) .& 1 = b2z (Z.testbit z k).
Proof.
  intros. rewrite land_1, <- Z.bit0_mod, Z.shiftr_spec, Z.add_0_l by done.
  by destruct (Z.testbit z k).
Qed.

Lemma b2z_lxor a b : b2z a .^ b2z b = b2z (xorb a b).
Proof. by destruct a, b. Qed.

Lemma b2z_land a b : b2z a .& b2z b = b2z (a && b).
Proof. by destruct a, b. Qed.

(** The most significant bit of a value of [k + 1] bits is a comparison. *)
Lemma top_bit z k : 0 ≤ k → 0 ≤ z < 2 ^ (k + 1) → Z.testbit z k = (2 ^ k <=? z).
Proof.
  intros Hk Hz. rewrite Z.testbit_eqb by done.
  rewrite Z.pow_add_r, Z.pow_1_r in Hz by lia.
  destruct (2 ^ k <=? z) eqn:E; rewrite ?Z.leb_le, ?Z.leb_gt in E.
  - apply Z.eqb_eq. replace (z / 2 ^ k) with 1; [done |].
    apply Z.div_unique with (z - 2 ^ k); lia.
  - by rewrite Z.div_small by lia.
Qed.

(** Testing one bit of a word, as C spells it. *)
Lemma nz_bit z k : 0 ≤ k → nz (z .& (1 .<< k)) = Z.testbit z k.
Proof.
  intros Hk. rewrite Z.shiftl_1_l. unfold nz.
  assert (Hb : ∀ i, 0 ≤ i → Z.testbit (z .& 2 ^ k) i = Z.testbit z i && (k =? i)).
  { intros. by rewrite Z.land_spec, Z.pow2_bits_eqb. }
  destruct (Z.eqb_spec (z .& 2 ^ k) 0) as [E | E].
  - specialize (Hb k Hk). by rewrite E, Z.bits_0, Z.eqb_refl, andb_true_r in Hb.
  - destruct (Z.testbit z k) eqn:T; [done |]. exfalso. apply E.
    apply Z.bits_inj'. intros i Hi. rewrite Hb, Z.bits_0 by done.
    destruct (Z.eqb_spec k i); subst; [by rewrite T | apply andb_false_r].
Qed.

(** [x &= ~v] on 32-bit words. *)
Lemma testbit_andn x v i : 0 ≤ x < 2 ^ 32 → 0 ≤ i →
  Z.testbit (x .& u32 (.~ v)) i = Z.testbit x i && negb (Z.testbit v i).
Proof.
  intros Hx Hi. rewrite Z.land_spec. destruct (Z.lt_ge_cases i 32).
  - unfold wrap. rewrite Z.testbit_mod_pow2, Z.lnot_spec by lia.
    by rewrite (proj2 (Z.ltb_lt _ _)).
  - by rewrite (testbit_high x 32).
Qed.

Lemma testbit_pow2 k i : 0 ≤ k → Z.testbit (2 ^ k) i = (k =? i).
Proof. intros. by apply Z.pow2_bits_eqb. Qed.

Lemma Ok_inj {A} (a b : A) : Ok a = Ok b → a = b.
Proof. by intros [= ->]. Qed.

Lemma s32_small z : - 2 ^ 31 ≤ z < 2 ^ 31 → s32 z = z.
Proof. intros Hz. unfold swrap. pow2_lits. rewrite Z.mod_small; lia. Qed.

(** A decidable fact about constants. *)
Ltac decided := apply (bool_decide_unpack _); by vm_compute.
