(* ===== verification/Bytes.v ===== *)
(** * Byte buffers

    Byte arrays as lists, words as little-endian bytes, and the copies [memcpy] makes
    between a buffer and a zero-initialised array: what the device models that move
    data through guest memory share. *)

From S2P Require Import Prelude.

Definition bytes (l : list Z) : Prop := Forall (λ b, 0 ≤ b < 256) l.

(** The bytes of a [uint16_t] or [uint32_t] in memory (the host is little
    endian), and back. *)
Fixpoint le_bytes (n : nat) (v : Z) : list Z :=
  match n with
  | O => []
  | S n => (v .& 0xff) :: le_bytes n (v .>> 8)
  end.

Fixpoint le_value (l : list Z) : Z :=
  match l with
  | [] => 0
  | b :: l => b + 256 * le_value l
  end.

Lemma le_bytes_length n v : length (le_bytes n v) = n.
Proof. revert v. induction n as [| n IH]; intros v; [done |]. cbn. by rewrite IH. Qed.

Lemma le_bytes_byte n v : bytes (le_bytes n v).
Proof.
  revert v. induction n as [| n IH]; intros v; constructor; [| apply IH].
  change 0xff with (BITMASK 8). arith.
Qed.

Lemma le_value_bytes n v : 0 ≤ v < 2 ^ (8 * Z.of_nat n) → le_value (le_bytes n v) = v.
Proof.
  revert v. induction n as [| n IH]; intros v Hv; [cbn in *; lia |].
  cbn [le_bytes le_value]. rewrite Nat2Z.inj_succ, Z.mul_succ_r, Z.pow_add_r in Hv by lia.
  rewrite IH; change 0xff with (BITMASK 8);
    rewrite ?land_BITMASK, ?shiftr_div by lia; pose proof (Z.div_mod v (2 ^ 8)); [lia |].
  split; [apply Z.div_pos; lia | apply Z.div_lt_upper_bound; lia].
Qed.

Lemma le_value_bound l : bytes l → 0 ≤ le_value l < 2 ^ (8 * Z.of_nat (length l)).
Proof.
  induction 1 as [| b l Hb _ IH]; [done |]. cbn [le_value length].
  rewrite Nat2Z.inj_succ, Z.mul_succ_r, Z.pow_add_r by lia. lia.
Qed.

(** Item [i] of a buffer made of items of one size. *)
Lemma take_drop_chunks (f : Z → list Z) (k : nat) (l : list Z) (i : nat) x :
  (∀ y, length (f y) = k) → l !! i = Some x →
  take k (drop (i * k) (concat (f <$> l))) = f x.
Proof.
  intros Hf. revert i. induction l as [| y l IH]; intros [| i] Hi; try done; cbn in *.
  - injection Hi as ->. rewrite drop_0, take_app_le by (rewrite Hf; lia).
    by rewrite take_ge by (rewrite Hf; lia).
  - rewrite drop_app_ge by (rewrite Hf; lia). rewrite Hf. replace (k + i * k - k)%nat with (i * k)%nat by lia.
    by apply IH.
Qed.

Lemma length_chunks (f : Z → list Z) (k : nat) (l : list Z) :
  (∀ y, length (f y) = k) → length (concat (f <$> l)) = (length l * k)%nat.
Proof. intros Hf. induction l as [| y l IH]; [done |]. cbn. by rewrite length_app, Hf, IH. Qed.

Lemma chunks_bytes (f : Z → list Z) (l : list Z) : (∀ y, bytes (f y)) → bytes (concat (f <$> l)).
Proof. intros Hf. induction l as [| y l IH]; [constructor |]. apply Forall_app. split; [apply Hf | exact IH]. Qed.

(** [memcpy] from a buffer into an array at index [a], and from the array. *)
Fixpoint wr_bytes (m : mem) (a : Z) (l : list Z) : mem :=
  match l with
  | [] => m
  | b :: l => wr_bytes (wr m a b) (a + 1) l
  end.

Definition rd_bytes (m : mem) (a n : Z) : list Z := (λ i, rd m (a + i)) <$> seqZ 0 n.

Lemma rd_bytes_length m a n : length (rd_bytes m a n) = Z.to_nat n.
Proof. unfold rd_bytes. by rewrite length_fmap, length_seqZ. Qed.

Lemma rd_bytes_lookup m a n (i : nat) : Z.of_nat i < n → rd_bytes m a n !! i = Some (rd m (a + Z.of_nat i)).
Proof.
  intros Hi. unfold rd_bytes. rewrite list_lookup_fmap, lookup_seqZ_lt by lia. by rewrite Z.add_0_l.
Qed.

Lemma rd_wr_bytes m a l i :
  rd (wr_bytes m a l) i =
  if decide (a ≤ i < a + Z.of_nat (length l)) then l !!! Z.to_nat (i - a) else rd m i.
Proof.
  revert m a. induction l as [| b l IH]; intros m a; cbn [wr_bytes length].
  { by rewrite decide_False by lia. }
  rewrite IH, rd_wr. repeat case_decide; subst; try lia; try done.
  - replace (Z.to_nat (i - a)) with (S (Z.to_nat (i - (a + 1)))) by lia. done.
  - by rewrite Z.sub_diag.
Qed.

Lemma wr_bytes_fit w m a l : mem_ok w m → Forall (λ v, 0 ≤ v < 2 ^ w) l → mem_ok w (wr_bytes m a l).
Proof.
  intros Hm Hl. revert m a Hm. induction Hl as [| b l Hb _ IH]; intros m a Hm; [done |].
  apply IH. by apply mem_ok_wr.
Qed.

Lemma wr_bytes_ok m a l : mem_ok 8 m → bytes l → mem_ok 8 (wr_bytes m a l).
Proof. apply wr_bytes_fit. Qed.

Lemma rd_bytes_ok m a n : mem_ok 8 m → bytes (rd_bytes m a n).
Proof. intros Hm. apply Forall_fmap, Forall_true. intros i. apply Hm. Qed.

(** A buffer copied in is copied out. *)
Lemma rd_bytes_wr m a l : rd_bytes (wr_bytes m a l) a (Z.of_nat (length l)) = l.
Proof.
  apply list_eq. intros i. destruct (decide (i < length l)%nat) as [Hi | Hi].
  - rewrite rd_bytes_lookup, rd_wr_bytes, decide_True by lia.
    replace (Z.to_nat (a + Z.of_nat i - a)) with i by lia. symmetry. by apply list_lookup_lookup_total_lt.
  - rewrite !lookup_ge_None_2; [done | lia | rewrite rd_bytes_length; lia].
Qed.

Lemma rd_bytes_ext m m' a n :
  (∀ i, 0 ≤ i < n → rd m (a + i) = rd m' (a + i)) → rd_bytes m a n = rd_bytes m' a n.
Proof. intros E. apply list_fmap_ext. intros k i Hi. apply lookup_seqZ in Hi. apply E. lia. Qed.
