(* ===== verification/Fields.v ===== *)
(** * Bit fields of device registers

    The macros [GET_MASK] and [SET_MASK] of the device models: a field of a 32-bit
    register is named by its mask.  Read, written and read back, for every mask of
    consecutive bits. *)

From S2P Require Import Prelude.

(** The number of trailing zeroes. *)
Definition ctz32 (mask : Z) : Z := if mask =? 0 then 32 else Z.log2 (mask .& (- mask)).

Definition GET_MASK (v mask : Z) : Z := (v .& mask) .>> ctz32 mask.

Definition SET_MASK (v mask val : Z) : Z :=
  (v .& u32 (.~ mask)) .| (u32 (val .<< ctz32 mask) .& mask).

Lemma get_mask_bound v mask w : 0 ≤ w → 0 ≤ mask < 2 ^ w → 0 ≤ GET_MASK v mask < 2 ^ w.
Proof.
  intros Hw Hm. unfold GET_MASK. pose proof (land_bound v mask w Hw Hm).
  assert (0 ≤ ctz32 mask) by (unfold ctz32; destruct (_ =? _); [done | apply Z.log2_nonneg]).
  rewrite shiftr_div by done. split; [apply Z.div_pos; lia |].
  apply Z.div_lt_upper_bound; [lia |]. nia.
Qed.

Lemma set_mask_bound v mask val : 0 ≤ v < 2 ^ 32 → 0 ≤ mask < 2 ^ 32 → 0 ≤ SET_MASK v mask val < 2 ^ 32.
Proof.
  intros Hv Hm. apply lor_bound; [done | rewrite Z.land_comm |]; by apply land_bound.
Qed.

(** [w] bits from bit [lo] on. *)
Definition field (lo w : Z) : Z := BITMASK w .<< lo.

Lemma field_bit lo w i : 0 ≤ lo → 0 ≤ w → 0 ≤ i →
  Z.testbit (field lo w) i = (lo <=? i) && (i <? lo + w).
Proof.
  intros Hlo Hw Hi. unfold field. rewrite BITMASK_ones by done. rewrite Z.shiftl_spec by done.
  destruct (Z.leb_spec lo i); cbn [andb].
  - destruct (Z.ltb_spec i (lo + w)); [by rewrite Z.ones_spec_low by lia | by rewrite Z.ones_spec_high by lia].
  - apply Z.testbit_neg_r. lia.
Qed.

Lemma field_pos lo w : 0 ≤ lo → 0 < w → 0 < field lo w.
Proof.
  intros. unfold field. rewrite BITMASK_ones, Z.ones_equiv, shiftl_mul by lia.
  pose proof (Z.pow_gt_1 2 w ltac:(lia)). nia.
Qed.

Lemma ctz_field lo w : 0 ≤ lo → 0 < w → ctz32 (field lo w) = lo.
Proof.
  intros Hlo Hw. pose proof (field_pos lo w Hlo Hw). unfold ctz32.
  rewrite (proj2 (Z.eqb_neq _ _)) by lia. unfold field.
  assert (- (BITMASK w .<< lo) = (- BITMASK w) .<< lo) as -> by (rewrite !shiftl_mul by lia; lia).
  rewrite <- Z.shiftl_land, BITMASK_ones, Z.land_comm, Z.land_ones, Z.ones_equiv by lia.
  replace (- Z.pred (2 ^ w)) with (1 + (-1) * 2 ^ w) by lia.
  rewrite Z.mod_add, Z.mod_small by (pose proof (Z.pow_gt_1 2 w ltac:(lia)); lia).
  rewrite shiftl_mul, Z.mul_1_l by lia. by apply Z.log2_pow2.
Qed.

Section field.
Context (lo w : Z) (Hlo : 0 ≤ lo) (Hw : 0 < w) (Hf : lo + w ≤ 32).

Lemma get_field_bit v i : 0 ≤ i →
  Z.testbit (GET_MASK v (field lo w)) i = (i <? w) && Z.testbit v (i + lo).
Proof.
  intros Hi. unfold GET_MASK. rewrite ctz_field by done.
  rewrite Z.shiftr_spec, Z.land_spec, field_bit by lia.
  rewrite (proj2 (Z.leb_le _ _)) by lia. cbn [andb]. rewrite andb_comm. f_equal.
  destruct (Z.ltb_spec (i + lo) (lo + w)), (Z.ltb_spec i w); lia || done.
Qed.

Lemma get_field_bound v : 0 ≤ GET_MASK v (field lo w) < 2 ^ w.
Proof.
  assert (0 ≤ GET_MASK v (field lo w)); [| split; [done |]; apply bits_bound; [lia | done |]].
  - unfold GET_MASK. rewrite ctz_field by done. apply Z.shiftr_nonneg, Z.land_nonneg.
    right. pose proof (field_pos lo w Hlo Hw). lia.
  - intros i Hi. rewrite get_field_bit by lia. by rewrite (proj2 (Z.ltb_ge _ _)) by lia.
Qed.

Lemma get_field_div v : GET_MASK v (field lo w) = (v / 2 ^ lo) mod 2 ^ w.
Proof using Hlo Hw.
  apply Z.bits_inj'. intros i Hi. rewrite get_field_bit by done. rewrite <- shiftr_div by done.
  destruct (Z.ltb_spec i w); cbn [andb].
  - by rewrite Z.mod_pow2_bits_low, Z.shiftr_spec by lia.
  - by rewrite Z.mod_pow2_bits_high by lia.
Qed.

Lemma set_field_bit v val i : 0 ≤ v < 2 ^ 32 → 0 ≤ i →
  Z.testbit (SET_MASK v (field lo w) val) i =
  if (lo <=? i) && (i <? lo + w) then Z.testbit val (i - lo) else Z.testbit v i.
Proof.
  intros Hv Hi. unfold SET_MASK. rewrite ctz_field by done. unfold wrap.
  rewrite Z.lor_spec, !Z.land_spec, field_bit by lia.
  destruct (Z.lt_ge_cases i 32).
  - rewrite !Z.mod_pow2_bits_low, Z.lnot_spec, field_bit, Z.shiftl_spec by lia.
    destruct ((lo <=? i) && (i <? lo + w)); cbn [negb]; by rewrite ?andb_false_r, ?andb_true_r, ?orb_false_r.
  - rewrite (testbit_high v 32 i) by lia. rewrite Z.mod_pow2_bits_high by lia.
    rewrite (proj2 (Z.ltb_ge _ _)) by lia. by rewrite !andb_false_r.
Qed.

Lemma set_field_bound v val : 0 ≤ v < 2 ^ 32 → 0 ≤ SET_MASK v (field lo w) val < 2 ^ 32.
Proof.
  intros Hv. pose proof (field_pos lo w Hlo Hw). assert (0 ≤ SET_MASK v (field lo w) val); [| split; [done |]; apply bits_bound; [lia | done |]].
  - unfold SET_MASK. apply Z.lor_nonneg. split; apply Z.land_nonneg; [left; lia | right; lia].
  - intros i Hi. rewrite set_field_bit by lia. rewrite (testbit_high v 32 i) by lia.
    by rewrite (proj2 (Z.ltb_ge i (lo + w))), andb_false_r by lia.
Qed.

(** Reading what was written. *)
Lemma get_set_field_mod v val : 0 ≤ v < 2 ^ 32 →
  GET_MASK (SET_MASK v (field lo w) val) (field lo w) = val mod 2 ^ w.
Proof.
  intros Hv. apply Z.bits_inj'. intros i Hi. rewrite get_field_bit, set_field_bit by lia.
  rewrite (proj2 (Z.leb_le lo (i + lo))) by lia. destruct (Z.ltb_spec i w).
  - rewrite (proj2 (Z.ltb_lt (i + lo) (lo + w))), Z.mod_pow2_bits_low by lia. cbn. f_equal. lia.
  - by rewrite Z.mod_pow2_bits_high by lia.
Qed.

Lemma get_set_field v val : 0 ≤ v < 2 ^ 32 → 0 ≤ val < 2 ^ w →
  GET_MASK (SET_MASK v (field lo w) val) (field lo w) = val.
Proof.
  intros Hv Hval. rewrite get_set_field_mod by done. by apply Z.mod_small.
Qed.

(** A field apart from the one written. *)
Lemma get_set_field_other v val lo' w' : 0 ≤ v < 2 ^ 32 → 0 ≤ lo' → 0 < w' → lo' + w' ≤ 32 →
  lo + w ≤ lo' ∨ lo' + w' ≤ lo →
  GET_MASK (SET_MASK v (field lo w) val) (field lo' w') = GET_MASK v (field lo' w').
Proof using Hlo Hw Hf.
  intros Hv Hlo' Hw' Hf' Hd. apply Z.bits_inj'. intros i Hi.
  unfold GET_MASK. rewrite ctz_field by done.
  rewrite !Z.shiftr_spec, !Z.land_spec, field_bit, set_field_bit by lia.
  destruct ((lo <=? i + lo') && (i + lo' <? lo + w)) eqn:E; [| done].
  apply andb_prop in E as [?%Z.leb_le ?%Z.ltb_lt].
  replace ((lo' <=? i + lo') && (i + lo' <? lo' + w')) with false; [by rewrite !andb_false_r |].
  symmetry. apply andb_false_iff. right. apply Z.ltb_ge. lia.
Qed.

(** Writing a field that is clear. *)
Lemma set_field_add v val : 0 ≤ v < 2 ^ 32 → 0 ≤ val < 2 ^ w → GET_MASK v (field lo w) = 0 →
  SET_MASK v (field lo w) val = v + val * 2 ^ lo.
Proof.
  intros Hv Hval E. rewrite <- shiftl_mul by done.
  assert (C : ∀ i, lo ≤ i < lo + w → Z.testbit v i = false).
  { intros i Hi. pose proof (get_field_bit v (i - lo) ltac:(lia)) as B.
    rewrite E, Z.bits_0, (proj2 (Z.ltb_lt _ _)) in B by lia. cbn in B. by replace (i - lo + lo) with i in B by lia. }
  assert (O : ∀ i, 0 ≤ i → ~ lo ≤ i < lo + w → Z.testbit val (i - lo) = false).
  { intros i Hi N. destruct (Z.lt_ge_cases i lo); [apply Z.testbit_neg_r; lia | apply (testbit_high val w); lia]. }
  rewrite <- lor_add.
  - apply Z.bits_inj'. intros i Hi. rewrite set_field_bit, Z.lor_spec, Z.shiftl_spec by lia.
    destruct (Z.leb_spec lo i), (Z.ltb_spec i (lo + w)); cbn [andb];
      (rewrite C by lia; done) || (rewrite O by lia; by rewrite orb_false_r).
  - apply Z.bits_inj'. intros i Hi. rewrite Z.land_spec, Z.shiftl_spec, Z.bits_0 by lia.
    destruct (decide (lo ≤ i < lo + w)); [by rewrite C | by rewrite O, andb_false_r by lia].
Qed.

(** The masked value itself. *)
Lemma land_field v : v .& field lo w = (v / 2 ^ lo) mod 2 ^ w * 2 ^ lo.
Proof using Hlo Hw.
  rewrite <- shiftl_mul, <- shiftr_div by done. apply Z.bits_inj'. intros i Hi.
  rewrite Z.land_spec, field_bit, Z.shiftl_spec by lia.
  destruct (Z.leb_spec lo i); cbn [andb]; [| rewrite andb_false_r; symmetry; apply Z.testbit_neg_r; lia].
  destruct (Z.ltb_spec i (lo + w)).
  - rewrite andb_true_r, Z.mod_pow2_bits_low, Z.shiftr_spec by lia. f_equal. lia.
  - by rewrite andb_false_r, Z.mod_pow2_bits_high by lia.
Qed.

End field.
