(* ===== verification/Dsp56.v ===== *)
(** * 56-bit accumulator arithmetic of the DSP56300 core

    The routines of src/hw/xbox/dsp/dsp_cpu.c under "56bit arithmetic".  An
    accumulator is the [uint32_t[3]] the C code passes around; every routine
    that mutates its [dest] argument returns the new array, with the status
    bits it returns in C.  The theorems relate the digit-wise code to integer
    arithmetic modulo 2^56 and its flags to unsigned and signed overflow. *)

From S2P Require Import Prelude.

(** Bit positions in the status register. *)
Definition DSP_SR_C := 0x00.
Definition DSP_SR_V := 0x01.
Definition DSP_SR_Z := 0x02.
Definition DSP_SR_N := 0x03.
Definition DSP_SR_U := 0x04.
Definition DSP_SR_E := 0x05.
Definition DSP_SR_L := 0x06.
Definition DSP_SR_I0 := 0x08.
Definition DSP_SR_I1 := 0x09.
Definition DSP_SR_S0 := 0x0a.
Definition DSP_SR_S1 := 0x0b.
Definition DSP_SR_T := 0x0d.
Definition DSP_SR_LF := 0x0f.

(** [dest[0]] is bits 55:48, [dest[1]] bits 47:24, [dest[2]] bits 23:0. *)
Record acc56 := Acc56 { a0 : Z; a1 : Z; a2 : Z }.

#[global] Instance acc56_eq_dec : EqDecision acc56.
Proof. solve_decision. Defined.

Definition zero56 : acc56 := Acc56 0 0 0.

(** ** The routines *)

Definition dsp_add56 (source dest : acc56) : Z * acc56 :=
  let flg_s := (a0 source .>> 7) .& 1 in
  let flg_d := (a0 dest .>> 7) .& 1 in
  let d2 := u32 (a2 dest + a2 source) in
  let d1 := u32 (a1 dest + u32 (a1 source + ((d2 .>> 24) .& 1))) in
  let d0 := u32 (a0 dest + u32 (a0 source + ((d1 .>> 24) .& 1))) in
  let carry := (d0 .>> 8) .& 1 in
  let d2 := d2 .& BITMASK 24 in
  let d1 := d1 .& BITMASK 24 in
  let d0 := d0 .& BITMASK 8 in
  let flg_r := (d0 .>> 7) .& 1 in
  let overflow := (flg_s .^ flg_r) .& (flg_d .^ flg_r) in
  (u16 ((overflow .<< DSP_SR_L) .| (overflow .<< DSP_SR_V) .| (carry .<< DSP_SR_C)),
   Acc56 d0 d1 d2).

Definition dsp_sub56 (source dest : acc56) : Z * acc56 :=
  let dest_save := u16 (a0 dest) in
  let d2 := u32 (a2 dest - a2 source) in
  let d1 := u32 (a1 dest - u32 (a1 source + ((d2 .>> 24) .& 1))) in
  let d0 := u32 (a0 dest - u32 (a0 source + ((d1 .>> 24) .& 1))) in
  let carry := (d0 .>> 8) .& 1 in
  let d2 := d2 .& BITMASK 24 in
  let d1 := d1 .& BITMASK 24 in
  let d0 := d0 .& BITMASK 8 in
  let flg_s := (a0 source .>> 7) .& 1 in
  let flg_d := (dest_save .>> 7) .& 1 in
  let flg_r := (d0 .>> 7) .& 1 in
  let overflow := (flg_s .^ flg_d) .& (flg_r .^ flg_d) in
  (u16 ((overflow .<< DSP_SR_L) .| (overflow .<< DSP_SR_V) .| (carry .<< DSP_SR_C)),
   Acc56 d0 d1 d2).

(** The 64-bit value the shifts work on. *)
Definition dest_v (dest : acc56) : Z :=
  u64 (a2 dest .| (a1 dest .<< 24) .| (a0 dest .<< 48)).

(** A shift count outside 0..63 is undefined in C. *)
Definition shift_ok (n : Z) : res () :=
  if (0 <=? n) && (n <? 64) then Ok tt else Fault undefined_behaviour.

Definition dsp_asl56 (dest : acc56) (n : Z) : res (Z * acc56) :=
  let v := dest_v dest in
  _ ← shift_ok (56 - n);
  let carry := (v .>> (56 - n)) .& 1 in
  _ ← shift_ok n;
  let s := u64 (v .<< n) in
  let d2 := s .& BITMASK 24 in
  let d1 := (s .>> 24) .& BITMASK 24 in
  let d0 := (s .>> 48) .& BITMASK 8 in
  let overflow := b2z (nz (v .>> (56 - n))) in
  let vf := b2z (negb (((v .>> 55) .& 1) =? ((s .>> 55) .& 1))) in
  Ok (u16 ((overflow .<< DSP_SR_L) .| (vf .<< DSP_SR_V) .| (carry .<< DSP_SR_C)),
      Acc56 d0 d1 d2).

Definition dsp_asr56 (dest : acc56) (n : Z) : res (Z * acc56) :=
  let v := dest_v dest in
  _ ← shift_ok (n - 1);
  let carry := (v .>> (n - 1)) .& 1 in
  _ ← shift_ok n;
  let v := v .>> n in
  let d2 := v .& BITMASK 24 in
  let d1 := (v .>> 24) .& BITMASK 24 in
  let d0 := (v .>> 48) .& BITMASK 8 in
  Ok (u16 (carry .<< DSP_SR_C), Acc56 d0 d1 d2).

Definition dsp_abs56 (dest : acc56) : Z * acc56 :=
  if nz (a0 dest .& (1 .<< 7)) then dsp_sub56 dest zero56 else (0, dest).

Definition dsp_mul56 (source1 source2 signe : Z) : res acc56 :=
  let neg1 := nz (source1 .& (1 .<< 23)) in
  let signe := if neg1 then signe .^ 1 else signe in
  let source1 := if neg1 then u32 ((1 .<< 24) - source1) else source1 in
  let neg2 := nz (source2 .& (1 .<< 23)) in
  let signe := if neg2 then signe .^ 1 else signe in
  let source2 := if neg2 then u32 ((1 .<< 24) - source2) else source2 in
  let part0 := u32 ((source1 .& BITMASK 12) * (source2 .& BITMASK 12)) in
  let part1 := u32 (((source1 .>> 12) .& BITMASK 12) * (source2 .& BITMASK 12)) in
  let part2 := u32 ((source1 .& BITMASK 12) * ((source2 .>> 12) .& BITMASK 12)) in
  let part3 := u32 (((source1 .>> 12) .& BITMASK 12) * ((source2 .>> 12) .& BITMASK 12)) in
  let d2 := part0 in
  let d2 := u32 (d2 + ((part1 .& BITMASK 12) .<< 12)) in
  let d2 := u32 (d2 + ((part2 .& BITMASK 12) .<< 12)) in
  let d1 := (part1 .>> 12) .& BITMASK 12 in
  let d1 := u32 (d1 + ((part2 .>> 12) .& BITMASK 12)) in
  let d1 := u32 (d1 + part3) in
  let d0 := 0 in
  let value := (d2 .>> 24) .& BITMASK 8 in
  let d1 := if nz value then u32 (d1 + value) else d1 in
  let d2 := if nz value then d2 .& BITMASK 24 else d2 in
  let value := (d1 .>> 24) .& BITMASK 8 in
  let d0 := if nz value then u32 (d0 + value) else d0 in
  let d1 := if nz value then d1 .& BITMASK 24 else d1 in
  '(_, dest) ← dsp_asl56 (Acc56 d0 d1 d2) 1;
  if nz signe then Ok (dsp_sub56 dest zero56).2 else Ok dest.

(** [dsp_rnd56] reads the scaling mode in the status register [sr]. *)
Definition dsp_rnd56 (sr : Z) (dest : acc56) : acc56 :=
  if nz (sr .& (1 .<< DSP_SR_S0)) then
    let d := (dsp_add56 (Acc56 0 1 0) dest).2 in
    let d1 := if (a2 d =? 0) && ((a1 d .& 1) =? 0)
              then a1 d .& (0xffffff - 0x3) else a1 d in
    Acc56 (a0 d) (d1 .& 0xfffffe) 0
  else if nz (sr .& (1 .<< DSP_SR_S1)) then
    let d := (dsp_add56 (Acc56 0 0 (1 .<< 22)) dest).2 in
    let d2 := if (a2 d .& 0x7fffff) =? 0 then 0 else a2 d in
    Acc56 (a0 d) (a1 d) (d2 .& 0x800000)
  else
    let d := (dsp_add56 (Acc56 0 0 (1 .<< 23)) dest).2 in
    let d1 := if a2 d =? 0 then a1 d .& 0xfffffe else a1 d in
    Acc56 (a0 d) d1 0.

Definition dsp_signextend (bits v : Z) : res Z :=
  let shift := 32 - bits in
  _ ← assert (0 <? shift);
  if shift <? 32 then Ok (u32 (s32 (v .<< shift) .>> shift))
  else Fault undefined_behaviour.

(** ** Values *)

Definition wf56 (a : acc56) : Prop :=
  0 ≤ a0 a < 2 ^ 8 ∧ 0 ≤ a1 a < 2 ^ 24 ∧ 0 ≤ a2 a < 2 ^ 24.

(** The unsigned value, and the two's complement one. *)
Definition val56 (a : acc56) : Z := a0 a * 2 ^ 48 + a1 a * 2 ^ 24 + a2 a.
Definition sval56 (a : acc56) : Z := swrap 56 (val56 a).

Lemma val56_bound a : wf56 a → 0 ≤ val56 a < 2 ^ 56.
Proof. unfold wf56, val56. lia. Qed.

Lemma val56_inj a b : wf56 a → wf56 b → val56 a = val56 b → a = b.
Proof.
  unfold wf56, val56. destruct a, b; cbn. intros. f_equal; lia.
Qed.

#[export] Hint Resolve val56_bound : width.

Lemma sval56_alt a : wf56 a → sval56 a = val56 a - (if 128 <=? a0 a then 2 ^ 56 else 0).
Proof.
  unfold wf56, sval56, val56. destruct a as [x0 x1 x2]; cbn [a0 a1 a2].
  intros. booleans; arith.
Qed.

(** A value that two's complement of 56 bits can hold. *)
Definition sfits56 (z : Z) : bool := (- 2 ^ 55 <=? z) && (z <? 2 ^ 55).

(** The status word built from an overflow and a carry. *)
Definition sr_lvc (overflow carry : bool) : Z :=
  u16 ((b2z overflow .<< DSP_SR_L) .| (b2z overflow .<< DSP_SR_V) .| (b2z carry .<< DSP_SR_C)).

Lemma sr_lvc_bits o c :
  Z.testbit (sr_lvc o c) DSP_SR_C = c ∧ Z.testbit (sr_lvc o c) DSP_SR_V = o ∧
  Z.testbit (sr_lvc o c) DSP_SR_L = o.
Proof. by destruct o, c. Qed.

(** Split a 64-bit value into accumulator digits, as the shifts do. *)
Definition digits56 (s : Z) : acc56 :=
  Acc56 ((s .>> 48) .& BITMASK 8) ((s .>> 24) .& BITMASK 24) (s .& BITMASK 24).

Lemma digits56_spec s : 0 ≤ s → wf56 (digits56 s) ∧ val56 (digits56 s) = s mod 2 ^ 56.
Proof. intros. unfold wf56, val56, digits56; cbn [a0 a1 a2]. arith. Qed.

Lemma dest_v_val a : wf56 a → dest_v a = val56 a.
Proof.
  intros (H0 & H1 & H2). unfold dest_v, val56.
  rewrite (Z.lor_comm (a2 a)), lor_concat, Z.lor_comm, lor_concat by lia.
  rewrite wrap_small; lia.
Qed.

(** ** Addition and subtraction *)

Lemma add56_val s d : wf56 s → wf56 d →
  wf56 (dsp_add56 s d).2 ∧ val56 (dsp_add56 s d).2 = (val56 s + val56 d) mod 2 ^ 56.
Proof.
  unfold wf56, val56, dsp_add56.
  destruct s as [s0 s1 s2], d as [d0 d1 d2]; cbn [a0 a1 a2 fst snd]. intros. arith.
Qed.

Lemma sub56_val s d : wf56 s → wf56 d →
  wf56 (dsp_sub56 s d).2 ∧ val56 (dsp_sub56 s d).2 = (val56 d - val56 s) mod 2 ^ 56.
Proof.
  unfold wf56, val56, dsp_sub56.
  destruct s as [s0 s1 s2], d as [d0 d1 d2]; cbn [a0 a1 a2 fst snd]. intros. arith.
Qed.

(** The top digit before it is masked holds the carry out of bit 55 (the
    borrow, for the subtraction, where it wraps at 32 bits). *)
Lemma add56_top s d : wf56 s → wf56 d → ∃ r0 lo,
  0 ≤ lo < 2 ^ 48 ∧ val56 s + val56 d = r0 * 2 ^ 48 + lo ∧
  r0 = u32 (a0 d + u32 (a0 s +
        (u32 (a1 d + u32 (a1 s + (u32 (a2 d + a2 s) .>> 24) .& 1)) .>> 24) .& 1)).
Proof.
  intros Hs Hd. eexists _, ((val56 s + val56 d) mod 2 ^ 48).
  split; [arith | split; [| reflexivity]]. revert Hs Hd. unfold wf56, val56.
  destruct s as [s0 s1 s2], d as [d0 d1 d2]; cbn [a0 a1 a2]. intros. arith.
Qed.

Lemma sub56_top s d : wf56 s → wf56 d → ∃ r0 lo,
  0 ≤ lo < 2 ^ 48 ∧ val56 d - val56 s = r0 * 2 ^ 48 + lo ∧
  u32 r0 = u32 (a0 d - u32 (a0 s +
        (u32 (a1 d - u32 (a1 s + (u32 (a2 d - a2 s) .>> 24) .& 1)) .>> 24) .& 1)).
Proof.
  intros Hs Hd. eexists ((val56 d - val56 s) / 2 ^ 48), ((val56 d - val56 s) mod 2 ^ 48).
  split; [arith | split; [arith |]]. revert Hs Hd. unfold wf56, val56.
  destruct s as [s0 s1 s2], d as [d0 d1 d2]; cbn [a0 a1 a2]. intros. arith.
Qed.

Ltac flags56 :=
  unfold sfits56; unbit; booleans; cbn; try done; exfalso;
  Z.to_euclidean_division_equations; lia.

Lemma add56_flags s d : wf56 s → wf56 d →
  (dsp_add56 s d).1 =
  sr_lvc (negb (sfits56 (sval56 s + sval56 d))) (2 ^ 56 <=? val56 s + val56 d).
Proof.
  intros Hs Hd. rewrite !sval56_alt by done.
  destruct (add56_top s d Hs Hd) as (r0 & lo & Hlo & Hsum & Er0).
  unfold dsp_add56, sr_lvc; cbn [fst]. rewrite <- Er0. clear Er0.
  rewrite !bit_b2z, !b2z_lxor, !b2z_land by done. unfold wf56, val56 in *.
  assert (0 ≤ r0 < 2 ^ 9) by lia.
  rewrite (top_bit r0 8), (top_bit (a0 s) 7), (top_bit (a0 d) 7),
    (top_bit (r0 .& BITMASK 8) 7) by (done || arith).
  do 2 f_equal; [f_equal |]; f_equal; f_equal; flags56.
Qed.

Lemma sub56_flags s d : wf56 s → wf56 d →
  (dsp_sub56 s d).1 =
  sr_lvc (negb (sfits56 (sval56 d - sval56 s))) (val56 d <? val56 s).
Proof.
  intros Hs Hd. rewrite !sval56_alt by done.
  destruct (sub56_top s d Hs Hd) as (r0 & lo & Hlo & Hsum & Er0).
  unfold dsp_sub56, sr_lvc; cbn [fst]. rewrite <- Er0. clear Er0.
  rewrite !bit_b2z, !b2z_lxor, !b2z_land by done. unfold wf56, val56 in *.
  assert (- 2 ^ 8 ≤ r0 < 2 ^ 8) by lia.
  rewrite wrap_small with (w := 16) (z := a0 d) by lia.
  assert (C : Z.testbit (u32 r0) 8 = (r0 <? 0)).
  { rewrite Z.testbit_eqb by done. flags56. }
  rewrite C, (top_bit (a0 s) 7), (top_bit (a0 d) 7),
    (top_bit (u32 r0 .& BITMASK 8) 7) by (done || arith).
  do 2 f_equal; [f_equal |]; f_equal; f_equal; flags56.
Qed.

(** [dsp_add56] adds two accumulators modulo 2^56 digit by digit; the carry
    it reports is the carry out of bit 55, and V and L are set exactly when the
    sum of the two's complement values does not fit in 56 bits. *)
Theorem dsp_add56_correct s d : wf56 s → wf56 d →
  let '(sr, r) := dsp_add56 s d in
  wf56 r ∧ val56 r = (val56 s + val56 d) mod 2 ^ 56 ∧
  Z.testbit sr DSP_SR_C = (2 ^ 56 <=? val56 s + val56 d) ∧
  Z.testbit sr DSP_SR_V = negb (sfits56 (sval56 s + sval56 d)) ∧
  Z.testbit sr DSP_SR_L = negb (sfits56 (sval56 s + sval56 d)).
Proof.
  intros Hs Hd. pose proof (add56_val s d Hs Hd) as [? ?].
  pose proof (add56_flags s d Hs Hd) as F. destruct (dsp_add56 s d) as [sr r].
  cbn in *. subst sr. by destruct (sr_lvc_bits
    (negb (sfits56 (sval56 s + sval56 d))) (2 ^ 56 <=? val56 s + val56 d)) as (? & ? & ?).
Qed.

(** The largest accumulator plus one overflows to the smallest. *)
Lemma dsp_add56_witness :
  val56 (dsp_add56 (Acc56 0 0 1) (Acc56 0x7f 0xffffff 0xffffff)).2 = 2 ^ 55 ∧
  Z.testbit (dsp_add56 (Acc56 0 0 1) (Acc56 0x7f 0xffffff 0xffffff)).1 DSP_SR_V = true.
Proof.
  pose proof (dsp_add56_correct (Acc56 0 0 1) (Acc56 0x7f 0xffffff 0xffffff)
    ltac:(done) ltac:(done)) as H.
  destruct (dsp_add56 _ _) as [sr r]. destruct H as (_ & Hv & _ & HV & _).
  cbn [fst snd]. rewrite Hv, HV. done.
Defined.

(** [dsp_sub56] subtracts modulo 2^56; carry is the borrow, and V and L are
    set exactly when the difference of the two's complement values overflows. *)
Theorem dsp_sub56_correct s d : wf56 s → wf56 d →
  let '(sr, r) := dsp_sub56 s d in
  wf56 r ∧ val56 r = (val56 d - val56 s) mod 2 ^ 56 ∧
  Z.testbit sr DSP_SR_C = (val56 d <? val56 s) ∧
  Z.testbit sr DSP_SR_V = negb (sfits56 (sval56 d - sval56 s)) ∧
  Z.testbit sr DSP_SR_L = negb (sfits56 (sval56 d - sval56 s)).
Proof.
  intros Hs Hd. pose proof (sub56_val s d Hs Hd) as [? ?].
  pose proof (sub56_flags s d Hs Hd) as F. destruct (dsp_sub56 s d) as [sr r].
  cbn in *. subst sr. by destruct (sr_lvc_bits
    (negb (sfits56 (sval56 d - sval56 s))) (val56 d <? val56 s)) as (? & ? & ?).
Qed.

(** Zero minus one borrows. *)
Lemma dsp_sub56_witness :
  val56 (dsp_sub56 (Acc56 0 0 1) (Acc56 0 0 0)).2 = 2 ^ 56 - 1 ∧
  Z.testbit (dsp_sub56 (Acc56 0 0 1) (Acc56 0 0 0)).1 DSP_SR_C = true.
Proof.
  pose proof (dsp_sub56_correct (Acc56 0 0 1) (Acc56 0 0 0) ltac:(done) ltac:(done)) as H.
  destruct (dsp_sub56 _ _) as [sr r]. destruct H as (_ & Hv & HC & _).
  cbn [fst snd]. rewrite Hv, HC. done.
Defined.

(** ** Shifts *)

Lemma shift_ok_Ok n : 0 ≤ n < 64 → shift_ok n = Ok tt.
Proof. intros. unfold shift_ok. by rewrite (proj2 (Z.leb_le 0 n)), (proj2 (Z.ltb_lt n 64)) by lia. Qed.

Lemma shift_bad n : n < 0 → shift_ok n = Fault undefined_behaviour.
Proof. intros. unfold shift_ok. by rewrite (proj2 (Z.leb_gt 0 n)). Qed.

Lemma asl56_spec d n : wf56 d → 0 ≤ n ≤ 56 → ∃ sr r,
  dsp_asl56 d n = Ok (sr, r) ∧ wf56 r ∧ val56 r = (val56 d * 2 ^ n) mod 2 ^ 56 ∧
  Z.testbit sr DSP_SR_C = Z.testbit (val56 d) (56 - n) ∧
  Z.testbit sr DSP_SR_V = xorb (Z.testbit (val56 d) 55) (Z.testbit (val56 r) 55) ∧
  Z.testbit sr DSP_SR_L = negb (val56 d / 2 ^ (56 - n) =? 0) ∧
  ∀ i, 7 ≤ i → Z.testbit sr i = false.
Proof.
  intros Hd Hn. unfold dsp_asl56.
  rewrite !shift_ok_Ok, dest_v_val, !bit_b2z by (lia || done).
  set (s := u64 (val56 d .<< n)).
  destruct (digits56_spec s) as [Hw Hv]; [subst s; unfold wrap; apply Z.mod_pos_bound; lia |].
  do 2 eexists. split; [reflexivity |]. fold (digits56 s). split; [done |].
  assert (Es : s mod 2 ^ 56 = (val56 d * 2 ^ n) mod 2 ^ 56).
  { subst s. unfold wrap. rewrite shiftl_mul by lia.
    by apply mod_mod_pow2. }
  rewrite Hv, Es. split; [done |].
  assert (E55 : Z.testbit ((val56 d * 2 ^ n) mod 2 ^ 56) 55 = Z.testbit s 55).
  { rewrite <- Es. by apply Z.mod_pow2_bits_low. }
  rewrite E55. unfold nz. rewrite shiftr_div by lia.
  destruct (Z.testbit (val56 d) (56 - n)), (negb (val56 d / 2 ^ (56 - n) =? 0)),
    (Z.testbit (val56 d) 55), (Z.testbit s 55); (do 3 (split; [done |]));
    intros i Hi; by apply (testbit_high _ 7).
Qed.

Lemma asl56_undefined d n : 56 < n → dsp_asl56 d n = Fault undefined_behaviour.
Proof. intros. unfold dsp_asl56. by rewrite (shift_bad (56 - n)) by lia. Qed.

(** [dsp_asr56] divides the unsigned value by 2^n: vacated bits are filled
    with zeros, so on a negative accumulator the two's complement result is
    2^(56-n) more than that of an arithmetic shift. *)
Lemma asr56_spec d n : wf56 d → 1 ≤ n ≤ 56 → ∃ sr r,
  dsp_asr56 d n = Ok (sr, r) ∧ wf56 r ∧ val56 r = val56 d / 2 ^ n ∧
  sr = b2z (Z.testbit (val56 d) (n - 1)) ∧
  sval56 r = sval56 d / 2 ^ n + (if sval56 d <? 0 then 2 ^ (56 - n) else 0).
Proof.
  intros Hd Hn. unfold dsp_asr56.
  rewrite !shift_ok_Ok, dest_v_val, !bit_b2z by (lia || done). cbn [mbind res_bind].
  pose proof (val56_bound d Hd) as Hb. set (s := val56 d .>> n).
  assert (Es : s = val56 d / 2 ^ n) by (apply shiftr_div; lia).
  assert (H2 : 2 ^ 56 = 2 ^ (56 - n) * 2 ^ n) by (rewrite <- Z.pow_add_r by lia; f_equal; lia).
  assert (Hhalf : 2 ^ (56 - n) ≤ 2 ^ 55) by (apply Z.pow_le_mono_r; lia).
  assert (Hs : 0 ≤ s < 2 ^ (56 - n)).
  { rewrite Es. split; [apply Z.div_pos; lia | apply Z.div_lt_upper_bound; lia]. }
  destruct (digits56_spec s) as [Hw Hv]; [lia |]. rewrite Z.mod_small in Hv by lia.
  do 2 eexists. split; [reflexivity |]. fold (digits56 s).
  split; [done |]. split; [by rewrite Hv |].
  split; [by destruct (Z.testbit (val56 d) (n - 1)) |].
  assert (Er : sval56 (digits56 s) = s).
  { unfold sval56, swrap. rewrite Hv, Z.mod_small; lia. }
  rewrite Er, sval56_alt, Es by done.
  destruct Hd as (Hd0 & Hd1 & Hd2). unfold val56 in *.
  destruct (Z.leb_spec 128 (a0 d)); rewrite ?(proj2 (Z.ltb_lt _ _)), ?(proj2 (Z.ltb_ge _ _)) by lia.
  - rewrite H2, <- Z.add_opp_r, <- Z.mul_opp_l, Z.div_add by lia. lia.
  - by rewrite Z.sub_0_r, Z.add_0_r.
Qed.

(** ** Absolute value, sign extension *)

(** [dsp_abs56] leaves the absolute value of the two's complement
    accumulator, and reports an overflow exactly for -2^55, whose absolute
    value 56 bits cannot hold. *)
Lemma abs56_spec d : wf56 d →
  let '(sr, r) := dsp_abs56 d in
  wf56 r ∧ val56 r = Z.abs (sval56 d) ∧
  Z.testbit sr DSP_SR_V = (sval56 d =? - 2 ^ 55).
Proof.
  intros Hd. pose proof (sval56_alt d Hd) as Es. pose proof Hd as (H0 & H1 & H2).
  unfold dsp_abs56. rewrite nz_bit, (top_bit (a0 d) 7) by lia. change (2 ^ 7) with 128.
  destruct (Z.leb_spec 128 (a0 d)).
  - destruct (sub56_val d zero56 Hd ltac:(done)) as [? Hv].
    pose proof (sub56_flags d zero56 Hd ltac:(done)) as F.
    destruct (dsp_sub56 d zero56) as [sr r]. cbn [fst snd] in *. subst sr.
    destruct (sr_lvc_bits (negb (sfits56 (sval56 zero56 - sval56 d)))
                (val56 zero56 <? val56 d)) as (_ & -> & _).
    unfold val56 in *. cbn [a0 a1 a2 zero56] in *.
    split; [done |]. split; [rewrite Hv, Es; arith |].
    rewrite Es. change (sval56 zero56) with 0. unfold sfits56. booleans; cbn; lia.
  - split; [done |]. rewrite Es. unfold val56. split; [lia |].
    symmetry. apply Z.eqb_neq. lia.
Qed.

(** for every width from 1 to 31, [dsp_signextend] computes the two's
    complement value of the low [bits] bits, as a 32-bit word. *)
Lemma signextend_spec bits v : 1 ≤ bits ≤ 31 → 0 ≤ v < 2 ^ 32 →
  dsp_signextend bits v = Ok (u32 (swrap bits v)).
Proof.
  intros Hb Hv. unfold dsp_signextend.
  rewrite (proj2 (Z.ltb_lt 0 _)), (proj2 (Z.ltb_lt _ 32)) by lia. cbn. do 2 f_equal.
  assert (E : ∀ k, 1 ≤ k ≤ 31 → 2 ^ 32 = 2 ^ k * 2 ^ (32 - k) ∧
                  2 ^ 31 = 2 ^ (k - 1) * 2 ^ (32 - k)).
  { intros. rewrite <- !Z.pow_add_r by lia. split; f_equal; lia. }
  destruct (E bits Hb) as [E32 E31]. unfold swrap.
  rewrite shiftr_div, shiftl_mul by lia. change (32 - 1) with 31. rewrite E32, E31.
  rewrite <- Z.mul_add_distr_r, Z.mul_mod_distr_r by (apply Z.pow_nonzero; lia).
  rewrite <- Z.mul_sub_distr_r. apply Z.div_mul. lia.
Qed.

(** ** Multiplication *)

(** The magnitude and sign the multiplication extracts from a 24-bit operand. *)
Lemma mul56_operand s signe : 0 ≤ s < 2 ^ 24 → 0 ≤ signe < 2 →
  let neg := nz (s .& (1 .<< 23)) in
  let m := if neg then u32 ((1 .<< 24) - s) else s in
  0 ≤ m ≤ 2 ^ 23 ∧ swrap 24 s = (if neg then - m else m).
Proof.
  intros Hs Hg. rewrite nz_bit, (top_bit s 23) by lia. cbn zeta.
  change (1 .<< 24) with (2 ^ 24). change (2 ^ 23) with 8388608.
  destruct (Z.leb_spec 8388608 s); arith.
Qed.

Definition mul_digits (m1 m2 : Z) : acc56 :=
  let part0 := u32 ((m1 .& BITMASK 12) * (m2 .& BITMASK 12)) in
  let part1 := u32 (((m1 .>> 12) .& BITMASK 12) * (m2 .& BITMASK 12)) in
  let part2 := u32 ((m1 .& BITMASK 12) * ((m2 .>> 12) .& BITMASK 12)) in
  let part3 := u32 (((m1 .>> 12) .& BITMASK 12) * ((m2 .>> 12) .& BITMASK 12)) in
  let d2 := u32 (u32 (part0 + ((part1 .& BITMASK 12) .<< 12)) + ((part2 .& BITMASK 12) .<< 12)) in
  let d1 := u32 (u32 (((part1 .>> 12) .& BITMASK 12) + ((part2 .>> 12) .& BITMASK 12)) + part3) in
  let value := (d2 .>> 24) .& BITMASK 8 in
  let d1 := if nz value then u32 (d1 + value) else d1 in
  let d2 := if nz value then d2 .& BITMASK 24 else d2 in
  let value := (d1 .>> 24) .& BITMASK 8 in
  let d0 := if nz value then u32 (0 + value) else 0 in
  let d1 := if nz value then d1 .& BITMASK 24 else d1 in
  Acc56 d0 d1 d2.

(** The four 12-bit partial products, summed with their carries, are the
    product of the magnitudes. *)
Lemma mul_digits_spec m1 m2 : 0 ≤ m1 ≤ 2 ^ 23 → 0 ≤ m2 ≤ 2 ^ 23 →
  wf56 (mul_digits m1 m2) ∧ val56 (mul_digits m1 m2) = m1 * m2.
Proof.
  intros H1 H2. unfold mul_digits.
  rewrite !land_BITMASK, !shiftr_div by lia.
  set (l1 := m1 mod 2 ^ 12). set (l2 := m2 mod 2 ^ 12).
  set (h1 := (m1 / 2 ^ 12) mod 2 ^ 12). set (h2 := (m2 / 2 ^ 12) mod 2 ^ 12).
  assert (B : 0 ≤ l1 < 4096 ∧ 0 ≤ l2 < 4096 ∧ 0 ≤ h1 ≤ 2048 ∧ 0 ≤ h2 ≤ 2048 ∧
              m1 = h1 * 4096 + l1 ∧ m2 = h2 * 4096 + l2).
  { subst l1 l2 h1 h2. clear -H1 H2. pow2_lits. Z.to_euclidean_division_equations. lia. }
  clearbody l1 l2 h1 h2. destruct B as (B1 & B2 & B3 & B4 & -> & ->).
  replace ((h1 * 4096 + l1) * (h2 * 4096 + l2))
    with (h1 * h2 * 16777216 + (h1 * l2 + l1 * h2) * 4096 + l1 * l2) by ring.
  assert (P0 : 0 ≤ l1 * l2 ≤ 4095 * 4095) by nia.
  assert (P1 : 0 ≤ h1 * l2 ≤ 2048 * 4095) by nia.
  assert (P2 : 0 ≤ l1 * h2 ≤ 4095 * 2048) by nia.
  assert (P3 : 0 ≤ h1 * h2 ≤ 2048 * 2048) by nia.
  revert P0 P1 P2 P3. generalize (l1 * l2) (h1 * l2) (l1 * h2) (h1 * h2).
  clear. intros p0 p1 p2 p3 P0 P1 P2 P3. unfold wf56, val56, nz. cbn [a0 a1 a2].
  rewrite !(wrap_small 32 p0), !(wrap_small 32 p1), !(wrap_small 32 p2), !(wrap_small 32 p3) by lia.
  booleans; cbn [negb]; arith.
Qed.

Lemma mul56_unfold s1 s2 signe :
  dsp_mul56 s1 s2 signe =
  (let neg1 := nz (s1 .& (1 .<< 23)) in
   let neg2 := nz (s2 .& (1 .<< 23)) in
   let m1 := if neg1 then u32 ((1 .<< 24) - s1) else s1 in
   let m2 := if neg2 then u32 ((1 .<< 24) - s2) else s2 in
   let signe := if neg1 then signe .^ 1 else signe in
   let signe := if neg2 then signe .^ 1 else signe in
   '(_, dest) ← dsp_asl56 (mul_digits m1 m2) 1;
   if nz signe then Ok (dsp_sub56 dest zero56).2 else Ok dest).
Proof. reflexivity. Qed.

(** [dsp_mul56] never faults and leaves twice the product of the two signed
    24-bit operands, negated when [signe] is set, modulo 2^56: the fractional
    product of the DSP56300, -1 * -1 included. *)
Lemma mul56_spec s1 s2 signe :
  0 ≤ s1 < 2 ^ 24 → 0 ≤ s2 < 2 ^ 24 → 0 ≤ signe < 2 →
  ∃ r, dsp_mul56 s1 s2 signe = Ok r ∧ wf56 r ∧
    val56 r = ((if signe =? 0 then 2 else -2) * swrap 24 s1 * swrap 24 s2) mod 2 ^ 56.
Proof.
  intros H1 H2 Hg. rewrite mul56_unfold.
  pose proof (mul56_operand s1 signe H1 Hg) as [B1 E1].
  pose proof (mul56_operand s2 signe H2 Hg) as [B2 E2]. cbn zeta in *.
  set (neg1 := nz (s1 .& _)) in *. set (neg2 := nz (s2 .& _)) in *.
  set (m1 := if neg1 then _ else _) in *. set (m2 := if neg2 then _ else _) in *.
  destruct (mul_digits_spec m1 m2 B1 B2) as [Wm Vm].
  destruct (asl56_spec _ 1 Wm ltac:(lia)) as (sr & d & -> & Wd & Vd & _).
  rewrite Vm in Vd. cbn [mbind res_bind].
  destruct (sub56_val d zero56 Wd ltac:(done)) as [Wn Vn].
  change (val56 zero56) with 0 in Vn. rewrite E1, E2.
  assert (Hs : signe = 0 ∨ signe = 1) by lia.
  destruct neg1, neg2, Hs as [-> | ->]; cbn [Z.eqb];
    match goal with |- context [nz ?x] =>
      let b := eval vm_compute in (nz x) in change (nz x) with b; cbn match end;
    eexists; (split; [reflexivity |]); (split; [done |]); rewrite ?Vn, ?Vd;
    rewrite <- ?Z.sub_0_l, ?Zminus_mod_idemp_r; f_equal; ring.
Qed.

(** ** Rounding *)

(** Round-half-to-even of [v / 2^k], scaled back: the reference for
    [dsp_rnd56]. *)
Definition round_even (k v : Z) : Z :=
  let q := v / 2 ^ k in
  let r := v mod 2 ^ k in
  let q' := if r <? 2 ^ (k - 1) then q
            else if 2 ^ (k - 1) <? r then q + 1
            else q + q mod 2 in
  q' * 2 ^ k.

(** Number of bits the rounding drops in each scaling mode. *)
Definition rnd_bits (sr : Z) : Z :=
  if Z.testbit sr DSP_SR_S0 then 25 else if Z.testbit sr DSP_SR_S1 then 23 else 24.

Lemma land_fffffe z : 0 ≤ z < 2 ^ 24 → z .& 0xfffffe = z - z mod 2.
Proof. intros. by apply (land_high z 24 1). Qed.

Lemma land_fffffc z : 0 ≤ z < 2 ^ 24 → z .& (0xffffff - 0x3) = z - z mod 4.
Proof. intros. by apply (land_high z 24 2). Qed.

Lemma land_800000 z : 0 ≤ z < 2 ^ 24 → z .& 0x800000 = z - z mod 2 ^ 23.
Proof. intros. by apply (land_high z 24 23). Qed.

(** [dsp_rnd56] rounds the accumulator to nearest, ties to even, at the
    position the scaling mode selects (bit 24, 25 or 23), modulo 2^56. *)
Lemma rnd56_spec sr d : wf56 d →
  wf56 (dsp_rnd56 sr d) ∧
  val56 (dsp_rnd56 sr d) = round_even (rnd_bits sr) (val56 d) mod 2 ^ 56.
Proof.
  intros Hd. unfold dsp_rnd56, rnd_bits, round_even. rewrite !nz_bit by done.
  pose proof (val56_bound d Hd) as B.
  destruct (Z.testbit sr DSP_SR_S0); [| destruct (Z.testbit sr DSP_SR_S1)];
    (match goal with |- context [dsp_add56 ?c ?e] =>
       destruct (add56_val c e ltac:(done) Hd) as [(W0 & W1 & W2) V];
       destruct (dsp_add56 c e) as [f [x0 x1 x2]] end);
    generalize dependent (val56 d); intros v B V;
    unfold wf56, val56 in *; cbn [a0 a1 a2 fst snd] in *.
  - rewrite land_1, (land_fffffc x1) by lia.
    rewrite land_fffffe by (booleans; cbn [andb]; arith).
    booleans; cbn [andb]; arith.
  - rewrite (land_mask x2 23 0x7fffff), land_800000 by (done || booleans; arith).
    booleans; arith.
  - rewrite land_fffffe by lia. booleans; arith.
Qed.
