(* ===== verification/DspCore.v ===== *)
(** * The DSP56300 core: state, registers, stack, memory

    src/hw/xbox/dsp/dsp_cpu.h and the "Read/Write memory functions" and "Stack
    push/pop" parts of src/hw/xbox/dsp/dsp_cpu.c.  The core reaches its
    peripherals through two function pointers; they are the class
    [Peripherals], which Dsp.v implements. *)

From S2P Require Import Prelude Dsp56.

(** ** Constants of dsp_cpu.h *)

Definition DSP_SP_SE := 0x04.
Definition DSP_SP_UF := 0x05.

Definition DSP_REG_NULL := 0x00.
Definition DSP_REG_X0 := 0x04.
Definition DSP_REG_X1 := 0x05.
Definition DSP_REG_Y0 := 0x06.
Definition DSP_REG_Y1 := 0x07.
Definition DSP_REG_A0 := 0x08.
Definition DSP_REG_B0 := 0x09.
Definition DSP_REG_A2 := 0x0a.
Definition DSP_REG_B2 := 0x0b.
Definition DSP_REG_A1 := 0x0c.
Definition DSP_REG_B1 := 0x0d.
Definition DSP_REG_A := 0x0e.
Definition DSP_REG_B := 0x0f.
Definition DSP_REG_R0 := 0x10.
Definition DSP_REG_N0 := 0x18.
Definition DSP_REG_M0 := 0x20.
Definition DSP_REG_LCSAVE := 0x30.
Definition DSP_REG_SR := 0x39.
Definition DSP_REG_OMR := 0x3a.
Definition DSP_REG_SP := 0x3b.
Definition DSP_REG_SSH := 0x3c.
Definition DSP_REG_SSL := 0x3d.
Definition DSP_REG_LA := 0x3e.
Definition DSP_REG_LC := 0x3f.

Definition DSP_SPACE_X := 0.
Definition DSP_SPACE_Y := 1.
Definition DSP_SPACE_P := 2.

Definition DSP_XRAM_SIZE := 4096.
Definition DSP_YRAM_SIZE := 2048.
Definition DSP_PRAM_SIZE := 4096.
Definition DSP_MIXBUFFER_BASE := 0x001400.
Definition DSP_MIXBUFFER_SIZE := 1024.
Definition DSP_PERIPH_BASE := 0xFFFF80.

Definition DSP_INTERRUPT_NONE := 0.
Definition DSP_INTERRUPT_DISABLED := 1.
Definition DSP_INTERRUPT_LONG := 2.

Definition DSP_INTER_ILLEGAL := 1.
Definition DSP_INTER_STACK_ERROR := 2.
Definition DSP_INTER_TRACE := 3.

(** [registers_mask]: the width of each register. *)
Definition registers_mask : list Z :=
  [ 0; 0; 0; 0;      24; 24; 24; 24;   24; 24; 8; 8;     24; 24; 24; 24;
    16; 16; 16; 16;  16; 16; 16; 16;   16; 16; 16; 16;   16; 16; 16; 16;
    16; 16; 16; 16;  16; 16; 16; 16;   0; 0; 0; 0;       0; 0; 0; 0;
    0; 0; 0; 0;      0; 0; 0; 0;       0; 16; 8; 6;      16; 16; 16; 16 ].

(** ** State

    [struct dsp_core_s], less the buffers of the disassembler.  [pram] holds
    the words [ldl_le_p] reads; [stack0] is [stack[0]] (SSH) and [stack1]
    [stack[1]] (SSL). *)

Record dsp_core := DspCore {
  instr_cycle : Z;
  pc : Z;
  registers : mem;
  stack0 : mem;
  stack1 : mem;
  xram : mem;
  yram : mem;
  pram : mem;
  mixbuffer : mem;
  periph : mem;
  loop_rep : Z;
  pc_on_rep : Z;
  interrupt_state : Z;
  interrupt_instr_fetch : Z;
  interrupt_save_pc : Z;
  interrupt_counter : Z;
  interrupt_ipl_to_raise : Z;
  interrupt_pipeline_count : Z;
  interrupt_ipl : mem;
  interrupt_is_pending : mem;
  num_inst : Z;
  cur_inst_len : Z;
  cur_inst : Z;
  executing_for_disasm : bool;
  disasm_memory_ptr : Z;
  exception_debugging : bool;
  disasm_prev_inst_pc : Z
}.

#[global] Instance dsp_core_eta : Eta dsp_core := λ s,
  DspCore (instr_cycle s) (pc s) (registers s) (stack0 s) (stack1 s) (xram s) (yram s)
    (pram s) (mixbuffer s) (periph s) (loop_rep s) (pc_on_rep s) (interrupt_state s)
    (interrupt_instr_fetch s) (interrupt_save_pc s) (interrupt_counter s)
    (interrupt_ipl_to_raise s) (interrupt_pipeline_count s) (interrupt_ipl s)
    (interrupt_is_pending s) (num_inst s) (cur_inst_len s) (cur_inst s)
    (executing_for_disasm s) (disasm_memory_ptr s) (exception_debugging s)
    (disasm_prev_inst_pc s).

(** A zeroed core ([memset] in [dsp_init]). *)
Definition zero_core : dsp_core :=
  DspCore 0 0 ∅ ∅ ∅ ∅ ∅ ∅ ∅ ∅ 0 0 0 0 0 0 0 0 ∅ ∅ 0 0 0 false 0 false 0.

Definition reg (s : dsp_core) (r : Z) : Z := rd (registers s) r.
Definition set_reg (s : dsp_core) (r v : Z) : dsp_core :=
  s <| registers := wr (registers s) r v |>.

(** [dsp56k_reset_cpu] (the opcode match table it fills once is
    [nonparallel_matches] of DspDecode.v). *)
Definition dsp56k_reset_cpu (s : dsp_core) : dsp_core :=
  let s := s <| periph := ∅ |> <| stack0 := ∅ |> <| stack1 := ∅ |> <| registers := ∅ |> in
  let s := s <| pc := 0 |> in
  let s := set_reg s DSP_REG_OMR 0x02 in
  let s := foldl (λ s i, set_reg s (DSP_REG_M0 + i) 0x00ffff) s (seqZ 0 8) in
  let s := s <| interrupt_is_pending := ∅ |> <| interrupt_state := DSP_INTERRUPT_NONE |>
             <| interrupt_instr_fetch := u16 (-1) |> <| interrupt_save_pc := u16 (-1) |>
             <| interrupt_counter := 0 |> <| interrupt_pipeline_count := 0 |> in
  let s := foldl (λ s i, s <| interrupt_ipl := wr (interrupt_ipl s) i 3 |>) s (seqZ 0 5) in
  let s := foldl (λ s i, s <| interrupt_ipl := wr (interrupt_ipl s) i (-1) |>) s (seqZ 5 7) in
  s <| loop_rep := 0 |> <| executing_for_disasm := false |> <| num_inst := 0 |>
    <| exception_debugging := true |> <| disasm_prev_inst_pc := 0xFFFFFFFF |>.

(** Post a new interrupt to the interrupt table. *)
Definition dsp56k_add_interrupt (s : dsp_core) (inter : Z) : dsp_core :=
  if rd (interrupt_ipl s) inter =? -1 then s
  else if rd (interrupt_is_pending s) inter =? 0 then
    s <| interrupt_is_pending := wr (interrupt_is_pending s) inter 1 |>
      <| interrupt_counter := u16 (interrupt_counter s + 1) |>
  else s.

(** ** Stack *)

Definition dsp_compute_ssh_ssl (s : dsp_core) : dsp_core :=
  let stack := reg s DSP_REG_SP .& BITMASK 4 in
  let s := set_reg s DSP_REG_SSH (rd (stack0 s) stack) in
  set_reg s DSP_REG_SSL (rd (stack1 s) stack).

Definition dsp_stack_push (s : dsp_core) (curpc cursr sshOnly : Z) : res dsp_core :=
  let stack_error := reg s DSP_REG_SP .& (1 .<< DSP_SP_SE) in
  let underflow := reg s DSP_REG_SP .& (1 .<< DSP_SP_UF) in
  let stack := u32 ((reg s DSP_REG_SP .& BITMASK 4) + 1) in
  s ← (if (stack_error =? 0) && nz (stack .& (1 .<< DSP_SP_SE)) then
         let s := dsp56k_add_interrupt s DSP_INTER_STACK_ERROR in
         if exception_debugging s then Fault assert_failed else Ok s
       else Ok s);
  let s := set_reg s DSP_REG_SP ((underflow .| stack_error .| stack) .& BITMASK 6) in
  let stack := stack .& BITMASK 4 in
  let s :=
    if nz stack then
      let s := s <| stack0 := wr (stack0 s) stack (curpc .& BITMASK 16) |> in
      if sshOnly =? 0 then s <| stack1 := wr (stack1 s) stack (cursr .& BITMASK 16) |> else s
    else
      s <| stack0 := wr (stack0 s) 0 0 |> <| stack1 := wr (stack1 s) 0 0 |> in
  let s := set_reg s DSP_REG_SSH (rd (stack0 s) stack) in
  Ok (set_reg s DSP_REG_SSL (rd (stack1 s) stack)).

(** Returns [*newpc], [*newsr] and the new state. *)
Definition dsp_stack_pop (s : dsp_core) : res (Z * Z * dsp_core) :=
  let stack_error := reg s DSP_REG_SP .& (1 .<< DSP_SP_SE) in
  let underflow := reg s DSP_REG_SP .& (1 .<< DSP_SP_UF) in
  let stack := u32 ((reg s DSP_REG_SP .& BITMASK 4) - 1) in
  s ← (if (stack_error =? 0) && nz (stack .& (1 .<< DSP_SP_SE)) then
         let s := dsp56k_add_interrupt s DSP_INTER_STACK_ERROR in
         if exception_debugging s then Fault assert_failed else Ok s
       else Ok s);
  let s := set_reg s DSP_REG_SP ((underflow .| stack_error .| stack) .& BITMASK 6) in
  let stack := stack .& BITMASK 4 in
  let newpc := reg s DSP_REG_SSH in
  let newsr := reg s DSP_REG_SSL in
  let s := set_reg s DSP_REG_SSH (rd (stack0 s) stack) in
  Ok (newpc, newsr, set_reg s DSP_REG_SSL (rd (stack1 s) stack)).

(** ** Registers *)

Definition dsp_write_reg (s : dsp_core) (numreg value : Z) : res dsp_core :=
  if numreg =? DSP_REG_A then
    let s := set_reg s DSP_REG_A0 0 in
    let s := set_reg s DSP_REG_A1 value in
    Ok (set_reg s DSP_REG_A2 (if nz (value .& (1 .<< 23)) then 0xff else 0x0))
  else if numreg =? DSP_REG_B then
    let s := set_reg s DSP_REG_B0 0 in
    let s := set_reg s DSP_REG_B1 value in
    Ok (set_reg s DSP_REG_B2 (if nz (value .& (1 .<< 23)) then 0xff else 0x0))
  else if numreg =? DSP_REG_OMR then Ok (set_reg s DSP_REG_OMR (value .& 0xc7))
  else if numreg =? DSP_REG_SR then Ok (set_reg s DSP_REG_SR (value .& 0xaf7f))
  else if numreg =? DSP_REG_SP then
    let stack_error := reg s DSP_REG_SP .& (3 .<< DSP_SP_SE) in
    s ← (if (stack_error =? 0) && nz (value .& (3 .<< DSP_SP_SE)) then
           let s := dsp56k_add_interrupt s DSP_INTER_STACK_ERROR in
           let s := set_reg s DSP_REG_SP (value .& (3 .<< DSP_SP_SE)) in
           if exception_debugging s then Fault assert_failed else Ok s
         else Ok (set_reg s DSP_REG_SP (value .& BITMASK 6)));
    Ok (dsp_compute_ssh_ssl s)
  else if numreg =? DSP_REG_SSH then dsp_stack_push s value 0 1
  else if numreg =? DSP_REG_SSL then
    let numreg := reg s DSP_REG_SP .& BITMASK 4 in
    let value := if numreg =? 0 then 0 else value in
    let s := s <| stack1 := wr (stack1 s) numreg (value .& BITMASK 16) |> in
    Ok (set_reg s DSP_REG_SSL (value .& BITMASK 16))
  else
    match registers_mask !! Z.to_nat numreg with
    | Some bits => Ok (set_reg s numreg (value .& BITMASK bits))
    | None => Fault out_of_bounds
    end.

(** ** Memory *)

(** The callbacks [read_peripheral] and [write_peripheral] of the core, for a
    peripheral state [P] ([container_of] in dsp.c). *)
Class Peripherals (P : Type) := {
  read_peripheral : dsp_core → P → Z → res Z;
  write_peripheral : dsp_core → P → Z → Z → res (dsp_core * P)
}.

Definition read_memory_p (s : dsp_core) (address : Z) : res Z :=
  _ ← assert ((address .& 0xFF000000) =? 0);
  _ ← assert (address <? DSP_PRAM_SIZE);
  let r := rd (pram s) address in
  _ ← assert ((r .& 0xFF000000) =? 0);
  Ok r.

Definition dsp56k_read_memory `{Peripherals P} (s : dsp_core) (p : P) (space address : Z)
    : res Z :=
  _ ← assert ((address .& 0xFF000000) =? 0);
  if space =? DSP_SPACE_X then
    if DSP_PERIPH_BASE <=? address then read_peripheral s p address
    else if (DSP_MIXBUFFER_BASE <=? address)
            && (address <? DSP_MIXBUFFER_BASE + DSP_MIXBUFFER_SIZE) then
      Ok (rd (mixbuffer s) (address - DSP_MIXBUFFER_BASE))
    else
      _ ← assert (address <? DSP_XRAM_SIZE);
      Ok (rd (xram s) address)
  else if space =? DSP_SPACE_Y then
    _ ← assert (address <? DSP_YRAM_SIZE);
    Ok (rd (yram s) address)
  else if space =? DSP_SPACE_P then read_memory_p s address
  else Fault assert_failed.

Definition write_memory_raw `{Peripherals P} (s : dsp_core) (p : P)
    (space address value : Z) : res (dsp_core * P) :=
  _ ← assert ((value .& 0xFF000000) =? 0);
  _ ← assert ((address .& 0xFF000000) =? 0);
  if space =? DSP_SPACE_X then
    if DSP_PERIPH_BASE <=? address then write_peripheral s p address value
    else if (DSP_MIXBUFFER_BASE <=? address)
            && (address <? DSP_MIXBUFFER_BASE + DSP_MIXBUFFER_SIZE) then
      Ok (s <| mixbuffer := wr (mixbuffer s) (address - DSP_MIXBUFFER_BASE) value |>, p)
    else
      _ ← assert (address <? DSP_XRAM_SIZE);
      Ok (s <| xram := wr (xram s) address value |>, p)
  else if space =? DSP_SPACE_Y then
    _ ← assert (address <? DSP_YRAM_SIZE);
    Ok (s <| yram := wr (yram s) address value |>, p)
  else if space =? DSP_SPACE_P then
    _ ← assert (address <? DSP_PRAM_SIZE);
    Ok (s <| pram := wr (pram s) address value |>, p)
  else Fault assert_failed.

(** [TRACE_DSP_DISASM_MEM] is 0: the write goes straight to
    [write_memory_raw]. *)
Definition dsp56k_write_memory `{Peripherals P} (s : dsp_core) (p : P)
    (space address value : Z) : res (dsp_core * P) :=
  _ ← assert ((value .& 0xFF000000) =? 0);
  _ ← assert ((address .& 0xFF000000) =? 0);
  write_memory_raw s p space address value.

(** ** Lemmas *)

Lemma reg_set_eq s r v : reg (set_reg s r v) r = v.
Proof. apply rd_wr_eq. Qed.

Lemma reg_set_ne s r q v : r ≠ q → reg (set_reg s r v) q = reg s q.
Proof. apply rd_wr_ne. Qed.

Lemma set_set_reg s r u v : set_reg (set_reg s r u) r v = set_reg s r v.
Proof. unfold set_reg, set; cbn. by rewrite wr_wr. Qed.

(** A 32-bit word passes [(x & 0xFF000000) == 0] when it has 24 bits. *)
Lemma top_byte_clear a : 0 ≤ a < 2 ^ 32 → ((a .& 0xFF000000) =? 0) = (a <? 2 ^ 24).
Proof.
  intros Ha. change 0xFF000000 with (2 ^ 32 - 2 ^ 24). rewrite land_high by lia.
  booleans; arith.
Qed.

Lemma top_byte_small a : 0 ≤ a < 2 ^ 24 → ((a .& 0xFF000000) =? 0) = true.
Proof. intros. rewrite top_byte_clear by lia. apply Z.ltb_lt. lia. Qed.

(** *** The stack as a bounded LIFO *)

(** SSH and SSL cache the entry the stack pointer selects; no error bit set. *)
Definition stack_ok (s : dsp_core) : Prop :=
  0 ≤ reg s DSP_REG_SP ≤ 15 ∧
  reg s DSP_REG_SSH = rd (stack0 s) (reg s DSP_REG_SP) ∧
  reg s DSP_REG_SSL = rd (stack1 s) (reg s DSP_REG_SP).

(** The abstract stack: the (SSH, SSL) entries from the top, slot [SP], down to
    slot 1. *)
Fixpoint entries (m0 m1 : mem) (n : nat) : list (Z * Z) :=
  match n with
  | O => []
  | S n' => (rd m0 (Z.of_nat n), rd m1 (Z.of_nat n)) :: entries m0 m1 n'
  end.

Definition stack_abs (s : dsp_core) : list (Z * Z) :=
  entries (stack0 s) (stack1 s) (Z.to_nat (reg s DSP_REG_SP)).

Lemma entries_wr_above m0 m1 n i v w : Z.of_nat n < i →
  entries (wr m0 i v) (wr m1 i w) n = entries m0 m1 n.
Proof.
  induction n as [| n IH]; intros Hi; [done |]. cbn [entries].
  rewrite !rd_wr_ne, IH by lia. done.
Qed.

Lemma length_entries m0 m1 n : length (entries m0 m1 n) = n.
Proof. induction n; cbn; congruence. Qed.

Lemma sp_error_clear x k : 0 ≤ x ≤ 15 → 4 ≤ k ≤ 5 → x .& (1 .<< k) = 0.
Proof.
  intros Hx Hk. pose proof (nz_bit x k ltac:(lia)) as E. unfold nz in E.
  rewrite (testbit_high x 4) in E by lia. by destruct (Z.eqb_spec (x .& (1 .<< k)) 0).
Qed.

Lemma sp_low x : 0 ≤ x ≤ 15 → x .& BITMASK 4 = x.
Proof. intros. rewrite land_BITMASK, Z.mod_small by lia. done. Qed.

(** The stack-pointer arithmetic of push and pop, when no error bit is set. *)
Lemma sp_facts x y : 0 ≤ x ≤ 15 → 0 ≤ y ≤ 15 →
  x .& (1 .<< DSP_SP_SE) = 0 ∧ x .& (1 .<< DSP_SP_UF) = 0 ∧ x .& BITMASK 4 = x ∧
  u32 y = y ∧ y .& (1 .<< DSP_SP_SE) = 0 ∧ y .& BITMASK 4 = y ∧ (0 .| 0 .| y) .& BITMASK 6 = y.
Proof.
  intros Hx Hy. rewrite !Z.lor_0_l, !land_BITMASK, !Z.mod_small, wrap_small by lia.
  unfold DSP_SP_SE, DSP_SP_UF. repeat split; apply sp_error_clear; lia.
Qed.

(** Pushing below the limit: the state it leaves. *)
Lemma stack_push_state s curpc cursr : stack_ok s → reg s DSP_REG_SP < 15 →
  let sp := reg s DSP_REG_SP + 1 in
  dsp_stack_push s curpc cursr 0 =
  Ok (s <| stack0 := wr (stack0 s) sp (curpc .& BITMASK 16) |>
        <| stack1 := wr (stack1 s) sp (cursr .& BITMASK 16) |>
        <| registers := wr (wr (wr (registers s) DSP_REG_SP sp)
             DSP_REG_SSH (curpc .& BITMASK 16)) DSP_REG_SSL (cursr .& BITMASK 16) |>).
Proof.
  intros (Hsp & _ & _) Hlt sp.
  destruct (sp_facts (reg s DSP_REG_SP) sp) as (E1 & E2 & E3 & E4 & E5 & E6 & E7); [lia.. |].
  unfold dsp_stack_push. rewrite E1, E2, E3. fold sp. rewrite E4, E5, E6, E7.
  assert (nz sp = true) as -> by (unfold nz; booleans; cbn; lia).
  cbn. by rewrite !rd_wr_eq.
Qed.

Lemma stack_pop_state s : stack_ok s → 0 < reg s DSP_REG_SP →
  let sp := reg s DSP_REG_SP - 1 in
  dsp_stack_pop s =
  Ok (reg s DSP_REG_SSH, reg s DSP_REG_SSL,
      s <| registers := wr (wr (wr (registers s) DSP_REG_SP sp)
             DSP_REG_SSH (rd (stack0 s) sp)) DSP_REG_SSL (rd (stack1 s) sp) |>).
Proof.
  intros (Hsp & _ & _) Hlt sp.
  destruct (sp_facts (reg s DSP_REG_SP) sp) as (E1 & E2 & E3 & E4 & E5 & E6 & E7); [lia.. |].
  unfold dsp_stack_pop. rewrite E1, E2, E3. fold sp. rewrite E4, E5, E6, E7.
  cbn. unfold reg; cbn. by rewrite !rd_wr_ne by done.
Qed.

Lemma add_interrupt_debugging s i :
  exception_debugging (dsp56k_add_interrupt s i) = exception_debugging s.
Proof. unfold dsp56k_add_interrupt. by repeat case_match. Qed.

Lemma stack_push_full s curpc cursr :
  reg s DSP_REG_SP = 15 → exception_debugging s = true →
  dsp_stack_push s curpc cursr 0 = Fault assert_failed.
Proof.
  intros Hsp He. unfold dsp_stack_push. rewrite Hsp, add_interrupt_debugging, He. done.
Qed.

Lemma stack_pop_empty s :
  reg s DSP_REG_SP = 0 → exception_debugging s = true →
  dsp_stack_pop s = Fault assert_failed.
Proof.
  intros Hsp He. unfold dsp_stack_pop. rewrite Hsp, add_interrupt_debugging, He. done.
Qed.

(** The registers the stack operations write. *)
Definition STACK_REGS : list Z := [DSP_REG_SP; DSP_REG_SSH; DSP_REG_SSL].

(** Only the stack and its registers differ. *)
Definition stack_frame (s s' : dsp_core) : Prop :=
  s' = s <| stack0 := stack0 s' |> <| stack1 := stack1 s' |> <| registers := registers s' |> ∧
  ∀ r, r ∉ STACK_REGS → reg s' r = reg s r.

Lemma stack_frame_regs s m0 m1 sp h l :
  stack_frame s (s <| stack0 := m0 |> <| stack1 := m1 |>
    <| registers := wr (wr (wr (registers s) DSP_REG_SP sp) DSP_REG_SSH h) DSP_REG_SSL l |>).
Proof.
  split; [done |]. intros r Hr. unfold STACK_REGS in Hr. rewrite !not_elem_of_cons in Hr.
  destruct Hr as (? & ? & ? & _). unfold reg; cbn. by rewrite !rd_wr_ne.
Qed.

Lemma push_abs s curpc cursr : stack_ok s → reg s DSP_REG_SP < 15 →
  ∃ s', dsp_stack_push s curpc cursr 0 = Ok s' ∧ stack_ok s' ∧ stack_frame s s' ∧
    reg s' DSP_REG_SP = reg s DSP_REG_SP + 1 ∧
    stack_abs s' = (curpc mod 2 ^ 16, cursr mod 2 ^ 16) :: stack_abs s.
Proof.
  intros Hok Hlt. pose proof Hok as (Hsp & _ & _). rewrite stack_push_state by done.
  eexists. split; [reflexivity |]. set (sp := reg s DSP_REG_SP + 1).
  split; [| split; [apply stack_frame_regs |]];
    unfold stack_ok, stack_abs, reg; cbn [stack0 stack1 registers set];
    rewrite ?rd_wr_eq, ?(rd_wr_ne _ DSP_REG_SSL), ?rd_wr_eq, ?(rd_wr_ne _ DSP_REG_SSH), ?rd_wr_eq by done;
    fold (reg s DSP_REG_SP).
  - rewrite ?rd_wr_eq; split_and!; lia || done.
  - split; [done |]. assert (Z.to_nat sp = S (Z.to_nat (reg s DSP_REG_SP))) as -> by lia.
    cbn [entries]. rewrite entries_wr_above by lia.
    replace (Z.of_nat (S (Z.to_nat (reg s DSP_REG_SP)))) with sp by lia.
    by rewrite !rd_wr_eq, !land_BITMASK.
Qed.

Lemma pop_abs s : stack_ok s → 0 < reg s DSP_REG_SP →
  ∃ newpc newsr s', dsp_stack_pop s = Ok (newpc, newsr, s') ∧ stack_ok s' ∧ stack_frame s s' ∧
    stack_abs s = (newpc, newsr) :: stack_abs s'.
Proof.
  intros Hok Hlt. pose proof Hok as (Hsp & Hh & Hl). rewrite stack_pop_state by done.
  eexists _, _, _. split; [reflexivity |]. set (sp := reg s DSP_REG_SP - 1).
  split; [| split; [split; [by destruct s |] |]].
  - unfold stack_ok, reg; cbn [stack0 stack1 registers set].
    rewrite ?rd_wr_eq, ?(rd_wr_ne _ DSP_REG_SSL), ?rd_wr_eq, ?(rd_wr_ne _ DSP_REG_SSH), ?rd_wr_eq by done.
    split_and!; lia || done.
  - intros r Hr. apply (stack_frame_regs s (stack0 s) (stack1 s)), Hr.
  - unfold stack_abs, reg in *; cbn [stack0 stack1 registers set].
    rewrite !(rd_wr_ne _ DSP_REG_SSL), !(rd_wr_ne _ DSP_REG_SSH), !rd_wr_eq by done.
    replace (Z.to_nat (rd (registers s) DSP_REG_SP)) with (S (Z.to_nat sp)) by lia.
    cbn [entries]. rewrite Hh, Hl. repeat f_equal; lia.
Qed.

(** C30: the hardware stack refines a LIFO of at most 15 entries: on a consistent
    core, a push below the limit succeeds, keeps the core consistent and conses
    the 16-bit (PC, SR) pair onto the abstract stack; a push on a full stack
    aborts (the core runs with [exception_debugging] set by reset). *)
Theorem dsp_stack_push_refines s curpc cursr :
  stack_ok s → exception_debugging s = true →
  match dsp_stack_push s curpc cursr 0 with
  | Ok s' =>
      (length (stack_abs s) < 15)%nat ∧ stack_ok s' ∧
      stack_abs s' = (curpc mod 2 ^ 16, cursr mod 2 ^ 16) :: stack_abs s
  | Fault f => f = assert_failed ∧ length (stack_abs s) = 15%nat
  end.
Proof.
  intros Hok He. pose proof Hok as (Hsp & _ & _). unfold stack_abs at 1 4.
  rewrite !length_entries. destruct (Z.eq_dec (reg s DSP_REG_SP) 15) as [E | E].
  { rewrite stack_push_full by done. split; [done | lia]. }
  destruct (push_abs s curpc cursr Hok) as (s' & -> & Hok' & _ & _ & Ha); [lia |].
  split; [lia | done].
Qed.

Lemma dsp_stack_push_witness :
  match dsp_stack_push (dsp56k_reset_cpu zero_core) 0x123 0x45 0 with
  | Ok s' => stack_abs s' = [(0x123, 0x45)]
  | Fault _ => False
  end.
Proof.
  pose proof (dsp_stack_push_refines (dsp56k_reset_cpu zero_core) 0x123 0x45
    ltac:(split; [done | split; reflexivity]) eq_refl) as H.
  destruct (dsp_stack_push _ _ _ _) as [s' | f]; [exact (proj2 (proj2 H)) |].
  destruct H as [_ H]. discriminate H.
Defined.

(** popping a consistent non-empty stack returns its top entry and leaves
    its tail; popping the empty stack aborts. *)
Theorem dsp_stack_pop_refines s :
  stack_ok s → exception_debugging s = true →
  match dsp_stack_pop s with
  | Ok (newpc, newsr, s') => stack_ok s' ∧ stack_abs s = (newpc, newsr) :: stack_abs s'
  | Fault f => f = assert_failed ∧ stack_abs s = []
  end.
Proof.
  intros Hok He. pose proof Hok as (Hsp & _ & _).
  destruct (Z.eq_dec (reg s DSP_REG_SP) 0) as [E | E].
  { rewrite stack_pop_empty by done. unfold stack_abs. by rewrite E. }
  destruct (pop_abs s Hok) as (newpc & newsr & s' & -> & ? & _ & ?); [lia | done].
Qed.

Lemma dsp_stack_pop_witness :
  dsp_stack_pop (dsp56k_reset_cpu zero_core) = Fault assert_failed.
Proof.
  pose proof (dsp_stack_pop_refines (dsp56k_reset_cpu zero_core)
    ltac:(split; [done | split; reflexivity]) eq_refl) as H.
  destruct (dsp_stack_pop _) as [[[newpc newsr] s'] | f]; [| by destruct H as [-> _]].
  destruct H as [_ H]. discriminate H.
Defined.

(** *** Memory *)

(** The (space, address) pairs backed by one of the core's own arrays. *)
Definition ram_mapped (space address : Z) : bool :=
  if space =? DSP_SPACE_X then
    (address <? DSP_XRAM_SIZE)
    || (DSP_MIXBUFFER_BASE <=? address)
       && (address <? DSP_MIXBUFFER_BASE + DSP_MIXBUFFER_SIZE)
  else if space =? DSP_SPACE_Y then address <? DSP_YRAM_SIZE
  else if space =? DSP_SPACE_P then address <? DSP_PRAM_SIZE
  else false.

(** Every memory cell of the core holds a 24-bit word. *)
Definition ram_ok (s : dsp_core) : Prop :=
  mem_ok 24 (xram s) ∧ mem_ok 24 (yram s) ∧ mem_ok 24 (pram s) ∧ mem_ok 24 (mixbuffer s).

Ltac mem_cases :=
  repeat match goal with
  | |- context [if ?b then _ else _] => destruct b eqn:?; try discriminate; cbn
  end.

Ltac dsp_consts :=
  unfold DSP_SPACE_X, DSP_SPACE_Y, DSP_SPACE_P, DSP_XRAM_SIZE, DSP_YRAM_SIZE,
    DSP_PRAM_SIZE, DSP_MIXBUFFER_BASE, DSP_MIXBUFFER_SIZE, DSP_PERIPH_BASE in *.

Section memory.
Context `{Peripherals P}.
Implicit Types (s : dsp_core) (p : P).

(** The cell a mapped address names. *)
Definition ram_cell (s : dsp_core) (space address : Z) : Z :=
  if space =? DSP_SPACE_X then
    if address <? DSP_XRAM_SIZE then rd (xram s) address
    else rd (mixbuffer s) (address - DSP_MIXBUFFER_BASE)
  else if space =? DSP_SPACE_Y then rd (yram s) address
  else rd (pram s) address.

Lemma ram_mapped_small space address :
  ram_mapped space address = true → address < DSP_MIXBUFFER_BASE + DSP_MIXBUFFER_SIZE.
Proof. unfold ram_mapped. dsp_consts. mem_cases; lia. Qed.

Lemma read_mapped s p space address : ram_ok s → 0 ≤ address →
  ram_mapped space address = true →
  dsp56k_read_memory s p space address = Ok (ram_cell s space address).
Proof.
  intros (_ & _ & Hp & _) H0 Hm. pose proof (ram_mapped_small _ _ Hm).
  unfold dsp56k_read_memory, read_memory_p.
  rewrite !(top_byte_small address), (top_byte_small (rd (pram s) address)) by (apply Hp || dsp_consts; lia).
  revert Hm. unfold ram_mapped, ram_cell, assert. dsp_consts. cbn.
  mem_cases; intros; try done; lia.
Qed.

Lemma read_unmapped s p space address : 0 ≤ address < DSP_PERIPH_BASE →
  ram_mapped space address = false →
  dsp56k_read_memory s p space address = Fault assert_failed.
Proof.
  intros Ha. unfold ram_mapped, dsp56k_read_memory, read_memory_p. dsp_consts.
  rewrite !(top_byte_small address) by lia. cbn. unfold assert.
  mem_cases; intros; try done; lia.
Qed.

(** The state a write to a mapped address leaves. *)
Definition ram_update (s : dsp_core) (space address value : Z) : dsp_core :=
  if space =? DSP_SPACE_X then
    if address <? DSP_XRAM_SIZE then s <| xram := wr (xram s) address value |>
    else s <| mixbuffer := wr (mixbuffer s) (address - DSP_MIXBUFFER_BASE) value |>
  else if space =? DSP_SPACE_Y then s <| yram := wr (yram s) address value |>
  else s <| pram := wr (pram s) address value |>.

Lemma write_mapped s p space address value : 0 ≤ address → 0 ≤ value < 2 ^ 24 →
  ram_mapped space address = true →
  dsp56k_write_memory s p space address value = Ok (ram_update s space address value, p).
Proof.
  intros H0 Hv Hm. pose proof (ram_mapped_small _ _ Hm).
  unfold dsp56k_write_memory, write_memory_raw.
  rewrite !(top_byte_small address), !(top_byte_small value) by (dsp_consts; lia).
  revert Hm. unfold ram_mapped, ram_update, assert. dsp_consts. cbn.
  mem_cases; intros; try done; lia.
Qed.

Lemma ram_update_ok s space address value :
  ram_ok s → 0 ≤ value < 2 ^ 24 → ram_ok (ram_update s space address value).
Proof.
  intros (? & ? & ? & ?) Hv. unfold ram_update.
  mem_cases; split_and!; cbn; try done; by apply mem_ok_wr.
Qed.

Lemma ram_cell_update s space address value space' address' :
  ram_mapped space address = true → ram_mapped space' address' = true →
  ram_cell (ram_update s space address value) space' address' =
  if decide (space = space' ∧ address = address') then value
  else ram_cell s space' address'.
Proof.
  unfold ram_mapped, ram_cell, ram_update. dsp_consts.
  case_decide as D; [destruct D as [-> ->] |];
    mem_cases; intros; rewrite ?rd_wr_eq, ?rd_wr_ne by lia; try done; lia.
Qed.

(** C31: memory safety and read-back of the data memories.  On a core whose
    memories hold 24-bit words, a 24-bit write to any mapped address of the X, Y
    or P space succeeds without touching the peripherals, keeps the words 24-bit,
    is read back, and changes no other mapped location. *)
Theorem dsp56k_memory_correct s p space address value :
  ram_ok s → 0 ≤ address → 0 ≤ value < 2 ^ 24 → ram_mapped space address = true →
  ∃ s', dsp56k_write_memory s p space address value = Ok (s', p) ∧ ram_ok s' ∧
    dsp56k_read_memory s' p space address = Ok value ∧
    ∀ space' address', 0 ≤ address' → ram_mapped space' address' = true →
      (space', address') ≠ (space, address) →
      dsp56k_read_memory s' p space' address' = dsp56k_read_memory s p space' address'.
Proof.
  intros Hok H0 Hv Hm. eexists. split; [by apply write_mapped |].
  pose proof (ram_update_ok s space address value Hok Hv) as Hok'.
  split; [done |]. split.
  - rewrite read_mapped, ram_cell_update, decide_True by done. done.
  - intros space' address' H0' Hm' Hne.
    rewrite !read_mapped, ram_cell_update, decide_False by (done || intros [-> ->]; done). done.
Qed.

(** what lies outside the mapped ranges and below the peripheral page is not
    readable, and a value or address with any of its top 8 bits set is never
    stored: the core aborts instead. *)
Theorem dsp56k_memory_faults s p space address value :
  0 ≤ address < 2 ^ 32 → 0 ≤ value < 2 ^ 32 →
  (address < DSP_PERIPH_BASE → ram_mapped space address = false →
     dsp56k_read_memory s p space address = Fault assert_failed) ∧
  (2 ^ 24 ≤ address → dsp56k_read_memory s p space address = Fault assert_failed) ∧
  (2 ^ 24 ≤ value ∨ 2 ^ 24 ≤ address →
     dsp56k_write_memory s p space address value = Fault assert_failed).
Proof.
  intros Ha Hv. split_and!.
  - intros. apply read_unmapped; [lia | done].
  - intros. unfold dsp56k_read_memory. rewrite top_byte_clear by done.
    by rewrite (proj2 (Z.ltb_ge address (2 ^ 24))) by lia.
  - intros Hbig. unfold dsp56k_write_memory. rewrite !top_byte_clear by done.
    destruct (Z.ltb_spec value (2 ^ 24)); [| done]. cbn.
    rewrite (proj2 (Z.ltb_ge address (2 ^ 24))) by lia. done.
Qed.

End memory.

(** A core without peripherals: every access to the peripheral page aborts. *)
Definition detached : Peripherals () :=
  {| read_peripheral _ _ _ := Fault assert_failed;
     write_peripheral _ _ _ _ := Fault assert_failed |}.

Lemma empty_ram_ok s : xram s = ∅ → yram s = ∅ → pram s = ∅ → mixbuffer s = ∅ → ram_ok s.
Proof. intros Hx Hy Hp Hm. unfold ram_ok. rewrite Hx, Hy, Hp, Hm. by split_and!; intros i; rewrite rd_empty. Qed.

(** The last word of the mix buffer. *)
Lemma dsp56k_memory_witness :
  ∃ s', @dsp56k_write_memory () detached zero_core tt DSP_SPACE_X 0x17ff 0xabcdef = Ok (s', tt) ∧
        @dsp56k_read_memory () detached s' tt DSP_SPACE_X 0x17ff = Ok 0xabcdef.
Proof.
  destruct (@dsp56k_memory_correct () detached zero_core tt DSP_SPACE_X 0x17ff 0xabcdef
    ltac:(by apply empty_ram_ok) ltac:(lia) ltac:(lia) eq_refl) as (s' & Hw & _ & Hr & _).
  exists s'. split; [exact Hw | exact Hr].
Defined.

Lemma dsp56k_memory_faults_witness :
  @dsp56k_read_memory () detached zero_core tt DSP_SPACE_X 0x1000 = Fault assert_failed ∧
  @dsp56k_write_memory () detached zero_core tt DSP_SPACE_Y 0 0x1000000 = Fault assert_failed.
Proof.
  destruct (@dsp56k_memory_faults () detached zero_core tt DSP_SPACE_X 0x1000 0
    ltac:(lia) ltac:(lia)) as (Hr & _ & _).
  destruct (@dsp56k_memory_faults () detached zero_core tt DSP_SPACE_Y 0 0x1000000
    ltac:(lia) ltac:(lia)) as (_ & _ & Hw).
  split; [exact (Hr ltac:(done) eq_refl) | exact (Hw ltac:(left; lia))].
Defined.

(** *** Register widths *)

(** Every register fits the width [w] gives it, and the stack holds 16-bit
    words. *)
Definition regs_fit (w : Z → Z) (s : dsp_core) : Prop :=
  (∀ r, 0 ≤ r → 0 ≤ reg s r < 2 ^ w r) ∧ mem_ok 16 (stack0 s) ∧ mem_ok 16 (stack1 s).

(** The widths of [registers_mask], but for the loop counter and its save slot:
    REP loads a 24-bit count and represents 0 as 0x10000. *)
Definition reg_bits (r : Z) : Z :=
  if (r =? DSP_REG_LC) || (r =? DSP_REG_LCSAVE) then 24
  else default 0 (registers_mask !! Z.to_nat r).

Abbreviation regs_ok := (regs_fit reg_bits).

Section widths.
Context (w : Z → Z).

Lemma set_reg_fit s r v : regs_fit w s → 0 ≤ r → 0 ≤ v < 2 ^ w r → regs_fit w (set_reg s r v).
Proof.
  intros (Hr & H0 & H1) Hr0 Hv. split; [| done]. intros q Hq. unfold reg; cbn.
  rewrite rd_wr. case_decide; [by subst | by apply Hr].
Qed.

Lemma add_interrupt_fit s i : regs_fit w s → regs_fit w (dsp56k_add_interrupt s i).
Proof. unfold dsp56k_add_interrupt. by repeat case_match. Qed.

Lemma set_stack0_fit s m : regs_fit w s → mem_ok 16 m → regs_fit w (s <| stack0 := m |>).
Proof. intros (Hr & H0 & H1) ?. split; [exact Hr | split; [done | exact H1]]. Qed.

Lemma set_stack1_fit s m : regs_fit w s → mem_ok 16 m → regs_fit w (s <| stack1 := m |>).
Proof. intros (Hr & H0 & H1) ?. split; [exact Hr | split; [exact H0 | done]]. Qed.
End widths.

Lemma masked_bound v n : 0 ≤ n → 0 ≤ v .& BITMASK n < 2 ^ n.
Proof. intros. rewrite land_BITMASK by done. apply Z.mod_pos_bound. lia. Qed.

(** Widths that are no smaller than those of [registers_mask]. *)
Definition mask_le (w : Z → Z) : Prop :=
  ∀ r, 0 ≤ r < 64 → 0 ≤ default 0 (registers_mask !! Z.to_nat r) ≤ w r.

Lemma mask_le_all w :
  Forall (λ r, 0 ≤ default 0 (registers_mask !! Z.to_nat r) ≤ w r) (seqZ 0 64) → mask_le w.
Proof. intros F r Hr. rewrite Forall_forall in F. apply F, elem_of_seqZ. lia. Qed.

Lemma reg_bits_mask : mask_le reg_bits.
Proof. apply mask_le_all, (bool_decide_eq_true_1 (Forall _ _)). vm_compute. reflexivity. Qed.

(** A core out of reset, and one with some registers set. *)
Lemma reset_fit w s : mask_le w → (∀ r, 0 ≤ w r) → regs_fit w (dsp56k_reset_cpu s).
Proof.
  intros Hw Hn. split; [| split; intros i; by rewrite rd_empty].
  intros r Hr. unfold dsp56k_reset_cpu.
  change (seqZ 0 8) with [0; 1; 2; 3; 4; 5; 6; 7]. change (seqZ 0 5) with [0; 1; 2; 3; 4].
  change (seqZ 5 7) with [5; 6; 7; 8; 9; 10; 11]. unfold reg. cbn.
  rewrite !rd_wr, rd_empty.
  assert (Hb : ∀ r b, 0 ≤ r < 64 → registers_mask !! Z.to_nat r = Some b → 2 ^ b ≤ 2 ^ w r).
  { intros q b Hq E. specialize (Hw q Hq). rewrite E in Hw. cbn in Hw.
    apply Z.pow_le_mono_r; lia. }
  repeat (case_decide as E; [subst r; pose proof (Hb _ _ ltac:(done) eq_refl); lia | clear E]).
  pose proof (Hn r). split; [done |]. by apply Z.pow_pos_nonneg.
Qed.

Definition with_regs (s : dsp_core) (l : list (Z * Z)) : dsp_core :=
  foldl (λ s rv, set_reg s rv.1 rv.2) s l.

Lemma with_regs_fit w s l : regs_fit w s →
  Forall (λ rv, 0 ≤ rv.1 ∧ 0 ≤ rv.2 < 2 ^ w rv.1) l → regs_fit w (with_regs s l).
Proof.
  unfold with_regs. intros Hs Hl. revert s Hs.
  induction Hl as [| [r v] l [Hr Hv] Hl IH]; intros s Hs; [done |].
  apply IH. by apply set_reg_fit.
Qed.

Lemma reg_bits_nonneg r : 0 ≤ reg_bits r.
Proof.
  unfold reg_bits. case_match; [done |].
  destruct (registers_mask !! Z.to_nat r) eqn:E; [| done].
  assert (F : Forall (λ b, 0 ≤ b) registers_mask) by (repeat (apply Forall_cons_2; [done |]); apply Forall_nil_2).
  by apply (Forall_lookup_1 _ _ _ _ F E).
Qed.

Section write_reg.
Context (w : Z → Z) (Hw : mask_le w).

(** A value within its row of [registers_mask] fits. *)
Lemma set_masked_fit s r v bits : regs_fit w s → 0 ≤ r < 64 →
  registers_mask !! Z.to_nat r = Some bits → 0 ≤ v < 2 ^ bits → regs_fit w (set_reg s r v).
Proof.
  intros Hs Hr E Hv. apply set_reg_fit; [done | lia |]. specialize (Hw r Hr). rewrite E in Hw.
  cbn in Hw. assert (2 ^ bits ≤ 2 ^ w r) by (apply Z.pow_le_mono_r; lia). lia.
Qed.

Ltac set_regs :=
  repeat lazymatch goal with
  | |- regs_fit _ (set_reg _ _ _) => eapply set_masked_fit; [| done | reflexivity |]
  | |- regs_fit _ (set stack0 _ _) => apply set_stack0_fit
  | |- regs_fit _ (set stack1 _ _) => apply set_stack1_fit
  end.

Lemma load_ssh_ssl_fit s i : regs_fit w s →
  regs_fit w (set_reg (set_reg s DSP_REG_SSH (rd (stack0 s) i)) DSP_REG_SSL
                (rd (stack1 (set_reg s DSP_REG_SSH (rd (stack0 s) i))) i)).
Proof. intros Hs. pose proof Hs as (_ & H0 & H1). set_regs; [done | apply H0 | apply H1]. Qed.

Lemma stack_push_fit s curpc cursr sshOnly : regs_fit w s →
  match dsp_stack_push s curpc cursr sshOnly with
  | Ok s' => regs_fit w s'
  | Fault e => e = assert_failed
  end.
Proof.
  intros Hs. unfold dsp_stack_push.
  match goal with |- context [mbind _ ?m] => assert (Hm : match m with
    | Ok s' => regs_fit w s' | Fault e => e = assert_failed end)
    by (repeat case_match; simplify_eq; auto using add_interrupt_fit); destruct m as [s1 |] end;
    cbn; [| done].
  apply load_ssh_ssl_fit.
  pose proof (masked_bound curpc 16 ltac:(lia)). pose proof (masked_bound cursr 16 ltac:(lia)).
  repeat case_match; set_regs;
    try done; try (apply mem_ok_wr; [apply Hm | done]); by apply masked_bound.
Qed.

Lemma stack_pop_fit s : regs_fit w s → w DSP_REG_SSH = 16 → w DSP_REG_SSL = 16 →
  match dsp_stack_pop s with
  | Ok (newpc, newsr, s') => 0 ≤ newpc < 2 ^ 16 ∧ 0 ≤ newsr < 2 ^ 16 ∧ regs_fit w s'
  | Fault e => e = assert_failed
  end.
Proof.
  intros Hs Hh Hl. unfold dsp_stack_pop.
  match goal with |- context [mbind _ ?m] => assert (Hm : match m with
    | Ok s' => regs_fit w s' | Fault e => e = assert_failed end)
    by (repeat case_match; simplify_eq; auto using add_interrupt_fit); destruct m as [s1 |] end;
    cbn; [| done].
  match goal with |- context [set_reg s1 DSP_REG_SP ?v] =>
    assert (Hp : regs_fit w (set_reg s1 DSP_REG_SP v)) end.
  { set_regs; [done | by apply masked_bound]. }
  split; [rewrite <- Hh; by apply Hp |]. split; [rewrite <- Hl; by apply Hp |].
  set_regs; [done | by apply masked_bound | apply Hm | apply Hm].
Qed.

Lemma write_reg_fit s r v : regs_fit w s → 0 ≤ r < 64 → 0 ≤ v < 2 ^ 24 →
  match dsp_write_reg s r v with
  | Ok s' => regs_fit w s'
  | Fault f => f = assert_failed ∧ (r = DSP_REG_SP ∨ r = DSP_REG_SSH)
  end.
Proof.
  intros Hs Hr Hv. unfold dsp_write_reg.
  repeat match goal with |- context [?a =? ?b] =>
    lazymatch a with r => destruct (Z.eqb_spec a b) as [-> |] end end.
  - set_regs; try done. by case_match.
  - set_regs; try done. by case_match.
  - set_regs; try done. by apply land_bound.
  - set_regs; try done. by apply land_bound.
  - destruct (_ && _); cbn; [destruct (exception_debugging _); cbn; [auto |] |];
      apply load_ssh_ssl_fit; set_regs; auto using add_interrupt_fit; by apply land_bound.
  - pose proof (stack_push_fit s v 0 1 Hs). case_match; auto.
  - set_regs; [done | | by apply masked_bound]. apply mem_ok_wr; [apply Hs | by apply masked_bound].
  - destruct (registers_mask !! Z.to_nat r) as [bits |] eqn:E.
    + apply (set_masked_fit s r _ bits); try done. apply masked_bound.
      specialize (Hw r Hr). rewrite E in Hw. cbn in Hw. lia.
    + apply lookup_ge_None in E. cbn in E. lia.
Qed.

End write_reg.

(** [dsp_write_reg] is type safe: given a 24-bit value and any register
    number of the instruction encoding, it leaves every register within the
    width of its row of [registers_mask]; it aborts only on a stack error, that
    is when it writes SP or SSH. *)
Theorem dsp_write_reg_typed s r v :
  regs_ok s → 0 ≤ r < 64 → 0 ≤ v < 2 ^ 24 →
  match dsp_write_reg s r v with
  | Ok s' => regs_ok s'
  | Fault f => f = assert_failed ∧ (r = DSP_REG_SP ∨ r = DSP_REG_SSH)
  end.
Proof. apply write_reg_fit, reg_bits_mask. Qed.

(** A 24-bit value written to OMR keeps 8 bits. *)
Lemma dsp_write_reg_witness :
  match dsp_write_reg (dsp56k_reset_cpu zero_core) DSP_REG_OMR 0xffffff with
  | Ok s' => 0 ≤ reg s' DSP_REG_OMR < 2 ^ 8
  | Fault _ => False
  end.
Proof.
  pose proof (dsp_write_reg_typed (dsp56k_reset_cpu zero_core) DSP_REG_OMR 0xffffff
    (reset_fit _ _ reg_bits_mask reg_bits_nonneg) ltac:(done) ltac:(lia)) as H.
  destruct (dsp_write_reg _ _ _) as [s' | f]; [by apply H |].
  destruct H as [_ [H | H]]; discriminate H.
Defined.
