(* ===== verification/DspDecode.v ===== *)
(** * Instruction decoding of the DSP56300 core

    The opcode table, its match masks and [lookup_opcode] of
    src/hw/xbox/dsp/dsp_cpu.c.  An entry keeps the names of its disassembly and
    emulation functions; [None] stands for NULL. *)

From S2P Require Import Prelude.
From Stdlib Require Import Ascii.

Record OpcodeEntry := Op {
  template : string;
  name : string;
  dis_func : option string;
  emu_func : option string;
  match_func : bool
}.

(** The only [match_func] of the table. *)
Definition match_MMMRRR (op : Z) : bool :=
  let RRR := (op .>> 8) .& BITMASK 3 in
  let MMM := (op .>> 11) .& BITMASK 3 in
  if MMM =? 0x6 then (RRR =? 0x0) || (RRR =? 0x4) else true.

Open Scope string_scope.

Definition nonparallel_opcodes : list OpcodeEntry :=
  [
    Op "0000000101iiiiii1000d000" "add #xx, D" (Some "dis_add_imm") (Some "emu_add_imm") false;
    Op "00000001010000001100d000" "add #xxxx, D" (Some "dis_add_long") (Some "emu_add_long") false;
    Op "0000000101iiiiii1000d110" "and #xx, D" (Some "dis_and_imm") (Some "emu_and_imm") false;
    Op "00000001010000001100d110" "and #xxxx, D" (Some "dis_and_long") (Some "emu_and_long") false;
    Op "00000000iiiiiiii101110EE" "andi #xx, D" (Some "dis_andi") (Some "emu_andi") false;
    Op "0000110000011101SiiiiiiD" "asl #ii, S2, D" (Some "dis_asl_imm") (Some "emu_asl_imm") false;
    Op "0000110000011110010SsssD" "asl S1, S2, D" None None false;
    Op "0000110000011100SiiiiiiD" "asr #ii, S2, D" (Some "dis_asr_imm") (Some "emu_asr_imm") false;
    Op "0000110000011110011SsssD" "asr S1, S2, D" None None false;
    Op "00001101000100000100CCCC" "bcc xxxx" (Some "dis_bcc_long") (Some "emu_bcc_long") false;
    Op "00000101CCCC01aaaa0aaaaa" "bcc xxx" (Some "dis_bcc_imm") (Some "emu_bcc_imm") false;
    Op "0000110100011RRR0100CCCC" "bcc Rn" None None false;
    Op "0000101101MMMRRR0S00bbbb" "bchg #n, [X or Y]:ea" (Some "dis_bchg_ea") (Some "emu_bchg_ea") true;
    Op "0000101100aaaaaa0S00bbbb" "bchg #n, [X or Y]:aa" (Some "dis_bchg_aa") (Some "emu_bchg_aa") false;
    Op "0000101110pppppp0S00bbbb" "bchg #n, [X or Y]:pp" (Some "dis_bchg_pp") (Some "emu_bchg_pp") false;
    Op "0000000101qqqqqq0S0bbbbb" "bchg #n, [X or Y]:qq" None None false;
    Op "0000101111DDDDDD010bbbbb" "bchg, #n, D" (Some "dis_bchg_reg") (Some "emu_bchg_reg") false;
    Op "0000101001MMMRRR0S00bbbb" "bclr #n, [X or Y]:ea" (Some "dis_bclr_ea") (Some "emu_bclr_ea") true;
    Op "0000101000aaaaaa0S00bbbb" "bclr #n, [X or Y]:aa" (Some "dis_bclr_aa") (Some "emu_bclr_aa") false;
    Op "0000101010pppppp0S00bbbb" "bclr #n, [X or Y]:pp" (Some "dis_bclr_pp") (Some "emu_bclr_pp") false;
    Op "0000000100qqqqqq0S00bbbb" "bclr #n, [X or Y]:qq" None None false;
    Op "0000101011DDDDDD010bbbbb" "bclr #n, D" (Some "dis_bclr_reg") (Some "emu_bclr_reg") false;
    Op "000011010001000011000000" "bra xxxx" (Some "dis_bra_long") (Some "emu_bra_long") false;
    Op "00000101000011aaaa0aaaaa" "bra xxx" (Some "dis_bra_imm") (Some "emu_bra_imm") false;
    Op "0000110100011RRR11000000" "bra Rn" None None false;
    Op "0000110010MMMRRR0S0bbbbb" "brclr #n, [X or Y]:ea, xxxx" None None true;
    Op "0000110010aaaaaa1S0bbbbb" "brclr #n, [X or Y]:aa, xxxx" None None false;
    Op "0000110011pppppp0S0bbbbb" "brclr #n, [X or Y]:pp, xxxx" (Some "dis_brclr_pp") (Some "emu_brclr_pp") false;
    Op "0000010010qqqqqq0S0bbbbb" "brclr #n, [X or Y]:qq, xxxx" None None false;
    Op "0000110011DDDDDD100bbbbb" "brclr #n, S, xxxx" (Some "dis_brclr_reg") (Some "emu_brclr_reg") false;
    Op "00000000000000100001CCCC" "brkcc" None None false;
    Op "0000110010MMMRRR0S1bbbbb" "brset #n, [X or Y]:ea, xxxx" None None true;
    Op "0000110010aaaaaa1S1bbbbb" "brset #n, [X or Y]:aa, xxxx" None None false;
    Op "0000110011pppppp0S1bbbbb" "brset #n, [X or Y]:pp, xxxx" (Some "dis_brset_pp") (Some "emu_brset_pp") false;
    Op "0000010010qqqqqq0S1bbbbb" "brset #n, [X or Y]:qq, xxxx" None None false;
    Op "0000110011DDDDDD101bbbbb" "brset #n, S, xxxx" (Some "dis_brset_reg") (Some "emu_brset_reg") false;
    Op "00001101000100000000CCCC" "bscc xxxx" None None false;
    Op "00000101CCCC00aaaa0aaaaa" "bscc xxx" None None false;
    Op "0000110100011RRR0000CCCC" "bscc Rn" None None false;
    Op "0000110110MMMRRR0S0bbbbb" "bsclr #n, [X or Y]:ea, xxxx" None None true;
    Op "0000110110aaaaaa1S0bbbbb" "bsclr #n, [X or Y]:aa, xxxx" None None false;
    Op "0000010010qqqqqq1S0bbbbb" "bsclr #n, [X or Y]:qq, xxxx" None None false;
    Op "0000110111pppppp0S0bbbbb" "bsclr #n, [X or Y]:pp, xxxx" None None false;
    Op "0000110111DDDDDD100bbbbb" "bsclr, #n, S, xxxx" None None false;
    Op "0000101001MMMRRR0S1bbbbb" "bset #n, [X or Y]:ea" (Some "dis_bset_ea") (Some "emu_bset_ea") true;
    Op "0000101000aaaaaa0S1bbbbb" "bset #n, [X or Y]:aa" (Some "dis_bset_aa") (Some "emu_bset_aa") false;
    Op "0000101010pppppp0S1bbbbb" "bset #n, [X or Y]:pp" (Some "dis_bset_pp") (Some "emu_bset_pp") false;
    Op "0000000100qqqqqq0S1bbbbb" "bset #n, [X or Y]:qq" None None false;
    Op "0000101011DDDDDD011bbbbb" "bset, #n, D" (Some "dis_bset_reg") (Some "emu_bset_reg") false;
    Op "000011010001000010000000" "bsr xxxx" (Some "dis_bsr_long") (Some "emu_bsr_long") false;
    Op "00000101000010aaaa0aaaaa" "bsr xxx" (Some "dis_bsr_imm") (Some "emu_bsr_imm") false;
    Op "0000110100011RRR10000000" "bsr Rn" None None false;
    Op "0000110110MMMRRR0S1bbbbb" "bsset #n, [X or Y]:ea, xxxx" None None true;
    Op "0000110110aaaaaa1S1bbbbb" "bsset #n, [X or Y]:aa, xxxx" None None false;
    Op "0000110111pppppp0S1bbbbb" "bsset #n, [X or Y]:pp, xxxx" None None false;
    Op "0000010010qqqqqq1S1bbbbb" "bsset #n, [X or Y]:qq, xxxx" None None false;
    Op "0000110111DDDDDD101bbbbb" "bsset #n, S, xxxx" None None false;
    Op "0000101101MMMRRR0S10bbbb" "btst #n, [X or Y]:ea" (Some "dis_btst_ea") (Some "emu_btst_ea") true;
    Op "0000101100aaaaaa0S10bbbb" "btst #n, [X or Y]:aa" (Some "dis_btst_aa") (Some "emu_btst_aa") false;
    Op "0000101110pppppp0S10bbbb" "btst #n, [X or Y]:pp" (Some "dis_btst_pp") (Some "emu_btst_pp") false;
    Op "0000000101qqqqqq0S10bbbb" "btst #n, [X or Y]:qq" None None false;
    Op "0000101111DDDDDD0110bbbb" "btst #n, D" (Some "dis_btst_reg") (Some "emu_btst_reg") false;
    Op "0000110000011110000000SD" "clb S, D" None None false;
    Op "0000000101iiiiii1000d101" "cmp #xx, S2" (Some "dis_cmp_imm") (Some "emu_cmp_imm") false;
    Op "00000001010000001100d101" "cmp #xxxx, S2" (Some "dis_cmp_long") (Some "emu_cmp_long") false;
    Op "00001100000111111111gggd" "cmpu S1, S2" (Some "dis_cmpu") (Some "emu_cmpu") false;
    Op "000000000000001000000000" "debug" None None false;
    Op "00000000000000110000CCCC" "debugcc" None None false;
    Op "00000000000000000000101d" "dec D" None (Some "emu_dec") false;
    Op "000000011000000001JJd000" "div S, D" (Some "dis_div") (Some "emu_div") false;
    Op "000000010010010s1sdkQQQQ" "dmac S1, S2, D" None None false;
    Op "0000011001MMMRRR0S000000" "do [X or Y]:ea, expr" (Some "dis_do_ea") (Some "emu_do_ea") true;
    Op "0000011000aaaaaa0S000000" "do [X or Y]:aa, expr" (Some "dis_do_aa") (Some "emu_do_aa") false;
    Op "00000110iiiiiiii1000hhhh" "do #xxx, expr" (Some "dis_do_imm") (Some "emu_do_imm") false;
    Op "0000011011DDDDDD00000000" "do S, expr" (Some "dis_do_reg") (Some "emu_do_reg") false;
    Op "000000000000001000000011" "do_f" None None false;
    Op "0000011001MMMRRR0S010000" "dor [X or Y]:ea, label" None None true;
    Op "0000011000aaaaaa0S010000" "dor [X or Y]:aa, label" None None false;
    Op "00000110iiiiiiii1001hhhh" "dor #xxx, label" (Some "dis_dor_imm") (Some "emu_dor_imm") false;
    Op "0000011011DDDDDD00010000" "dor S, label" (Some "dis_dor_reg") (Some "emu_dor_reg") false;
    Op "000000000000001000000010" "dor_f" None None false;
    Op "000000000000000010001100" "enddo" None (Some "emu_enddo") false;
    Op "0000000101iiiiii1000d011" "eor #xx, D" None None false;
    Op "00000001010000001100d011" "eor #xxxx, D" None None false;
    Op "0000110000011010000sSSSD" "extract S1, S2, D" None None false;
    Op "0000110000011000000s000D" "extract #CO, S2, D" None None false;
    Op "0000110000011010100sSSSD" "extractu S1, S2, D" None None false;
    Op "0000110000011000100s000D" "extractu #CO, S2, D" None None false;
    Op "000000000000000000000101" "ill" None (Some "emu_illegal") false;
    Op "00000000000000000000100d" "inc D" None (Some "emu_inc") false;
    Op "00001100000110110qqqSSSD" "insert S1, S2, D" None None false;
    Op "00001100000110010qqq000D" "insert #CO, S2, D" None None false;
    Op "00001110CCCCaaaaaaaaaaaa" "jcc xxx" (Some "dis_jcc_imm") (Some "emu_jcc_imm") false;
    Op "0000101011MMMRRR1010CCCC" "jcc ea" (Some "dis_jcc_ea") (Some "emu_jcc_ea") true;
    Op "0000101001MMMRRR1S00bbbb" "jclr #n, [X or Y]:ea, xxxx" (Some "dis_jclr_ea") (Some "emu_jclr_ea") true;
    Op "0000101000aaaaaa1S00bbbb" "jclr #n, [X or Y]:aa, xxxx" (Some "dis_jclr_aa") (Some "emu_jclr_aa") false;
    Op "0000101010pppppp1S00bbbb" "jclr #n, [X or Y]:pp, xxxx" (Some "dis_jclr_pp") (Some "emu_jclr_pp") false;
    Op "0000000110qqqqqq1S00bbbb" "jclr #n, [X or Y]:qq, xxxx" None None false;
    Op "0000101011DDDDDD0000bbbb" "jclr #n, S, xxxx" (Some "dis_jclr_reg") (Some "emu_jclr_reg") false;
    Op "0000101011MMMRRR10000000" "jmp ea" (Some "dis_jmp_ea") (Some "emu_jmp_ea") true;
    Op "000011000000aaaaaaaaaaaa" "jmp xxx" (Some "dis_jmp_imm") (Some "emu_jmp_imm") false;
    Op "00001111CCCCaaaaaaaaaaaa" "jscc xxx" (Some "dis_jscc_imm") (Some "emu_jscc_imm") false;
    Op "0000101111MMMRRR1010CCCC" "jscc ea" (Some "dis_jscc_ea") (Some "emu_jscc_ea") true;
    Op "0000101101MMMRRR1S00bbbb" "jsclr #n, [X or Y]:ea, xxxx" (Some "dis_jsclr_ea") (Some "emu_jsclr_ea") true;
    Op "0000101100MMMRRR1S00bbbb" "jsclr #n, [X or Y]:aa, xxxx" (Some "dis_jsclr_aa") (Some "emu_jsclr_aa") true;
    Op "0000101110pppppp1S0bbbbb" "jsclr #n, [X or Y]:pp, xxxx" (Some "dis_jsclr_pp") (Some "emu_jsclr_pp") false;
    Op "0000000111qqqqqq1S0bbbbb" "jsclr #n, [X or Y]:qq, xxxx" None None false;
    Op "0000101111DDDDDD000bbbbb" "jsclr #n, S, xxxx" (Some "dis_jsclr_reg") (Some "emu_jsclr_reg") false;
    Op "0000101001MMMRRR1S10bbbb" "jset #n, [X or Y]:ea, xxxx" (Some "dis_jset_ea") (Some "emu_jset_ea") true;
    Op "0000101000MMMRRR1S10bbbb" "jset #n, [X or Y]:aa, xxxx" (Some "dis_jset_aa") (Some "emu_jset_aa") true;
    Op "0000101010pppppp1S10bbbb" "jset #n, [X or Y]:pp, xxxx" (Some "dis_jset_pp") (Some "emu_jset_pp") false;
    Op "0000000110qqqqqq1S10bbbb" "jset #n, [X or Y]:qq, xxxx" None None false;
    Op "0000101011DDDDDD0010bbbb" "jset #n, S, xxxx" (Some "dis_jset_reg") (Some "emu_jset_reg") false;
    Op "0000101111MMMRRR10000000" "jsr ea" (Some "dis_jsr_ea") (Some "emu_jsr_ea") true;
    Op "000011010000aaaaaaaaaaaa" "jsr xxx" (Some "dis_jsr_imm") (Some "emu_jsr_imm") false;
    Op "0000101101MMMRRR1S10bbbb" "jsset #n, [X or Y]:ea, xxxx" (Some "dis_jsset_ea") (Some "emu_jsset_ea") true;
    Op "0000101100aaaaaa1S10bbbb" "jsset #n, [X or Y]:aa, xxxx" (Some "dis_jsset_aa") (Some "emu_jsset_aa") false;
    Op "0000101110pppppp1S1bbbbb" "jsset #n, [X or Y]:pp, xxxx" (Some "dis_jsset_pp") (Some "emu_jsset_pp") false;
    Op "0000000111qqqqqq1S1bbbbb" "jsset #n, [X or Y]:qq, xxxx" None None false;
    Op "0000101111DDDDDD001bbbbb" "jsset #n, S, xxxx" (Some "dis_jsset_reg") (Some "emu_jsset_reg") false;
    Op "0000010011000RRR000ddddd" "lra Rn, D" None None false;
    Op "0000010001000000010ddddd" "lra xxxx, D" None None false;
    Op "000011000001111010iiiiiD" "lsl #ii, D" None None false;
    Op "00001100000111100001sssD" "lsl S, D" None None false;
    Op "000011000001111011iiiiiD" "lsr #ii, D" None None false;
    Op "00001100000111100011sssD" "lsr S, D" None None false;
    Op "00000100010MMRRR000ddddd" "lua ea, D" (Some "dis_lua") (Some "emu_lua") false;
    Op "0000010000aaaRRRaaaadddd" "lua (Rn + aa), D" (Some "dis_lua_rel") (Some "emu_lua_rel") false;
    Op "00000001000sssss11QQdk10" "mac S, #n, D" None None false;
    Op "000000010100000111qqdk10" "maci #xxxx, S, D" None None false;
    Op "00000001001001101sdkQQQQ" "mac_s_u S1, S2, D" None None false;
    Op "00000001000sssss11QQdk11" "macr S1, S2, D" None None false;
    Op "000000010100000111qqdk11" "macri #xxxx, S, D" None None false;
    Op "00001100000110111000sssD" "merge S, D" None None false;
    Op "0000101001110RRR1WDDDDDD" "move X:(Rn + xxxx) <-> R" (Some "dis_move_x_long") (Some "emu_move_x_long") false;
    Op "0000101101110RRR1WDDDDDD" "move Y:(Rn + xxxx) <-> R" None None false;
    Op "0000001aaaaaaRRR1a0WDDDD" "move X:(Rn + xxx) <-> R" (Some "dis_move_x_imm") (Some "emu_move_x_imm") false;
    Op "0000001aaaaaaRRR1a1WDDDD" "move Y:(Rn + xxx) <-> R" (Some "dis_move_y_imm") (Some "emu_move_y_imm") false;
    Op "00000101W1MMMRRR0s1ddddd" "movec [X or Y]:ea <-> R" (Some "dis_movec_ea") (Some "emu_movec_ea") true;
    Op "00000101W0aaaaaa0s1ddddd" "movec [X or Y]:aa <-> R" (Some "dis_movec_aa") (Some "emu_movec_aa") true;
    Op "00000100W1eeeeee101ddddd" "movec R1, R2" (Some "dis_movec_reg") (Some "emu_movec_reg") false;
    Op "00000101iiiiiiii101ddddd" "movec #xx, D1" (Some "dis_movec_imm") (Some "emu_movec_imm") false;
    Op "00000111W1MMMRRR10dddddd" "movem P:ea <-> R" (Some "dis_movem_ea") (Some "emu_movem_ea") true;
    Op "00000111W0aaaaaa00dddddd" "movem P:ea <-> R" (Some "dis_movem_aa") (Some "emu_movem_aa") true;
    Op "0000100sW1MMMRRR1Spppppp" "movep [X or Y]:ea <-> [X or Y]:pp" (Some "dis_movep_23") (Some "emu_movep_23") true;
    Op "00000111W1MMMRRR0Sqqqqqq" "movep [X or Y]:ea <-> X:qq" (Some "dis_movep_x_qq") (Some "emu_movep_x_qq") true;
    Op "00000111W0MMMRRR1Sqqqqqq" "movep [X or Y]:ea <-> Y:qq" None None true;
    Op "0000100sW1MMMRRR01pppppp" "movep [X or Y]:pp <-> P:ea" (Some "dis_movep_1") (Some "emu_movep_1") true;
    Op "000000001WMMMRRR0sqqqqqq" "movep [X or Y]:qq <-> P:ea" None None true;
    Op "0000100sW1dddddd00pppppp" "movep [X or Y]:pp <-> R" (Some "dis_movep_0") (Some "emu_movep_0") false;
    Op "00000100W1dddddd1q0qqqqq" "movep X:qq <-> R" None None false;
    Op "00000100W1dddddd0q1qqqqq" "movep Y:qq <-> R" None None false;
    Op "00000001000sssss11QQdk00" "mpy S, #n, D" None None false;
    Op "00000001001001111sdkQQQQ" "mpy_s_u S1, S2, D" None None false;
    Op "000000010100000111qqdk00" "mpyi #xxxx, S, D" (Some "dis_mpyi") (Some "emu_mpyi") false;
    Op "00000001000sssss11QQdk01" "mpyr S, #n, D" None None false;
    Op "000000010100000111qqdk01" "mpyri #xxxx, S, D" None None false;
    Op "000000000000000000000000" "nop" None (Some "emu_nop") false;
    Op "0000000111011RRR0001d101" "norm Rn, D" (Some "dis_norm") (Some "emu_norm") false;
    Op "00001100000111100010sssD" "normf S, D" None None false;
    Op "0000000101iiiiii1000d010" "or #xx, D" None None false;
    Op "00000001010000001100d010" "or #xxxx, D" (Some "dis_or_long") (Some "emu_or_long") false;
    Op "00000000iiiiiiii111110EE" "ori #xx, D" (Some "dis_ori") (Some "emu_ori") false;
    Op "000000000000000000000011" "pflush" None None false;
    Op "000000000000000000000001" "pflushun" None None false;
    Op "000000000000000000000010" "pfree" None None false;
    Op "0000101111MMMRRR10000001" "plock ea" None None true;
    Op "000000000000000000001111" "plockr xxxx" None None false;
    Op "0000101011MMMRRR10000001" "punlock ea" None None true;
    Op "000000000000000000001110" "punlockr xxxx" None None false;
    Op "0000011001MMMRRR0S100000" "rep [X or Y]:ea" (Some "dis_rep_ea") (Some "emu_rep_ea") true;
    Op "0000011000aaaaaa0S100000" "rep [X or Y]:aa" (Some "dis_rep_aa") (Some "emu_rep_aa") false;
    Op "00000110iiiiiiii1010hhhh" "rep #xxx" (Some "dis_rep_imm") (Some "emu_rep_imm") false;
    Op "0000011011dddddd00100000" "rep S" (Some "dis_rep_reg") (Some "emu_rep_reg") false;
    Op "000000000000000010000100" "reset" None (Some "emu_reset") false;
    Op "000000000000000000000100" "rti" None (Some "emu_rti") false;
    Op "000000000000000000001100" "rts" None (Some "emu_rts") false;
    Op "000000000000000010000111" "stop" None (Some "emu_stop") false;
    Op "0000000101iiiiii1000d100" "sub #xx, D" (Some "dis_sub_imm") (Some "emu_sub_imm") false;
    Op "00000001010000001100d100" "sub #xxxx, D" (Some "dis_sub_long") (Some "emu_sub_long") false;
    Op "00000010CCCC00000JJJd000" "tcc S1, D1" (Some "dis_tcc") (Some "emu_tcc") false;
    Op "00000011CCCC0ttt0JJJdTTT" "tcc S1,D2 S2,D2" (Some "dis_tcc") (Some "emu_tcc") false;
    Op "00000010CCCC1ttt00000TTT" "tcc S2, D2" (Some "dis_tcc") (Some "emu_tcc") false;
    Op "000000000000000000000110" "trap" None None false;
    Op "00000000000000000001CCCC" "trapcc" None None false;
    Op "0000101S11MMMRRR110i0000" "vsl" None None true;
    Op "000000000000000010000110" "wait" None (Some "emu_wait") false ].

Close Scope string_scope.

(** The mask and match words [dsp56k_reset_cpu] computes from a template: the
    character at [j] constrains bit [24 - j - 1]. *)
Fixpoint template_masks (t : string) (j mask mtch : Z) : Z * Z :=
  match t with
  | EmptyString => (mask, mtch)
  | String c t =>
      if Ascii.eqb c "0"%char || Ascii.eqb c "1"%char then
        template_masks t (j + 1)
          (mask .| (1 .<< (24 - j - 1)))
          (mtch .| ((Z.of_nat (nat_of_ascii c) - 48) .<< (24 - j - 1)))
      else template_masks t (j + 1) mask mtch
  end.

(** [nonparallel_matches[i]], for the entry with template [t]. *)
Definition nonparallel_match (t : string) : Z * Z := template_masks t 0 0 0.

Definition op_matches (op : Z) (e : OpcodeEntry) : bool :=
  let '(mask, mtch) := nonparallel_match (template e) in
  ((op .& mask) =? mtch) && (if match_func e then match_MMMRRR op else true).

(** The loop of [lookup_opcode]: [r] is the entry found so far; a second match
    trips the assertion. *)
Fixpoint lookup_from (op : Z) (r : option OpcodeEntry) (l : list OpcodeEntry)
    : res (option OpcodeEntry) :=
  match l with
  | [] => Ok r
  | e :: l =>
      if op_matches op e then
        _ ← assert (match r with None => true | Some _ => false end);
        lookup_from op (Some e) l
      else lookup_from op r l
  end.

Definition lookup_opcode (op : Z) : res (option OpcodeEntry) :=
  lookup_from op None nonparallel_opcodes.

(** ** When decoding is ambiguous *)

Definition matching (op : Z) (l : list OpcodeEntry) : nat :=
  length (filter (λ e, op_matches op e = true) l).

Lemma lookup_from_spec op r l :
  lookup_from op r l = Fault assert_failed ↔
  (2 ≤ matching op l + (if r then 1 else 0))%nat.
Proof.
  unfold matching. revert r. induction l as [| e l IH]; intros r.
  - cbn. destruct r; split; intros; (discriminate || lia).
  - cbn [lookup_from]. rewrite filter_cons.
    destruct (op_matches op e) eqn:E.
    + rewrite decide_True by done. destruct r; cbn.
      * split; [lia | done].
      * rewrite IH. cbn. lia.
    + rewrite decide_False by done. apply IH.
Qed.

(** Against the list of all the entries that match. *)
Lemma lookup_from_filter op r l :
  lookup_from op r l =
  match r, filter (λ e, op_matches op e = true) l with
  | r, [] => Ok r
  | None, [e] => Ok (Some e)
  | _, _ => Fault assert_failed
  end.
Proof.
  revert r. induction l as [| e l IH]; intros r; [by destruct r |].
  cbn [lookup_from]. rewrite filter_cons. destruct (op_matches op e) eqn:E.
  - rewrite decide_True by done. destruct r; cbn; [done |]. rewrite IH. by destruct (filter _ l).
  - rewrite decide_False by done. apply IH.
Qed.

Lemma lookup_opcode_found op :
  match lookup_opcode op with
  | Ok None => ∀ e, e ∈ nonparallel_opcodes → op_matches op e = false
  | Ok (Some e) => e ∈ nonparallel_opcodes ∧ op_matches op e = true ∧
      ∀ e', e' ∈ nonparallel_opcodes → op_matches op e' = true → e' = e
  | Fault f => f = assert_failed
  end.
Proof.
  unfold lookup_opcode. rewrite lookup_from_filter.
  assert (F : ∀ e, e ∈ filter (λ e, op_matches op e = true) nonparallel_opcodes ↔
                   op_matches op e = true ∧ e ∈ nonparallel_opcodes)
    by (intros; by rewrite list_elem_of_filter).
  destruct (filter _ nonparallel_opcodes) as [| e [| ? ?]]; [| | done].
  - intros e He. destruct (op_matches op e) eqn:E; [| done].
    pose proof (proj2 (F e) (conj E He)) as []%not_elem_of_nil.
  - destruct (proj1 (F e)) as [Hm He]; [by left |]. split_and!; [done | done |].
    intros e' He' Hm'. by apply list_elem_of_singleton, F.
Qed.

(** A word constrained by a mask. *)
Definition masked (op : Z) (c : Z * Z) : Prop := op .& c.1 = c.2.

(** Two constraints exclude each other when they disagree on a common bit. *)
Definition disjointb (c d : Z * Z) : bool := nz ((c.2 .^ d.2) .& c.1 .& d.1).

(** [c] together with [d] implies [t]. *)
Definition impliesb (c d t : Z * Z) : bool :=
  ((t.1 .& (c.1 .| d.1)) =? t.1) && (((c.2 .| d.2) .& t.1) =? t.2).

Lemma masked_disjoint op c d : masked op c → masked op d → disjointb c d = false.
Proof.
  unfold masked, disjointb, nz. destruct c as [m v], d as [n w]; cbn. intros <- <-.
  apply negb_false_iff, Z.eqb_eq. apply Z.bits_inj'. intros i Hi.
  rewrite !Z.land_spec, Z.lxor_spec, !Z.land_spec, Z.bits_0. btauto.
Qed.

Lemma masked_implies op c d t :
  masked op c → masked op d → impliesb c d t = true → masked op t.
Proof.
  unfold masked, impliesb. destruct c as [m v], d as [n w], t as [p u]; cbn. intros <- <-.
  rewrite andb_true_iff, !Z.eqb_eq. intros [E <-].
  apply Z.bits_inj'. intros i Hi. apply (f_equal (λ x, Z.testbit x i)) in E. revert E.
  rewrite !Z.land_spec, !Z.lor_spec, !Z.land_spec.
  destruct (Z.testbit op i), (Z.testbit m i), (Z.testbit n i), (Z.testbit p i); cbn; congruence.
Qed.

(** The constraints that add up to [match_MMMRRR]: MMM is 0xx, 10x or 111, or
    MMM is 110 and RRR is x00. *)
Definition MMMRRR_cases : list (Z * Z) :=
  [(0x2000, 0x0000); (0x3000, 0x2000); (0x3800, 0x3800); (0x3b00, 0x3000)].

Lemma match_MMMRRR_cases op :
  match_MMMRRR op = true → ∃ c, c ∈ MMMRRR_cases ∧ masked op c.
Proof.
  set (x := (op .>> 8) .& BITMASK 6).
  assert (Hx : 0 ≤ x < 64) by (unfold x; rewrite land_BITMASK by done; by apply Z.mod_pos_bound).
  assert (E1 : (op .>> 8) .& BITMASK 3 = x .& 7).
  { unfold x. rewrite <- Z.land_assoc. done. }
  assert (E2 : (op .>> 11) .& BITMASK 3 = x .>> 3).
  { unfold x. rewrite Z.shiftr_land, Z.shiftr_shiftr by done. done. }
  assert (E3 : ∀ m v, masked x (m, v) → (m .& 63) = m → masked op (m .<< 8, v .<< 8)).
  { unfold masked; cbn. intros m v <- Hm. unfold x. rewrite <- Z.land_assoc, (Z.land_comm (BITMASK 6)).
    change (BITMASK 6) with 63. rewrite Hm. apply Z.bits_inj'. intros i Hi.
    rewrite Z.land_spec, !Z.shiftl_spec, Z.land_spec by done.
    destruct (Z.lt_ge_cases i 8); [by rewrite !(Z.testbit_neg_r _ (i - 8)), !andb_false_r by lia |].
    rewrite Z.shiftr_spec by lia. by replace (i - 8 + 8) with i by lia. }
  unfold match_MMMRRR. rewrite E1, E2. clear E1 E2. clearbody x. intros Hm.
  assert (C : existsb (λ c, (x .& c.1) =? c.2)
                [(0x20, 0x00); (0x30, 0x20); (0x38, 0x38); (0x3b, 0x30)] = true).
  { revert Hm. apply (proj1 (Forall_forall (λ x,
      (if (x .>> 3) =? 6 then ((x .& 7) =? 0) || ((x .& 7) =? 4) else true) = true →
      existsb (λ c, (x .& c.1) =? c.2)
        [(0x20, 0x00); (0x30, 0x20); (0x38, 0x38); (0x3b, 0x30)] = true) (seqZ 0 64))).
    - repeat (constructor; [vm_compute; congruence |]). constructor.
    - apply elem_of_seqZ. lia. }
  apply existsb_exists in C as ([m v] & Hin & Hc). apply Z.eqb_eq in Hc. cbn in Hc.
  exists (m .<< 8, v .<< 8). cbn in Hin.
  split; [| apply E3; [done |]]; unfold MMMRRR_cases; rewrite ?list_elem_of_In;
    destruct Hin as [[= <- <-] | [[= <- <-] | [[= <- <-] | [[= <- <-] | []]]]]; cbn; auto.
Qed.

(** The constraint sets whose union is an entry's match condition. *)
Definition constraints (e : OpcodeEntry) : list (Z * Z) :=
  let b := nonparallel_match (template e) in
  if match_func e then (λ c, (b.1 .| c.1, b.2 .| c.2)) <$> MMMRRR_cases else [b].

Lemma masked_both op c d : masked op c → masked op d → masked op (c.1 .| d.1, c.2 .| d.2).
Proof. unfold masked. destruct c, d; cbn. intros <- <-. by rewrite Z.land_lor_distr_r. Qed.

Lemma op_matches_constraints op e :
  op_matches op e = true → ∃ c, c ∈ constraints e ∧ masked op c.
Proof.
  unfold op_matches, constraints. destruct (nonparallel_match _) as [m v] eqn:Eb.
  rewrite andb_true_iff, Z.eqb_eq. intros [Hb Hm]. destruct (match_func e).
  - apply match_MMMRRR_cases in Hm as (c & Hc & Hm).
    exists ((m, v).1 .| c.1, (m, v).2 .| c.2). split; [| by apply masked_both].
    apply list_elem_of_fmap. eauto.
  - exists (m, v). split; [by apply list_elem_of_singleton | done].
Qed.

(** The instruction words of the clash: a bit-test jump with an absolute
    address against a move with a long displacement. *)
Definition ambiguous : Z * Z := (0xFEFB90, 0x0A7080).

Definition pair_okb (a b : list (Z * Z)) : bool :=
  forallb (λ c, forallb (λ d, disjointb c d || impliesb c d ambiguous) b) a.

Fixpoint pairs_okb (l : list (list (Z * Z))) : bool :=
  match l with
  | [] => true
  | a :: l => forallb (pair_okb a) l && pairs_okb l
  end.

Lemma pair_okb_sound op c d a b :
  pair_okb a b = true → c ∈ a → d ∈ b → masked op c → masked op d → masked op ambiguous.
Proof.
  unfold pair_okb. rewrite forallb_forall. intros Ha Hc Hd Mc Md.
  specialize (Ha c ltac:(by apply list_elem_of_In)).
  rewrite forallb_forall in Ha. specialize (Ha d ltac:(by apply list_elem_of_In)).
  rewrite (masked_disjoint op c d) in Ha by done. by apply (masked_implies op c d).
Qed.

Lemma matching_pos op l : (1 ≤ matching op l)%nat → ∃ e, e ∈ l ∧ op_matches op e = true.
Proof.
  unfold matching. intros H. destruct (filter _ l) as [| e l'] eqn:E; [cbn in H; lia |].
  exists e. assert (He : e ∈ filter (λ e, op_matches op e = true) l)
    by (rewrite E; apply elem_of_cons; auto).
  apply list_elem_of_filter in He. tauto.
Qed.

Lemma pairs_okb_sound op l :
  pairs_okb (constraints <$> l) = true → (2 ≤ matching op l)%nat → masked op ambiguous.
Proof.
  induction l as [| e l IH]; [cbn; lia |]. cbn [fmap list_fmap pairs_okb].
  rewrite andb_true_iff. intros [He Hl]. unfold matching. rewrite filter_cons.
  case_decide as Em; [| by apply IH]. cbn. intros H.
  destruct (matching_pos op l) as (e' & Hin & Em'); [unfold matching; lia |].
  apply op_matches_constraints in Em as (c & Hc & Mc), Em' as (d & Hd & Md).
  rewrite forallb_forall in He.
  specialize (He (constraints e') ltac:(apply list_elem_of_In, list_elem_of_fmap; eauto)).
  by eapply pair_okb_sound.
Qed.

Lemma nonparallel_pairs_ok : pairs_okb (constraints <$> nonparallel_opcodes) = true.
Proof. vm_compute. reflexivity. Qed.

(** Two entries at different positions both match. *)
Lemma matching_two op l i j a b :
  (i < j)%nat → l !! i = Some a → l !! j = Some b →
  op_matches op a = true → op_matches op b = true → (2 ≤ matching op l)%nat.
Proof.
  unfold matching. intros Hij Ha Hb Ma Mb.
  rewrite <- (take_drop_middle l i a Ha), filter_app, filter_cons, decide_True, length_app by done.
  enough (b ∈ filter (λ e, op_matches op e = true) (drop (S i) l)) as Hin.
  { apply list_elem_of_In in Hin. cbn.
    destruct (filter _ (drop (S i) l)); cbn in *; [done | lia]. }
  apply list_elem_of_filter. split; [done |].
  apply list_elem_of_lookup. exists (j - S i)%nat. rewrite lookup_drop, <- Hb. f_equal. lia.
Qed.

Lemma masked_bit op k : 0 ≤ k → masked op (2 ^ k, b2z (Z.testbit op k) * 2 ^ k).
Proof.
  intros Hk. unfold masked; cbn. apply Z.bits_inj'. intros i Hi.
  rewrite Z.land_spec, Z.pow2_bits_eqb by done.
  destruct (Z.eqb_spec k i) as [-> | Hne]; rewrite ?andb_true_r, ?andb_false_r.
  - destruct (Z.testbit op i); cbn [b2z]; [by rewrite Z.mul_1_l, Z.pow2_bits_true | by rewrite Z.bits_0].
  - destruct (Z.testbit op k); cbn [b2z];
      [by rewrite Z.mul_1_l, Z.pow2_bits_false | by rewrite Z.bits_0].
Qed.

Lemma match_MMMRRR_absolute op : masked op (0x3b00, 0x3000) → match_MMMRRR op = true.
Proof.
  intros H. unfold match_MMMRRR. case_match; [| done].
  assert (E : ((op .>> 8) .& BITMASK 3) .& 3 = 0).
  { change 0 with (0x3000 .>> 8 .& 3). unfold masked in H; cbn in H. rewrite <- H.
    rewrite Z.shiftr_land, <- !Z.land_assoc. done. }
  pose proof (Z.mod_pos_bound (op .>> 8) (2 ^ 3) ltac:(done)) as B.
  rewrite <- land_BITMASK in B by done. generalize dependent ((op .>> 8) .& BITMASK 3).
  intros x E B.
  assert (C : x = 0 ∨ x = 1 ∨ x = 2 ∨ x = 3 ∨ x = 4 ∨ x = 5 ∨ x = 6 ∨ x = 7) by lia.
  destruct_or! C; subst; done.
Qed.

Lemma ambiguous_matching op :
  masked op ambiguous → (2 ≤ matching op nonparallel_opcodes)%nat.
Proof.
  intros H. pose proof (masked_both _ _ _ (masked_both _ _ _ H (masked_bit op 16 ltac:(done)))
                          (masked_bit op 5 ltac:(done))) as T. clear H.
  set (t := (_, _)) in T.
  assert (M : ∀ e, impliesb t t (nonparallel_match (template e)) = true →
                   impliesb t t (0x3b00, 0x3000) = true → op_matches op e = true).
  { intros e E1 E2. pose proof (masked_implies _ _ _ _ T T E1) as M1.
    pose proof (match_MMMRRR_absolute op (masked_implies _ _ _ _ T T E2)) as M2.
    unfold op_matches. destruct (nonparallel_match _) as [m v]. unfold masked in M1; cbn in M1.
    rewrite M1, Z.eqb_refl, M2. by destruct (match_func e). }
  let clash i j := (eapply (matching_two op _ i j);
    [lia | reflexivity | reflexivity | apply M; vm_compute; reflexivity ..]) in
  destruct (Z.testbit op 16), (Z.testbit op 5);
    [ clash 115%nat 135%nat | clash 103%nat 135%nat
    | clash 108%nat 134%nat | clash 94%nat 134%nat ].
Qed.

Lemma lookup_ambiguous op :
  lookup_opcode op = Fault assert_failed ↔ op .& 0xFEFB90 = 0x0A7080.
Proof.
  transitivity (2 ≤ matching op nonparallel_opcodes + 0)%nat; [apply lookup_from_spec |].
  rewrite Nat.add_0_r. split.
  - apply (pairs_okb_sound op _ nonparallel_pairs_ok).
  - apply ambiguous_matching.
Qed.

Lemma lookup_matching op e : e ∈ nonparallel_opcodes → op_matches op e = true →
  op .& 0xFEFB90 ≠ 0x0A7080 → lookup_opcode op = Ok (Some e).
Proof.
  intros He Hm Ha. pose proof (lookup_opcode_found op) as F. pose proof (lookup_ambiguous op) as A.
  destruct (lookup_opcode op) as [[e' |] | f].
  - destruct F as (_ & _ & F). by rewrite (F e).
  - by rewrite (F e He) in Hm.
  - subst f. tauto.
Qed.

(** C21: the decoder is exact.  [lookup_opcode] aborts on exactly one family of
    instruction words, [0000101y01110r001sc0bbbb], where a bit-test jump with an
    absolute address and a move with a long displacement both match; on every
    other word it returns an entry exactly when that entry of the table matches
    the word, and none when none matches. *)
Theorem lookup_opcode_correct op :
  (lookup_opcode op = Fault assert_failed ↔ op .& 0xFEFB90 = 0x0A7080) ∧
  (∀ e, lookup_opcode op = Ok (Some e) ↔
        e ∈ nonparallel_opcodes ∧ op_matches op e = true ∧ op .& 0xFEFB90 ≠ 0x0A7080) ∧
  (lookup_opcode op = Ok None ↔ ∀ e, e ∈ nonparallel_opcodes → op_matches op e = false).
Proof.
  split; [apply lookup_ambiguous |]. pose proof (lookup_opcode_found op) as F. split.
  - intros e. split; [| intros (? & ? & ?); by apply lookup_matching].
    intros E. rewrite E in F. destruct F as (He & Hm & _). split_and!; [done | done |].
    intros Ha%lookup_ambiguous. congruence.
  - split; [intros E; by rewrite E in F |]. intros Hn.
    unfold lookup_opcode. rewrite lookup_from_filter.
    destruct (filter _ nonparallel_opcodes) as [| e l] eqn:E; [done |].
    assert (He : e ∈ filter (λ e, op_matches op e = true) nonparallel_opcodes) by (rewrite E; left).
    rewrite list_elem_of_filter in He. destruct He as [Hm He]. by rewrite (Hn e He) in Hm.
Qed.
