(* ===== verification/DspAlu.v ===== *)
(** * ALU instructions of the DSP56300 emulator

    src/hw/xbox/dsp/dsp_emu.inl, "Condition code test" to "ALU instructions":
    the condition codes, the CCR update, the data ALU instructions that run in
    parallel with a move, and their dispatch table [opcodes_alu].

    The C file spells out one function per operand combination.  Each family is
    one definition here, with its operands as arguments, and each C function is
    the instance named after it. *)

From S2P Require Import Prelude Dsp56 DspCore.

Definition SIGN_PLUS := 0.
Definition SIGN_MINUS := 1.

(** Register offset of an accumulator: [DSP_REG_A0 + 1] is [DSP_REG_B0], and so
    on for the other words. *)
Definition ACC_A := 0.
Definition ACC_B := 1.

(** [dest[0] = A2; dest[1] = A1; dest[2] = A0] and back. *)
Definition load56 (s : dsp_core) (d : Z) : acc56 :=
  Acc56 (reg s (DSP_REG_A2 + d)) (reg s (DSP_REG_A1 + d)) (reg s (DSP_REG_A0 + d)).

Definition store56 (s : dsp_core) (d : Z) (a : acc56) : dsp_core :=
  let s := set_reg s (DSP_REG_A2 + d) (a0 a) in
  let s := set_reg s (DSP_REG_A1 + d) (a1 a) in
  set_reg s (DSP_REG_A0 + d) (a2 a).

(** [registers[SR] &= BITMASK(16) - mask] and [registers[SR] |= v]. *)
Definition clear_sr (s : dsp_core) (mask : Z) : dsp_core :=
  set_reg s DSP_REG_SR (reg s DSP_REG_SR .& (BITMASK 16 - mask)).
Definition or_sr (s : dsp_core) (v : Z) : dsp_core :=
  set_reg s DSP_REG_SR (reg s DSP_REG_SR .| v).

(** [x & (1<<23) ? 0xff : 0x0]. *)
Definition ext24 (x : Z) : Z := if nz (x .& (1 .<< 23)) then 0xff else 0x0.

(** The source operand of a data ALU instruction: the other accumulator, a
    48-bit register pair, or a 24-bit register in the high word. *)
Definition source_accu (d : Z) (s : dsp_core) : acc56 := load56 s d.
Definition source_long (r1 r0 : Z) (s : dsp_core) : acc56 :=
  Acc56 (ext24 (reg s r1)) (reg s r1) (reg s r0).
Definition source_word (r : Z) (s : dsp_core) : acc56 :=
  Acc56 (ext24 (reg s r)) (reg s r) 0.

(** ** Illegal instructions *)

Definition emu_undefined (s : dsp_core) : res dsp_core :=
  let s :=
    if negb (executing_for_disasm s) then
      s <| cur_inst_len := 0 |> <| instr_cycle := u16 (instr_cycle s + 100) |>
    else s <| cur_inst_len := 1 |> <| instr_cycle := 0 |> in
  if exception_debugging s then Fault assert_failed else Ok s.

(** ** Condition code test *)

Definition emu_calc_cc (s : dsp_core) (cc_code : Z) : bool :=
  let SR := reg s DSP_REG_SR in
  let bit k := (SR .>> k) .& 1 in
  match cc_code with
  | 0 => (* CC (HS) *) SR .& (1 .<< DSP_SR_C) =? 0
  | 1 => (* GE *) (bit DSP_SR_N .^ bit DSP_SR_V) =? 0
  | 2 => (* NE *) SR .& (1 .<< DSP_SR_Z) =? 0
  | 3 => (* PL *) SR .& (1 .<< DSP_SR_N) =? 0
  | 4 => (* NN *)
      let value2 := .~ (SR .>> DSP_SR_U) .& 1 in
      let value3 := .~ (SR .>> DSP_SR_E) .& 1 in
      (bit DSP_SR_Z .| (value2 .& value3)) =? 0
  | 5 => (* EC *) SR .& (1 .<< DSP_SR_E) =? 0
  | 6 => (* LC *) SR .& (1 .<< DSP_SR_L) =? 0
  | 7 => (* GT *) (bit DSP_SR_Z .| (bit DSP_SR_N .^ bit DSP_SR_V)) =? 0
  | 8 => (* CS (LO) *) SR .& (1 .<< DSP_SR_C) =? 1
  | 9 => (* LT *) (bit DSP_SR_N .^ bit DSP_SR_V) =? 1
  | 10 => (* EQ *) bit DSP_SR_Z =? 1
  | 11 => (* MI *) bit DSP_SR_N =? 1
  | 12 => (* NR *)
      let value2 := .~ (SR .>> DSP_SR_U) .& 1 in
      let value3 := .~ (SR .>> DSP_SR_E) .& 1 in
      (bit DSP_SR_Z .| (value2 .& value3)) =? 1
  | 13 => (* ES *) bit DSP_SR_E =? 1
  | 14 => (* LS *) bit DSP_SR_L =? 1
  | 15 => (* LE *) (bit DSP_SR_Z .| (bit DSP_SR_N .^ bit DSP_SR_V)) =? 1
  | _ => false
  end.

(** ** Set/clear ccr bits *)

(** [if (b) registers[SR] |= 1 << bit]. *)
Definition sr_if (b : bool) (bit : Z) (s : dsp_core) : dsp_core :=
  if b then or_sr s (1 .<< bit) else s.

(** The three scaling modes the switch handles set E and U; any other returns
    before Z and N are computed. *)
Definition emu_ccr_update_e_u_n_z (s : dsp_core) (dest : acc56) : dsp_core :=
  let reg0 := a0 dest in
  let reg1 := a1 dest in
  let reg2 := a2 dest in
  let s := clear_sr s ((1 .<< DSP_SR_E) .| (1 .<< DSP_SR_U) .| (1 .<< DSP_SR_N)
                         .| (1 .<< DSP_SR_Z)) in
  let zn s :=
    let s := sr_if ((reg1 =? 0) && (reg2 =? 0) && (reg0 =? 0)) DSP_SR_Z s in
    or_sr s ((reg0 .>> 4) .& 0x8) in
  match (reg s DSP_REG_SR .>> DSP_SR_S0) .& BITMASK 2 with
  | 0 =>
      let value_e := u32 (u32 (reg0 .<< 1) + (reg1 .>> 23)) in
      let s := sr_if (negb (value_e =? 0) && negb (value_e =? BITMASK 9)) DSP_SR_E s in
      let s := sr_if (((reg1 .& 0xc00000) =? 0) || ((reg1 .& 0xc00000) =? 0xc00000))
                 DSP_SR_U s in
      zn s
  | 1 =>
      let s := sr_if (negb (reg0 =? 0) && negb (reg0 =? BITMASK 8)) DSP_SR_E s in
      let value_u := u32 (u32 (reg0 .<< 1) + (reg1 .>> 23)) .& 3 in
      let s := sr_if ((value_u =? 0) || (value_u =? 3)) DSP_SR_U s in
      zn s
  | 2 =>
      let value_e := u32 (u32 (reg0 .<< 2) + (reg1 .>> 22)) in
      let s := sr_if (negb (value_e =? 0) && negb (value_e =? BITMASK 10)) DSP_SR_E s in
      let s := sr_if (((reg1 .& 0x600000) =? 0) || ((reg1 .& 0x600000) =? 0x600000))
                 DSP_SR_U s in
      zn s
  | _ => s
  end.

(** ** ALU instructions, by family *)

Definition SR_VC := (1 .<< DSP_SR_V) .| (1 .<< DSP_SR_C).
Definition SR_NZV := (1 .<< DSP_SR_N) .| (1 .<< DSP_SR_Z) .| (1 .<< DSP_SR_V).
Definition SR_CNZV :=
  (1 .<< DSP_SR_C) .| (1 .<< DSP_SR_N) .| (1 .<< DSP_SR_Z) .| (1 .<< DSP_SR_V).

(** The most negative accumulator, which has no negation. *)
Definition overflowed56 (a : acc56) : Z := b2z ((a2 a =? 0) && (a1 a =? 0) && (a0 a =? 0x80)).

Definition emu_abs (d : Z) (s : dsp_core) : res dsp_core :=
  let dest := load56 s d in
  let overflowed := overflowed56 dest in
  let dest := (dsp_abs56 dest).2 in
  let s := store56 s d dest in
  let s := clear_sr s (1 .<< DSP_SR_V) in
  let s := or_sr s ((overflowed .<< DSP_SR_L) .| (overflowed .<< DSP_SR_V)) in
  Ok (emu_ccr_update_e_u_n_z s dest).

Definition emu_adc (source : dsp_core → acc56) (d : Z) (s : dsp_core) : res dsp_core :=
  let curcarry := (reg s DSP_REG_SR .>> DSP_SR_C) .& 1 in
  let dest := load56 s d in
  let '(newsr, dest) := dsp_add56 (source s) dest in
  let '(newsr, dest) :=
    if nz curcarry then
      let '(sr, dest) := dsp_add56 (Acc56 0 0 1) dest in (newsr .| sr, dest)
    else (newsr, dest) in
  let s := store56 s d dest in
  let s := emu_ccr_update_e_u_n_z s dest in
  let s := clear_sr s SR_VC in
  Ok (or_sr s newsr).

Definition emu_add (source : dsp_core → acc56) (d : Z) (s : dsp_core) : res dsp_core :=
  let dest := load56 s d in
  let '(newsr, dest) := dsp_add56 (source s) dest in
  let s := store56 s d dest in
  let s := emu_ccr_update_e_u_n_z s dest in
  let s := clear_sr s SR_VC in
  Ok (or_sr s newsr).

Definition emu_addl (source : dsp_core → acc56) (d : Z) (s : dsp_core) : res dsp_core :=
  '(newsr, dest) ← dsp_asl56 (load56 s d) 1;
  let '(sr, dest) := dsp_add56 (source s) dest in
  let newsr := newsr .| sr in
  let s := store56 s d dest in
  let s := emu_ccr_update_e_u_n_z s dest in
  let s := clear_sr s SR_VC in
  Ok (or_sr s newsr).

Definition emu_addr (source : dsp_core → acc56) (d : Z) (s : dsp_core) : res dsp_core :=
  '(newsr, dest) ← dsp_asr56 (load56 s d) 1;
  let '(sr, dest) := dsp_add56 (source s) dest in
  let newsr := newsr .| sr in
  let s := store56 s d dest in
  let s := emu_ccr_update_e_u_n_z s dest in
  let s := clear_sr s SR_VC in
  Ok (or_sr s newsr).

(** N and Z from the high word of accumulator [d]. *)
Definition set_n_z (d : Z) (s : dsp_core) : dsp_core :=
  let s := or_sr s (((reg s (DSP_REG_A1 + d) .>> 23) .& 1) .<< DSP_SR_N) in
  or_sr s (b2z (reg s (DSP_REG_A1 + d) =? 0) .<< DSP_SR_Z).

Definition emu_and (r d : Z) (s : dsp_core) : res dsp_core :=
  let s := set_reg s (DSP_REG_A1 + d) (reg s (DSP_REG_A1 + d) .& reg s r) in
  let s := clear_sr s SR_NZV in
  Ok (set_n_z d s).

Definition emu_asl (d : Z) (s : dsp_core) : res dsp_core :=
  '(newsr, dest) ← dsp_asl56 (load56 s d) 1;
  let s := store56 s d dest in
  let s := clear_sr s ((1 .<< DSP_SR_C) .| (1 .<< DSP_SR_V)) in
  let s := or_sr s newsr in
  Ok (emu_ccr_update_e_u_n_z s dest).

Definition emu_asr (d : Z) (s : dsp_core) : res dsp_core :=
  '(newsr, dest) ← dsp_asr56 (load56 s d) 1;
  let s := store56 s d dest in
  let s := clear_sr s ((1 .<< DSP_SR_C) .| (1 .<< DSP_SR_V)) in
  let s := or_sr s newsr in
  Ok (emu_ccr_update_e_u_n_z s dest).

Definition emu_clr (d : Z) (s : dsp_core) : res dsp_core :=
  let s := store56 s d zero56 in
  let s := clear_sr s ((1 .<< DSP_SR_E) .| (1 .<< DSP_SR_N) .| (1 .<< DSP_SR_V)) in
  Ok (or_sr s ((1 .<< DSP_SR_U) .| (1 .<< DSP_SR_Z))).

Definition emu_cmp (source : dsp_core → acc56) (d : Z) (s : dsp_core) : res dsp_core :=
  let '(newsr, dest) := dsp_sub56 (source s) (load56 s d) in
  let s := emu_ccr_update_e_u_n_z s dest in
  let s := clear_sr s SR_VC in
  Ok (or_sr s newsr).

Definition emu_cmpm (source : dsp_core → acc56) (d : Z) (s : dsp_core) : res dsp_core :=
  let dest := (dsp_abs56 (load56 s d)).2 in
  let source := (dsp_abs56 (source s)).2 in
  let '(newsr, dest) := dsp_sub56 source dest in
  let s := emu_ccr_update_e_u_n_z s dest in
  let s := clear_sr s SR_VC in
  Ok (or_sr s newsr).

Definition emu_eor (r d : Z) (s : dsp_core) : res dsp_core :=
  let s := set_reg s (DSP_REG_A1 + d) (reg s (DSP_REG_A1 + d) .^ reg s r) in
  let s := set_reg s (DSP_REG_A1 + d) (reg s (DSP_REG_A1 + d) .& BITMASK 24) in
  let s := clear_sr s SR_NZV in
  Ok (set_n_z d s).

Definition emu_lsl (d : Z) (s : dsp_core) : res dsp_core :=
  let newcarry := (reg s (DSP_REG_A1 + d) .>> 23) .& 1 in
  let s := set_reg s (DSP_REG_A1 + d) (u32 (reg s (DSP_REG_A1 + d) .<< 1)) in
  let s := set_reg s (DSP_REG_A1 + d) (reg s (DSP_REG_A1 + d) .& BITMASK 24) in
  let s := clear_sr s SR_CNZV in
  let s := or_sr s newcarry in
  Ok (set_n_z d s).

Definition emu_lsr (d : Z) (s : dsp_core) : res dsp_core :=
  let newcarry := reg s (DSP_REG_A1 + d) .& 1 in
  let s := set_reg s (DSP_REG_A1 + d) (reg s (DSP_REG_A1 + d) .>> 1) in
  let s := clear_sr s SR_CNZV in
  let s := or_sr s newcarry in
  Ok (or_sr s (b2z (reg s (DSP_REG_A1 + d) =? 0) .<< DSP_SR_Z)).

Definition emu_mac (r1 r2 signe d : Z) (s : dsp_core) : res dsp_core :=
  source ← dsp_mul56 (reg s r1) (reg s r2) signe;
  let '(newsr, dest) := dsp_add56 source (load56 s d) in
  let s := store56 s d dest in
  let s := emu_ccr_update_e_u_n_z s dest in
  let s := clear_sr s (1 .<< DSP_SR_V) in
  Ok (or_sr s (newsr .& 0xfe)).

Definition emu_macr (r1 r2 signe d : Z) (s : dsp_core) : res dsp_core :=
  source ← dsp_mul56 (reg s r1) (reg s r2) signe;
  let '(newsr, dest) := dsp_add56 source (load56 s d) in
  let dest := dsp_rnd56 (reg s DSP_REG_SR) dest in
  let s := store56 s d dest in
  let s := emu_ccr_update_e_u_n_z s dest in
  let s := clear_sr s (1 .<< DSP_SR_V) in
  Ok (or_sr s (newsr .& 0xfe)).

Definition emu_move (s : dsp_core) : res dsp_core := Ok s.

Definition emu_mpy (r1 r2 signe d : Z) (s : dsp_core) : res dsp_core :=
  source ← dsp_mul56 (reg s r1) (reg s r2) signe;
  let s := store56 s d source in
  let s := emu_ccr_update_e_u_n_z s source in
  Ok (clear_sr s (1 .<< DSP_SR_V)).

Definition emu_mpyr (r1 r2 signe d : Z) (s : dsp_core) : res dsp_core :=
  source ← dsp_mul56 (reg s r1) (reg s r2) signe;
  let source := dsp_rnd56 (reg s DSP_REG_SR) source in
  let s := store56 s d source in
  let s := emu_ccr_update_e_u_n_z s source in
  Ok (clear_sr s (1 .<< DSP_SR_V)).

Definition emu_neg (d : Z) (s : dsp_core) : res dsp_core :=
  let source := load56 s d in
  let overflowed := overflowed56 source in
  let dest := (dsp_sub56 source zero56).2 in
  let s := store56 s d dest in
  let s := clear_sr s (1 .<< DSP_SR_V) in
  let s := or_sr s ((overflowed .<< DSP_SR_L) .| (overflowed .<< DSP_SR_V)) in
  Ok (emu_ccr_update_e_u_n_z s dest).

Definition emu_nop (s : dsp_core) : res dsp_core := Ok s.

Definition emu_not (d : Z) (s : dsp_core) : res dsp_core :=
  let s := set_reg s (DSP_REG_A1 + d) (u32 (.~ reg s (DSP_REG_A1 + d))) in
  let s := set_reg s (DSP_REG_A1 + d) (reg s (DSP_REG_A1 + d) .& BITMASK 24) in
  let s := clear_sr s SR_NZV in
  Ok (set_n_z d s).

Definition emu_or (r d : Z) (s : dsp_core) : res dsp_core :=
  let s := set_reg s (DSP_REG_A1 + d) (reg s (DSP_REG_A1 + d) .| reg s r) in
  let s := set_reg s (DSP_REG_A1 + d) (reg s (DSP_REG_A1 + d) .& BITMASK 24) in
  let s := clear_sr s SR_NZV in
  Ok (set_n_z d s).

Definition emu_rnd (d : Z) (s : dsp_core) : res dsp_core :=
  let dest := dsp_rnd56 (reg s DSP_REG_SR) (load56 s d) in
  let s := store56 s d dest in
  Ok (emu_ccr_update_e_u_n_z s dest).

Definition emu_rol (d : Z) (s : dsp_core) : res dsp_core :=
  let newcarry := (reg s (DSP_REG_A1 + d) .>> 23) .& 1 in
  let s := set_reg s (DSP_REG_A1 + d) (u32 (reg s (DSP_REG_A1 + d) .<< 1)) in
  let s := set_reg s (DSP_REG_A1 + d) (reg s (DSP_REG_A1 + d) .| newcarry) in
  let s := set_reg s (DSP_REG_A1 + d) (reg s (DSP_REG_A1 + d) .& BITMASK 24) in
  let s := clear_sr s SR_CNZV in
  let s := or_sr s newcarry in
  Ok (set_n_z d s).

Definition emu_ror (d : Z) (s : dsp_core) : res dsp_core :=
  let newcarry := reg s (DSP_REG_A1 + d) .& 1 in
  let s := set_reg s (DSP_REG_A1 + d) (reg s (DSP_REG_A1 + d) .>> 1) in
  let s := set_reg s (DSP_REG_A1 + d) (reg s (DSP_REG_A1 + d) .| (newcarry .<< 23)) in
  let s := clear_sr s SR_CNZV in
  let s := or_sr s newcarry in
  let s := or_sr s (newcarry .<< DSP_SR_N) in
  Ok (or_sr s (b2z (reg s (DSP_REG_A1 + d) =? 0) .<< DSP_SR_Z)).

Definition emu_sbc (source : dsp_core → acc56) (d : Z) (s : dsp_core) : res dsp_core :=
  let curcarry := (reg s DSP_REG_SR .>> DSP_SR_C) .& 1 in
  let dest := load56 s d in
  let '(newsr, dest) := dsp_sub56 (source s) dest in
  let '(newsr, dest) :=
    if nz curcarry then
      let '(sr, dest) := dsp_sub56 (Acc56 0 0 1) dest in (newsr .| sr, dest)
    else (newsr, dest) in
  let s := store56 s d dest in
  let s := emu_ccr_update_e_u_n_z s dest in
  let s := clear_sr s SR_VC in
  Ok (or_sr s newsr).

Definition emu_sub (source : dsp_core → acc56) (d : Z) (s : dsp_core) : res dsp_core :=
  let dest := load56 s d in
  let '(newsr, dest) := dsp_sub56 (source s) dest in
  let s := store56 s d dest in
  let s := emu_ccr_update_e_u_n_z s dest in
  let s := clear_sr s SR_VC in
  Ok (or_sr s newsr).

Definition emu_subl (source : dsp_core → acc56) (d : Z) (s : dsp_core) : res dsp_core :=
  '(newsr, dest) ← dsp_asl56 (load56 s d) 1;
  let '(sr, dest) := dsp_sub56 (source s) dest in
  let newsr := newsr .| sr in
  let s := store56 s d dest in
  let s := emu_ccr_update_e_u_n_z s dest in
  let s := clear_sr s SR_VC in
  Ok (or_sr s newsr).

Definition emu_subr (source : dsp_core → acc56) (d : Z) (s : dsp_core) : res dsp_core :=
  '(newsr, dest) ← dsp_asr56 (load56 s d) 1;
  let '(sr, dest) := dsp_sub56 (source s) dest in
  let newsr := newsr .| sr in
  let s := store56 s d dest in
  let s := emu_ccr_update_e_u_n_z s dest in
  let s := clear_sr s SR_VC in
  Ok (or_sr s newsr).

Definition emu_tfr (source : dsp_core → acc56) (d : Z) (s : dsp_core) : res dsp_core :=
  Ok (store56 s d (source s)).

Definition emu_tst (d : Z) (s : dsp_core) : res dsp_core :=
  let s := emu_ccr_update_e_u_n_z s (load56 s d) in
  Ok (clear_sr s (1 .<< DSP_SR_V)).

Definition emu_max (s : dsp_core) : res dsp_core :=
  let dest := (dsp_sub56 (load56 s ACC_B) (load56 s ACC_A)).2 in
  let pass := nz (a0 dest .& (1 .<< 7))
              || ((a0 dest =? 0) && (a1 dest =? 0) && (a2 dest =? 0)) in
  let s :=
    if pass then
      let s := set_reg s DSP_REG_B0 (reg s DSP_REG_A2) in
      let s := set_reg s DSP_REG_B1 (reg s DSP_REG_A1) in
      set_reg s DSP_REG_B2 (reg s DSP_REG_A0)
    else s in
  let s := clear_sr s (1 .<< DSP_SR_C) in
  Ok (or_sr s (b2z pass .<< DSP_SR_C)).

(** [emu_macr_p_x1_y0_b] calls [dsp_rnd56] before it loads [dest]: the rounding
    runs on the uninitialised array [junk], which the load then overwrites. *)
Definition emu_macr_uninit (junk : acc56) (s : dsp_core) : res dsp_core :=
  source ← dsp_mul56 (reg s DSP_REG_X1) (reg s DSP_REG_Y0) SIGN_PLUS;
  let dest := dsp_rnd56 (reg s DSP_REG_SR) junk in
  let dest := load56 s ACC_B in
  let '(newsr, dest) := dsp_add56 source dest in
  let s := store56 s ACC_B dest in
  let s := emu_ccr_update_e_u_n_z s dest in
  let s := clear_sr s (1 .<< DSP_SR_V) in
  Ok (or_sr s (newsr .& 0xfe)).

(** ** ALU instructions, one per C function *)

Definition emu_abs_a := emu_abs ACC_A.
Definition emu_abs_b := emu_abs ACC_B.
Definition emu_adc_x_a := emu_adc (source_long DSP_REG_X1 DSP_REG_X0) ACC_A.
Definition emu_adc_x_b := emu_adc (source_long DSP_REG_X1 DSP_REG_X0) ACC_B.
Definition emu_adc_y_a := emu_adc (source_long DSP_REG_Y1 DSP_REG_Y0) ACC_A.
Definition emu_adc_y_b := emu_adc (source_long DSP_REG_Y1 DSP_REG_Y0) ACC_B.
Definition emu_add_b_a := emu_add (source_accu ACC_B) ACC_A.
Definition emu_add_a_b := emu_add (source_accu ACC_A) ACC_B.
Definition emu_add_x_a := emu_add (source_long DSP_REG_X1 DSP_REG_X0) ACC_A.
Definition emu_add_x_b := emu_add (source_long DSP_REG_X1 DSP_REG_X0) ACC_B.
Definition emu_add_y_a := emu_add (source_long DSP_REG_Y1 DSP_REG_Y0) ACC_A.
Definition emu_add_y_b := emu_add (source_long DSP_REG_Y1 DSP_REG_Y0) ACC_B.
Definition emu_add_x0_a := emu_add (source_word DSP_REG_X0) ACC_A.
Definition emu_add_x0_b := emu_add (source_word DSP_REG_X0) ACC_B.
Definition emu_add_y0_a := emu_add (source_word DSP_REG_Y0) ACC_A.
Definition emu_add_y0_b := emu_add (source_word DSP_REG_Y0) ACC_B.
Definition emu_add_x1_a := emu_add (source_word DSP_REG_X1) ACC_A.
Definition emu_add_x1_b := emu_add (source_word DSP_REG_X1) ACC_B.
Definition emu_add_y1_a := emu_add (source_word DSP_REG_Y1) ACC_A.
Definition emu_add_y1_b := emu_add (source_word DSP_REG_Y1) ACC_B.
Definition emu_addl_b_a := emu_addl (source_accu ACC_B) ACC_A.
Definition emu_addl_a_b := emu_addl (source_accu ACC_A) ACC_B.
Definition emu_addr_b_a := emu_addr (source_accu ACC_B) ACC_A.
Definition emu_addr_a_b := emu_addr (source_accu ACC_A) ACC_B.
Definition emu_and_x0_a := emu_and DSP_REG_X0 ACC_A.
Definition emu_and_x0_b := emu_and DSP_REG_X0 ACC_B.
Definition emu_and_y0_a := emu_and DSP_REG_Y0 ACC_A.
Definition emu_and_y0_b := emu_and DSP_REG_Y0 ACC_B.
Definition emu_and_x1_a := emu_and DSP_REG_X1 ACC_A.
Definition emu_and_x1_b := emu_and DSP_REG_X1 ACC_B.
Definition emu_and_y1_a := emu_and DSP_REG_Y1 ACC_A.
Definition emu_and_y1_b := emu_and DSP_REG_Y1 ACC_B.
Definition emu_asl_a := emu_asl ACC_A.
Definition emu_asl_b := emu_asl ACC_B.
Definition emu_asr_a := emu_asr ACC_A.
Definition emu_asr_b := emu_asr ACC_B.
Definition emu_clr_a := emu_clr ACC_A.
Definition emu_clr_b := emu_clr ACC_B.
Definition emu_cmp_b_a := emu_cmp (source_accu ACC_B) ACC_A.
Definition emu_cmp_a_b := emu_cmp (source_accu ACC_A) ACC_B.
Definition emu_cmp_x0_a := emu_cmp (source_word DSP_REG_X0) ACC_A.
Definition emu_cmp_x0_b := emu_cmp (source_word DSP_REG_X0) ACC_B.
Definition emu_cmp_y0_a := emu_cmp (source_word DSP_REG_Y0) ACC_A.
Definition emu_cmp_y0_b := emu_cmp (source_word DSP_REG_Y0) ACC_B.
Definition emu_cmp_x1_a := emu_cmp (source_word DSP_REG_X1) ACC_A.
Definition emu_cmp_x1_b := emu_cmp (source_word DSP_REG_X1) ACC_B.
Definition emu_cmp_y1_a := emu_cmp (source_word DSP_REG_Y1) ACC_A.
Definition emu_cmp_y1_b := emu_cmp (source_word DSP_REG_Y1) ACC_B.
Definition emu_cmpm_b_a := emu_cmpm (source_accu ACC_B) ACC_A.
Definition emu_cmpm_a_b := emu_cmpm (source_accu ACC_A) ACC_B.
Definition emu_cmpm_x0_a := emu_cmpm (source_word DSP_REG_X0) ACC_A.
Definition emu_cmpm_x0_b := emu_cmpm (source_word DSP_REG_X0) ACC_B.
Definition emu_cmpm_y0_a := emu_cmpm (source_word DSP_REG_Y0) ACC_A.
Definition emu_cmpm_y0_b := emu_cmpm (source_word DSP_REG_Y0) ACC_B.
Definition emu_cmpm_x1_a := emu_cmpm (source_word DSP_REG_X1) ACC_A.
Definition emu_cmpm_x1_b := emu_cmpm (source_word DSP_REG_X1) ACC_B.
Definition emu_cmpm_y1_a := emu_cmpm (source_word DSP_REG_Y1) ACC_A.
Definition emu_cmpm_y1_b := emu_cmpm (source_word DSP_REG_Y1) ACC_B.
Definition emu_eor_x0_a := emu_eor DSP_REG_X0 ACC_A.
Definition emu_eor_x0_b := emu_eor DSP_REG_X0 ACC_B.
Definition emu_eor_y0_a := emu_eor DSP_REG_Y0 ACC_A.
Definition emu_eor_y0_b := emu_eor DSP_REG_Y0 ACC_B.
Definition emu_eor_x1_a := emu_eor DSP_REG_X1 ACC_A.
Definition emu_eor_x1_b := emu_eor DSP_REG_X1 ACC_B.
Definition emu_eor_y1_a := emu_eor DSP_REG_Y1 ACC_A.
Definition emu_eor_y1_b := emu_eor DSP_REG_Y1 ACC_B.
Definition emu_lsl_a := emu_lsl ACC_A.
Definition emu_lsl_b := emu_lsl ACC_B.
Definition emu_lsr_a := emu_lsr ACC_A.
Definition emu_lsr_b := emu_lsr ACC_B.
Definition emu_mac_p_x0_x0_a := emu_mac DSP_REG_X0 DSP_REG_X0 SIGN_PLUS ACC_A.
Definition emu_mac_m_x0_x0_a := emu_mac DSP_REG_X0 DSP_REG_X0 SIGN_MINUS ACC_A.
Definition emu_mac_p_x0_x0_b := emu_mac DSP_REG_X0 DSP_REG_X0 SIGN_PLUS ACC_B.
Definition emu_mac_m_x0_x0_b := emu_mac DSP_REG_X0 DSP_REG_X0 SIGN_MINUS ACC_B.
Definition emu_mac_p_y0_y0_a := emu_mac DSP_REG_Y0 DSP_REG_Y0 SIGN_PLUS ACC_A.
Definition emu_mac_m_y0_y0_a := emu_mac DSP_REG_Y0 DSP_REG_Y0 SIGN_MINUS ACC_A.
Definition emu_mac_p_y0_y0_b := emu_mac DSP_REG_Y0 DSP_REG_Y0 SIGN_PLUS ACC_B.
Definition emu_mac_m_y0_y0_b := emu_mac DSP_REG_Y0 DSP_REG_Y0 SIGN_MINUS ACC_B.
Definition emu_mac_p_x1_x0_a := emu_mac DSP_REG_X1 DSP_REG_X0 SIGN_PLUS ACC_A.
Definition emu_mac_m_x1_x0_a := emu_mac DSP_REG_X1 DSP_REG_X0 SIGN_MINUS ACC_A.
Definition emu_mac_p_x1_x0_b := emu_mac DSP_REG_X1 DSP_REG_X0 SIGN_PLUS ACC_B.
Definition emu_mac_m_x1_x0_b := emu_mac DSP_REG_X1 DSP_REG_X0 SIGN_MINUS ACC_B.
Definition emu_mac_p_y1_y0_a := emu_mac DSP_REG_Y1 DSP_REG_Y0 SIGN_PLUS ACC_A.
Definition emu_mac_m_y1_y0_a := emu_mac DSP_REG_Y1 DSP_REG_Y0 SIGN_MINUS ACC_A.
Definition emu_mac_p_y1_y0_b := emu_mac DSP_REG_Y1 DSP_REG_Y0 SIGN_PLUS ACC_B.
Definition emu_mac_m_y1_y0_b := emu_mac DSP_REG_Y1 DSP_REG_Y0 SIGN_MINUS ACC_B.
Definition emu_mac_p_x0_y1_a := emu_mac DSP_REG_X0 DSP_REG_Y1 SIGN_PLUS ACC_A.
Definition emu_mac_m_x0_y1_a := emu_mac DSP_REG_X0 DSP_REG_Y1 SIGN_MINUS ACC_A.
Definition emu_mac_p_x0_y1_b := emu_mac DSP_REG_X0 DSP_REG_Y1 SIGN_PLUS ACC_B.
Definition emu_mac_m_x0_y1_b := emu_mac DSP_REG_X0 DSP_REG_Y1 SIGN_MINUS ACC_B.
Definition emu_mac_p_y0_x0_a := emu_mac DSP_REG_Y0 DSP_REG_X0 SIGN_PLUS ACC_A.
Definition emu_mac_m_y0_x0_a := emu_mac DSP_REG_Y0 DSP_REG_X0 SIGN_MINUS ACC_A.
Definition emu_mac_p_y0_x0_b := emu_mac DSP_REG_Y0 DSP_REG_X0 SIGN_PLUS ACC_B.
Definition emu_mac_m_y0_x0_b := emu_mac DSP_REG_Y0 DSP_REG_X0 SIGN_MINUS ACC_B.
Definition emu_mac_p_x1_y0_a := emu_mac DSP_REG_X1 DSP_REG_Y0 SIGN_PLUS ACC_A.
Definition emu_mac_m_x1_y0_a := emu_mac DSP_REG_X1 DSP_REG_Y0 SIGN_MINUS ACC_A.
Definition emu_mac_p_x1_y0_b := emu_mac DSP_REG_X1 DSP_REG_Y0 SIGN_PLUS ACC_B.
Definition emu_mac_m_x1_y0_b := emu_mac DSP_REG_X1 DSP_REG_Y0 SIGN_MINUS ACC_B.
Definition emu_mac_p_y1_x1_a := emu_mac DSP_REG_Y1 DSP_REG_X1 SIGN_PLUS ACC_A.
Definition emu_mac_m_y1_x1_a := emu_mac DSP_REG_Y1 DSP_REG_X1 SIGN_MINUS ACC_A.
Definition emu_mac_p_y1_x1_b := emu_mac DSP_REG_Y1 DSP_REG_X1 SIGN_PLUS ACC_B.
Definition emu_mac_m_y1_x1_b := emu_mac DSP_REG_Y1 DSP_REG_X1 SIGN_MINUS ACC_B.
Definition emu_macr_p_x0_x0_a := emu_macr DSP_REG_X0 DSP_REG_X0 SIGN_PLUS ACC_A.
Definition emu_macr_m_x0_x0_a := emu_macr DSP_REG_X0 DSP_REG_X0 SIGN_MINUS ACC_A.
Definition emu_macr_p_x0_x0_b := emu_macr DSP_REG_X0 DSP_REG_X0 SIGN_PLUS ACC_B.
Definition emu_macr_m_x0_x0_b := emu_macr DSP_REG_X0 DSP_REG_X0 SIGN_MINUS ACC_B.
Definition emu_macr_p_y0_y0_a := emu_macr DSP_REG_Y0 DSP_REG_Y0 SIGN_PLUS ACC_A.
Definition emu_macr_m_y0_y0_a := emu_macr DSP_REG_Y0 DSP_REG_Y0 SIGN_MINUS ACC_A.
Definition emu_macr_p_y0_y0_b := emu_macr DSP_REG_Y0 DSP_REG_Y0 SIGN_PLUS ACC_B.
Definition emu_macr_m_y0_y0_b := emu_macr DSP_REG_Y0 DSP_REG_Y0 SIGN_MINUS ACC_B.
Definition emu_macr_p_x1_x0_a := emu_macr DSP_REG_X1 DSP_REG_X0 SIGN_PLUS ACC_A.
Definition emu_macr_m_x1_x0_a := emu_macr DSP_REG_X1 DSP_REG_X0 SIGN_MINUS ACC_A.
Definition emu_macr_p_x1_x0_b := emu_macr DSP_REG_X1 DSP_REG_X0 SIGN_PLUS ACC_B.
Definition emu_macr_m_x1_x0_b := emu_macr DSP_REG_X1 DSP_REG_X0 SIGN_MINUS ACC_B.
Definition emu_macr_p_y1_y0_a := emu_macr DSP_REG_Y1 DSP_REG_Y0 SIGN_PLUS ACC_A.
Definition emu_macr_m_y1_y0_a := emu_macr DSP_REG_Y1 DSP_REG_Y0 SIGN_MINUS ACC_A.
Definition emu_macr_p_y1_y0_b := emu_macr DSP_REG_Y1 DSP_REG_Y0 SIGN_PLUS ACC_B.
Definition emu_macr_m_y1_y0_b := emu_macr DSP_REG_Y1 DSP_REG_Y0 SIGN_MINUS ACC_B.
Definition emu_macr_p_x0_y1_a := emu_macr DSP_REG_X0 DSP_REG_Y1 SIGN_PLUS ACC_A.
Definition emu_macr_m_x0_y1_a := emu_macr DSP_REG_X0 DSP_REG_Y1 SIGN_MINUS ACC_A.
Definition emu_macr_p_x0_y1_b := emu_macr DSP_REG_X0 DSP_REG_Y1 SIGN_PLUS ACC_B.
Definition emu_macr_m_x0_y1_b := emu_macr DSP_REG_X0 DSP_REG_Y1 SIGN_MINUS ACC_B.
Definition emu_macr_p_y0_x0_a := emu_macr DSP_REG_Y0 DSP_REG_X0 SIGN_PLUS ACC_A.
Definition emu_macr_m_y0_x0_a := emu_macr DSP_REG_Y0 DSP_REG_X0 SIGN_MINUS ACC_A.
Definition emu_macr_p_y0_x0_b := emu_macr DSP_REG_Y0 DSP_REG_X0 SIGN_PLUS ACC_B.
Definition emu_macr_m_y0_x0_b := emu_macr DSP_REG_Y0 DSP_REG_X0 SIGN_MINUS ACC_B.
Definition emu_macr_p_x1_y0_a := emu_macr DSP_REG_X1 DSP_REG_Y0 SIGN_PLUS ACC_A.
Definition emu_macr_m_x1_y0_a := emu_macr DSP_REG_X1 DSP_REG_Y0 SIGN_MINUS ACC_A.
Definition emu_macr_p_x1_y0_b := emu_macr_uninit zero56.
Definition emu_macr_m_x1_y0_b := emu_macr DSP_REG_X1 DSP_REG_Y0 SIGN_MINUS ACC_B.
Definition emu_macr_p_y1_x1_a := emu_macr DSP_REG_Y1 DSP_REG_X1 SIGN_PLUS ACC_A.
Definition emu_macr_m_y1_x1_a := emu_macr DSP_REG_Y1 DSP_REG_X1 SIGN_MINUS ACC_A.
Definition emu_macr_p_y1_x1_b := emu_macr DSP_REG_Y1 DSP_REG_X1 SIGN_PLUS ACC_B.
Definition emu_macr_m_y1_x1_b := emu_macr DSP_REG_Y1 DSP_REG_X1 SIGN_MINUS ACC_B.
Definition emu_mpy_p_x0_x0_a := emu_mpy DSP_REG_X0 DSP_REG_X0 SIGN_PLUS ACC_A.
Definition emu_mpy_m_x0_x0_a := emu_mpy DSP_REG_X0 DSP_REG_X0 SIGN_MINUS ACC_A.
Definition emu_mpy_p_x0_x0_b := emu_mpy DSP_REG_X0 DSP_REG_X0 SIGN_PLUS ACC_B.
Definition emu_mpy_m_x0_x0_b := emu_mpy DSP_REG_X0 DSP_REG_X0 SIGN_MINUS ACC_B.
Definition emu_mpy_p_y0_y0_a := emu_mpy DSP_REG_Y0 DSP_REG_Y0 SIGN_PLUS ACC_A.
Definition emu_mpy_m_y0_y0_a := emu_mpy DSP_REG_Y0 DSP_REG_Y0 SIGN_MINUS ACC_A.
Definition emu_mpy_p_y0_y0_b := emu_mpy DSP_REG_Y0 DSP_REG_Y0 SIGN_PLUS ACC_B.
Definition emu_mpy_m_y0_y0_b := emu_mpy DSP_REG_Y0 DSP_REG_Y0 SIGN_MINUS ACC_B.
Definition emu_mpy_p_x1_x0_a := emu_mpy DSP_REG_X1 DSP_REG_X0 SIGN_PLUS ACC_A.
Definition emu_mpy_m_x1_x0_a := emu_mpy DSP_REG_X1 DSP_REG_X0 SIGN_MINUS ACC_A.
Definition emu_mpy_p_x1_x0_b := emu_mpy DSP_REG_X1 DSP_REG_X0 SIGN_PLUS ACC_B.
Definition emu_mpy_m_x1_x0_b := emu_mpy DSP_REG_X1 DSP_REG_X0 SIGN_MINUS ACC_B.
Definition emu_mpy_p_y1_y0_a := emu_mpy DSP_REG_Y1 DSP_REG_Y0 SIGN_PLUS ACC_A.
Definition emu_mpy_m_y1_y0_a := emu_mpy DSP_REG_Y1 DSP_REG_Y0 SIGN_MINUS ACC_A.
Definition emu_mpy_p_y1_y0_b := emu_mpy DSP_REG_Y1 DSP_REG_Y0 SIGN_PLUS ACC_B.
Definition emu_mpy_m_y1_y0_b := emu_mpy DSP_REG_Y1 DSP_REG_Y0 SIGN_MINUS ACC_B.
Definition emu_mpy_p_x0_y1_a := emu_mpy DSP_REG_X0 DSP_REG_Y1 SIGN_PLUS ACC_A.
Definition emu_mpy_m_x0_y1_a := emu_mpy DSP_REG_X0 DSP_REG_Y1 SIGN_MINUS ACC_A.
Definition emu_mpy_p_x0_y1_b := emu_mpy DSP_REG_X0 DSP_REG_Y1 SIGN_PLUS ACC_B.
Definition emu_mpy_m_x0_y1_b := emu_mpy DSP_REG_X0 DSP_REG_Y1 SIGN_MINUS ACC_B.
Definition emu_mpy_p_y0_x0_a := emu_mpy DSP_REG_Y0 DSP_REG_X0 SIGN_PLUS ACC_A.
Definition emu_mpy_m_y0_x0_a := emu_mpy DSP_REG_Y0 DSP_REG_X0 SIGN_MINUS ACC_A.
Definition emu_mpy_p_y0_x0_b := emu_mpy DSP_REG_Y0 DSP_REG_X0 SIGN_PLUS ACC_B.
Definition emu_mpy_m_y0_x0_b := emu_mpy DSP_REG_Y0 DSP_REG_X0 SIGN_MINUS ACC_B.
Definition emu_mpy_p_x1_y0_a := emu_mpy DSP_REG_X1 DSP_REG_Y0 SIGN_PLUS ACC_A.
Definition emu_mpy_m_x1_y0_a := emu_mpy DSP_REG_X1 DSP_REG_Y0 SIGN_MINUS ACC_A.
Definition emu_mpy_p_x1_y0_b := emu_mpy DSP_REG_X1 DSP_REG_Y0 SIGN_PLUS ACC_B.
Definition emu_mpy_m_x1_y0_b := emu_mpy DSP_REG_X1 DSP_REG_Y0 SIGN_MINUS ACC_B.
Definition emu_mpy_p_y1_x1_a := emu_mpy DSP_REG_Y1 DSP_REG_X1 SIGN_PLUS ACC_A.
Definition emu_mpy_m_y1_x1_a := emu_mpy DSP_REG_Y1 DSP_REG_X1 SIGN_MINUS ACC_A.
Definition emu_mpy_p_y1_x1_b := emu_mpy DSP_REG_Y1 DSP_REG_X1 SIGN_PLUS ACC_B.
Definition emu_mpy_m_y1_x1_b := emu_mpy DSP_REG_Y1 DSP_REG_X1 SIGN_MINUS ACC_B.
Definition emu_mpyr_p_x0_x0_a := emu_mpyr DSP_REG_X0 DSP_REG_X0 SIGN_PLUS ACC_A.
Definition emu_mpyr_m_x0_x0_a := emu_mpyr DSP_REG_X0 DSP_REG_X0 SIGN_MINUS ACC_A.
Definition emu_mpyr_p_x0_x0_b := emu_mpyr DSP_REG_X0 DSP_REG_X0 SIGN_PLUS ACC_B.
Definition emu_mpyr_m_x0_x0_b := emu_mpyr DSP_REG_X0 DSP_REG_X0 SIGN_MINUS ACC_B.
Definition emu_mpyr_p_y0_y0_a := emu_mpyr DSP_REG_Y0 DSP_REG_Y0 SIGN_PLUS ACC_A.
Definition emu_mpyr_m_y0_y0_a := emu_mpyr DSP_REG_Y0 DSP_REG_Y0 SIGN_MINUS ACC_A.
Definition emu_mpyr_p_y0_y0_b := emu_mpyr DSP_REG_Y0 DSP_REG_Y0 SIGN_PLUS ACC_B.
Definition emu_mpyr_m_y0_y0_b := emu_mpyr DSP_REG_Y0 DSP_REG_Y0 SIGN_MINUS ACC_B.
Definition emu_mpyr_p_x1_x0_a := emu_mpyr DSP_REG_X1 DSP_REG_X0 SIGN_PLUS ACC_A.
Definition emu_mpyr_m_x1_x0_a := emu_mpyr DSP_REG_X1 DSP_REG_X0 SIGN_MINUS ACC_A.
Definition emu_mpyr_p_x1_x0_b := emu_mpyr DSP_REG_X1 DSP_REG_X0 SIGN_PLUS ACC_B.
Definition emu_mpyr_m_x1_x0_b := emu_mpyr DSP_REG_X1 DSP_REG_X0 SIGN_MINUS ACC_B.
Definition emu_mpyr_p_y1_y0_a := emu_mpyr DSP_REG_Y1 DSP_REG_Y0 SIGN_PLUS ACC_A.
Definition emu_mpyr_m_y1_y0_a := emu_mpyr DSP_REG_Y1 DSP_REG_Y0 SIGN_MINUS ACC_A.
Definition emu_mpyr_p_y1_y0_b := emu_mpyr DSP_REG_Y1 DSP_REG_Y0 SIGN_PLUS ACC_B.
Definition emu_mpyr_m_y1_y0_b := emu_mpyr DSP_REG_Y1 DSP_REG_Y0 SIGN_MINUS ACC_B.
Definition emu_mpyr_p_x0_y1_a := emu_mpyr DSP_REG_X0 DSP_REG_Y1 SIGN_PLUS ACC_A.
Definition emu_mpyr_m_x0_y1_a := emu_mpyr DSP_REG_X0 DSP_REG_Y1 SIGN_MINUS ACC_A.
Definition emu_mpyr_p_x0_y1_b := emu_mpyr DSP_REG_X0 DSP_REG_Y1 SIGN_PLUS ACC_B.
Definition emu_mpyr_m_x0_y1_b := emu_mpyr DSP_REG_X0 DSP_REG_Y1 SIGN_MINUS ACC_B.
Definition emu_mpyr_p_y0_x0_a := emu_mpyr DSP_REG_Y0 DSP_REG_X0 SIGN_PLUS ACC_A.
Definition emu_mpyr_m_y0_x0_a := emu_mpyr DSP_REG_Y0 DSP_REG_X0 SIGN_MINUS ACC_A.
Definition emu_mpyr_p_y0_x0_b := emu_mpyr DSP_REG_Y0 DSP_REG_X0 SIGN_PLUS ACC_B.
Definition emu_mpyr_m_y0_x0_b := emu_mpyr DSP_REG_Y0 DSP_REG_X0 SIGN_MINUS ACC_B.
Definition emu_mpyr_p_x1_y0_a := emu_mpyr DSP_REG_X1 DSP_REG_Y0 SIGN_PLUS ACC_A.
Definition emu_mpyr_m_x1_y0_a := emu_mpyr DSP_REG_X1 DSP_REG_Y0 SIGN_MINUS ACC_A.
Definition emu_mpyr_p_x1_y0_b := emu_mpyr DSP_REG_X1 DSP_REG_Y0 SIGN_PLUS ACC_B.
Definition emu_mpyr_m_x1_y0_b := emu_mpyr DSP_REG_X1 DSP_REG_Y0 SIGN_MINUS ACC_B.
Definition emu_mpyr_p_y1_x1_a := emu_mpyr DSP_REG_Y1 DSP_REG_X1 SIGN_PLUS ACC_A.
Definition emu_mpyr_m_y1_x1_a := emu_mpyr DSP_REG_Y1 DSP_REG_X1 SIGN_MINUS ACC_A.
Definition emu_mpyr_p_y1_x1_b := emu_mpyr DSP_REG_Y1 DSP_REG_X1 SIGN_PLUS ACC_B.
Definition emu_mpyr_m_y1_x1_b := emu_mpyr DSP_REG_Y1 DSP_REG_X1 SIGN_MINUS ACC_B.
Definition emu_neg_a := emu_neg ACC_A.
Definition emu_neg_b := emu_neg ACC_B.
Definition emu_not_a := emu_not ACC_A.
Definition emu_not_b := emu_not ACC_B.
Definition emu_or_x0_a := emu_or DSP_REG_X0 ACC_A.
Definition emu_or_x0_b := emu_or DSP_REG_X0 ACC_B.
Definition emu_or_y0_a := emu_or DSP_REG_Y0 ACC_A.
Definition emu_or_y0_b := emu_or DSP_REG_Y0 ACC_B.
Definition emu_or_x1_a := emu_or DSP_REG_X1 ACC_A.
Definition emu_or_x1_b := emu_or DSP_REG_X1 ACC_B.
Definition emu_or_y1_a := emu_or DSP_REG_Y1 ACC_A.
Definition emu_or_y1_b := emu_or DSP_REG_Y1 ACC_B.
Definition emu_rnd_a := emu_rnd ACC_A.
Definition emu_rnd_b := emu_rnd ACC_B.
Definition emu_rol_a := emu_rol ACC_A.
Definition emu_rol_b := emu_rol ACC_B.
Definition emu_ror_a := emu_ror ACC_A.
Definition emu_ror_b := emu_ror ACC_B.
Definition emu_sbc_x_a := emu_sbc (source_long DSP_REG_X1 DSP_REG_X0) ACC_A.
Definition emu_sbc_x_b := emu_sbc (source_long DSP_REG_X1 DSP_REG_X0) ACC_B.
Definition emu_sbc_y_a := emu_sbc (source_long DSP_REG_Y1 DSP_REG_Y0) ACC_A.
Definition emu_sbc_y_b := emu_sbc (source_long DSP_REG_Y1 DSP_REG_Y0) ACC_B.
Definition emu_sub_b_a := emu_sub (source_accu ACC_B) ACC_A.
Definition emu_sub_a_b := emu_sub (source_accu ACC_A) ACC_B.
Definition emu_sub_x_a := emu_sub (source_long DSP_REG_X1 DSP_REG_X0) ACC_A.
Definition emu_sub_x_b := emu_sub (source_long DSP_REG_X1 DSP_REG_X0) ACC_B.
Definition emu_sub_y_a := emu_sub (source_long DSP_REG_Y1 DSP_REG_Y0) ACC_A.
Definition emu_sub_y_b := emu_sub (source_long DSP_REG_Y1 DSP_REG_Y0) ACC_B.
Definition emu_sub_x0_a := emu_sub (source_word DSP_REG_X0) ACC_A.
Definition emu_sub_x0_b := emu_sub (source_word DSP_REG_X0) ACC_B.
Definition emu_sub_y0_a := emu_sub (source_word DSP_REG_Y0) ACC_A.
Definition emu_sub_y0_b := emu_sub (source_word DSP_REG_Y0) ACC_B.
Definition emu_sub_x1_a := emu_sub (source_word DSP_REG_X1) ACC_A.
Definition emu_sub_x1_b := emu_sub (source_word DSP_REG_X1) ACC_B.
Definition emu_sub_y1_a := emu_sub (source_word DSP_REG_Y1) ACC_A.
Definition emu_sub_y1_b := emu_sub (source_word DSP_REG_Y1) ACC_B.
Definition emu_subl_a := emu_subl (source_accu ACC_B) ACC_A.
Definition emu_subl_b := emu_subl (source_accu ACC_A) ACC_B.
Definition emu_subr_a := emu_subr (source_accu ACC_B) ACC_A.
Definition emu_subr_b := emu_subr (source_accu ACC_A) ACC_B.
Definition emu_tfr_b_a := emu_tfr (source_accu ACC_B) ACC_A.
Definition emu_tfr_a_b := emu_tfr (source_accu ACC_A) ACC_B.
Definition emu_tfr_x0_a := emu_tfr (source_word DSP_REG_X0) ACC_A.
Definition emu_tfr_x0_b := emu_tfr (source_word DSP_REG_X0) ACC_B.
Definition emu_tfr_y0_a := emu_tfr (source_word DSP_REG_Y0) ACC_A.
Definition emu_tfr_y0_b := emu_tfr (source_word DSP_REG_Y0) ACC_B.
Definition emu_tfr_x1_a := emu_tfr (source_word DSP_REG_X1) ACC_A.
Definition emu_tfr_x1_b := emu_tfr (source_word DSP_REG_X1) ACC_B.
Definition emu_tfr_y1_a := emu_tfr (source_word DSP_REG_Y1) ACC_A.
Definition emu_tfr_y1_b := emu_tfr (source_word DSP_REG_Y1) ACC_B.
Definition emu_tst_a := emu_tst ACC_A.
Definition emu_tst_b := emu_tst ACC_B.

(** ** Dispatch *)

Definition opcodes_alu : list (dsp_core → res dsp_core) :=
  [ emu_move; emu_tfr_b_a; emu_addr_b_a; emu_tst_a;
    emu_undefined; emu_cmp_b_a; emu_subr_a; emu_cmpm_b_a;
    emu_undefined; emu_tfr_a_b; emu_addr_a_b; emu_tst_b;
    emu_undefined; emu_cmp_a_b; emu_subr_b; emu_cmpm_a_b;
    emu_add_b_a; emu_rnd_a; emu_addl_b_a; emu_clr_a;
    emu_sub_b_a; emu_undefined; emu_subl_a; emu_not_a;
    emu_add_a_b; emu_rnd_b; emu_addl_a_b; emu_clr_b;
    emu_sub_a_b; emu_max; emu_subl_b; emu_not_b;
    emu_add_x_a; emu_adc_x_a; emu_asr_a; emu_lsr_a;
    emu_sub_x_a; emu_sbc_x_a; emu_abs_a; emu_ror_a;
    emu_add_x_b; emu_adc_x_b; emu_asr_b; emu_lsr_b;
    emu_sub_x_b; emu_sbc_x_b; emu_abs_b; emu_ror_b;
    emu_add_y_a; emu_adc_y_a; emu_asl_a; emu_lsl_a;
    emu_sub_y_a; emu_sbc_y_a; emu_neg_a; emu_rol_a;
    emu_add_y_b; emu_adc_y_b; emu_asl_b; emu_lsl_b;
    emu_sub_y_b; emu_sbc_y_b; emu_neg_b; emu_rol_b;
    emu_add_x0_a; emu_tfr_x0_a; emu_or_x0_a; emu_eor_x0_a;
    emu_sub_x0_a; emu_cmp_x0_a; emu_and_x0_a; emu_cmpm_x0_a;
    emu_add_x0_b; emu_tfr_x0_b; emu_or_x0_b; emu_eor_x0_b;
    emu_sub_x0_b; emu_cmp_x0_b; emu_and_x0_b; emu_cmpm_x0_b;
    emu_add_y0_a; emu_tfr_y0_a; emu_or_y0_a; emu_eor_y0_a;
    emu_sub_y0_a; emu_cmp_y0_a; emu_and_y0_a; emu_cmpm_y0_a;
    emu_add_y0_b; emu_tfr_y0_b; emu_or_y0_b; emu_eor_y0_b;
    emu_sub_y0_b; emu_cmp_y0_b; emu_and_y0_b; emu_cmpm_y0_b;
    emu_add_x1_a; emu_tfr_x1_a; emu_or_x1_a; emu_eor_x1_a;
    emu_sub_x1_a; emu_cmp_x1_a; emu_and_x1_a; emu_cmpm_x1_a;
    emu_add_x1_b; emu_tfr_x1_b; emu_or_x1_b; emu_eor_x1_b;
    emu_sub_x1_b; emu_cmp_x1_b; emu_and_x1_b; emu_cmpm_x1_b;
    emu_add_y1_a; emu_tfr_y1_a; emu_or_y1_a; emu_eor_y1_a;
    emu_sub_y1_a; emu_cmp_y1_a; emu_and_y1_a; emu_cmpm_y1_a;
    emu_add_y1_b; emu_tfr_y1_b; emu_or_y1_b; emu_eor_y1_b;
    emu_sub_y1_b; emu_cmp_y1_b; emu_and_y1_b; emu_cmpm_y1_b;
    emu_mpy_p_x0_x0_a; emu_mpyr_p_x0_x0_a; emu_mac_p_x0_x0_a; emu_macr_p_x0_x0_a;
    emu_mpy_m_x0_x0_a; emu_mpyr_m_x0_x0_a; emu_mac_m_x0_x0_a; emu_macr_m_x0_x0_a;
    emu_mpy_p_x0_x0_b; emu_mpyr_p_x0_x0_b; emu_mac_p_x0_x0_b; emu_macr_p_x0_x0_b;
    emu_mpy_m_x0_x0_b; emu_mpyr_m_x0_x0_b; emu_mac_m_x0_x0_b; emu_macr_m_x0_x0_b;
    emu_mpy_p_y0_y0_a; emu_mpyr_p_y0_y0_a; emu_mac_p_y0_y0_a; emu_macr_p_y0_y0_a;
    emu_mpy_m_y0_y0_a; emu_mpyr_m_y0_y0_a; emu_mac_m_y0_y0_a; emu_macr_m_y0_y0_a;
    emu_mpy_p_y0_y0_b; emu_mpyr_p_y0_y0_b; emu_mac_p_y0_y0_b; emu_macr_p_y0_y0_b;
    emu_mpy_m_y0_y0_b; emu_mpyr_m_y0_y0_b; emu_mac_m_y0_y0_b; emu_macr_m_y0_y0_b;
    emu_mpy_p_x1_x0_a; emu_mpyr_p_x1_x0_a; emu_mac_p_x1_x0_a; emu_macr_p_x1_x0_a;
    emu_mpy_m_x1_x0_a; emu_mpyr_m_x1_x0_a; emu_mac_m_x1_x0_a; emu_macr_m_x1_x0_a;
    emu_mpy_p_x1_x0_b; emu_mpyr_p_x1_x0_b; emu_mac_p_x1_x0_b; emu_macr_p_x1_x0_b;
    emu_mpy_m_x1_x0_b; emu_mpyr_m_x1_x0_b; emu_mac_m_x1_x0_b; emu_macr_m_x1_x0_b;
    emu_mpy_p_y1_y0_a; emu_mpyr_p_y1_y0_a; emu_mac_p_y1_y0_a; emu_macr_p_y1_y0_a;
    emu_mpy_m_y1_y0_a; emu_mpyr_m_y1_y0_a; emu_mac_m_y1_y0_a; emu_macr_m_y1_y0_a;
    emu_mpy_p_y1_y0_b; emu_mpyr_p_y1_y0_b; emu_mac_p_y1_y0_b; emu_macr_p_y1_y0_b;
    emu_mpy_m_y1_y0_b; emu_mpyr_m_y1_y0_b; emu_mac_m_y1_y0_b; emu_macr_m_y1_y0_b;
    emu_mpy_p_x0_y1_a; emu_mpyr_p_x0_y1_a; emu_mac_p_x0_y1_a; emu_macr_p_x0_y1_a;
    emu_mpy_m_x0_y1_a; emu_mpyr_m_x0_y1_a; emu_mac_m_x0_y1_a; emu_macr_m_x0_y1_a;
    emu_mpy_p_x0_y1_b; emu_mpyr_p_x0_y1_b; emu_mac_p_x0_y1_b; emu_macr_p_x0_y1_b;
    emu_mpy_m_x0_y1_b; emu_mpyr_m_x0_y1_b; emu_mac_m_x0_y1_b; emu_macr_m_x0_y1_b;
    emu_mpy_p_y0_x0_a; emu_mpyr_p_y0_x0_a; emu_mac_p_y0_x0_a; emu_macr_p_y0_x0_a;
    emu_mpy_m_y0_x0_a; emu_mpyr_m_y0_x0_a; emu_mac_m_y0_x0_a; emu_macr_m_y0_x0_a;
    emu_mpy_p_y0_x0_b; emu_mpyr_p_y0_x0_b; emu_mac_p_y0_x0_b; emu_macr_p_y0_x0_b;
    emu_mpy_m_y0_x0_b; emu_mpyr_m_y0_x0_b; emu_mac_m_y0_x0_b; emu_macr_m_y0_x0_b;
    emu_mpy_p_x1_y0_a; emu_mpyr_p_x1_y0_a; emu_mac_p_x1_y0_a; emu_macr_p_x1_y0_a;
    emu_mpy_m_x1_y0_a; emu_mpyr_m_x1_y0_a; emu_mac_m_x1_y0_a; emu_macr_m_x1_y0_a;
    emu_mpy_p_x1_y0_b; emu_mpyr_p_x1_y0_b; emu_mac_p_x1_y0_b; emu_macr_p_x1_y0_b;
    emu_mpy_m_x1_y0_b; emu_mpyr_m_x1_y0_b; emu_mac_m_x1_y0_b; emu_macr_m_x1_y0_b;
    emu_mpy_p_y1_x1_a; emu_mpyr_p_y1_x1_a; emu_mac_p_y1_x1_a; emu_macr_p_y1_x1_a;
    emu_mpy_m_y1_x1_a; emu_mpyr_m_y1_x1_a; emu_mac_m_y1_x1_a; emu_macr_m_y1_x1_a;
    emu_mpy_p_y1_x1_b; emu_mpyr_p_y1_x1_b; emu_mac_p_y1_x1_b; emu_macr_p_y1_x1_b;
    emu_mpy_m_y1_x1_b; emu_mpyr_m_y1_x1_b; emu_mac_m_y1_x1_b; emu_macr_m_y1_x1_b ].

(** ** Lemmas: registers an instruction touches *)

Lemma reg_clear_sr s m : reg (clear_sr s m) DSP_REG_SR = reg s DSP_REG_SR .& (BITMASK 16 - m).
Proof. apply reg_set_eq. Qed.

Lemma reg_or_sr s v : reg (or_sr s v) DSP_REG_SR = reg s DSP_REG_SR .| v.
Proof. apply reg_set_eq. Qed.

(** Nothing but the registers in [rs] differs between the two states. *)
Definition frame (rs : list Z) (s s' : dsp_core) : Prop :=
  s' = s <| registers := registers s' |> ∧ ∀ r, r ∉ rs → reg s' r = reg s r.

Lemma frame_refl rs s : frame rs s s.
Proof. split; [by destruct s | done]. Qed.

Lemma frame_trans rs s1 s2 s3 : frame rs s1 s2 → frame rs s2 s3 → frame rs s1 s3.
Proof.
  intros [E1 F1] [E2 F2]. split.
  - rewrite E2 at 1. rewrite E1 at 1. done.
  - intros r Hr. rewrite F2, F1 by done. done.
Qed.

Lemma frame_set_reg rs s s' r v : r ∈ rs → frame rs s s' → frame rs s (set_reg s' r v).
Proof.
  intros Hr [E F]. split; [unfold set_reg at 1; by rewrite E at 1 |].
  intros q Hq. rewrite reg_set_ne by (intros ->; done). by apply F.
Qed.

Lemma frame_weaken rs rs' s s' : rs ⊆ rs' → frame rs s s' → frame rs' s s'.
Proof. intros Hs [E F]. split; [done |]. intros r Hr. apply F. set_solver. Qed.

Definition accu_regs (d : Z) : list Z := [DSP_REG_A2 + d; DSP_REG_A1 + d; DSP_REG_A0 + d].

Lemma ccr_frame s a : frame [DSP_REG_SR] s (emu_ccr_update_e_u_n_z s a).
Proof.
  unfold emu_ccr_update_e_u_n_z, sr_if, or_sr, clear_sr.
  repeat case_match; repeat (apply frame_set_reg; [set_solver |]); apply frame_refl.
Qed.

(** *** The status register after a CCR update, as the code computes it *)

Definition scaling (sr : Z) : Z := (sr .>> DSP_SR_S0) .& BITMASK 2.

Lemma testbit_flag b k i : 0 ≤ k → 0 ≤ i → Z.testbit (b2z b .<< k) i = b && (i =? k).
Proof.
  intros Hk Hi. destruct b; cbn [b2z andb].
  - rewrite Z.shiftl_1_l, Z.pow2_bits_eqb by done. apply Z.eqb_sym.
  - rewrite Z.shiftl_0_l. apply Z.bits_0.
Qed.

Lemma scaling_clear sr m : 0 ≤ m < 2 ^ 8 →
  scaling (sr .& (BITMASK 16 - m)) = scaling sr.
Proof.
  intros Hm. unfold scaling. rewrite !land_BITMASK by done. apply Z.bits_inj'. intros i Hi.
  rewrite !Z.testbit_mod_pow2 by done. destruct (Z.ltb_spec i 2); [| done]. cbn [andb].
  rewrite !Z.shiftr_spec, Z.land_spec by done.
  replace (Z.testbit (BITMASK 16 - m) (i + DSP_SR_S0)) with true; [apply andb_true_r |].
  symmetry. rewrite Z.testbit_true by (unfold DSP_SR_S0; lia).
  replace (BITMASK 16 - m) with (255 * 2 ^ 8 + (255 - m)) by (change (BITMASK 16) with 65535; lia).
  assert (i = 0 ∨ i = 1) as [-> | ->] by lia; cbn [DSP_SR_S0 Z.add]; arith.
Qed.

Lemma reg_sr_if b k s : reg (sr_if b k s) DSP_REG_SR = reg s DSP_REG_SR .| (b2z b .<< k).
Proof. destruct b; cbn; [apply reg_or_sr | by rewrite Z.shiftl_0_l, Z.lor_0_r]. Qed.

Lemma land_bit z k : 0 ≤ k → z .& (1 .<< k) = b2z (Z.testbit z k) .<< k.
Proof.
  intros Hk. apply Z.bits_inj'. intros i Hi. rewrite Z.land_spec, testbit_flag by done.
  rewrite Z.shiftl_1_l, Z.pow2_bits_eqb by done. rewrite Z.eqb_sym.
  destruct (Z.eqb_spec i k) as [-> |]; [done |]. by rewrite !andb_false_r.
Qed.

Lemma land_two_bits z k : 0 ≤ k → z .& (3 .<< k) = ((z / 2 ^ k) mod 4) * 2 ^ k.
Proof.
  intros Hk. rewrite <- shiftl_mul by done. change 4 with (2 ^ 2).
  rewrite <- Z.land_ones by done. change (Z.ones 2) with 3.
  rewrite Z.shiftl_land, <- shiftr_div by done. apply Z.bits_inj'. intros i Hi.
  rewrite !Z.land_spec. destruct (Z.lt_ge_cases i k).
  - by rewrite (Z.shiftl_spec_low 3), !andb_false_r by done.
  - rewrite (Z.shiftl_spec (z .>> k)), Z.shiftr_spec by lia. by replace (i - k + k) with i by lia.
Qed.

(** *** What the flags mean

    In scaling mode [m] the accumulator is read as a fraction whose sign bit is
    bit [47 + k]: E is set when the value overflows into the extension bits, U
    when its two top fraction bits agree. *)
Definition scale_shift (m : Z) : Z := if m =? 1 then 1 else if m =? 2 then -1 else 0.

Definition flag_e (m : Z) (a : acc56) : bool :=
  let k := scale_shift m in
  negb ((- 2 ^ (47 + k) <=? sval56 a) && (sval56 a <? 2 ^ (47 + k))).
Definition flag_u (m : Z) (a : acc56) : bool :=
  let k := scale_shift m in
  Bool.eqb (Z.testbit (val56 a) (47 + k)) (Z.testbit (val56 a) (46 + k)).
Definition flag_n (a : acc56) : bool := sval56 a <? 0.
Definition flag_z (a : acc56) : bool := sval56 a =? 0.

Definition ccr_flags (m : Z) (a : acc56) : Z :=
  (b2z (flag_e m a) .<< DSP_SR_E) .| (b2z (flag_u m a) .<< DSP_SR_U)
  .| (b2z (flag_z a) .<< DSP_SR_Z) .| (b2z (flag_n a) .<< DSP_SR_N).

Definition SR_EUNZ :=
  (1 .<< DSP_SR_E) .| (1 .<< DSP_SR_U) .| (1 .<< DSP_SR_N) .| (1 .<< DSP_SR_Z).

Lemma flag_n_code a : wf56 a → (a0 a .>> 4) .& 0x8 = b2z (flag_n a) .<< DSP_SR_N.
Proof.
  intros Ha. pose proof Ha as (H0 & H1 & H2).
  change 0x8 with (1 .<< 3). rewrite land_bit, Z.shiftr_spec by done. f_equal. f_equal.
  cbn [Z.add]. rewrite top_bit by lia. unfold flag_n. rewrite sval56_alt by done. unfold val56.
  booleans; lia.
Qed.

Lemma flag_z_code a : wf56 a → (a1 a =? 0) && (a2 a =? 0) && (a0 a =? 0) = flag_z a.
Proof.
  intros Ha. pose proof Ha as (H0 & H1 & H2). unfold flag_z. rewrite sval56_alt by done.
  unfold val56. booleans; cbn; lia.
Qed.

Lemma value_e_code a k : wf56 a → 1 ≤ k ≤ 2 →
  u32 (u32 (a0 a .<< k) + (a1 a .>> (24 - k))) = val56 a / 2 ^ (48 - k).
Proof.
  intros (H0 & H1 & H2) Hk. unfold val56.
  assert (k = 1 ∨ k = 2) as [-> | ->] by lia; cbn [Z.sub Z.opp Z.add Z.pos_sub]; arith.
Qed.

Lemma flag_e_code a n : wf56 a → 46 ≤ n ≤ 48 →
  negb (val56 a / 2 ^ n =? 0) && negb (val56 a / 2 ^ n =? 2 ^ (56 - n) - 1) =
  negb ((- 2 ^ n <=? sval56 a) && (sval56 a <? 2 ^ n)).
Proof.
  intros Ha Hn. pose proof (val56_bound a Ha). rewrite sval56_alt by done.
  assert (128 <=? a0 a = (2 ^ 55 <=? val56 a)) as ->.
  { destruct Ha as (? & ? & ?). unfold val56. booleans; lia. }
  generalize dependent (val56 a). intros v Hv.
  assert (n = 46 ∨ n = 47 ∨ n = 48) as [-> | [-> | ->]] by lia; booleans; cbn; arith.
Qed.

Lemma flag_u_code v n : 0 ≤ n →
  ((v / 2 ^ n) mod 4 =? 0) || ((v / 2 ^ n) mod 4 =? 3) =
  Bool.eqb (Z.testbit v (n + 1)) (Z.testbit v n).
Proof.
  intros Hn. rewrite <- (Z.shiftr_div_pow2 v n) by done.
  replace (Z.testbit v (n + 1)) with (Z.testbit (v .>> n) 1) by (rewrite Z.shiftr_spec by done; f_equal; lia).
  replace (Z.testbit v n) with (Z.testbit (v .>> n) 0) by (rewrite Z.shiftr_spec by done; f_equal; lia).
  generalize (v .>> n). intros x. rewrite !Z.testbit_eqb by done.
  booleans; cbn; arith.
Qed.

(** The U test of modes 0 and 2: two adjacent bits of the high word. *)
Lemma reg1_two_bits a k : wf56 a → 0 ≤ k ≤ 22 →
  ((a1 a .& (3 .<< k)) =? 0) || ((a1 a .& (3 .<< k)) =? 3 .<< k) =
  Bool.eqb (Z.testbit (val56 a) (k + 25)) (Z.testbit (val56 a) (k + 24)).
Proof.
  intros (H0 & H1 & H2) Hk. replace (k + 25) with (k + 24 + 1) by lia.
  rewrite <- flag_u_code by lia. rewrite land_two_bits, shiftl_mul by lia.
  replace ((val56 a / 2 ^ (k + 24)) mod 4) with ((a1 a / 2 ^ k) mod 4).
  - pose proof (Z.pow_pos_nonneg 2 k ltac:(lia) ltac:(lia)). booleans; cbn; nia.
  - unfold val56. rewrite (Z.add_comm k), Z.pow_add_r, <- Z.div_div by lia.
    replace ((a0 a * 2 ^ 48 + a1 a * 2 ^ 24 + a2 a) / 2 ^ 24) with (a0 a * 2 ^ 24 + a1 a) by arith.
    change 4 with (2 ^ 2). rewrite <- !Z.land_ones, <- !Z.shiftr_div_pow2 by lia.
    apply Z.bits_inj'. intros i Hi. rewrite !Z.land_spec.
    destruct (Z.lt_ge_cases i 2); [| by rewrite Z.ones_spec_high, !andb_false_r by lia].
    rewrite !Z.shiftr_spec by done. f_equal.
    rewrite <- (Z.mod_pow2_bits_low (_ + _) 24 (i + k)) by lia.
    rewrite (Z.add_comm (a0 a * _)), Z.mod_add, Z.mod_small by lia. done.
Qed.

Lemma ccr_sr s a : wf56 a → 0 ≤ scaling (reg s DSP_REG_SR) < 3 →
  reg (emu_ccr_update_e_u_n_z s a) DSP_REG_SR =
  reg s DSP_REG_SR .& (BITMASK 16 - SR_EUNZ) .| ccr_flags (scaling (reg s DSP_REG_SR)) a.
Proof.
  intros Ha Hm. unfold emu_ccr_update_e_u_n_z, ccr_flags. fold SR_EUNZ.
  rewrite !reg_clear_sr, flag_z_code by done.
  fold (scaling (reg s DSP_REG_SR .& (BITMASK 16 - SR_EUNZ))). rewrite scaling_clear by done.
  set (sr := reg s DSP_REG_SR) in *. pose proof Ha as (H0 & H1 & H2).
  assert (u32 (u32 (a0 a .<< 1) + (a1 a .>> 23)) = val56 a / 2 ^ 47) as V1
    by (apply (value_e_code a 1); done || lia).
  assert (u32 (u32 (a0 a .<< 2) + (a1 a .>> 22)) = val56 a / 2 ^ 46) as V2
    by (apply (value_e_code a 2); done || lia).
  assert (scaling sr = 0 ∨ scaling sr = 1 ∨ scaling sr = 2) as [E | [E | E]] by lia;
    rewrite E; unfold flag_e, flag_u; cbn [scale_shift Z.eqb Pos.eqb];
    rewrite reg_or_sr, !reg_sr_if, reg_clear_sr, flag_n_code, !Z.lor_assoc by done; fold sr.
  - change (BITMASK 9) with (2 ^ (56 - 47) - 1). rewrite V1, (flag_e_code a 47 Ha) by lia.
    change 0xc00000 with (3 .<< 22). rewrite (reg1_two_bits a 22) by (done || lia). done.
  - rewrite V1. replace (a0 a) with (val56 a / 2 ^ 48) by (unfold val56; arith).
    change (BITMASK 8) with (2 ^ (56 - 48) - 1). rewrite (flag_e_code a 48 Ha) by lia.
    rewrite (land_mask _ 2 3), (flag_u_code _ 47) by done. done.
  - change (BITMASK 10) with (2 ^ (56 - 46) - 1). rewrite V2, (flag_e_code a 46 Ha) by lia.
    change 0x600000 with (3 .<< 21). rewrite (reg1_two_bits a 21) by (done || lia). done.
Qed.

Lemma testbit_clear x m i : 0 ≤ i < 16 → 0 ≤ m < 2 ^ 16 →
  Z.testbit (x .& (BITMASK 16 - m)) i = Z.testbit x i && negb (Z.testbit m i).
Proof.
  intros Hi Hm. rewrite Z.land_spec. f_equal. rewrite BITMASK_ones by done.
  rewrite Z.sub_nocarry_ldiff.
  - by rewrite Z.ldiff_spec, Z.ones_spec_low.
  - apply Z.bits_inj'. intros j Hj. rewrite Z.ldiff_spec, Z.bits_0.
    destruct (Z.lt_ge_cases j 16); [rewrite Z.ones_spec_low by lia; apply andb_false_r |].
    by rewrite (testbit_high m 16).
Qed.

(** One bit of [sr & ~mask | flags]. *)
Ltac sr_bits :=
  rewrite ?Z.lor_spec, ?testbit_clear by (done || lia); rewrite ?testbit_flag by (done || lia);
  cbn -[Z.testbit flag_e flag_u flag_n flag_z]; rewrite ?andb_true_r, ?andb_false_r, ?orb_false_r.

(** A core with 0x00_400000_000005 in A, 0x20_000000_000000 in B, 0.25 in X0 and
    -0.5 in Y0. *)
Definition alu_sample : dsp_core :=
  with_regs (dsp56k_reset_cpu zero_core)
    [ (DSP_REG_A1, 0x400000); (DSP_REG_A0, 5); (DSP_REG_B2, 0x20); (DSP_REG_X0, 0x200000);
      (DSP_REG_Y0, 0xc00000) ].

Lemma alu_sample_ok : regs_ok alu_sample.
Proof.
  apply with_regs_fit; [apply reset_fit; [apply reg_bits_mask | apply reg_bits_nonneg] |].
  repeat (apply Forall_cons_2; [done |]). apply Forall_nil_2.
Qed.

(** [emu_ccr_update_e_u_n_z] sets E, U, N and Z as the result demands in each of the
    three scaling modes (E: the value does not fit the fraction; U: it is
    unnormalised; N: it is negative; Z: it is zero), keeps the other status
    bits, and touches nothing but the status register. *)
Theorem emu_ccr_update_correct s a :
  wf56 a → 0 ≤ scaling (reg s DSP_REG_SR) < 3 →
  let m := scaling (reg s DSP_REG_SR) in
  let s' := emu_ccr_update_e_u_n_z s a in
  let bit k := Z.testbit (reg s' DSP_REG_SR) k in
  bit DSP_SR_E = flag_e m a ∧ bit DSP_SR_U = flag_u m a ∧
  bit DSP_SR_N = (sval56 a <? 0) ∧ bit DSP_SR_Z = (sval56 a =? 0) ∧
  (∀ i, 0 ≤ i < 16 → i ∉ [DSP_SR_E; DSP_SR_U; DSP_SR_N; DSP_SR_Z] →
     bit i = Z.testbit (reg s DSP_REG_SR) i) ∧
  frame [DSP_REG_SR] s s'.
Proof.
  intros Ha Hm m s' bit. unfold bit, s'. rewrite ccr_sr by done.
  unfold ccr_flags. fold m. split_and!.
  1-4: by sr_bits.
  - intros i Hi Hni. rewrite !not_elem_of_cons in Hni. destruct Hni as (? & ? & ? & ? & _).
    rewrite !Z.lor_spec, testbit_clear by done.
    rewrite !testbit_flag by (done || lia).
    rewrite !(proj2 (Z.eqb_neq i _)) by done. rewrite !andb_false_r, !orb_false_r.
    unfold SR_EUNZ. rewrite !Z.lor_spec, !Z.shiftl_1_l, !Z.pow2_bits_false by (apply not_eq_sym; done).
    apply andb_true_r.
  - apply ccr_frame.
Qed.

Lemma emu_ccr_update_witness :
  Z.testbit (reg (emu_ccr_update_e_u_n_z alu_sample (Acc56 0xff 0x800000 0)) DSP_REG_SR) DSP_SR_N = true.
Proof.
  destruct (emu_ccr_update_correct alu_sample (Acc56 0xff 0x800000 0) ltac:(done) ltac:(done))
    as (_ & _ & HN & _). exact HN.
Defined.

(** ** Arithmetic instructions *)

Definition is_accu (d : Z) : Prop := d = ACC_A ∨ d = ACC_B.

(** What an instruction that leaves [a] in accumulator [d] may change. *)
Definition writes_accu (d : Z) (s s' : dsp_core) (a : acc56) : Prop :=
  load56 s' d = a ∧ frame (DSP_REG_SR :: accu_regs d) s s'.

(** The flags after an instruction with result [a], overflow [o] and carry [c];
    [L] is sticky and the upper half of the status register is kept. *)
Definition flags_after (s s' : dsp_core) (a : acc56) (o c : bool) : Prop :=
  let sr := reg s DSP_REG_SR in
  let bit k := Z.testbit (reg s' DSP_REG_SR) k in
  bit DSP_SR_C = c ∧ bit DSP_SR_V = o ∧ bit DSP_SR_L = Z.testbit sr DSP_SR_L || o ∧
  bit DSP_SR_N = (sval56 a <? 0) ∧ bit DSP_SR_Z = (sval56 a =? 0) ∧
  bit DSP_SR_E = flag_e (scaling sr) a ∧ bit DSP_SR_U = flag_u (scaling sr) a ∧
  (∀ i, 8 ≤ i < 16 → bit i = Z.testbit sr i).

Lemma reg_store56_ne s d a r : r ∉ accu_regs d → reg (store56 s d a) r = reg s r.
Proof.
  unfold accu_regs, store56. rewrite !not_elem_of_cons. intros (? & ? & ? & _).
  by rewrite !reg_set_ne.
Qed.

Lemma load_store56 s d a : load56 (store56 s d a) d = a.
Proof.
  unfold load56, store56, DSP_REG_A2, DSP_REG_A1, DSP_REG_A0. destruct a as [x0 x1 x2]; cbn [a0 a1 a2].
  rewrite !reg_set_eq, !(reg_set_ne _ (0x08 + d)), !reg_set_eq, !(reg_set_ne _ (0x0c + d)),
    !reg_set_eq by lia. done.
Qed.

Lemma load56_frame rs d s s' : frame rs s s' → (∀ r, r ∈ accu_regs d → r ∉ rs) →
  load56 s' d = load56 s d.
Proof.
  intros [_ F] Hr. unfold load56. rewrite !F; [done |..]; apply Hr; unfold accu_regs; set_solver.
Qed.

Lemma store56_frame s d a : frame (accu_regs d) s (store56 s d a).
Proof.
  unfold store56. repeat (apply frame_set_reg; [unfold accu_regs; set_solver |]). apply frame_refl.
Qed.

Lemma sr_not_accu d : is_accu d → DSP_REG_SR ∉ accu_regs d.
Proof. intros [-> | ->]; vm_compute; set_solver. Qed.

Lemma accu_not_sr d : is_accu d → ∀ r, r ∈ accu_regs d → r ∉ [DSP_REG_SR].
Proof. intros Hd r Hr ->%list_elem_of_singleton. by apply (sr_not_accu d). Qed.

(** The state after [store56], the CCR update and changes to the status register. *)
Lemma finish_accu d s a s1 : is_accu d →
  frame [DSP_REG_SR] (emu_ccr_update_e_u_n_z (store56 s d a) a) s1 → writes_accu d s s1 a.
Proof.
  intros Hd F.
  assert (F' : frame [DSP_REG_SR] (store56 s d a) s1) by (eapply frame_trans; [apply ccr_frame | done]).
  split.
  - rewrite (load56_frame _ _ _ _ F') by (by apply accu_not_sr). apply load_store56.
  - eapply frame_trans; (eapply frame_weaken; [| done || apply store56_frame]); set_solver.
Qed.

Lemma sr_lvc_high o c i : 8 ≤ i → Z.testbit (sr_lvc o c) i = false.
Proof. intros. apply (testbit_high _ 8); [by destruct o, c | done]. Qed.

Lemma flag_high b k i : 0 ≤ k < 8 → 8 ≤ i → Z.testbit (b2z b .<< k) i = false.
Proof. intros. rewrite testbit_flag by lia. apply andb_false_intro2, Z.eqb_neq. lia. Qed.

Lemma small_high m i : 0 ≤ m < 2 ^ 8 → 8 ≤ i → Z.testbit m i = false.
Proof. by apply testbit_high. Qed.

(** The upper half of [sr & ~mask1 | flags & ~mask2 | newsr] is that of [sr]. *)
Ltac sr_high :=
  intros i Hi;
  rewrite ?Z.lor_spec, ?testbit_clear, ?Z.lor_spec, ?testbit_clear, ?Z.lor_spec by (done || lia);
  rewrite ?flag_high, ?sr_lvc_high by (done || lia);
  rewrite ?(small_high SR_VC), ?(small_high SR_EUNZ), ?(small_high (1 .<< DSP_SR_V)) by (done || lia);
  by rewrite ?andb_true_r, ?orb_false_r.

Lemma finish_flags s s1 a o c :
  reg s1 DSP_REG_SR = reg s DSP_REG_SR → wf56 a → 0 ≤ scaling (reg s DSP_REG_SR) < 3 →
  flags_after s (or_sr (clear_sr (emu_ccr_update_e_u_n_z s1 a) SR_VC) (sr_lvc o c)) a o c.
Proof.
  intros E Ha Hm. unfold flags_after. rewrite reg_or_sr, reg_clear_sr, ccr_sr, !E
    by (done || by rewrite E).
  unfold ccr_flags. destruct (sr_lvc_bits o c) as (Ec & Ev & El). split_and!; [.. | sr_high].
  all: rewrite ?Z.lor_spec, ?testbit_clear, ?Z.lor_spec, ?testbit_clear, ?Z.lor_spec by done;
    rewrite ?testbit_flag, ?Ec, ?Ev, ?El by done.
  all: destruct o, c; cbn -[Z.testbit flag_e flag_u flag_n flag_z];
    rewrite ?andb_true_r, ?andb_false_r, ?orb_false_r, ?orb_true_r; done.
Qed.

Lemma regs_load56 s d : regs_ok s → is_accu d → wf56 (load56 s d).
Proof.
  intros (Hr & _ & _) Hd. unfold wf56, load56; cbn [a0 a1 a2].
  destruct Hd as [-> | ->]; (split; [| split]); refine (Hr _ _); done.
Qed.

Lemma frame_sr s1 s v : frame [DSP_REG_SR] s1 s → frame [DSP_REG_SR] s1 (or_sr s v).
Proof. apply frame_set_reg. set_solver. Qed.

Lemma frame_clear_sr s1 s v : frame [DSP_REG_SR] s1 s → frame [DSP_REG_SR] s1 (clear_sr s v).
Proof. apply frame_set_reg. set_solver. Qed.

#[export] Hint Resolve frame_refl frame_sr frame_clear_sr : dsp_frame.

(** ADD and SUB, for any source operand and either accumulator.  They leave
    the sum or difference modulo 2^56, set C on a carry out of or borrow into
    bit 55, V on signed overflow, make L sticky, set N, Z, E and U from the result,
    and change no other register. *)
Theorem emu_add_sub_correct s source d :
  regs_ok s → is_accu d → wf56 (source s) → 0 ≤ scaling (reg s DSP_REG_SR) < 3 →
  let D := load56 s d in
  let S := source s in
  (∃ s' r, emu_add source d s = Ok s' ∧ writes_accu d s s' r ∧ wf56 r ∧
     val56 r = (val56 D + val56 S) mod 2 ^ 56 ∧
     flags_after s s' r (negb (sfits56 (sval56 D + sval56 S))) (2 ^ 56 <=? val56 D + val56 S)) ∧
  (∃ s' r, emu_sub source d s = Ok s' ∧ writes_accu d s s' r ∧ wf56 r ∧
     val56 r = (val56 D - val56 S) mod 2 ^ 56 ∧
     flags_after s s' r (negb (sfits56 (sval56 D - sval56 S))) (val56 D <? val56 S)).
Proof.
  intros Hs Hd HS Hm D S. pose proof (regs_load56 s d Hs Hd : wf56 D) as HD. split.
  - unfold emu_add. fold D S. pose proof (add56_val S D HS HD) as [W V].
    pose proof (add56_flags S D HS HD) as F. destruct (dsp_add56 S D) as [newsr r].
    cbn [fst snd] in *. subst newsr. do 2 eexists. split; [done |].
    split; [apply finish_accu; auto with dsp_frame |]. split; [done |].
    rewrite (Z.add_comm (val56 D)), (Z.add_comm (sval56 D)). split; [done |].
    apply finish_flags; auto using reg_store56_ne, sr_not_accu.
  - unfold emu_sub. fold D S. pose proof (sub56_val S D HS HD) as [W V].
    pose proof (sub56_flags S D HS HD) as F. destruct (dsp_sub56 S D) as [newsr r].
    cbn [fst snd] in *. subst newsr. do 2 eexists. split; [done |].
    split; [apply finish_accu; auto with dsp_frame |]. split; [done |]. split; [done |].
    apply finish_flags; auto using reg_store56_ne, sr_not_accu.
Qed.

Lemma emu_add_sub_witness :
  ∃ s' r, emu_add (source_word DSP_REG_X0) ACC_A alu_sample = Ok s' ∧
          load56 s' ACC_A = r ∧ val56 r = 0x600000 * 2 ^ 24 + 5.
Proof.
  destruct (emu_add_sub_correct alu_sample (source_word DSP_REG_X0) ACC_A alu_sample_ok
    (or_introl eq_refl) ltac:(done) ltac:(done)) as [(s' & r & E & [HL _] & _ & V & _) _].
  exists s', r. split; [exact E |]. split; [exact HL |]. rewrite V. reflexivity.
Defined.

Lemma sval56_wrap a z : wf56 a → val56 a = z mod 2 ^ 56 → sval56 a = swrap 56 z.
Proof. intros Ha E. unfold sval56, swrap. by rewrite E, Zplus_mod_idemp_l. Qed.

Lemma swrap_sval x y a b : wf56 a → wf56 b →
  swrap 56 (x * val56 a + y * val56 b) = swrap 56 (x * sval56 a + y * sval56 b).
Proof.
  intros Ha Hb. rewrite !sval56_alt by done. unfold swrap. f_equal.
  set (p := if 128 <=? a0 a then 2 ^ 56 else 0). set (q := if 128 <=? a0 b then 2 ^ 56 else 0).
  assert (∃ i j, p = i * 2 ^ 56 ∧ q = j * 2 ^ 56) as (i & j & -> & ->).
  { exists (if 128 <=? a0 a then 1 else 0), (if 128 <=? a0 b then 1 else 0).
    unfold p, q. split; case_match; lia. }
  replace (x * val56 a + y * val56 b + 2 ^ (56 - 1)) with
    (x * (val56 a - i * 2 ^ 56) + y * (val56 b - j * 2 ^ 56) + 2 ^ (56 - 1)
     + (x * i + y * j) * 2 ^ 56) by ring.
  by rewrite Z.mod_add.
Qed.

(** The sign of a two's complement result, corrected by overflow, is the sign of
    the exact result. *)
Lemma sign_xor_overflow z : - 2 ^ 56 ≤ z < 2 ^ 56 →
  xorb (swrap 56 z <? 0) (negb (sfits56 z)) = (z <? 0).
Proof. intros. unfold sfits56. booleans; cbn; try done; exfalso; arith. Qed.

Lemma sval56_bound a : wf56 a → - 2 ^ 55 ≤ sval56 a < 2 ^ 55.
Proof. intros. unfold sval56. arith. Qed.

Lemma sval56_eqb a b : wf56 a → wf56 b → (swrap 56 (sval56 a - sval56 b) =? 0) = (sval56 a =? sval56 b).
Proof.
  intros Ha Hb. pose proof (sval56_bound a Ha). pose proof (sval56_bound b Hb).
  booleans; try done; exfalso; arith.
Qed.

Lemma lnot_bit x k : 0 ≤ k → .~ (x .>> k) .& 1 = b2z (negb (Z.testbit x k)).
Proof.
  intros. rewrite land_1, <- Z.bit0_mod, Z.lnot_spec, Z.shiftr_spec, Z.add_0_l by done.
  by destruct (Z.testbit x k).
Qed.

(** The conditions in terms of the status bits; code [c + 8] negates code [c]. *)
Lemma calc_cc_spec s : let b k := Z.testbit (reg s DSP_REG_SR) k in
  emu_calc_cc s 0 = negb (b DSP_SR_C) ∧
  emu_calc_cc s 1 = negb (xorb (b DSP_SR_N) (b DSP_SR_V)) ∧
  emu_calc_cc s 2 = negb (b DSP_SR_Z) ∧
  emu_calc_cc s 7 = negb (b DSP_SR_Z || xorb (b DSP_SR_N) (b DSP_SR_V)) ∧
  ∀ c, 0 ≤ c < 8 → emu_calc_cc s (c + 8) = negb (emu_calc_cc s c).
Proof.
  intros b. split_and!.
  all: try (intros c Hc; assert (c = 0 ∨ c = 1 ∨ c = 2 ∨ c = 3 ∨ c = 4 ∨ c = 5 ∨ c = 6 ∨ c = 7)
    as [-> | [-> | [-> | [-> | [-> | [-> | [-> | ->]]]]]]] by lia).
  all: try match goal with |- context [?x + 8] =>
         let v := eval vm_compute in (x + 8) in change (x + 8) with v end.
  all: unfold b, emu_calc_cc.
  all: rewrite ?land_bit, ?bit_b2z, ?lnot_bit, ?b2z_lxor by done.
  all: by repeat match goal with |- context [Z.testbit ?r ?k] => destruct (Z.testbit r k) end.
Qed.

(** CMP followed by a conditional instruction compares the accumulator with
    the source: EQ, NE, GE, LT, GT and LE hold exactly when the two's complement
    values compare so, and CS (CC) when the unsigned values do (not); nothing but
    the status register changes. *)
Theorem emu_cmp_conditions s source d :
  regs_ok s → is_accu d → wf56 (source s) → 0 ≤ scaling (reg s DSP_REG_SR) < 3 →
  let D := load56 s d in
  let S := source s in
  ∃ s', emu_cmp source d s = Ok s' ∧ frame [DSP_REG_SR] s s' ∧
    emu_calc_cc s' 10 = (sval56 D =? sval56 S) ∧ emu_calc_cc s' 2 = negb (sval56 D =? sval56 S) ∧
    emu_calc_cc s' 1 = (sval56 S <=? sval56 D) ∧ emu_calc_cc s' 9 = (sval56 D <? sval56 S) ∧
    emu_calc_cc s' 7 = (sval56 S <? sval56 D) ∧ emu_calc_cc s' 15 = (sval56 D <=? sval56 S) ∧
    emu_calc_cc s' 8 = (val56 D <? val56 S) ∧ emu_calc_cc s' 0 = (val56 S <=? val56 D).
Proof.
  intros Hs Hd HS Hm D S. pose proof (regs_load56 s d Hs Hd : wf56 D) as HD.
  unfold emu_cmp. fold D S. pose proof (sub56_val S D HS HD) as [W V].
  pose proof (sub56_flags S D HS HD) as F. destruct (dsp_sub56 S D) as [newsr r].
  cbn [fst snd] in *. subst newsr. eexists. split; [done |].
  split; [apply frame_sr, frame_clear_sr, ccr_frame |].
  match goal with |- context [emu_calc_cc ?t] => set (s' := t) end.
  assert (FA : flags_after s s' r (negb (sfits56 (sval56 D - sval56 S))) (val56 D <? val56 S))
    by (by apply finish_flags).
  destruct FA as (Fc & Fv & _ & Fn & Fz & _).
  assert (Er : sval56 r = swrap 56 (sval56 D - sval56 S)).
  { rewrite (sval56_wrap r _ W V). replace (sval56 D - sval56 S) with (1 * sval56 D + -1 * sval56 S) by ring.
    rewrite <- swrap_sval by done. f_equal. ring. }
  pose proof (sval56_bound D HD). pose proof (sval56_bound S HS).
  destruct (calc_cc_spec s') as (C0 & C1 & C2 & C7 & C8). cbn zeta in *.
  rewrite Fc in C0. rewrite Fn, Fv, Er, sign_xor_overflow in C1, C7 by lia.
  rewrite Fz, Er, sval56_eqb in C2, C7 by done.
  change (emu_calc_cc s' 10) with (emu_calc_cc s' (2 + 8)).
  change (emu_calc_cc s' 9) with (emu_calc_cc s' (1 + 8)).
  change (emu_calc_cc s' 15) with (emu_calc_cc s' (7 + 8)).
  change (emu_calc_cc s' 8) with (emu_calc_cc s' (0 + 8)).
  rewrite !C8, C0, C1, C2, C7 by lia.
  split_and!; booleans; cbn; try done; lia.
Qed.

Lemma emu_cmp_conditions_witness :
  ∃ s', emu_cmp (source_word DSP_REG_Y0) ACC_A alu_sample = Ok s' ∧ emu_calc_cc s' 7 = true.
Proof.
  destruct (emu_cmp_conditions alu_sample (source_word DSP_REG_Y0) ACC_A alu_sample_ok
    (or_introl eq_refl) ltac:(done) ltac:(done)) as (s' & E & _ & _ & _ & _ & _ & HG & _).
  exists s'. split; [exact E |]. rewrite HG. reflexivity.
Defined.

(** ** Multiplication *)

Lemma finish_flags_mac s s1 a o c :
  reg s1 DSP_REG_SR = reg s DSP_REG_SR → wf56 a → 0 ≤ scaling (reg s DSP_REG_SR) < 3 →
  flags_after s (or_sr (clear_sr (emu_ccr_update_e_u_n_z s1 a) (1 .<< DSP_SR_V))
                   (sr_lvc o c .& 0xfe)) a o (Z.testbit (reg s DSP_REG_SR) DSP_SR_C).
Proof.
  intros E Ha Hm. unfold flags_after. rewrite reg_or_sr, reg_clear_sr, ccr_sr, !E
    by (done || by rewrite E).
  replace (sr_lvc o c .& 0xfe) with (sr_lvc o false) by (by destruct o, c).
  unfold ccr_flags. destruct (sr_lvc_bits o false) as (Ec & Ev & El). split_and!; [.. | sr_high].
  all: rewrite ?Z.lor_spec, ?testbit_clear, ?Z.lor_spec, ?testbit_clear, ?Z.lor_spec by done;
    rewrite ?testbit_flag, ?Ec, ?Ev, ?El by done.
  all: destruct o; cbn -[Z.testbit flag_e flag_u flag_n flag_z];
    rewrite ?andb_true_r, ?andb_false_r, ?orb_false_r, ?orb_true_r; done.
Qed.

Lemma finish_flags_mpy s s1 a :
  reg s1 DSP_REG_SR = reg s DSP_REG_SR → wf56 a → 0 ≤ scaling (reg s DSP_REG_SR) < 3 →
  flags_after s (clear_sr (emu_ccr_update_e_u_n_z s1 a) (1 .<< DSP_SR_V)) a false
    (Z.testbit (reg s DSP_REG_SR) DSP_SR_C).
Proof.
  intros E Ha Hm. unfold flags_after. rewrite reg_clear_sr, ccr_sr, !E by (done || by rewrite E).
  unfold ccr_flags. split_and!; [.. | sr_high].
  all: rewrite ?testbit_clear, ?Z.lor_spec, ?testbit_clear, ?Z.lor_spec by done;
    rewrite ?testbit_flag by done; cbn -[Z.testbit flag_e flag_u flag_n flag_z];
    rewrite ?andb_true_r, ?andb_false_r, ?orb_false_r, ?orb_true_r; done.
Qed.

Definition is_input (r : Z) : Prop := r ∈ [DSP_REG_X0; DSP_REG_X1; DSP_REG_Y0; DSP_REG_Y1].

Lemma regs_input s r : regs_ok s → is_input r → 0 ≤ reg s r < 2 ^ 24.
Proof.
  intros (Hr & _ & _) Hi. unfold is_input in Hi. rewrite !elem_of_cons in Hi.
  destruct Hi as [-> | [-> | [-> | [-> | []%not_elem_of_nil]]]]; refine (Hr _ _); done.
Qed.

(** The fractional product of two input registers: twice the integer product. *)
Definition product (s : dsp_core) (r1 r2 signe : Z) : Z :=
  (if signe =? 0 then 2 else -2) * swrap 24 (reg s r1) * swrap 24 (reg s r2).

Lemma product_bound s r1 r2 signe : - 2 ^ 47 ≤ product s r1 r2 signe ≤ 2 ^ 47.
Proof.
  unfold product.
  assert (B : ∀ r, - 2 ^ 23 ≤ swrap 24 (reg s r) < 2 ^ 23) by (intros; arith).
  pose proof (B r1). pose proof (B r2).
  generalize dependent (swrap 24 (reg s r1)). generalize dependent (swrap 24 (reg s r2)).
  intros y Hy x Hx. assert (- 2 ^ 46 ≤ x * y ≤ 2 ^ 46) by nia. case_match; lia.
Qed.

(** C35: the multiply instructions, for any pair of input registers, sign and
    accumulator: MPY leaves the signed fractional product, MAC adds it to the
    accumulator modulo 2^56 with V on signed overflow, and MPYR and MACR round
    that result half to even; none of them changes C or any other register. *)
Theorem emu_multiply_correct s r1 r2 signe d :
  regs_ok s → is_input r1 → is_input r2 → 0 ≤ signe < 2 → is_accu d →
  0 ≤ scaling (reg s DSP_REG_SR) < 3 →
  let D := load56 s d in
  let P := product s r1 r2 signe in
  let round := round_even (rnd_bits (reg s DSP_REG_SR)) in
  let C := Z.testbit (reg s DSP_REG_SR) DSP_SR_C in
  let O := negb (sfits56 (sval56 D + P)) in
  (∃ s' r, emu_mpy r1 r2 signe d s = Ok s' ∧ writes_accu d s s' r ∧ wf56 r ∧
     val56 r = P mod 2 ^ 56 ∧ flags_after s s' r false C) ∧
  (∃ s' r, emu_mpyr r1 r2 signe d s = Ok s' ∧ writes_accu d s s' r ∧ wf56 r ∧
     val56 r = round (P mod 2 ^ 56) mod 2 ^ 56 ∧ flags_after s s' r false C) ∧
  (∃ s' r, emu_mac r1 r2 signe d s = Ok s' ∧ writes_accu d s s' r ∧ wf56 r ∧
     val56 r = (val56 D + P) mod 2 ^ 56 ∧ flags_after s s' r O C) ∧
  (∃ s' r, emu_macr r1 r2 signe d s = Ok s' ∧ writes_accu d s s' r ∧ wf56 r ∧
     val56 r = round ((val56 D + P) mod 2 ^ 56) mod 2 ^ 56 ∧ flags_after s s' r O C).
Proof.
  intros Hs H1 H2 Hg Hd Hm D P round C O.
  pose proof (regs_load56 s d Hs Hd : wf56 D) as HD.
  destruct (mul56_spec (reg s r1) (reg s r2) signe) as (p & Ep & Wp & Vp);
    [by apply regs_input.. | done |]. fold (product s r1 r2 signe) in Vp. fold P in Vp.
  assert (Sp : sval56 p = P).
  { rewrite (sval56_wrap p P Wp Vp). pose proof (product_bound s r1 r2 signe). subst P. arith. }
  pose proof (add56_val p D Wp HD) as [Wa Va]. pose proof (add56_flags p D Wp HD) as F.
  rewrite Vp, Zplus_mod_idemp_l, (Z.add_comm P) in Va.
  rewrite Sp, (Z.add_comm P) in F. fold O in F.
  pose proof (sr_not_accu d Hd).
  unfold emu_mpy, emu_mpyr, emu_mac, emu_macr. rewrite Ep. cbn [mbind res_bind]. fold D.
  destruct (dsp_add56 p D) as [newsr a]. cbn [fst snd] in *. subst newsr.
  destruct (rnd56_spec (reg s DSP_REG_SR) p Wp) as [Wr Vr]. rewrite Vp in Vr.
  destruct (rnd56_spec (reg s DSP_REG_SR) a Wa) as [Wr' Vr']. rewrite Va in Vr'.
  split; [| split; [| split]].
  - eexists _, p. split; [reflexivity |]. split; [apply finish_accu; auto with dsp_frame |].
    split; [exact Wp |]. split; [exact Vp |].
    apply finish_flags_mpy; auto using reg_store56_ne.
  - eexists _, (dsp_rnd56 _ p). split; [reflexivity |].
    split; [apply finish_accu; auto with dsp_frame |].
    split; [exact Wr |]. split; [exact Vr |].
    apply finish_flags_mpy; auto using reg_store56_ne.
  - eexists _, a. split; [reflexivity |]. split; [apply finish_accu; auto with dsp_frame |].
    split; [exact Wa |]. split; [exact Va |].
    apply finish_flags_mac; auto using reg_store56_ne.
  - eexists _, (dsp_rnd56 _ a). split; [reflexivity |].
    split; [apply finish_accu; auto with dsp_frame |].
    split; [exact Wr' |]. split; [exact Vr' |].
    apply finish_flags_mac; auto using reg_store56_ne.
Qed.

(** 0.25 * -0.5 = -0.125. *)
Lemma emu_multiply_witness :
  ∃ s' r, emu_mpy DSP_REG_X0 DSP_REG_Y0 0 ACC_B alu_sample = Ok s' ∧
          load56 s' ACC_B = r ∧ val56 r = (- 2 ^ 44) mod 2 ^ 56.
Proof.
  destruct (emu_multiply_correct alu_sample DSP_REG_X0 DSP_REG_Y0 0 ACC_B alu_sample_ok
    ltac:(unfold is_input; set_solver) ltac:(unfold is_input; set_solver) ltac:(lia)
    (or_intror eq_refl) ltac:(done)) as [(s' & r & E & [HL _] & _ & V & _) _].
  exists s', r. split; [exact E |]. split; [exact HL |]. rewrite V. reflexivity.
Defined.

(** ** Register widths

    Width assignments the ALU respects: the accumulator extension words have
    the same width, of at least 8 bits. *)

Record alu_widths (w : Z → Z) : Prop := {
  w_sr : w DSP_REG_SR = 16;
  w_high d : is_accu d → w (DSP_REG_A1 + d) = 24;
  w_low d : is_accu d → w (DSP_REG_A0 + d) = 24;
  w_ext d : is_accu d → w (DSP_REG_A2 + d) = w DSP_REG_A2;
  w_ext_min : 8 ≤ w DSP_REG_A2;
  w_input r : is_input r → w r = 24
}.

Lemma reg_bits_alu : alu_widths reg_bits.
Proof.
  split; try done.
  1-3: by intros d [-> | ->].
  intros r Hr. unfold is_input in Hr. rewrite !elem_of_cons in Hr.
  by destruct Hr as [-> | [-> | [-> | [-> | []%not_elem_of_nil]]]].
Qed.

(** The 56-bit routines mask their results whatever the operands. *)
Lemma add56_wf s d : wf56 (dsp_add56 s d).2.
Proof. unfold dsp_add56, wf56; cbn [a0 a1 a2 snd]. by (split; [| split]); apply masked_bound. Qed.

Lemma sub56_wf s d : wf56 (dsp_sub56 s d).2.
Proof. unfold dsp_sub56, wf56; cbn [a0 a1 a2 snd]. by (split; [| split]); apply masked_bound. Qed.

Lemma add56_sr s d : 0 ≤ (dsp_add56 s d).1 < 2 ^ 16.
Proof. by apply wrap_bound. Qed.

Lemma sub56_sr s d : 0 ≤ (dsp_sub56 s d).1 < 2 ^ 16.
Proof. by apply wrap_bound. Qed.

Lemma asl56_wf d n : 0 ≤ n ≤ 56 →
  ∃ sr r, dsp_asl56 d n = Ok (sr, r) ∧ wf56 r ∧ 0 ≤ sr < 2 ^ 16.
Proof.
  intros Hn. unfold dsp_asl56. rewrite !shift_ok_Ok by lia. do 2 eexists. split; [reflexivity |].
  split; [| by apply wrap_bound]. unfold wf56; cbn [a0 a1 a2].
  by (split; [| split]); apply masked_bound.
Qed.

Lemma asr56_wf d n : 1 ≤ n ≤ 63 →
  ∃ sr r, dsp_asr56 d n = Ok (sr, r) ∧ wf56 r ∧ 0 ≤ sr < 2 ^ 16.
Proof.
  intros Hn. unfold dsp_asr56. rewrite !shift_ok_Ok by lia. do 2 eexists. split; [reflexivity |].
  split; [| by apply wrap_bound]. unfold wf56; cbn [a0 a1 a2].
  by (split; [| split]); apply masked_bound.
Qed.

Lemma mul56_wf s1 s2 signe : ∃ r, dsp_mul56 s1 s2 signe = Ok r ∧ wf56 r.
Proof.
  rewrite mul56_unfold. cbn zeta.
  match goal with |- context [dsp_asl56 ?a 1] =>
    destruct (asl56_wf a 1 ltac:(lia)) as (sr & r & -> & Hr & _) end.
  cbn [mbind res_bind]. case_match; eexists; (split; [reflexivity |]); [apply sub56_wf | done].
Qed.

Lemma rnd56_wf sr a : wf56 (dsp_rnd56 sr a).
Proof.
  unfold dsp_rnd56. case_match; [| case_match];
    (match goal with |- context [dsp_add56 ?c ?e] =>
       pose proof (add56_wf c e) as (W0 & W1 & W2); destruct (dsp_add56 c e) as [f [x0 x1 x2]] end);
    cbn [a0 a1 a2 snd] in *; (split; [done | split; cbn [a1 a2]]); try done.
  - by apply land_bound.
  - by apply land_bound.
  - case_match; [by apply land_bound | done].
Qed.

(** The registers the data ALU writes. *)
Definition ALU_REGS : list Z :=
  [DSP_REG_SR; DSP_REG_A0; DSP_REG_A1; DSP_REG_A2; DSP_REG_B0; DSP_REG_B1; DSP_REG_B2].

Lemma alu_reg_accu d r : is_accu d → r ∈ accu_regs d → r ∈ ALU_REGS.
Proof. intros [-> | ->]; unfold accu_regs, ALU_REGS; set_solver. Qed.

Section alu_frame.
Context (s1 s : dsp_core) (F : frame ALU_REGS s1 s).

Lemma alu_frame_or v : frame ALU_REGS s1 (or_sr s v).
Proof. apply frame_set_reg; [unfold ALU_REGS; set_solver | done]. Qed.

Lemma alu_frame_clear v : frame ALU_REGS s1 (clear_sr s v).
Proof. apply frame_set_reg; [unfold ALU_REGS; set_solver | done]. Qed.

Lemma alu_frame_ccr a : frame ALU_REGS s1 (emu_ccr_update_e_u_n_z s a).
Proof. eapply frame_trans; [done |]. eapply frame_weaken; [| apply ccr_frame]. unfold ALU_REGS; set_solver. Qed.

Lemma alu_frame_store d a : is_accu d → frame ALU_REGS s1 (store56 s d a).
Proof.
  intros Hd. eapply frame_trans; [done |]. eapply frame_weaken; [| apply store56_frame].
  intros r. by apply alu_reg_accu.
Qed.

Lemma alu_frame_high d v : is_accu d → frame ALU_REGS s1 (set_reg s (DSP_REG_A1 + d) v).
Proof.
  intros Hd. apply frame_set_reg; [| done]. apply (alu_reg_accu d); [done |].
  unfold accu_regs. set_solver.
Qed.

Lemma alu_frame_n_z d : frame ALU_REGS s1 (set_n_z d s).
Proof. unfold set_n_z. repeat (apply frame_set_reg; [unfold ALU_REGS; set_solver |]). done. Qed.
End alu_frame.

Create HintDb alu_frame.
#[export] Hint Resolve frame_refl alu_frame_or alu_frame_clear alu_frame_ccr alu_frame_store
  alu_frame_high alu_frame_n_z : alu_frame.

Section fit.
Context (w : Z → Z) (Hw : alu_widths w).
Implicit Types s : dsp_core.

(** The values that fit accumulator [d]. *)
Definition accu_fit (a : acc56) : Prop :=
  0 ≤ a0 a < 2 ^ w DSP_REG_A2 ∧ 0 ≤ a1 a < 2 ^ 24 ∧ 0 ≤ a2 a < 2 ^ 24.

Lemma wf56_fit a : wf56 a → accu_fit a.
Proof.
  intros (H0 & H1 & H2). split; [| done].
  assert (2 ^ 8 ≤ 2 ^ w DSP_REG_A2) by (apply Z.pow_le_mono_r; [lia | apply w_ext_min, Hw]). lia.
Qed.

Lemma load56_fit s d : regs_fit w s → is_accu d → accu_fit (load56 s d).
Proof.
  intros (Hr & _ & _) Hd. unfold accu_fit, load56; cbn [a0 a1 a2].
  rewrite <- (w_ext w Hw d Hd), <- (w_high w Hw d Hd) at 1.
  rewrite <- (w_low w Hw d Hd) at 1.
  destruct Hd as [-> | ->]; (split; [| split]); by apply Hr.
Qed.

Lemma store56_fit s d a : regs_fit w s → is_accu d → accu_fit a → regs_fit w (store56 s d a).
Proof.
  intros Hs Hd (H0 & H1 & H2). pose proof Hd as Hd'. unfold store56.
  apply set_reg_fit; [apply set_reg_fit; [apply set_reg_fit |..] |..]; try done.
  1, 3, 5: destruct Hd as [-> | ->]; done.
  all: by rewrite ?(w_ext w Hw d), ?(w_high w Hw d), ?(w_low w Hw d).
Qed.

Lemma reg_sr_bound s : regs_fit w s → 0 ≤ reg s DSP_REG_SR < 2 ^ 16.
Proof. intros (Hr & _ & _). rewrite <- (w_sr w Hw). by apply Hr. Qed.

Lemma or_sr_fit s v : regs_fit w s → 0 ≤ v < 2 ^ 16 → regs_fit w (or_sr s v).
Proof.
  intros Hs Hv. apply set_reg_fit; [done | done |]. rewrite (w_sr w Hw).
  apply lor_bound; [done | by apply reg_sr_bound | done].
Qed.

Lemma clear_sr_fit s m : regs_fit w s → 0 ≤ m < 2 ^ 16 → regs_fit w (clear_sr s m).
Proof.
  intros Hs Hm. apply set_reg_fit; [done | done |]. rewrite (w_sr w Hw).
  apply land_bound; [done |]. change (BITMASK 16) with (2 ^ 16 - 1). lia.
Qed.

Lemma sr_if_fit b k s : regs_fit w s → 0 ≤ k < 16 → regs_fit w (sr_if b k s).
Proof.
  intros Hs Hk. destruct b; [apply or_sr_fit | done]; [done |].
  rewrite Z.shiftl_1_l. split; [apply Z.pow_nonneg; lia | apply Z.pow_lt_mono_r; lia].
Qed.

Lemma ccr_fit s a : regs_fit w s → regs_fit w (emu_ccr_update_e_u_n_z s a).
Proof.
  intros Hs. unfold emu_ccr_update_e_u_n_z. fold SR_EUNZ.
  assert (Hc : regs_fit w (clear_sr s SR_EUNZ)) by (by apply clear_sr_fit).
  assert (Hn : 0 ≤ (a0 a .>> 4) .& 8 < 2 ^ 16) by (by apply land_bound).
  repeat case_match; try done; apply or_sr_fit; try done; by repeat apply sr_if_fit.
Qed.

(** The source operands fit. *)
Definition source_fit (source : dsp_core → acc56) : Prop :=
  ∀ s, regs_fit w s → accu_fit (source s).

Lemma ext24_bound x : 0 ≤ ext24 x < 2 ^ 8.
Proof. unfold ext24. by case_match. Qed.

Lemma input_bound s r : regs_fit w s → is_input r → 0 ≤ reg s r < 2 ^ 24.
Proof.
  intros (Hr & _ & _) Hi. rewrite <- (w_input w Hw r Hi). apply Hr.
  unfold is_input in Hi. rewrite !elem_of_cons in Hi.
  by destruct Hi as [-> | [-> | [-> | [-> | []%not_elem_of_nil]]]].
Qed.

Lemma source_accu_fit d : is_accu d → source_fit (source_accu d).
Proof. intros Hd s Hs. by apply load56_fit. Qed.

Lemma source_word_fit r : is_input r → source_fit (source_word r).
Proof.
  intros Hr s Hs. apply wf56_fit. split; [apply ext24_bound |]. by split; [apply input_bound |].
Qed.

Lemma source_long_fit r1 r0 : is_input r1 → is_input r0 → source_fit (source_long r1 r0).
Proof.
  intros H1 H0 s Hs. apply wf56_fit. split; [apply ext24_bound |].
  split; by apply input_bound.
Qed.

Lemma abs56_fit a : accu_fit a → accu_fit (dsp_abs56 a).2.
Proof. intros Ha. unfold dsp_abs56. case_match; [apply wf56_fit, sub56_wf | done]. Qed.

(** An instruction that always completes, respects the widths and writes only the
    accumulators and SR. *)
Definition alu_fit (f : dsp_core → res dsp_core) : Prop :=
  ∀ s, regs_fit w s → ∃ s', f s = Ok s' ∧ regs_fit w s' ∧ frame ALU_REGS s s'.

Lemma set_high_fit s d v : regs_fit w s → is_accu d → 0 ≤ v < 2 ^ 24 →
  regs_fit w (set_reg s (DSP_REG_A1 + d) v).
Proof.
  intros Hs Hd Hv. apply set_reg_fit; [done | by destruct Hd as [-> | ->] |].
  by rewrite (w_high w Hw d Hd).
Qed.

Lemma high_bound s d : regs_fit w s → is_accu d → 0 ≤ reg s (DSP_REG_A1 + d) < 2 ^ 24.
Proof. intros Hs Hd. by apply (load56_fit s d). Qed.

Lemma flag_bound b k : 0 ≤ k < 16 → 0 ≤ b2z b .<< k < 2 ^ 16.
Proof.
  intros Hk. rewrite shiftl_mul by lia. assert (0 < 2 ^ k < 2 ^ 16).
  { split; [apply Z.pow_pos_nonneg | apply Z.pow_lt_mono_r]; lia. }
  destruct b; cbn [b2z]; lia.
Qed.

Lemma set_n_z_fit s d : regs_fit w s → is_accu d → regs_fit w (set_n_z d s).
Proof.
  intros Hs Hd. unfold set_n_z. apply or_sr_fit; [| by apply flag_bound].
  apply or_sr_fit; [done |]. rewrite bit_b2z by done. by apply flag_bound.
Qed.

#[local] Hint Resolve ccr_fit store56_fit wf56_fit load56_fit clear_sr_fit or_sr_fit
  add56_wf sub56_wf rnd56_wf add56_sr sub56_sr set_high_fit set_n_z_fit abs56_fit
  flag_bound high_bound : alu_fit.
#[local] Hint Extern 5 (0 ≤ _ < _) => (done || lia) : alu_fit.
#[local] Hint Extern 1 (0 ≤ _ .| _ < _) => (apply lor_bound; [done |..]) : alu_fit.
#[local] Hint Extern 1 (0 ≤ _ .& BITMASK _ < _) => (by apply masked_bound) : alu_fit.
#[local] Hint Extern 2 (0 ≤ _ .& _ < _) => (apply land_bound; [done |]) : alu_fit.

(** Name the results of the 56-bit routines the goal runs. *)
Ltac name56 :=
  repeat match goal with
  | |- context [dsp_add56 ?x ?y] =>
      let W := fresh in let B := fresh in
      pose proof (add56_wf x y) as W; pose proof (add56_sr x y) as B;
      destruct (dsp_add56 x y) as [? ?]; cbn [fst snd] in W, B
  | |- context [dsp_sub56 ?x ?y] =>
      let W := fresh in let B := fresh in
      pose proof (sub56_wf x y) as W; pose proof (sub56_sr x y) as B;
      destruct (dsp_sub56 x y) as [? ?]; cbn [fst snd] in W, B
  | |- context [dsp_asl56 ?x 1] =>
      destruct (asl56_wf x 1 ltac:(lia)) as (? & ? & -> & ? & ?); cbn [mbind res_bind]
  | |- context [dsp_asr56 ?x 1] =>
      destruct (asr56_wf x 1 ltac:(lia)) as (? & ? & -> & ? & ?); cbn [mbind res_bind]
  | |- context [dsp_mul56 ?x ?y ?z] =>
      destruct (mul56_wf x y z) as (? & -> & ?); cbn [mbind res_bind]
  end.

Ltac alu_done := split; [eauto 10 with alu_fit | eauto 10 with alu_frame].

Ltac alu :=
  intros s Hs; name56; repeat case_match; simplify_eq;
  eexists; (split; [reflexivity |]); alu_done.

Lemma emu_abs_fit d : is_accu d → alu_fit (emu_abs d).
Proof. intros Hd s Hs. unfold emu_abs, overflowed56. eexists. split; [reflexivity |]. alu_done. Qed.

Lemma emu_adc_fit source d : is_accu d → alu_fit (emu_adc source d).
Proof. intros Hd. unfold emu_adc. alu. Qed.

Lemma emu_add_fit source d : is_accu d → alu_fit (emu_add source d).
Proof. intros Hd. unfold emu_add. alu. Qed.

Lemma emu_addl_fit source d : is_accu d → alu_fit (emu_addl source d).
Proof. intros Hd. unfold emu_addl. alu. Qed.

Lemma emu_addr_fit source d : is_accu d → alu_fit (emu_addr source d).
Proof. intros Hd. unfold emu_addr. alu. Qed.

Lemma emu_and_fit r d : is_input r → is_accu d → alu_fit (emu_and r d).
Proof.
  intros Hr Hd s Hs. pose proof (input_bound s r Hs Hr). unfold emu_and.
  eexists. split; [reflexivity |]. alu_done.
Qed.

Lemma emu_asl_fit d : is_accu d → alu_fit (emu_asl d).
Proof. intros Hd. unfold emu_asl. alu. Qed.

Lemma emu_asr_fit d : is_accu d → alu_fit (emu_asr d).
Proof. intros Hd. unfold emu_asr. alu. Qed.

Lemma emu_clr_fit d : is_accu d → alu_fit (emu_clr d).
Proof.
  intros Hd. unfold emu_clr. assert (wf56 zero56) by done. alu.
Qed.

Lemma emu_cmp_fit source d : alu_fit (emu_cmp source d).
Proof. unfold emu_cmp. alu. Qed.

Lemma emu_cmpm_fit source d : alu_fit (emu_cmpm source d).
Proof. unfold emu_cmpm. alu. Qed.

Lemma emu_eor_fit r d : is_accu d → alu_fit (emu_eor r d).
Proof. intros Hd s Hs. unfold emu_eor. rewrite reg_set_eq, set_set_reg. revert s Hs. alu. Qed.

Lemma emu_or_fit r d : is_accu d → alu_fit (emu_or r d).
Proof. intros Hd s Hs. unfold emu_or. rewrite reg_set_eq, set_set_reg. revert s Hs. alu. Qed.

Lemma emu_not_fit d : is_accu d → alu_fit (emu_not d).
Proof. intros Hd s Hs. unfold emu_not. rewrite reg_set_eq, set_set_reg. revert s Hs. alu. Qed.

Lemma bit0_bound x : 0 ≤ x .& 1 < 2 ^ 16.
Proof. by apply land_bound. Qed.

Lemma emu_lsl_fit d : is_accu d → alu_fit (emu_lsl d).
Proof. intros Hd s Hs. unfold emu_lsl. rewrite reg_set_eq, set_set_reg. revert s Hs. alu. Qed.

Lemma shiftr1_bound x : 0 ≤ x < 2 ^ 24 → 0 ≤ x .>> 1 < 2 ^ 24.
Proof. intros. arith. Qed.

Lemma emu_lsr_fit d : is_accu d → alu_fit (emu_lsr d).
Proof.
  intros Hd s Hs. unfold emu_lsr. pose proof (shiftr1_bound _ (high_bound s d Hs Hd)).
  eexists. split; [reflexivity |]. alu_done.
Qed.

Lemma emu_rol_fit d : is_accu d → alu_fit (emu_rol d).
Proof. intros Hd s Hs. unfold emu_rol. rewrite !reg_set_eq, !set_set_reg. revert s Hs. alu. Qed.

Lemma emu_ror_fit d : is_accu d → alu_fit (emu_ror d).
Proof.
  intros Hd s Hs. unfold emu_ror. rewrite reg_set_eq, set_set_reg.
  pose proof (shiftr1_bound _ (high_bound s d Hs Hd)).
  replace (reg s (DSP_REG_A1 + d) .& 1) with (b2z (Z.testbit (reg s (DSP_REG_A1 + d)) 0))
    by (by rewrite <- bit_b2z, Z.shiftr_0_r).
  assert (0 ≤ b2z (Z.testbit (reg s (DSP_REG_A1 + d)) 0) .<< 23 < 2 ^ 24) by (by destruct (Z.testbit _ _)).
  assert (0 ≤ b2z (Z.testbit (reg s (DSP_REG_A1 + d)) 0) < 2 ^ 16) by (by destruct (Z.testbit _ _)).
  eexists. split; [reflexivity |]. alu_done.
Qed.

Lemma emu_neg_fit d : is_accu d → alu_fit (emu_neg d).
Proof. intros Hd. unfold emu_neg, overflowed56. alu. Qed.

Lemma emu_rnd_fit d : is_accu d → alu_fit (emu_rnd d).
Proof. intros Hd. unfold emu_rnd. alu. Qed.

Lemma emu_sbc_fit source d : is_accu d → alu_fit (emu_sbc source d).
Proof. intros Hd. unfold emu_sbc. alu. Qed.

Lemma emu_sub_fit source d : is_accu d → alu_fit (emu_sub source d).
Proof. intros Hd. unfold emu_sub. alu. Qed.

Lemma emu_subl_fit source d : is_accu d → alu_fit (emu_subl source d).
Proof. intros Hd. unfold emu_subl. alu. Qed.

Lemma emu_subr_fit source d : is_accu d → alu_fit (emu_subr source d).
Proof. intros Hd. unfold emu_subr. alu. Qed.

Lemma emu_tfr_fit source d : source_fit source → is_accu d → alu_fit (emu_tfr source d).
Proof. intros Hf Hd. unfold emu_tfr. alu. Qed.

Lemma emu_tst_fit d : alu_fit (emu_tst d).
Proof. unfold emu_tst. alu. Qed.

Lemma emu_mac_fit r1 r2 signe d : is_accu d → alu_fit (emu_mac r1 r2 signe d).
Proof. intros Hd. unfold emu_mac. alu. Qed.

Lemma emu_macr_fit r1 r2 signe d : is_accu d → alu_fit (emu_macr r1 r2 signe d).
Proof. intros Hd. unfold emu_macr. alu. Qed.

Lemma emu_mpy_fit r1 r2 signe d : is_accu d → alu_fit (emu_mpy r1 r2 signe d).
Proof. intros Hd. unfold emu_mpy. alu. Qed.

Lemma emu_mpyr_fit r1 r2 signe d : is_accu d → alu_fit (emu_mpyr r1 r2 signe d).
Proof. intros Hd. unfold emu_mpyr. alu. Qed.

Lemma emu_macr_uninit_fit junk : alu_fit (emu_macr_uninit junk).
Proof. unfold emu_macr_uninit. assert (is_accu ACC_B) by (by right). alu. Qed.

Lemma emu_move_fit : alu_fit emu_move.
Proof. intros s Hs. eexists. split; [reflexivity |]. split; [done | apply frame_refl]. Qed.

(** MAX stores the low word of A in the extension word of B. *)
Lemma emu_max_fit : w DSP_REG_A2 = 24 → alu_fit emu_max.
Proof.
  intros Hext s Hs. unfold emu_max. eexists. split; [reflexivity |].
  split; [| repeat (case_match; repeat (apply frame_set_reg; [unfold ALU_REGS; set_solver |])); apply frame_refl].
  apply or_sr_fit; [apply clear_sr_fit; [| done] | by apply flag_bound].
  case_match; [| done].
  pose proof (load56_fit s ACC_A Hs (or_introl eq_refl)) as (H0 & H1 & H2).
  cbn [load56 a0 a1 a2] in H0, H1, H2. rewrite Hext in H0.
  set (s1 := set_reg s DSP_REG_B0 _). set (s2 := set_reg s1 DSP_REG_B1 _).
  assert (F : set_reg s2 DSP_REG_B2 (reg s2 DSP_REG_A0) =
    store56 s ACC_B (Acc56 (reg s DSP_REG_A0) (reg s DSP_REG_A1) (reg s DSP_REG_A2))).
  { unfold store56, s2, s1, set_reg, set, reg; cbn [a0 a1 a2 registers].
    rewrite !(rd_wr_ne _ DSP_REG_B1), !(rd_wr_ne _ DSP_REG_B0) by done.
    f_equal. unfold wr. change (DSP_REG_A2 + ACC_B) with DSP_REG_B2.
    change (DSP_REG_A1 + ACC_B) with DSP_REG_B1. change (DSP_REG_A0 + ACC_B) with DSP_REG_B0.
    rewrite (insert_insert_ne _ DSP_REG_B2 DSP_REG_B1), (insert_insert_ne _ DSP_REG_B2 DSP_REG_B0),
      (insert_insert_ne _ DSP_REG_B1 DSP_REG_B0) by done. done. }
  rewrite F. apply store56_fit; [done | by right |].
  split; cbn [a0 a1 a2]; [by rewrite Hext | done].
Qed.

(** The instance a C function is, then the lemma of its family. *)
Ltac alu_entry :=
  lazymatch goal with
  | |- _ ∨ alu_fit ?f =>
      tryif constr_eq f emu_undefined then by left else
      right;
      lazymatch f with
      | emu_move => apply emu_move_fit
      | _ =>
        let g := eval red in f in change (alu_fit g);
        lazymatch g with
        | emu_abs _ => apply emu_abs_fit | emu_adc _ _ => apply emu_adc_fit
        | emu_add _ _ => apply emu_add_fit | emu_addl _ _ => apply emu_addl_fit
        | emu_addr _ _ => apply emu_addr_fit | emu_and _ _ => apply emu_and_fit
        | emu_asl _ => apply emu_asl_fit | emu_asr _ => apply emu_asr_fit
        | emu_clr _ => apply emu_clr_fit | emu_cmp _ _ => apply emu_cmp_fit
        | emu_cmpm _ _ => apply emu_cmpm_fit | emu_eor _ _ => apply emu_eor_fit
        | emu_or _ _ => apply emu_or_fit | emu_not _ => apply emu_not_fit
        | emu_lsl _ => apply emu_lsl_fit | emu_lsr _ => apply emu_lsr_fit
        | emu_rol _ => apply emu_rol_fit | emu_ror _ => apply emu_ror_fit
        | emu_neg _ => apply emu_neg_fit | emu_rnd _ => apply emu_rnd_fit
        | emu_sbc _ _ => apply emu_sbc_fit | emu_sub _ _ => apply emu_sub_fit
        | emu_subl _ _ => apply emu_subl_fit | emu_subr _ _ => apply emu_subr_fit
        | emu_tfr _ _ => apply emu_tfr_fit | emu_tst _ => apply emu_tst_fit
        | emu_mac _ _ _ _ => apply emu_mac_fit | emu_macr _ _ _ _ => apply emu_macr_fit
        | emu_mpy _ _ _ _ => apply emu_mpy_fit | emu_mpyr _ _ _ _ => apply emu_mpyr_fit
        | emu_macr_uninit _ => apply emu_macr_uninit_fit
        end
      end
  end;
  try lazymatch goal with
  | |- source_fit (source_accu _) => apply source_accu_fit
  | |- source_fit (source_word _) => apply source_word_fit
  end;
  try lazymatch goal with
  | |- is_accu ACC_A => by left
  | |- is_accu ACC_B => by right
  | |- is_input _ => unfold is_input; set_solver
  end.

Definition MAX_OPCODE := 0x1d%nat.

Lemma opcodes_alu_fit :
  Forall (λ f, f = emu_undefined ∨ alu_fit f) (delete MAX_OPCODE opcodes_alu).
Proof.
  unfold opcodes_alu. cbn [delete list_delete MAX_OPCODE].
  repeat (apply Forall_cons_2; [alu_entry |]). apply Forall_nil_2.
Qed.

End fit.

(** every ALU operation but MAX respects the register widths: from a state
    whose registers fit, the entry of [opcodes_alu] completes with registers that
    fit, or it is [emu_undefined] and aborts. *)
Theorem opcodes_alu_typed i f s :
  opcodes_alu !! i = Some f → i ≠ MAX_OPCODE → regs_ok s →
  match f s with
  | Ok s' => regs_ok s'
  | Fault e => e = assert_failed ∧ f = emu_undefined
  end.
Proof.
  intros Hf Hi Hs.
  assert (f = emu_undefined ∨ alu_fit reg_bits f) as [-> | Hfit].
  { pose proof (opcodes_alu_fit reg_bits reg_bits_alu) as Hall. rewrite Forall_lookup in Hall.
    destruct (decide (i < MAX_OPCODE)%nat).
    - apply (Hall i). by rewrite list_lookup_delete_lt.
    - apply (Hall (i - 1)%nat). rewrite list_lookup_delete_ge by (unfold MAX_OPCODE in *; lia).
      rewrite <- Hf. f_equal. unfold MAX_OPCODE in *. lia. }
  - unfold emu_undefined. by repeat case_match; simplify_eq.
  - by destruct (Hfit s Hs) as (s' & -> & Hs' & _).
Qed.

Lemma opcodes_alu_typed_witness :
  match emu_clr_a alu_sample with Ok s' => regs_ok s' | Fault _ => False end.
Proof.
  pose proof (opcodes_alu_typed 0x13 emu_clr_a alu_sample eq_refl ltac:(done) alu_sample_ok) as H.
  destruct (emu_clr_a alu_sample) as [s' | f] eqn:E; [exact H | discriminate E].
Defined.

(** The multiply half of the opcode space: bits 6:4 select the operands, bit 3 the
    accumulator, bit 2 the sign, bit 1 accumulation and bit 0 rounding. *)
Definition mul_operands : list (Z * Z) :=
  [ (DSP_REG_X0, DSP_REG_X0); (DSP_REG_Y0, DSP_REG_Y0); (DSP_REG_X1, DSP_REG_X0);
    (DSP_REG_Y1, DSP_REG_Y0); (DSP_REG_X0, DSP_REG_Y1); (DSP_REG_Y0, DSP_REG_X0);
    (DSP_REG_X1, DSP_REG_Y0); (DSP_REG_Y1, DSP_REG_X1) ].

Definition mul_opcode (i : Z) : dsp_core → res dsp_core :=
  let '(r1, r2) := default (0, 0) (mul_operands !! Z.to_nat ((i .>> 4) .& 7)) in
  let signe := (i .>> 2) .& 1 in
  let d := (i .>> 3) .& 1 in
  match i .& 3 with
  | 0 => emu_mpy r1 r2 signe d
  | 1 => emu_mpyr r1 r2 signe d
  | 2 => emu_mac r1 r2 signe d
  | _ => if i =? 0xeb then emu_mac r1 r2 signe d else emu_macr r1 r2 signe d
  end.

Lemma mul_opcodes_table : drop 128 opcodes_alu = map mul_opcode (seqZ 128 128).
Proof. reflexivity. Qed.

(** C34: the 128 multiply entries of [opcodes_alu] follow the operation encoding,
    except 0xeb: MACR +X1,Y0,B rounds its destination before loading it, so it
    behaves as MAC and its result is not rounded. *)
Theorem opcodes_alu_multiply i : 0x80 ≤ i < 0x100 →
  opcodes_alu !! Z.to_nat i = Some (mul_opcode i).
Proof.
  intros Hi. replace (Z.to_nat i) with (128 + Z.to_nat (i - 128))%nat by lia.
  rewrite <- lookup_drop, mul_opcodes_table, list_lookup_fmap, lookup_seqZ_lt by lia.
  cbn. do 2 f_equal. lia.
Qed.

Lemma opcodes_alu_multiply_witness :
  opcodes_alu !! Z.to_nat 0xd2 = Some (emu_mac DSP_REG_Y0 DSP_REG_X0 0 ACC_A).
Proof. rewrite (opcodes_alu_multiply 0xd2 ltac:(lia)). reflexivity. Defined.

(** ** Carry, sign and shifts *)

Lemma sr_lvc_lor o c o' c' : sr_lvc o c .| sr_lvc o' c' = sr_lvc (o || o') (c || c').
Proof. by destruct o, c, o', c'. Qed.

Lemma sr_carry s : nz ((reg s DSP_REG_SR .>> DSP_SR_C) .& 1) = Z.testbit (reg s DSP_REG_SR) DSP_SR_C.
Proof. rewrite bit_b2z by done. by destruct (Z.testbit _ _). Qed.

(** The flags of the two steps, merged. *)
Lemma adc_overflow z : - 2 ^ 56 ≤ z < 2 ^ 56 →
  negb (sfits56 z) || negb (sfits56 (1 + swrap 56 z)) =
  negb (sfits56 (z + 1)) || (z =? - 2 ^ 55 - 1).
Proof. intros. unfold sfits56. booleans; cbn; try done; exfalso; arith. Qed.

Lemma sbc_overflow z : - 2 ^ 56 ≤ z < 2 ^ 56 →
  negb (sfits56 z) || negb (sfits56 (swrap 56 z - 1)) =
  negb (sfits56 (z - 1)) || (z =? 2 ^ 55).
Proof. intros. unfold sfits56. booleans; cbn; try done; exfalso; arith. Qed.

Lemma adc_carry x : 0 ≤ x < 2 ^ 57 →
  (2 ^ 56 <=? x) || (2 ^ 56 <=? 1 + x mod 2 ^ 56) = (2 ^ 56 <=? x + 1).
Proof. intros. booleans; cbn; try done; exfalso; arith. Qed.

Lemma sbc_carry x y : 0 ≤ x < 2 ^ 56 → 0 ≤ y < 2 ^ 56 →
  (x <? y) || ((x - y) mod 2 ^ 56 <? 1) = (x <? y + 1).
Proof. intros. booleans; cbn; try done; exfalso; arith. Qed.

Lemma no_carry_overflow z k : ¬ (- 2 ^ 55 ≤ k < 2 ^ 55) →
  negb (sfits56 z) = negb (sfits56 z) || (z =? k).
Proof. intros. unfold sfits56. booleans; cbn; try done; exfalso; lia. Qed.

Section carry.
Context (s : dsp_core) (source : dsp_core → acc56) (d : Z).
Context (Hs : regs_ok s) (Hd : is_accu d) (HS : wf56 (source s)).
Context (Hm : 0 ≤ scaling (reg s DSP_REG_SR) < 3).
Let D := load56 s d.
Let S := source s.
Let c := b2z (Z.testbit (reg s DSP_REG_SR) DSP_SR_C).

Lemma adc_spec :
  ∃ s' r, emu_adc source d s = Ok s' ∧ writes_accu d s s' r ∧ wf56 r ∧
    val56 r = (val56 D + val56 S + c) mod 2 ^ 56 ∧
    flags_after s s' r
      (negb (sfits56 (sval56 D + sval56 S + c)) || (sval56 D + sval56 S =? - 2 ^ 55 - 1))
      (2 ^ 56 <=? val56 D + val56 S + c).
Proof.
  pose proof (regs_load56 s d Hs Hd : wf56 D) as HD. assert (W1 : wf56 (Acc56 0 0 1)) by done.
  pose proof (val56_bound D HD) as BD. pose proof (val56_bound S HS) as BS.
  pose proof (sval56_bound D HD) as SD. pose proof (sval56_bound S HS) as SS.
  unfold emu_adc. rewrite sr_carry. fold D S.
  pose proof (add56_val S D HS HD) as [W V]. pose proof (add56_flags S D HS HD) as F.
  destruct (dsp_add56 S D) as [sr1 a]. cbn [fst snd] in *. subst sr1.
  pose proof (add56_val _ a W1 W) as [W' V']. pose proof (add56_flags _ a W1 W) as F'.
  destruct (dsp_add56 _ a) as [sr2 a']. cbn [fst snd] in *. subst sr2.
  assert (Ea : sval56 a = swrap 56 (sval56 S + sval56 D)).
  { rewrite (sval56_wrap a _ W V), <- (Z.mul_1_l (val56 S)), <- (Z.mul_1_l (val56 D)),
      swrap_sval by done. f_equal. ring. }
  change (sval56 (Acc56 0 0 1)) with 1. change (val56 (Acc56 0 0 1)) with 1.
  change (val56 (Acc56 0 0 1)) with 1 in V'.
  rewrite (Z.add_comm (val56 D)), (Z.add_comm (sval56 D)).
  destruct (Z.testbit (reg s DSP_REG_SR) DSP_SR_C); unfold c; cbn [b2z].
  - eexists _, a'. split; [reflexivity |]. split; [apply finish_accu; auto with dsp_frame |].
    split; [done |]. split; [by rewrite V', V, Zplus_mod_idemp_r, Z.add_comm |].
    rewrite sr_lvc_lor, Ea, V, adc_overflow, adc_carry by lia.
    apply finish_flags; auto using reg_store56_ne, sr_not_accu.
  - eexists _, a. split; [reflexivity |]. split; [apply finish_accu; auto with dsp_frame |].
    rewrite !Z.add_0_r, <- no_carry_overflow by lia. split; [done |]. split; [done |].
    apply finish_flags; auto using reg_store56_ne, sr_not_accu.
Qed.

Lemma sbc_spec :
  ∃ s' r, emu_sbc source d s = Ok s' ∧ writes_accu d s s' r ∧ wf56 r ∧
    val56 r = (val56 D - val56 S - c) mod 2 ^ 56 ∧
    flags_after s s' r
      (negb (sfits56 (sval56 D - sval56 S - c)) || (sval56 D - sval56 S =? 2 ^ 55))
      (val56 D <? val56 S + c).
Proof.
  pose proof (regs_load56 s d Hs Hd : wf56 D) as HD. assert (W1 : wf56 (Acc56 0 0 1)) by done.
  pose proof (val56_bound D HD) as BD. pose proof (val56_bound S HS) as BS.
  pose proof (sval56_bound D HD) as SD. pose proof (sval56_bound S HS) as SS.
  unfold emu_sbc. rewrite sr_carry. fold D S.
  pose proof (sub56_val S D HS HD) as [W V]. pose proof (sub56_flags S D HS HD) as F.
  destruct (dsp_sub56 S D) as [sr1 a]. cbn [fst snd] in *. subst sr1.
  pose proof (sub56_val _ a W1 W) as [W' V']. pose proof (sub56_flags _ a W1 W) as F'.
  destruct (dsp_sub56 _ a) as [sr2 a']. cbn [fst snd] in *. subst sr2.
  assert (Ea : sval56 a = swrap 56 (sval56 D - sval56 S)).
  { rewrite (sval56_wrap a _ W V).
    replace (val56 D - val56 S) with (1 * val56 D + -1 * val56 S) by ring.
    rewrite swrap_sval by done. f_equal. ring. }
  change (sval56 (Acc56 0 0 1)) with 1. change (val56 (Acc56 0 0 1)) with 1.
  change (val56 (Acc56 0 0 1)) with 1 in V'.
  destruct (Z.testbit (reg s DSP_REG_SR) DSP_SR_C); unfold c; cbn [b2z].
  - eexists _, a'. split; [reflexivity |]. split; [apply finish_accu; auto with dsp_frame |].
    split; [done |]. split; [by rewrite V', V, Zminus_mod_idemp_l |].
    rewrite sr_lvc_lor, Ea, V, sbc_overflow, sbc_carry by lia.
    apply finish_flags; auto using reg_store56_ne, sr_not_accu.
  - eexists _, a. split; [reflexivity |]. split; [apply finish_accu; auto with dsp_frame |].
    rewrite Z.add_0_r, !Z.sub_0_r, <- no_carry_overflow by lia. split; [done |]. split; [done |].
    apply finish_flags; auto using reg_store56_ne, sr_not_accu.
Qed.
End carry.

(** ADC and SBC add and subtract with the carry bit, modulo 2^56, and report
    the carry or borrow of the three-operand result.  They run the addition in two
    steps and merge the flags: V is set on signed overflow, and also in the one
    case where the first step overflows and the carry brings the result back. *)
Theorem emu_adc_sbc_correct s source d :
  regs_ok s → is_accu d → wf56 (source s) → 0 ≤ scaling (reg s DSP_REG_SR) < 3 →
  let D := load56 s d in
  let S := source s in
  let c := b2z (Z.testbit (reg s DSP_REG_SR) DSP_SR_C) in
  (∃ s' r, emu_adc source d s = Ok s' ∧ writes_accu d s s' r ∧ wf56 r ∧
     val56 r = (val56 D + val56 S + c) mod 2 ^ 56 ∧
     flags_after s s' r
       (negb (sfits56 (sval56 D + sval56 S + c)) || (sval56 D + sval56 S =? - 2 ^ 55 - 1))
       (2 ^ 56 <=? val56 D + val56 S + c)) ∧
  (∃ s' r, emu_sbc source d s = Ok s' ∧ writes_accu d s s' r ∧ wf56 r ∧
     val56 r = (val56 D - val56 S - c) mod 2 ^ 56 ∧
     flags_after s s' r
       (negb (sfits56 (sval56 D - sval56 S - c)) || (sval56 D - sval56 S =? 2 ^ 55))
       (val56 D <? val56 S + c)).
Proof. intros Hs Hd HS Hm D S c. split; [by apply adc_spec | by apply sbc_spec]. Qed.

Lemma emu_adc_sbc_witness :
  ∃ s' r, emu_adc (source_word DSP_REG_X0) ACC_A (or_sr alu_sample 1) = Ok s' ∧
          load56 s' ACC_A = r ∧ val56 r = 0x600000 * 2 ^ 24 + 6.
Proof.
  destruct (emu_adc_sbc_correct (or_sr alu_sample 1) (source_word DSP_REG_X0) ACC_A
    (or_sr_fit reg_bits reg_bits_alu alu_sample 1 alu_sample_ok ltac:(lia)) (or_introl eq_refl) ltac:(done)
    ltac:(done)) as [(s' & r & E & [HL _] & _ & V & _) _].
  exists s', r. split; [exact E |]. split; [exact HL |]. rewrite V. reflexivity.
Defined.

Lemma scaling_or sr v : 0 ≤ v < 2 ^ 8 → scaling (sr .| v) = scaling sr.
Proof.
  intros Hv. unfold scaling. rewrite !land_BITMASK by done. apply Z.bits_inj'. intros i Hi.
  rewrite !Z.testbit_mod_pow2 by done. destruct (Z.ltb_spec i 2); [| done]. cbn [andb].
  rewrite !Z.shiftr_spec, Z.lor_spec by done.
  rewrite (small_high v) by (done || unfold DSP_SR_S0; lia). apply orb_false_r.
Qed.

(** Flags set before the CCR update: V from [o], C from [c], L from [l]. *)
Definition flags_shift (s s' : dsp_core) (a : acc56) (l o c : bool) : Prop :=
  let sr := reg s DSP_REG_SR in
  let bit k := Z.testbit (reg s' DSP_REG_SR) k in
  bit DSP_SR_C = c ∧ bit DSP_SR_V = o ∧ bit DSP_SR_L = Z.testbit sr DSP_SR_L || l ∧
  bit DSP_SR_N = (sval56 a <? 0) ∧ bit DSP_SR_Z = (sval56 a =? 0) ∧
  bit DSP_SR_E = flag_e (scaling sr) a ∧ bit DSP_SR_U = flag_u (scaling sr) a.

Lemma finish_shift s s1 a m v c :
  reg s1 DSP_REG_SR = reg s DSP_REG_SR → wf56 a → 0 ≤ scaling (reg s DSP_REG_SR) < 3 →
  0 ≤ m < 2 ^ 8 → 0 ≤ v < 2 ^ 8 → Z.testbit m DSP_SR_L = false → Z.testbit m DSP_SR_V = true →
  Z.testbit (reg s DSP_REG_SR) DSP_SR_C && negb (Z.testbit m DSP_SR_C)
    || Z.testbit v DSP_SR_C = c →
  flags_shift s (emu_ccr_update_e_u_n_z (or_sr (clear_sr s1 m) v) a) a
    (Z.testbit v DSP_SR_L) (Z.testbit v DSP_SR_V) c.
Proof.
  intros E Ha Hm Bm Bv Hl Hv <-. unfold flags_shift.
  assert (Es : scaling (reg s DSP_REG_SR .& (BITMASK 16 - m) .| v) = scaling (reg s DSP_REG_SR))
    by (by rewrite scaling_or, scaling_clear).
  rewrite ccr_sr; rewrite ?reg_or_sr, ?reg_clear_sr, ?E, ?Es; [| done..]. unfold ccr_flags.
  split_and!.
  all: rewrite ?Z.lor_spec, ?testbit_clear, ?Z.lor_spec, ?testbit_clear, ?Z.lor_spec by (done || lia);
    rewrite ?testbit_flag, ?Hl, ?Hv by done.
  all: cbn -[Z.testbit flag_e flag_u flag_n flag_z];
    rewrite ?andb_true_r, ?andb_false_r, ?orb_false_r, ?orb_true_r; done.
Qed.

Lemma finish_accu_pre d s a s1 : is_accu d →
  frame [DSP_REG_SR] (store56 s d a) s1 → writes_accu d s (emu_ccr_update_e_u_n_z s1 a) a.
Proof.
  intros Hd F.
  assert (F' : frame [DSP_REG_SR] (store56 s d a) (emu_ccr_update_e_u_n_z s1 a))
    by (eapply frame_trans; [done | apply ccr_frame]).
  split.
  - rewrite (load56_frame _ _ _ _ F') by (by apply accu_not_sr). apply load_store56.
  - eapply frame_trans; (eapply frame_weaken; [| done || apply store56_frame]); set_solver.
Qed.

Lemma shift_sr_bound sr : 0 ≤ sr < 2 ^ 16 → (∀ i, 7 ≤ i → Z.testbit sr i = false) → 0 ≤ sr < 2 ^ 8.
Proof. intros ? Hb. split; [lia |]. apply bits_bound; [done | lia |]. intros. apply Hb. lia. Qed.

(** ASL and ASR by one bit.  ASL doubles modulo 2^56, with C the bit shifted
    out, V set when the sign changes, and L set for every negative operand,
    overflow or not.  ASR halves the unsigned value: the vacated sign bit is
    filled with zero, so a negative accumulator comes out 2^55 too large. *)
Theorem emu_shift_correct s d :
  regs_ok s → is_accu d → 0 ≤ scaling (reg s DSP_REG_SR) < 3 →
  let D := load56 s d in
  (∃ s' r, emu_asl d s = Ok s' ∧ writes_accu d s s' r ∧ wf56 r ∧
     val56 r = (2 * val56 D) mod 2 ^ 56 ∧
     flags_shift s s' r (sval56 D <? 0) (xorb (sval56 D <? 0) (sval56 r <? 0)) (sval56 D <? 0)) ∧
  (∃ s' r, emu_asr d s = Ok s' ∧ writes_accu d s s' r ∧ wf56 r ∧
     sval56 r = sval56 D / 2 + (if sval56 D <? 0 then 2 ^ 55 else 0) ∧
     flags_shift s s' r false false (Z.odd (val56 D))).
Proof.
  intros Hs Hd Hm D. pose proof (regs_load56 s d Hs Hd : wf56 D) as HD.
  assert (E : ∀ a, reg (store56 s d a) DSP_REG_SR = reg s DSP_REG_SR)
    by (intros; apply reg_store56_ne; by apply sr_not_accu).
  assert (B55 : ∀ a, wf56 a → Z.testbit (val56 a) 55 = (sval56 a <? 0)).
  { intros a Ha. pose proof (val56_bound a Ha). rewrite sval56_alt, top_bit by (done || lia).
    destruct Ha as (? & ? & ?). unfold val56 in *. booleans; lia. }
  unfold emu_asl, emu_asr. fold D. split.
  - destruct (asl56_wf D 1 ltac:(lia)) as (sr & r & Er & Wr & Bsr).
    destruct (asl56_spec D 1 HD ltac:(lia)) as (? & ? & Er' & _ & Vr & Cr & Or & Lr & Hr).
    rewrite Er in Er'. injection Er' as <- <-. rewrite Er. cbn [mbind res_bind].
    eexists _, r. split; [reflexivity |]. split; [apply finish_accu_pre; auto with dsp_frame |].
    split; [done |]. split; [by rewrite Vr, Z.mul_comm |].
    rewrite <- (B55 D), <- (B55 r) by done.
    replace (Z.testbit (val56 D) 55) with (Z.testbit sr DSP_SR_L) at 1.
    2: { rewrite Lr, top_bit by (done || by apply val56_bound). pose proof (val56_bound D HD).
         change (56 - 1) with 55. booleans; cbn; try done; exfalso; arith. }
    change 55 with (56 - 1) at 3. rewrite <- Or, <- Cr.
    apply (finish_shift s _ r ((1 .<< DSP_SR_C) .| (1 .<< DSP_SR_V)) sr);
      auto using shift_sr_bound; [done.. | by rewrite andb_false_r].
  - destruct (asr56_spec D 1 HD ltac:(lia)) as (sr & r & Er & Wr & _ & -> & Vr).
    rewrite Er. cbn [mbind res_bind].
    eexists _, r. split; [reflexivity |]. split; [apply finish_accu_pre; auto with dsp_frame |].
    split; [done |]. split; [by rewrite Vr |].
    rewrite <- Z.bit0_odd. change (1 - 1) with 0.
    pose proof (finish_shift s (store56 s d r) r ((1 .<< DSP_SR_C) .| (1 .<< DSP_SR_V))
      (b2z (Z.testbit (val56 D) 0)) (Z.testbit (val56 D) 0)) as F.
    destruct (Z.testbit (val56 D) 0); apply F; try done; by rewrite andb_false_r.
Qed.

Lemma emu_shift_witness :
  ∃ s' r, emu_asl ACC_A alu_sample = Ok s' ∧ load56 s' ACC_A = r ∧ val56 r = 0x800000 * 2 ^ 24 + 10.
Proof.
  destruct (emu_shift_correct alu_sample ACC_A alu_sample_ok (or_introl eq_refl) ltac:(done))
    as [(s' & r & E & [HL _] & _ & V & _) _].
  exists s', r. split; [exact E |]. split; [exact HL |]. rewrite V. reflexivity.
Defined.

Lemma overflowed56_spec a : wf56 a → overflowed56 a = b2z (sval56 a =? - 2 ^ 55).
Proof.
  intros Ha. unfold overflowed56. f_equal. rewrite sval56_alt by done.
  destruct Ha as (? & ? & ?). unfold val56. booleans; cbn; lia.
Qed.

(** ABS and NEG leave the absolute value and the negation of the two's
    complement accumulator modulo 2^56; V and L are set exactly for -2^55, and C
    is kept. *)
Theorem emu_abs_neg_correct s d :
  regs_ok s → is_accu d → 0 ≤ scaling (reg s DSP_REG_SR) < 3 →
  let D := load56 s d in
  let o := sval56 D =? - 2 ^ 55 in
  let c := Z.testbit (reg s DSP_REG_SR) DSP_SR_C in
  (∃ s' r, emu_abs d s = Ok s' ∧ writes_accu d s s' r ∧ wf56 r ∧
     val56 r = Z.abs (sval56 D) ∧ flags_shift s s' r o o c) ∧
  (∃ s' r, emu_neg d s = Ok s' ∧ writes_accu d s s' r ∧ wf56 r ∧
     val56 r = (- sval56 D) mod 2 ^ 56 ∧ flags_shift s s' r o o c).
Proof.
  intros Hs Hd Hm D o c. pose proof (regs_load56 s d Hs Hd : wf56 D) as HD.
  assert (E : ∀ a, reg (store56 s d a) DSP_REG_SR = reg s DSP_REG_SR)
    by (intros; apply reg_store56_ne; by apply sr_not_accu).
  unfold emu_abs, emu_neg. fold D. rewrite overflowed56_spec by done. fold o.
  assert (F : ∀ r, wf56 r → flags_shift s (emu_ccr_update_e_u_n_z (or_sr (clear_sr
    (store56 s d r) (1 .<< DSP_SR_V)) ((b2z o .<< DSP_SR_L) .| (b2z o .<< DSP_SR_V))) r) r o o c).
  { intros r Hr. pose proof (finish_shift s (store56 s d r) r (1 .<< DSP_SR_V)
      ((b2z o .<< DSP_SR_L) .| (b2z o .<< DSP_SR_V)) c) as F.
    destruct o; apply F; try done; by rewrite andb_true_r, orb_false_r. }
  split.
  - pose proof (abs56_spec D HD) as Ha. destruct (dsp_abs56 D) as [sr r]. destruct Ha as (W & V & _).
    eexists _, r. split; [reflexivity |]. split; [apply finish_accu_pre; auto with dsp_frame |].
    split; [done |]. split; [done |]. by apply F.
  - pose proof (sub56_val D zero56 HD ltac:(done)) as [W V]. destruct (dsp_sub56 D zero56) as [sr r].
    eexists _, r. split; [reflexivity |]. split; [apply finish_accu_pre; auto with dsp_frame |].
    split; [done |]. split; [| by apply F]. cbn [snd] in V. rewrite V, sval56_alt by done.
    change (val56 zero56) with 0. pose proof (val56_bound D HD). case_match; arith.
Qed.

Lemma emu_abs_neg_witness :
  ∃ s' r, emu_abs ACC_B alu_sample = Ok s' ∧ load56 s' ACC_B = r ∧ val56 r = 2 ^ 53.
Proof.
  destruct (emu_abs_neg_correct alu_sample ACC_B alu_sample_ok (or_intror eq_refl) ltac:(done))
    as [(s' & r & E & [HL _] & _ & V & _) _].
  exists s', r. split; [exact E |]. split; [exact HL |]. rewrite V. reflexivity.
Defined.

(** MAX.  When the difference does not overflow, B is overwritten exactly when
    A <= B, and with the words of A in reverse order (A2 in B0, A0 in B2): the
    instruction selects the smaller accumulator and garbles it, instead of leaving
    the larger one. *)
Theorem emu_max_reversed s :
  regs_ok s →
  let A := load56 s ACC_A in
  let B := load56 s ACC_B in
  sfits56 (sval56 A - sval56 B) = true →
  ∃ s', emu_max s = Ok s' ∧ load56 s' ACC_A = A ∧
    load56 s' ACC_B = (if sval56 A <=? sval56 B then Acc56 (a2 A) (a1 A) (a0 A) else B) ∧
    Z.testbit (reg s' DSP_REG_SR) DSP_SR_C = (sval56 A <=? sval56 B).
Proof.
  intros Hs A B Hf. pose proof (regs_load56 s ACC_A Hs (or_introl eq_refl) : wf56 A) as HA.
  pose proof (regs_load56 s ACC_B Hs (or_intror eq_refl) : wf56 B) as HB.
  unfold emu_max. fold A B. pose proof (sub56_val B A HB HA) as [W V].
  destruct (dsp_sub56 B A) as [sr r]. cbn [snd] in *.
  assert (Er : sval56 r = sval56 A - sval56 B).
  { rewrite (sval56_wrap r _ W V).
    replace (val56 A - val56 B) with (1 * val56 A + -1 * val56 B) by ring.
    rewrite swrap_sval by done. revert Hf. unfold sfits56.
    intros [?%Z.leb_le ?%Z.ltb_lt]%andb_true_iff. arith. }
  assert (P : nz (a0 r .& (1 .<< 7)) || ((a0 r =? 0) && (a1 r =? 0) && (a2 r =? 0)) =
              (sval56 A <=? sval56 B)).
  { rewrite nz_bit by done. destruct W as (W0 & W1 & W2). rewrite top_bit by lia.
    rewrite sval56_alt in Er by done. unfold val56 in Er. revert Er. booleans; cbn; lia. }
  rewrite P. eexists. split; [reflexivity |].
  set (s1 := if sval56 A <=? sval56 B then _ else s).
  assert (F : frame [DSP_REG_SR] s1 (or_sr (clear_sr s1 (1 .<< DSP_SR_C))
                (b2z (sval56 A <=? sval56 B) .<< DSP_SR_C))) by auto with dsp_frame.
  rewrite !(load56_frame _ _ _ _ F) by (apply accu_not_sr; by (left + right)).
  split; [| split].
  - unfold s1. case_match; [| done]. unfold load56. by rewrite !reg_set_ne.
  - unfold s1. case_match; [| done]. unfold load56, A; cbn [a0 a1 a2 load56].
    change (DSP_REG_A2 + ACC_B) with DSP_REG_B2. change (DSP_REG_A1 + ACC_B) with DSP_REG_B1.
    change (DSP_REG_A0 + ACC_B) with DSP_REG_B0.
    rewrite !reg_set_eq, !(reg_set_ne _ DSP_REG_B2), !reg_set_eq, !(reg_set_ne _ DSP_REG_B1),
      !reg_set_eq, !(reg_set_ne _ DSP_REG_B0) by done. done.
  - rewrite reg_or_sr, reg_clear_sr, Z.lor_spec, testbit_clear, testbit_flag by done.
    destruct (sval56 A <=? sval56 B); [apply orb_true_r | by rewrite andb_false_r].
Qed.

(** A is the smaller: B receives its words, reversed. *)
Lemma emu_max_reversed_witness :
  ∃ s', emu_max alu_sample = Ok s' ∧ load56 s' ACC_B = Acc56 5 0x400000 0.
Proof.
  destruct (emu_max_reversed alu_sample alu_sample_ok eq_refl) as (s' & E & _ & HB & _).
  exists s'. split; [exact E | exact HB].
Defined.
