(* ===== verification/DspAddr.v ===== *)
(** * Address generation of the DSP56300 emulator

    src/hw/xbox/dsp/dsp_emu.inl, "Effective address calculation", and the
    limited read of an accumulator ([emu_pm_read_accu24]) the moves share.  The
    address registers step linearly, modulo a buffer, or in bit-reversed order,
    as the modifier register selects. *)

From S2P Require Import Prelude Dsp56 DspCore DspAlu.

Definition Rn (s : dsp_core) (numreg : Z) : Z := reg s (DSP_REG_R0 + numreg).
Definition Nn (s : dsp_core) (numreg : Z) : Z := reg s (DSP_REG_N0 + numreg).
Definition Mn (s : dsp_core) (numreg : Z) : Z := reg s (DSP_REG_M0 + numreg).
Definition set_Rn (s : dsp_core) (numreg v : Z) : dsp_core := set_reg s (DSP_REG_R0 + numreg) v.

(** ** Bit-reversed update *)

(** [for (revbits=0;revbits<16;revbits++) if (value & (1<<revbits)) break;] *)
Fixpoint scan_revbits (n : nat) (revbits value : Z) : Z :=
  match n with
  | O => revbits
  | S n => if nz (value .& (1 .<< revbits)) then revbits else scan_revbits n (revbits + 1) value
  end.

(** [for (i=0;i<revbits;i++) if (r_reg & (1<<i)) value |= 1<<(revbits-i-1);] *)
Definition reverse_into (revbits r_reg value : Z) : Z :=
  foldl (λ value i, if nz (r_reg .& (1 .<< i)) then value .| (1 .<< (revbits - i - 1)) else value)
    value (seqZ 0 revbits).

Definition emu_update_rn_bitreverse (s : dsp_core) (numreg : Z) : dsp_core :=
  let revbits := scan_revbits 16 0 (Nn s numreg) in
  let revbits := revbits + 1 in
  let high := u32 (BITMASK 16 - BITMASK revbits) in
  let r_reg := Rn s numreg in
  let value := reverse_into revbits r_reg (r_reg .& high) in
  let value := u32 (value + 1) in
  let value := value .& BITMASK revbits in
  let r_reg := r_reg .& high in
  let r_reg := r_reg .| value in
  let value := reverse_into revbits r_reg (r_reg .& high) in
  set_Rn s numreg value.

(** ** Modulo update *)

(** [while (bufsize < modulo) { bufsize <<= 1; bufmask <<= 1; }] *)
Fixpoint grow_buffer (fuel : nat) (bufsize bufmask modulo : Z) : res (Z * Z) :=
  if bufsize <? modulo then
    match fuel with
    | O => Fault out_of_fuel
    | S fuel => grow_buffer fuel (u16 (bufsize .<< 1)) (u16 (bufmask .<< 1)) modulo
    end
  else Ok (bufsize, bufmask).

(** [while (modifier>bufsize) { r_reg += bufsize; modifier -= bufsize; }] *)
Fixpoint step_down (fuel : nat) (r_reg modifier bufsize : Z) : res (Z * Z) :=
  if bufsize <? modifier then
    match fuel with
    | O => Fault out_of_fuel
    | S fuel => step_down fuel (s16 (r_reg + bufsize)) (s16 (modifier - bufsize)) bufsize
    end
  else Ok (r_reg, modifier).

(** [while (modifier<-bufsize) { r_reg -= bufsize; modifier += bufsize; }] *)
Fixpoint step_up (fuel : nat) (r_reg modifier bufsize : Z) : res (Z * Z) :=
  if modifier <? - bufsize then
    match fuel with
    | O => Fault out_of_fuel
    | S fuel => step_up fuel (s16 (r_reg - bufsize)) (s16 (modifier + bufsize)) bufsize
    end
  else Ok (r_reg, modifier).

(** A modifier has 15 magnitude bits and a buffer at least two words, so the
    loops run at most this many times. *)
Definition modulo_fuel : nat := Z.to_nat 32768.

Definition emu_update_rn_modulo (s : dsp_core) (numreg modifier : Z) : res dsp_core :=
  let orig_modifier := modifier in
  let modulo := u16 (Mn s numreg + 1) in
  '(bufsize, bufmask) ← grow_buffer 16 1 (BITMASK 16) modulo;
  let lobound := u16 (Rn s numreg .& bufmask) in
  let hibound := u16 (lobound + modulo - 1) in
  let r_reg := s16 (Rn s numreg) in
  '(r_reg, modifier) ←
    (if modulo <? orig_modifier then
       '(r_reg, modifier) ← step_down modulo_fuel r_reg modifier bufsize;
       step_up modulo_fuel r_reg modifier bufsize
     else Ok (r_reg, modifier));
  let r_reg := s16 (r_reg + modifier) in
  let r_reg :=
    if negb (orig_modifier =? modulo) then
      if hibound <? r_reg then s16 (r_reg - modulo)
      else if r_reg <? lobound then s16 (r_reg + modulo)
      else r_reg
    else r_reg in
  Ok (set_Rn s numreg (u32 r_reg .& BITMASK 16)).

(** ** Register update and effective addresses *)

Definition emu_update_rn (s : dsp_core) (numreg modifier : Z) : res dsp_core :=
  let m_reg := u16 (Mn s numreg) in
  if m_reg =? 65535 then
    let value := s16 (Rn s numreg) in
    let value := s16 (value + modifier) in
    Ok (set_Rn s numreg (u32 value .& BITMASK 16))
  else if m_reg =? 0 then Ok (emu_update_rn_bitreverse s numreg)
  else if m_reg <=? 32767 then emu_update_rn_modulo s numreg modifier
  else Ok s.

(** Returns the C return value (is the operand immediate?), [*dst_addr] and the
    new state. *)
Definition emu_calc_ea (s : dsp_core) (ea_mode : Z) : res (Z * Z * dsp_core) :=
  let value := (ea_mode .>> 3) .& BITMASK 3 in
  let numreg := ea_mode .& BITMASK 3 in
  let cycles2 (s : dsp_core) := s <| instr_cycle := u16 (instr_cycle s + 2) |> in
  match value with
  | 0 => (* (Rx)-Nx *)
      let dst_addr := Rn s numreg in
      s ← emu_update_rn s numreg (s16 (u32 (- Nn s numreg)));
      Ok (0, dst_addr, s)
  | 1 => (* (Rx)+Nx *)
      let dst_addr := Rn s numreg in
      s ← emu_update_rn s numreg (s16 (Nn s numreg));
      Ok (0, dst_addr, s)
  | 2 => (* (Rx)- *)
      let dst_addr := Rn s numreg in
      s ← emu_update_rn s numreg (-1);
      Ok (0, dst_addr, s)
  | 3 => (* (Rx)+ *)
      let dst_addr := Rn s numreg in
      s ← emu_update_rn s numreg 1;
      Ok (0, dst_addr, s)
  | 4 => (* (Rx) *)
      Ok (0, Rn s numreg, s)
  | 5 => (* (Rx+Nx) *)
      let s := cycles2 s in
      let curreg := Rn s numreg in
      s ← emu_update_rn s numreg (s16 (Nn s numreg));
      let dst_addr := Rn s numreg in
      Ok (0, dst_addr, set_Rn s numreg curreg)
  | 6 => (* aa *)
      let s := cycles2 s in
      dst_addr ← read_memory_p s (u32 (pc s + 1));
      let s := s <| cur_inst_len := u32 (cur_inst_len s + 1) |> in
      Ok (b2z (negb (numreg =? 0)), dst_addr, s)
  | 7 => (* -(Rx) *)
      let s := cycles2 s in
      s ← emu_update_rn s numreg (-1);
      Ok (0, Rn s numreg, s)
  | _ => Ok (0, 0, s)
  end.

(** ** Limited read of an accumulator

    Returns the C return value (was it limited?), [*dest] and the new state. *)
Definition emu_pm_read_accu24 (s : dsp_core) (numreg : Z) : Z * Z * dsp_core :=
  let mode := (reg s DSP_REG_SR .>> DSP_SR_S0) .& BITMASK 2 in
  let d := numreg .& 1 in
  let value := u32 (reg s (DSP_REG_A2 + d) .<< 24) in
  let value := u32 (value + reg s (DSP_REG_A1 + d)) in
  let value :=
    match mode with
    | 1 => value .>> 1
    | 2 => u32 (value .<< 1) .| ((reg s (DSP_REG_A0 + d) .>> 23) .& 1)
    | _ => value
    end in
  let value := value .& BITMASK 24 in
  if (reg s (DSP_REG_A2 + d) =? 0) && (value <=? 0x007fffff) then (0, value, s)
  else if (reg s (DSP_REG_A2 + d) =? 0xff) && (0x00800000 <=? value) then (0, value, s)
  else if nz (reg s (DSP_REG_A2 + d) .& (1 .<< 7)) then
    (1, 0x00800000, or_sr s (1 .<< DSP_SR_L))
  else (1, 0x007fffff, or_sr s (1 .<< DSP_SR_L)).

(** ** Limiting *)

Definition clamp24 (z : Z) : Z := Z.max (- 2 ^ 23) (Z.min (2 ^ 23 - 1) z).

(** The accumulator as the 24-bit fraction the scaling mode asks for. *)
Definition scaled (m : Z) (a : acc56) : Z := sval56 a / 2 ^ (24 + scale_shift m).

Lemma accu_index numreg : is_accu (numreg .& 1).
Proof. rewrite land_1. unfold is_accu, ACC_A, ACC_B. pose proof (Z.mod_pos_bound numreg 2). lia. Qed.

(** The limiter on the extension word [x0] and the scaled 24-bit [value] of [v]. *)
Lemma limiter {A} x0 value v (r : A) r' : 0 ≤ x0 < 256 → value = v mod 2 ^ 24 →
  (- 2 ^ 23 ≤ v < 2 ^ 23 ↔
     (x0 = 0 ∧ value ≤ 0x007fffff) ∨ (x0 = 0xff ∧ 0x00800000 ≤ value)) →
  (v < 0 ↔ 128 ≤ x0) →
  (if (x0 =? 0) && (value <=? 0x007fffff) then (0, value, r)
   else if (x0 =? 0xff) && (0x00800000 <=? value) then (0, value, r)
   else if 128 <=? x0 then (1, 0x00800000, r') else (1, 0x007fffff, r')) =
  (b2z (negb (clamp24 v =? v)), clamp24 v mod 2 ^ 24, if negb (clamp24 v =? v) then r' else r).
Proof.
  intros H0 -> Hfit Hneg. unfold clamp24.
  destruct (decide (- 2 ^ 23 ≤ v < 2 ^ 23)) as [Hin | Hout].
  - rewrite (Z.min_r _ v), (Z.max_r _ v), Z.eqb_refl by lia. cbn.
    apply Hfit in Hin as [[-> ?] | [-> ?]]; booleans; cbn; done || lia.
  - assert (Hc : (Z.max (- 2 ^ 23) (Z.min (2 ^ 23 - 1) v) =? v) = false) by (apply Z.eqb_neq; lia).
    rewrite Hc. cbn [negb b2z].
    assert (¬ ((x0 = 0 ∧ v mod 2 ^ 24 ≤ 8388607) ∨ (x0 = 255 ∧ 8388608 ≤ v mod 2 ^ 24))) by (by rewrite <- Hfit).
    destruct (Z.leb_spec 128 x0).
    + rewrite Z.max_l by lia. booleans; cbn; done || lia.
    + rewrite Z.min_l, Z.max_r by lia. booleans; cbn; done || lia.
Qed.

(** without scaling or scaling down, reading an accumulator saturates: it
    returns the scaled two's complement value clamped to 24 bits, and reports
    limiting and sets L exactly when the clamp changed it. *)
Theorem emu_pm_read_accu24_limits s numreg :
  regs_ok s → 0 ≤ scaling (reg s DSP_REG_SR) < 2 →
  let a := load56 s (numreg .& 1) in
  let v := scaled (scaling (reg s DSP_REG_SR)) a in
  let limited := negb (clamp24 v =? v) in
  emu_pm_read_accu24 s numreg =
  (b2z limited, clamp24 v mod 2 ^ 24, if limited then or_sr s (1 .<< DSP_SR_L) else s).
Proof.
  intros Hs Hm a v limited. pose proof (accu_index numreg) as Hd.
  pose proof (regs_load56 s _ Hs Hd : wf56 a) as Ha. pose proof Ha as (H0 & H1 & H2).
  unfold emu_pm_read_accu24. fold (scaling (reg s DSP_REG_SR)).
  change (reg s (DSP_REG_A2 + numreg .& 1)) with (a0 a).
  change (reg s (DSP_REG_A1 + numreg .& 1)) with (a1 a).
  rewrite nz_bit, (top_bit (a0 a) 7), land_BITMASK by lia.
  unfold limited, v, scaled. clear limited v. rewrite sval56_alt by done. unfold val56.
  assert (scaling (reg s DSP_REG_SR) = 0 ∨ scaling (reg s DSP_REG_SR) = 1) as [-> | ->] by lia;
    cbn [scale_shift Z.eqb Pos.eqb Z.add Pos.add Pos.succ]; apply limiter; try lia;
    clearbody a; destruct a as [x0 x1 x2]; cbn [a0 a1 a2] in *.
  all: destruct (Z.leb_spec 128 x0); arith.
Qed.

(** B is above 1.0: it reads as the largest fraction. *)
Lemma emu_pm_read_accu24_limits_witness :
  (emu_pm_read_accu24 alu_sample DSP_REG_B).1 = (1, 0x7fffff).
Proof.
  rewrite (emu_pm_read_accu24_limits alu_sample DSP_REG_B alu_sample_ok ltac:(done)). reflexivity.
Defined.

(** scaling up, the limiter tests only one of the two bits it must: an
    accumulator with extension word 0 and high word 0x800000..0xbfffff, far above
    the largest 24-bit fraction, is returned with its top bit dropped and no
    limiting reported. *)
Theorem emu_pm_read_accu24_scale_up s numreg :
  regs_ok s → scaling (reg s DSP_REG_SR) = 2 →
  let a := load56 s (numreg .& 1) in
  a0 a = 0 → 0x800000 ≤ a1 a < 0xc00000 →
  2 ^ 23 ≤ scaled 2 a ∧ ∃ dest, emu_pm_read_accu24 s numreg = (0, dest, s) ∧ 0 ≤ dest < 2 ^ 23.
Proof.
  intros Hs Hm a E0 E1. pose proof (accu_index numreg) as Hd.
  pose proof (regs_load56 s _ Hs Hd : wf56 a) as Ha. pose proof Ha as (H0 & H1 & H2).
  unfold emu_pm_read_accu24. fold (scaling (reg s DSP_REG_SR)).
  change (reg s (DSP_REG_A2 + numreg .& 1)) with (a0 a).
  change (reg s (DSP_REG_A1 + numreg .& 1)) with (a1 a).
  change (reg s (DSP_REG_A0 + numreg .& 1)) with (a2 a).
  rewrite Hm, E0. unfold scaled. rewrite sval56_alt by done. unfold val56. rewrite E0.
  cbn [scale_shift Z.eqb Pos.eqb Z.leb Z.compare]. split; [arith |].
  rewrite bit_b2z, land_BITMASK by done.
  set (x := u32 (u32 (u32 (0 .<< 24) + a1 a) .<< 1)).
  assert (Ex : x = 2 * a1 a) by (unfold x; arith).
  rewrite Ex. replace (2 * a1 a) with (a1 a .<< 1) by (rewrite shiftl_mul by lia; lia).
  rewrite lor_concat by (done || by destruct (Z.testbit (a2 a) 23)).
  assert (B : 0 ≤ b2z (Z.testbit (a2 a) 23) < 2) by (by destruct (Z.testbit (a2 a) 23)).
  assert ((a1 a * 2 ^ 1 + b2z (Z.testbit (a2 a) 23)) mod 2 ^ 24 < 2 ^ 23) by arith.
  rewrite (proj2 (Z.leb_le _ 0x007fffff)) by lia. cbn [andb]. eexists. split; [reflexivity |].
  split; [apply Z.mod_pos_bound |]; lia.
Qed.

Lemma emu_pm_read_accu24_scale_up_witness :
  ∃ dest, (emu_pm_read_accu24 (with_regs (dsp56k_reset_cpu zero_core)
             [(DSP_REG_SR, 0x800); (DSP_REG_A1, 0xa00000)]) DSP_REG_A).1 = (0, dest) ∧
          0 ≤ dest < 2 ^ 23.
Proof.
  destruct (emu_pm_read_accu24_scale_up (with_regs (dsp56k_reset_cpu zero_core)
    [(DSP_REG_SR, 0x800); (DSP_REG_A1, 0xa00000)]) DSP_REG_A
    ltac:(apply with_regs_fit; [apply reset_fit; [apply reg_bits_mask | apply reg_bits_nonneg] |];
          repeat (apply Forall_cons_2; [done |]); apply Forall_nil_2)
    eq_refl eq_refl ltac:(done)) as (_ & dest & E & Hd).
  exists dest. rewrite E. split; [reflexivity | exact Hd].
Defined.

(** ** Bit-reversed addressing *)

(** The binary digits of a number, the lowest first, and the number with given digits. *)
Definition digits (k x : Z) : list bool := Z.testbit x <$> seqZ 0 k.
Definition number (l : list bool) : Z := foldr (λ b n, 2 * n + Z.b2z b) 0 l.

(** The number with the low [k] digits of [x] in the opposite order. *)
Definition bitrev (k x : Z) : Z := number (reverse (digits k x)).

Lemma number_testbit l j : 0 ≤ j → Z.testbit (number l) j = default false (l !! Z.to_nat j).
Proof.
  revert j. induction l as [| b l IH]; intros j Hj; [apply Z.bits_0 |]. cbn [number foldr].
  destruct (decide (j = 0)) as [-> | N]; [by rewrite Z.testbit_0_r |].
  replace j with (Z.succ (j - 1)) by lia. rewrite Z.testbit_succ_r by lia.
  fold (number l). rewrite IH, Z2Nat.inj_succ by lia. done.
Qed.

Lemma reverse_step k r v (n : nat) j : Z.of_nat n ≤ k → 0 ≤ j →
  Z.testbit (foldl (λ value i,
      if nz (r .& (1 .<< i)) then value .| (1 .<< (k - i - 1)) else value) v (seqZ 0 (Z.of_nat n))) j =
  Z.testbit v j || (k - Z.of_nat n <=? j) && (j <? k) && Z.testbit r (k - 1 - j).
Proof.
  intros Hn Hj. induction n as [| n IH].
  - cbn. booleans; cbn; try lia; by rewrite orb_false_r.
  - rewrite seqZ_S, foldl_app. cbn [foldl]. rewrite Z.add_0_l, nz_bit by lia.
    transitivity
      (Z.testbit v j || (k - Z.of_nat n <=? j) && (j <? k) && Z.testbit r (k - 1 - j)
       || (j =? k - Z.of_nat n - 1) && Z.testbit r (Z.of_nat n)).
    + rewrite <- IH by lia. destruct (Z.testbit r (Z.of_nat n)).
      * change (1 .<< (k - Z.of_nat n - 1)) with (b2z true .<< (k - Z.of_nat n - 1)).
        rewrite Z.lor_spec, testbit_flag by lia. by rewrite andb_true_r.
      * by rewrite andb_false_r, orb_false_r.
    + destruct (Z.eqb_spec j (k - Z.of_nat n - 1)) as [-> |].
      * replace (k - 1 - (k - Z.of_nat n - 1)) with (Z.of_nat n) by lia.
        booleans; cbn; try lia. by rewrite orb_false_r.
      * cbn [andb]. rewrite orb_false_r. booleans; cbn; done || lia.
Qed.

Lemma reverse_into_bits k r v j : 0 ≤ k → 0 ≤ j →
  Z.testbit (reverse_into k r v) j = Z.testbit v j || (j <? k) && Z.testbit r (k - 1 - j).
Proof.
  intros Hk Hj. pose proof (reverse_step k r v (Z.to_nat k) j) as E.
  rewrite Z2Nat.id, Z.sub_diag in E by done. unfold reverse_into. rewrite E by lia.
  by rewrite (proj2 (Z.leb_le 0 j) Hj).
Qed.

Lemma bitrev_spec k x j : 0 ≤ k → 0 ≤ j →
  Z.testbit (bitrev k x) j = (j <? k) && Z.testbit x (k - 1 - j).
Proof.
  intros Hk Hj. unfold bitrev. rewrite number_testbit by done.
  assert (length (digits k x) = Z.to_nat k) as L by (unfold digits; by rewrite length_fmap, length_seqZ).
  destruct (Z.ltb_spec j k); cbn [andb].
  - rewrite reverse_lookup by lia. rewrite L. unfold digits.
    rewrite list_lookup_fmap, lookup_seqZ_lt by lia. cbn. f_equal. lia.
  - by rewrite lookup_ge_None_2 by (rewrite length_reverse; lia).
Qed.

Lemma reverse_into_lor k r v : 0 ≤ k → reverse_into k r v = v .| bitrev k r.
Proof.
  intros Hk. apply Z.bits_inj'. intros j Hj.
  by rewrite Z.lor_spec, bitrev_spec, reverse_into_bits.
Qed.

Lemma bitrev_nonneg k x : 0 ≤ k → 0 ≤ bitrev k x.
Proof.
  intros Hk. apply Z.bits_iff_nonneg_ex. exists k. intros j Hj.
  rewrite bitrev_spec by lia. by rewrite (proj2 (Z.ltb_ge j k)) by lia.
Qed.

Lemma bitrev_bound k x : 0 ≤ k → 0 ≤ bitrev k x < 2 ^ k.
Proof.
  intros Hk. split; [by apply bitrev_nonneg |]. apply bits_bound; [done | by apply bitrev_nonneg |].
  intros j Hj. rewrite bitrev_spec by lia. by rewrite (proj2 (Z.ltb_ge j k)) by lia.
Qed.

Lemma bitrev_mod k x : 0 ≤ k → bitrev k (x mod 2 ^ k) = bitrev k x.
Proof.
  intros Hk. apply Z.bits_inj'. intros j Hj. rewrite !bitrev_spec by done.
  destruct (Z.ltb_spec j k); [| done]. cbn. by rewrite Z.mod_pow2_bits_low by lia.
Qed.

(** Reversal is an involution on [k]-bit values. *)
Lemma bitrev_bitrev k x : 0 ≤ k → 0 ≤ x < 2 ^ k → bitrev k (bitrev k x) = x.
Proof.
  intros Hk Hx. apply Z.bits_inj'. intros j Hj. rewrite bitrev_spec by done.
  destruct (Z.ltb_spec j k); cbn [andb]; [| by rewrite (testbit_high x k)].
  rewrite bitrev_spec by lia. rewrite (proj2 (Z.ltb_lt _ k)) by lia. cbn. f_equal. lia.
Qed.

Lemma scan_revbits_spec n b value k : b ≤ k < b + Z.of_nat n → 0 ≤ b →
  (∀ i, b ≤ i < k → Z.testbit value i = false) → Z.testbit value k = true →
  scan_revbits n b value = k.
Proof.
  revert b. induction n as [| n IH]; intros b Hk Hb Hlow Hbit; [lia |]. cbn [scan_revbits].
  rewrite nz_bit by done. destruct (Z.eq_dec b k) as [-> |]; [by rewrite Hbit |].
  rewrite Hlow by lia. apply IH; [lia | lia | | done]. intros i Hi. apply Hlow. lia.
Qed.

(** A set of disjoint bit fields adds up. *)
Lemma lor_high_low h l k : 0 ≤ k → 0 ≤ l < 2 ^ k → (h * 2 ^ k) .| l = h * 2 ^ k + l.
Proof. intros. rewrite <- shiftl_mul by done. rewrite lor_concat, shiftl_mul by done. done. Qed.

Lemma bitreverse_update s numreg base x k :
  1 ≤ k ≤ 16 → Nn s numreg mod 2 ^ k = 2 ^ (k - 1) →
  0 ≤ base → 0 ≤ x < 2 ^ k → base * 2 ^ k + x < 2 ^ 16 →
  Rn s numreg = base * 2 ^ k + x →
  emu_update_rn_bitreverse s numreg =
  set_Rn s numreg (base * 2 ^ k + bitrev k ((bitrev k x + 1) mod 2 ^ k)).
Proof.
  intros Hk HN Hb Hx Hlt HR. unfold emu_update_rn_bitreverse.
  assert (Hscan : scan_revbits 16 0 (Nn s numreg) = k - 1).
  { apply scan_revbits_spec; [lia | done | |].
    - intros i Hi. rewrite <- (Z.mod_pow2_bits_low _ k), HN by lia.
      apply Z.pow2_bits_false. lia.
    - rewrite <- (Z.mod_pow2_bits_low _ k), HN by lia. apply Z.pow2_bits_true. lia. }
  rewrite Hscan. replace (k - 1 + 1) with k by lia. rewrite HR.
  assert (P : 0 < 2 ^ k ≤ 2 ^ 16) by (split; [| apply Z.pow_le_mono_r]; lia).
  assert (Hroom : base * 2 ^ k + 2 ^ k ≤ 2 ^ 16).
  { assert (E : 2 ^ 16 = 2 ^ (16 - k) * 2 ^ k) by (rewrite <- Z.pow_add_r by lia; f_equal; lia).
    rewrite E in *. assert (base < 2 ^ (16 - k)) by (apply (Z.mul_lt_mono_pos_r (2 ^ k)); lia).
    nia. }
  assert (Hh : u32 (BITMASK 16 - BITMASK k) = 2 ^ 16 - 2 ^ k).
  { unfold BITMASK. rewrite !Z.shiftl_1_l, wrap_small; lia. }
  assert (Hm : ∀ y, 0 ≤ y < 2 ^ k → (base * 2 ^ k + y) mod 2 ^ k = y).
  { intros. rewrite Z.add_comm, Z.mod_add, Z.mod_small by lia. done. }
  assert (Hland : ∀ y, 0 ≤ y < 2 ^ k → (base * 2 ^ k + y) .& (2 ^ 16 - 2 ^ k) = base * 2 ^ k).
  { intros y Hy. rewrite land_high, Hm by lia. lia. }
  rewrite Hh, Hland, !reverse_into_lor by lia.
  assert (Hrev : ∀ y, 0 ≤ y < 2 ^ k → bitrev k (base * 2 ^ k + y) = bitrev k y).
  { intros y Hy. by rewrite <- (bitrev_mod k (_ + _)), Hm by lia. }
  pose proof (bitrev_bound k x ltac:(lia)) as B.
  rewrite (Hrev x), (lor_high_low base (bitrev k x)), land_BITMASK by lia.
  assert (Hv : u32 (base * 2 ^ k + bitrev k x + 1) mod 2 ^ k = (bitrev k x + 1) mod 2 ^ k).
  { rewrite wrap_small by lia. rewrite <- Z.add_assoc, Z.add_comm, Z.mod_add by lia. done. }
  rewrite Hv. set (y := (bitrev k x + 1) mod 2 ^ k).
  assert (0 ≤ y < 2 ^ k) by (apply Z.mod_pos_bound; lia).
  rewrite (lor_high_low base y), (Hland y), (Hrev y), lor_high_low by (lia || apply bitrev_bound; lia).
  done.
Qed.

(** C37: bit-reversed addressing.  With M = 0 and the lowest set bit of N at
    position k-1 (N = 2^(k-1) for an FFT of 2^k points), an update of a register
    that points at entry rev(j) of its buffer moves it to entry rev(j+1 mod 2^k)
    of the same buffer, where rev(x) has the k binary digits of x in the opposite
    order. *)
Theorem emu_update_rn_bitreverse_correct s numreg modifier base j k :
  Mn s numreg = 0 → 1 ≤ k ≤ 16 → Nn s numreg mod 2 ^ k = 2 ^ (k - 1) →
  0 ≤ base → 0 ≤ j < 2 ^ k → base * 2 ^ k + bitrev k j < 2 ^ 16 →
  Rn s numreg = base * 2 ^ k + bitrev k j →
  emu_update_rn s numreg modifier =
  Ok (set_Rn s numreg (base * 2 ^ k + bitrev k ((j + 1) mod 2 ^ k))).
Proof.
  intros HM Hk HN Hb Hj Hlt HR. unfold emu_update_rn. rewrite HM. cbn.
  rewrite (bitreverse_update _ _ base (bitrev k j) k) by (done || apply bitrev_bound; lia).
  by rewrite bitrev_bitrev by lia.
Qed.

(** An FFT of 8 points: entry rev(1) = 4 is followed by rev(2) = 2. *)
Lemma emu_update_rn_bitreverse_witness :
  let s := with_regs (dsp56k_reset_cpu zero_core)
             [(DSP_REG_M0, 0); (DSP_REG_N0, 4); (DSP_REG_R0, 0x104)] in
  emu_update_rn s 0 1 = Ok (set_Rn s 0 0x102).
Proof.
  intros s.
  exact (emu_update_rn_bitreverse_correct s 0 1 0x20 1 3 eq_refl ltac:(lia) eq_refl ltac:(lia)
    ltac:(lia) ltac:(reflexivity) eq_refl).
Defined.

(** ** Modulo addressing *)

(** The loop finds the smallest power of two that holds the buffer. *)
Lemma grow_buffer_spec fuel e modulo :
  0 ≤ e ≤ 15 → modulo ≤ 2 ^ 15 → 15 - e ≤ Z.of_nat fuel →
  ∃ e', e ≤ e' ≤ 15 ∧ modulo ≤ 2 ^ e' ∧ (e' = e ∨ 2 ^ (e' - 1) < modulo) ∧
    grow_buffer fuel (2 ^ e) (2 ^ 16 - 2 ^ e) modulo = Ok (2 ^ e', 2 ^ 16 - 2 ^ e').
Proof.
  revert e. induction fuel as [| fuel IH]; intros e He Hmod Hf.
  - replace e with 15 by lia. exists 15. cbn [grow_buffer].
    rewrite (proj2 (Z.ltb_ge (2 ^ 15) modulo)) by lia. split_and!; auto; lia.
  - cbn [grow_buffer]. destruct (Z.ltb_spec (2 ^ e) modulo) as [Hlt | Hge].
    + assert (e < 15) by (apply (Z.pow_lt_mono_r_iff 2); lia).
      assert (P : 0 < 2 ^ e ∧ 2 ^ (e + 1) ≤ 2 ^ 15 ∧ 2 ^ (e + 1) = 2 * 2 ^ e).
      { rewrite Z.pow_add_r by lia. split_and!; [| rewrite <- Z.pow_add_r by lia; apply Z.pow_le_mono_r |]; lia. }
      destruct P as (P0 & P1 & P2).
      assert (u16 (2 ^ e .<< 1) = 2 ^ (e + 1)) as -> by (rewrite shiftl_mul, wrap_small by lia; lia).
      assert (u16 ((2 ^ 16 - 2 ^ e) .<< 1) = 2 ^ 16 - 2 ^ (e + 1)) as ->.
      { rewrite shiftl_mul by lia. unfold wrap. symmetry. apply Z.mod_unique with 1; lia. }
      destruct (IH (e + 1)) as (e' & He' & Hm' & Hor & ->); [lia.. |].
      exists e'. split_and!; try lia; [| done]. right. destruct Hor as [-> |]; [| done].
      by replace (e + 1 - 1) with e by lia.
    + exists e. split_and!; auto; lia.
Qed.

Lemma step_down_ok fuel r m b : 0 < b → m < 2 ^ 15 → m ≤ Z.of_nat fuel →
  ∃ r' m', step_down fuel r m b = Ok (r', m') ∧ m' ≤ b ∧ (m' = m ∨ 0 < m').
Proof.
  intros Hb. revert r m. induction fuel as [| fuel IH]; intros r m Hm Hf; cbn [step_down].
  - rewrite (proj2 (Z.ltb_ge b m)) by lia. do 2 eexists. split_and!; auto. lia.
  - destruct (Z.ltb_spec b m); [| do 2 eexists; split_and!; auto].
    assert (s16 (m - b) = m - b) as -> by arith.
    destruct (IH (s16 (r + b)) (m - b)) as (r' & m' & E & Hle & Hor); [lia.. |].
    do 2 eexists. split_and!; [done | done |]. right. lia.
Qed.

Lemma step_up_none fuel r m b : - b ≤ m → step_up fuel r m b = Ok (r, m).
Proof. intros. destruct fuel; cbn [step_up]; by rewrite (proj2 (Z.ltb_ge m (- b))) by lia. Qed.

Lemma modulo_buffer modulo : 2 ≤ modulo ≤ 2 ^ 15 →
  ∃ e, 1 ≤ e ≤ 15 ∧ 2 ^ (e - 1) < modulo ≤ 2 ^ e ∧
    grow_buffer 16 1 (BITMASK 16) modulo = Ok (2 ^ e, 2 ^ 16 - 2 ^ e).
Proof.
  intros Hm. destruct (grow_buffer_spec 16 0 modulo) as (e & He & Hle & Hor & E); [lia.. |].
  assert (e ≠ 0) by (intros ->; cbn in Hle; lia).
  exists e. split_and!; [lia | lia | | done | done]. destruct Hor; [lia | done].
Qed.


(** A modulo update always completes, with a 16-bit address. *)
Lemma modulo_total s numreg modifier : 1 ≤ Mn s numreg ≤ 32767 → - 2 ^ 15 ≤ modifier < 2 ^ 15 →
  ∃ v, 0 ≤ v < 2 ^ 16 ∧ emu_update_rn_modulo s numreg modifier = Ok (set_Rn s numreg v).
Proof.
  intros HM Hmod. unfold emu_update_rn_modulo.
  rewrite (wrap_small 16 (Mn s numreg + 1)) by lia.
  destruct (modulo_buffer (Mn s numreg + 1)) as (e & He & Hb & ->); [lia |]. cbn [mbind res_bind].
  assert (0 < 2 ^ e) by (apply Z.pow_pos_nonneg; lia).
  destruct (Z.ltb_spec (Mn s numreg + 1) modifier).
  - destruct (step_down_ok modulo_fuel (s16 (Rn s numreg)) modifier (2 ^ e))
      as (r & m & -> & Hle & Hor); [lia | lia | unfold modulo_fuel; lia |]. cbn [mbind res_bind].
    rewrite step_up_none by lia. eexists. split; [| reflexivity]. by apply masked_bound.
  - eexists. split; [| reflexivity]. by apply masked_bound.
Qed.



(** ** Effective addresses *)

Lemma linear_update s numreg modifier : Mn s numreg = 65535 →
  emu_update_rn s numreg modifier = Ok (set_Rn s numreg ((Rn s numreg + modifier) mod 2 ^ 16)).
Proof.
  intros HM. unfold emu_update_rn. rewrite HM. cbn [u16]. do 2 f_equal. arith.
Qed.

Lemma ea_fields mode numreg : 0 ≤ mode < 8 → 0 ≤ numreg < 8 →
  ((mode * 8 + numreg) .>> 3) .& BITMASK 3 = mode ∧ (mode * 8 + numreg) .& BITMASK 3 = numreg.
Proof. intros. split; arith. Qed.

(** the effective address modes with linear addressing (M = 0xffff): the address
    each mode yields and the register update it leaves, modulo 2^16; post-update
    modes yield the old register, pre-decrement the new one, and indexed
    addressing restores the register. *)
Theorem emu_calc_ea_linear s numreg :
  0 ≤ numreg < 8 → Mn s numreg = 65535 →
  let R := Rn s numreg in
  let N := Nn s numreg in
  let s2 := s <| instr_cycle := u16 (instr_cycle s + 2) |> in
  emu_calc_ea s (0 * 8 + numreg) = Ok (0, R, set_Rn s numreg ((R - N) mod 2 ^ 16)) ∧
  emu_calc_ea s (1 * 8 + numreg) = Ok (0, R, set_Rn s numreg ((R + N) mod 2 ^ 16)) ∧
  emu_calc_ea s (2 * 8 + numreg) = Ok (0, R, set_Rn s numreg ((R - 1) mod 2 ^ 16)) ∧
  emu_calc_ea s (3 * 8 + numreg) = Ok (0, R, set_Rn s numreg ((R + 1) mod 2 ^ 16)) ∧
  emu_calc_ea s (4 * 8 + numreg) = Ok (0, R, s) ∧
  emu_calc_ea s (5 * 8 + numreg) = Ok (0, (R + N) mod 2 ^ 16, set_Rn s2 numreg R) ∧
  emu_calc_ea s (7 * 8 + numreg) =
    Ok (0, (R - 1) mod 2 ^ 16, set_Rn s2 numreg ((R - 1) mod 2 ^ 16)).
Proof.
  intros Hn HM R N s2. assert (HM2 : Mn s2 numreg = 65535) by done.
  unfold emu_calc_ea. fold s2.
  destruct (ea_fields 0 numreg ltac:(lia) Hn) as [-> ->].
  destruct (ea_fields 1 numreg ltac:(lia) Hn) as [-> ->].
  destruct (ea_fields 2 numreg ltac:(lia) Hn) as [-> ->].
  destruct (ea_fields 3 numreg ltac:(lia) Hn) as [-> ->].
  destruct (ea_fields 4 numreg ltac:(lia) Hn) as [-> ->].
  destruct (ea_fields 5 numreg ltac:(lia) Hn) as [-> ->].
  destruct (ea_fields 7 numreg ltac:(lia) Hn) as [-> ->].
  rewrite !linear_update by done. cbn [mbind res_bind]. fold R N.
  change (Rn s2 numreg) with R. change (Nn s2 numreg) with N.
  assert (E1 : (R + s16 (u32 (- N))) mod 2 ^ 16 = (R - N) mod 2 ^ 16) by arith.
  assert (E2 : (R + s16 N) mod 2 ^ 16 = (R + N) mod 2 ^ 16) by arith.
  assert (E3 : ∀ s v, Rn (set_Rn s numreg v) numreg = v) by (intros; apply reg_set_eq).
  rewrite E1, E2, !E3. unfold set_Rn. rewrite set_set_reg. split_and!; done.
Qed.

Lemma emu_calc_ea_linear_witness :
  let s := with_regs (dsp56k_reset_cpu zero_core) [(DSP_REG_R0, 0); (DSP_REG_N0, 3)] in
  emu_calc_ea s (2 * 8) = Ok (0, 0, set_Rn s 0 0xffff).
Proof.
  intros s. destruct (emu_calc_ea_linear s 0 ltac:(lia) eq_refl) as (_ & _ & H & _). exact H.
Defined.

(** bit-reversed update with N = 0.  The scan for the lowest set bit of N runs
    off its 16 bits, so the reversal covers 17: the update adds 0x10000 to the
    16-bit address register instead of stepping it. *)
Theorem emu_update_rn_bitreverse_n0 s numreg modifier :
  Mn s numreg = 0 → Nn s numreg = 0 → 0 ≤ Rn s numreg < 2 ^ 16 →
  emu_update_rn s numreg modifier = Ok (set_Rn s numreg (Rn s numreg + 2 ^ 16)).
Proof.
  intros HM HN HR. unfold emu_update_rn. rewrite HM. cbn [u16 wrap]. change (u16 0) with 0.
  cbn [Z.eqb]. f_equal. unfold emu_update_rn_bitreverse. rewrite HN.
  change (scan_revbits 16 0 0 + 1) with 17. change (u32 (BITMASK 16 - BITMASK 17)) with (2 ^ 32 - 2 ^ 16).
  set (r := Rn s numreg) in *.
  assert (r .& (2 ^ 32 - 2 ^ 16) = 0) as -> by (rewrite land_high, Z.mod_small by lia; lia).
  rewrite !reverse_into_lor, !Z.lor_0_l by lia.
  pose proof (bitrev_bound 17 r ltac:(lia)) as Hb.
  assert (H0 : bitrev 17 r mod 2 = 0).
  { rewrite <- Z.bit0_mod, bitrev_spec by done. by rewrite (testbit_high r 16). }
  rewrite wrap_small, land_BITMASK, Z.mod_small by arith.
  assert (bitrev 17 r + 1 = bitrev 17 r .| 1) as -> by (symmetry; apply lor_add; by rewrite land_1).
  f_equal. transitivity (r .| 2 ^ 16).
  2: { rewrite Z.lor_comm. change (2 ^ 16) with (1 * 2 ^ 16). rewrite lor_high_low by lia. lia. }
  assert (T1 : ∀ i, 0 ≤ i → Z.testbit 1 i = (i =? 0)) by (intros; by apply (testbit_flag true 0)).
  apply Z.bits_inj'. intros j Hj.
  rewrite !Z.lor_spec, Z.land_spec, bitrev_spec, Z.pow2_bits_eqb by done.
  destruct (Z.lt_trichotomy j 16) as [Hlt | [-> | Hgt]].
  - rewrite (proj2 (Z.ltb_lt j 17)), (proj2 (Z.eqb_neq 16 j)) by lia.
    change (2 ^ 32 - 2 ^ 16) with (65535 * 2 ^ 16). rewrite Z.mul_pow2_bits_low, andb_false_r by lia.
    rewrite Z.lor_spec, bitrev_spec, T1, (proj2 (Z.ltb_lt _ 17)), (proj2 (Z.eqb_neq _ 0)) by lia.
    cbn [andb orb]. rewrite !orb_false_r. f_equal. lia.
  - cbn -[Z.testbit]. change (17 - 1 - 16) with 0. rewrite !Z.lor_spec, !T1 by lia. cbn [Z.eqb].
    by rewrite !orb_true_r.
  - rewrite Z.lor_spec, bitrev_spec, T1, (proj2 (Z.ltb_ge j 17)), (proj2 (Z.eqb_neq j 0)),
      (proj2 (Z.eqb_neq 16 j)), (testbit_high r 16 j) by lia. done.
Qed.

Lemma emu_update_rn_bitreverse_n0_witness :
  let s := with_regs (dsp56k_reset_cpu zero_core) [(DSP_REG_M0, 0); (DSP_REG_R0, 0x10)] in
  emu_update_rn s 0 1 = Ok (set_Rn s 0 0x10010).
Proof.
  intros s. exact (emu_update_rn_bitreverse_n0 s 0 1 eq_refl eq_refl ltac:(split; [discriminate | reflexivity])).
Defined.

(** *** Widths of what address generation yields *)

Lemma land_bound_l a b n : 0 ≤ n → 0 ≤ a < 2 ^ n → 0 ≤ a .& b < 2 ^ n.
Proof. intros. rewrite Z.land_comm. by apply land_bound. Qed.

Lemma scan_revbits_bound n b value : 0 ≤ b → b ≤ scan_revbits n b value ≤ b + Z.of_nat n.
Proof.
  revert b. induction n as [| n IH]; intros b Hb; cbn [scan_revbits]; [lia |].
  case_match; [lia |]. specialize (IH (b + 1)). lia.
Qed.

Section widths.
Context (w : Z → Z) (Hr : ∀ numreg, 0 ≤ numreg < 8 → w (DSP_REG_R0 + numreg) = 24).
Context (Hm : ∀ numreg, 0 ≤ numreg < 8 → w (DSP_REG_M0 + numreg) = 16).
Implicit Types s : dsp_core.

Lemma Rn_bound s numreg : regs_fit w s → 0 ≤ numreg < 8 → 0 ≤ Rn s numreg < 2 ^ 24.
Proof. intros (Hs & _ & _) Hn. rewrite <- (Hr numreg Hn). apply Hs. unfold DSP_REG_R0. lia. Qed.

Lemma Mn_bound s numreg : regs_fit w s → 0 ≤ numreg < 8 → 0 ≤ Mn s numreg < 2 ^ 16.
Proof. intros (Hs & _ & _) Hn. rewrite <- (Hm numreg Hn). apply Hs. unfold DSP_REG_M0. lia. Qed.

Lemma set_Rn_fit s numreg v : regs_fit w s → 0 ≤ numreg < 8 → 0 ≤ v < 2 ^ 24 →
  regs_fit w (set_Rn s numreg v).
Proof.
  intros Hs Hn Hv. apply set_reg_fit; [done | unfold DSP_REG_R0; lia |]. by rewrite Hr.
Qed.

Lemma bitreverse_fit s numreg : regs_fit w s → 0 ≤ numreg < 8 →
  regs_fit w (emu_update_rn_bitreverse s numreg).
Proof.
  intros Hs Hn. unfold emu_update_rn_bitreverse. pose proof (Rn_bound s numreg Hs Hn) as HR.
  pose proof (scan_revbits_bound 16 0 (Nn s numreg) ltac:(lia)) as Hb.
  set (k := scan_revbits 16 0 (Nn s numreg) + 1) in *.
  apply set_Rn_fit; [done | done |]. rewrite !reverse_into_lor by lia.
  assert (Hk : ∀ x, 0 ≤ x < 2 ^ k → 0 ≤ x < 2 ^ 24).
  { intros x Hx. assert (2 ^ k ≤ 2 ^ 24) by (apply Z.pow_le_mono_r; lia). lia. }
  apply lor_bound; [done | | apply Hk, bitrev_bound; lia].
  apply land_bound_l; [done |]. apply lor_bound; [done | by apply land_bound_l |].
  apply Hk, masked_bound. lia.
Qed.

(** What an instruction may assume of an address register update. *)
Lemma update_rn_fit s numreg modifier :
  regs_fit w s → 0 ≤ numreg < 8 → - 2 ^ 15 ≤ modifier < 2 ^ 15 →
  ∃ s', emu_update_rn s numreg modifier = Ok s' ∧ regs_fit w s' ∧
        s' = s <| registers := registers s' |>.
Proof.
  intros Hs Hn Hmod. pose proof (Mn_bound s numreg Hs Hn). unfold emu_update_rn.
  rewrite (wrap_small 16) by lia.
  destruct (Z.eqb_spec (Mn s numreg) 65535).
  { eexists. split; [reflexivity |]. split; [| done]. apply set_Rn_fit; [done | done |].
    pose proof (masked_bound (u32 (s16 (s16 (Rn s numreg) + modifier))) 16). lia. }
  destruct (Z.eqb_spec (Mn s numreg) 0).
  { eexists. split; [reflexivity |]. split; [by apply bitreverse_fit | done]. }
  destruct (Z.leb_spec (Mn s numreg) 32767).
  { destruct (modulo_total s numreg modifier) as (v & Hv & ->); [lia | done |].
    eexists. split; [reflexivity |]. split; [apply set_Rn_fit; done || lia | done]. }
  eexists. split; [reflexivity |]. split; [done | by destruct s].
Qed.

End widths.
