(* ===== verification/DspCpu.v ===== *)
(** * The instruction monad of the DSP56300 emulator

    An instruction of src/hw/xbox/dsp/dsp_emu.inl is a C function that reads and
    writes the core, may reach the peripherals through memory accesses, and may
    abort: a state and error monad over the core and the peripheral state. *)

From S2P Require Import Prelude Dsp56 DspCore DspAlu DspAddr.

Definition cpu (P A : Type) : Type := dsp_core → P → res (A * dsp_core * P).

#[global] Instance cpu_ret P : MRet (cpu P) := λ A a s p, Ok (a, s, p).
#[global] Instance cpu_bind P : MBind (cpu P) := λ A B f m s p,
  match m s p with Ok (a, s, p) => f a s p | Fault e => Fault e end.

(** ** Access to the core *)

Definition getf {P A} (f : dsp_core → A) : cpu P A := λ s p, Ok (f s, s, p).
Definition modify {P} (f : dsp_core → dsp_core) : cpu P () := λ s p, Ok (tt, f s, p).

(** Functions of the core alone: one that mutates it, one that also returns
    values, one that only reads. *)
Definition on_core {P} (f : dsp_core → res dsp_core) : cpu P () := λ s p,
  match f s with Ok s => Ok (tt, s, p) | Fault e => Fault e end.
Definition from_core {P A} (f : dsp_core → res (A * dsp_core)) : cpu P A := λ s p,
  match f s with Ok (a, s) => Ok (a, s, p) | Fault e => Fault e end.
Definition lift {P A} (r : res A) : cpu P A := λ s p,
  match r with Ok a => Ok (a, s, p) | Fault e => Fault e end.

(** [dsp->registers[r]] with an index from the instruction word; the array has 64
    entries. *)
Definition reg_index (r : Z) : bool := (0 <=? r) && (r <? 64).
Definition rget {P} (r : Z) : cpu P Z := λ s p,
  if reg_index r then Ok (reg s r, s, p) else Fault out_of_bounds.
Definition rset {P} (r v : Z) : cpu P () := λ s p,
  if reg_index r then Ok (tt, set_reg s r v, p) else Fault out_of_bounds.

(** [registers_mask[r]]. *)
Definition mask_of {P} (r : Z) : cpu P Z :=
  lift (match registers_mask !! Z.to_nat r with Some b => Ok b | None => Fault out_of_bounds end).

Definition set_pc {P} (v : Z) : cpu P () := modify (λ s, s <| pc := v |>).
Definition set_inst_len {P} (v : Z) : cpu P () := modify (λ s, s <| cur_inst_len := v |>).
(** [cur_inst_len++] and [instr_cycle += n]. *)
Definition inst_len_inc {P} : cpu P () :=
  modify (λ s, s <| cur_inst_len := u32 (cur_inst_len s + 1) |>).
Definition add_cycle {P} (n : Z) : cpu P () :=
  modify (λ s, s <| instr_cycle := u16 (instr_cycle s + n) |>).

(** [read_memory_p(dsp, dsp->pc+1)], the second word of the instruction. *)
Definition fetch_p {P} (address : Z) : cpu P Z := λ s p,
  match read_memory_p s address with Ok v => Ok (v, s, p) | Fault e => Fault e end.
Definition next_word {P} : cpu P Z :=
  pc ← getf pc;
  fetch_p (u32 (pc + 1)).

Definition calc_ea {P} (ea_mode : Z) : cpu P (Z * Z) := from_core (λ s, emu_calc_ea s ea_mode).
(** The limited read returns (limited?, value). *)
Definition read_accu24 {P} (numreg : Z) : cpu P (Z * Z) :=
  from_core (λ s, Ok (emu_pm_read_accu24 s numreg)).
Definition stack_push {P} (curpc cursr sshOnly : Z) : cpu P () :=
  on_core (λ s, dsp_stack_push s curpc cursr sshOnly).
Definition stack_pop {P} : cpu P (Z * Z) := from_core dsp_stack_pop.
Definition write_reg {P} (numreg value : Z) : cpu P () := on_core (λ s, dsp_write_reg s numreg value).
Definition calc_cc {P} (cc_code : Z) : cpu P bool := getf (λ s, emu_calc_cc s cc_code).

(** [registers[SR] &= BITMASK(16) - mask] and [registers[SR] |= v]. *)
Definition sr_clear {P} (mask : Z) : cpu P () := modify (λ s, clear_sr s mask).
Definition sr_or {P} (v : Z) : cpu P () := modify (λ s, or_sr s v).
Definition ccr_update {P} (a : acc56) : cpu P () := modify (λ s, emu_ccr_update_e_u_n_z s a).

(** Load and store accumulator [d] (0 for A, 1 for B) as [uint32_t[3]]. *)
Definition accu_load {P} (d : Z) : cpu P acc56 := getf (λ s, load56 s d).
Definition accu_store {P} (d : Z) (a : acc56) : cpu P () := modify (λ s, store56 s d a).

Section peripherals.
Context `{Peripherals P}.

Definition mem_read (space address : Z) : cpu P Z := λ s p,
  match dsp56k_read_memory s p space address with
  | Ok v => Ok (v, s, p)
  | Fault e => Fault e
  end.

Definition mem_write (space address value : Z) : cpu P () := λ s p,
  match dsp56k_write_memory s p space address value with
  | Ok (s, p) => Ok (tt, s, p)
  | Fault e => Fault e
  end.

End peripherals.

(** [opcodes_alu[dsp->cur_inst & BITMASK(8)](dsp)]. *)
Definition execute_alu {P} : cpu P () :=
  inst ← getf cur_inst;
  match opcodes_alu !! Z.to_nat (inst .& BITMASK 8) with
  | Some f => on_core f
  | None => lift (Fault out_of_bounds)
  end.

(** [registers[A0+d] = 0; registers[A1+d] = v; registers[A2+d] = v & (1<<23) ? 0xff : 0]:
    a 24-bit value moved to an accumulator. *)
Definition accu_move {P} (d v : Z) : cpu P () :=
  rset (DSP_REG_A0 + d) 0;;
  rset (DSP_REG_A1 + d) v;;
  rset (DSP_REG_A2 + d) (ext24 v).

(** The registers an operand field can name: an accumulator is read limited. *)
Definition is_ab (numreg : Z) : bool := (numreg =? DSP_REG_A) || (numreg =? DSP_REG_B).

Definition read_operand {P} (numreg : Z) : cpu P Z :=
  if is_ab numreg then '(_, value) ← read_accu24 numreg; mret value else rget numreg.
