(* ===== verification/DspMove.v ===== *)
(** * Parallel moves of the DSP56300 emulator

    src/hw/xbox/dsp/dsp_emu.inl, [emu_pm_0] to [emu_pm_8] and the dispatch table
    [opcodes_parmove]: an instruction word above 0x100000 moves data while the
    data ALU operation in its low byte runs.  Sources are read before the ALU
    operation and destinations written after it. *)

From S2P Require Import Prelude Dsp56 DspCore DspAlu DspAddr DspCpu.

Section moves.
Context `{Peripherals P}.

Definition emu_pm_0 : cpu P () :=
  inst ← getf cur_inst;
  let memspace := (inst .>> 15) .& 1 in
  let numreg := (inst .>> 16) .& 1 in
  '(_, addr) ← calc_ea ((inst .>> 8) .& BITMASK 6);
  (* Save A or B *)
  '(_, save_accu) ← read_accu24 numreg;
  (* Save X0 or Y0 *)
  save_xy0 ← rget (DSP_REG_X0 + (memspace .<< 1));
  execute_alu;;
  (* Move [A|B] to [x|y]:ea *)
  mem_write memspace addr save_accu;;
  (* Move [x|y]0 to [A|B] *)
  rset (DSP_REG_A0 + numreg) 0;;
  rset (DSP_REG_A1 + numreg) save_xy0;;
  rset (DSP_REG_A2 + numreg) (ext24 save_xy0).

(** The two-bit register fields of the X and Y moves. *)
Definition x_field (f : Z) : Z :=
  match f with
  | 0 => DSP_REG_X0
  | 1 => DSP_REG_X1
  | 2 => DSP_REG_A
  | 3 => DSP_REG_B
  | _ => DSP_REG_NULL
  end.
Definition y_field (f : Z) : Z :=
  match f with
  | 0 => DSP_REG_Y0
  | 1 => DSP_REG_Y1
  | 2 => DSP_REG_A
  | 3 => DSP_REG_B
  | _ => DSP_REG_NULL
  end.

Definition emu_pm_1 : cpu P () :=
  inst ← getf cur_inst;
  let value := (inst .>> 8) .& BITMASK 6 in
  '(retour, xy_addr) ← calc_ea value;
  let memspace := (inst .>> 14) .& 1 in
  let numreg1 :=
    if nz memspace then (* Y: *) y_field ((inst .>> 16) .& BITMASK 2)
    else (* X: *) x_field ((inst .>> 18) .& BITMASK 2) in
  save_1 ← (if nz (inst .& (1 .<< 15)) then
              (* Write D1 *)
              if nz retour then mret xy_addr else mem_read memspace xy_addr
            else (* Read S1 *) read_operand numreg1);
  (* S2 *)
  let numreg2 :=
    if nz memspace then DSP_REG_A + ((inst .>> 19) .& 1)
    else DSP_REG_A + ((inst .>> 17) .& 1) in
  '(_, save_2) ← read_accu24 numreg2;
  execute_alu;;
  (* Write parallel move values *)
  (if nz (inst .& (1 .<< 15)) then
     (* Write D1: the closing brace of the last else precedes its body, so the
        register is written whatever numreg1 is *)
     (if numreg1 =? DSP_REG_A then accu_move ACC_A save_1
      else if numreg1 =? DSP_REG_B then accu_move ACC_B save_1
      else mret tt);;
     rset numreg1 save_1
   else (* Read S1 *) mem_write memspace xy_addr save_1);;
  (* S2 -> D2 *)
  let numreg2 :=
    if nz memspace then DSP_REG_X0 + ((inst .>> 18) .& 1)
    else DSP_REG_Y0 + ((inst .>> 16) .& 1) in
  rset numreg2 save_2.

(** Move [v] to register [dstreg]: an accumulator is sign-extended, another
    register masked to its width. *)
Definition write_dest (dstreg v : Z) : cpu P () :=
  if dstreg =? DSP_REG_A then accu_move ACC_A v
  else if dstreg =? DSP_REG_B then accu_move ACC_B v
  else
    bits ← mask_of dstreg;
    rset dstreg (v .& BITMASK bits).

Definition emu_pm_2_2 : cpu P () :=
  inst ← getf cur_inst;
  let srcreg := (inst .>> 13) .& BITMASK 5 in
  let dstreg := (inst .>> 8) .& BITMASK 5 in
  save_reg ← read_operand srcreg;
  execute_alu;;
  write_dest dstreg save_reg.

Definition emu_pm_3 : cpu P () :=
  inst ← getf cur_inst;
  execute_alu;;
  let dstreg := (inst .>> 16) .& BITMASK 5 in
  let srcvalue := (inst .>> 8) .& BITMASK 8 in
  let srcvalue :=
    if (dstreg =? DSP_REG_X0) || (dstreg =? DSP_REG_X1) || (dstreg =? DSP_REG_Y0)
       || (dstreg =? DSP_REG_Y1) || (dstreg =? DSP_REG_A) || (dstreg =? DSP_REG_B)
    then u32 (srcvalue .<< 16) else srcvalue in
  write_dest dstreg srcvalue.

Definition emu_pm_2 : cpu P () :=
  inst ← getf cur_inst;
  if (inst .& 0xffff00) =? 0x200000 then execute_alu
  else if (inst .& 0xffe000) =? 0x204000 then
    calc_ea ((inst .>> 8) .& BITMASK 5);;
    execute_alu
  else if (inst .& 0xfc0000) =? 0x200000 then emu_pm_2_2
  else emu_pm_3.

(** The limited read of a long move: when it limits, the low word saturates. *)
Definition read_accu48 (numreg a0reg : Z) : cpu P (Z * Z) :=
  '(limited, save_lx) ← read_accu24 numreg;
  if nz limited then mret (save_lx, if nz (save_lx .& (1 .<< 23)) then 0 else 0xffffff)
  else
    save_ly ← rget a0reg;
    mret (save_lx, save_ly).

Definition read_pair (r1 r0 : Z) : cpu P (Z * Z) :=
  save_lx ← rget r1;
  save_ly ← rget r0;
  mret (save_lx, save_ly).

Definition emu_pm_4x : cpu P () :=
  inst ← getf cur_inst;
  let value := (inst .>> 8) .& BITMASK 6 in
  l_addr ← (if nz (inst .& (1 .<< 14)) then '(_, l_addr) ← calc_ea value; mret l_addr
            else mret value);
  let numreg := (inst .>> 16) .& BITMASK 2 in
  let numreg := numreg .| ((inst .>> 17) .& (1 .<< 2)) in
  '(save_lx, save_ly) ←
    (if nz (inst .& (1 .<< 15)) then
       (* Write D *)
       save_lx ← mem_read DSP_SPACE_X l_addr;
       save_ly ← mem_read DSP_SPACE_Y l_addr;
       mret (save_lx, save_ly)
     else
       (* Read S *)
       match numreg with
       | 0 => (* A10 *) read_pair DSP_REG_A1 DSP_REG_A0
       | 1 => (* B10 *) read_pair DSP_REG_B1 DSP_REG_B0
       | 2 => (* X *) read_pair DSP_REG_X1 DSP_REG_X0
       | 3 => (* Y *) read_pair DSP_REG_Y1 DSP_REG_Y0
       | 4 => (* A *) read_accu48 DSP_REG_A DSP_REG_A0
       | 5 => (* B *) read_accu48 DSP_REG_B DSP_REG_B0
       | 6 => (* AB *)
           '(_, save_lx) ← read_accu24 DSP_REG_A;
           '(_, save_ly) ← read_accu24 DSP_REG_B;
           mret (save_lx, save_ly)
       | _ => (* BA *)
           '(_, save_lx) ← read_accu24 DSP_REG_B;
           '(_, save_ly) ← read_accu24 DSP_REG_A;
           mret (save_lx, save_ly)
       end);
  execute_alu;;
  if nz (inst .& (1 .<< 15)) then
    (* Write D *)
    match numreg with
    | 0 => rset DSP_REG_A1 save_lx;; rset DSP_REG_A0 save_ly
    | 1 => rset DSP_REG_B1 save_lx;; rset DSP_REG_B0 save_ly
    | 2 => rset DSP_REG_X1 save_lx;; rset DSP_REG_X0 save_ly
    | 3 => rset DSP_REG_Y1 save_lx;; rset DSP_REG_Y0 save_ly
    | 4 => rset DSP_REG_A0 save_ly;; rset DSP_REG_A1 save_lx;; rset DSP_REG_A2 (ext24 save_lx)
    | 5 => rset DSP_REG_B0 save_ly;; rset DSP_REG_B1 save_lx;; rset DSP_REG_B2 (ext24 save_lx)
    | 6 => accu_move ACC_A save_lx;; accu_move ACC_B save_ly
    | _ => accu_move ACC_B save_lx;; accu_move ACC_A save_ly
    end
  else
    (* Read S *)
    mem_write DSP_SPACE_X l_addr save_lx;;
    mem_write DSP_SPACE_Y l_addr save_ly.

Definition emu_pm_5 : cpu P () :=
  inst ← getf cur_inst;
  let value := (inst .>> 8) .& BITMASK 6 in
  '(retour, xy_addr) ← (if nz (inst .& (1 .<< 14)) then calc_ea value else mret (0, value));
  let memspace := (inst .>> 19) .& 1 in
  let numreg := (inst .>> 16) .& BITMASK 3 in
  let numreg := numreg .| ((inst .>> 17) .& (BITMASK 2 .<< 3)) in
  value ← (if nz (inst .& (1 .<< 15)) then
             (* Write D *)
             if nz retour then mret xy_addr else mem_read memspace xy_addr
           else (* Read S *) read_operand numreg);
  execute_alu;;
  if nz (inst .& (1 .<< 15)) then (* Write D *) write_dest numreg value
  else (* Read S *) mem_write memspace xy_addr value.

Definition emu_pm_4 : cpu P () :=
  inst ← getf cur_inst;
  if (inst .& 0xf40000) =? 0x400000 then emu_pm_4x else emu_pm_5.

(** Write D1 or D2 of a double move. *)
Definition write_double (numreg v : Z) : cpu P () :=
  if numreg =? DSP_REG_A then accu_move ACC_A v
  else if numreg =? DSP_REG_B then accu_move ACC_B v
  else rset numreg v.

Definition emu_pm_8 : cpu P () :=
  inst ← getf cur_inst;
  let ea1 := (inst .>> 8) .& BITMASK 5 in
  let ea1 := if ea1 .>> 3 =? 0 then ea1 .| (1 .<< 5) else ea1 in
  let ea2 := (inst .>> 13) .& BITMASK 2 in
  let ea2 := ea2 .| ((inst .>> 17) .& (BITMASK 2 .<< 3)) in
  let ea2 := if (ea1 .& (1 .<< 2)) =? 0 then ea2 .| (1 .<< 2) else ea2 in
  let ea2 := if ea2 .>> 3 =? 0 then ea2 .| (1 .<< 5) else ea2 in
  '(_, x_addr) ← calc_ea ea1;
  '(_, y_addr) ← calc_ea ea2;
  let numreg1 := x_field ((inst .>> 18) .& BITMASK 2) in
  let numreg2 := y_field ((inst .>> 16) .& BITMASK 2) in
  save_reg1 ← (if nz (inst .& (1 .<< 15)) then (* Write D1 *) mem_read DSP_SPACE_X x_addr
               else (* Read S1 *) read_operand numreg1);
  save_reg2 ← (if nz (inst .& (1 .<< 22)) then (* Write D2 *) mem_read DSP_SPACE_Y y_addr
               else (* Read S2 *) read_operand numreg2);
  execute_alu;;
  (* Write first parallel move *)
  (if nz (inst .& (1 .<< 15)) then write_double numreg1 save_reg1
   else mem_write DSP_SPACE_X x_addr save_reg1);;
  (* Write second parallel move *)
  if nz (inst .& (1 .<< 22)) then write_double numreg2 save_reg2
  else mem_write DSP_SPACE_Y y_addr save_reg2.

Definition opcodes_parmove : list (cpu P ()) :=
  [ emu_pm_0; emu_pm_1; emu_pm_2; emu_pm_3; emu_pm_4; emu_pm_5; emu_pm_5; emu_pm_5;
    emu_pm_8; emu_pm_8; emu_pm_8; emu_pm_8; emu_pm_8; emu_pm_8; emu_pm_8; emu_pm_8 ].

End moves.
