(* ===== verification/DspInst.v ===== *)
(** * Non-parallel instructions of the DSP56300 emulator

    src/hw/xbox/dsp/dsp_emu.inl, "Non-parallel moves instructions", and the
    dispatch from the names in the opcode table to the functions.  Each C function
    is one definition in the instruction monad. *)

From S2P Require Import Prelude Dsp56 DspCore DspAlu DspAddr DspCpu.

(** [registers_tcc]. *)
Definition registers_tcc : list (Z * Z) :=
  [ (DSP_REG_B, DSP_REG_A); (DSP_REG_A, DSP_REG_B);
    (DSP_REG_NULL, DSP_REG_NULL); (DSP_REG_NULL, DSP_REG_NULL);
    (DSP_REG_NULL, DSP_REG_NULL); (DSP_REG_NULL, DSP_REG_NULL);
    (DSP_REG_NULL, DSP_REG_NULL); (DSP_REG_NULL, DSP_REG_NULL);
    (DSP_REG_X0, DSP_REG_A); (DSP_REG_X0, DSP_REG_B);
    (DSP_REG_Y0, DSP_REG_A); (DSP_REG_Y0, DSP_REG_B);
    (DSP_REG_X1, DSP_REG_A); (DSP_REG_X1, DSP_REG_B);
    (DSP_REG_Y1, DSP_REG_A); (DSP_REG_Y1, DSP_REG_B) ].

Section instructions.
Context `{Peripherals P}.
Implicit Types (d x : Z).

(** ** Arithmetic with immediate operands *)

Definition emu_add_x x d : cpu P () :=
  dest ← accu_load d;
  let source := Acc56 (ext24 x) x 0 in
  let '(newsr, dest) := dsp_add56 source dest in
  accu_store d dest;;
  ccr_update dest;;
  sr_clear SR_VC;;
  sr_or newsr.

Definition emu_add_imm : cpu P () :=
  inst ← getf cur_inst;
  let xx := (inst .>> 8) .& BITMASK 6 in
  let d := (inst .>> 3) .& 1 in
  emu_add_x xx d.

Definition emu_add_long : cpu P () :=
  xxxx ← next_word;
  inst_len_inc;;
  inst ← getf cur_inst;
  let d := (inst .>> 3) .& 1 in
  emu_add_x xxxx d.

Definition emu_and_x x d : cpu P () :=
  let dstreg := if nz d then DSP_REG_B1 else DSP_REG_A1 in
  v ← rget dstreg;
  rset dstreg (v .& x);;
  sr_clear SR_NZV;;
  v ← rget dstreg;
  sr_or (((v .>> 23) .& 1) .<< DSP_SR_N);;
  sr_or (b2z (v =? 0) .<< DSP_SR_Z).

Definition emu_and_imm : cpu P () :=
  inst ← getf cur_inst;
  let xx := (inst .>> 8) .& BITMASK 6 in
  let d := (inst .>> 3) .& 1 in
  emu_and_x xx d.

Definition emu_and_long : cpu P () :=
  xxxx ← next_word;
  inst_len_inc;;
  inst ← getf cur_inst;
  let d := (inst .>> 3) .& 1 in
  emu_and_x xxxx d.

Definition emu_andi : cpu P () :=
  inst ← getf cur_inst;
  let value := (inst .>> 8) .& BITMASK 8 in
  let regnum := inst .& BITMASK 2 in
  match regnum with
  | 0 => (* mr *)
      v ← rget DSP_REG_SR;
      rset DSP_REG_SR (v .& ((value .<< 8) .| BITMASK 8))
  | 1 => (* ccr *)
      v ← rget DSP_REG_SR;
      rset DSP_REG_SR (v .& ((BITMASK 8 .<< 8) .| value))
  | 2 => (* omr *)
      v ← rget DSP_REG_OMR;
      rset DSP_REG_OMR (v .& value)
  | _ => mret tt
  end.

Definition emu_asl_imm : cpu P () :=
  inst ← getf cur_inst;
  let S := (inst .>> 7) .& 1 in
  let D := inst .& 1 in
  let ii := (inst .>> 1) .& BITMASK 6 in
  dest ← accu_load S;
  '(newsr, dest) ← lift (dsp_asl56 dest ii);
  accu_store D dest;;
  sr_clear ((1 .<< DSP_SR_C) .| (1 .<< DSP_SR_V));;
  sr_or newsr;;
  ccr_update dest.

Definition emu_asr_imm : cpu P () :=
  inst ← getf cur_inst;
  let S := (inst .>> 7) .& 1 in
  let D := inst .& 1 in
  let ii := (inst .>> 1) .& BITMASK 6 in
  dest ← accu_load S;
  '(newsr, dest) ← lift (dsp_asr56 dest ii);
  accu_store D dest;;
  sr_clear ((1 .<< DSP_SR_C) .| (1 .<< DSP_SR_V));;
  sr_or newsr;;
  ccr_update dest.

(** ** Branches *)

(** [pc += offset; pc &= BITMASK(24); cur_inst_len = 0]. *)
Definition branch_by (offset : Z) : cpu P () :=
  pc ← getf pc;
  set_pc (u32 (pc + offset));;
  modify (λ s, s <| DspCore.pc := DspCore.pc s .& BITMASK 24 |>);;
  set_inst_len 0.

(** [(cur_inst & BITMASK(5)) + ((cur_inst & (BITMASK(4) << 6)) >> 1)]. *)
Definition short_offset (inst : Z) : Z :=
  u32 ((inst .& BITMASK 5) + ((inst .& (BITMASK 4 .<< 6)) .>> 1)).

Definition emu_bcc_long : cpu P () :=
  xxxx ← next_word;
  inst_len_inc;;
  inst ← getf cur_inst;
  let cc_code := inst .& BITMASK 4 in
  cc ← calc_cc cc_code;
  if (cc : bool) then branch_by xxxx else mret tt.

Definition emu_bcc_imm : cpu P () :=
  inst ← getf cur_inst;
  let xxx := short_offset inst in
  let cc_code := (inst .>> 12) .& BITMASK 4 in
  cc ← calc_cc cc_code;
  if (cc : bool) then
    off ← lift (dsp_signextend 9 xxx);
    branch_by off
  else mret tt.

(** ** Bit manipulation *)

(** [registers[SR] &= BITMASK(16)-(1<<C); registers[SR] |= newcarry<<C]. *)
Definition set_carry (newcarry : Z) : cpu P () :=
  sr_clear (1 .<< DSP_SR_C);;
  sr_or (newcarry .<< DSP_SR_C).

(** The operand changes of BCHG, BCLR and BSET, on a 32-bit unsigned value. *)
Definition bchg (value numbit : Z) : Z :=
  if nz ((value .>> numbit) .& 1) then u32 (value - (1 .<< numbit)) else u32 (value + (1 .<< numbit)).
Definition bclr (value numbit : Z) : Z := value .& (0xffffffff - (1 .<< numbit)).
Definition bset (value numbit : Z) : Z := value .| (1 .<< numbit).

(** Read, change and write back a memory operand, with the old bit in C. *)
Definition bit_op_mem (op : Z → Z → Z) (memspace addr numbit : Z) : cpu P () :=
  value ← mem_read memspace addr;
  let newcarry := (value .>> numbit) .& 1 in
  mem_write memspace addr (op value numbit);;
  set_carry newcarry;;
  add_cycle 2.

(** The same on a register operand. *)
Definition bit_op_reg (op : Z → Z → Z) (numreg numbit : Z) : cpu P () :=
  value ← read_operand numreg;
  let newcarry := (value .>> numbit) .& 1 in
  write_reg numreg (op value numbit);;
  set_carry newcarry;;
  add_cycle 2.

(** The operand fields: an absolute short address, an effective address, a
    peripheral address, a register. *)
Definition bit_aa (f : Z → Z → Z → cpu P ()) : cpu P () :=
  inst ← getf cur_inst;
  let memspace := (inst .>> 6) .& 1 in
  let addr := (inst .>> 8) .& BITMASK 6 in
  let numbit := inst .& BITMASK 5 in
  f memspace addr numbit.

Definition bit_ea (f : Z → Z → Z → cpu P ()) : cpu P () :=
  inst ← getf cur_inst;
  let memspace := (inst .>> 6) .& 1 in
  let value := (inst .>> 8) .& BITMASK 6 in
  let numbit := inst .& BITMASK 5 in
  '(_, addr) ← calc_ea value;
  f memspace addr numbit.

Definition bit_pp (f : Z → Z → Z → cpu P ()) : cpu P () :=
  inst ← getf cur_inst;
  let memspace := (inst .>> 6) .& 1 in
  let value := (inst .>> 8) .& BITMASK 6 in
  let numbit := inst .& BITMASK 5 in
  let addr := 0xffffc0 + value in
  f memspace addr numbit.

Definition bit_reg (f : Z → Z → cpu P ()) : cpu P () :=
  inst ← getf cur_inst;
  let numreg := (inst .>> 8) .& BITMASK 6 in
  let numbit := inst .& BITMASK 5 in
  f numreg numbit.

Definition emu_bchg_aa : cpu P () := bit_aa (bit_op_mem bchg).
Definition emu_bchg_ea : cpu P () := bit_ea (bit_op_mem bchg).
Definition emu_bchg_pp : cpu P () := bit_pp (bit_op_mem bchg).
Definition emu_bchg_reg : cpu P () := bit_reg (bit_op_reg bchg).
Definition emu_bclr_aa : cpu P () := bit_aa (bit_op_mem bclr).
Definition emu_bclr_ea : cpu P () := bit_ea (bit_op_mem bclr).
Definition emu_bclr_pp : cpu P () := bit_pp (bit_op_mem bclr).
Definition emu_bclr_reg : cpu P () := bit_reg (bit_op_reg bclr).
Definition emu_bset_aa : cpu P () := bit_aa (bit_op_mem bset).
Definition emu_bset_ea : cpu P () := bit_ea (bit_op_mem bset).
Definition emu_bset_pp : cpu P () := bit_pp (bit_op_mem bset).
Definition emu_bset_reg : cpu P () := bit_reg (bit_op_reg bset).

(** BTST only copies the bit to C. *)
Definition btst_mem (memspace addr numbit : Z) : cpu P () :=
  value ← mem_read memspace addr;
  let newcarry := (value .>> numbit) .& 1 in
  set_carry newcarry;;
  add_cycle 2.

Definition btst_reg (numreg numbit : Z) : cpu P () :=
  value ← read_operand numreg;
  let newcarry := (value .>> numbit) .& 1 in
  set_carry newcarry;;
  add_cycle 2.

Definition emu_btst_aa : cpu P () := bit_aa btst_mem.
Definition emu_btst_ea : cpu P () := bit_ea btst_mem.
Definition emu_btst_pp : cpu P () := bit_pp btst_mem.
Definition emu_btst_reg : cpu P () := bit_reg btst_reg.

Definition emu_bra_long : cpu P () :=
  xxxx ← next_word;
  inst_len_inc;;
  branch_by xxxx.

Definition emu_bra_imm : cpu P () :=
  inst ← getf cur_inst;
  off ← lift (dsp_signextend 9 (short_offset inst));
  branch_by off.

(** Is bit [numbit] of [value] clear, or set? *)
Definition bit_is_clear (value numbit : Z) : bool := (value .& (1 .<< numbit)) =? 0.
Definition bit_is_set (value numbit : Z) : bool := nz (value .& (1 .<< numbit)).

(** BRCLR and BRSET: test a bit of a peripheral or a register, branch relative. *)
Definition br_pp (test : Z → Z → bool) : cpu P () :=
  xxxx ← next_word;
  inst_len_inc;;
  inst ← getf cur_inst;
  let memspace := (inst .>> 6) .& 1 in
  let value := (inst .>> 8) .& BITMASK 6 in
  let numbit := inst .& BITMASK 5 in
  let addr := 0xffffc0 + value in
  value ← mem_read memspace addr;
  add_cycle 4;;
  if test value numbit then branch_by xxxx else mret tt.

Definition br_reg (test : Z → Z → bool) : cpu P () :=
  xxxx ← next_word;
  inst_len_inc;;
  inst ← getf cur_inst;
  let numreg := (inst .>> 8) .& BITMASK 6 in
  let numbit := inst .& BITMASK 5 in
  value ← read_operand numreg;
  add_cycle 4;;
  if test value numbit then branch_by xxxx else mret tt.

Definition emu_brclr_pp : cpu P () := br_pp bit_is_clear.
Definition emu_brclr_reg : cpu P () := br_reg bit_is_clear.
Definition emu_brset_pp : cpu P () := br_pp bit_is_set.
Definition emu_brset_reg : cpu P () := br_reg bit_is_set.

(** Push the return address, unless this is the jump of a long interrupt. *)
Definition push_return : cpu P () :=
  st ← getf interrupt_state;
  if negb (st =? DSP_INTERRUPT_LONG) then
    pc ← getf pc;
    len ← getf cur_inst_len;
    sr ← rget DSP_REG_SR;
    stack_push (u32 (pc + len)) sr 0
  else modify (λ s, s <| interrupt_state := DSP_INTERRUPT_DISABLED |>).

Definition emu_bsr_long : cpu P () :=
  xxxx ← next_word;
  inst_len_inc;;
  push_return;;
  branch_by xxxx;;
  add_cycle 4.

Definition emu_bsr_imm : cpu P () :=
  inst ← getf cur_inst;
  let xxx := short_offset inst in
  push_return;;
  off ← lift (dsp_signextend 9 xxx);
  branch_by off;;
  add_cycle 2.

(** ** Compare, increment, divide *)

(** The comparison of [emu_cmp_imm] and [emu_cmp_long]: neither sign-extends its
    operand. *)
Definition cmp_x x d : cpu P () :=
  dest ← accu_load d;
  let source := Acc56 0x0 x 0 in
  let '(newsr, dest) := dsp_sub56 source dest in
  ccr_update dest;;
  sr_clear SR_VC;;
  sr_or newsr.

Definition emu_cmp_imm : cpu P () :=
  inst ← getf cur_inst;
  let xx := (inst .>> 8) .& BITMASK 6 in
  let d := (inst .>> 3) .& 1 in
  cmp_x xx d.

Definition emu_cmp_long : cpu P () :=
  xxxx ← next_word;
  inst_len_inc;;
  inst ← getf cur_inst;
  let d := (inst .>> 3) .& 1 in
  cmp_x xxxx d.

Definition emu_cmpu : cpu P () :=
  inst ← getf cur_inst;
  let ggg := (inst .>> 1) .& BITMASK 3 in
  let d := inst .& 1 in
  let srcreg :=
    match ggg with
    | 0 => if nz d then DSP_REG_A else DSP_REG_B
    | 4 => DSP_REG_X0
    | 5 => DSP_REG_Y0
    | 6 => DSP_REG_X1
    | 7 => DSP_REG_Y1
    | _ => DSP_REG_NULL
    end in
  dest ← accu_load d;
  value ← read_operand srcreg;
  let source := Acc56 (ext24 value) value 0 in
  let '(newsr, dest) := dsp_sub56 source dest in
  sr_clear ((1 .<< DSP_SR_V) .| (1 .<< DSP_SR_C) .| (1 .<< DSP_SR_Z) .| (1 .<< DSP_SR_N));;
  sr_or (newsr .& (1 .<< DSP_SR_C));;
  (if (a0 dest =? 0) && (a2 dest =? 0) && (a1 dest =? 0) then sr_or (1 .<< DSP_SR_Z) else mret tt);;
  sr_or ((a0 dest .>> 4) .& 0x8).

Definition emu_dec : cpu P () :=
  inst ← getf cur_inst;
  let d := inst .& 1 in
  dest ← accu_load d;
  let '(newsr, dest) := dsp_sub56 (Acc56 0 0 1) dest in
  accu_store d dest;;
  ccr_update dest;;
  sr_clear SR_VC;;
  sr_or newsr.

Definition emu_inc : cpu P () :=
  inst ← getf cur_inst;
  let d := inst .& 1 in
  dest ← accu_load d;
  let '(newsr, dest) := dsp_add56 (Acc56 0 0 1) dest in
  accu_store d dest;;
  ccr_update dest;;
  sr_clear SR_VC;;
  sr_or newsr.

(** The two-bit input register field of DIV and MPYI. *)
Definition input_field (f : Z) : Z :=
  match f with
  | 0 => DSP_REG_X0
  | 1 => DSP_REG_Y0
  | 2 => DSP_REG_X1
  | 3 => DSP_REG_Y1
  | _ => DSP_REG_NULL
  end.

Definition emu_div : cpu P () :=
  inst ← getf cur_inst;
  let srcreg := input_field ((inst .>> 4) .& BITMASK 2) in
  v ← rget srcreg;
  let source := Acc56 (ext24 v) v 0 in
  let d := (inst .>> 3) .& 1 in
  dest ← accu_load d;
  '(newsr, dest) ←
    (if nz (((a0 dest .>> 7) .& 1) .^ ((a1 source .>> 23) .& 1)) then
       (* D += S *)
       '(newsr, dest) ← lift (dsp_asl56 dest 1);
       mret (newsr, (dsp_add56 source dest).2)
     else
       (* D -= S *)
       '(newsr, dest) ← lift (dsp_asl56 dest 1);
       mret (newsr, (dsp_sub56 source dest).2));
  sr ← rget DSP_REG_SR;
  let dest := Acc56 (a0 dest) (a1 dest) (a2 dest .| ((sr .>> DSP_SR_C) .& 1)) in
  accu_store d dest;;
  sr_clear ((1 .<< DSP_SR_C) .| (1 .<< DSP_SR_V));;
  sr_or ((1 - ((a0 dest .>> 7) .& 1)) .<< DSP_SR_C);;
  sr_or (newsr .& (1 .<< DSP_SR_L));;
  sr_or (newsr .& (1 .<< DSP_SR_V)).

(** ** Hardware loops *)

(** [dsp_stack_push(dsp, LA, LC, 0)]. *)
Definition push_loop : cpu P () :=
  la ← rget DSP_REG_LA;
  lc ← rget DSP_REG_LC;
  stack_push la lc 0.

(** [dsp_stack_push(dsp, pc+cur_inst_len, SR, 0); SR |= 1<<LF]. *)
Definition push_body : cpu P () :=
  pc ← getf pc;
  len ← getf cur_inst_len;
  sr ← rget DSP_REG_SR;
  stack_push (u32 (pc + len)) sr 0;;
  sr_or (1 .<< DSP_SR_LF).

(** The frame of DO: save the outer loop, set LA from the second word, and push
    the loop body. *)
Definition do_enter : cpu P () :=
  push_loop;;
  la ← next_word;
  rset DSP_REG_LA (la .& BITMASK 16);;
  inst_len_inc.

Definition emu_do_aa : cpu P () :=
  inst ← getf cur_inst;
  do_enter;;
  push_body;;
  let memspace := (inst .>> 6) .& 1 in
  let addr := (inst .>> 8) .& BITMASK 6 in
  v ← mem_read memspace addr;
  rset DSP_REG_LC (v .& BITMASK 16);;
  add_cycle 4.

(** [((cur_inst>>8) & BITMASK(8)) + ((cur_inst & BITMASK(4))<<8)]. *)
Definition imm12 (inst : Z) : Z :=
  u32 (((inst .>> 8) .& BITMASK 8) + ((inst .& BITMASK 4) .<< 8)).

Definition emu_do_imm : cpu P () :=
  inst ← getf cur_inst;
  do_enter;;
  push_body;;
  rset DSP_REG_LC (imm12 inst);;
  add_cycle 4.

Definition emu_do_ea : cpu P () :=
  inst ← getf cur_inst;
  do_enter;;
  push_body;;
  let memspace := (inst .>> 6) .& 1 in
  let ea_mode := (inst .>> 8) .& BITMASK 6 in
  '(_, addr) ← calc_ea ea_mode;
  v ← mem_read memspace addr;
  rset DSP_REG_LC (v .& BITMASK 16);;
  add_cycle 4.

(** [LC = operand; LC &= BITMASK(16)]. *)
Definition load_lc (numreg : Z) : cpu P () :=
  v ← read_operand numreg;
  rset DSP_REG_LC v;;
  v ← rget DSP_REG_LC;
  rset DSP_REG_LC (v .& BITMASK 16).

Definition emu_do_reg : cpu P () :=
  inst ← getf cur_inst;
  do_enter;;
  let numreg := (inst .>> 8) .& BITMASK 6 in
  load_lc numreg;;
  push_body;;
  add_cycle 4.

(** DOR: the last address is relative to the PC. *)
Definition dor_enter : cpu P () :=
  xxxx ← next_word;
  inst_len_inc;;
  push_loop;;
  pc ← getf pc;
  rset DSP_REG_LA (u32 (pc + xxxx) .& BITMASK 16).

Definition emu_dor_imm : cpu P () :=
  inst ← getf cur_inst;
  dor_enter;;
  push_body;;
  rset DSP_REG_LC (imm12 inst);;
  add_cycle 4.

Definition emu_dor_reg : cpu P () :=
  inst ← getf cur_inst;
  dor_enter;;
  push_body;;
  let numreg := (inst .>> 8) .& BITMASK 6 in
  load_lc numreg;;
  add_cycle 4.

Definition emu_enddo : cpu P () :=
  '(_, saved_sr) ← stack_pop;
  sr ← rget DSP_REG_SR;
  rset DSP_REG_SR (sr .& 0x7f);;
  sr_or (saved_sr .& (1 .<< DSP_SR_LF));;
  '(la, lc) ← stack_pop;
  rset DSP_REG_LA la;;
  rset DSP_REG_LC lc.

Definition emu_illegal : cpu P () :=
  on_core (λ s,
    let s := dsp56k_add_interrupt s DSP_INTER_ILLEGAL in
    if exception_debugging s then Fault assert_failed else Ok s).

(** ** Jumps *)

(** [pc = newpc; cur_inst_len = 0]. *)
Definition jump_to (newpc : Z) : cpu P () :=
  set_pc newpc;;
  set_inst_len 0.

Definition emu_jcc_imm : cpu P () :=
  inst ← getf cur_inst;
  let newpc := inst .& BITMASK 12 in
  let cc_code := (inst .>> 12) .& BITMASK 4 in
  cc ← calc_cc cc_code;
  (if (cc : bool) then jump_to newpc else mret tt);;
  add_cycle 2.

Definition emu_jcc_ea : cpu P () :=
  inst ← getf cur_inst;
  '(_, newpc) ← calc_ea ((inst .>> 8) .& BITMASK 6);
  let cc_code := inst .& BITMASK 4 in
  cc ← calc_cc cc_code;
  (if (cc : bool) then jump_to newpc else mret tt);;
  add_cycle 2.

(** JCLR, JSET, JSCLR and JSSET end alike: on a taken jump, push the return
    address if it is a call, and jump; otherwise step over the second word. *)
Definition jump_if (test call : bool) (newaddr : Z) : cpu P () :=
  add_cycle 4;;
  if test then
    (if call then
       pc ← getf pc;
       sr ← rget DSP_REG_SR;
       stack_push (u32 (pc + 2)) sr 0
     else mret tt);;
    jump_to newaddr
  else inst_len_inc.

Definition jbit_aa (test : Z → Z → bool) (call : bool) : cpu P () :=
  inst ← getf cur_inst;
  let memspace := (inst .>> 6) .& 1 in
  let addr := (inst .>> 8) .& BITMASK 6 in
  let numbit := inst .& BITMASK 5 in
  value ← mem_read memspace addr;
  newaddr ← next_word;
  jump_if (test value numbit) call newaddr.

Definition jbit_ea (test : Z → Z → bool) (call : bool) : cpu P () :=
  inst ← getf cur_inst;
  let memspace := (inst .>> 6) .& 1 in
  let value := (inst .>> 8) .& BITMASK 6 in
  let numbit := inst .& BITMASK 5 in
  '(_, addr) ← calc_ea value;
  value ← mem_read memspace addr;
  newaddr ← next_word;
  jump_if (test value numbit) call newaddr.

Definition jbit_pp (test : Z → Z → bool) (call : bool) : cpu P () :=
  inst ← getf cur_inst;
  let memspace := (inst .>> 6) .& 1 in
  let value := (inst .>> 8) .& BITMASK 6 in
  let numbit := inst .& BITMASK 5 in
  let addr := 0xffffc0 + value in
  value ← mem_read memspace addr;
  newaddr ← next_word;
  jump_if (test value numbit) call newaddr.

Definition jbit_reg (test : Z → Z → bool) (call : bool) : cpu P () :=
  inst ← getf cur_inst;
  let numreg := (inst .>> 8) .& BITMASK 6 in
  let numbit := inst .& BITMASK 5 in
  newaddr ← next_word;
  value ← read_operand numreg;
  jump_if (test value numbit) call newaddr.

Definition emu_jclr_aa : cpu P () := jbit_aa bit_is_clear false.

(** [emu_jclr_ea] reads its target before it computes the effective address. *)
Definition emu_jclr_ea : cpu P () :=
  inst ← getf cur_inst;
  let memspace := (inst .>> 6) .& 1 in
  let value := (inst .>> 8) .& BITMASK 6 in
  let numbit := inst .& BITMASK 5 in
  newaddr ← next_word;
  '(_, addr) ← calc_ea value;
  value ← mem_read memspace addr;
  jump_if (bit_is_clear value numbit) false newaddr.

Definition emu_jclr_pp : cpu P () := jbit_pp bit_is_clear false.
Definition emu_jclr_reg : cpu P () := jbit_reg bit_is_clear false.

Definition emu_jmp_ea : cpu P () :=
  inst ← getf cur_inst;
  '(_, newpc) ← calc_ea ((inst .>> 8) .& BITMASK 6);
  jump_to newpc;;
  add_cycle 2.

Definition emu_jmp_imm : cpu P () :=
  inst ← getf cur_inst;
  jump_to (inst .& BITMASK 12);;
  add_cycle 2.

(** Conditional call: push the return address and jump. *)
Definition call_if (cc : bool) (newpc : Z) : cpu P () :=
  (if cc then
     pc ← getf pc;
     len ← getf cur_inst_len;
     sr ← rget DSP_REG_SR;
     stack_push (u32 (pc + len)) sr 0;;
     jump_to newpc
   else mret tt);;
  add_cycle 2.

Definition emu_jscc_ea : cpu P () :=
  inst ← getf cur_inst;
  '(_, newpc) ← calc_ea ((inst .>> 8) .& BITMASK 6);
  let cc_code := inst .& BITMASK 4 in
  cc ← calc_cc cc_code;
  call_if cc newpc.

Definition emu_jscc_imm : cpu P () :=
  inst ← getf cur_inst;
  let newpc := inst .& BITMASK 12 in
  let cc_code := (inst .>> 12) .& BITMASK 4 in
  cc ← calc_cc cc_code;
  call_if cc newpc.

Definition emu_jsclr_aa : cpu P () := jbit_aa bit_is_clear true.
Definition emu_jsclr_ea : cpu P () := jbit_ea bit_is_clear true.
Definition emu_jsclr_pp : cpu P () := jbit_pp bit_is_clear true.
Definition emu_jsclr_reg : cpu P () := jbit_reg bit_is_clear true.
Definition emu_jset_aa : cpu P () := jbit_aa bit_is_set false.
Definition emu_jset_ea : cpu P () := jbit_ea bit_is_set false.
Definition emu_jset_pp : cpu P () := jbit_pp bit_is_set false.
Definition emu_jset_reg : cpu P () := jbit_reg bit_is_set false.
Definition emu_jsset_aa : cpu P () := jbit_aa bit_is_set true.
Definition emu_jsset_ea : cpu P () := jbit_ea bit_is_set true.
Definition emu_jsset_pp : cpu P () := jbit_pp bit_is_set true.
Definition emu_jsset_reg : cpu P () := jbit_reg bit_is_set true.

Definition emu_jsr_imm : cpu P () :=
  inst ← getf cur_inst;
  let newpc := inst .& BITMASK 12 in
  push_return;;
  jump_to newpc;;
  add_cycle 2.

Definition emu_jsr_ea : cpu P () :=
  inst ← getf cur_inst;
  '(_, newpc) ← calc_ea ((inst .>> 8) .& BITMASK 6);
  push_return;;
  jump_to newpc;;
  add_cycle 2.

(** ** Address arithmetic *)

Definition emu_lua : cpu P () :=
  inst ← getf cur_inst;
  let srcreg := (inst .>> 8) .& BITMASK 3 in
  srcsave ← rget (DSP_REG_R0 + srcreg);
  calc_ea ((inst .>> 8) .& BITMASK 5);;
  srcnew ← rget (DSP_REG_R0 + srcreg);
  rset (DSP_REG_R0 + srcreg) srcsave;;
  let dstreg := inst .& BITMASK 3 in
  (if nz (inst .& (1 .<< 3)) then rset (DSP_REG_N0 + dstreg) srcnew
   else rset (DSP_REG_R0 + dstreg) srcnew);;
  add_cycle 2.

Definition emu_lua_rel : cpu P () :=
  inst ← getf cur_inst;
  let aa := u32 (((inst .>> 4) .& BITMASK 4) + (((inst .>> 11) .& BITMASK 3) .<< 4)) in
  let addrreg := (inst .>> 8) .& BITMASK 3 in
  let dstreg := inst .& BITMASK 3 in
  r ← rget (DSP_REG_R0 + addrreg);
  off ← lift (dsp_signextend 7 aa);
  let v := u32 (r + off) .& BITMASK 24 in
  (if nz (inst .& (1 .<< 3)) then rset (DSP_REG_N0 + dstreg) v
   else rset (DSP_REG_R0 + dstreg) v);;
  add_cycle 2.

(** ** Moves *)

(** [value &= BITMASK(registers_mask[numreg]); dsp_write_reg(dsp, numreg, value)]. *)
Definition write_masked (numreg value : Z) : cpu P () :=
  bits ← mask_of numreg;
  write_reg numreg (value .& BITMASK bits).

(** Read S1: reading SSH pops the stack. *)
Definition read_ssh (numreg : Z) : cpu P Z :=
  if numreg =? DSP_REG_SSH then '(value, _) ← stack_pop; mret value
  else rget numreg.

(** Read S: SSH pops, an accumulator is limited. *)
Definition read_source (numreg : Z) : cpu P Z :=
  if numreg =? DSP_REG_SSH then '(value, _) ← stack_pop; mret value
  else read_operand numreg.

Definition emu_movec_reg : cpu P () :=
  inst ← getf cur_inst;
  let numreg2 := (inst .>> 8) .& BITMASK 6 in
  let numreg1 := inst .& BITMASK 6 in
  if nz (inst .& (1 .<< 15)) then
    (* Write D1 *)
    value ← read_operand numreg2;
    write_masked numreg1 value
  else
    (* Read S1 *)
    value ← read_ssh numreg1;
    if numreg2 =? DSP_REG_A then
      rset DSP_REG_A0 0;;
      rset DSP_REG_A1 (value .& BITMASK 24);;
      rset DSP_REG_A2 (ext24 value)
    else if numreg2 =? DSP_REG_B then
      rset DSP_REG_B0 0;;
      rset DSP_REG_B1 (value .& BITMASK 24);;
      rset DSP_REG_B2 (ext24 value)
    else
      bits ← mask_of numreg2;
      rset numreg2 (value .& BITMASK bits).

Definition emu_movec_aa : cpu P () :=
  inst ← getf cur_inst;
  let numreg := inst .& BITMASK 6 in
  let addr := (inst .>> 8) .& BITMASK 6 in
  let memspace := (inst .>> 6) .& 1 in
  if nz (inst .& (1 .<< 15)) then
    value ← mem_read memspace addr;
    write_masked numreg value
  else
    value ← read_ssh numreg;
    mem_write memspace addr value.

Definition emu_movec_imm : cpu P () :=
  inst ← getf cur_inst;
  let numreg := inst .& BITMASK 6 in
  let value := (inst .>> 8) .& BITMASK 8 in
  write_masked numreg value.

Definition emu_movec_ea : cpu P () :=
  inst ← getf cur_inst;
  let numreg := inst .& BITMASK 6 in
  let ea_mode := (inst .>> 8) .& BITMASK 6 in
  let memspace := (inst .>> 6) .& 1 in
  if nz (inst .& (1 .<< 15)) then
    '(retour, addr) ← calc_ea ea_mode;
    value ← (if nz retour then mret addr else mem_read memspace addr);
    write_masked numreg value
  else
    '(_, addr) ← calc_ea ea_mode;
    value ← read_ssh numreg;
    mem_write memspace addr value.

(** The transfer of MOVEM, between P memory and a register. *)
Definition movem (addr : Z) : cpu P () :=
  inst ← getf cur_inst;
  let numreg := inst .& BITMASK 6 in
  (if nz (inst .& (1 .<< 15)) then
     (* Write D *)
     value ← fetch_p addr;
     write_masked numreg value
   else
     (* Read S *)
     value ← read_source numreg;
     mem_write DSP_SPACE_P addr value);;
  add_cycle 4.

Definition emu_movem_aa : cpu P () :=
  inst ← getf cur_inst;
  movem ((inst .>> 8) .& BITMASK 6).

Definition emu_movem_ea : cpu P () :=
  inst ← getf cur_inst;
  '(_, addr) ← calc_ea ((inst .>> 8) .& BITMASK 6);
  movem addr.

Definition emu_movep_0 : cpu P () :=
  inst ← getf cur_inst;
  let addr := 0xffffc0 + (inst .& BITMASK 6) in
  let memspace := (inst .>> 16) .& 1 in
  let numreg := (inst .>> 8) .& BITMASK 6 in
  (if nz (inst .& (1 .<< 15)) then
     (* Write pp *)
     value ← (if is_ab numreg then '(_, value) ← read_accu24 numreg; mret value
              else if numreg =? DSP_REG_SSH then '(value, _) ← stack_pop; mret value
              else rget numreg);
     mem_write memspace addr value
   else
     (* Read pp *)
     value ← mem_read memspace addr;
     write_masked numreg value);;
  add_cycle 2.

Definition emu_movep_1 : cpu P () :=
  inst ← getf cur_inst;
  let xyaddr := 0xffffc0 + (inst .& BITMASK 6) in
  '(_, paddr) ← calc_ea ((inst .>> 8) .& BITMASK 6);
  let memspace := (inst .>> 16) .& 1 in
  (if nz (inst .& (1 .<< 15)) then
     (* Write pp *)
     value ← fetch_p paddr;
     mem_write memspace xyaddr value
   else
     (* Read pp *)
     value ← mem_read memspace xyaddr;
     mem_write DSP_SPACE_P paddr value);;
  add_cycle 4.

(** Between a peripheral address and an effective address or an immediate. *)
Definition movep_ea (perspace peraddr : Z) : cpu P () :=
  inst ← getf cur_inst;
  let ea_mode := (inst .>> 8) .& BITMASK 6 in
  let easpace := (inst .>> 6) .& 1 in
  '(retour, addr) ← calc_ea ea_mode;
  (if nz (inst .& (1 .<< 15)) then
     (* Write pp *)
     value ← (if nz retour then mret addr else mem_read easpace addr);
     mem_write perspace peraddr value
   else
     (* Read pp *)
     value ← mem_read perspace peraddr;
     mem_write easpace addr value);;
  add_cycle 2.

Definition emu_movep_23 : cpu P () :=
  inst ← getf cur_inst;
  movep_ea ((inst .>> 16) .& 1) (0xffffc0 + (inst .& BITMASK 6)).

Definition emu_movep_x_qq : cpu P () :=
  inst ← getf cur_inst;
  movep_ea DSP_SPACE_X (0xffff80 + (inst .& BITMASK 6)).

(** Register to memory when [W] is clear, memory to register when it is set. *)
Definition move_mem (W space addr numreg : Z) : cpu P () :=
  if negb (nz W) then
    value ← read_operand numreg;
    mem_write space addr value
  else
    value ← mem_read space addr;
    write_reg numreg value.

Definition emu_move_x_long : cpu P () :=
  xxxx ← next_word;
  inst_len_inc;;
  inst ← getf cur_inst;
  let W := (inst .>> 6) .& 1 in
  let offreg := DSP_REG_R0 + ((inst .>> 8) .& BITMASK 3) in
  let numreg := inst .& BITMASK 6 in
  r ← rget offreg;
  let x_addr := u32 (r + xxxx) .& BITMASK 24 in
  move_mem W DSP_SPACE_X x_addr numreg.

Definition emu_move_xy_imm (space : Z) : cpu P () :=
  inst ← getf cur_inst;
  let xxx := u32 ((((inst .>> 11) .& BITMASK 6) .<< 1) + ((inst .>> 6) .& 1)) in
  let W := (inst .>> 4) .& 1 in
  let offreg := DSP_REG_R0 + ((inst .>> 8) .& BITMASK 3) in
  let numreg := inst .& BITMASK 4 in
  r ← rget offreg;
  off ← lift (dsp_signextend 7 xxx);
  let addr := u32 (r + off) .& BITMASK 24 in
  move_mem W space addr numreg.

Definition emu_move_x_imm : cpu P () := emu_move_xy_imm DSP_SPACE_X.
Definition emu_move_y_imm : cpu P () := emu_move_xy_imm DSP_SPACE_Y.

(** ** Multiply immediate, normalise, logic *)

Definition emu_mpyi : cpu P () :=
  xxxx ← next_word;
  inst_len_inc;;
  inst ← getf cur_inst;
  let k := (inst .>> 2) .& 1 in
  let d := (inst .>> 3) .& 1 in
  let qq := (inst .>> 4) .& BITMASK 2 in
  let srcreg := input_field qq in
  v ← rget srcreg;
  source ← lift (dsp_mul56 xxxx v (if nz k then SIGN_MINUS else SIGN_PLUS));
  accu_store d source;;
  ccr_update source;;
  sr_clear (1 .<< DSP_SR_V).

Definition emu_norm : cpu P () :=
  inst ← getf cur_inst;
  cursr ← rget DSP_REG_SR;
  let cur_e := (cursr .>> DSP_SR_E) .& 1 in
  let cur_euz := u32 (.~ cur_e) in
  let cur_euz := cur_euz .& ((cursr .>> DSP_SR_U) .& 1) in
  let cur_euz := cur_euz .& u32 (.~ ((cursr .>> DSP_SR_Z) .& 1)) in
  let cur_euz := cur_euz .& 1 in
  let numreg := (inst .>> 3) .& 1 in
  dest ← accu_load numreg;
  let rreg := DSP_REG_R0 + ((inst .>> 8) .& BITMASK 3) in
  '(newsr, dest) ←
    (if nz cur_euz then
       '(newsr, dest) ← lift (dsp_asl56 dest 1);
       r ← rget rreg;
       rset rreg (u32 (r - 1) .& BITMASK 16);;
       mret (newsr, dest)
     else if nz cur_e then
       '(newsr, dest) ← lift (dsp_asr56 dest 1);
       r ← rget rreg;
       rset rreg (u32 (r + 1) .& BITMASK 16);;
       mret (newsr, dest)
     else mret (0, dest));
  accu_store numreg dest;;
  ccr_update dest;;
  sr_clear SR_VC;;
  sr_or newsr.

Definition emu_or_long : cpu P () :=
  xxxx ← next_word;
  inst_len_inc;;
  inst ← getf cur_inst;
  let dstreg := if nz ((inst .>> 3) .& 1) then DSP_REG_B1 else DSP_REG_A1 in
  v ← rget dstreg;
  rset dstreg (v .| xxxx);;
  sr_clear SR_NZV;;
  v ← rget dstreg;
  sr_or (((v .>> 23) .& 1) .<< DSP_SR_N);;
  sr_or (b2z (v =? 0) .<< DSP_SR_Z).

Definition emu_ori : cpu P () :=
  inst ← getf cur_inst;
  let value := (inst .>> 8) .& BITMASK 8 in
  let regnum := inst .& BITMASK 2 in
  match regnum with
  | 0 => (* mr *) sr_or (value .<< 8)
  | 1 => (* ccr *) sr_or value
  | 2 => (* omr *)
      v ← rget DSP_REG_OMR;
      rset DSP_REG_OMR (v .| value)
  | _ => mret tt
  end.

(** ** Repeat *)

(** [LCSAVE = LC; pc_on_rep = 1; loop_rep = 1]. *)
Definition rep_enter : cpu P () :=
  lc ← rget DSP_REG_LC;
  rset DSP_REG_LCSAVE lc;;
  modify (λ s, s <| pc_on_rep := 1 |> <| loop_rep := 1 |>).

Definition emu_rep_aa : cpu P () :=
  inst ← getf cur_inst;
  rep_enter;;
  v ← mem_read ((inst .>> 6) .& 1) ((inst .>> 8) .& BITMASK 6);
  rset DSP_REG_LC v;;
  add_cycle 2.

Definition emu_rep_imm : cpu P () :=
  inst ← getf cur_inst;
  rep_enter;;
  rset DSP_REG_LC (imm12 inst);;
  add_cycle 2.

Definition emu_rep_ea : cpu P () :=
  inst ← getf cur_inst;
  rep_enter;;
  '(_, value) ← calc_ea ((inst .>> 8) .& BITMASK 6);
  v ← mem_read ((inst .>> 6) .& 1) value;
  rset DSP_REG_LC v;;
  add_cycle 2.

Definition emu_rep_reg : cpu P () :=
  inst ← getf cur_inst;
  rep_enter;;
  let numreg := (inst .>> 8) .& BITMASK 6 in
  load_lc numreg;;
  add_cycle 2.

(** ** Control *)

Definition emu_reset : cpu P () := add_cycle 2.

Definition emu_rti : cpu P () :=
  '(newpc, newsr) ← stack_pop;
  set_pc newpc;;
  rset DSP_REG_SR newsr;;
  set_inst_len 0;;
  add_cycle 2.

Definition emu_rts : cpu P () :=
  '(newpc, newsr) ← stack_pop;
  set_pc newpc;;
  set_inst_len 0;;
  add_cycle 2.

Definition emu_stop : cpu P () := mret tt.

Definition emu_sub_x x d : cpu P () :=
  dest ← accu_load d;
  let source := Acc56 (ext24 x) x 0 in
  let '(newsr, dest) := dsp_sub56 source dest in
  accu_store d dest;;
  ccr_update dest;;
  sr_clear SR_VC;;
  sr_or newsr.

Definition emu_sub_imm : cpu P () :=
  inst ← getf cur_inst;
  let xx := (inst .>> 8) .& BITMASK 6 in
  let d := (inst .>> 3) .& 1 in
  emu_sub_x xx d.

Definition emu_sub_long : cpu P () :=
  xxxx ← next_word;
  inst_len_inc;;
  inst ← getf cur_inst;
  let d := (inst .>> 3) .& 1 in
  emu_sub_x xxxx d.

Definition emu_tcc : cpu P () :=
  inst ← getf cur_inst;
  let cc_code := (inst .>> 12) .& BITMASK 4 in
  cc ← calc_cc cc_code;
  if (cc : bool) then
    '(regsrc1, regdest1) ←
      lift (match registers_tcc !! Z.to_nat ((inst .>> 3) .& BITMASK 4) with
            | Some rr => Ok rr
            | None => Fault out_of_bounds
            end);
    (* Read S1 *)
    val ← (if regsrc1 =? DSP_REG_A then accu_load ACC_A
           else if regsrc1 =? DSP_REG_B then accu_load ACC_B
           else
             val1 ← rget regsrc1;
             mret (Acc56 (ext24 val1) val1 0));
    (* Write D1 *)
    (if regdest1 =? DSP_REG_A then accu_store ACC_A val else accu_store ACC_B val);;
    (* S2,D2 transfer *)
    if nz (inst .& (1 .<< 16)) then
      let regsrc2 := DSP_REG_R0 + ((inst .>> 8) .& BITMASK 3) in
      let regdest2 := DSP_REG_R0 + (inst .& BITMASK 3) in
      v ← rget regsrc2;
      rset regdest2 v
    else mret tt
  else mret tt.

Definition emu_wait : cpu P () := mret tt.

End instructions.
