(* ===== verification/DspExec.v ===== *)
(** * Executing instructions: dispatch, program counter, interrupts

    [dsp56k_execute_instruction], [dsp_postexecute_update_pc] and
    [dsp_postexecute_interrupts] of src/hw/xbox/dsp/dsp_cpu.c. *)

From S2P Require Import Prelude Dsp56 DspCore DspDecode DspAlu DspAddr DspCpu DspMove DspInst.

(** ** Interrupts *)

(** [dsp_interrupt[]]: the vector address of each interrupt. *)
Definition dsp_interrupt : list Z :=
  [ 0x00; 0x3e; 0x02; 0x04; 0x06; 0xff; 0x20; 0x22; 0x0e; 0x0c; 0x12; 0x10 ].

(** The bits of SR that the entry to a long interrupt clears. *)
Definition SR_LONG : Z :=
  (1 .<< DSP_SR_LF) .| (1 .<< DSP_SR_T) .| (1 .<< DSP_SR_S1) .| (1 .<< DSP_SR_S0)
  .| (1 .<< DSP_SR_I0) .| (1 .<< DSP_SR_I1).

(** JSR in either of the two encodings the interrupt logic looks for. *)
Definition is_jsr (instr : Z) : bool :=
  ((instr .& 0xfff000) =? 0x0d0000) || ((instr .& 0xffc0ff) =? 0x0bc080).

Definition enter_long (s : dsp_core) : res dsp_core :=
  let s := s <| interrupt_state := DSP_INTERRUPT_LONG |> in
  s ← dsp_stack_push s (interrupt_save_pc s) (reg s DSP_REG_SR) 0;
  let s := set_reg s DSP_REG_SR (reg s DSP_REG_SR .& (BITMASK 16 - SR_LONG)) in
  Ok (set_reg s DSP_REG_SR (reg s DSP_REG_SR .| (interrupt_ipl_to_raise s .<< DSP_SR_I0))).

Definition pipeline_dec (s : dsp_core) : dsp_core :=
  s <| interrupt_pipeline_count := u16 (interrupt_pipeline_count s - 1) |>.

(** The [switch] on the pipeline count while a fast interrupt runs: [inl] where
    the source returns, [inr] where it goes on to the arbitration. *)
Definition fast_interrupt (s : dsp_core) : res (dsp_core + dsp_core) :=
  match interrupt_pipeline_count s with
  | 5 => Ok (inl (pipeline_dec s))
  | 4 =>
      let s := s <| interrupt_save_pc := u16 (pc s) |> in
      let s := s <| pc := interrupt_instr_fetch s |> in
      instr ← read_memory_p s (interrupt_instr_fetch s);
      s ← (if is_jsr instr then enter_long s else Ok s);
      Ok (inl (pipeline_dec s))
  | 3 =>
      s ← (if pc s =? interrupt_instr_fetch s + 1 then
             instr ← read_memory_p s (pc s);
             if is_jsr instr then enter_long s else Ok s
           else Ok s);
      Ok (inl (pipeline_dec s))
  | 2 =>
      let s := if pc s =? interrupt_instr_fetch s + 2
               then s <| pc := interrupt_save_pc s |> else s in
      Ok (inl (pipeline_dec s))
  | 1 => Ok (inl (pipeline_dec s))
  | 0 =>
      Ok (inr (s <| interrupt_save_pc := u16 (-1) |> <| interrupt_instr_fetch := u16 (-1) |>
                 <| interrupt_state := DSP_INTERRUPT_NONE |>))
  | _ => Ok (inr s)
  end.

(** The arbitration loop over the interrupts [l]: the index found so far (0xffff
    for none) and its level. *)
Fixpoint arbitrate (s : dsp_core) (ipl_sr : Z) (l : list Z) (index ipl_to_raise : Z) : Z :=
  match l with
  | [] => index
  | i :: l =>
      if rd (interrupt_is_pending s) i =? 1 then
        let ipl := rd (interrupt_ipl s) i in
        if ipl =? 3 then i
        else if ipl <? ipl_sr then arbitrate s ipl_sr l index ipl_to_raise
        else if ipl <=? ipl_to_raise then arbitrate s ipl_sr l index ipl_to_raise
        else arbitrate s ipl_sr l i ipl
      else arbitrate s ipl_sr l index ipl_to_raise
  end.

(** Take interrupt [index]. *)
Definition raise_interrupt (s : dsp_core) (index : Z) : res dsp_core :=
  let s := s <| interrupt_is_pending := wr (interrupt_is_pending s) index 0 |>
             <| interrupt_counter := u16 (interrupt_counter s - 1) |> in
  let ipl_to_raise := rd (interrupt_ipl s) index + 1 in
  let ipl_to_raise := if 3 <? ipl_to_raise then 3 else ipl_to_raise in
  vectorAddr ← match dsp_interrupt !! Z.to_nat index with
               | Some a => Ok a
               | None => Fault out_of_bounds
               end;
  let s := s <| interrupt_instr_fetch := vectorAddr |> <| interrupt_pipeline_count := 5 |>
             <| interrupt_state := DSP_INTERRUPT_DISABLED |>
             <| interrupt_ipl_to_raise := u16 ipl_to_raise |> in
  if interrupt_instr_fetch s =? 0xe then Fault assert_failed
  else if interrupt_instr_fetch s =? 0x12 then Fault assert_failed
  else if interrupt_instr_fetch s =? 0xff then Fault assert_failed
  else Ok s.

(** The part of [dsp_postexecute_interrupts] after the fast-interrupt pipeline. *)
Definition search_interrupt (s : dsp_core) : res dsp_core :=
  let s := if nz (reg s DSP_REG_SR .& (1 .<< DSP_SR_T))
           then dsp56k_add_interrupt s DSP_INTER_TRACE else s in
  if interrupt_counter s =? 0 then Ok s
  else
    let ipl_sr := (reg s DSP_REG_SR .>> DSP_SR_I0) .& BITMASK 2 in
    let index := arbitrate s ipl_sr (seqZ 0 12) 0xffff (-1) in
    if index =? 0xffff then Ok s else raise_interrupt s index.

Definition dsp_postexecute_interrupts (s : dsp_core) : res dsp_core :=
  if nz (loop_rep s) then Ok s
  else if interrupt_state s =? DSP_INTERRUPT_DISABLED then
    r ← fast_interrupt s;
    match r with
    | inl s => Ok s
    | inr s => search_interrupt s
    end
  else search_interrupt s.

(** ** Program counter *)

(** [--LC; LC &= BITMASK(16)]. *)
Definition dec_lc (s : dsp_core) : dsp_core :=
  set_reg s DSP_REG_LC (u32 (reg s DSP_REG_LC - 1) .& BITMASK 16).

Definition rep_step (s : dsp_core) : dsp_core :=
  if nz (loop_rep s) then
    if pc_on_rep s =? 0 then
      let s := dec_lc s in
      if 0 <? reg s DSP_REG_LC then s <| cur_inst_len := 0 |>
      else set_reg (s <| loop_rep := 0 |>) DSP_REG_LC (reg s DSP_REG_LCSAVE)
    else
      let s := if reg s DSP_REG_LC =? 0 then set_reg s DSP_REG_LC 0x010000 else s in
      s <| pc_on_rep := 0 |>
  else s.

Definition do_step (s : dsp_core) : res dsp_core :=
  if nz (reg s DSP_REG_SR .& (1 .<< DSP_SR_LF)) then
    if pc s =? u32 (reg s DSP_REG_LA + 1) then
      let s := dec_lc s in
      if reg s DSP_REG_LC =? 0 then
        '(saved_pc, saved_sr, s) ← dsp_stack_pop s;
        let s := set_reg s DSP_REG_SR (reg s DSP_REG_SR .& 0x7f) in
        let s := set_reg s DSP_REG_SR (reg s DSP_REG_SR .| (saved_sr .& (1 .<< DSP_SR_LF))) in
        '(la, lc, s) ← dsp_stack_pop s;
        Ok (set_reg (set_reg s DSP_REG_LA la) DSP_REG_LC lc)
      else Ok (s <| pc := reg s DSP_REG_SSH |>)
    else Ok s
  else Ok s.

Definition dsp_postexecute_update_pc (s : dsp_core) : res dsp_core :=
  let s := rep_step s in
  let s := s <| pc := u32 (pc s + cur_inst_len s) |> in
  do_step s.

(** ** Execution *)

Section execute.
Context `{Peripherals P}.

(** The [emu_func] pointers of the opcode table. *)
Definition emu_functions : list (string * cpu P ()) :=
  [ ("emu_add_imm", emu_add_imm); ("emu_add_long", emu_add_long); ("emu_and_imm", emu_and_imm);
    ("emu_and_long", emu_and_long); ("emu_andi", emu_andi); ("emu_asl_imm", emu_asl_imm);
    ("emu_asr_imm", emu_asr_imm); ("emu_bcc_imm", emu_bcc_imm); ("emu_bcc_long", emu_bcc_long);
    ("emu_bchg_aa", emu_bchg_aa); ("emu_bchg_ea", emu_bchg_ea); ("emu_bchg_pp", emu_bchg_pp);
    ("emu_bchg_reg", emu_bchg_reg); ("emu_bclr_aa", emu_bclr_aa); ("emu_bclr_ea", emu_bclr_ea);
    ("emu_bclr_pp", emu_bclr_pp); ("emu_bclr_reg", emu_bclr_reg); ("emu_bra_imm", emu_bra_imm);
    ("emu_bra_long", emu_bra_long); ("emu_brclr_pp", emu_brclr_pp);
    ("emu_brclr_reg", emu_brclr_reg); ("emu_brset_pp", emu_brset_pp);
    ("emu_brset_reg", emu_brset_reg); ("emu_bset_aa", emu_bset_aa); ("emu_bset_ea", emu_bset_ea);
    ("emu_bset_pp", emu_bset_pp); ("emu_bset_reg", emu_bset_reg); ("emu_bsr_imm", emu_bsr_imm);
    ("emu_bsr_long", emu_bsr_long); ("emu_btst_aa", emu_btst_aa); ("emu_btst_ea", emu_btst_ea);
    ("emu_btst_pp", emu_btst_pp); ("emu_btst_reg", emu_btst_reg); ("emu_cmp_imm", emu_cmp_imm);
    ("emu_cmp_long", emu_cmp_long); ("emu_cmpu", emu_cmpu); ("emu_dec", emu_dec);
    ("emu_div", emu_div); ("emu_do_aa", emu_do_aa); ("emu_do_ea", emu_do_ea);
    ("emu_do_imm", emu_do_imm); ("emu_do_reg", emu_do_reg); ("emu_dor_imm", emu_dor_imm);
    ("emu_dor_reg", emu_dor_reg); ("emu_enddo", emu_enddo); ("emu_illegal", emu_illegal);
    ("emu_inc", emu_inc); ("emu_jcc_ea", emu_jcc_ea); ("emu_jcc_imm", emu_jcc_imm);
    ("emu_jclr_aa", emu_jclr_aa); ("emu_jclr_ea", emu_jclr_ea); ("emu_jclr_pp", emu_jclr_pp);
    ("emu_jclr_reg", emu_jclr_reg); ("emu_jmp_ea", emu_jmp_ea); ("emu_jmp_imm", emu_jmp_imm);
    ("emu_jscc_ea", emu_jscc_ea); ("emu_jscc_imm", emu_jscc_imm); ("emu_jsclr_aa", emu_jsclr_aa);
    ("emu_jsclr_ea", emu_jsclr_ea); ("emu_jsclr_pp", emu_jsclr_pp);
    ("emu_jsclr_reg", emu_jsclr_reg); ("emu_jset_aa", emu_jset_aa); ("emu_jset_ea", emu_jset_ea);
    ("emu_jset_pp", emu_jset_pp); ("emu_jset_reg", emu_jset_reg); ("emu_jsr_ea", emu_jsr_ea);
    ("emu_jsr_imm", emu_jsr_imm); ("emu_jsset_aa", emu_jsset_aa); ("emu_jsset_ea", emu_jsset_ea);
    ("emu_jsset_pp", emu_jsset_pp); ("emu_jsset_reg", emu_jsset_reg); ("emu_lua", emu_lua);
    ("emu_lua_rel", emu_lua_rel); ("emu_move_x_imm", emu_move_x_imm);
    ("emu_move_x_long", emu_move_x_long); ("emu_move_y_imm", emu_move_y_imm);
    ("emu_movec_aa", emu_movec_aa); ("emu_movec_ea", emu_movec_ea);
    ("emu_movec_imm", emu_movec_imm); ("emu_movec_reg", emu_movec_reg);
    ("emu_movem_aa", emu_movem_aa); ("emu_movem_ea", emu_movem_ea); ("emu_movep_0", emu_movep_0);
    ("emu_movep_1", emu_movep_1); ("emu_movep_23", emu_movep_23);
    ("emu_movep_x_qq", emu_movep_x_qq); ("emu_mpyi", emu_mpyi); ("emu_nop", on_core emu_nop);
    ("emu_norm", emu_norm); ("emu_or_long", emu_or_long); ("emu_ori", emu_ori);
    ("emu_rep_aa", emu_rep_aa); ("emu_rep_ea", emu_rep_ea); ("emu_rep_imm", emu_rep_imm);
    ("emu_rep_reg", emu_rep_reg); ("emu_reset", emu_reset); ("emu_rti", emu_rti);
    ("emu_rts", emu_rts); ("emu_stop", emu_stop); ("emu_sub_imm", emu_sub_imm);
    ("emu_sub_long", emu_sub_long); ("emu_tcc", emu_tcc); ("emu_wait", emu_wait) ]%string.

Definition find_emu (f : string) : option (cpu P ()) :=
  '(_, (_, m)) ← list_find (λ e, e.1 = f) emu_functions;
  Some m.

(** Decode and execute the current instruction. *)
Definition run_inst : cpu P () :=
  inst ← getf cur_inst;
  if inst <? 0x100000 then
    op ← lift (lookup_opcode inst);
    match op ≫= emu_func with
    | Some f => match find_emu f with Some m => m | None => lift (Fault undefined_behaviour) end
    | None => on_core emu_undefined
    end
  else
    match opcodes_parmove !! Z.to_nat ((inst .>> 20) .& BITMASK 4) with
    | Some m => m
    | None => lift (Fault out_of_bounds)
    end.

Definition dsp56k_execute_instruction : cpu P () :=
  modify (λ s, s <| disasm_memory_ptr := 0 |>);;
  pc ← getf pc;
  inst ← fetch_p pc;
  modify (λ s, s <| cur_inst := inst |> <| cur_inst_len := 1 |> <| instr_cycle := 2 |>);;
  run_inst;;
  on_core dsp_postexecute_update_pc;;
  on_core dsp_postexecute_interrupts.

End execute.
