(* ===== verification/DspSafe.v ===== *)
(** * Memory safety of the DSP56300 emulator

    One invariant holds of the core between instructions ([core_ok]): registers
    within their widths, 24-bit memories, a well-formed interrupt state.  Every
    instruction keeps it and never indexes outside an array of the core: it
    completes, or stops at an [assert] or at a shift C leaves undefined.  The
    peripherals are only known through the class [PeripheralsOk]. *)

From S2P Require Import Prelude Dsp56 DspCore DspDecode DspAlu DspAddr DspCpu DspMove DspInst DspExec.

(** ** The invariant *)

(** The widths every instruction respects.  They are those of [registers_mask]
    except where the code stores more: MAX leaves 24 bits in an extension word,
    LUA and the bit-reversed update more than 16 in an address register, REP 24
    in the loop counter. *)
Definition loose_bits (r : Z) : Z :=
  if (0x20 <=? r) && (r <? 0x28) then 16
  else if r =? DSP_REG_SR then 16
  else if r =? DSP_REG_OMR then 8
  else if r =? DSP_REG_SP then 6
  else if (DSP_REG_SSH <=? r) && (r <=? DSP_REG_LA) then 16
  else 24.

Record core_ok (s : dsp_core) : Prop := {
  ok_regs : regs_fit loose_bits s;
  ok_ram : ram_ok s;
  ok_pc : 0 ≤ pc s < 2 ^ 32;
  ok_ipl i : 0 ≤ i < 12 → -1 ≤ rd (interrupt_ipl s) i ≤ 3;
  ok_raise : 0 ≤ interrupt_ipl_to_raise s ≤ 3;
  ok_fetch : 0 ≤ interrupt_instr_fetch s < 2 ^ 16;
  ok_save : 0 ≤ interrupt_save_pc s < 2 ^ 16
}.

(** What the peripherals promise: they keep their own invariant and that of the
    core, their registers are 24-bit, and the faults they raise are listed. *)
Class PeripheralsOk (P : Type) `{Peripherals P} := {
  periph_ok : P → Prop;
  periph_fault : fault → Prop;
  read_peripheral_ok s p address : core_ok s → periph_ok p →
    0 ≤ address < 2 ^ 24 →
    match read_peripheral s p address with
    | Ok v => 0 ≤ v < 2 ^ 24
    | Fault e => periph_fault e
    end;
  write_peripheral_ok s p address value : core_ok s → periph_ok p →
    0 ≤ address < 2 ^ 24 → 0 ≤ value < 2 ^ 24 →
    match write_peripheral s p address value with
    | Ok (s', p') => core_ok s' ∧ periph_ok p'
    | Fault e => periph_fault e
    end
}.

Lemma loose_alu : alu_widths loose_bits.
Proof.
  split; try done.
  1-3: by intros d [-> | ->].
  intros r Hr. unfold is_input in Hr. rewrite !elem_of_cons in Hr.
  by destruct Hr as [-> | [-> | [-> | [-> | []%not_elem_of_nil]]]].
Qed.

Lemma loose_max r : 6 ≤ loose_bits r ≤ 24.
Proof. unfold loose_bits. repeat case_match; lia. Qed.

Lemma loose_low r : r < 0x20 → loose_bits r = 24.
Proof.
  intros. unfold loose_bits, DSP_REG_SR, DSP_REG_OMR, DSP_REG_SP, DSP_REG_SSH, DSP_REG_LA.
  repeat case_match; try done; lia.
Qed.

Lemma loose_M n : 0 ≤ n < 8 → loose_bits (DSP_REG_M0 + n) = 16.
Proof. intros. unfold loose_bits, DSP_REG_M0. by rewrite (proj2 (Z.leb_le _ _)), (proj2 (Z.ltb_lt _ _)) by lia. Qed.

Lemma loose_R n : 0 ≤ n < 8 → loose_bits (DSP_REG_R0 + n) = 24.
Proof. intros. apply loose_low. unfold DSP_REG_R0. lia. Qed.

Lemma loose_mask : mask_le loose_bits.
Proof. apply mask_le_all, (bool_decide_eq_true_1 (Forall _ _)). vm_compute. reflexivity. Qed.

(** Only registers, stack, pending interrupts and the instruction's length and
    cycles differ. *)
Definition regs_frame (s s' : dsp_core) : Prop :=
  s' = s <| registers := registers s' |> <| stack0 := stack0 s' |> <| stack1 := stack1 s' |>
         <| interrupt_is_pending := interrupt_is_pending s' |>
         <| interrupt_counter := interrupt_counter s' |>
         <| instr_cycle := instr_cycle s' |> <| cur_inst_len := cur_inst_len s' |>.

Lemma regs_frame_trans s1 s2 s3 : regs_frame s1 s2 → regs_frame s2 s3 → regs_frame s1 s3.
Proof. unfold regs_frame. intros E1 E2. rewrite E2 at 1. rewrite E1 at 1. reflexivity. Qed.

Lemma add_interrupt_frame s i : regs_frame s (dsp56k_add_interrupt s i).
Proof. unfold dsp56k_add_interrupt. repeat case_match; by destruct s. Qed.

(** Replacing those by ones that fit keeps the invariant. *)
Lemma core_ok_regs s s' : core_ok s → regs_fit loose_bits s' → regs_frame s s' → core_ok s'.
Proof. intros [] Hr E. split; try done; rewrite E; cbn; done. Qed.

Lemma core_ok_frame rs s s' : core_ok s → regs_fit loose_bits s' → frame rs s s' → core_ok s'.
Proof. intros Hs Hr [E _]. apply (core_ok_regs s); [done | done |]. by rewrite E. Qed.

Lemma core_reg s r : core_ok s → 0 ≤ r → 0 ≤ reg s r < 2 ^ 24.
Proof.
  intros Hs Hr. destruct (ok_regs s Hs) as (H & _ & _). specialize (H r Hr).
  pose proof (loose_max r). assert (2 ^ loose_bits r ≤ 2 ^ 24) by (apply Z.pow_le_mono_r; lia). lia.
Qed.

Lemma core_set_reg s r v : core_ok s → 0 ≤ r → 0 ≤ v < 2 ^ loose_bits r → core_ok (set_reg s r v).
Proof. intros Hs Hr Hv. apply (core_ok_regs s); [done | | by destruct s]. apply set_reg_fit; [apply Hs | done..]. Qed.

(** A core out of reset. *)
Lemma reset_core_ok s : ram_ok s → 0 ≤ interrupt_ipl_to_raise s ≤ 3 → core_ok (dsp56k_reset_cpu s).
Proof.
  intros Hr Hi. split; try done.
  - apply reset_fit; [apply loose_mask |]. intros r. pose proof (loose_max r). lia.
  - intros i Hi12. unfold dsp56k_reset_cpu. change (seqZ 0 8) with [0; 1; 2; 3; 4; 5; 6; 7].
    change (seqZ 0 5) with [0; 1; 2; 3; 4]. change (seqZ 5 7) with [5; 6; 7; 8; 9; 10; 11].
    cbn. rewrite !rd_wr. repeat (case_decide; [lia |]). lia.
Qed.

(** A core without peripherals. *)
Lemma detached_ok : @PeripheralsOk () detached.
Proof. by refine {| periph_ok := λ _, True; periph_fault := eq assert_failed |}. Defined.

(** *** Frames of the stack and register writes *)

Lemma stack_push_frame s curpc cursr sshOnly s' :
  dsp_stack_push s curpc cursr sshOnly = Ok s' → regs_frame s s'.
Proof.
  unfold dsp_stack_push. intros E. apply bind_ok in E as (s1 & E1 & [= <-]).
  apply (regs_frame_trans s s1); [| by repeat case_match; destruct s1].
  repeat case_match; simplify_eq; [apply add_interrupt_frame | by destruct s1].
Qed.

Lemma stack_pop_frame s newpc newsr s' :
  dsp_stack_pop s = Ok (newpc, newsr, s') → regs_frame s s'.
Proof.
  unfold dsp_stack_pop. intros E. apply bind_ok in E as (s1 & E1 & [= _ _ <-]).
  apply (regs_frame_trans s s1); [| by destruct s1].
  repeat case_match; simplify_eq; [apply add_interrupt_frame | by destruct s1].
Qed.

Lemma write_reg_frame s r v s' : dsp_write_reg s r v = Ok s' → regs_frame s s'.
Proof.
  unfold dsp_write_reg. do 4 (case_match; [intros; simplify_eq; by destruct s |]).
  case_match.
  { intros E. apply bind_ok in E as (s1 & E1 & [= <-]).
    apply (regs_frame_trans s s1); [| by destruct s1].
    repeat case_match; simplify_eq; [| by destruct s].
    apply (regs_frame_trans s (dsp56k_add_interrupt s DSP_INTER_STACK_ERROR));
      [apply add_interrupt_frame |]. by destruct (dsp56k_add_interrupt s _). }
  case_match; [apply stack_push_frame |].
  repeat case_match; intros; simplify_eq; by destruct s.
Qed.

(** ** Safe computations *)

Section safe.
Context `{PeripheralsOk P}.

Definition benign (e : fault) : Prop := e = assert_failed ∨ e = undefined_behaviour ∨ periph_fault e.

(** The outcome of a step that keeps the invariants, with a value in [Q], or stops
    at a benign fault. *)
Definition good {A} (Q : A → Prop) (r : res (A * dsp_core * P)) : Prop :=
  match r with
  | Ok (a, s', p') => Q a ∧ core_ok s' ∧ periph_ok p'
  | Fault e => benign e
  end.

Definition safe {A} (m : cpu P A) (Q : A → Prop) : Prop :=
  ∀ s p, core_ok s → periph_ok p → good Q (m s p).

Definition word (v : Z) : Prop := 0 ≤ v < 2 ^ 24.
Definition flags (v : Z) : Prop := 0 ≤ v < 2 ^ 16.
Definition flags2 (r : Z * Z) : Prop := flags r.1 ∧ flags r.2.
Definition words (r : Z * Z) : Prop := word r.1 ∧ word r.2.
Definition any {A} (_ : A) : Prop := True.

Lemma safe_ret {A} (a : A) (Q : A → Prop) : Q a → safe (mret a) Q.
Proof. intros Ha s p Hs Hp; unfold safe, good in *. by split_and!. Qed.

Lemma safe_bind {A B} (m : cpu P A) (f : A → cpu P B) (R : A → Prop) (Q : B → Prop) :
  safe m R → (∀ a, R a → safe (f a) Q) → safe (m ≫= f) Q.
Proof.
  intros Hm Hf s p Hs Hp; unfold safe, good in *. specialize (Hm s p Hs Hp). unfold mbind, cpu_bind.
  destruct (m s p) as [[[a s'] p'] | e]; [| done]. destruct Hm as (Ha & Hs' & Hp').
  by apply Hf.
Qed.

Lemma safe_weaken {A} (m : cpu P A) (Q R : A → Prop) : safe m Q → (∀ a, Q a → R a) → safe m R.
Proof.
  intros Hm HQ s p Hs Hp; unfold safe, good in *. specialize (Hm s p Hs Hp).
  destruct (m s p) as [[[a s'] p'] | e]; [| done]. naive_solver.
Qed.

Lemma safe_getf {A} (f : dsp_core → A) (Q : A → Prop) :
  (∀ s, core_ok s → Q (f s)) → safe (getf f) Q.
Proof. intros Hf s p Hs Hp; unfold safe, good in *. split_and!; auto. Qed.

Lemma safe_modify f : (∀ s, core_ok s → core_ok (f s)) → safe (modify f) any.
Proof. intros Hf s p Hs Hp; unfold safe, good in *. split_and!; [done | auto..]. Qed.

Lemma safe_on_core f :
  (∀ s, core_ok s → match f s with Ok s' => core_ok s' | Fault e => e = assert_failed end) →
  safe (on_core f) any.
Proof.
  intros Hf s p Hs Hp; unfold safe, good in *. specialize (Hf s Hs). unfold on_core.
  destruct (f s) as [s' | e]; [done | by left].
Qed.

Lemma safe_from_core {A} (f : dsp_core → res (A * dsp_core)) (Q : A → Prop) :
  (∀ s, core_ok s → match f s with Ok (a, s') => Q a ∧ core_ok s' | Fault e => e = assert_failed end) →
  safe (from_core f) Q.
Proof.
  intros Hf s p Hs Hp; unfold safe, good in *. specialize (Hf s Hs). unfold from_core.
  destruct (f s) as [[a s'] | e]; [naive_solver | by left].
Qed.

Lemma safe_lift {A} (r : res A) (Q : A → Prop) :
  match r with Ok a => Q a | Fault e => e = assert_failed ∨ e = undefined_behaviour end →
  safe (lift r) Q.
Proof. intros Hr s p Hs Hp; unfold safe, good in *. unfold lift, benign. destruct r; naive_solver. Qed.

(** *** Registers *)

Lemma reg_index_ok r : 0 ≤ r < 64 → reg_index r = true.
Proof. intros. unfold reg_index. rewrite (proj2 (Z.leb_le _ _)), (proj2 (Z.ltb_lt _ _)) by lia. done. Qed.

Lemma safe_rget_fit r : 0 ≤ r < 64 → safe (rget r) (λ v, 0 ≤ v < 2 ^ loose_bits r).
Proof.
  intros Hr s p Hs Hp; unfold safe, good in *. unfold rget. rewrite reg_index_ok by done. split_and!; try done.
  all: destruct (ok_regs s Hs) as (F & _); apply F; lia.
Qed.

Lemma safe_rget r : 0 ≤ r < 64 → safe (rget r) word.
Proof.
  intros Hr s p Hs Hp; unfold safe, good in *. unfold rget. rewrite reg_index_ok by done.
  split_and!; try done; apply core_reg; done || lia.
Qed.

Lemma safe_rset_fit r v : 0 ≤ r < 64 → 0 ≤ v < 2 ^ loose_bits r → safe (rset r v) any.
Proof.
  intros Hr Hv s p Hs Hp; unfold safe, good in *. unfold rset. rewrite reg_index_ok by done.
  split_and!; try done. apply core_set_reg; done || lia.
Qed.

Lemma safe_rset r v : 0 ≤ r < 0x20 → word v → safe (rset r v) any.
Proof. intros Hr Hv. apply safe_rset_fit; [lia |]. by rewrite loose_low by lia. Qed.

Lemma safe_rset_lc v : word v → safe (rset DSP_REG_LC v) any.
Proof. intros Hv. by apply safe_rset_fit. Qed.

Lemma safe_rset_lcsave v : word v → safe (rset DSP_REG_LCSAVE v) any.
Proof. intros Hv. by apply safe_rset_fit. Qed.

Lemma safe_rset_la v : flags v → safe (rset DSP_REG_LA v) any.
Proof. intros Hv. by apply safe_rset_fit. Qed.

Lemma safe_rset_sr v : flags v → safe (rset DSP_REG_SR v) any.
Proof. intros Hv. by apply safe_rset_fit. Qed.

Lemma safe_rset_omr v : 0 ≤ v < 2 ^ 8 → safe (rset DSP_REG_OMR v) any.
Proof. intros Hv. by apply safe_rset_fit. Qed.

Lemma safe_rget_sr : safe (rget DSP_REG_SR) flags.
Proof. by apply safe_rget_fit. Qed.

Lemma safe_rget_omr : safe (rget DSP_REG_OMR) (λ v, 0 ≤ v < 2 ^ 8).
Proof. by apply safe_rget_fit. Qed.

(** [registers[r] = v & BITMASK(registers_mask[r])]. *)
Lemma safe_mask_of r : 0 ≤ r < 64 →
  safe (mask_of r) (λ bits, 0 ≤ bits ≤ loose_bits r).
Proof.
  intros Hr. apply safe_lift. destruct (registers_mask !! Z.to_nat r) as [bits |] eqn:E.
  - pose proof (loose_mask r Hr) as Hb. by rewrite E in Hb.
  - apply lookup_ge_None in E. cbn in E. lia.
Qed.

Lemma masked_fit v bits n : 0 ≤ bits ≤ n → 0 ≤ v .& BITMASK bits < 2 ^ n.
Proof.
  intros. pose proof (masked_bound v bits). assert (2 ^ bits ≤ 2 ^ n) by (apply Z.pow_le_mono_r; lia). lia.
Qed.

(** *** Primitives of the instruction monad *)

Lemma core_ok_pc s v : core_ok s → 0 ≤ v < 2 ^ 32 → core_ok (s <| pc := v |>).
Proof. intros [] Hv. by split. Qed.

Lemma safe_set_pc v : 0 ≤ v < 2 ^ 32 → safe (set_pc v) any.
Proof. intros Hv. apply safe_modify. intros. by apply core_ok_pc. Qed.

Lemma safe_set_inst_len v : safe (set_inst_len v) any.
Proof. apply safe_modify. intros s []. by split. Qed.

Lemma safe_inst_len_inc : safe inst_len_inc any.
Proof. apply safe_modify. intros s []. by split. Qed.

Lemma safe_add_cycle n : safe (add_cycle n) any.
Proof. apply safe_modify. intros s []. by split. Qed.

Lemma read_p_ok s address : core_ok s →
  match read_memory_p s address with Ok v => word v | Fault e => e = assert_failed end.
Proof.
  intros Hs. unfold read_memory_p, assert. destruct (ok_ram s Hs) as (_ & _ & Hp & _).
  cbn. mem_cases; try done. apply Hp.
Qed.

Lemma safe_fetch_p address : safe (fetch_p address) word.
Proof.
  intros s p Hs Hp; unfold safe, good in *. pose proof (read_p_ok s address Hs) as Hv. unfold fetch_p.
  destruct (read_memory_p s address); [done | by left].
Qed.

Lemma safe_next_word : safe next_word word.
Proof.
  apply (safe_bind _ _ any); [by apply safe_getf |]. intros pc _. apply safe_fetch_p.
Qed.

Lemma s16_bound z : - 2 ^ 15 ≤ s16 z < 2 ^ 15.
Proof. arith. Qed.

Lemma update_rn_ok s numreg modifier : core_ok s → 0 ≤ numreg < 8 → - 2 ^ 15 ≤ modifier < 2 ^ 15 →
  ∃ s', emu_update_rn s numreg modifier = Ok s' ∧ core_ok s' ∧ word (Rn s' numreg).
Proof.
  intros Hs Hn Hm.
  destruct (update_rn_fit loose_bits loose_R loose_M s numreg modifier) as (s' & E & Hf & Hr);
    [apply Hs | done..|].
  exists s'. split; [done |]. split.
  - apply (core_ok_regs s); [done | done |]. by rewrite Hr.
  - by apply (Rn_bound loose_bits loose_R).
Qed.

Lemma set_Rn_ok s numreg v : core_ok s → 0 ≤ numreg < 8 → word v → core_ok (set_Rn s numreg v).
Proof.
  intros Hs Hn Hv. apply core_set_reg; [done | unfold DSP_REG_R0; lia |]. by rewrite loose_R.
Qed.

Lemma safe_calc_ea mode : safe (calc_ea mode) words.
Proof.
  apply safe_from_core. intros s Hs. unfold emu_calc_ea.
  set (n := mode .& BITMASK 3). assert (Hn : 0 ≤ n < 8) by (by apply (masked_bound mode 3)).
  pose proof (Rn_bound loose_bits loose_R s n (ok_regs s Hs) Hn) as HR.
  assert (Hc : core_ok (s <| instr_cycle := u16 (instr_cycle s + 2) |>)) by (by destruct Hs).
  pose proof (update_rn_ok s n) as U. 
  assert (Uc : ∀ m, - 2 ^ 15 ≤ m < 2 ^ 15 → ∃ s', emu_update_rn _ n m = Ok s' ∧ core_ok s' ∧ word (Rn s' n))
    by (intros m Hm; exact (update_rn_ok _ n m Hc Hn Hm)).
  pose proof (s16_bound (u32 (- Nn s n))). pose proof (s16_bound (Nn s n)).
  destruct ((mode .>> 3) .& BITMASK 3) as [| v | v]; [| | done];
    [| destruct v as [[[] | [] |] | [[] | [] |] |]; try done];
    cbn -[read_memory_p emu_update_rn s16 u32];
    try match goal with
    | |- context [emu_update_rn s n ?m] => destruct (U m Hs Hn) as (s' & -> & ? & ?); [lia | done]
    | |- context [emu_update_rn _ n ?m] =>
        destruct (Uc m) as (s' & -> & ? & ?); [done || lia |]; split; [done |];
        done || by apply set_Rn_ok
    end.
  match goal with |- context [read_memory_p ?s1 ?a] => pose proof (read_p_ok s1 a Hc) as HP;
    destruct (read_memory_p s1 a) end; [| done]. cbn. split; [| by destruct Hc].
  split; [by destruct (n =? 0) | done].
Qed.

Lemma safe_read_accu24 numreg : safe (read_accu24 numreg) words.
Proof.
  apply safe_from_core. intros s Hs. unfold emu_pm_read_accu24.
  assert (core_ok (or_sr s (1 .<< DSP_SR_L))).
  { apply (core_ok_regs s); [done | | by destruct s]. apply or_sr_fit; [apply loose_alu | apply Hs | done]. }
  repeat case_match; simplify_eq; (split; [split | done]); try done; by apply masked_bound.
Qed.

Lemma safe_stack_push curpc cursr sshOnly : safe (stack_push curpc cursr sshOnly) any.
Proof.
  apply safe_on_core. intros s Hs.
  pose proof (stack_push_fit loose_bits loose_mask s curpc cursr sshOnly (ok_regs s Hs)) as Hf.
  destruct (dsp_stack_push s curpc cursr sshOnly) eqn:E; [| done].
  by eapply core_ok_regs, stack_push_frame.
Qed.

Lemma stack_pop_ok s : core_ok s →
  match dsp_stack_pop s with
  | Ok (r, s') => flags2 r ∧ core_ok s'
  | Fault e => e = assert_failed
  end.
Proof.
  intros Hs.
  pose proof (stack_pop_fit loose_bits loose_mask s (ok_regs s Hs) eq_refl eq_refl) as Hf.
  destruct (dsp_stack_pop s) as [[[newpc newsr] s'] |] eqn:E; [| done].
  destruct Hf as (H1 & H2 & Hf). split; [done |]. by eapply core_ok_regs, stack_pop_frame.
Qed.

Lemma safe_stack_pop : safe stack_pop flags2.
Proof. apply safe_from_core. apply stack_pop_ok. Qed.

Lemma safe_write_reg r v : 0 ≤ r < 64 → word v → safe (write_reg r v) any.
Proof.
  intros Hr Hv. apply safe_on_core. intros s Hs.
  pose proof (write_reg_fit loose_bits loose_mask s r v (ok_regs s Hs) Hr Hv) as Hf.
  destruct (dsp_write_reg s r v) eqn:E; [| by destruct Hf].
  by eapply core_ok_regs, write_reg_frame.
Qed.

Lemma safe_calc_cc cc : safe (calc_cc cc) any.
Proof. by apply safe_getf. Qed.

(** Steps that only change registers. *)
Lemma safe_modify_regs f :
  (∀ s, regs_fit loose_bits s → regs_fit loose_bits (f s)) → (∀ s, regs_frame s (f s)) →
  safe (modify f) any.
Proof. intros Hf Hr. apply safe_modify. intros s Hs. by apply (core_ok_regs s); [| apply Hf, Hs |]. Qed.

Lemma frame_regs_frame rs s s' : frame rs s s' → regs_frame s s'.
Proof. intros [E _]. unfold regs_frame. rewrite E. by destruct s. Qed.

Lemma safe_sr_clear mask : flags mask → safe (sr_clear mask) any.
Proof.
  intros Hm. apply safe_modify_regs; [| by intros []]. intros. by apply clear_sr_fit; [apply loose_alu |..].
Qed.

Lemma safe_sr_or v : flags v → safe (sr_or v) any.
Proof.
  intros Hm. apply safe_modify_regs; [| by intros []]. intros. by apply or_sr_fit; [apply loose_alu |..].
Qed.

Lemma safe_ccr_update a : safe (ccr_update a) any.
Proof.
  apply safe_modify_regs; intros s; [apply ccr_fit, loose_alu |].
  eapply frame_regs_frame, ccr_frame.
Qed.

Definition accu (a : acc56) : Prop := accu_fit loose_bits a.

Lemma wf56_accu a : wf56 a → accu a.
Proof. apply wf56_fit, loose_alu. Qed.

Lemma safe_accu_load d : is_accu d → safe (accu_load d) accu.
Proof. intros Hd. apply safe_getf. intros s Hs. by apply load56_fit; [apply loose_alu | apply Hs |]. Qed.

Lemma safe_accu_store d a : is_accu d → accu a → safe (accu_store d a) any.
Proof.
  intros Hd Ha. apply safe_modify_regs; intros s.
  - intros Hs. by apply store56_fit; [apply loose_alu |..].
  - eapply frame_regs_frame, store56_frame.
Qed.

(** *** Memory *)

Lemma core_ok_ram s s' : core_ok s → ram_ok s' →
  s' = s <| xram := xram s' |> <| yram := yram s' |> <| pram := pram s' |>
         <| mixbuffer := mixbuffer s' |> → core_ok s'.
Proof. intros [] Hr E. split; try done; rewrite E; cbn; done. Qed.

Lemma safe_mem_read space address : word address → safe (mem_read space address) word.
Proof.
  intros Ha s p Hs Hp; unfold safe, good in *. unfold mem_read.
  assert (Hv : match dsp56k_read_memory s p space address with
               | Ok v => word v | Fault e => benign e end).
  { pose proof (read_p_ok s address Hs) as HP. destruct (ok_ram s Hs) as (Hx & Hy & _ & Hm).
    pose proof (read_peripheral_ok s p address Hs Hp Ha) as HR.
    unfold dsp56k_read_memory, benign. rewrite (top_byte_small address) by done. unfold assert. cbn.
    mem_cases; try (by left); try apply Hx; try apply Hy; try apply Hm.
    - destruct (read_peripheral s p address); auto.
    - destruct (read_memory_p s address); auto. }
  destruct (dsp56k_read_memory s p space address); done.
Qed.

Lemma safe_mem_write space address value : word address → word value →
  safe (mem_write space address value) any.
Proof.
  intros Ha Hv s p Hs Hp; unfold safe, good in *. unfold mem_write.
  assert (HW : match dsp56k_write_memory s p space address value with
               | Ok (s', p') => core_ok s' ∧ periph_ok p' | Fault e => benign e end).
  { pose proof (write_peripheral_ok s p address value Hs Hp Ha Hv) as HR.
    destruct (ok_ram s Hs) as (Hx & Hy & Hq & Hm).
    unfold dsp56k_write_memory, write_memory_raw, benign.
    rewrite !(top_byte_small address), !(top_byte_small value) by done. unfold assert. cbn.
    mem_cases; try (by left); try (case_match; [case_match; done | by right; right]);
      split; try done; apply (core_ok_ram s); try done; try (by destruct s);
      split_and!; try done; by apply mem_ok_wr. }
  destruct (dsp56k_write_memory s p space address value) as [[s' p'] |]; done.
Qed.

(** A store of a wider value stops at the assertion. *)
Lemma safe_mem_write32 space address value : word address → 0 ≤ value < 2 ^ 32 →
  safe (mem_write space address value) any.
Proof.
  intros Ha Hv. destruct (Z.lt_ge_cases value (2 ^ 24));
    [apply safe_mem_write; [done | unfold word; lia] |].
  intros s p Hs Hp; unfold safe, good in *. unfold mem_write, dsp56k_write_memory. rewrite (top_byte_clear value) by done.
  rewrite (proj2 (Z.ltb_ge value (2 ^ 24))) by done. by left.
Qed.

(** *** The data ALU *)

Lemma emu_undefined_safe s : core_ok s →
  match emu_undefined s with Ok s' => core_ok s' | Fault e => e = assert_failed end.
Proof. intros Hs. unfold emu_undefined. repeat case_match; simplify_eq; try done; by destruct Hs. Qed.

Lemma alu_entry_fit i f : opcodes_alu !! i = Some f → f = emu_undefined ∨ alu_fit loose_bits f.
Proof.
  intros Hf. destruct (decide (i = MAX_OPCODE)) as [-> | Hi].
  { right. assert (E : opcodes_alu !! MAX_OPCODE = Some emu_max) by reflexivity.
    rewrite E in Hf. injection Hf as <-.
    by apply emu_max_fit; [apply loose_alu |]. }
  pose proof (opcodes_alu_fit loose_bits loose_alu) as Hall. rewrite Forall_lookup in Hall.
  destruct (decide (i < MAX_OPCODE)%nat).
  - apply (Hall i). by rewrite list_lookup_delete_lt.
  - apply (Hall (i - 1)%nat). rewrite list_lookup_delete_ge by (unfold MAX_OPCODE in *; lia).
    rewrite <- Hf. f_equal. unfold MAX_OPCODE in *. lia.
Qed.

Lemma safe_execute_alu : safe execute_alu any.
Proof.
  apply (safe_bind _ _ any); [by apply safe_getf |]. intros inst _.
  pose proof (masked_bound inst 8 ltac:(lia)) as Hi.
  destruct (opcodes_alu !! Z.to_nat (inst .& BITMASK 8)) as [f |] eqn:E.
  - apply safe_on_core. intros s Hs. destruct (alu_entry_fit _ _ E) as [-> | Hf].
    + by apply emu_undefined_safe.
    + destruct (Hf s (ok_regs s Hs)) as (s' & -> & Hs' & F).
      by eapply core_ok_regs, frame_regs_frame.
  - apply lookup_ge_None in E. change (length opcodes_alu) with 256%nat in E. lia.
Qed.

(** *** Operands *)

Lemma safe_read_operand numreg : 0 ≤ numreg < 64 → safe (read_operand numreg) word.
Proof.
  intros Hn. unfold read_operand. case_match; [| by apply safe_rget].
  eapply safe_bind; [apply safe_read_accu24 |]. intros [l v] [_ Hv]. by apply safe_ret.
Qed.

Lemma word_ext24 v : word (ext24 v).
Proof. pose proof (ext24_bound v). unfold word. lia. Qed.

Lemma safe_accu_move d v : is_accu d → word v → safe (accu_move d v) any.
Proof.
  intros Hd Hv. unfold accu_move.
  assert (0 ≤ d ≤ 1) by (destruct Hd as [-> | ->]; done).
  eapply safe_bind; [apply safe_rset; [unfold DSP_REG_A0; lia | done] | intros _ _].
  eapply safe_bind; [apply safe_rset; [unfold DSP_REG_A1; lia | done] | intros _ _].
  apply safe_rset; [unfold DSP_REG_A2; lia | apply word_ext24].
Qed.

Lemma accu_word v : word v → accu (Acc56 (ext24 v) v 0).
Proof. intros Hv. apply wf56_accu. split; [apply ext24_bound | done]. Qed.

(** The 56-bit routines, as steps. *)
Definition flags_accu (r : Z * acc56) : Prop := flags r.1 ∧ accu r.2.

Lemma add56_safe x y : flags_accu (dsp_add56 x y).
Proof. split; [apply add56_sr | apply wf56_accu, add56_wf]. Qed.

Lemma sub56_safe x y : flags_accu (dsp_sub56 x y).
Proof. split; [apply sub56_sr | apply wf56_accu, sub56_wf]. Qed.

Lemma safe_asl56 d n : 0 ≤ n → safe (lift (dsp_asl56 d n)) flags_accu.
Proof.
  intros Hn. apply safe_lift. destruct (Z.le_gt_cases n 56).
  - destruct (asl56_wf d n) as (sr & r & -> & W & B); [lia |]. split; [done | by apply wf56_accu].
  - unfold dsp_asl56. rewrite (shift_bad (56 - n)) by lia. by right.
Qed.

Lemma safe_asr56 d n : 0 ≤ n < 64 → safe (lift (dsp_asr56 d n)) flags_accu.
Proof.
  intros Hn. apply safe_lift. destruct (Z.eq_dec n 0) as [-> |].
  - unfold dsp_asr56. rewrite (shift_bad (0 - 1)) by lia. by right.
  - destruct (asr56_wf d n) as (sr & r & -> & W & B); [lia |]. split; [done | by apply wf56_accu].
Qed.

Lemma safe_mul56 x y signe : safe (lift (dsp_mul56 x y signe)) accu.
Proof. apply safe_lift. destruct (mul56_wf x y signe) as (r & -> & W). by apply wf56_accu. Qed.

Lemma safe_signextend bits v : safe (lift (dsp_signextend bits v)) any.
Proof. apply safe_lift. unfold dsp_signextend, assert. mem_cases; auto; exact I. Qed.

Lemma x_field_range f : 0 ≤ x_field f < 0x20.
Proof. unfold x_field. repeat case_match; done. Qed.

Lemma y_field_range f : 0 ≤ y_field f < 0x20.
Proof. unfold y_field. repeat case_match; done. Qed.

Lemma input_field_range f : 0 ≤ input_field f < 0x20.
Proof. unfold input_field. repeat case_match; done. Qed.

Lemma word_imm12 inst : word (imm12 inst).
Proof. unfold word, imm12. arith. Qed.

End safe.

(** ** Automation

    [safe] follows the shape of an instruction: binds, conditionals and cases,
    with a lemma for each primitive; [range] discharges the register numbers and
    operand widths. *)

Ltac safe_lemma :=
  lazymatch goal with
  | |- safe (rget DSP_REG_SR) _ => simple eapply safe_rget_sr
  | |- safe (rget DSP_REG_OMR) _ => simple eapply safe_rget_omr
  | |- safe (rget _) _ => simple eapply safe_rget
  | |- safe (rset DSP_REG_LC _) _ => simple eapply safe_rset_lc
  | |- safe (rset DSP_REG_LCSAVE _) _ => simple eapply safe_rset_lcsave
  | |- safe (rset DSP_REG_LA _) _ => simple eapply safe_rset_la
  | |- safe (rset DSP_REG_SR _) _ => simple eapply safe_rset_sr
  | |- safe (rset DSP_REG_OMR _) _ => simple eapply safe_rset_omr
  | |- safe (rset _ _) _ => simple eapply safe_rset
  | |- safe (mem_read _ _) _ => simple eapply safe_mem_read
  | |- safe (mem_write _ _ _) _ => simple eapply safe_mem_write
  | |- safe execute_alu _ => simple eapply safe_execute_alu
  | |- safe (sr_or _) _ => simple eapply safe_sr_or
  | |- safe (sr_clear _) _ => simple eapply safe_sr_clear
  | |- safe (ccr_update _) _ => simple eapply safe_ccr_update
  | |- safe (accu_load _) _ => simple eapply safe_accu_load
  | |- safe (accu_store _ _) _ => simple eapply safe_accu_store
  | |- safe (calc_ea _) _ => simple eapply safe_calc_ea
  | |- safe (read_accu24 _) _ => simple eapply safe_read_accu24
  | |- safe (read_operand _) _ => simple eapply safe_read_operand
  | |- safe (accu_move _ _) _ => simple eapply safe_accu_move
  | |- safe (mask_of _) _ => simple eapply safe_mask_of
  | |- safe next_word _ => simple eapply safe_next_word
  | |- safe inst_len_inc _ => simple eapply safe_inst_len_inc
  | |- safe (add_cycle _) _ => simple eapply safe_add_cycle
  | |- safe (set_inst_len _) _ => simple eapply safe_set_inst_len
  | |- safe (set_pc _) _ => simple eapply safe_set_pc
  | |- safe (fetch_p _) _ => simple eapply safe_fetch_p
  | |- safe (stack_push _ _ _) _ => simple eapply safe_stack_push
  | |- safe stack_pop _ => simple eapply safe_stack_pop
  | |- safe (write_reg _ _) _ => simple eapply safe_write_reg
  | |- safe (calc_cc _) _ => simple eapply safe_calc_cc
  | |- safe (lift (dsp_asl56 _ _)) _ => simple eapply safe_asl56
  | |- safe (lift (dsp_asr56 _ _)) _ => simple eapply safe_asr56
  | |- safe (lift (dsp_mul56 _ _ _)) _ => simple eapply safe_mul56
  | |- safe (lift (dsp_signextend _ _)) _ => simple eapply safe_signextend
  end.

Ltac range_consts :=
  unfold DSP_REG_X0, DSP_REG_X1, DSP_REG_Y0, DSP_REG_Y1, DSP_REG_A0, DSP_REG_B0, DSP_REG_A1,
    DSP_REG_B1, DSP_REG_A2, DSP_REG_B2, DSP_REG_A, DSP_REG_B, DSP_REG_R0, DSP_REG_N0, DSP_REG_M0,
    DSP_REG_NULL, DSP_REG_LC, DSP_REG_LCSAVE, DSP_REG_SR, DSP_REG_OMR, DSP_REG_SP, DSP_REG_LA, DSP_REG_SSH,
    DSP_REG_SSL in *.

Ltac range :=
  lazymatch goal with
  | |- is_accu (_ .& 1) => apply accu_index
  | |- is_accu ACC_A => by left
  | |- is_accu ACC_B => by right
  | |- word (ext24 _) => apply word_ext24
  | |- 0 ≤ x_field ?f < _ => pose proof (x_field_range f); lia
  | |- 0 ≤ y_field ?f < _ => pose proof (y_field_range f); lia
  | |- 0 ≤ input_field ?f < _ => pose proof (input_field_range f); lia
  | |- word (imm12 _) => apply word_imm12
  | |- 0 ≤ (if _ then _ else _) < _ => case_match; range
  | |- 0 ≤ _ .| _ < 64 => apply (lor_bound _ _ 6); [done | range | range]
  | |- 0 ≤ _ .| _ < 2 ^ _ => apply lor_bound; [done | range | range]
  | |- word (_ .| _) => apply lor_bound; [done | range | range]
  | |- flags (_ .| _) => apply lor_bound; [done | range | range]
  | |- 0 ≤ _ .& BITMASK _ < 2 ^ _ => apply masked_fit; lia
  | |- word (_ .& BITMASK _) => apply masked_fit; lia
  | |- flags (_ .& BITMASK _) => apply masked_fit; lia
  | |- 0 ≤ u32 _ < 2 ^ 32 => by apply wrap_bound
  | |- flags SR_VC => done
  | |- flags SR_NZV => done
  | |- flags (1 .<< _) => done
  | |- flags (b2z _ .<< _) => by apply flag_bound
  | |- flags (((_ .>> _) .& 1) .<< _) => rewrite bit_b2z by lia; by apply flag_bound
  | |- 0 ≤ 1 .<< _ < 2 ^ _ => done
  | |- flags (_ .& 0x8) => by apply land_bound
  | |- flags (_ .& (1 .<< _)) => by apply land_bound
  | |- flags (_ .& _) => apply land_bound_l; [done | assumption]
  | |- 0 ≤ _ .& _ < 2 ^ 8 => apply land_bound_l; [done | assumption]
  | |- accu (Acc56 (ext24 _) _ 0) => apply accu_word; range
  | |- accu (dsp_add56 _ _).2 => apply wf56_accu, add56_wf
  | |- accu (dsp_sub56 _ _).2 => apply wf56_accu, sub56_wf
  | |- 0 ≤ _ .& (BITMASK _ .<< _) < 2 ^ _ => by apply land_bound
  | |- word (if _ then _ else _) => case_match; range
  | |- _ => first [assumption | unfold word, flags in *; range_consts; first [lia | arith]]
  end.

(** The postcondition a compound step is given, by the type of its result. *)
Ltac post A :=
  lazymatch A with
  | Z => constr:(word)
  | (Z * Z)%type => constr:(words)
  | (Z * acc56)%type => constr:(flags_accu)
  | acc56 => constr:(accu)
  | _ => constr:(@any A)
  end.

Ltac name_result :=
  let r := fresh "r" in let Hr := fresh "Hr" in intros r Hr; cbv beta in Hr;
  repeat lazymatch goal with
  | Hw : words (_, _) |- _ => destruct Hw as [? ?]; cbn [fst snd] in *
  | Hw : flags_accu (_, _) |- _ => destruct Hw as [? ?]; cbn [fst snd] in *
  | Hw : flags2 (_, _) |- _ => destruct Hw as [? ?]; cbn [fst snd] in *
  | |- safe (match r with (_, _) => _ end) _ => destruct r as [? ?]; cbn [fst snd] in Hr
  end.

(** Follow the program; [leaf] handles single steps and side conditions. *)
Ltac safe_with leaf :=
  lazy zeta;
  lazymatch goal with
  | |- safe (mbind _ _) _ =>
      tryif (simple eapply safe_bind; [solve [leaf] |]) then (name_result; safe_with leaf)
      else
        lazymatch goal with |- safe (@mbind _ _ ?A _ _ _) _ =>
          let Q := post A in
          apply (safe_bind _ _ Q); [safe_with leaf | name_result; safe_with leaf] end
  | |- safe (mret _) _ => apply safe_ret; try leaf
  | |- safe (if ?b then _ else _) _ => destruct b eqn:?; safe_with leaf
  | |- safe (match dsp_add56 ?x ?y with _ => _ end) _ =>
      let W := fresh in pose proof (add56_safe x y) as W; destruct (dsp_add56 x y) as [? ?];
      destruct W as [? ?]; cbn [fst snd] in *; safe_with leaf
  | |- safe (match dsp_sub56 ?x ?y with _ => _ end) _ =>
      let W := fresh in pose proof (sub56_safe x y) as W; destruct (dsp_sub56 x y) as [? ?];
      destruct W as [? ?]; cbn [fst snd] in *; safe_with leaf
  | |- safe (match ?v with _ => _ end) _ => destruct v; safe_with leaf
  | |- _ => try leaf
  end.
