(* ===== verification/DspSafeInst.v ===== *)
(** * Every instruction of the DSP56300 emulator is safe

    The parallel moves and the non-parallel instructions keep the invariant of
    DspSafe.v; so does the execution of one instruction word. *)

From S2P Require Import Prelude Dsp56 DspCore DspDecode DspAlu DspAddr DspCpu DspMove DspInst DspExec DspSafe.

Ltac leaf :=
  idtac;
  lazymatch goal with
  | |- safe (getf ?f) _ => apply (safe_getf f any); done
  | |- safe _ _ =>
      first [safe_lemma; range | eapply safe_weaken; [safe_lemma; range | by intros]]
  | |- any _ => exact I
  | |- flags_accu (_, _) => split; cbn [fst snd]; range
  | |- words (_, _) => split; cbn [fst snd]; range
  | |- _ => range
  end.

Section moves.
Context `{PeripheralsOk P}.

Lemma emu_pm_0_safe : safe emu_pm_0 any.
Proof. unfold emu_pm_0. safe_with leaf. Qed.

Lemma emu_pm_1_safe : safe emu_pm_1 any.
Proof. unfold emu_pm_1. safe_with leaf. Qed.

Lemma safe_write_dest dstreg v : 0 ≤ dstreg < 64 → word v → safe (write_dest dstreg v) any.
Proof.
  intros Hd Hv. unfold write_dest. safe_with leaf. apply safe_rset_fit; [done | by apply masked_fit].
Qed.

Lemma safe_write_double numreg v : 0 ≤ numreg < 0x20 → word v → safe (write_double numreg v) any.
Proof. intros Hn Hv. unfold write_double. safe_with leaf. Qed.

Lemma safe_read_accu48 numreg a0reg : 0 ≤ a0reg < 64 → safe (read_accu48 numreg a0reg) words.
Proof. intros Hn. unfold read_accu48. safe_with leaf. Qed.

Lemma safe_read_pair r1 r0 : 0 ≤ r1 < 64 → 0 ≤ r0 < 64 → safe (read_pair r1 r0) words.
Proof. intros. unfold read_pair. safe_with leaf. Qed.

Ltac move_lemma :=
  lazymatch goal with
  | |- safe (write_dest _ _) _ => simple eapply safe_write_dest
  | |- safe (write_double _ _) _ => simple eapply safe_write_double
  | |- safe (read_accu48 _ _) _ => simple eapply safe_read_accu48
  | |- safe (read_pair _ _) _ => simple eapply safe_read_pair
  end.

Ltac mleaf :=
  idtac;
  lazymatch goal with
  | |- safe _ _ => first [leaf | move_lemma; range]
  | |- _ => leaf
  end.

Lemma emu_pm_2_2_safe : safe emu_pm_2_2 any.
Proof. unfold emu_pm_2_2. safe_with mleaf. Qed.

Lemma emu_pm_3_safe : safe emu_pm_3 any.
Proof. unfold emu_pm_3. safe_with mleaf. Qed.

Lemma emu_pm_2_safe : safe emu_pm_2 any.
Proof. unfold emu_pm_2. safe_with mleaf. apply emu_pm_2_2_safe. apply emu_pm_3_safe. Qed.

Lemma emu_pm_4x_safe : safe emu_pm_4x any.
Proof. unfold emu_pm_4x. safe_with mleaf. Qed.

Lemma emu_pm_5_safe : safe emu_pm_5 any.
Proof. unfold emu_pm_5. safe_with mleaf. Qed.

Lemma emu_pm_4_safe : safe emu_pm_4 any.
Proof. unfold emu_pm_4. safe_with mleaf. apply emu_pm_4x_safe. apply emu_pm_5_safe. Qed.

Lemma emu_pm_8_safe : safe emu_pm_8 any.
Proof. unfold emu_pm_8. safe_with mleaf. Qed.

Lemma opcodes_parmove_safe : Forall (λ m, safe m any) opcodes_parmove.
Proof.
  repeat apply Forall_cons_2; auto using Forall_nil_2, emu_pm_0_safe, emu_pm_1_safe, emu_pm_2_safe,
    emu_pm_3_safe, emu_pm_4_safe, emu_pm_5_safe, emu_pm_8_safe.
Qed.
End moves.

Section instructions.
Context `{PeripheralsOk P}.

(** *** Arithmetic helpers *)

Lemma safe_add_x x d : word x → is_accu d → safe (emu_add_x x d) any.
Proof. intros. unfold emu_add_x. safe_with leaf. Qed.

Lemma safe_sub_x x d : word x → is_accu d → safe (emu_sub_x x d) any.
Proof. intros. unfold emu_sub_x. safe_with leaf. Qed.

Lemma safe_and_x x d : safe (emu_and_x x d) any.
Proof.
  unfold emu_and_x. safe_with leaf. apply safe_rset; [range | by apply land_bound_l].
Qed.

Lemma safe_cmp_x x d : is_accu d → safe (cmp_x x d) any.
Proof. intros. unfold cmp_x. safe_with leaf. Qed.

Lemma safe_branch_by offset : safe (branch_by offset) any.
Proof.
  unfold branch_by. safe_with leaf. apply safe_modify. intros s Hs. apply core_ok_pc; [done |].
  pose proof (masked_bound (pc s) 24). lia.
Qed.

Lemma safe_set_carry v n : 0 ≤ n → safe (set_carry ((v .>> n) .& 1)) any.
Proof. intros. unfold set_carry. safe_with leaf. Qed.

Lemma safe_jump_to newpc : word newpc → safe (jump_to newpc) any.
Proof. intros. unfold jump_to. safe_with leaf. Qed.

Lemma safe_push_return : safe push_return any.
Proof.
  unfold push_return. safe_with leaf. apply safe_modify. intros s []. by split.
Qed.

Lemma safe_push_loop : safe push_loop any.
Proof. unfold push_loop. safe_with leaf. Qed.

Lemma safe_push_body : safe push_body any.
Proof. unfold push_body. safe_with leaf. Qed.

Lemma safe_load_lc numreg : 0 ≤ numreg < 64 → safe (load_lc numreg) any.
Proof. intros. unfold load_lc. safe_with leaf. Qed.

Lemma safe_do_enter : safe do_enter any.
Proof. unfold do_enter. eapply safe_bind; [apply safe_push_loop | intros _ _]. safe_with leaf. Qed.

Lemma safe_dor_enter : safe dor_enter any.
Proof.
  unfold dor_enter. do 2 (eapply safe_bind; [solve [leaf] |]; intros). eapply safe_bind; [apply safe_push_loop |].
  intros. safe_with leaf.
Qed.

Lemma safe_rep_enter : safe rep_enter any.
Proof.
  unfold rep_enter. safe_with leaf. apply safe_modify. intros s []. by split.
Qed.

Lemma safe_write_masked numreg value : 0 ≤ numreg < 64 → safe (write_masked numreg value) any.
Proof.
  intros. unfold write_masked. safe_with leaf. pose proof (loose_max numreg).
  apply safe_write_reg; [done | apply masked_fit; lia].
Qed.

Lemma safe_read_ssh numreg : 0 ≤ numreg < 64 → safe (read_ssh numreg) word.
Proof. intros. unfold read_ssh. safe_with leaf. Qed.

Lemma safe_read_source numreg : 0 ≤ numreg < 64 → safe (read_source numreg) word.
Proof. intros. unfold read_source. safe_with leaf. Qed.

Lemma safe_jump_if test call newaddr : word newaddr → safe (jump_if test call newaddr) any.
Proof. intros. unfold jump_if, jump_to. safe_with leaf. Qed.

Lemma safe_call_if cc newpc : word newpc → safe (call_if cc newpc) any.
Proof. intros. unfold call_if, jump_to. safe_with leaf. Qed.

Lemma safe_move_mem W space addr numreg : word addr → 0 ≤ numreg < 64 →
  safe (move_mem W space addr numreg) any.
Proof. intros. unfold move_mem. safe_with leaf. Qed.

(** *** Bit manipulation *)

(** BCHG toggles its bit. *)
Lemma bchg_spec value n : 0 ≤ value < 2 ^ 32 → 0 ≤ n < 32 → bchg value n = value .^ (1 .<< n).
Proof.
  intros Hv Hn. unfold bchg. rewrite bit_b2z by lia.
  assert (Hp : 0 < 2 ^ n < 2 ^ 32) by (split; [apply Z.pow_pos_nonneg | apply Z.pow_lt_mono_r]; lia).
  assert (Hx : 0 ≤ value .^ 2 ^ n < 2 ^ 32) by (apply lxor_bound; lia).
  rewrite Z.shiftl_1_l. destruct (Z.testbit value n) eqn:T; cbn [b2z nz Z.eqb negb].
  - assert (E : value - 2 ^ n = value .^ 2 ^ n); [| by rewrite E, wrap_small].
    rewrite Z.sub_nocarry_ldiff.
    + apply Z.bits_inj'. intros i Hi. rewrite Z.ldiff_spec, Z.lxor_spec, !Z.pow2_bits_eqb by lia.
      destruct (Z.eqb_spec n i) as [-> |]; [by rewrite T | by rewrite xorb_false_r, andb_true_r].
    + apply Z.bits_inj'. intros i Hi. rewrite Z.ldiff_spec, Z.bits_0, Z.pow2_bits_eqb by lia.
      destruct (Z.eqb_spec n i) as [-> |]; [by rewrite T | done].
  - assert (E : value + 2 ^ n = value .^ 2 ^ n); [| by rewrite E, wrap_small].
    apply Z.add_nocarry_lxor. apply Z.bits_inj'. intros i Hi.
    rewrite Z.land_spec, Z.bits_0, Z.pow2_bits_eqb by lia.
    destruct (Z.eqb_spec n i) as [-> |]; [by rewrite T | by rewrite andb_false_r].
Qed.

Lemma shiftl1_bound n k : 0 ≤ n < k → 0 ≤ 1 .<< n < 2 ^ k.
Proof.
  intros. rewrite Z.shiftl_1_l. split; [apply Z.pow_nonneg; lia | apply Z.pow_lt_mono_r; lia].
Qed.

(** The result of a bit operation below bit [k] of a [k]-bit value. *)
Definition bit_op_fits (op : Z → Z → Z) : Prop :=
  ∀ v n k, 0 ≤ v < 2 ^ k → 0 ≤ n < k → k ≤ 32 → 0 ≤ op v n < 2 ^ k.

Lemma bchg_fits : bit_op_fits bchg.
Proof.
  intros v n k Hv Hn Hk. assert (2 ^ k ≤ 2 ^ 32) by (apply Z.pow_le_mono_r; lia).
  rewrite bchg_spec by lia. apply lxor_bound; [lia | done | apply shiftl1_bound; lia].
Qed.

Lemma bset_fits : bit_op_fits bset.
Proof. intros v n k Hv Hn Hk. apply lor_bound; [lia | done | apply shiftl1_bound; lia]. Qed.

Lemma bclr_word v n : word v → word (bclr v n).
Proof. by apply land_bound_l. Qed.

Lemma bclr_fits : bit_op_fits bclr.
Proof. intros v n k Hv Hn Hk. apply land_bound_l; [lia | done]. Qed.

Lemma safe_bit_op_mem op memspace addr n : bit_op_fits op → word addr → 0 ≤ n < 32 →
  safe (bit_op_mem op memspace addr n) any.
Proof.
  intros Hop Ha Hn. unfold bit_op_mem. eapply safe_bind; [by apply safe_mem_read |]. intros v Hv.
  eapply safe_bind; [apply safe_mem_write32; [done | apply Hop; unfold word in Hv; lia] | intros _ _].
  eapply safe_bind; [apply safe_set_carry; lia | intros _ _]. apply safe_add_cycle.
Qed.

Lemma safe_bit_op_reg op numreg n : 0 ≤ numreg < 64 → 0 ≤ n < 32 →
  (∀ v, word v → word (op v n)) → safe (bit_op_reg op numreg n) any.
Proof.
  intros Hr Hn Hop. unfold bit_op_reg. eapply safe_bind; [by apply safe_read_operand |]. intros v Hv.
  eapply safe_bind; [apply safe_write_reg; [done | by apply Hop] | intros _ _].
  eapply safe_bind; [apply safe_set_carry; lia | intros _ _]. apply safe_add_cycle.
Qed.

Lemma safe_btst_mem memspace addr n : word addr → 0 ≤ n < 32 → safe (btst_mem memspace addr n) any.
Proof.
  intros Ha Hn. unfold btst_mem. eapply safe_bind; [by apply safe_mem_read |]. intros v Hv.
  eapply safe_bind; [apply safe_set_carry; lia | intros _ _]. apply safe_add_cycle.
Qed.

Lemma safe_btst_reg numreg n : 0 ≤ numreg < 64 → 0 ≤ n < 32 → safe (btst_reg numreg n) any.
Proof.
  intros Ha Hn. unfold btst_reg. eapply safe_bind; [by apply safe_read_operand |]. intros v Hv.
  eapply safe_bind; [apply safe_set_carry; lia | intros _ _]. apply safe_add_cycle.
Qed.

Section operands.
Context (f : Z → Z → Z → cpu P ()).
Context (Hf : ∀ memspace addr n, word addr → 0 ≤ n < 32 → safe (f memspace addr n) any).

Lemma safe_bit_aa : safe (bit_aa f) any.
Proof. unfold bit_aa. safe_with leaf. apply Hf; range. Qed.

Lemma safe_bit_ea : safe (bit_ea f) any.
Proof. unfold bit_ea. safe_with leaf. apply Hf; range. Qed.

Lemma safe_bit_pp : safe (bit_pp f) any.
Proof. unfold bit_pp. safe_with leaf. apply Hf; range. Qed.
End operands.

Lemma safe_bit_reg f :
  (∀ numreg n, 0 ≤ numreg < 64 → 0 ≤ n < 32 → safe (f numreg n) any) → safe (bit_reg f) any.
Proof. intros Hf. unfold bit_reg. safe_with leaf. apply Hf; range. Qed.

Lemma safe_br_pp test : safe (br_pp test) any.
Proof. unfold br_pp. safe_with leaf. apply safe_branch_by. Qed.

Lemma safe_br_reg test : safe (br_reg test) any.
Proof. unfold br_reg. safe_with leaf. apply safe_branch_by. Qed.

Lemma safe_jbit_aa test call : safe (jbit_aa test call) any.
Proof. unfold jbit_aa. safe_with leaf. by apply safe_jump_if. Qed.

Lemma safe_jbit_ea test call : safe (jbit_ea test call) any.
Proof. unfold jbit_ea. safe_with leaf. by apply safe_jump_if. Qed.

Lemma safe_jbit_pp test call : safe (jbit_pp test call) any.
Proof. unfold jbit_pp. safe_with leaf. by apply safe_jump_if. Qed.

Lemma safe_jbit_reg test call : safe (jbit_reg test call) any.
Proof. unfold jbit_reg. safe_with leaf. by apply safe_jump_if. Qed.

Lemma safe_movem addr : word addr → safe (movem addr) any.
Proof.
  intros. unfold movem. safe_with leaf; [apply safe_write_masked; range | apply safe_read_source; range].
Qed.

Lemma safe_movep_ea perspace peraddr : word peraddr → safe (movep_ea perspace peraddr) any.
Proof. intros. unfold movep_ea. safe_with leaf. Qed.

Lemma safe_move_xy_imm space : safe (emu_move_xy_imm space) any.
Proof. unfold emu_move_xy_imm. safe_with leaf. apply safe_move_mem; range. Qed.

(** *** Instructions *)

Ltac inst_lemma :=
  lazymatch goal with
  | |- safe (emu_add_x _ _) _ => simple eapply safe_add_x
  | |- safe (emu_sub_x _ _) _ => simple eapply safe_sub_x
  | |- safe (emu_and_x _ _) _ => simple eapply safe_and_x
  | |- safe (cmp_x _ _) _ => simple eapply safe_cmp_x
  | |- safe (branch_by _) _ => simple eapply safe_branch_by
  | |- safe (set_carry _) _ => simple eapply safe_set_carry
  | |- safe (jump_to _) _ => simple eapply safe_jump_to
  | |- safe push_return _ => simple eapply safe_push_return
  | |- safe push_body _ => simple eapply safe_push_body
  | |- safe do_enter _ => simple eapply safe_do_enter
  | |- safe dor_enter _ => simple eapply safe_dor_enter
  | |- safe rep_enter _ => simple eapply safe_rep_enter
  | |- safe (load_lc _) _ => simple eapply safe_load_lc
  | |- safe (write_masked _ _) _ => simple eapply safe_write_masked
  | |- safe (read_ssh _) _ => simple eapply safe_read_ssh
  | |- safe (read_source _) _ => simple eapply safe_read_source
  | |- safe (jump_if _ _ _) _ => simple eapply safe_jump_if
  | |- safe (call_if _ _) _ => simple eapply safe_call_if
  | |- safe (move_mem _ _ _ _) _ => simple eapply safe_move_mem
  | |- safe (bit_op_mem _ _ _ _) _ => simple eapply safe_bit_op_mem
  | |- safe (btst_mem _ _ _) _ => simple eapply safe_btst_mem
  | |- safe (btst_reg _ _) _ => simple eapply safe_btst_reg
  | |- safe (br_pp _) _ => simple eapply safe_br_pp
  | |- safe (br_reg _) _ => simple eapply safe_br_reg
  | |- safe (jbit_aa _ _) _ => simple eapply safe_jbit_aa
  | |- safe (jbit_ea _ _) _ => simple eapply safe_jbit_ea
  | |- safe (jbit_pp _ _) _ => simple eapply safe_jbit_pp
  | |- safe (jbit_reg _ _) _ => simple eapply safe_jbit_reg
  | |- safe (movem _) _ => simple eapply safe_movem
  | |- safe (movep_ea _ _) _ => simple eapply safe_movep_ea
  | |- safe (emu_move_xy_imm _) _ => simple eapply safe_move_xy_imm
  end.

Ltac ileaf :=
  idtac;
  lazymatch goal with
  | |- safe _ _ => first [leaf | inst_lemma; range]
  | |- _ => leaf
  end.

Ltac inst := safe_with ileaf.

Lemma emu_cmpu_safe : safe emu_cmpu any.
Proof.
  unfold emu_cmpu. inst. apply safe_read_operand. repeat case_match; done.
Qed.

Lemma emu_div_safe : safe emu_div any.
Proof.
  unfold emu_div. inst.
  - apply safe_accu_store; [range |]. split; [apply H2 |]. split; [apply H2 |].
    apply lor_bound; [done | apply H2 | by apply land_bound].
  - apply safe_sr_or. cbn [a0]. unfold flags, DSP_SR_C. rewrite bit_b2z by done. by destruct (Z.testbit _ _).
Qed.

Lemma emu_illegal_safe : safe emu_illegal any.
Proof.
  apply safe_on_core. intros s Hs. cbn zeta. destruct (exception_debugging _); [done |].
  apply (core_ok_regs s); [done | apply add_interrupt_fit, Hs | apply add_interrupt_frame].
Qed.

Lemma emu_movec_reg_safe : safe emu_movec_reg any.
Proof. unfold emu_movec_reg. inst. apply safe_rset_fit; [range | by apply masked_fit]. Qed.

Lemma registers_tcc_range : Forall (λ rr, 0 ≤ rr.1 < 0x20 ∧ 0 ≤ rr.2 < 0x20) registers_tcc.
Proof. repeat (apply Forall_cons_2; [done |]). apply Forall_nil_2. Qed.

Lemma safe_tcc_regs i : 0 ≤ i < 16 →
  safe (lift (match registers_tcc !! Z.to_nat i with Some rr => Ok rr | None => Fault out_of_bounds end))
    (λ rr, 0 ≤ rr.1 < 0x20 ∧ 0 ≤ rr.2 < 0x20).
Proof.
  intros Hi. apply safe_lift. destruct (registers_tcc !! Z.to_nat i) eqn:E.
  - by apply (Forall_lookup_1 _ _ _ _ registers_tcc_range E).
  - apply lookup_ge_None in E. cbn in E. lia.
Qed.

Lemma emu_tcc_safe : safe emu_tcc any.
Proof.
  unfold emu_tcc. do 2 (eapply safe_bind; [solve [leaf] |]; intros).
  destruct a0; [| by apply safe_ret].
  eapply safe_bind; [apply safe_tcc_regs; range |]. intros [src dst] [Hsrc Hdst]. cbn [fst snd] in *.
  inst.
Qed.

Ltac bit_inst :=
  lazymatch goal with
  | |- safe (bit_aa _) _ => apply safe_bit_aa
  | |- safe (bit_ea _) _ => apply safe_bit_ea
  | |- safe (bit_pp _) _ => apply safe_bit_pp
  | |- safe (bit_reg _) _ => apply safe_bit_reg
  end; intros;
  lazymatch goal with
  | |- safe (bit_op_mem bchg _ _ _) _ => by apply safe_bit_op_mem; [apply bchg_fits |..]
  | |- safe (bit_op_mem bclr _ _ _) _ => by apply safe_bit_op_mem; [apply bclr_fits |..]
  | |- safe (bit_op_mem bset _ _ _) _ => by apply safe_bit_op_mem; [apply bset_fits |..]
  | |- safe (bit_op_reg bclr _ _) _ => apply safe_bit_op_reg; auto using bclr_word
  | |- safe (btst_mem _ _ _) _ => by apply safe_btst_mem
  | |- safe (btst_reg _ _) _ => by apply safe_btst_reg
  end.

(** The two instructions that can leave an accumulator wider than 24 bits. *)
Definition wide_bit_op (f : string) : bool :=
  bool_decide (f = "emu_bchg_reg" ∨ f = "emu_bset_reg")%string.

Ltac table_inst :=
  lazymatch goal with
  | |- safe emu_cmpu _ => apply emu_cmpu_safe
  | |- safe emu_div _ => apply emu_div_safe
  | |- safe emu_illegal _ => apply emu_illegal_safe
  | |- safe emu_movec_reg _ => apply emu_movec_reg_safe
  | |- safe emu_tcc _ => apply emu_tcc_safe
  | |- safe (on_core emu_nop) _ => apply safe_on_core; intros; done
  | |- safe ?m _ =>
      let h := lazymatch m with ?h _ _ => h | ?h _ => h | ?h => h end in
      unfold h; first [bit_inst | solve [inst]]
  end.

Lemma emu_functions_safe :
  Forall (λ e, wide_bit_op e.1 = false → safe e.2 any) emu_functions.
Proof.
  unfold emu_functions.
  repeat (apply Forall_cons_2; [cbn [fst snd]; intros Hw; first [discriminate Hw | clear Hw; table_inst] |]).
  apply Forall_nil_2.
Qed.

(** *** Dispatch *)

Lemma find_emu_elem f m : find_emu f = Some m → (f, m) ∈ emu_functions.
Proof.
  unfold find_emu. destruct (list_find _ emu_functions) as [[i [g m']] |] eqn:E; [| done].
  intros [= ->]. apply list_find_Some in E as (E & Hg & _). cbn in Hg. subst g.
  by eapply list_elem_of_lookup_2.
Qed.

Lemma find_emu_total :
  Forall (λ e, match emu_func e with Some f => is_Some (find_emu f) | None => True end)
    nonparallel_opcodes.
Proof. unfold nonparallel_opcodes. repeat (apply Forall_cons_2; [cbn [emu_func]; first [exact I | by eexists] |]). apply Forall_nil_2. Qed.

Lemma find_emu_safe f m : find_emu f = Some m → wide_bit_op f = false → safe m any.
Proof.
  intros E%find_emu_elem Hw. pose proof emu_functions_safe as F. rewrite Forall_forall in F.
  by apply (F (f, m)).
Qed.

End instructions.
