(* ===== verification/DspStep.v ===== *)
(** * One step of the DSP56300 emulator

    Safety of [dsp56k_execute_instruction], the hardware loops REP and DO, and
    the interrupt arbitration. *)

From S2P Require Import Prelude Dsp56 DspCore DspDecode DspAlu DspAddr DspCpu DspMove DspInst DspExec DspSafe DspSafeInst.

(** ** Safety *)

Lemma dec_lc_ok s : core_ok s → core_ok (dec_lc s).
Proof.
  intros Hs. apply core_set_reg; [done | done |].
  change (loose_bits DSP_REG_LC) with 24. apply masked_fit. lia.
Qed.

Lemma rep_step_ok s : core_ok s → core_ok (rep_step s).
Proof.
  intros Hs. unfold rep_step. pose proof (dec_lc_ok s Hs) as Hd.
  case_match; [| done]. case_match.
  - case_match; [by destruct Hd |].
    assert (core_ok (dec_lc s <| loop_rep := 0 |>)) by (by destruct Hd).
    apply core_set_reg; [done | done |]. by apply core_reg.
  - assert (Hc : core_ok (if reg s DSP_REG_LC =? 0 then set_reg s DSP_REG_LC 0x010000 else s)).
    { case_match; [by apply core_set_reg | done]. }
    by destruct Hc.
Qed.

Lemma do_step_ok s : core_ok s →
  match do_step s with Ok s' => core_ok s' | Fault e => e = assert_failed end.
Proof.
  intros Hs. unfold do_step. pose proof (dec_lc_ok s Hs) as Hd.
  destruct (nz _); [| done]. destruct (_ =? u32 _); [| done]. cbn zeta.
  destruct (reg (dec_lc s) DSP_REG_LC =? 0).
  - pose proof (stack_pop_ok _ Hd) as Hp.
    destruct (dsp_stack_pop (dec_lc s)) as [[[saved_pc saved_sr] s1] |]; cbn; [| done].
    destruct Hp as [[_ Hsr] H1].
    match goal with |- context [dsp_stack_pop ?x] => assert (H2 : core_ok x) end.
    { apply core_set_reg; [| done | apply lor_bound; [done | | by apply land_bound]].
      - apply core_set_reg; [done | done | by apply land_bound].
      - rewrite reg_set_eq. by apply land_bound. }
    match goal with |- context [dsp_stack_pop ?x] => pose proof (stack_pop_ok x H2) as Hq;
      destruct (dsp_stack_pop x) as [[[la lc] s2] |] end; cbn; [| done].
    destruct Hq as [[Hla Hlc] H3]. unfold flags in *; cbn [fst snd] in *.
    apply core_set_reg; [apply core_set_reg; done | done |].
    change (loose_bits DSP_REG_LC) with 24. lia.
  - apply core_ok_pc; [done |]. destruct (ok_regs _ Hd) as (F & _).
    specialize (F DSP_REG_SSH ltac:(done)). change (loose_bits DSP_REG_SSH) with 16 in F. lia.
Qed.

Lemma update_pc_ok s : core_ok s →
  match dsp_postexecute_update_pc s with Ok s' => core_ok s' | Fault e => e = assert_failed end.
Proof.
  intros Hs. apply do_step_ok. apply core_ok_pc; [by apply rep_step_ok | by apply wrap_bound].
Qed.

(** *** Interrupts *)

Lemma enter_long_ok s : core_ok s →
  match enter_long s with Ok s' => core_ok s' | Fault e => e = assert_failed end.
Proof.
  intros Hs. unfold enter_long.
  assert (H1 : core_ok (s <| interrupt_state := DSP_INTERRUPT_LONG |>)) by (by destruct Hs).
  set (s1 := s <| interrupt_state := DSP_INTERRUPT_LONG |>) in *.
  pose proof (stack_push_fit loose_bits loose_mask s1 (interrupt_save_pc s1) (reg s1 DSP_REG_SR) 0
                (ok_regs s1 H1)) as Hf.
  destruct (dsp_stack_push _ _ _ 0) as [s2 |] eqn:E; cbn; [| done].
  assert (H2 : core_ok s2) by (by eapply core_ok_regs, stack_push_frame).
  apply core_set_reg; [| done |].
  - apply core_set_reg; [done | done | by apply land_bound].
  - apply lor_bound; [done | rewrite reg_set_eq; by apply land_bound |].
    change (interrupt_ipl_to_raise (set_reg _ _ _)) with (interrupt_ipl_to_raise s2).
    pose proof (ok_raise s2 H2). change (loose_bits DSP_REG_SR) with 16.
    unfold DSP_SR_I0. rewrite shiftl_mul by done. lia.
Qed.

Lemma pipeline_dec_ok s : core_ok s → core_ok (pipeline_dec s).
Proof. intros []. by split. Qed.

Lemma prefetch_ok s a : core_ok s →
  match (instr ← read_memory_p s a; if is_jsr instr then enter_long s else Ok s) with
  | Ok s' => core_ok s'
  | Fault e => e = assert_failed
  end.
Proof.
  intros Hs. pose proof (read_p_ok s a Hs). destruct (read_memory_p s a); cbn; [| done].
  destruct (is_jsr _); [by apply enter_long_ok | done].
Qed.

Lemma fast_interrupt_ok s : core_ok s →
  match fast_interrupt s with
  | Ok (inl s') | Ok (inr s') => core_ok s'
  | Fault e => e = assert_failed
  end.
Proof.
  intros Hs. unfold fast_interrupt.
  destruct (interrupt_pipeline_count s) as [| n | n]; [destruct Hs; by split | | done].
  destruct n as [[[] | [] |] | [[] | [] |] |]; cbn zeta; try done; try by apply pipeline_dec_ok.
  - (* 3 *) destruct (_ =? _); [| by apply pipeline_dec_ok].
    pose proof (prefetch_ok s (pc s) Hs) as Hp. destruct (instr ← _; _) as [s1 |]; [| done].
    by apply pipeline_dec_ok.
  - (* 4 *)
    set (s1 := s <| interrupt_save_pc := _ |> <| pc := _ |>).
    assert (H1 : core_ok s1).
    { apply core_ok_pc; [| pose proof (ok_fetch s Hs); cbn; lia].
      destruct Hs. split; try done. by apply wrap_bound. }
    pose proof (prefetch_ok s1 (interrupt_instr_fetch s1) H1) as Hp. revert Hp. fold s1.
    destruct (read_memory_p _ _); cbn; [| done]. destruct (is_jsr _).
    + destruct (enter_long s1); [| done]. by apply pipeline_dec_ok.
    + by apply pipeline_dec_ok.
  - (* 2 *) apply pipeline_dec_ok. destruct (_ =? _); [| done].
    apply core_ok_pc; [done |]. pose proof (ok_save s Hs). lia.
Qed.

(** ** Arbitration *)

Definition pending (s : dsp_core) (i : Z) : Prop := rd (interrupt_is_pending s) i = 1.
Definition ipl (s : dsp_core) (i : Z) : Z := rd (interrupt_ipl s) i.

(** Pending at a level that SR does not mask. *)
Definition eligible (s : dsp_core) (ipl_sr i : Z) : Prop := pending s i ∧ ipl_sr ≤ ipl s i.

(** [i] is the first pending level-3 interrupt of [l]. *)
Definition first_nmi (s : dsp_core) (l : list Z) (i : Z) : Prop :=
  ∃ l1 l2, l = l1 ++ i :: l2 ∧ pending s i ∧ ipl s i = 3 ∧ ∀ j, j ∈ l1 → pending s j → ipl s j ≠ 3.

(** [i] is the first of the eligible interrupts of [l] with the highest level. *)
Definition first_highest (s : dsp_core) (ipl_sr : Z) (l : list Z) (i : Z) : Prop :=
  ∃ l1 l2, l = l1 ++ i :: l2 ∧ eligible s ipl_sr i ∧
    (∀ j, j ∈ l1 → eligible s ipl_sr j → ipl s j < ipl s i) ∧
    (∀ j, j ∈ l2 → eligible s ipl_sr j → ipl s j ≤ ipl s i).

Lemma arbitrate_spec s ipl_sr l index raise :
  let r := arbitrate s ipl_sr l index raise in
  first_nmi s l r ∨
  (∀ j, j ∈ l → pending s j → ipl s j ≠ 3) ∧
  (r = index ∧ (∀ j, j ∈ l → eligible s ipl_sr j → ipl s j ≤ raise) ∨
   first_highest s ipl_sr l r ∧ raise < ipl s r).
Proof.
  revert index raise. induction l as [| i l IH]; intros index raise; cbn [arbitrate].
  { right. split; [by intros ? ?%not_elem_of_nil |]. left. split; [done |]. by intros ? ?%not_elem_of_nil. }
  (* the interrupt at the head of the list is passed over, or becomes the candidate *)
  assert (Hskip : ∀ index' raise', (pending s i → ipl s i ≠ 3) →
    (eligible s ipl_sr i → ipl s i ≤ raise') → raise ≤ raise' →
    (index' = index ∧ raise' = raise ∨ index' = i ∧ raise' = ipl s i ∧ eligible s ipl_sr i ∧ raise < ipl s i) →
    let r := arbitrate s ipl_sr l index' raise' in
    first_nmi s (i :: l) r ∨
    (∀ j, j ∈ i :: l → pending s j → ipl s j ≠ 3) ∧
    (r = index ∧ (∀ j, j ∈ i :: l → eligible s ipl_sr j → ipl s j ≤ raise) ∨
     first_highest s ipl_sr (i :: l) r ∧ raise < ipl s r)).
  { intros index' raise' H3 Hle Hr Hcase r. pose proof (IH index' raise') as IH'. fold r in IH'.
    clearbody r. clear IH. cbn zeta in IH'.
    destruct IH' as [(l1 & l2 & -> & Hp & E3 & Hb) | [Hn Hr']].
    - left. exists (i :: l1), l2. split_and!; try done.
      intros j [-> | Hj]%elem_of_cons; auto.
    - right. split; [intros j [-> | Hj]%elem_of_cons; auto |].
      destruct Hr' as [[E Hall] | [(l1 & l2 & El & He & Hlt & Hge) Hgt]].
      + rewrite E. destruct Hcase as [[-> ->] | (-> & -> & Hi & Hgt)].
        * left. split; [done |]. intros j [-> | Hj]%elem_of_cons; auto.
        * right. split; [| done]. exists [], l. split_and!; [done | done | by intros ? ?%not_elem_of_nil | done].
      + right. split; [| lia]. exists (i :: l1), l2. split_and!; [by rewrite El at 1 | done | | done].
        intros j [-> | Hj]%elem_of_cons; [| auto]. intros Hi. specialize (Hle Hi). lia. }
  unfold eligible, pending, ipl in *.
  destruct (Z.eqb_spec (rd (interrupt_is_pending s) i) 1) as [Hp | Hp];
    [| apply Hskip; try tauto; try lia; naive_solver].
  destruct (Z.eqb_spec (rd (interrupt_ipl s) i) 3) as [E3 | E3].
  { left. exists [], l. split_and!; try done. by intros ? ?%not_elem_of_nil. }
  destruct (Z.ltb_spec (rd (interrupt_ipl s) i) ipl_sr); [apply Hskip; try tauto; lia |].
  destruct (Z.leb_spec (rd (interrupt_ipl s) i) raise); [apply Hskip; try tauto; lia |].
  apply Hskip; try tauto; lia.
Qed.

Lemma first_nmi_elem s l i : first_nmi s l i → i ∈ l.
Proof. intros (l1 & l2 & -> & _). set_solver. Qed.

Lemma first_highest_elem s ipl_sr l i : first_highest s ipl_sr l i → i ∈ l.
Proof. intros (l1 & l2 & -> & _). set_solver. Qed.

Lemma raise_interrupt_ok s index : core_ok s → 0 ≤ index < 12 →
  match raise_interrupt s index with Ok s' => core_ok s' | Fault e => e = assert_failed end.
Proof.
  intros Hs Hi. unfold raise_interrupt.
  destruct (dsp_interrupt !! Z.to_nat index) as [a |] eqn:E;
    [| apply lookup_ge_None in E; cbn in E; lia].
  assert (Ha : 0 ≤ a < 256).
  { assert (F : Forall (λ a, 0 ≤ a < 256) dsp_interrupt)
      by (repeat (apply Forall_cons_2; [lia |]); apply Forall_nil_2).
    by apply (Forall_lookup_1 _ _ _ _ F E). }
  pose proof (ok_ipl s Hs index Hi) as Hl.
  cbn -[u16]. mem_cases; try done.
  all: destruct Hs; split; cbn -[u16]; try done; try lia; rewrite wrap_small; lia.
Qed.

Lemma add_interrupt_ok s i : core_ok s → core_ok (dsp56k_add_interrupt s i).
Proof.
  intros Hs. apply (core_ok_regs s); [done | apply add_interrupt_fit, Hs | apply add_interrupt_frame].
Qed.

Lemma search_interrupt_ok s : core_ok s →
  match search_interrupt s with Ok s' => core_ok s' | Fault e => e = assert_failed end.
Proof.
  intros Hs. unfold search_interrupt.
  set (s1 := if nz _ then _ else s).
  assert (H1 : core_ok s1) by (subst s1; destruct (nz _); [by apply add_interrupt_ok | done]).
  destruct (interrupt_counter s1 =? 0); [done |]. cbn zeta.
  pose proof (arbitrate_spec s1 ((reg s1 DSP_REG_SR .>> DSP_SR_I0) .& BITMASK 2) (seqZ 0 12) 0xffff (-1)) as A.
  destruct (Z.eqb_spec (arbitrate s1 ((reg s1 DSP_REG_SR .>> DSP_SR_I0) .& BITMASK 2) (seqZ 0 12) 0xffff (-1)) 0xffff)
    as [| Hne]; [done |].
  apply raise_interrupt_ok; [done |]. apply (elem_of_seqZ 0 12).
  destruct A as [A%first_nmi_elem | [_ [[A _] | [A%first_highest_elem _]]]]; done.
Qed.

Lemma interrupts_ok s : core_ok s →
  match dsp_postexecute_interrupts s with Ok s' => core_ok s' | Fault e => e = assert_failed end.
Proof.
  intros Hs. unfold dsp_postexecute_interrupts.
  destruct (nz _); [done |]. destruct (_ =? _); [| by apply search_interrupt_ok].
  pose proof (fast_interrupt_ok s Hs) as Hf. destruct (fast_interrupt s) as [[s1 | s1] |]; cbn; try done.
  by apply search_interrupt_ok.
Qed.

Section step.
Context `{PeripheralsOk P}.

(** BCHG or BSET on a register with a bit number of 24 or more: on A or B it
    stores a value that no longer is a 24-bit word. *)
Definition wide_bit_word (inst : Z) : bool :=
  (inst <? 0x100000) &&
  match lookup_opcode inst with
  | Ok (Some e) =>
      match emu_func e with
      | Some f => wide_bit_op f && (24 <=? inst .& BITMASK 5)
      | None => false
      end
  | _ => false
  end.

Lemma read_p_word s a v : read_memory_p s a = Ok v → v = rd (pram s) a.
Proof. unfold read_memory_p, assert. cbn. mem_cases; congruence. Qed.

Lemma bit_reg_at op s p : core_ok s → periph_ok p → bit_op_fits op →
  cur_inst s .& BITMASK 5 < 24 → good any (bit_reg (bit_op_reg op) s p).
Proof.
  intros Hs Hp Hop Hn. pose proof (masked_bound (cur_inst s) 5 ltac:(lia)).
  change (good any (bit_op_reg op ((cur_inst s .>> 8) .& BITMASK 6) (cur_inst s .& BITMASK 5) s p)).
  apply safe_bit_op_reg; try done; [range |]. intros v Hv. apply Hop; [done | lia..].
Qed.

Lemma run_inst_ok s p : core_ok s → periph_ok p → wide_bit_word (cur_inst s) = false →
  good any (run_inst s p).
Proof.
  intros Hs Hp Hw. unfold run_inst, mbind, cpu_bind, getf, lift.
  unfold wide_bit_word in Hw. destruct (cur_inst s <? 0x100000).
  - pose proof (lookup_opcode_found (cur_inst s)) as Hf.
    destruct (lookup_opcode (cur_inst s)) as [[e |] | f]; cbn in Hw; cbn [mbind option_bind].
    + destruct (emu_func e) as [f |] eqn:Ef; [| by apply (safe_on_core emu_undefined emu_undefined_safe)].
      pose proof find_emu_total as T. rewrite Forall_forall in T. destruct Hf as (He & _ & _).
      specialize (T e He). rewrite Ef in T. destruct T as [m Em]. rewrite Em.
      destruct (wide_bit_op f) eqn:W; [| by apply (find_emu_safe f m Em W)].
      cbn in Hw. apply Z.leb_gt in Hw. apply bool_decide_eq_true in W as [-> | ->];
        injection Em as <-; apply bit_reg_at; auto using bchg_fits, bset_fits.
    + by apply (safe_on_core emu_undefined emu_undefined_safe).
    + subst f. by left.
  - pose proof (masked_bound (cur_inst s .>> 20) 4 ltac:(lia)) as Hb.
    destruct (opcodes_parmove !! Z.to_nat ((cur_inst s .>> 20) .& BITMASK 4)) as [m |] eqn:E.
    + by apply (Forall_lookup_1 _ _ _ _ opcodes_parmove_safe E).
    + apply lookup_ge_None in E. cbn in E. lia.
Qed.

(** The core when the instruction word [inst] starts. *)
Definition fetched (s : dsp_core) (inst : Z) : dsp_core :=
  s <| disasm_memory_ptr := 0 |> <| cur_inst := inst |> <| cur_inst_len := 1 |> <| instr_cycle := 2 |>.

Lemma execute_fetched s p :
  dsp56k_execute_instruction s p =
  match read_memory_p s (pc s) with
  | Fault e => Fault e
  | Ok inst =>
      match run_inst (fetched s inst) p with
      | Fault e => Fault e
      | Ok (_, s2, p2) =>
          match (s3 ← dsp_postexecute_update_pc s2; dsp_postexecute_interrupts s3) with
          | Ok s4 => Ok (tt, s4, p2)
          | Fault e => Fault e
          end
      end
  end.
Proof.
  unfold dsp56k_execute_instruction, mbind, cpu_bind. cbn -[read_memory_p run_inst]. unfold fetch_p.
  change (read_memory_p (s <| disasm_memory_ptr := 0 |>) (pc s)) with (read_memory_p s (pc s)).
  destruct (read_memory_p s (pc s)) as [inst |]; [| done].
  change (set instr_cycle _ _) with (fetched s inst).
  destruct (run_inst (fetched s inst) p) as [[[[] s2] p2] | e]; [| done].
  unfold on_core. destruct (dsp_postexecute_update_pc s2) as [s3 |]; [| done].
  cbn. by destruct (dsp_postexecute_interrupts s3).
Qed.

Lemma execute_ok s p :
  core_ok s → periph_ok p → wide_bit_word (rd (pram s) (pc s)) = false →
  match dsp56k_execute_instruction s p with
  | Ok (_, s', p') => core_ok s' ∧ periph_ok p'
  | Fault e => benign e
  end.
Proof.
  intros Hs Hp Hw. rewrite execute_fetched.
  pose proof (read_p_ok s (pc s) Hs) as Hr. pose proof (read_p_word s (pc s)) as Hword.
  destruct (read_memory_p s (pc s)) as [inst |]; [| by left]. rewrite (Hword inst eq_refl) in *.
  assert (H1 : core_ok (fetched s (rd (pram s) (pc s)))) by (by destruct Hs).
  pose proof (run_inst_ok _ p H1 Hp Hw) as Hg.
  destruct (run_inst _ p) as [[[[] s2] p2] | e]; [| done]. destruct Hg as (_ & H2 & Hp2).
  pose proof (update_pc_ok s2 H2) as H3. destruct (dsp_postexecute_update_pc s2) as [s3 |]; [| by left].
  pose proof (interrupts_ok s3 H3) as H4. cbn. destruct (dsp_postexecute_interrupts s3); [done | by left].
Qed.

(** C1: one step of the emulator is memory safe.  From a core in its invariant,
    executing the word at PC (any word but a BCHG or BSET of a register bit
    above 23) never indexes outside an array of the core: it ends with the
    invariant of the core and of the peripherals, or stops at an assertion, at a
    shift that C leaves undefined, or at a fault of the peripherals. *)
Theorem dsp56k_execute_instruction_safe s p :
  core_ok s → periph_ok p → wide_bit_word (rd (pram s) (pc s)) = false →
  match dsp56k_execute_instruction s p with
  | Ok (_, s', p') => core_ok s' ∧ periph_ok p'
  | Fault e => e = assert_failed ∨ e = undefined_behaviour ∨ periph_fault e
  end.
Proof. apply execute_ok. Qed.

End step.

(** A NOP at address 0 of a core out of reset. *)
Lemma dsp56k_execute_instruction_witness :
  match @dsp56k_execute_instruction () detached (dsp56k_reset_cpu zero_core) tt with
  | Ok (_, s', _) => core_ok s' ∧ pc s' = 1
  | Fault _ => False
  end.
Proof.
  pose proof (@dsp56k_execute_instruction_safe () detached detached_ok
    (dsp56k_reset_cpu zero_core) tt
    (reset_core_ok zero_core (empty_ram_ok zero_core eq_refl eq_refl eq_refl eq_refl) ltac:(done))
    I eq_refl) as H.
  destruct (@dsp56k_execute_instruction () detached (dsp56k_reset_cpu zero_core) tt)
    as [[[u s'] p'] | e] eqn:E; [| vm_compute in E; discriminate E].
  split; [exact (proj1 H) |]. vm_compute in E. injection E as _ <-. reflexivity.
Defined.

(** ** Interrupt arbitration *)

Lemma postexecute_search s : loop_rep s = 0 → interrupt_state s ≠ DSP_INTERRUPT_DISABLED →
  dsp_postexecute_interrupts s = search_interrupt s.
Proof.
  intros Hl Hd. unfold dsp_postexecute_interrupts. rewrite Hl. cbn.
  by rewrite (proj2 (Z.eqb_neq _ _) Hd).
Qed.

(** C29: interrupt arbitration.  Outside REP, a fast interrupt and trace mode, with
    a pending interrupt posted, the first pending level-3 interrupt is taken; if
    there is none, the first of those at the highest level that SR does not mask;
    and the core is left alone only when every pending interrupt is masked. *)
Theorem dsp_interrupt_arbitration s :
  loop_rep s = 0 → interrupt_state s ≠ DSP_INTERRUPT_DISABLED →
  Z.testbit (reg s DSP_REG_SR) DSP_SR_T = false → interrupt_counter s ≠ 0 →
  let all := seqZ 0 12 in
  let ipl_sr := (reg s DSP_REG_SR / 2 ^ 8) mod 4 in
  (∃ i, first_nmi s all i ∧ dsp_postexecute_interrupts s = raise_interrupt s i) ∨
  (∀ j, j ∈ all → pending s j → ipl s j ≠ 3) ∧
  ((∃ i, first_highest s ipl_sr all i ∧ dsp_postexecute_interrupts s = raise_interrupt s i) ∨
   dsp_postexecute_interrupts s = Ok s ∧
   ∀ j, j ∈ all → pending s j → ipl s j < Z.max 0 ipl_sr).
Proof.
  intros Hl Hd HT Hc all ipl_sr. rewrite postexecute_search by done. unfold search_interrupt.
  rewrite nz_bit, HT by done. rewrite (proj2 (Z.eqb_neq _ 0) Hc). cbn zeta.
  assert (E : (reg s DSP_REG_SR .>> DSP_SR_I0) .& BITMASK 2 = ipl_sr)
    by (unfold ipl_sr, DSP_SR_I0; by rewrite land_BITMASK, shiftr_div).
  rewrite E. pose proof (arbitrate_spec s ipl_sr all 0xffff (-1)) as A. cbn zeta in A.
  fold all. set (r := arbitrate s ipl_sr all 0xffff (-1)) in *.
  assert (Hin : r ∈ all → (r =? 0xffff) = false).
  { intros Hr%elem_of_seqZ. apply Z.eqb_neq. lia. }
  destruct A as [A | [Hn [[-> A] | [A _]]]].
  - left. exists r. split; [done |]. by rewrite (Hin (first_nmi_elem _ _ _ A)).
  - right. split; [done |]. right. split; [done |]. intros j Hj Hp.
    destruct (Z.lt_ge_cases (ipl s j) ipl_sr); [lia |]. specialize (A j Hj (conj Hp H)). lia.
  - right. split; [done |]. left. exists r. split; [done |].
    by rewrite (Hin (first_highest_elem _ _ _ _ A)).
Qed.

(** A stack error and an illegal instruction, both of level 3, are pending. *)
Lemma dsp_interrupt_arbitration_witness :
  let s := dsp56k_add_interrupt
             (dsp56k_add_interrupt (dsp56k_reset_cpu zero_core) DSP_INTER_STACK_ERROR)
             DSP_INTER_ILLEGAL in
  ∃ i, first_nmi s (seqZ 0 12) i ∧ dsp_postexecute_interrupts s = raise_interrupt s i.
Proof.
  intros s.
  destruct (dsp_interrupt_arbitration s ltac:(vm_compute; reflexivity) ltac:(vm_compute; discriminate)
    ltac:(vm_compute; reflexivity) ltac:(vm_compute; discriminate)) as [H | [Hn _]]; [exact H |].
  exfalso. apply (Hn 1); [apply elem_of_seqZ; lia | vm_compute; reflexivity..].
Defined.
