(* ===== verification/DspLoop.v ===== *)
(** * The hardware loops of the DSP56300 emulator

    REP repeats the next instruction and DO a block of instructions; both are run
    by [dsp_postexecute_update_pc] of src/hw/xbox/dsp/dsp_cpu.c, between
    instructions.  The theorems here follow whole instruction sequences. *)

From S2P Require Import Prelude Dsp56 DspCore DspDecode DspAlu DspAddr DspCpu DspMove DspInst DspExec DspSafe DspSafeInst DspStep.

(** ** REP *)

(** [REP #n] and a data ALU operation without a parallel move. *)
Definition rep_word (n : Z) : Z := 0x0600a0 + (n mod 256) * 256 + n / 256.
Definition alu_word (k : Z) : Z := 0x200000 + k.

Definition rep_entry : OpcodeEntry :=
  Op "00000110iiiiiiii1010hhhh" "rep #xxx" (Some "dis_rep_imm")%string (Some "emu_rep_imm")%string false.

Lemma rep_words_match :
  forallb (λ n, op_matches (rep_word n) rep_entry && negb (rep_word n .& 0xFEFB90 =? 0x0A7080))
    (seqZ 0 4096) = true.
Proof. vm_compute. reflexivity. Qed.

Lemma rep_word_decodes n : 0 ≤ n < 4096 →
  lookup_opcode (rep_word n) = Ok (Some rep_entry) ∧ imm12 (rep_word n) = n ∧ rep_word n < 0x100000.
Proof.
  intros Hn. pose proof rep_words_match as F. rewrite forallb_forall in F.
  specialize (F n). rewrite <- list_elem_of_In, elem_of_seqZ in F.
  apply andb_true_iff in F as [Hm Ha%negb_true_iff%Z.eqb_neq]; [| lia].
  split; [| unfold imm12, rep_word; split; arith].
  apply lookup_matching; [| done | done].
  apply (list_elem_of_lookup_2 _ 172). reflexivity.
Qed.

Section rep.
Context `{Peripherals P}.
Implicit Types (s : dsp_core) (p : P).

(** [n] instructions. *)
Fixpoint run_steps (n : nat) : cpu P () :=
  match n with
  | O => mret tt
  | S n => dsp56k_execute_instruction;; run_steps n
  end.

Lemma run_steps_S n s p :
  run_steps (S n) s p =
  match dsp56k_execute_instruction s p with
  | Ok (_, s', p') => run_steps n s' p'
  | Fault e => Fault e
  end.
Proof. cbn. unfold mbind, cpu_bind. by destruct (dsp56k_execute_instruction s p) as [[[] ?] |]. Qed.

Lemma run_rep n s p : 0 ≤ n < 4096 → cur_inst s = rep_word n →
  run_inst s p = emu_rep_imm s p.
Proof.
  intros Hn E. destruct (rep_word_decodes n Hn) as (El & _ & Hlt).
  unfold run_inst, mbind, cpu_bind, getf, lift. rewrite E, El.
  rewrite (proj2 (Z.ltb_lt _ _) Hlt). reflexivity.
Qed.

Lemma run_alu k f s p : 0 ≤ k < 256 → opcodes_alu !! Z.to_nat k = Some f → cur_inst s = alu_word k →
  run_inst s p = match f s with Ok s' => Ok (tt, s', p) | Fault e => Fault e end.
Proof.
  intros Hk Hf E. unfold run_inst, mbind, cpu_bind, getf. rewrite E. unfold alu_word.
  rewrite (proj2 (Z.ltb_ge _ _)) by lia.
  assert (((0x200000 + k) .>> 20) .& BITMASK 4 = 2) as -> by arith.
  change (opcodes_parmove !! Z.to_nat 2) with (Some (emu_pm_2 (P := P))). cbv beta iota.
  unfold emu_pm_2, execute_alu, mbind, cpu_bind, getf. rewrite E. unfold alu_word.
  change 0xffff00 with (2 ^ 24 - 2 ^ 8). rewrite land_high by lia.
  assert (0x200000 + k - (0x200000 + k) mod 2 ^ 8 = 0x200000) as -> by arith.
  rewrite Z.eqb_refl, E. unfold alu_word.
  assert ((0x200000 + k) .& BITMASK 8 = k) as -> by arith. rewrite Hf. reflexivity.
Qed.

(** *** Quiet interrupts

    With nothing pending, the interrupt logic leaves the program counter and the
    registers alone; in trace mode it posts and takes the trace interrupt. *)

Definition no_interrupts (s : dsp_core) : Prop :=
  interrupt_state s ≠ DSP_INTERRUPT_DISABLED ∧ interrupt_counter s = 0 ∧
  ∀ i, rd (interrupt_is_pending s) i = 0.

Lemma arbitrate_none s ipl_sr l index raise :
  (∀ i, i ∈ l → rd (interrupt_is_pending s) i ≠ 1) → arbitrate s ipl_sr l index raise = index.
Proof.
  induction l as [| i l IH]; intros Hn; [done |]. cbn [arbitrate].
  rewrite (proj2 (Z.eqb_neq _ 1)) by (apply Hn; left). apply IH. intros j Hj. apply Hn. by right.
Qed.

Lemma search_quiet s : no_interrupts s →
  ∃ s', search_interrupt s = Ok s' ∧ pc s' = pc s ∧ registers s' = registers s ∧
        loop_rep s' = loop_rep s ∧ pram s' = pram s.
Proof.
  intros (Hd & Hc & Hn). unfold search_interrupt. destruct (nz _); [| rewrite Hc; by exists s].
  unfold dsp56k_add_interrupt. rewrite Hn. cbn [Z.eqb].
  destruct (_ =? -1); [rewrite Hc; by exists s |].
  set (s1 := s <| interrupt_is_pending := _ |> <| interrupt_counter := _ |>).
  assert (interrupt_counter s1 =? 0 = false) as -> by (subst s1; cbn; by rewrite Hc). cbn zeta.
  set (r := arbitrate s1 _ _ _ _).
  assert (Hr : r = 0xffff ∨ r = 3).
  { pose proof (arbitrate_spec s1 ((reg s1 DSP_REG_SR .>> DSP_SR_I0) .& BITMASK 2) (seqZ 0 12) 0xffff (-1)) as A.
    cbn zeta in A. fold r in A.
    assert (Hp : pending s1 r → r = 3).
    { unfold pending, s1; cbn. rewrite rd_wr. case_decide; [done |]. by rewrite Hn. }
    destruct A as [(? & ? & _ & A & _) | [_ [[A _] | [(? & ? & _ & [A _] & _) _]]]]; auto. }
  destruct Hr as [-> | ->]; [by eexists |]. by eexists.
Qed.

(** *** Repetition *)

(** [s] differs from [s0] in the registers a data ALU operation or REP writes, and
    not in its program or its interrupts. *)
Definition rep_frame (s0 s : dsp_core) : Prop :=
  pram s = pram s0 ∧ interrupt_state s = interrupt_state s0 ∧
  interrupt_counter s = interrupt_counter s0 ∧ interrupt_is_pending s = interrupt_is_pending s0 ∧
  ∀ r, r ∉ DSP_REG_LC :: DSP_REG_LCSAVE :: ALU_REGS → reg s r = reg s0 r.

(** Before one of the last [n] executions of the instruction at [a]. *)
Record repeating (s0 : dsp_core) (a n : Z) (s : dsp_core) : Prop := {
  rep_ok : core_ok s;
  rep_pc : pc s = a;
  rep_on : loop_rep s = 1 ∧ pc_on_rep s = 0;
  rep_lc : reg s DSP_REG_LC = n;
  rep_saved : reg s DSP_REG_LCSAVE = reg s0 DSP_REG_LC;
  rep_rest : rep_frame s0 s
}.

Lemma read_p_in s : core_ok s → pc s < DSP_PRAM_SIZE →
  read_memory_p s (pc s) = Ok (rd (pram s) (pc s)).
Proof.
  intros Hs Ha. destruct (ok_ram s Hs) as (_ & _ & Hp & _). pose proof (ok_pc s Hs).
  unfold DSP_PRAM_SIZE in Ha. unfold read_memory_p.
  rewrite (top_byte_small (pc s)), (top_byte_small (rd (pram s) (pc s))) by (apply Hp || lia).
  unfold assert, DSP_PRAM_SIZE. cbn. by rewrite (proj2 (Z.ltb_lt _ _) Ha).
Qed.

(** One execution of the repeated ALU operation: the state the operation leaves. *)
Lemma rep_body s0 a n k f s p : repeating s0 a n s → a < DSP_PRAM_SIZE →
  rd (pram s0) a = alu_word k → 0 ≤ k < 256 → opcodes_alu !! Z.to_nat k = Some f →
  f ≠ emu_undefined →
  ∃ s2, dsp56k_execute_instruction s p =
        match (s3 ← dsp_postexecute_update_pc s2; dsp_postexecute_interrupts s3) with
        | Ok s4 => Ok (tt, s4, p)
        | Fault e => Fault e
        end ∧
        repeating s0 a n s2 ∧ cur_inst_len s2 = 1.
Proof.
  intros [Hok Hpc Hon Hlc Hsv (Hp & Hrest)] Ha Hw Hk Hf Hu.
  rewrite execute_fetched, read_p_in by (by rewrite ?Hpc). rewrite Hpc, Hp, Hw.
  set (s1 := fetched s (alu_word k)). assert (H1 : core_ok s1) by (by destruct Hok).
  rewrite (run_alu k f s1 p Hk Hf eq_refl).
  destruct (alu_entry_fit _ _ Hf) as [-> | Hfit]; [done |].
  destruct (Hfit s1 (ok_regs s1 H1)) as (s2 & -> & Hs2 & F).
  exists s2. split; [done |]. pose proof (core_ok_frame _ _ _ H1 Hs2 F) as H2.
  destruct F as [E F]. unfold ALU_REGS in F.
  split; [split; [done |..] | by rewrite E].
  - by rewrite E.
  - by rewrite E.
  - rewrite F by (rewrite !not_elem_of_cons; split_and!; done || apply not_elem_of_nil). done.
  - rewrite F by (rewrite !not_elem_of_cons; split_and!; done || apply not_elem_of_nil). done.
  - destruct Hrest as (Hi1 & Hi2 & Hi3 & Hr). split; [by rewrite E |]. split; [by rewrite E |].
    split; [by rewrite E |]. split; [by rewrite E |]. intros r Hn. rewrite F; [by apply Hr |].
    unfold ALU_REGS in Hn. rewrite !not_elem_of_cons in *. tauto.
Qed.

(** The end of a DO loop is not at the next address. *)
Definition not_at_la (s : dsp_core) (a : Z) : Prop := a ≠ reg s DSP_REG_LA + 1.

Lemma do_step_off s : core_ok s → not_at_la s (pc s) → do_step s = Ok s.
Proof.
  intros Hs Hla. unfold do_step. destruct (nz _); [| done].
  destruct (ok_regs s Hs) as (F & _). specialize (F DSP_REG_LA ltac:(done)).
  change (loose_bits DSP_REG_LA) with 16 in F.
  rewrite wrap_small by lia. by rewrite (proj2 (Z.eqb_neq _ _) Hla).
Qed.

Lemma dec_lc_value s n : reg s DSP_REG_LC = n → 1 ≤ n ≤ 0x10000 → reg (dec_lc s) DSP_REG_LC = n - 1.
Proof. intros <- Hn. unfold dec_lc. rewrite reg_set_eq. arith. Qed.

Lemma rep_frame_dec s0 s : rep_frame s0 s → rep_frame s0 (dec_lc s).
Proof.
  intros (H1 & H2 & H3 & H4 & Hr). split_and!; try done. intros r Hn. unfold dec_lc.
  rewrite reg_set_ne; [by apply Hr |]. rewrite not_elem_of_cons in Hn. naive_solver.
Qed.

Lemma la_not_rep : DSP_REG_LA ∉ DSP_REG_LC :: DSP_REG_LCSAVE :: ALU_REGS.
Proof. unfold ALU_REGS. rewrite !not_elem_of_cons. split_and!; done || apply not_elem_of_nil. Qed.

(** More than one execution is left: the PC stays. *)
Lemma rep_continue s0 a n s : repeating s0 a n s → 2 ≤ n ≤ 0x10000 → a < DSP_PRAM_SIZE →
  not_at_la s0 a →
  ∃ s', (s3 ← dsp_postexecute_update_pc s; dsp_postexecute_interrupts s3) = Ok s' ∧
        repeating s0 a (n - 1) s'.
Proof.
  intros [Hok Hpc [Hon1 Hon2] Hlc Hsv Hrest] Hn Ha Hla. unfold dsp_postexecute_update_pc.
  unfold rep_step. rewrite Hon1, Hon2. cbn [nz Z.eqb negb]. cbn zeta.
  rewrite (dec_lc_value s n) by (done || lia). rewrite (proj2 (Z.ltb_lt 0 (n - 1))) by lia.
  pose proof (ok_pc s Hok).
  match goal with |- context [do_step ?x] => set (s1 := x) end.
  assert (Epc : pc s1 = a) by (subst s1; cbn; rewrite Z.add_0_r, wrap_small; lia).
  assert (H1 : core_ok s1).
  { apply core_ok_pc; [| by apply wrap_bound]. pose proof (dec_lc_ok s Hok) as Hd. by destruct Hd. }
  assert (Hr : rep_frame s0 s1) by (apply (rep_frame_dec s0 s Hrest)).
  rewrite do_step_off; [| done |].
  2: { unfold not_at_la. rewrite Epc. destruct Hr as (_ & _ & _ & _ & Hr).
       by rewrite (Hr DSP_REG_LA la_not_rep). }
  exists s1. cbn [mbind res_bind]. unfold dsp_postexecute_interrupts.
  change (loop_rep s1) with (loop_rep s). rewrite Hon1. split; [done |]. split; try done.
  - by apply (dec_lc_value s n); [| lia].
  - subst s1. rewrite <- Hsv. change (reg (dec_lc s) DSP_REG_LCSAVE = reg s DSP_REG_LCSAVE).
    unfold dec_lc. by rewrite reg_set_ne.
Qed.

(** The last execution: the PC moves on and LC is restored. *)
Lemma rep_finish s0 a s : repeating s0 a 1 s → cur_inst_len s = 1 → a < DSP_PRAM_SIZE →
  not_at_la s0 (a + 1) → no_interrupts s0 →
  ∃ s', (s3 ← dsp_postexecute_update_pc s; dsp_postexecute_interrupts s3) = Ok s' ∧
    pc s' = a + 1 ∧ loop_rep s' = 0 ∧ pram s' = pram s0 ∧
    reg s' DSP_REG_LC = reg s0 DSP_REG_LC ∧
    ∀ r, r ∉ DSP_REG_LCSAVE :: ALU_REGS → reg s' r = reg s0 r.
Proof.
  intros [Hok Hpc [Hon1 Hon2] Hlc Hsv Hrest] Hlen Ha Hla Hq. unfold dsp_postexecute_update_pc.
  unfold rep_step. rewrite Hon1, Hon2. cbn [nz Z.eqb negb]. cbn zeta.
  rewrite (dec_lc_value s 1) by (done || lia). change (0 <? 1 - 1) with false. cbv iota.
  pose proof (ok_pc s Hok). unfold DSP_PRAM_SIZE in Ha.
  set (s1 := set_reg (dec_lc s <| loop_rep := 0 |>) DSP_REG_LC (reg (dec_lc s) DSP_REG_LCSAVE)).
  match goal with |- context [do_step ?x] => set (s2 := x) end.
  assert (Epc : pc s2 = a + 1)
    by (change (pc s2) with (u32 (pc s + cur_inst_len s)); rewrite Hlen, wrap_small; lia).
  assert (Hr : ∀ r, r ∉ DSP_REG_LCSAVE :: ALU_REGS → reg s2 r = reg s0 r).
  { intros r Hn. change (reg s2 r) with (reg s1 r). unfold s1. destruct (Z.eq_dec r DSP_REG_LC) as [-> |].
    - rewrite reg_set_eq, <- Hsv. change (reg (dec_lc s) DSP_REG_LCSAVE = reg s DSP_REG_LCSAVE).
      unfold dec_lc. by rewrite reg_set_ne.
    - rewrite reg_set_ne by done. change (reg (dec_lc s) r = reg s0 r).
      unfold dec_lc. rewrite reg_set_ne by done.
      destruct Hrest as (_ & _ & _ & _ & Hf). apply Hf. rewrite not_elem_of_cons. done. }
  assert (H1 : core_ok s2).
  { apply core_ok_pc; [| by apply wrap_bound]. apply core_set_reg; [| done | apply core_reg; [by apply dec_lc_ok | done]].
    pose proof (dec_lc_ok s Hok) as Hd. by destruct Hd. }
  rewrite do_step_off; [| done |].
  2: { unfold not_at_la. rewrite Epc, Hr; [done |]. pose proof la_not_rep as [_ N]%not_elem_of_cons. exact N. }
  cbn [mbind res_bind]. destruct Hrest as (Hpr & Hi1 & Hi2 & Hi3 & _).
  rewrite postexecute_search; [| done |].
  2: { change (interrupt_state s ≠ DSP_INTERRUPT_DISABLED). rewrite Hi1. apply Hq. }
  destruct (search_quiet s2) as (s' & E & E1 & E2 & E3 & E4).
  { destruct Hq as (Q1 & Q2 & Q3). split_and!.
    - change (interrupt_state s ≠ DSP_INTERRUPT_DISABLED). by rewrite Hi1.
    - change (interrupt_counter s = 0). by rewrite Hi2.
    - change (∀ i, rd (interrupt_is_pending s) i = 0). by rewrite Hi3. }
  exists s'. split; [done |]. rewrite E1, E3, E4. unfold reg in *. rewrite E2.
  split_and!; [done | done | done | | exact Hr]. apply Hr.
  unfold ALU_REGS. rewrite !not_elem_of_cons. split_and!; done || apply not_elem_of_nil.
Qed.

(** REP itself: LC is saved and loaded, with 0 standing for 65536. *)
Definition rep_count (n : Z) : Z := if n =? 0 then 0x10000 else n.

(** What repetition leaves alone. *)
Definition same_control (s s' : dsp_core) : Prop :=
  pc s' = pc s ∧ pram s' = pram s ∧ cur_inst_len s' = cur_inst_len s ∧
  interrupt_state s' = interrupt_state s ∧
  interrupt_counter s' = interrupt_counter s ∧ interrupt_is_pending s' = interrupt_is_pending s.

Lemma same_control_trans s1 s2 s3 : same_control s1 s2 → same_control s2 s3 → same_control s1 s3.
Proof. unfold same_control. intros (? & ? & ? & ? & ? & ?) (? & ? & ? & ? & ? & ?). split_and!; congruence. Qed.

Lemma same_control_set_reg s r v : same_control s (set_reg s r v).
Proof. done. Qed.

(** The steps of [emu_rep_imm]. *)
Definition rep_mark (s : dsp_core) : dsp_core := s <| pc_on_rep := 1 |> <| loop_rep := 1 |>.
Definition spend (n : Z) (s : dsp_core) : dsp_core := s <| instr_cycle := u16 (instr_cycle s + n) |>.
Definition rep_saved_state (s : dsp_core) : dsp_core :=
  rep_mark (set_reg s DSP_REG_LCSAVE (reg s DSP_REG_LC)).
Definition rep_entered (s : dsp_core) (n : Z) : dsp_core :=
  spend 2 (set_reg (rep_saved_state s) DSP_REG_LC n).

Lemma rep_mark_facts s :
  reg (rep_mark s) = reg s ∧ loop_rep (rep_mark s) = 1 ∧ pc_on_rep (rep_mark s) = 1 ∧
  same_control s (rep_mark s) ∧ (core_ok s → core_ok (rep_mark s)).
Proof. split_and!; try done. by intros []. Qed.

Lemma spend_facts n s :
  reg (spend n s) = reg s ∧ loop_rep (spend n s) = loop_rep s ∧ pc_on_rep (spend n s) = pc_on_rep s ∧
  same_control s (spend n s) ∧ (core_ok s → core_ok (spend n s)).
Proof. split_and!; try done. by intros []. Qed.

Lemma set_reg_facts s r v :
  loop_rep (set_reg s r v) = loop_rep s ∧ pc_on_rep (set_reg s r v) = pc_on_rep s.
Proof. done. Qed.

Lemma rep_entered_ok s n : core_ok s → 0 ≤ n < 4096 → core_ok (rep_entered s n).
Proof.
  intros Hok Hn. unfold rep_entered, rep_saved_state.
  apply spend_facts, core_set_reg; [apply rep_mark_facts, core_set_reg; [done | done | by apply core_reg] | done |].
  change (loose_bits DSP_REG_LC) with 24. lia.
Qed.

Lemma rep_entered_facts s n :
  reg (rep_entered s n) DSP_REG_LC = n ∧
  reg (rep_entered s n) DSP_REG_LCSAVE = reg s DSP_REG_LC ∧
  (∀ r, r ≠ DSP_REG_LC → r ≠ DSP_REG_LCSAVE → reg (rep_entered s n) r = reg s r) ∧
  loop_rep (rep_entered s n) = 1 ∧ pc_on_rep (rep_entered s n) = 1 ∧
  same_control s (rep_entered s n).
Proof.
  unfold rep_entered, rep_saved_state.
  set (s1 := set_reg s _ _). destruct (rep_mark_facts s1) as (M1 & M2 & M3 & M4 & _).
  set (s2 := rep_mark s1) in *. destruct (spend_facts 2 (set_reg s2 DSP_REG_LC n)) as (P1 & P2 & P3 & P4 & _).
  rewrite P1, P2, P3. destruct (set_reg_facts s2 DSP_REG_LC n) as [-> ->]. rewrite M2, M3.
  assert (K : same_control s s2) by (apply (same_control_trans s s1); [apply same_control_set_reg | exact M4]).
  clearbody s2. split_and!; try done.
  - apply reg_set_eq.
  - rewrite reg_set_ne, M1 by done. apply reg_set_eq.
  - intros r N1 N2. rewrite reg_set_ne, M1 by done. by apply reg_set_ne.
Qed.

Lemma run_rep_entered s p n : 0 ≤ n < 4096 → cur_inst s = rep_word n →
  run_inst s p = Ok (tt, rep_entered s n, p).
Proof.
  intros Hn E. rewrite (run_rep n s p Hn E). destruct (rep_word_decodes n Hn) as (_ & Ei & _).
  unfold emu_rep_imm, mbind, cpu_bind, getf. rewrite E, Ei.
  unfold rep_enter, mbind, cpu_bind, rget, rset.
  change (reg_index DSP_REG_LC) with true. change (reg_index DSP_REG_LCSAVE) with true. cbv iota beta.
  unfold modify. cbv iota beta.
  fold (rep_mark (set_reg s DSP_REG_LCSAVE (reg s DSP_REG_LC))). fold (rep_saved_state s).
  reflexivity.
Qed.

(** The PC update that follows REP. *)
Lemma rep_step_first s : loop_rep s = 1 → pc_on_rep s = 1 →
  reg (rep_step s) DSP_REG_LC = rep_count (reg s DSP_REG_LC) ∧
  (∀ r, r ≠ DSP_REG_LC → reg (rep_step s) r = reg s r) ∧
  loop_rep (rep_step s) = 1 ∧ pc_on_rep (rep_step s) = 0 ∧
  same_control s (rep_step s).
Proof.
  intros Hl Hp. unfold rep_step, rep_count. rewrite Hl, Hp. cbn [nz Z.eqb negb].
  destruct (Z.eqb_spec (reg s DSP_REG_LC) 0); unfold set_reg, reg, same_control, set; cbn;
    split_and!; try done.
  - by rewrite rd_wr_eq.
  - intros r N. by rewrite rd_wr_ne.
Qed.

Lemma fetched_facts s w :
  reg (fetched s w) = reg s ∧ cur_inst_len (fetched s w) = 1 ∧ pc (fetched s w) = pc s ∧
  pram (fetched s w) = pram s ∧ interrupt_state (fetched s w) = interrupt_state s ∧
  interrupt_counter (fetched s w) = interrupt_counter s ∧
  interrupt_is_pending (fetched s w) = interrupt_is_pending s ∧
  cur_inst (fetched s w) = w ∧ (core_ok s → core_ok (fetched s w)).
Proof. split_and!; try done. by intros []. Qed.

Lemma rep_first s p n : core_ok s → cur_inst s = rep_word n → 0 ≤ n < 4096 →
  cur_inst_len s = 1 → pc s + 1 < DSP_PRAM_SIZE → not_at_la s (pc s + 1) →
  ∃ s1 s', run_inst s p = Ok (tt, s1, p) ∧
    (s3 ← dsp_postexecute_update_pc s1; dsp_postexecute_interrupts s3) = Ok s' ∧
    repeating s (pc s + 1) (rep_count n) s'.
Proof.
  intros Hok Hw Hn Hlen Ha Hla. pose proof (ok_pc s Hok) as Hpc. unfold DSP_PRAM_SIZE in Ha.
  exists (rep_entered s n). rewrite (run_rep_entered s p n) by done. unfold dsp_postexecute_update_pc.
  pose proof (rep_step_ok _ (rep_entered_ok _ n Hok Hn)) as H2.
  destruct (rep_entered_facts s n) as (L1 & S1 & R1 & E1 & P1 & K1).
  set (s1 := rep_entered s n) in *. clearbody s1.
  destruct (rep_step_first s1 E1 P1) as (L2 & R2 & E2 & P2 & K2).
  set (s2 := rep_step s1) in *. clearbody s2.
  destruct K1 as (K11 & K12 & C1 & K13 & K14 & K15), K2 as (K21 & K22 & C2 & K23 & K24 & K25).
  rewrite K21, K11, C2, C1, Hlen, wrap_small by lia.
  assert (H3 : core_ok (s2 <| pc := pc s + 1 |>)) by (apply core_ok_pc; [done | lia]).
  assert (HR : ∀ r, r ≠ DSP_REG_LC → r ≠ DSP_REG_LCSAVE → reg s2 r = reg s r)
    by (intros; rewrite R2, R1 by done; done).
  rewrite do_step_off; [| done | by unfold not_at_la; change (pc s + 1 ≠ reg s2 DSP_REG_LA + 1); rewrite HR].
  cbn [mbind res_bind]. unfold dsp_postexecute_interrupts.
  change (loop_rep (s2 <| pc := pc s + 1 |>)) with (loop_rep s2). rewrite E2.
  eexists. split; [reflexivity |]. split; [reflexivity |]. split; try done.
  - change (reg s2 DSP_REG_LC = rep_count n). by rewrite L2, L1.
  - change (reg s2 DSP_REG_LCSAVE = reg s DSP_REG_LC). by rewrite R2, S1.
  - split_and!; try (cbn; congruence).
    intros r Hn'. rewrite !not_elem_of_cons in Hn'. apply HR; tauto.
Qed.

Lemma repeating_frame s0 s0' a n s : repeating s0' a n s →
  reg s0' = reg s0 → pram s0' = pram s0 → interrupt_state s0' = interrupt_state s0 →
  interrupt_counter s0' = interrupt_counter s0 → interrupt_is_pending s0' = interrupt_is_pending s0 →
  repeating s0 a n s.
Proof.
  intros [? ? ? ? Hs (Q1 & Q2 & Q3 & Q4 & Q5)] E1 E2 E3 E4 E5.
  rewrite E1 in Hs. split; try done. unfold rep_frame. rewrite <- E1, <- E2, <- E3, <- E4, <- E5. done.
Qed.

Lemma rep_start s p n : core_ok s → pc s + 1 < DSP_PRAM_SIZE → rd (pram s) (pc s) = rep_word n →
  0 ≤ n < 4096 → not_at_la s (pc s + 1) →
  ∃ s', dsp56k_execute_instruction s p = Ok (tt, s', p) ∧ repeating s (pc s + 1) (rep_count n) s'.
Proof.
  intros Hok Ha Hw Hn Hla. rewrite execute_fetched, read_p_in, Hw by (done || lia).
  destruct (fetched_facts s (rep_word n)) as (F1 & F2 & F3 & F4 & F5 & F6 & F7 & F8 & F9).
  specialize (F9 Hok). set (s0 := fetched s (rep_word n)) in *. clearbody s0.
  rewrite <- F3 in Ha |- *. unfold not_at_la in Hla. rewrite <- F1, <- F3 in Hla.
  destruct (rep_first s0 p n F9 F8 Hn F2 Ha Hla) as (s1 & s' & -> & E & R).
  exists s'. rewrite E. split; [done |]. by apply (repeating_frame s s0).
Qed.

(** One step of the repetition, not the last. *)
Lemma rep_again s0 a n k f s p : repeating s0 a n s → a < DSP_PRAM_SIZE → 2 ≤ n ≤ 0x10000 →
  rd (pram s0) a = alu_word k → 0 ≤ k < 256 → opcodes_alu !! Z.to_nat k = Some f →
  f ≠ emu_undefined → not_at_la s0 a →
  ∃ s', dsp56k_execute_instruction s p = Ok (tt, s', p) ∧ repeating s0 a (n - 1) s'.
Proof.
  intros Hr Ha Hn Hw Hk Hf Hu Hla.
  destruct (rep_body s0 a n k f s p Hr Ha Hw Hk Hf Hu) as (s2 & -> & H2 & _).
  destruct (rep_continue s0 a n s2 H2 Hn Ha Hla) as (s' & -> & H'). by exists s'.
Qed.

Lemma rep_steps s0 a n k f s p (i : nat) : repeating s0 a n s → a < DSP_PRAM_SIZE → n ≤ 0x10000 →
  rd (pram s0) a = alu_word k → 0 ≤ k < 256 → opcodes_alu !! Z.to_nat k = Some f →
  f ≠ emu_undefined → not_at_la s0 a → Z.of_nat i < n →
  ∃ s', run_steps i s p = Ok (tt, s', p) ∧ repeating s0 a (n - Z.of_nat i) s'.
Proof.
  intros Hr Ha Hn Hw Hk Hf Hu Hla. revert n s Hr Hn. induction i as [| i IH]; intros n s Hr Hn Hi.
  - exists s. by rewrite Z.sub_0_r.
  - destruct (rep_again s0 a n k f s p) as (s1 & E & H1); try done; [lia |].
    destruct (IH (n - 1) s1 H1) as (s' & E' & H'); [lia | lia |]. exists s'.
    rewrite run_steps_S, E, E'. split; [done |]. by replace (n - Z.of_nat (S i)) with (n - 1 - Z.of_nat i) by lia.
Qed.

Lemma run_steps_snoc i s p s1 p1 : run_steps i s p = Ok (tt, s1, p1) →
  run_steps (S i) s p = dsp56k_execute_instruction s1 p1.
Proof.
  revert s p. induction i as [| i IH]; intros s p E.
  - injection E as -> ->. rewrite run_steps_S. by destruct (dsp56k_execute_instruction s1 p1) as [[[[] ?] ?] |].
  - rewrite run_steps_S in E |- *. destruct (dsp56k_execute_instruction s p) as [[[[] s'] p'] |]; [| done].
    by apply IH.
Qed.

(** C20: REP repeats.  When the word at the PC is [REP #n] and the next one is a
    data ALU operation, the operation is at the PC after each of the next [n]
    instructions (65536 of them when [n] is 0), the instruction after it is at the PC
    when they are over, and then repetition is off, LC has the value it had before, and
    only the data ALU registers and the save register of LC have changed.  No
    interrupt is pending and no DO loop ends at either address. *)
Theorem emu_rep_correct s p n k f :
  core_ok s → no_interrupts s → pc s + 1 < DSP_PRAM_SIZE →
  0 ≤ n < 4096 → rd (pram s) (pc s) = rep_word n →
  0 ≤ k < 256 → rd (pram s) (pc s + 1) = alu_word k →
  opcodes_alu !! Z.to_nat k = Some f → f ≠ emu_undefined →
  not_at_la s (pc s + 1) → not_at_la s (pc s + 2) →
  (∀ i, 1 ≤ i ≤ rep_count n →
    ∃ s', run_steps (Z.to_nat i) s p = Ok (tt, s', p) ∧ pc s' = pc s + 1) ∧
  ∃ s', run_steps (Z.to_nat (rep_count n + 1)) s p = Ok (tt, s', p) ∧
    pc s' = pc s + 2 ∧ loop_rep s' = 0 ∧ pram s' = pram s ∧
    reg s' DSP_REG_LC = reg s DSP_REG_LC ∧
    ∀ r, r ∉ DSP_REG_LCSAVE :: ALU_REGS → reg s' r = reg s r.
Proof.
  intros Hok Hq Ha Hn Hw Hk Hw' Hf Hu Hla1 Hla2.
  assert (Hc : 1 ≤ rep_count n ≤ 0x10000) by (unfold rep_count; destruct (Z.eqb_spec n 0); lia).
  destruct (rep_start s p n) as (s1 & E1 & H1); try done.
  assert (Hi : ∀ i : nat, Z.of_nat i < rep_count n →
    ∃ s', run_steps (S i) s p = Ok (tt, s', p) ∧ repeating s (pc s + 1) (rep_count n - Z.of_nat i) s').
  { intros i Hi. rewrite run_steps_S, E1. apply (rep_steps s (pc s + 1) (rep_count n) k f); done || lia. }
  split.
  - intros i Hi'. destruct (Hi (Z.to_nat (i - 1))) as (s' & E & H'); [lia |]. exists s'.
    replace (Z.to_nat i) with (S (Z.to_nat (i - 1))) by lia. split; [done | apply H'].
  - destruct (Hi (Z.to_nat (rep_count n - 1))) as (s2 & E & H2); [lia |].
    replace (rep_count n - _) with 1 in H2 by lia.
    replace (Z.to_nat (rep_count n + 1)) with (S (S (Z.to_nat (rep_count n - 1)))) by lia.
    rewrite (run_steps_snoc _ _ _ _ _ E).
    destruct (rep_body s (pc s + 1) 1 k f s2 p H2 Ha Hw' Hk Hf Hu) as (s3 & -> & H3 & L3).
    destruct (rep_finish s (pc s + 1) s3 H3 L3 Ha) as (s' & -> & P' & Q'); [| done |].
    { by rewrite <- Z.add_assoc. }
    exists s'. rewrite P', <- Z.add_assoc. done.
Qed.

End rep.

(** [REP #3], [ASL A], at address 4. *)
Definition with_program (s : dsp_core) (m : mem) (a : Z) : dsp_core := s <| pram := m |> <| pc := a |>.
Definition rep_program : dsp_core :=
  with_program (dsp56k_reset_cpu zero_core) (wr (wr ∅ 4 (rep_word 3)) 5 (alu_word 0x32)) 4.

Lemma with_program_ok s m a : core_ok s → (∀ i, 0 ≤ rd m i < 2 ^ 24) → 0 ≤ a < 2 ^ 32 →
  core_ok (with_program s m a).
Proof.
  intros Hs Hm Ha. apply core_ok_pc; [| done]. destruct Hs as [? (? & ? & _ & ?) ? ? ? ? ?].
  by split; [| split_and! |..].
Qed.

Lemma rep_program_ok : core_ok rep_program.
Proof.
  apply with_program_ok; [| | lia].
  - apply reset_core_ok; [by apply empty_ram_ok | done].
  - intros i. rewrite !rd_wr, rd_empty. repeat case_decide; by vm_compute.
Qed.

Lemma with_program_quiet s m a : no_interrupts s → no_interrupts (with_program s m a).
Proof. done. Qed.

Lemma reset_quiet s : no_interrupts (dsp56k_reset_cpu s).
Proof. split_and!; [done | done |]. intros i. change (rd ∅ i = 0). apply rd_empty. Qed.

Lemma emu_rep_witness :
  ∃ s', @run_steps () detached 4 rep_program tt = Ok (tt, s', tt) ∧
        pc s' = 6 ∧ reg s' DSP_REG_LC = reg rep_program DSP_REG_LC.
Proof.
  destruct (@emu_rep_correct () detached rep_program tt 3 0x32 emu_asl_a) as [_ (s' & E & Hpc & _ & _ & Hlc & _)].
  - exact rep_program_ok.
  - apply with_program_quiet, reset_quiet.
  - by vm_compute.
  - lia.
  - by vm_compute.
  - lia.
  - by vm_compute.
  - reflexivity.
  - intros E. apply (f_equal (λ f, f zero_core)) in E. vm_compute in E. discriminate E.
  - by vm_compute.
  - by vm_compute.
  - exists s'. split; [exact E |]. split; [exact Hpc | exact Hlc].
Defined.
