(* ===== verification/DspTime.v ===== *)
(** * Time in the DSP56300 emulator

    [instr_cycle] counts the cycles of an instruction; [dsp_run] of dsp.c spends its
    budget by it, so that its loop ends because no instruction takes less than two
    cycles.  Every instruction of the emulator adds to the counter at most a constant
    that keeps the 16-bit field from wrapping. *)

From S2P Require Import Prelude Dsp56 DspCore DspDecode DspAlu DspAddr DspCpu DspMove DspInst DspExec.

(** The fields that matter here are unchanged. *)
Definition still (s s' : dsp_core) : Prop :=
  instr_cycle s' = instr_cycle s ∧ executing_for_disasm s' = executing_for_disasm s.

(** At most [k] cycles have passed. *)
Definition ticks (k : Z) (s s' : dsp_core) : Prop :=
  executing_for_disasm s' = executing_for_disasm s ∧
  (0 ≤ instr_cycle s < 2 ^ 16 →
   ∃ n, 0 ≤ n ≤ k ∧ instr_cycle s' = u16 (instr_cycle s + n)).

Lemma still_refl s : still s s.
Proof. done. Qed.

Lemma still_trans s1 s2 s3 : still s1 s2 → still s2 s3 → still s1 s3.
Proof. unfold still. intros [] []. split; congruence. Qed.

Lemma still_ticks s s' : still s s' → ticks 0 s s'.
Proof.
  intros [E1 E2]. split; [done |]. intros Hc. exists 0. split; [lia |].
  by rewrite Z.add_0_r, wrap_small.
Qed.

Lemma ticks_trans k1 k2 s1 s2 s3 : ticks k1 s1 s2 → ticks k2 s2 s3 → ticks (k1 + k2) s1 s3.
Proof.
  intros [E1 T1] [E2 T2]. split; [congruence |]. intros Hc.
  destruct (T1 Hc) as (n & Hn & I1). destruct T2 as (m & Hm & I2).
  { rewrite I1. apply wrap_bound. lia. }
  exists (n + m). split; [lia |]. rewrite I2, I1. unfold wrap. rewrite Z.add_mod_idemp_l by lia. f_equal. lia.
Qed.

Lemma ticks_weaken k k' s s' : ticks k s s' → k ≤ k' → ticks k' s s'.
Proof. intros [E T] Hk. split; [done |]. intros Hc. destruct (T Hc) as (n & Hn & I). exists n. split; [lia | done]. Qed.

(** ** Functions of the core *)

Create HintDb still.
#[export] Hint Resolve still_refl : still.

Lemma still_set_reg s s' r v : still s s' → still s (set_reg s' r v).
Proof. done. Qed.
Lemma still_store56 s s' d a : still s s' → still s (store56 s' d a).
Proof. done. Qed.
Lemma still_clear_sr s s' v : still s s' → still s (clear_sr s' v).
Proof. done. Qed.
Lemma still_or_sr s s' v : still s s' → still s (or_sr s' v).
Proof. done. Qed.
Lemma still_set_n_z s s' d : still s s' → still s (set_n_z d s').
Proof. done. Qed.
Lemma still_sr_if s s' b k : still s s' → still s (sr_if b k s').
Proof. by destruct b. Qed.
#[export] Hint Resolve still_set_reg still_store56 still_clear_sr still_or_sr still_set_n_z still_sr_if : still.

Lemma still_ccr s s' a : still s s' → still s (emu_ccr_update_e_u_n_z s' a).
Proof. intros. unfold emu_ccr_update_e_u_n_z. cbn zeta. repeat case_match; auto 12 with still. Qed.
Lemma still_add_interrupt s s' i : still s s' → still s (dsp56k_add_interrupt s' i).
Proof. intros. unfold dsp56k_add_interrupt. by repeat case_match. Qed.
#[export] Hint Resolve still_ccr still_add_interrupt : still.

(** The result of a function of the core, when it returns. *)
Definition quiet (f : dsp_core → res dsp_core) : Prop := ∀ s s', f s = Ok s' → still s s'.

Ltac quiet :=
  intros s s' E; cbv beta zeta in E;
  repeat match type of E with
  | (_ ≫= _) = Ok _ => let x := fresh "x" in apply bind_ok in E as (x & ? & E); try destruct x; cbv beta iota zeta in E
  | context [match ?x with _ => _ end] => destruct x eqn:?; cbv beta iota zeta in E
  end;
  first [discriminate E | injection E as <-; auto 12 with still].

Ltac quiet_entry :=
  lazymatch goal with |- quiet ?f => let g := eval unfold f in f in change (quiet g) end;
  unfold quiet, emu_abs, emu_adc, emu_add, emu_addl, emu_addr, emu_and, emu_asl, emu_asr, emu_clr, emu_cmp,
    emu_cmpm, emu_eor, emu_lsl, emu_lsr, emu_mac, emu_macr, emu_mpy, emu_mpyr, emu_neg, emu_not, emu_or,
    emu_rnd, emu_rol, emu_ror, emu_sbc, emu_sub, emu_subl, emu_subr, emu_tfr, emu_tst, emu_macr_uninit;
  quiet.

Lemma opcodes_alu_quiet : Forall (λ f, f = emu_undefined ∨ quiet f) opcodes_alu.
Proof.
  unfold opcodes_alu.
  repeat (apply Forall_cons_2; [first [by left | right; quiet_entry] |]). apply Forall_nil_2.
Qed.

Lemma emu_undefined_ticks s s' : executing_for_disasm s = false → emu_undefined s = Ok s' → ticks 100 s s'.
Proof.
  intros Hd E. unfold emu_undefined in E. rewrite Hd in E. cbn [negb] in E.
  destruct (exception_debugging _); [done |]. injection E as <-. split; [done |].
  intros Hc. exists 100. by split.
Qed.

Lemma alu_ticks i f s s' : opcodes_alu !! i = Some f → executing_for_disasm s = false →
  f s = Ok s' → ticks 100 s s'.
Proof.
  intros Hf Hd E. pose proof opcodes_alu_quiet as Q. rewrite Forall_lookup in Q.
  destruct (Q i f Hf) as [-> | Hq]; [by apply emu_undefined_ticks |].
  apply (ticks_weaken 0); [| lia]. by apply still_ticks, Hq.
Qed.

(** The check for a stack error that [dsp_stack_push] and [dsp_stack_pop] begin with. *)
Lemma still_stack_check (b : bool) i s s1 :
  (if b then (let s := dsp56k_add_interrupt s i in if exception_debugging s then Fault assert_failed else Ok s)
   else Ok s) = Ok s1 → still s s1.
Proof.
  destruct b; cbn zeta; [| intros [= <-]; apply still_refl].
  destruct (exception_debugging _); [done |]. intros [= <-]. auto with still.
Qed.

Lemma quiet_push a b o : quiet (λ s, dsp_stack_push s a b o).
Proof.
  intros s s' E. unfold dsp_stack_push in E. apply bind_ok in E as (s1 & E1%still_stack_check & E).
  injection E as <-. apply still_set_reg, still_set_reg. by repeat case_match.
Qed.

Lemma pop_still s a b s' : dsp_stack_pop s = Ok (a, b, s') → still s s'.
Proof.
  intros E. unfold dsp_stack_pop in E. apply bind_ok in E as (s1 & E1%still_stack_check & E).
  injection E as _ _ <-. auto with still.
Qed.

Lemma quiet_write_reg r v : quiet (λ s, dsp_write_reg s r v).
Proof.
  intros s s' E. unfold dsp_write_reg in E.
  destruct (r =? DSP_REG_A); [injection E as <-; auto with still |].
  destruct (r =? DSP_REG_B); [injection E as <-; auto with still |].
  destruct (r =? DSP_REG_OMR); [injection E as <-; auto with still |].
  destruct (r =? DSP_REG_SR); [injection E as <-; auto with still |].
  destruct (r =? DSP_REG_SP).
  { apply bind_ok in E as (s1 & E1 & E). injection E as <-. apply still_set_reg, still_set_reg.
    repeat case_match; simplify_eq; auto with still. }
  destruct (r =? DSP_REG_SSH); [by apply quiet_push in E |].
  destruct (r =? DSP_REG_SSL); [by injection E as <- |].
  case_match; [| done]. injection E as <-. auto with still.
Qed.

Lemma still_set_Rn s s' n v : still s s' → still s (set_Rn s' n v).
Proof. done. Qed.
#[export] Hint Resolve still_set_Rn : still.

Lemma quiet_update_rn n m : quiet (λ s, emu_update_rn s n m).
Proof.
  intros s s' E. unfold emu_update_rn, emu_update_rn_modulo, emu_update_rn_bitreverse in E.
  repeat match type of E with
  | (_ ≫= _) = Ok _ => let x := fresh in apply bind_ok in E as (x & ? & E); destruct x
  | (if ?b then _ else _) = Ok _ => destruct b
  | (match ?x with _ => _ end) = Ok _ => destruct x
  end; simplify_eq; auto with still.
Qed.

Lemma calc_ea_ticks s m a b s' : emu_calc_ea s m = Ok (a, b, s') → ticks 2 s s'.
Proof.
  assert (Hc : ∀ s, ticks 2 s (s <| instr_cycle := u16 (instr_cycle s + 2) |>))
    by (intros s1; split; [done |]; intros _; exists 2; done).
  assert (H0 : ∀ s s', still s s' → ticks 2 s s')
    by (intros; apply (ticks_weaken 0); [by apply still_ticks | lia]).
  assert (H2 : ∀ s s', still (s <| instr_cycle := u16 (instr_cycle s + 2) |>) s' → ticks 2 s s').
  { intros s1 s2 Hs. apply (ticks_trans 2 0 _ _ _ (Hc s1)). by apply still_ticks. }
  intros E. unfold emu_calc_ea in E. cbn zeta in E.
  repeat case_match; try (apply bind_ok in E as (x & E1 & E)); injection E as _ _ <-;
    first [by apply H0, (quiet_update_rn _ _ _ _ E1) | by apply H2, (quiet_update_rn _ _ _ _ E1)
          | by apply H2 | by apply H0].
Qed.

Lemma read_accu24_still s r : still s (emu_pm_read_accu24 s r).2.
Proof. unfold emu_pm_read_accu24. repeat case_match; cbn; auto with still. Qed.

(** ** Instructions *)

(** What the callbacks of the peripherals promise: they do not touch the clock. *)
Class PeripheralsTimed (P : Type) `{Peripherals P} :=
  write_peripheral_still s p a v s' p' : write_peripheral s p a v = Ok (s', p') → still s s'.

Section timed.
Context `{PeripheralsTimed P}.

Definition timed {A} (k : Z) (m : cpu P A) : Prop := ∀ s p a s' p',
  executing_for_disasm s = false → m s p = Ok (a, s', p') → ticks k s s'.

Lemma timed_weaken {A} k k' (m : cpu P A) : timed k m → k ≤ k' → timed k' m.
Proof. intros Hm Hk s p a s' p' Hd E. eapply ticks_weaken; [by eapply Hm | done]. Qed.

Lemma timed_bind {A B} k1 k2 (m : cpu P A) (f : A → cpu P B) :
  timed k1 m → (∀ a, timed k2 (f a)) → timed (k1 + k2) (m ≫= f).
Proof.
  intros Hm Hf s p b s' p' Hd E. unfold mbind, cpu_bind in E.
  destruct (m s p) as [[[a s1] p1] |] eqn:E1; [| done]. pose proof (Hm _ _ _ _ _ Hd E1) as T1.
  eapply ticks_trans; [exact T1 |]. eapply Hf; [| exact E]. by rewrite (proj1 T1).
Qed.

Lemma timed_still {A} (m : cpu P A) : (∀ s p a s' p', m s p = Ok (a, s', p') → still s s') → timed 0 m.
Proof. intros Hm s p a s' p' _ E. by eapply still_ticks, Hm. Qed.

Lemma timed_ret {A} (a : A) : timed 0 (mret a).
Proof. apply timed_still. intros ? ? ? ? ? [= _ <- _]. apply still_refl. Qed.
Lemma timed_getf {A} (f : dsp_core → A) : timed 0 (getf f).
Proof. apply timed_still. intros ? ? ? ? ? [= _ <- _]. apply still_refl. Qed.
Lemma timed_modify f : (∀ s, still s (f s)) → timed 0 (modify f).
Proof. intros Hf. apply timed_still. unfold modify. intros ? ? ? ? ? E. simplify_eq. apply Hf. Qed.
Lemma timed_lift {A} (r : res A) : timed 0 (lift r).
Proof. apply timed_still. unfold lift. intros ? ? ? ? ? E. case_match; simplify_eq. apply still_refl. Qed.
Lemma timed_on_core f : quiet f → timed 0 (on_core f).
Proof.
  intros Hf. apply timed_still. unfold on_core. intros ? ? ? ? ? E. case_match eqn:E1; simplify_eq. by apply Hf.
Qed.
Lemma timed_rget r : timed 0 (rget r).
Proof. apply timed_still. unfold rget. intros ? ? ? ? ? E. case_match; simplify_eq. apply still_refl. Qed.
Lemma timed_rset r v : timed 0 (rset r v).
Proof. apply timed_still. unfold rset. intros ? ? ? ? ? E. case_match; simplify_eq. auto with still. Qed.
Lemma timed_fetch a : timed 0 (fetch_p a).
Proof. apply timed_still. unfold fetch_p. intros ? ? ? ? ? E. case_match; simplify_eq. apply still_refl. Qed.
Lemma timed_read_accu24 r : timed 0 (read_accu24 r).
Proof.
  apply timed_still. unfold read_accu24, from_core. intros s p a s' p' E.
  pose proof (read_accu24_still s r) as R. destruct (emu_pm_read_accu24 s r). by simplify_eq.
Qed.
Lemma timed_pop : timed 0 stack_pop.
Proof.
  apply timed_still. unfold stack_pop, from_core. intros s p a s' p' E.
  destruct (dsp_stack_pop s) as [[[x y] s1] |] eqn:E1; simplify_eq. by apply pop_still in E1.
Qed.
Lemma timed_mem_read sp a : timed 0 (mem_read sp a).
Proof. apply timed_still. unfold mem_read. intros ? ? ? ? ? E. case_match; simplify_eq. apply still_refl. Qed.
Lemma timed_mem_write sp a v : timed 0 (mem_write sp a v).
Proof.
  apply timed_still. unfold mem_write. intros s p x s' p' E.
  destruct (dsp56k_write_memory s p sp a v) as [[s1 p1] |] eqn:E1; simplify_eq.
  unfold dsp56k_write_memory, write_memory_raw in E1.
  repeat (apply bind_ok in E1 as (? & _ & E1)).
  repeat (case_match; try (by apply write_peripheral_still in E1); try (apply bind_ok in E1 as (? & _ & E1)));
    simplify_eq; done.
Qed.
Lemma timed_calc_ea m : timed 2 (calc_ea m).
Proof.
  unfold calc_ea, from_core. intros s p a s' p' _ E.
  destruct (emu_calc_ea s m) as [[[x y] s1] |] eqn:E1; simplify_eq. by apply calc_ea_ticks in E1.
Qed.
Lemma timed_add_cycle n : 0 ≤ n → timed n (add_cycle n).
Proof. unfold add_cycle, modify. intros Hn s p a s' p' _ E. simplify_eq. split; [done |]. intros _. exists n. split; [lia | done]. Qed.
Lemma timed_alu : timed 100 execute_alu.
Proof.
  unfold execute_alu, mbind, cpu_bind, getf. intros s p a s' p' Hd E. case_match eqn:Ef; [| done].
  unfold on_core in E. case_match eqn:E1; simplify_eq. by eapply alu_ticks.
Qed.
Lemma timed_undefined : timed 100 (on_core emu_undefined).
Proof.
  unfold on_core. intros s p a s' p' Hd E. case_match eqn:E1; simplify_eq. by apply emu_undefined_ticks.
Qed.

Lemma timed_bind_le {A B} k1 k (m : cpu P A) (f : A → cpu P B) :
  timed k1 m → (∀ a, timed (k - k1) (f a)) → timed k (m ≫= f).
Proof. intros Hm Hf. replace k with (k1 + (k - k1)) by lia. by apply timed_bind. Qed.

Lemma quiet_illegal : quiet (λ s,
  let s := dsp56k_add_interrupt s DSP_INTER_ILLEGAL in
  if exception_debugging s then Fault assert_failed else Ok s).
Proof. intros s s' E. cbn zeta in E. destruct (exception_debugging _); [done |]. injection E as <-. auto with still. Qed.

Lemma quiet_nop : quiet emu_nop.
Proof. intros s s' [= <-]. apply still_refl. Qed.

End timed.

(** The cost lemma of a primitive. *)
Ltac timed_prim :=
  lazymatch goal with
  | |- timed _ (mret _) => apply timed_ret
  | |- timed _ (getf _) => apply timed_getf
  | |- timed _ (modify _) => apply timed_modify; intros; first [done | auto with still]
  | |- timed _ (lift _) => apply timed_lift
  | |- timed _ (rget _) => apply timed_rget
  | |- timed _ (rset _ _) => apply timed_rset
  | |- timed _ (fetch_p _) => apply timed_fetch
  | |- timed _ (read_accu24 _) => apply timed_read_accu24
  | |- timed _ stack_pop => apply timed_pop
  | |- timed _ (mem_read _ _) => apply timed_mem_read
  | |- timed _ (mem_write _ _ _) => apply timed_mem_write
  | |- timed _ (calc_ea _) => apply timed_calc_ea
  | |- timed _ (add_cycle _) => apply timed_add_cycle; lia
  | |- timed _ execute_alu => apply timed_alu
  | |- timed _ (on_core emu_undefined) => apply timed_undefined
  | |- timed _ (on_core _) =>
      apply timed_on_core; first [apply quiet_push | apply quiet_write_reg | apply quiet_illegal | apply quiet_nop]
  end.

Ltac head_of t := lazymatch t with ?f _ => head_of f | _ => t end.

(** Follow the program.  A compound first part of a sequence gets no cycle, or four. *)
Ltac timed_go :=
  lazy zeta;
  lazymatch goal with
  | |- timed _ (mbind _ (add_cycle ?n)) => apply (timed_bind_le n); [timed_prim | intros; timed_go]
  | |- timed _ (mbind _ (calc_ea _)) => apply (timed_bind_le 2); [timed_prim | intros; timed_go]
  | |- timed _ (mbind _ execute_alu) => apply (timed_bind_le 100); [timed_prim | intros; timed_go]
  | |- timed _ (mbind _ _) =>
      first [apply (timed_bind_le 0); [solve [timed_prim] | intros; timed_go]
            | apply (timed_bind_le 0); [solve [timed_go] | intros; timed_go]
            | apply (timed_bind_le 4); [timed_go | intros; timed_go]]
  | |- timed _ (if ?b then _ else _) => destruct b; timed_go
  | |- timed _ (match ?x with _ => _ end) => destruct x; timed_go
  | |- timed _ ?m =>
      first [solve [eapply timed_weaken; [timed_prim | lia]]
            | let h := head_of m in unfold h; timed_go]
  end.

Section instructions.
Context `{PeripheralsTimed P}.

(** An instruction takes at most 140 cycles over the two it starts with. *)
Lemma opcodes_parmove_timed : Forall (timed 140) opcodes_parmove.
Proof. unfold opcodes_parmove. repeat (apply Forall_cons_2; [timed_go |]). apply Forall_nil_2. Qed.

Lemma emu_functions_timed : Forall (λ e, timed 140 e.2) emu_functions.
Proof.
  unfold emu_functions. repeat (apply Forall_cons_2; [cbn [snd]; timed_go |]). apply Forall_nil_2.
Qed.

Lemma timed_run_inst : timed 140 run_inst.
Proof.
  unfold run_inst. apply (timed_bind_le 0); [apply timed_getf |]. intros inst.
  destruct (inst <? 0x100000).
  - apply (timed_bind_le 0); [apply timed_lift |]. intros op. destruct (op ≫= emu_func) as [f |].
    + unfold find_emu. destruct (list_find _ emu_functions) as [[i [g m]] |] eqn:E; cbn;
        [| eapply timed_weaken; [apply timed_lift | lia]].
      apply list_find_Some in E as (E & _). pose proof emu_functions_timed as F.
      rewrite Forall_lookup in F. apply (F i (g, m) E).
    + eapply timed_weaken; [apply timed_undefined | lia].
  - destruct (opcodes_parmove !! _) as [m |] eqn:E; [| eapply timed_weaken; [apply timed_lift | lia]].
    pose proof opcodes_parmove_timed as F. rewrite Forall_lookup in F. by eapply timed_weaken; [eapply F | lia].
Qed.

(** *** Between instructions *)

Lemma still_rep_step s : still s (rep_step s).
Proof. unfold rep_step, dec_lc. by repeat case_match. Qed.

Lemma quiet_do_step : quiet do_step.
Proof.
  intros s s' E. unfold do_step in E. destruct (nz _); [| injection E as <-; apply still_refl].
  destruct (_ =? _); [| injection E as <-; apply still_refl]. cbn zeta in E.
  destruct (_ =? 0); [| by injection E as <-].
  apply bind_ok in E as ([[a b] s1] & E1%pop_still & E). cbn zeta in E.
  apply bind_ok in E as ([[la lc] s2] & E2%pop_still & E). injection E as <-.
  apply still_set_reg, still_set_reg. eapply still_trans; [exact E1 | exact E2].
Qed.

Lemma quiet_update_pc : quiet dsp_postexecute_update_pc.
Proof.
  intros s s' E. unfold dsp_postexecute_update_pc in E. cbn zeta in E. apply quiet_do_step in E.
  apply (still_trans _ _ _ (still_rep_step s)). exact E.
Qed.

Lemma quiet_enter_long : quiet enter_long.
Proof.
  intros s s' E. unfold enter_long in E. cbn zeta in E. apply bind_ok in E as (s1 & E1 & E).
  apply quiet_push in E1. injection E as <-. apply still_set_reg, still_set_reg. exact E1.
Qed.

Lemma quiet_search : quiet search_interrupt.
Proof.
  intros s s' E. unfold search_interrupt in E. cbn zeta in E.
  set (s1 := if nz _ then _ else _) in E.
  assert (H1 : still s s1) by (unfold s1; destruct (nz _); auto with still). clearbody s1.
  apply (still_trans _ _ _ H1). destruct (_ =? 0); [injection E as <-; apply still_refl |].
  destruct (_ =? 0xffff); [injection E as <-; apply still_refl |].
  unfold raise_interrupt in E. cbn zeta in E. apply bind_ok in E as (v & _ & E).
  repeat (destruct (_ =? _); [discriminate E |]). apply Ok_inj in E as <-. by split.
Qed.

Definition either (r : dsp_core + dsp_core) : dsp_core := match r with inl s => s | inr s => s end.

Lemma fast_still s r : fast_interrupt s = Ok r → still s (either r).
Proof.
  intros E. unfold fast_interrupt in E. cbn zeta in E.
  assert (Hd : ∀ s1, still s s1 → still s (pipeline_dec s1)) by done.
  repeat match type of E with match ?x with _ => _ end = _ => destruct x end;
    try (apply Ok_inj in E as <-; by split).
  - apply bind_ok in E as (s1 & E1 & E). apply Ok_inj in E as <-. apply Hd.
    destruct (_ =? _); [| apply Ok_inj in E1 as <-; apply still_refl].
    apply bind_ok in E1 as (i & _ & E1).
    destruct (is_jsr i); [by apply quiet_enter_long | apply Ok_inj in E1 as <-; apply still_refl].
  - apply bind_ok in E as (i & _ & E). apply bind_ok in E as (s1 & E1 & E). apply Ok_inj in E as <-. apply Hd.
    destruct (is_jsr i); [| apply Ok_inj in E1 as <-; by split].
    apply quiet_enter_long in E1. exact E1.
  - apply Ok_inj in E as <-. apply Hd. destruct (_ =? _); by split.
Qed.

Lemma quiet_interrupts : quiet dsp_postexecute_interrupts.
Proof.
  intros s s' E. unfold dsp_postexecute_interrupts in E.
  destruct (nz _); [injection E as <-; apply still_refl |].
  destruct (_ =? _); [| by apply quiet_search].
  apply bind_ok in E as (r & E1%fast_still & E). destruct r as [s1 | s1]; cbn in E1.
  - by injection E as <-.
  - eapply still_trans; [exact E1 | by apply quiet_search].
Qed.

(** The time an instruction takes. *)
Lemma execute_time s p a s' p' : executing_for_disasm s = false →
  dsp56k_execute_instruction s p = Ok (a, s', p') →
  2 ≤ instr_cycle s' ≤ 142 ∧ executing_for_disasm s' = false.
Proof.
  intros Hd E. unfold dsp56k_execute_instruction, mbind, cpu_bind, modify, getf, on_core in E.
  destruct (fetch_p _ _ _) as [[[inst s1] p1] |] eqn:E1; [| done].
  assert (Hs1 : executing_for_disasm s1 = false).
  { unfold fetch_p in E1. destruct (read_memory_p _ _); [| done]. by injection E1 as _ <- _. }
  set (s2 := set instr_cycle _ _) in E.
  destruct (run_inst s2 p1) as [[[b s3] p3] |] eqn:E3; [| done].
  apply timed_run_inst in E3; [| done].
  destruct (dsp_postexecute_update_pc s3) as [s4 |] eqn:E4; [| done]. apply quiet_update_pc in E4.
  destruct (dsp_postexecute_interrupts s4) as [s5 |] eqn:E5; [| done]. apply quiet_interrupts in E5.
  injection E as <- <- <-. destruct E5 as [-> ->], E4 as [-> ->], E3 as [-> T].
  change (instr_cycle s2) with 2 in T. destruct T as (n & Hn & ->); [lia |].
  rewrite wrap_small by lia. split; [lia | exact Hs1].
Qed.

End instructions.
