(* ===== verification/DspDma.v ===== *)
(** * The DMA engine of the DSP

    src/hw/xbox/dsp/dsp_dma.c and dsp_dma.h: a linked list of transfer nodes in X
    memory moves words between the memories of the core and a byte buffer of the
    audio unit, reached through the callbacks [scratch_rw] and [fifo_rw]. *)

From S2P Require Import Prelude Bytes Dsp56 DspCore DspAlu DspSafe.

Definition DMA_CONTROL_ACTION := 0x7.
Definition DMA_CONTROL_ACTION_START := 1.
Definition DMA_CONTROL_ACTION_STOP := 2.
Definition DMA_CONTROL_ACTION_FREEZE := 3.
Definition DMA_CONTROL_ACTION_UNFREEZE := 4.
Definition DMA_CONTROL_FROZEN := 1 .<< 3.
Definition DMA_CONTROL_RUNNING := 1 .<< 4.
Definition DMA_CONTROL_STOPPED := 1 .<< 5.

Definition NODE_POINTER_VAL := 0x3fff.
Definition NODE_POINTER_EOL := 1 .<< 14.
Definition NODE_CONTROL_DIRECTION := 1 .<< 1.

Inductive DSPDMARegister :=
| DMA_CONFIGURATION
| DMA_CONTROL
| DMA_START_BLOCK
| DMA_NEXT_BLOCK.

(** [DSPDMAState], less the pointer to the core and the callbacks. *)
Record DSPDMAState := Dma {
  configuration : Z;
  control : Z;
  start_block : Z;
  next_block : Z;
  error : bool;
  eol : bool
}.

#[global] Instance DSPDMAState_eta : Eta DSPDMAState := λ d,
  Dma (configuration d) (control d) (start_block d) (next_block d) (error d) (eol d).

(** The callbacks [scratch_rw] and [fifo_rw] on a host state [H]: they take the
    buffer (whose length is the [len] of the source), an address or FIFO index and
    the direction, and return the buffer as they leave it. *)
Class ScratchBus (H : Type) := {
  scratch_rw : H → list Z → Z → bool → res (list Z * H);
  fifo_rw : H → list Z → Z → bool → res (list Z * H)
}.

(** The engine reads and writes below the peripheral page only, where the callbacks
    of the core are not consulted ([dma_read_any], [dma_write_any]). *)
Definition dma_read (c : dsp_core) (space address : Z) : res Z :=
  @dsp56k_read_memory () detached c tt space address.

Definition dma_write (c : dsp_core) (space address value : Z) : res dsp_core :=
  '(c, _) ← @dsp56k_write_memory () detached c tt space address value; Ok c.

(** The seven words of a node. *)
Record node := Node {
  nd_next : Z;
  nd_control : Z;
  nd_count : Z;
  nd_dsp_offset : Z;
  nd_scratch_offset : Z;
  nd_scratch_base : Z;
  nd_scratch_size : Z
}.

Definition read_node (c : dsp_core) (addr : Z) : res node :=
  next_block ← dma_read c DSP_SPACE_X addr;
  control ← dma_read c DSP_SPACE_X (addr + 1);
  count ← dma_read c DSP_SPACE_X (addr + 2);
  dsp_offset ← dma_read c DSP_SPACE_X (addr + 3);
  scratch_offset ← dma_read c DSP_SPACE_X (addr + 4);
  scratch_base ← dma_read c DSP_SPACE_X (addr + 5);
  scratch_size ← dma_read c DSP_SPACE_X (addr + 6);
  Ok (Node next_block control count dsp_offset scratch_offset scratch_base
        (u32 (scratch_size + 1))).

(** [item_size] and [item_mask] of a sample format. *)
Definition item_format (format : Z) : res (Z * Z) :=
  match format with
  | 1 => Ok (2, 0xffffffff)
  | 2 | 6 => Ok (4, 0x00FFFFFF)
  | _ => Fault assert_failed
  end.

(** The memory an offset in the DMA address space of the core names. *)
Definition dsp_target (dsp_offset count : Z) : res (Z * Z) :=
  if dsp_offset <? 0x1800 then
    _ ← assert (u32 (dsp_offset + count) <? 0x1800);
    Ok (DSP_SPACE_X, dsp_offset)
  else if (0x1800 <=? dsp_offset) && (dsp_offset <? 0x2000) then
    _ ← assert (u32 (dsp_offset + count) <? 0x2000);
    Ok (DSP_SPACE_Y, dsp_offset - 0x1800)
  else if (0x2800 <=? dsp_offset) && (dsp_offset <? 0x3800) then
    _ ← assert (u32 (dsp_offset + count) <? 0x3800);
    Ok (DSP_SPACE_P, dsp_offset - 0x2800)
  else Fault assert_failed.

(** DSP to buffer: the words at [address + i], for [n] values of [i]. *)
Fixpoint gather (c : dsp_core) (space address : Z) (size i : Z) (n : nat) : res (list Z) :=
  match n with
  | O => Ok []
  | S n =>
      v ← dma_read c space (address + i);
      rest ← gather c space address size (i + 1) n;
      Ok (le_bytes (Z.to_nat size) v ++ rest)
  end.

(** Item [i] of the buffer. *)
Definition item (size mask : Z) (buf : list Z) (i : Z) : Z :=
  let v := le_value (take (Z.to_nat size) (drop (Z.to_nat (i * size)) buf)) in
  if size =? 2 then v else v .& mask.

(** Buffer to DSP. *)
Fixpoint scatter (c : dsp_core) (space address : Z) (size mask : Z) (buf : list Z) (i : Z)
    (n : nat) : res dsp_core :=
  match n with
  | O => Ok c
  | S n =>
      c ← dma_write c space (address + i) (item size mask buf i);
      scatter c space address size mask buf (i + 1) n
  end.

Section dma.
Context `{ScratchBus H}.
Implicit Types (c : dsp_core) (d : DSPDMAState) (h : H).

(** The transfer of one node, once its control word is decoded. *)
Definition dma_transfer c h (direction : bool)
    (buf_id space address scratch_addr count item_size item_mask : Z) : res (dsp_core * H) :=
  let buf := replicate (Z.to_nat (count * item_size)) 0 in
  if direction then
    buf ← gather c space address item_size 0 (Z.to_nat count);
    if (0x0 <=? buf_id) && (buf_id <=? 0x3) then
      '(_, h) ← fifo_rw h buf buf_id true;
      Ok (c, h)
    else if (buf_id =? 0xE) || (buf_id =? 0xF) then
      '(_, h) ← scratch_rw h buf scratch_addr true;
      Ok (c, h)
    else Fault assert_failed
  else
    _ ← assert ((buf_id =? 0xE) || (buf_id =? 0xF));
    '(buf, h) ← scratch_rw h buf scratch_addr false;
    c ← scatter c space address item_size item_mask buf 0 (Z.to_nat count);
    Ok (c, h).

(** What a node asks for: decode its control word and transfer. *)
Definition dma_node c h (nd : node) : res (dsp_core * H) :=
  let direction := nz (nd_control nd .& NODE_CONTROL_DIRECTION) in
  let unk2 := (nd_control nd .>> 2) .& 0x3 in
  let buf_id := (nd_control nd .>> 5) .& 0xf in
  let format := (nd_control nd .>> 10) .& 0x7 in
  let unk13 := nz ((nd_control nd .>> 13) .& 1) in
  _ ← assert (unk2 =? 0);
  _ ← assert (negb unk13);
  '(item_size, item_mask) ← item_format format;
  if (buf_id =? 0xe)
     && (nd_scratch_size nd <=? u32 (nd_scratch_offset nd + u32 (nd_count nd * item_size))) then
    (* skipping bad dma *)
    Ok (c, h)
  else
    let scratch_addr :=
      if buf_id =? 0xe then u32 (nd_scratch_base nd + nd_scratch_offset nd)
      else nd_scratch_offset nd in
    '(mem_space, mem_address) ← dsp_target (nd_dsp_offset nd) (nd_count nd);
    dma_transfer c h direction buf_id mem_space mem_address scratch_addr
      (nd_count nd) item_size item_mask.

(** One iteration of the loop of [dsp_dma_run]. *)
Definition dma_block c d h : res (dsp_core * DSPDMAState * H) :=
  let addr := next_block d .& NODE_POINTER_VAL in
  _ ← assert (addr + 6 <? DSP_XRAM_SIZE * 4);
  nd ← read_node c addr;
  let d := d <| next_block := nd_next nd |> in
  let d := if nz (next_block d .& NODE_POINTER_EOL) then d <| eol := true |> else d in
  '(c, h) ← dma_node c h nd;
  Ok (c, d, h).

Fixpoint dma_loop (fuel : nat) c d h : res (dsp_core * DSPDMAState * H) :=
  if nz (next_block d .& NODE_POINTER_EOL) then Ok (c, d, h)
  else
    match fuel with
    | O => Fault out_of_fuel
    | S fuel =>
        '(c, d, h) ← dma_block c d h;
        dma_loop fuel c d h
    end.

Definition dsp_dma_run (fuel : nat) c d h : res (dsp_core * DSPDMAState * H) :=
  if negb (nz (control d .& DMA_CONTROL_RUNNING)) || nz (control d .& DMA_CONTROL_FROZEN)
  then Ok (c, d, h)
  else dma_loop fuel c d h.

Definition dsp_dma_read d (r : DSPDMARegister) : Z :=
  match r with
  | DMA_CONFIGURATION => configuration d
  | DMA_CONTROL => control d
  | DMA_START_BLOCK => start_block d
  | DMA_NEXT_BLOCK => next_block d
  end.

(** The action field of a write to the control register. *)
Definition dma_action d (v : Z) : res DSPDMAState :=
  let action := v .& DMA_CONTROL_ACTION in
  if action =? DMA_CONTROL_ACTION_START then
    let d := d <| control := control d .| DMA_CONTROL_RUNNING |> in
    Ok (d <| control := control d .& u32 (.~ DMA_CONTROL_STOPPED) |>)
  else if action =? DMA_CONTROL_ACTION_STOP then
    let d := d <| control := control d .| DMA_CONTROL_STOPPED |> in
    Ok (d <| control := control d .& u32 (.~ DMA_CONTROL_RUNNING) |>)
  else if action =? DMA_CONTROL_ACTION_FREEZE then
    Ok (d <| control := control d .| DMA_CONTROL_FROZEN |>)
  else if action =? DMA_CONTROL_ACTION_UNFREEZE then
    Ok (d <| control := control d .& u32 (.~ DMA_CONTROL_FROZEN) |>)
  else Fault assert_failed.

Definition dsp_dma_write (fuel : nat) c d h (r : DSPDMARegister) (v : Z)
    : res (dsp_core * DSPDMAState * H) :=
  match r with
  | DMA_CONFIGURATION => Ok (c, d <| configuration := v |>, h)
  | DMA_CONTROL =>
      d ← dma_action d v;
      dsp_dma_run fuel c d h
  | DMA_START_BLOCK => Ok (c, d <| start_block := v |>, h)
  | DMA_NEXT_BLOCK => Ok (c, d <| next_block := v |>, h)
  end.

End dma.

(** ** Memory *)

(** Below the peripheral page the memory functions do not use the callbacks. *)
Lemma dma_read_any `{Peripherals P} c (p : P) space address : address < DSP_PERIPH_BASE →
  dsp56k_read_memory c p space address = dma_read c space address.
Proof.
  intros Ha. unfold dma_read, dsp56k_read_memory.
  by rewrite (proj2 (Z.leb_gt DSP_PERIPH_BASE address) Ha).
Qed.

Lemma dma_write_any `{Peripherals P} c (p : P) space address value : address < DSP_PERIPH_BASE →
  dsp56k_write_memory c p space address value =
  (c' ← dma_write c space address value; Ok (c', p)).
Proof.
  intros Ha. unfold dma_write, dsp56k_write_memory, write_memory_raw.
  rewrite (proj2 (Z.leb_gt DSP_PERIPH_BASE address) Ha).
  unfold assert. by repeat case_match.
Qed.

(** [c] with the memories of [c']; the two differ in nothing else. *)
Definition with_ram (c c' : dsp_core) : dsp_core :=
  DspCore (instr_cycle c) (pc c) (registers c) (stack0 c) (stack1 c) (xram c') (yram c')
    (pram c') (mixbuffer c') (periph c) (loop_rep c) (pc_on_rep c) (interrupt_state c)
    (interrupt_instr_fetch c) (interrupt_save_pc c) (interrupt_counter c)
    (interrupt_ipl_to_raise c) (interrupt_pipeline_count c) (interrupt_ipl c)
    (interrupt_is_pending c) (num_inst c) (cur_inst_len c) (cur_inst c)
    (executing_for_disasm c) (disasm_memory_ptr c) (exception_debugging c)
    (disasm_prev_inst_pc c).

Definition same_but_ram (c c' : dsp_core) : Prop := c' = with_ram c c'.

Lemma same_but_ram_refl c : same_but_ram c c.
Proof. by destruct c. Qed.

Lemma same_but_ram_trans c1 c2 c3 : same_but_ram c1 c2 → same_but_ram c2 c3 → same_but_ram c1 c3.
Proof. unfold same_but_ram, with_ram. intros E1 E2. rewrite E2, E1. done. Qed.

Lemma ram_update_frame c space address value : same_but_ram c (ram_update c space address value).
Proof. unfold ram_update, same_but_ram. destruct c. by repeat case_match. Qed.

Lemma core_ok_same_but_ram c c' : core_ok c → ram_ok c' → same_but_ram c c' → core_ok c'.
Proof.
  intros [? ? ? ? ? ? ?] Hr E. unfold same_but_ram in E. rewrite E in Hr |- *. by split.
Qed.

(** The mapped words [address + i] to [address + i + n - 1]. *)
Definition mapped_range (space address i n : Z) : Prop :=
  0 ≤ address + i ∧ ∀ j, i ≤ j < i + n → ram_mapped space (address + j) = true.

Lemma mapped_range_tail space address i n :
  mapped_range space address i (Z.of_nat (S n)) → mapped_range space address (i + 1) (Z.of_nat n).
Proof. intros [? M]. split; [lia |]. intros j Hj. apply M. lia. Qed.

Lemma gather_ok c space address size i n : ram_ok c → mapped_range space address i (Z.of_nat n) →
  gather c space address size i n =
  Ok (concat ((λ j, le_bytes (Z.to_nat size) (ram_cell c space (address + j))) <$> seqZ i (Z.of_nat n))).
Proof.
  intros Hc. revert i. induction n as [| n IH]; intros i Hm; [done |]. cbn [gather].
  unfold dma_read. rewrite read_mapped by (done || apply Hm; lia). cbn [mbind res_bind].
  rewrite IH by (by apply mapped_range_tail). rewrite (seqZ_cons i) by lia.
  replace (Z.pred (Z.of_nat (S n))) with (Z.of_nat n) by lia. by rewrite <- Z.add_1_r.
Qed.

Lemma scatter_ok c space address size mask buf i n : ram_ok c →
  mapped_range space address i (Z.of_nat n) →
  (∀ j, i ≤ j < i + Z.of_nat n → 0 ≤ item size mask buf j < 2 ^ 24) →
  ∃ c', scatter c space address size mask buf i n = Ok c' ∧ ram_ok c' ∧ same_but_ram c c' ∧
    ∀ space' a, ram_mapped space' a = true →
      ram_cell c' space' a =
      if decide (space' = space ∧ address + i ≤ a < address + i + Z.of_nat n)
      then item size mask buf (a - address) else ram_cell c space' a.
Proof.
  revert c i. induction n as [| n IH]; intros c i Hc Hm Hv.
  - exists c. split_and!; [done | done | apply same_but_ram_refl |].
    intros. rewrite decide_False by lia. done.
  - cbn [scatter]. unfold dma_write. rewrite write_mapped by (done || (apply Hm || apply Hv); lia).
    cbn [mbind res_bind]. set (c1 := ram_update c _ _ _).
    assert (H1 : ram_ok c1) by (apply ram_update_ok; [done | apply Hv; lia]).
    destruct (IH c1 (i + 1) H1) as (c' & -> & Hc' & F & Hcell);
      [by apply mapped_range_tail | intros; apply Hv; lia |].
    exists c'. split_and!; [done | done | |].
    + eapply same_but_ram_trans; [apply ram_update_frame | exact F].
    + intros space' a Ha. rewrite Hcell by done. unfold c1.
      rewrite ram_cell_update by (done || apply Hm; lia).
      repeat case_decide; try done; try lia. replace (a - address) with i by lia. done.
Qed.

(** ** Safety *)

(** What the callbacks promise: they keep their invariant and return a byte buffer
    of the same length. *)
Class ScratchBusOk (H : Type) `{ScratchBus H} := {
  bus_ok : H → Prop;
  bus_fault : fault → Prop;
  scratch_rw_ok h buf a dir : bus_ok h → bytes buf → 0 ≤ a < 2 ^ 32 →
    match scratch_rw h buf a dir with
    | Ok (buf', h') => bytes buf' ∧ length buf' = length buf ∧ bus_ok h'
    | Fault e => bus_fault e
    end;
  fifo_rw_ok h buf i dir : bus_ok h → bytes buf → 0 ≤ i < 4 →
    match fifo_rw h buf i dir with
    | Ok (buf', h') => bytes buf' ∧ length buf' = length buf ∧ bus_ok h'
    | Fault e => bus_fault e
    end
}.

Lemma write_unmapped c space address value : 0 ≤ address < DSP_PERIPH_BASE → 0 ≤ value < 2 ^ 24 →
  ram_mapped space address = false → dma_write c space address value = Fault assert_failed.
Proof.
  intros Ha Hv. unfold ram_mapped, dma_write, dsp56k_write_memory, write_memory_raw. dsp_consts.
  rewrite !(top_byte_small address), !(top_byte_small value) by lia. cbn. unfold assert.
  mem_cases; intros; try done; lia.
Qed.

Lemma ram_cell_ok c space address : ram_ok c → 0 ≤ ram_cell c space address < 2 ^ 24.
Proof. intros (? & ? & ? & ?). unfold ram_cell. repeat case_match; auto. Qed.

Lemma dma_read_safe c space address : ram_ok c → 0 ≤ address < DSP_PERIPH_BASE →
  match dma_read c space address with Ok v => 0 ≤ v < 2 ^ 24 | Fault e => e = assert_failed end.
Proof.
  intros Hc Ha. unfold dma_read. destruct (ram_mapped space address) eqn:M.
  - rewrite read_mapped by (done || lia). by apply ram_cell_ok.
  - by rewrite read_unmapped.
Qed.

Lemma dma_write_safe c space address value : ram_ok c → 0 ≤ address < DSP_PERIPH_BASE →
  0 ≤ value < 2 ^ 24 →
  match dma_write c space address value with
  | Ok c' => ram_ok c' ∧ same_but_ram c c'
  | Fault e => e = assert_failed
  end.
Proof.
  intros Hc Ha Hv. destruct (ram_mapped space address) eqn:M.
  - unfold dma_write. rewrite write_mapped by (done || lia). cbn.
    split; [by apply ram_update_ok | apply ram_update_frame].
  - by rewrite write_unmapped.
Qed.

(** Faults of the engine itself. *)
Definition dma_fault (e : fault) : Prop := e = assert_failed ∨ e = out_of_fuel.

Lemma read_node_safe c addr : ram_ok c → 0 ≤ addr → addr + 6 < DSP_PERIPH_BASE →
  match read_node c addr with
  | Ok nd => 0 ≤ nd_next nd < 2 ^ 24 ∧ 0 ≤ nd_control nd < 2 ^ 24 ∧ 0 ≤ nd_count nd < 2 ^ 24 ∧
             0 ≤ nd_dsp_offset nd < 2 ^ 24 ∧ 0 ≤ nd_scratch_offset nd < 2 ^ 24
  | Fault e => e = assert_failed
  end.
Proof.
  intros Hc H0 H6. unfold read_node.
  repeat match goal with
  | |- context [dma_read c ?sp ?a] =>
      let R := fresh "R" in
      pose proof (dma_read_safe c sp a Hc ltac:(lia)) as R; destruct (dma_read c sp a); [cbn [mbind res_bind] | exact R]
  end.
  done.
Qed.

Lemma gather_safe c space address size i n : ram_ok c → 0 ≤ address + i →
  address + i + Z.of_nat n ≤ DSP_PERIPH_BASE →
  match gather c space address size i n with
  | Ok l => bytes l
  | Fault e => e = assert_failed
  end.
Proof.
  intros Hc. revert i. induction n as [| n IH]; intros i H0 Hn; [apply Forall_nil_2 |].
  cbn [gather]. pose proof (dma_read_safe c space (address + i) Hc ltac:(lia)) as R.
  destruct (dma_read c space (address + i)); [cbn [mbind res_bind] | exact R].
  specialize (IH (i + 1) ltac:(lia) ltac:(lia)).
  destruct (gather c space address size (i + 1) n); [cbn [mbind res_bind] | exact IH].
  apply Forall_app. split; [apply le_bytes_byte | exact IH].
Qed.

Definition item_fits (size mask : Z) : Prop := size = 2 ∨ mask = 0xFFFFFF.

Lemma item_ok size mask buf i : bytes buf → item_fits size mask → 0 ≤ item size mask buf i < 2 ^ 24.
Proof.
  intros Hb Hf. unfold item.
  assert (Hl : bytes (take (Z.to_nat size) (drop (Z.to_nat (i * size)) buf)))
    by (apply Forall_take, Forall_drop, Hb).
  apply le_value_bound in Hl. set (v := le_value _) in *.
  destruct (Z.eqb_spec size 2) as [-> | Hs].
  - rewrite length_take in Hl. split; [lia |]. eapply Z.lt_le_trans; [apply Hl |].
    apply Z.pow_le_mono_r; lia.
  - destruct Hf as [-> | ->]; [done |]. change 0xFFFFFF with (BITMASK 24). rewrite land_BITMASK by lia.
    apply Z.mod_pos_bound. lia.
Qed.

Lemma scatter_safe c space address size mask buf i n : ram_ok c → 0 ≤ address + i →
  address + i + Z.of_nat n ≤ DSP_PERIPH_BASE → bytes buf → item_fits size mask →
  match scatter c space address size mask buf i n with
  | Ok c' => ram_ok c' ∧ same_but_ram c c'
  | Fault e => e = assert_failed
  end.
Proof.
  intros Hc H0 Hn Hb Hf. revert c i Hc H0 Hn. induction n as [| n IH]; intros c i Hc H0 Hn.
  { split; [done | apply same_but_ram_refl]. }
  cbn [scatter]. pose proof (item_ok size mask buf i Hb Hf) as Hi.
  pose proof (dma_write_safe c space (address + i) _ Hc ltac:(lia) Hi) as R.
  destruct (dma_write c space (address + i) _) as [c1 |]; [cbn [mbind res_bind] | exact R].
  destruct R as [R F]. specialize (IH c1 (i + 1) R ltac:(lia) ltac:(lia)).
  destruct (scatter c1 space address size mask buf (i + 1) n) as [c2 |]; [| exact IH].
  destruct IH as [R2 F2]. split; [done |]. eapply same_but_ram_trans; eassumption.
Qed.

Lemma item_format_fits format size mask : item_format format = Ok (size, mask) →
  item_fits size mask ∧ 0 < size ≤ 4.
Proof. unfold item_format, item_fits. intros E. repeat case_match; simplify_eq; lia. Qed.

Lemma item_format_fault format e : item_format format = Fault e → e = assert_failed.
Proof. unfold item_format. intros E. repeat case_match; by simplify_eq. Qed.

Lemma dsp_target_spec dsp_offset count : 0 ≤ dsp_offset < 2 ^ 24 → 0 ≤ count < 2 ^ 24 →
  match dsp_target dsp_offset count with
  | Ok (space, address) => 0 ≤ address ∧ address + count < DSP_PERIPH_BASE
  | Fault e => e = assert_failed
  end.
Proof.
  intros Ho Hc. unfold dsp_target, assert. rewrite wrap_small by lia. unfold DSP_PERIPH_BASE.
  booleans; cbn; done || lia.
Qed.

Section safety.
Context `{ScratchBusOk H}.
Implicit Types (c : dsp_core) (d : DSPDMAState) (h : H).

Definition engine_fault (e : fault) : Prop := dma_fault e ∨ bus_fault e.

Definition dma_ok d : Prop :=
  0 ≤ configuration d < 2 ^ 24 ∧ 0 ≤ control d < 2 ^ 24 ∧ 0 ≤ start_block d < 2 ^ 24 ∧
  0 ≤ next_block d < 2 ^ 24.

Lemma dma_transfer_safe c h direction buf_id space address scratch_addr count size mask :
  ram_ok c → bus_ok h → 0 ≤ address → 0 ≤ count → address + count ≤ DSP_PERIPH_BASE →
  0 ≤ scratch_addr < 2 ^ 32 → item_fits size mask →
  match dma_transfer c h direction buf_id space address scratch_addr count size mask with
  | Ok (c', h') => ram_ok c' ∧ same_but_ram c c' ∧ bus_ok h'
  | Fault e => engine_fault e
  end.
Proof.
  intros Hc Hh Ha Hn Hb Hs Hf. unfold dma_transfer.
  assert (Hz : bytes (replicate (Z.to_nat (count * size)) 0)) by (by apply Forall_replicate).
  destruct direction.
  - pose proof (gather_safe c space address size 0 (Z.to_nat count) Hc ltac:(lia) ltac:(lia)) as G.
    destruct (gather _ _ _ _ _ _) as [buf | e]; [cbn [mbind res_bind] | by left; left].
    destruct ((0x0 <=? buf_id) && (buf_id <=? 0x3)) eqn:Ef.
    + pose proof (fifo_rw_ok h buf buf_id true Hh G ltac:(lia)) as R.
      destruct (fifo_rw h buf buf_id true) as [[b h'] | e]; [| by right].
      split_and!; [done | apply same_but_ram_refl | apply R].
    + destruct (_ || _); [| by left; left].
      pose proof (scratch_rw_ok h buf scratch_addr true Hh G Hs) as R.
      destruct (scratch_rw h buf scratch_addr true) as [[b h'] | e]; [| by right].
      split_and!; [done | apply same_but_ram_refl | apply R].
  - unfold assert. destruct (_ || _); [cbn [mbind res_bind] | by left; left].
    pose proof (scratch_rw_ok h _ scratch_addr false Hh Hz Hs) as R.
    destruct (scratch_rw h _ scratch_addr false) as [[buf h'] | e]; [cbn [mbind res_bind] | by right].
    destruct R as (Rb & _ & Rh).
    pose proof (scatter_safe c space address size mask buf 0 (Z.to_nat count)
      Hc ltac:(lia) ltac:(lia) Rb Hf) as S.
    destruct (scatter _ _ _ _ _ _ _ _) as [c' | e]; [| by left; left].
    cbn. tauto.
Qed.

Definition engine_good c d (r : res (dsp_core * DSPDMAState * H)) : Prop :=
  match r with
  | Ok (c', d', h') => ram_ok c' ∧ same_but_ram c c' ∧ dma_ok d' ∧ bus_ok h'
  | Fault e => engine_fault e
  end.

Definition node_ok (nd : node) : Prop :=
  0 ≤ nd_next nd < 2 ^ 24 ∧ 0 ≤ nd_control nd < 2 ^ 24 ∧ 0 ≤ nd_count nd < 2 ^ 24 ∧
  0 ≤ nd_dsp_offset nd < 2 ^ 24 ∧ 0 ≤ nd_scratch_offset nd < 2 ^ 24.

Lemma dma_node_safe c h nd : ram_ok c → bus_ok h → node_ok nd →
  match dma_node c h nd with
  | Ok (c', h') => ram_ok c' ∧ same_but_ram c c' ∧ bus_ok h'
  | Fault e => engine_fault e
  end.
Proof.
  intros Hc Hh (N1 & N2 & N3 & N4 & N5). unfold dma_node, assert.
  destruct (_ =? 0); [cbn [mbind res_bind] | by left; left].
  destruct (negb _); [cbn [mbind res_bind] | by left; left].
  destruct (item_format _) as [[size mask] | e] eqn:F; [cbn [mbind res_bind] |].
  2: { apply item_format_fault in F. by left; left. }
  apply item_format_fits in F as [F1 F2].
  destruct (_ && _); [split_and!; [done | apply same_but_ram_refl | done] |].
  pose proof (dsp_target_spec (nd_dsp_offset nd) (nd_count nd) N4 N3) as T.
  destruct (dsp_target _ _) as [[space address] | e]; [cbn [mbind res_bind] | by left; left].
  apply dma_transfer_safe; try done || lia.
  destruct (_ =? _); [apply wrap_bound; lia | lia].
Qed.

Lemma dma_block_safe c d h : ram_ok c → dma_ok d → bus_ok h → engine_good c d (dma_block c d h).
Proof.
  intros Hc (D1 & D2 & D3 & D4) Hh. unfold dma_block.
  assert (Ha : 0 ≤ next_block d .& NODE_POINTER_VAL < 2 ^ 14).
  { apply (land_bound _ _ 14); [lia |]. unfold NODE_POINTER_VAL. lia. }
  pose proof (read_node_safe c _ Hc (proj1 Ha) ltac:(unfold DSP_PERIPH_BASE; lia)) as R.
  unfold assert. destruct (_ <? _); [cbn [mbind res_bind] | by left; left].
  destruct (read_node c _) as [nd | e]; [cbn [mbind res_bind] | by left; left].
  set (d' := if nz _ then _ else _).
  assert (Hd' : dma_ok d') by (destruct R as [R _]; unfold d'; by destruct (nz _)).
  clearbody d'. pose proof (dma_node_safe c h nd Hc Hh R) as N.
  destruct (dma_node c h nd) as [[c' h'] | e]; [| exact N]. cbn. tauto.
Qed.

Lemma dma_loop_safe fuel c d h : ram_ok c → dma_ok d → bus_ok h →
  engine_good c d (dma_loop fuel c d h).
Proof.
  revert c d h. induction fuel as [| fuel IH]; intros c d h Hc Hd Hh; cbn [dma_loop].
  - destruct (nz _); [split_and!; try done; apply same_but_ram_refl | by left; right].
  - destruct (nz _); [split_and!; try done; apply same_but_ram_refl |].
    pose proof (dma_block_safe c d h Hc Hd Hh) as B.
    destruct (dma_block c d h) as [[[c1 d1] h1] | e]; [cbn [mbind res_bind] | exact B].
    destruct B as (B1 & B2 & B3 & B4). specialize (IH c1 d1 h1 B1 B3 B4).
    destruct (dma_loop fuel c1 d1 h1) as [[[c2 d2] h2] | e]; [| exact IH].
    destruct IH as (I1 & I2 & I3 & I4). split_and!; try done. by eapply same_but_ram_trans.
Qed.

Lemma dma_action_ok d v d' : dma_ok d → dma_action d v = Ok d' → dma_ok d'.
Proof.
  intros (D1 & D2 & D3 & D4) E. unfold dma_action in E.
  assert (L : ∀ a b, 0 ≤ a < 2 ^ 24 → 0 ≤ a .& b < 2 ^ 24)
    by (intros; rewrite Z.land_comm; by apply land_bound).
  assert (O : ∀ a k, 0 ≤ a < 2 ^ 24 → 0 ≤ k < 2 ^ 24 → 0 ≤ a .| k < 2 ^ 24)
    by (intros; by apply lor_bound).
  destruct (_ =? DMA_CONTROL_ACTION_START).
  { injection E as <-. split_and!; try apply D1 || apply D3 || apply D4; cbn; apply L; by apply O. }
  destruct (_ =? DMA_CONTROL_ACTION_STOP).
  { injection E as <-. split_and!; try apply D1 || apply D3 || apply D4; cbn; apply L; by apply O. }
  destruct (_ =? DMA_CONTROL_ACTION_FREEZE).
  { injection E as <-. split_and!; try apply D1 || apply D3 || apply D4; cbn; by apply O. }
  destruct (_ =? DMA_CONTROL_ACTION_UNFREEZE); [| done].
  injection E as <-. split_and!; try apply D1 || apply D3 || apply D4; cbn; by apply L.
Qed.

Lemma dsp_dma_write_safe fuel c d h r v : ram_ok c → dma_ok d → bus_ok h → 0 ≤ v < 2 ^ 24 →
  engine_good c d (dsp_dma_write fuel c d h r v).
Proof.
  intros Hc Hd Hh Hv. pose proof Hd as (D1 & D2 & D3 & D4). unfold dsp_dma_write.
  destruct r; try (split_and!; try done; apply same_but_ram_refl).
  destruct (dma_action d v) as [d' | e] eqn:E; [cbn [mbind res_bind] |].
  - apply dma_action_ok in E; [| done]. unfold dsp_dma_run.
    destruct (_ || _); [split_and!; try done; [apply same_but_ram_refl | apply E..] |].
    pose proof (dma_loop_safe fuel c d' h Hc E Hh) as L.
    destruct (dma_loop fuel c d' h) as [[[? ?] ?] |]; exact L.
  - unfold dma_action in E. repeat case_match; simplify_eq; by left; left.
Qed.

End safety.

(** ** Lists of nodes *)

(** The nodes of the list that starts at the pointer [p], all of them in the X words
    [lo] to [hi - 1]. *)
Inductive chain (c : dsp_core) (lo hi : Z) : Z → list node → Prop :=
| chain_end p : nz (p .& NODE_POINTER_EOL) = true → chain c lo hi p []
| chain_cons p nd l : nz (p .& NODE_POINTER_EOL) = false →
    lo ≤ p .& NODE_POINTER_VAL → (p .& NODE_POINTER_VAL) + 6 < hi →
    read_node c (p .& NODE_POINTER_VAL) = Ok nd →
    chain c lo hi (nd_next nd) l → chain c lo hi p (nd :: l).

(** A node does not store into these words. *)
Definition spares (lo hi : Z) (nd : node) : Prop :=
  match dsp_target (nd_dsp_offset nd) (nd_count nd) with
  | Ok (space, address) =>
      nz (nd_control nd .& NODE_CONTROL_DIRECTION) = true ∨ space ≠ DSP_SPACE_X ∨
      address + nd_count nd ≤ lo ∨ hi ≤ address
  | Fault _ => True
  end.

Lemma dma_write_frame c space address value c' : 0 ≤ address < DSP_PERIPH_BASE →
  0 ≤ value < 2 ^ 24 → dma_write c space address value = Ok c' →
  ∀ space' a, ram_mapped space' a = true → ¬ (space' = space ∧ a = address) →
  ram_cell c' space' a = ram_cell c space' a.
Proof.
  intros Ha Hv E space' a M N. destruct (ram_mapped space address) eqn:M'.
  - unfold dma_write in E. rewrite write_mapped in E by (done || lia). cbn in E.
    injection E as <-. rewrite ram_cell_update, decide_False by (done || naive_solver). done.
  - rewrite write_unmapped in E; done.
Qed.

Lemma scatter_frame c space address size mask buf i n c' : ram_ok c → 0 ≤ address + i →
  address + i + Z.of_nat n ≤ DSP_PERIPH_BASE → bytes buf → item_fits size mask →
  scatter c space address size mask buf i n = Ok c' →
  ∀ space' a, ram_mapped space' a = true →
    ¬ (space' = space ∧ address + i ≤ a < address + i + Z.of_nat n) →
    ram_cell c' space' a = ram_cell c space' a.
Proof.
  intros Hc H0 Hn Hb Hf. revert c i Hc H0 Hn. induction n as [| n IH]; intros c i Hc H0 Hn E space' a M N.
  { by injection E as <-. }
  cbn [scatter] in E. apply bind_ok in E as (c1 & E1 & E2).
  pose proof (item_ok size mask buf i Hb Hf) as Hi.
  pose proof (dma_write_safe c space (address + i) _ Hc ltac:(lia) Hi) as R.
  rewrite E1 in R. rewrite (IH c1 (i + 1)) by (done || lia || tauto).
  eapply (dma_write_frame c space (address + i)); [lia | exact Hi | exact E1 | done | lia].
Qed.

Lemma read_node_ext c c' addr : ram_ok c → ram_ok c' → 0 ≤ addr → addr + 6 < DSP_XRAM_SIZE →
  (∀ a, addr ≤ a ≤ addr + 6 → ram_cell c' DSP_SPACE_X a = ram_cell c DSP_SPACE_X a) →
  read_node c' addr = read_node c addr.
Proof.
  intros Hc Hc' H0 H6 E. unfold read_node.
  assert (R : ∀ k, 0 ≤ k ≤ 6 → dma_read c' DSP_SPACE_X (addr + k) = dma_read c DSP_SPACE_X (addr + k)).
  { intros k Hk. assert (ram_mapped DSP_SPACE_X (addr + k) = true).
    { unfold ram_mapped. cbn. apply orb_true_iff. left. apply Z.ltb_lt. lia. }
    unfold dma_read. rewrite !read_mapped by (done || lia). by rewrite E by lia. }
  pose proof (R 0 ltac:(lia)) as R0. rewrite Z.add_0_r in R0. rewrite R0. by rewrite !R by lia.
Qed.

Section chains.
Context `{ScratchBusOk H}.
Implicit Types (c : dsp_core) (d : DSPDMAState) (h : H).

(** The transfers of a list of nodes, one after the other. *)
Fixpoint run_nodes (l : list node) c h : res (dsp_core * H) :=
  match l with
  | [] => Ok (c, h)
  | nd :: l => '(c, h) ← dma_node c h nd; run_nodes l c h
  end.

Lemma dma_node_frame lo hi c h nd c' h' : ram_ok c → bus_ok h → node_ok nd → spares lo hi nd →
  dma_node c h nd = Ok (c', h') →
  ∀ a, ram_mapped DSP_SPACE_X a = true → lo ≤ a < hi →
  ram_cell c' DSP_SPACE_X a = ram_cell c DSP_SPACE_X a.
Proof.
  intros Hc Hh (N1 & N2 & N3 & N4 & N5) S E a M Ha. unfold dma_node in E.
  apply bind_ok in E as (_ & _ & E). apply bind_ok in E as (_ & _ & E).
  apply bind_ok in E as ([size mask] & F & E). apply item_format_fits in F as [F1 F2].
  destruct (_ && _); [by injection E as <- _ |]. cbn zeta in E.
  apply bind_ok in E as ([space address] & T & E).
  pose proof (dsp_target_spec _ _ N4 N3) as T'. unfold spares in S. rewrite T in S, T'.
  unfold dma_transfer in E. destruct (nz (nd_control nd .& NODE_CONTROL_DIRECTION)).
  - apply bind_ok in E as (buf & _ & E).
    destruct (_ && _); [apply bind_ok in E as ([b h1] & _ & E); by injection E as <- _ |].
    destruct (_ || _); [| done]. apply bind_ok in E as ([b h1] & _ & E). by injection E as <- _.
  - apply bind_ok in E as (_ & _ & E). apply bind_ok in E as ([buf h1] & R & E).
    apply bind_ok in E as (c1 & Sc & E). injection E as <- _.
    match type of R with scratch_rw h ?b ?x false = _ =>
      pose proof (scratch_rw_ok h b x false Hh) as B end. rewrite R in B.
    eapply (scatter_frame c space address size mask buf 0 (Z.to_nat (nd_count nd)));
      [done | lia | lia | | done | exact Sc | done | naive_solver lia].
    apply B; [by apply Forall_replicate |]. destruct (_ =? 0xe); [apply wrap_bound; lia | lia].
Qed.

Lemma chain_node c lo hi p l : ram_ok c → 0 ≤ lo → hi ≤ DSP_XRAM_SIZE → chain c lo hi p l →
  Forall node_ok l.
Proof.
  intros Hc Hlo Hhi. induction 1 as [| p nd l _ A1 A2 R _ IH]; constructor; [| done].
  unfold DSP_XRAM_SIZE in Hhi.
  pose proof (read_node_safe c (p .& NODE_POINTER_VAL) Hc ltac:(lia) ltac:(unfold DSP_PERIPH_BASE; lia)) as N.
  by rewrite R in N.
Qed.

Lemma chain_ext c c' lo hi p l : ram_ok c → ram_ok c' → 0 ≤ lo → hi ≤ DSP_XRAM_SIZE →
  (∀ a, lo ≤ a < hi → ram_cell c' DSP_SPACE_X a = ram_cell c DSP_SPACE_X a) →
  chain c lo hi p l → chain c' lo hi p l.
Proof.
  intros Hc Hc' Hlo Hhi E. induction 1 as [| p nd l Ne A1 A2 R _ IH]; [by constructor |].
  constructor; try done. rewrite <- R. apply read_node_ext; try done || lia.
  intros a Ha. apply E. lia.
Qed.

Lemma dma_loop_chain lo hi l fuel c d h : ram_ok c → bus_ok h → 0 ≤ lo → hi ≤ DSP_XRAM_SIZE →
  chain c lo hi (next_block d) l → Forall (spares lo hi) l → (length l ≤ fuel)%nat →
  ∃ d', nz (next_block d' .& NODE_POINTER_EOL) = true ∧ control d' = control d ∧
    eol d' = (eol d || negb (bool_decide (l = []))) ∧
    dma_loop fuel c d h = ('(c', h') ← run_nodes l c h; Ok (c', d', h')).
Proof.
  intros Hc Hh Hlo Hhi. revert fuel c d h Hc Hh.
  induction l as [| nd l IH]; intros fuel c d h Hc Hh Ch Sp Hf.
  - inversion Ch as [p Eo |]; subst. exists d. rewrite orb_false_r.
    destruct fuel; cbn [dma_loop]; by rewrite Eo.
  - pose proof (chain_node c lo hi _ _ Hc Hlo Hhi Ch) as [Nn Nl]%Forall_cons_1.
    apply Forall_cons_1 in Sp as [Sn Sl].
    inversion Ch as [| p nd' l' Ne A1 A2 R Ch']; subst.
    destruct fuel as [| fuel]; [cbn in Hf; lia |]. cbn [dma_loop run_nodes]. rewrite Ne.
    unfold dma_block, assert. unfold DSP_XRAM_SIZE in *.
    rewrite (proj2 (Z.ltb_lt _ _)) by lia. cbn [mbind res_bind]. rewrite R. cbn [mbind res_bind].
    set (d1 := if nz _ then _ else _).
    pose proof (dma_node_safe c h nd Hc Hh Nn) as N.
    assert (Hd1 : next_block d1 = nd_next nd ∧ control d1 = control d ∧
      eol d1 = (eol d || nz (nd_next nd .& NODE_POINTER_EOL))).
    { unfold d1. change (next_block (d <| next_block := nd_next nd |>)) with (nd_next nd).
      destruct (nz (nd_next nd .& _)); by rewrite ?orb_true_r, ?orb_false_r. }
    clearbody d1. destruct Hd1 as (D1 & D2 & D3).
    destruct (dma_node c h nd) as [[c1 h1] | e] eqn:E; cbn [mbind res_bind].
    + destruct N as (N1 & _ & N3). destruct (IH fuel c1 d1 h1 N1 N3) as (d' & X1 & X2 & X3 & X4).
      * rewrite D1. eapply (chain_ext c); try done. intros a Ha.
        eapply (dma_node_frame lo hi c h nd); try done.
        unfold ram_mapped. cbn. apply orb_true_iff. left. apply Z.ltb_lt. unfold DSP_XRAM_SIZE. lia.
      * done.
      * cbn in Hf. lia.
      * exists d'. rewrite X2, D2, X3, D3, X4. split_and!; try done.
        destruct l; [| by rewrite !orb_true_r].
        inversion Ch' as [? Z |]; subst. rewrite Z. by rewrite !orb_true_r.
    + exists (d <| next_block := NODE_POINTER_EOL |> <| eol := true |>). by rewrite orb_true_r.
Qed.

(** C27: the engine runs its list.  When the list of nodes the engine is pointed at
    ends, lies in a window of X memory and none of its transfers stores into that
    window, then a running engine performs the transfers of the nodes in the order of
    the list, stops with the end-of-list flag set, and needs no more iterations than
    there are nodes; a transfer that fails ends it with the same fault. *)
Theorem dsp_dma_run_list lo hi l fuel c d h :
  ram_ok c → bus_ok h → 0 ≤ lo → hi ≤ DSP_XRAM_SIZE →
  nz (control d .& DMA_CONTROL_RUNNING) = true → nz (control d .& DMA_CONTROL_FROZEN) = false →
  chain c lo hi (next_block d) l → Forall (spares lo hi) l → (length l ≤ fuel)%nat →
  ∃ d', nz (next_block d' .& NODE_POINTER_EOL) = true ∧ control d' = control d ∧
    eol d' = (eol d || negb (bool_decide (l = []))) ∧
    dsp_dma_run fuel c d h = ('(c', h') ← run_nodes l c h; Ok (c', d', h')).
Proof.
  intros Hc Hh Hlo Hhi R F Ch Sp Hf. unfold dsp_dma_run. rewrite R, F. by apply (dma_loop_chain lo hi).
Qed.

End chains.

(** ** Copying through the scratch memory *)

(** The callback reaches a memory: what it is given to write it returns when it is
    asked to read. *)
Class ScratchMemory (H : Type) `{ScratchBusOk H} := {
  scratch_mapped : H → Z → nat → Prop;
  scratch_write_read h buf a : bus_ok h → bytes buf → scratch_mapped h a (length buf) →
    ∃ b h', scratch_rw h buf a true = Ok (b, h') ∧
      ∀ buf', bytes buf' → length buf' = length buf → ∃ h'', scratch_rw h' buf' a false = Ok (buf, h'')
}.

(** A node that moves 32-bit items between [address] of [space] and the scratch
    memory. *)
Record moves (nd : node) (direction : bool) (space address : Z) : Prop := {
  mv_unk2 : (nd_control nd .>> 2) .& 0x3 = 0;
  mv_unk13 : nz ((nd_control nd .>> 13) .& 1) = false;
  mv_direction : nz (nd_control nd .& NODE_CONTROL_DIRECTION) = direction;
  mv_buffer : (nd_control nd .>> 5) .& 0xf = 0xf;
  mv_format : item_format ((nd_control nd .>> 10) .& 0x7) = Ok (4, 0xFFFFFF);
  mv_target : dsp_target (nd_dsp_offset nd) (nd_count nd) = Ok (space, address);
  mv_range : mapped_range space address 0 (nd_count nd)
}.

(** The words as the engine lays them out in a buffer. *)
Definition image (c : dsp_core) (space address n : Z) : list Z :=
  concat ((λ j, le_bytes 4 (ram_cell c space (address + j))) <$> seqZ 0 n).

Lemma image_length c space address n : length (image c space address n) = Z.to_nat (n * 4).
Proof.
  unfold image. rewrite (length_chunks _ 4), length_seqZ by (intros; apply le_bytes_length). lia.
Qed.

Lemma image_bytes c space address n : bytes (image c space address n).
Proof.
  unfold image. generalize (seqZ 0 n). intros l. induction l as [| j l IH]; [constructor |].
  apply Forall_app. split; [apply le_bytes_byte | exact IH].
Qed.

Lemma image_item c space address n j : ram_ok c → 0 ≤ j < n →
  item 4 0xFFFFFF (image c space address n) j = ram_cell c space (address + j).
Proof.
  intros Hc Hj. unfold item, image. pose proof (ram_cell_ok c space (address + j) Hc) as Hv.
  replace (Z.to_nat (j * 4)) with (Z.to_nat j * 4)%nat by lia. change (Z.to_nat 4) with 4%nat.
  rewrite (take_drop_chunks _ 4 _ _ j).
  - rewrite le_value_bytes by (change (8 * Z.of_nat 4) with 32; lia).
    change 0xFFFFFF with (BITMASK 24). cbn [Z.eqb Pos.eqb]. rewrite land_BITMASK by lia. by apply Z.mod_small.
  - intros. apply le_bytes_length.
  - rewrite lookup_seqZ_lt by lia. f_equal. lia.
Qed.

Section copy.
Context `{ScratchMemory H}.
Implicit Types (c : dsp_core) (d : DSPDMAState) (h : H).

Lemma dma_node_out c h nd space address : ram_ok c → 0 ≤ nd_count nd → moves nd true space address →
  dma_node c h nd =
  ('(_, h') ← scratch_rw h (image c space address (nd_count nd)) (nd_scratch_offset nd) true; Ok (c, h')).
Proof.
  intros Hc Hn [U2 U13 D B F T R]. unfold dma_node. rewrite U2, U13, D, B, F, T.
  cbn [Z.eqb negb assert mbind res_bind andb]. unfold dma_transfer.
  rewrite gather_ok by (done || by rewrite Z2Nat.id). by rewrite Z2Nat.id.
Qed.

Lemma dma_node_in c h nd space address c0 space0 address0 h' : ram_ok c → ram_ok c0 →
  0 ≤ nd_count nd → moves nd false space address →
  scratch_rw h (replicate (Z.to_nat (nd_count nd * 4)) 0) (nd_scratch_offset nd) false =
    Ok (image c0 space0 address0 (nd_count nd), h') →
  ∃ c', dma_node c h nd = Ok (c', h') ∧ ram_ok c' ∧ same_but_ram c c' ∧
    ∀ space' a, ram_mapped space' a = true →
      ram_cell c' space' a =
      if decide (space' = space ∧ address ≤ a < address + nd_count nd)
      then ram_cell c0 space0 (address0 + (a - address)) else ram_cell c space' a.
Proof.
  intros Hc Hc0 Hn [U2 U13 D B F T R] E. unfold dma_node. rewrite U2, U13, D, B, F, T.
  cbn [Z.eqb Pos.eqb negb assert mbind res_bind andb]. unfold dma_transfer.
  cbn [Z.eqb Pos.eqb orb assert mbind res_bind]. rewrite E. cbn [mbind res_bind].
  destruct (scatter_ok c space address 4 0xFFFFFF (image c0 space0 address0 (nd_count nd)) 0
    (Z.to_nat (nd_count nd))) as (c' & -> & X1 & X2 & X3); [done | by rewrite Z2Nat.id | |].
  { intros j Hj. apply item_ok; [apply image_bytes | by right]. }
  exists c'. split_and!; [done | done | done |]. intros space' a M. rewrite X3, Z2Nat.id, Z.add_0_r by done.
  case_decide; [| done]. by rewrite image_item by (done || lia).
Qed.

(** C9: DMA out and back in is a copy.  A running engine whose list is a node that
    moves [n] words to the scratch memory and a node that moves as many from the same
    place back to the core leaves the words of the first region in the second, and
    changes no other word and nothing else in the core, whatever the two memory spaces are. *)
Theorem dma_copy_correct lo hi fuel c d h n1 n2 space1 address1 space2 address2 :
  ram_ok c → bus_ok h → 0 ≤ lo → hi ≤ DSP_XRAM_SIZE → (2 ≤ fuel)%nat →
  nz (control d .& DMA_CONTROL_RUNNING) = true → nz (control d .& DMA_CONTROL_FROZEN) = false →
  chain c lo hi (next_block d) [n1; n2] → spares lo hi n2 →
  moves n1 true space1 address1 → moves n2 false space2 address2 →
  nd_count n1 = nd_count n2 → nd_scratch_offset n1 = nd_scratch_offset n2 →
  scratch_mapped h (nd_scratch_offset n1) (Z.to_nat (nd_count n1 * 4)) →
  ∃ c' d' h', dsp_dma_run fuel c d h = Ok (c', d', h') ∧ eol d' = true ∧ ram_ok c' ∧
    same_but_ram c c' ∧
    ∀ space a, ram_mapped space a = true →
      ram_cell c' space a =
      if decide (space = space2 ∧ address2 ≤ a < address2 + nd_count n2)
      then ram_cell c space1 (address1 + (a - address2)) else ram_cell c space a.
Proof.
  intros Hc Hh Hlo Hhi Hf R F Ch Sp M1 M2 En Eo Hm.
  assert (Sp1 : spares lo hi n1).
  { unfold spares. rewrite (mv_target _ _ _ _ M1). left. apply M1. }
  destruct (dma_loop_chain lo hi [n1; n2] fuel c d h) as (d' & _ & _ & Eol & E);
    [done | done | done | done | done | by repeat constructor | done |].
  pose proof (chain_node c lo hi _ _ Hc Hlo Hhi Ch) as [N1 [N2 _]%Forall_cons_1]%Forall_cons_1.
  assert (Hn : 0 ≤ nd_count n1) by apply N1.
  unfold dsp_dma_run. rewrite R, F. cbn [negb orb]. rewrite E. cbn [run_nodes].
  rewrite (dma_node_out c h n1 space1 address1) by done.
  destruct (scratch_write_read h (image c space1 address1 (nd_count n1)) (nd_scratch_offset n1))
    as (b & h1 & -> & W); [done | apply image_bytes | by rewrite image_length |].
  cbn [mbind res_bind].
  destruct (W (replicate (Z.to_nat (nd_count n1 * 4)) 0)) as (h2 & W2);
    [by apply Forall_replicate | by rewrite length_replicate, image_length |].
  rewrite En, Eo in W2.
  destruct (dma_node_in c h1 n2 space2 address2 c space1 address1 h2) as (c' & -> & X1 & X2 & X3);
    [done | done | lia | done | done |].
  exists c', d', h2. rewrite Eol, orb_true_r. done.
Qed.

End copy.

(** a list that does not end hangs the emulator.  A node that points at itself
    and whose transfer is skipped (a circular buffer too small for it) is executed
    forever: no number of iterations is enough. *)
Theorem dma_self_loop `{ScratchBus H} c d (h : H) nd fuel :
  nz (control d .& DMA_CONTROL_RUNNING) = true → nz (control d .& DMA_CONTROL_FROZEN) = false →
  nz (next_block d .& NODE_POINTER_EOL) = false →
  (next_block d .& NODE_POINTER_VAL) + 6 < DSP_XRAM_SIZE →
  read_node c (next_block d .& NODE_POINTER_VAL) = Ok nd →
  nd_next nd = next_block d →
  (nd_control nd .>> 2) .& 0x3 = 0 → nz ((nd_control nd .>> 13) .& 1) = false →
  (nd_control nd .>> 5) .& 0xf = 0xe → (nd_control nd .>> 10) .& 0x7 = 2 →
  nd_scratch_size nd ≤ u32 (nd_scratch_offset nd + u32 (nd_count nd * 4)) →
  dsp_dma_run fuel c d h = Fault out_of_fuel.
Proof.
  intros R F Ne Ha Hr En U2 U13 B Fm Hs. unfold dsp_dma_run. rewrite R, F. cbn [negb orb].
  assert (Hnode : dma_node c h nd = Ok (c, h)).
  { unfold dma_node. rewrite U2, U13, B, Fm. cbn [item_format Z.eqb Pos.eqb negb assert mbind res_bind andb].
    by rewrite (proj2 (Z.leb_le _ _) Hs). }
  assert (Hb : dma_block c d h = Ok (c, d, h)).
  { unfold dma_block. unfold DSP_XRAM_SIZE in *. unfold assert. rewrite (proj2 (Z.ltb_lt _ _)) by lia.
    cbn [mbind res_bind]. rewrite Hr. cbn [mbind res_bind]. rewrite Hnode. cbn [mbind res_bind].
    rewrite En. change (next_block (d <| next_block := next_block d |>)) with (next_block d).
    rewrite Ne. by destruct d. }
  induction fuel as [| fuel IH]; cbn [dma_loop]; rewrite Ne; [done |]. by rewrite Hb.
Qed.

(** A scratch memory of its own, and FIFOs that accept anything. *)
Definition flat_bus : ScratchBus mem :=
  {| scratch_rw m buf a dir :=
       if (dir : bool) then Ok (buf, wr_bytes m a buf)
       else Ok (rd_bytes m a (Z.of_nat (length buf)), m);
     fifo_rw m buf _ _ := Ok (buf, m) |}.

Lemma flat_bus_ok : @ScratchBusOk mem flat_bus.
Proof.
  refine {| bus_ok := mem_ok 8; bus_fault := λ _, False |}.
  - intros h buf a [] Hh Hb _; cbn; [by auto using wr_bytes_ok |].
    split_and!; [by apply rd_bytes_ok | rewrite rd_bytes_length; lia | done].
  - intros. cbn. done.
Defined.

Lemma flat_memory : @ScratchMemory mem flat_bus flat_bus_ok.
Proof.
  refine {| scratch_mapped := λ _ _ _, True |}. intros h buf a Hh Hb _.
  exists buf, (wr_bytes h a buf). split; [done |]. intros buf' Hb' El.
  exists (wr_bytes h a buf). cbn. by rewrite El, rd_bytes_wr.
Defined.

(** X words 0x100 and 0x101 go through the scratch memory to Y words 5 and 6. *)
Definition dma_sample : dsp_core :=
  zero_core <| xram := wr_bytes (wr_bytes (wr_bytes ∅ 0x10 [0x20; 0x9e2; 2; 0x100; 0x40; 0; 0])
                         0x20 [0x4000; 0x9e0; 2; 0x1805; 0x40; 0; 0]) 0x100 [0xabcdef; 0x123456] |>.

Definition dma_running : DSPDMAState := Dma 0 DMA_CONTROL_RUNNING 0 0x10 false false.

Lemma dma_sample_ok : ram_ok dma_sample.
Proof.
  split_and!; [| by intros i; rewrite rd_empty..].
  change (xram dma_sample) with
    (wr_bytes (wr_bytes (wr_bytes ∅ 0x10 [0x20; 0x9e2; 2; 0x100; 0x40; 0; 0])
       0x20 [0x4000; 0x9e0; 2; 0x1805; 0x40; 0; 0]) 0x100 [0xabcdef; 0x123456]).
  repeat (apply wr_bytes_fit; [| by repeat constructor]). intros i. by rewrite rd_empty.
Qed.

Definition sample_out : node := Node 0x20 0x9e2 2 0x100 0x40 0 1.
Definition sample_in : node := Node 0x4000 0x9e0 2 0x1805 0x40 0 1.

Lemma dma_sample_chain : chain dma_sample 0x10 0x30 (next_block dma_running) [sample_out; sample_in].
Proof. repeat (constructor; [vm_compute; done.. |]). by vm_compute. Qed.

Lemma dma_copy_witness : ∃ c' d' h',
  @dsp_dma_run mem flat_bus 2 dma_sample dma_running ∅ = Ok (c', d', h') ∧
  ram_cell c' DSP_SPACE_Y 6 = 0x123456.
Proof.
  destruct (@dma_copy_correct mem flat_bus flat_bus_ok flat_memory 0x10 0x30 2 dma_sample dma_running ∅
    sample_out sample_in DSP_SPACE_X 0x100 DSP_SPACE_Y 5) as (c' & d' & h' & E & _ & _ & _ & X).
  - exact dma_sample_ok.
  - intros i. by rewrite rd_empty.
  - lia.
  - by vm_compute.
  - lia.
  - reflexivity.
  - reflexivity.
  - exact dma_sample_chain.
  - right. left. by vm_compute.
  - split; try reflexivity. split; [lia |]. intros j Hj. cbn in Hj. assert (j = 0 ∨ j = 1) as [-> | ->] by lia; reflexivity.
  - split; try reflexivity. split; [lia |]. intros j Hj. cbn in Hj. assert (j = 0 ∨ j = 1) as [-> | ->] by lia; reflexivity.
  - reflexivity.
  - reflexivity.
  - exact I.
  - exists c', d', h'. split; [exact E |]. rewrite X by reflexivity. vm_compute. reflexivity.
Defined.

Lemma dsp_dma_run_list_witness : ∃ c' d' h',
  @dsp_dma_run mem flat_bus 2 dma_sample dma_running ∅ = Ok (c', d', h') ∧ eol d' = true.
Proof.
  destruct (@dsp_dma_run_list mem flat_bus flat_bus_ok 0x10 0x30 [sample_out; sample_in] 2 dma_sample
    dma_running ∅) as (d' & _ & _ & El & E).
  - exact dma_sample_ok.
  - intros i. by rewrite rd_empty.
  - lia.
  - by vm_compute.
  - reflexivity.
  - reflexivity.
  - exact dma_sample_chain.
  - constructor; [left; by vm_compute | constructor; [right; left; by vm_compute | constructor]].
  - cbn. lia.
  - destruct (run_nodes _ _ _) as [[c' h'] | e] eqn:N; [| vm_compute in N; discriminate N].
    exists c', d', h'. split; [exact E | exact El].
Defined.

Lemma dma_self_loop_witness :
  @dsp_dma_run mem flat_bus 1000
    (zero_core <| xram := wr_bytes ∅ 0x10 [0x10; 0x9c0; 1; 0; 0; 0; 0] |>) dma_running ∅ = Fault out_of_fuel.
Proof.
  apply (@dma_self_loop mem flat_bus _ _ _ (Node 0x10 0x9c0 1 0 0 0 1)); vm_compute; reflexivity || discriminate.
Defined.
