(* ===== verification/Dsp.v ===== *)
(** * The DSP as a device

    src/hw/xbox/dsp/dsp.c: a core with its DMA engine and interrupt register, the
    peripheral page through which a program reaches them, and the operations the
    audio unit and the debugger use. *)

From S2P Require Import Prelude Bytes Dsp56 DspCore DspAlu DspCpu DspExec DspSafe DspStep DspTime DspDma.
From Stdlib Require Import Ascii.

Definition INTERRUPT_START_FRAME := 1 .<< 1.
Definition INTERRUPT_DMA_EOL := 1 .<< 7.

(** ** The peripheral page *)

Section device.
Context `{ScratchBus H} (dma_fuel : nat).

(** What the callbacks of the core reach through [container_of]: the DMA engine,
    the interrupt register and the state behind the DMA callbacks. *)
Definition peripherals : Type := DSPDMAState * Z * H.

Definition dsp_read_peripheral (core : dsp_core) (p : peripherals) (address : Z) : res Z :=
  let '(dma, interrupts, _) := p in
  Ok (if address =? 0xFFFFC5 then
        if eol dma then interrupts .| INTERRUPT_DMA_EOL else interrupts
      else if address =? 0xFFFFD4 then dsp_dma_read dma DMA_NEXT_BLOCK
      else if address =? 0xFFFFD5 then dsp_dma_read dma DMA_START_BLOCK
      else if address =? 0xFFFFD6 then dsp_dma_read dma DMA_CONTROL
      else if address =? 0xFFFFD7 then dsp_dma_read dma DMA_CONFIGURATION
      else 0xababa).

Definition dsp_write_peripheral (core : dsp_core) (p : peripherals) (address value : Z)
    : res (dsp_core * peripherals) :=
  let '(dma, interrupts, h) := p in
  let dma_write (r : DSPDMARegister) :=
    '(core, dma, h) ← dsp_dma_write dma_fuel core dma h r value;
    Ok (core, (dma, interrupts, h)) in
  if address =? 0xFFFFC5 then
    let interrupts := interrupts .& u32 (.~ value) in
    let dma := if nz (value .& INTERRUPT_DMA_EOL) then dma <| eol := false |> else dma in
    Ok (core, (dma, interrupts, h))
  else if address =? 0xFFFFD4 then dma_write DMA_NEXT_BLOCK
  else if address =? 0xFFFFD5 then dma_write DMA_START_BLOCK
  else if address =? 0xFFFFD6 then dma_write DMA_CONTROL
  else if address =? 0xFFFFD7 then dma_write DMA_CONFIGURATION
  else Ok (core, (dma, interrupts, h)).

#[local] Instance dsp_peripherals : Peripherals peripherals :=
  {| read_peripheral := dsp_read_peripheral; write_peripheral := dsp_write_peripheral |}.

(** ** Operations *)

Record DSPState := Dsp {
  core : dsp_core;
  dma : DSPDMAState;
  save_cycles : Z;
  interrupts : Z;
  rw_opaque : H
}.

#[global] Instance DSPState_eta : Eta DSPState := λ d,
  Dsp (core d) (dma d) (save_cycles d) (interrupts d) (rw_opaque d).

Definition periph_of (dsp : DSPState) : peripherals := (dma dsp, interrupts dsp, rw_opaque dsp).

(** The state after the core and what its callbacks reach have changed. *)
Definition with_core (dsp : DSPState) (c : dsp_core) (p : peripherals) : DSPState :=
  let '(dma, interrupts, h) := p in Dsp c dma (save_cycles dsp) interrupts h.

Definition dsp_reset (dsp : DSPState) : DSPState :=
  dsp <| core := dsp56k_reset_cpu (core dsp) |> <| save_cycles := 0 |>.

Definition dsp_init (rw_opaque : H) : DSPState :=
  dsp_reset (Dsp zero_core (Dma 0 0 0 0 false false) 0 0 rw_opaque).

Definition dsp_step (dsp : DSPState) : res DSPState :=
  '(_, c, p) ← dsp56k_execute_instruction (core dsp) (periph_of dsp);
  Ok (with_core dsp c p).

(** The loop of [dsp_run]: [None] when [fuel] instructions were not enough. *)
Fixpoint run_loop (fuel : nat) (dsp : DSPState) : option (res DSPState) :=
  if 0 <? save_cycles dsp then
    match fuel with
    | O => None
    | S fuel =>
        match dsp_step dsp with
        | Ok dsp => run_loop fuel (dsp <| save_cycles := save_cycles dsp - instr_cycle (core dsp) |>)
        | Fault e => Some (Fault e)
        end
    end
  else Some (Ok dsp).

(** A sum that leaves [int] is undefined. *)
Definition dsp_run (fuel : nat) (dsp : DSPState) (cycles : Z) : option (res DSPState) :=
  let sum := save_cycles dsp + cycles in
  if sum =? s32 sum then
    let dsp := dsp <| save_cycles := sum |> in
    if save_cycles dsp <=? 0 then Some (Ok dsp) else run_loop fuel dsp
  else Some (Fault undefined_behaviour).

(** The boot ROM: 0x800 words of scratch memory are copied over the start of the
    program memory. *)
Definition dsp_bootstrap (dsp : DSPState) : res DSPState :=
  let buf := concat ((λ i, le_bytes 4 (rd (pram (core dsp)) i)) <$> seqZ 0 0x800) in
  '(buf, h) ← scratch_rw (rw_opaque dsp) buf 0 false;
  let words : list Z := (λ i, le_value (take 4 (drop (Z.to_nat i * 4) buf))) <$> seqZ 0 0x800 in
  let c := (core dsp) <| pram := wr_bytes (pram (core dsp)) 0 words |> in
  Ok (dsp <| core := c |> <| rw_opaque := h |>).

Definition dsp_start_frame (dsp : DSPState) : DSPState :=
  dsp <| interrupts := interrupts dsp .| INTERRUPT_START_FRAME |>.

(** The memory space named by a letter. *)
Definition space_id (space : ascii) : res Z :=
  if Ascii.eqb space "X" then Ok DSP_SPACE_X
  else if Ascii.eqb space "Y" then Ok DSP_SPACE_Y
  else if Ascii.eqb space "P" then Ok DSP_SPACE_P
  else Fault assert_failed.

Definition dsp_read_memory (dsp : DSPState) (space : ascii) (address : Z) : res Z :=
  id ← space_id space;
  dsp56k_read_memory (core dsp) (periph_of dsp) id address.

Definition dsp_write_memory (dsp : DSPState) (space : ascii) (address value : Z) : res DSPState :=
  id ← space_id space;
  '(c, p) ← dsp56k_write_memory (core dsp) (periph_of dsp) id address value;
  Ok (with_core dsp c p).

(** ** The clock *)

Lemma dma_write_still c space address value c' : dma_write c space address value = Ok c' → still c c'.
Proof.
  unfold dma_write. intros E. apply bind_ok in E as ([c1 []] & E & [= <-]).
  unfold dsp56k_write_memory, write_memory_raw in E. repeat (apply bind_ok in E as (? & _ & E)).
  repeat (case_match; try discriminate E; try (apply bind_ok in E as (? & _ & E))); by simplify_eq.
Qed.

Lemma scatter_still c space address size mask buf i n c' :
  scatter c space address size mask buf i n = Ok c' → still c c'.
Proof.
  revert c i. induction n as [| n IH]; intros c i E; [injection E as <-; apply still_refl |].
  cbn [scatter] in E. apply bind_ok in E as (c1 & E1%dma_write_still & E).
  eapply still_trans; [exact E1 | by eapply IH].
Qed.

Lemma dma_node_still c h nd c' h' : dma_node c h nd = Ok (c', h') → still c c'.
Proof.
  unfold dma_node, dma_transfer. intros E. repeat (apply bind_ok in E as (? & _ & E)).
  case_match. case_match; [injection E as <- _; apply still_refl |].
  apply bind_ok in E as ([space address] & _ & E). destruct (nz _).
  - apply bind_ok in E as (? & _ & E).
    repeat (case_match; try discriminate E; try apply bind_ok in E as ([? ?] & _ & [= <- _])); apply still_refl.
  - apply bind_ok in E as (? & _ & E). apply bind_ok in E as ([? ?] & _ & E).
    apply bind_ok in E as (c1 & E1%scatter_still & [= <- _]). exact E1.
Qed.

Lemma dma_loop_still fuel c d h c' d' h' : dma_loop fuel c d h = Ok (c', d', h') → still c c'.
Proof.
  revert c d h. induction fuel as [| fuel IH]; intros c d h E; cbn [dma_loop] in E;
    (destruct (nz _); [injection E as <- _ _; apply still_refl |]); [done |].
  apply bind_ok in E as ([[c1 d1] h1] & E1 & E). eapply still_trans; [| by eapply IH].
  unfold dma_block in E1. do 2 (apply bind_ok in E1 as (? & _ & E1)). cbn zeta in E1.
  apply bind_ok in E1 as ([c2 h2] & E2%dma_node_still & [= <- _ _]). exact E2.
Qed.

Lemma dsp_dma_write_still fuel c d h r v c' d' h' :
  dsp_dma_write fuel c d h r v = Ok (c', d', h') → still c c'.
Proof.
  unfold dsp_dma_write. intros E. destruct r; try (injection E as <- _ _; apply still_refl).
  apply bind_ok in E as (d1 & _ & E). unfold dsp_dma_run in E.
  destruct (_ || _); [injection E as <- _ _; apply still_refl | by eapply dma_loop_still].
Qed.

#[local] Instance dsp_peripherals_timed : PeripheralsTimed peripherals.
Proof.
  intros s [[d i] h] a v s' p' E. cbn [write_peripheral dsp_peripherals] in E.
  unfold dsp_write_peripheral in E. cbn zeta in E.
  destruct (a =? 0xFFFFC5); [injection E as <- _; apply still_refl |].
  repeat (match type of E with context [a =? ?k] => destruct (a =? k) end;
    [apply bind_ok in E as ([[? ?] ?] & E1%dsp_dma_write_still & [= <- _]); exact E1 |]).
  injection E as <- _. apply still_refl.
Qed.

(** ** Time slices *)

Lemma step_time dsp dsp' : executing_for_disasm (core dsp) = false → dsp_step dsp = Ok dsp' →
  2 ≤ instr_cycle (core dsp') ≤ 142 ∧ executing_for_disasm (core dsp') = false ∧
  save_cycles dsp' = save_cycles dsp.
Proof.
  intros Hd E. unfold dsp_step in E. apply bind_ok in E as ([[u c] [[d i] h]] & E1 & [= <-]).
  apply execute_time in E1; [| done]. naive_solver.
Qed.

(** The states in which the loop begins an instruction, and the one it ends in. *)
Inductive reached : DSPState → DSPState → Prop :=
| reached_here dsp : reached dsp dsp
| reached_step dsp dsp1 dsp2 : 0 < save_cycles dsp → dsp_step dsp = Ok dsp1 →
    reached (dsp1 <| save_cycles := save_cycles dsp1 - instr_cycle (core dsp1) |>) dsp2 → reached dsp dsp2.

(** The loop ends within half as many instructions as there are cycles, and
    overshoots by less than the longest instruction; or one of them does not return. *)
Lemma run_loop_ends fuel dsp : executing_for_disasm (core dsp) = false →
  save_cycles dsp ≤ 2 * Z.of_nat fuel →
  match run_loop fuel dsp with
  | None => False
  | Some (Ok dsp') => save_cycles dsp' ≤ 0 ∧ Z.min (save_cycles dsp) (-141) ≤ save_cycles dsp' ∧ reached dsp dsp'
  | Some (Fault e) => ∃ dsp1, reached dsp dsp1 ∧ 0 < save_cycles dsp1 ∧ dsp_step dsp1 = Fault e
  end.
Proof.
  revert dsp. induction fuel as [| fuel IH]; intros dsp Hd Hf; cbn [run_loop];
    destruct (Z.ltb_spec 0 (save_cycles dsp)); try lia;
    [split_and!; [done | lia | constructor] | | split_and!; [done | lia | constructor]].
  destruct (dsp_step dsp) as [dsp1 | e] eqn:E; [| by exists dsp; split; [constructor |]].
  destruct (step_time dsp dsp1 Hd E) as (T1 & T2 & T3).
  set (dsp2 := dsp1 <| save_cycles := save_cycles dsp1 - instr_cycle (core dsp1) |>).
  assert (S2 : save_cycles dsp2 = save_cycles dsp1 - instr_cycle (core dsp1)) by done.
  specialize (IH dsp2 T2). rewrite S2 in IH. specialize (IH ltac:(lia)).
  destruct (run_loop fuel dsp2) as [[dsp3 | e] |]; [| | done].
  - destruct IH as (I1 & I2 & I3). split_and!; [done | lia | by eapply reached_step].
  - destruct IH as (dsp3 & I1 & I2). exists dsp3. split; [by eapply reached_step | done].
Qed.

(** C28: a time slice ends, if its instructions do.  [dsp_run] returns after at most half
    as many instructions as it has cycles to spend, it spends them all, and it overshoots
    by at most 141 cycles; the state it returns is the one that its instructions lead to.
    The only other outcome is that of an instruction, begun with cycles left in a state
    that the instructions before it lead to, which itself does not return: it stops at a
    fault, or starts a DMA list without an end, which [out_of_fuel] stands for.  The loop
    of [dsp_run] itself never runs out of its fuel, and the sum of the cycles is within
    [int]. *)
Theorem dsp_run_ends fuel dsp cycles : executing_for_disasm (core dsp) = false →
  0 < save_cycles dsp + cycles < 2 ^ 31 → save_cycles dsp + cycles ≤ 2 * Z.of_nat fuel →
  let start := dsp <| save_cycles := save_cycles dsp + cycles |> in
  match dsp_run fuel dsp cycles with
  | None => False
  | Some (Ok dsp') => -141 ≤ save_cycles dsp' ≤ 0 ∧ reached start dsp'
  | Some (Fault e) => ∃ dsp1, reached start dsp1 ∧ 0 < save_cycles dsp1 ∧ dsp_step dsp1 = Fault e
  end.
Proof.
  intros Hd Hs Hf start. unfold dsp_run.
  rewrite (proj2 (Z.eqb_eq _ _)) by (rewrite s32_small; lia). fold start.
  change (save_cycles start) with (save_cycles dsp + cycles). rewrite (proj2 (Z.leb_gt _ _)) by lia.
  pose proof (run_loop_ends fuel start Hd Hf) as L.
  destruct (run_loop fuel start) as [[dsp' | e] |]; [| done | done].
  destruct L as (L1 & L2 & L3). change (save_cycles start) with (save_cycles dsp + cycles) in L2.
  split; [lia | done].
Qed.

(** The step does not look at the budget. *)
Lemma dsp_step_budget dsp v :
  dsp_step (dsp <| save_cycles := v |>) = (d ← dsp_step dsp; Ok (d <| save_cycles := v |>)).
Proof.
  unfold dsp_step. change (core (dsp <| save_cycles := v |>)) with (core dsp).
  change (periph_of (dsp <| save_cycles := v |>)) with (periph_of dsp).
  by destruct (dsp56k_execute_instruction _ _) as [[[u c] [[d i] h]] |].
Qed.

Definition set_budget (v : Z) (dsp : DSPState) : DSPState := dsp <| save_cycles := v |>.

Lemma set_budget_twice u v dsp : set_budget u (set_budget v dsp) = set_budget u dsp.
Proof. by destruct dsp. Qed.

Lemma step_budget dsp dsp' : dsp_step dsp = Ok dsp' → save_cycles dsp' = save_cycles dsp.
Proof.
  intros E. unfold dsp_step in E. by apply bind_ok in E as ([[u c] [[d i] h]] & _ & [= <-]).
Qed.

Lemma run_loop_step f dsp :
  run_loop (S f) dsp =
  if 0 <? save_cycles dsp then
    match dsp_step dsp with
    | Ok d => run_loop f (set_budget (save_cycles dsp - instr_cycle (core d)) d)
    | Fault e => Some (Fault e)
    end
  else Some (Ok dsp).
Proof.
  cbn [run_loop]. destruct (0 <? save_cycles dsp); [| done].
  destruct (dsp_step dsp) as [d |] eqn:E; [| done]. by rewrite <- (step_budget dsp d E).
Qed.

Lemma run_loop_fuel f k dsp r : run_loop f dsp = Some r → run_loop (k + f) dsp = Some r.
Proof.
  revert dsp. induction f as [| f IH]; intros dsp E.
  - cbn [run_loop] in E. destruct k; [done |]. cbn [Nat.add]. rewrite run_loop_step.
    by destruct (0 <? save_cycles dsp).
  - rewrite Nat.add_succ_r, run_loop_step. rewrite run_loop_step in E.
    destruct (0 <? save_cycles dsp); [| done]. destruct (dsp_step dsp); [| done]. by apply IH.
Qed.

Lemma run_loop_more f1 f2 dsp b dsp1 r : 0 ≤ b →
  run_loop f1 dsp = Some (Ok dsp1) →
  run_loop f2 (set_budget (save_cycles dsp1 + b) dsp1) = Some r →
  run_loop (f1 + f2) (set_budget (save_cycles dsp + b) dsp) = Some r.
Proof.
  intros Hb. revert dsp. induction f1 as [| f1 IH]; intros dsp E1 E2.
  - cbn [run_loop] in E1. destruct (0 <? save_cycles dsp); [done |]. by injection E1 as ->.
  - rewrite run_loop_step in E1. destruct (Z.ltb_spec 0 (save_cycles dsp)).
    + cbn [Nat.add]. rewrite run_loop_step.
      change (save_cycles (set_budget (save_cycles dsp + b) dsp)) with (save_cycles dsp + b).
      rewrite (proj2 (Z.ltb_lt _ _)) by lia. unfold set_budget at 1. rewrite dsp_step_budget.
      destruct (dsp_step dsp) as [d1 | e]; [| done]. cbn [mbind res_bind].
      specialize (IH _ E1 E2). rewrite set_budget_twice in IH. rewrite <- IH.
      change (d1 <| save_cycles := save_cycles dsp + b |>) with (set_budget (save_cycles dsp + b) d1).
      rewrite set_budget_twice. do 2 f_equal. cbn. lia.
    + injection E1 as ->. by apply run_loop_fuel.
Qed.

Lemma dsp_run_loop f dsp cycles : - 2 ^ 31 ≤ save_cycles dsp + cycles < 2 ^ 31 →
  dsp_run f dsp cycles = run_loop f (set_budget (save_cycles dsp + cycles) dsp).
Proof.
  intros Hs. unfold dsp_run. rewrite (proj2 (Z.eqb_eq _ _)) by (by rewrite s32_small).
  change (dsp <| save_cycles := save_cycles dsp + cycles |>) with (set_budget (save_cycles dsp + cycles) dsp).
  destruct (Z.leb_spec (save_cycles (set_budget (save_cycles dsp + cycles) dsp)) 0); [| done].
  destruct f; cbn [run_loop]; by rewrite (proj2 (Z.ltb_ge _ _)) by lia.
Qed.

(** C18: time slices add up.  Running for [a] cycles and then for [b] leaves the
    device in the state, or at the fault, that running for [a + b] cycles leaves:
    what a slice overshoots is charged to the next. *)
Theorem dsp_run_slices f1 f2 dsp a b dsp1 r : executing_for_disasm (core dsp) = false →
  0 ≤ save_cycles dsp + a → save_cycles dsp + a ≤ 2 * Z.of_nat f1 → 0 ≤ b →
  save_cycles dsp + a + b < 2 ^ 31 →
  dsp_run f1 dsp a = Some (Ok dsp1) → dsp_run f2 dsp1 b = Some r →
  dsp_run (f1 + f2) dsp (a + b) = Some r.
Proof.
  intros Hd Ha Hf Hb Hs E1 E2. rewrite dsp_run_loop in E1 by lia.
  pose proof (run_loop_ends f1 (set_budget (save_cycles dsp + a) dsp) Hd Hf) as L.
  rewrite E1 in L. destruct L as (L1 & L2 & _). cbn in L2.
  rewrite dsp_run_loop in E2 by lia. rewrite dsp_run_loop by lia.
  pose proof (run_loop_more f1 f2 _ b dsp1 r Hb E1 E2) as M. rewrite set_budget_twice in M.
  cbn [save_cycles set_budget] in M. by rewrite Z.add_assoc.
Qed.

(** ** The interrupt register *)

(** The word a program reads. *)
Definition irq_word (d : DSPDMAState) (irqs : Z) : Z := if eol d then irqs .| 2 ^ 7 else irqs.

Lemma irq_word_bit d irqs i : 0 ≤ i → Z.testbit (irq_word d irqs) i = Z.testbit irqs i || eol d && (7 =? i).
Proof.
  intros Hi. unfold irq_word. destruct (eol d); [| by rewrite orb_false_r].
  by rewrite Z.lor_spec, testbit_pow2.
Qed.

(** the interrupt register at X:$FFFFC5 is acknowledged bit by bit.  Writing a
    word to it clears the bits that are set in the word and no other, the bit of the
    DMA engine's end-of-list flag (7) included; starting a frame sets bit 1. *)
Theorem interrupts_acknowledge c dsp v i : 0 ≤ interrupts dsp < 2 ^ 24 → 0 ≤ v < 2 ^ 24 → 0 ≤ i →
  ∃ p' x y z,
    dsp_write_peripheral c (periph_of dsp) 0xFFFFC5 v = Ok (c, p') ∧
    dsp_read_peripheral c (periph_of dsp) 0xFFFFC5 = Ok x ∧
    dsp_read_peripheral c p' 0xFFFFC5 = Ok y ∧
    dsp_read_peripheral c (periph_of (dsp_start_frame dsp)) 0xFFFFC5 = Ok z ∧
    Z.testbit y i = Z.testbit x i && negb (Z.testbit v i) ∧
    Z.testbit z i = Z.testbit x i || (1 =? i).
Proof.
  intros Hi Hv H0'. set (d' := if nz (v .& INTERRUPT_DMA_EOL) then (dma dsp) <| eol := false |> else dma dsp).
  exists (d', interrupts dsp .& u32 (.~ v), rw_opaque dsp), (irq_word (dma dsp) (interrupts dsp)),
    (irq_word d' (interrupts dsp .& u32 (.~ v))), (irq_word (dma dsp) (interrupts dsp .| 2 ^ 1)).
  do 4 (split; [reflexivity |]). rewrite !irq_word_bit, testbit_andn, Z.lor_spec, testbit_pow2 by lia.
  assert (E : eol d' = eol dsp.(dma) && negb (Z.testbit v 7)).
  { unfold d', INTERRUPT_DMA_EOL. rewrite nz_bit by lia.
    destruct (Z.testbit v 7); [by rewrite andb_false_r | by rewrite andb_true_r]. }
  rewrite E. destruct (Z.eqb_spec 7 i) as [<- |]; split; btauto.
Qed.

(** ** Safety *)

Context `{HB : !ScratchBusOk H}.

#[local] Instance dsp_peripherals_ok : PeripheralsOk peripherals.
Proof.
  refine {| periph_ok := λ p, dma_ok p.1.1 ∧ 0 ≤ p.1.2 < 2 ^ 24 ∧ bus_ok p.2; periph_fault := engine_fault |}.
  - intros s [[d irqs] h] a Hs ((D1 & D2 & D3 & D4) & Hi & Hh) Ha. cbn [fst snd] in *.
    cbn [read_peripheral dsp_peripherals]. unfold dsp_read_peripheral.
    repeat case_match; try done. apply lor_bound; [lia | done | by vm_compute].
  - intros s [[d irqs] h] a v Hs (Hd & Hi & Hh) Ha Hv. cbn [fst snd] in *.
    cbn [write_peripheral dsp_peripherals]. unfold dsp_write_peripheral. cbn zeta.
    assert (W : ∀ r,
      match ('(c, dma, h) ← dsp_dma_write dma_fuel s d h r v; Ok (c, (dma, irqs, h))) with
      | Ok (s', p') => core_ok s' ∧ dma_ok p'.1.1 ∧ 0 ≤ p'.1.2 < 2 ^ 24 ∧ bus_ok p'.2
      | Fault e => engine_fault e
      end).
    { intros r. pose proof (dsp_dma_write_safe dma_fuel s d h r v (ok_ram s Hs) Hd Hh Hv) as G.
      destruct (dsp_dma_write dma_fuel s d h r v) as [[[c' d'] h'] | e]; [| exact G].
      destruct G as (G1 & G2 & G3 & G4). cbn. split; [by apply (core_ok_same_but_ram s) | done]. }
    destruct (a =? 0xFFFFC5).
    { split; [done |]. cbn [fst snd]. split_and!; try done.
      - by destruct (nz _).
      - rewrite Z.land_comm. by apply (land_bound _ _ 24).
      - rewrite Z.land_comm. by apply (land_bound _ _ 24). }
    repeat (destruct (a =? _); [apply W |]). done.
Defined.

(** The invariant of the device. *)
Definition dsp_ok (dsp : DSPState) : Prop :=
  core_ok (core dsp) ∧ executing_for_disasm (core dsp) = false ∧ dma_ok (dma dsp) ∧
  0 ≤ interrupts dsp < 2 ^ 24 ∧ bus_ok (rw_opaque dsp).

Lemma dsp_reset_ok dsp : dsp_ok dsp → dsp_ok (dsp_reset dsp).
Proof.
  intros (Hc & _ & Hd). split; [| done]. apply reset_core_ok; apply Hc.
Qed.

Lemma dsp_init_ok h : bus_ok h → dsp_ok (dsp_init h).
Proof.
  intros Hh. split_and!; try done. apply reset_core_ok; [by apply empty_ram_ok | done].
Qed.

(** The word a step would execute is not a BCHG or BSET of a register bit above 23. *)
Definition steady (dsp : DSPState) : Prop :=
  wide_bit_word (rd (pram (core dsp)) (pc (core dsp))) = false.

(** C6: the device is safe to step.  From a state in its invariant, unless the word to be
    executed is a BCHG or BSET of a register bit above 23 (which sets a bit that the
    register does not have), [dsp_step] ends in a state in its invariant, whatever the
    instruction does through the peripheral page and the DMA engine, or it stops at an
    assertion, at an undefined shift, at a DMA list that does not end, or at a fault of
    the callbacks; it never leaves an array. *)
Theorem dsp_step_safe dsp : dsp_ok dsp → steady dsp →
  match dsp_step dsp with
  | Ok dsp' => dsp_ok dsp'
  | Fault e => e = assert_failed ∨ e = undefined_behaviour ∨ e = out_of_fuel ∨ bus_fault e
  end.
Proof.
  intros (Hc & Hx & Hd & Hi & Hh) Hw. unfold dsp_step.
  pose proof (execute_ok (core dsp) (periph_of dsp) Hc (conj Hd (conj Hi Hh)) Hw) as G.
  destruct (dsp56k_execute_instruction _ _) as [[[u c] [[d i] h]] | e] eqn:E; cbn [mbind res_bind].
  - destruct G as (G1 & G2 & G3 & G4). cbn [fst snd] in *.
    apply execute_time in E as [_ E]; [| done]. exact (conj G1 (conj E (conj G2 (conj G3 G4)))).
  - destruct G as [-> | [-> | [[-> | ->] | G]]]; auto.
Qed.

(** booting.  [dsp_bootstrap] replaces the first 0x800 words of the program memory
    by what the scratch memory holds at 0, changes no other word and no register, and
    keeps the invariant when these words have 24 bits. *)
Theorem dsp_bootstrap_correct dsp buf h' words :
  dsp_ok dsp → length words = 0x800%nat → Forall (λ w, 0 ≤ w < 2 ^ 24) words →
  scratch_rw (rw_opaque dsp)
    (concat ((λ i, le_bytes 4 (rd (pram (core dsp)) i)) <$> seqZ 0 0x800)) 0 false = Ok (buf, h') →
  buf = concat (le_bytes 4 <$> words) →
  ∃ dsp', dsp_bootstrap dsp = Ok dsp' ∧ dsp_ok dsp' ∧ rw_opaque dsp' = h' ∧
    registers (core dsp') = registers (core dsp) ∧ pc (core dsp') = pc (core dsp) ∧
    ∀ i, rd (pram (core dsp')) i =
         if decide (0 ≤ i < 0x800) then words !!! Z.to_nat i else rd (pram (core dsp)) i.
Proof.
  intros (Hc & Hx & Hd & Hi & Hh) Hl Hw E ->. unfold dsp_bootstrap. rewrite E. cbn [mbind res_bind].
  set (ws := (λ i, le_value (take 4 (drop (Z.to_nat i * 4) (concat (le_bytes 4 <$> words))))) <$> seqZ 0 0x800).
  assert (Ews : ws = words).
  { apply list_eq. intros i. unfold ws. rewrite list_lookup_fmap. destruct (decide (i < 0x800)%nat) as [Hi' |].
    - rewrite lookup_seqZ_lt by lia. cbn [fmap option_fmap option_map].
      destruct (lookup_lt_is_Some_2 words i) as [w Ew]; [lia |]. rewrite Ew, Z.add_0_l, Nat2Z.id. f_equal.
      rewrite (take_drop_chunks (le_bytes 4) 4 words i w (le_bytes_length 4) Ew). apply le_value_bytes.
      rewrite Forall_lookup in Hw. specialize (Hw i w Ew). change (8 * Z.of_nat 4) with 32. lia.
    - rewrite lookup_ge_None_2, lookup_ge_None_2; [done | lia |]. rewrite length_seqZ. lia. }
  rewrite Ews. eexists. split; [reflexivity |]. split_and!; try done.
  - assert (Hb : bus_ok h').
    { pose proof (chunks_bytes (λ i, le_bytes 4 (rd (pram (core dsp)) i)) (seqZ 0 0x800)
        (λ i, le_bytes_byte 4 _)) as Hb.
      pose proof (scratch_rw_ok (rw_opaque dsp) _ 0 false Hh Hb ltac:(lia)) as B.
      rewrite E in B. apply B. }
    assert (Hc' : core_ok ((core dsp) <| pram := wr_bytes (pram (core dsp)) 0 words |>)).
    { destruct Hc as [? (? & ? & ? & ?) ? ? ? ? ?]. split; try done. split_and!; try done.
      by apply wr_bytes_fit. }
    exact (conj Hc' (conj Hx (conj Hd (conj Hi Hb)))).
  - intros i. change (rd (wr_bytes (pram (core dsp)) 0 words) i = if decide (0 ≤ i < 0x800)
      then words !!! Z.to_nat i else rd (pram (core dsp)) i).
    rewrite rd_wr_bytes, Hl, Z.sub_0_r. done.
Qed.

End device.

(** ** Registers by name

    The debugger looks a register up by bisection and writes it. *)

(** [uint32_t *addr]: an entry of [registers], or [pc]. *)
Inductive reg_addr := AddrReg (r : Z) | AddrPc.

Record reg_addr_t := RegAddr {
  ra_name : string;
  ra_addr : reg_addr;
  ra_bits : Z;
  ra_mask : Z
}.

#[global] Instance reg_addr_eq_dec : EqDecision reg_addr.
Proof. solve_decision. Defined.

#[global] Instance reg_addr_t_eq_dec : EqDecision reg_addr_t.
Proof. solve_decision. Defined.

Definition register_names : list reg_addr_t :=
  [ RegAddr "A0" (AddrReg DSP_REG_A0) 32 (BITMASK 24);
    RegAddr "A1" (AddrReg DSP_REG_A1) 32 (BITMASK 24);
    RegAddr "A2" (AddrReg DSP_REG_A2) 32 (BITMASK 8);
    RegAddr "B0" (AddrReg DSP_REG_B0) 32 (BITMASK 24);
    RegAddr "B1" (AddrReg DSP_REG_B1) 32 (BITMASK 24);
    RegAddr "B2" (AddrReg DSP_REG_B2) 32 (BITMASK 8);
    RegAddr "LA" (AddrReg DSP_REG_LA) 32 (BITMASK 16);
    RegAddr "LC" (AddrReg DSP_REG_LC) 32 (BITMASK 16);
    RegAddr "M0" (AddrReg DSP_REG_M0) 32 (BITMASK 16);
    RegAddr "M1" (AddrReg (DSP_REG_M0 + 1)) 32 (BITMASK 16);
    RegAddr "M2" (AddrReg (DSP_REG_M0 + 2)) 32 (BITMASK 16);
    RegAddr "M3" (AddrReg (DSP_REG_M0 + 3)) 32 (BITMASK 16);
    RegAddr "M4" (AddrReg (DSP_REG_M0 + 4)) 32 (BITMASK 16);
    RegAddr "M5" (AddrReg (DSP_REG_M0 + 5)) 32 (BITMASK 16);
    RegAddr "M6" (AddrReg (DSP_REG_M0 + 6)) 32 (BITMASK 16);
    RegAddr "M7" (AddrReg (DSP_REG_M0 + 7)) 32 (BITMASK 16);
    RegAddr "N0" (AddrReg DSP_REG_N0) 32 (BITMASK 16);
    RegAddr "N1" (AddrReg (DSP_REG_N0 + 1)) 32 (BITMASK 16);
    RegAddr "N2" (AddrReg (DSP_REG_N0 + 2)) 32 (BITMASK 16);
    RegAddr "N3" (AddrReg (DSP_REG_N0 + 3)) 32 (BITMASK 16);
    RegAddr "N4" (AddrReg (DSP_REG_N0 + 4)) 32 (BITMASK 16);
    RegAddr "N5" (AddrReg (DSP_REG_N0 + 5)) 32 (BITMASK 16);
    RegAddr "N6" (AddrReg (DSP_REG_N0 + 6)) 32 (BITMASK 16);
    RegAddr "N7" (AddrReg (DSP_REG_N0 + 7)) 32 (BITMASK 16);
    RegAddr "OMR" (AddrReg DSP_REG_OMR) 32 0x5f;
    RegAddr "PC" AddrPc 24 (BITMASK 24);
    RegAddr "R0" (AddrReg DSP_REG_R0) 32 (BITMASK 16);
    RegAddr "R1" (AddrReg (DSP_REG_R0 + 1)) 32 (BITMASK 16);
    RegAddr "R2" (AddrReg (DSP_REG_R0 + 2)) 32 (BITMASK 16);
    RegAddr "R3" (AddrReg (DSP_REG_R0 + 3)) 32 (BITMASK 16);
    RegAddr "R4" (AddrReg (DSP_REG_R0 + 4)) 32 (BITMASK 16);
    RegAddr "R5" (AddrReg (DSP_REG_R0 + 5)) 32 (BITMASK 16);
    RegAddr "R6" (AddrReg (DSP_REG_R0 + 6)) 32 (BITMASK 16);
    RegAddr "R7" (AddrReg (DSP_REG_R0 + 7)) 32 (BITMASK 16);
    RegAddr "SSH" (AddrReg DSP_REG_SSH) 32 (BITMASK 16);
    RegAddr "SSL" (AddrReg DSP_REG_SSL) 32 (BITMASK 16);
    RegAddr "SP" (AddrReg DSP_REG_SP) 32 (BITMASK 6);
    RegAddr "SR" (AddrReg DSP_REG_SR) 32 0xefff;
    RegAddr "X0" (AddrReg DSP_REG_X0) 32 (BITMASK 24);
    RegAddr "X1" (AddrReg DSP_REG_X1) 32 (BITMASK 24);
    RegAddr "Y0" (AddrReg DSP_REG_Y0) 32 (BITMASK 24);
    RegAddr "Y1" (AddrReg DSP_REG_Y1) 32 (BITMASK 24) ]%string.

(** Character [i] of a zero-terminated string, as a signed [char]. *)
Definition char_at (s : string) (i : nat) : Z :=
  match String.get i s with
  | Some c => let v := Z.of_nat (nat_of_ascii c) in if v <? 128 then v else v - 256
  | None => 0
  end.

Definition toupper (c : Z) : Z := if (97 <=? c) && (c <=? 122) then c - 32 else c.

(** [dir]: the first difference of the upper-cased name [regname] and [name] among
    [len] characters. *)
Fixpoint compare_names (regname name : string) (i len : nat) : Z :=
  match len with
  | O => 0
  | S len =>
      let dir := toupper (char_at regname i) - char_at name i in
      if nz dir then dir else compare_names regname name (S i) len
  end.

(** The bisection between [l] and [r]. *)
Fixpoint bisect (fuel : nat) (regname : string) (l r : Z) : option reg_addr_t :=
  match fuel with
  | O => None
  | S fuel =>
      let m := (l + r) .>> 1 in
      match register_names !! Z.to_nat m with
      | None => None
      | Some e =>
          let dir := compare_names regname (ra_name e) 0 (String.length regname) in
          if dir =? 0 then Some e
          else
            let '(l, r) := if dir <? 0 then (l, m - 1) else (m + 1, r) in
            if l <=? r then bisect fuel regname l r else None
      end
  end.

(** The entry found, or nothing where the source returns 0. *)
Definition dsp_get_register_address (regname : string) : option reg_addr_t :=
  let len := String.length regname in
  if (len <? 2)%nat || (4 <? len)%nat then None
  else bisect 6 regname 0 (Z.of_nat (length register_names) - 1).

Definition upto (a b c : Z) : bool := (a =? b) || (a =? c).

(** [*addr] as a value and as a destination. *)
Definition load_reg (c : dsp_core) (a : reg_addr) : Z :=
  match a with AddrReg r => reg c r | AddrPc => pc c end.

Definition store_reg (c : dsp_core) (a : reg_addr) (v : Z) : dsp_core :=
  match a with AddrReg r => set_reg c r v | AddrPc => c <| pc := v |> end.

(** [dsp_disasm_set_register]; the result says whether the name is known. *)
Definition dsp_disasm_set_register (c : dsp_core) (arg : string) (value : Z) : bool * dsp_core :=
  let by_address :=
    match dsp_get_register_address arg with
    | Some e =>
        if ra_bits e =? 32 then (true, store_reg c (ra_addr e) (value .& ra_mask e))
        else if ra_bits e =? 16 then
          (true, store_reg c (ra_addr e)
                   ((load_reg c (ra_addr e) .& 0xffff0000) .| u16 (value .& ra_mask e)))
        else (false, c)
    | None => (false, c)
    end in
  if upto (char_at arg 0) 83 115 then
    if upto (char_at arg 1) 80 112 then
      let c := set_reg c DSP_REG_SP (value .& BITMASK 6) in
      let value := value .& BITMASK 4 in
      let c := set_reg c DSP_REG_SSH (rd (stack0 c) value) in
      (true, set_reg c DSP_REG_SSL (rd (stack1 c) value))
    else if upto (char_at arg 1) 83 115 then
      let sp_value := reg c DSP_REG_SP .& BITMASK 4 in
      let word := if sp_value =? 0 then 0 else value .& BITMASK 16 in
      if upto (char_at arg 2) 72 104 then
        let c := set_reg c DSP_REG_SSH word in
        (true, c <| stack0 := wr (stack0 c) sp_value word |>)
      else if upto (char_at arg 2) 76 108 then
        let c := set_reg c DSP_REG_SSL word in
        (true, c <| stack1 := wr (stack1 c) sp_value word |>)
      else by_address
    else by_address
  else by_address.

(** [n] names [e]: its characters, in upper case, are the first ones of [e]'s name. *)
Definition names (n : string) (e : reg_addr_t) : Prop :=
  ∀ j, (j < String.length n)%nat → toupper (char_at n j) = char_at (ra_name e) j.

(** A C string holds no zero before its end. *)
Definition c_string (n : string) : Prop := ∀ j, (j < String.length n)%nat → char_at n j ≠ 0.

(** The entries the bisection cannot reach. *)
Definition misplaced : list string := ["SSH"; "SSL"]%string.

Lemma compare_names_zero n name i len :
  compare_names n name i len = 0 ↔
  ∀ j, (i ≤ j < i + len)%nat → toupper (char_at n j) = char_at name j.
Proof.
  revert i. induction len as [| len IH]; intros i; cbn [compare_names]; [split; [lia | done] |].
  unfold nz. destruct (Z.eqb_spec (toupper (char_at n i) - char_at name i) 0) as [E | E]; cbn [negb].
  - rewrite IH. split; intros A j Hj; [destruct (decide (j = i)) as [-> |]; [lia |] |]; apply A; lia.
  - split; [lia |]. intros A. specialize (A i). lia.
Qed.

Lemma bisect_sound fuel n l r e : bisect fuel n l r = Some e → e ∈ register_names ∧ names n e.
Proof.
  revert l r. induction fuel as [| fuel IH]; intros l r E; [done |]. cbn [bisect] in E.
  destruct (register_names !! _) as [e' |] eqn:L; [| done].
  destruct (Z.eqb_spec (compare_names n (ra_name e') 0 (String.length n)) 0) as [C | C].
  - injection E as <-. split; [by eapply list_elem_of_lookup_2 |]. intros j Hj.
    apply (proj1 (compare_names_zero _ _ _ _) C). lia.
  - destruct (_ <? 0); destruct (_ <=? _); naive_solver.
Qed.

(** The search depends on the upper-case characters alone. *)
Definition same_upper (n n' : string) : Prop :=
  String.length n = String.length n' ∧
  ∀ j, (j < String.length n)%nat → toupper (char_at n j) = toupper (char_at n' j).

Lemma compare_names_same n n' name i len : same_upper n n' → (i + len ≤ String.length n)%nat →
  compare_names n name i len = compare_names n' name i len.
Proof.
  intros [_ S]. revert i. induction len as [| len IH]; intros i Hi; [done |].
  cbn [compare_names]. rewrite (S i), IH by lia. done.
Qed.

Lemma bisect_same fuel n n' l r : same_upper n n' → bisect fuel n l r = bisect fuel n' l r.
Proof.
  intros S. revert l r. induction fuel as [| fuel IH]; intros l r; [done |]. cbn [bisect].
  destruct (register_names !! _); [| done].
  rewrite (compare_names_same n n'), (proj1 S) by (done || lia). repeat case_match; auto.
Qed.

Lemma address_same n n' : same_upper n n' → dsp_get_register_address n = dsp_get_register_address n'.
Proof. intros S. unfold dsp_get_register_address. rewrite (bisect_same _ n n'), (proj1 S); done. Qed.

(** Every prefix of a name in the table, searched for. *)
Lemma address_table : Forall (λ e, Forall (λ len,
    dsp_get_register_address (String.substring 0 len (ra_name e)) =
    if bool_decide (ra_name e ∈ misplaced) then None else Some e)
  (seq 2 (String.length (ra_name e) - 1))) register_names.
Proof. apply (bool_decide_unpack _). by vm_compute. Qed.

Lemma table_upper : Forall (λ e, Forall (λ len,
    String.length (String.substring 0 len (ra_name e)) = len ∧
    Forall (λ j, toupper (char_at (String.substring 0 len (ra_name e)) j) = char_at (ra_name e) j) (seq 0 len))
  (seq 2 (String.length (ra_name e) - 1))) register_names.
Proof. apply (bool_decide_unpack _). by vm_compute. Qed.

Lemma names_length n e : c_string n → names n e → (String.length n ≤ String.length (ra_name e))%nat.
Proof.
  intros C N. destruct (decide (String.length n ≤ String.length (ra_name e))%nat) as [| L]; [done |].
  specialize (N (String.length (ra_name e)) ltac:(lia)). specialize (C (String.length (ra_name e)) ltac:(lia)).
  assert (Z : char_at (ra_name e) (String.length (ra_name e)) = 0).
  { unfold char_at. generalize (ra_name e). intros s. induction s; [done | apply IHs]. }
  rewrite Z in N. unfold toupper in N. destruct (_ && _) eqn:B in N; [| done].
  apply andb_prop in B as [B _]. lia.
Qed.

Lemma names_address n e : c_string n → e ∈ register_names → (2 ≤ String.length n)%nat → names n e →
  dsp_get_register_address n = if bool_decide (ra_name e ∈ misplaced) then None else Some e.
Proof.
  intros C He Hn N. pose proof (names_length n e C N) as L.
  assert (I : String.length n ∈ seq 2 (String.length (ra_name e) - 1)) by (apply elem_of_seq; lia).
  pose proof (proj1 (Forall_forall _ _) (proj1 (Forall_forall _ _) table_upper e He) _ I) as [T1 T2].
  rewrite <- (proj1 (Forall_forall _ _) (proj1 (Forall_forall _ _) address_table e He) _ I).
  apply address_same. split; [done |]. intros j Hj. rewrite (N j Hj). symmetry.
  apply (proj1 (Forall_forall _ _) T2). apply elem_of_seq. lia.
Qed.

(** what the debugger finds under a name.  The bisection finds exactly the entries
    whose name starts with the given one in upper case (two characters at least),
    except SSH and SSL: these two stand before SP in a table that is searched as if it
    were sorted, and no name reaches them. *)
Theorem dsp_get_register_address_correct n e : c_string n →
  dsp_get_register_address n = Some e ↔
  e ∈ register_names ∧ (2 ≤ String.length n)%nat ∧ names n e ∧ ra_name e ∉ misplaced.
Proof.
  intros C. split.
  - intros E. assert (B : (2 ≤ String.length n)%nat ∧ e ∈ register_names ∧ names n e).
    { unfold dsp_get_register_address in E. destruct (_ || _) eqn:O in E; [done |].
      apply orb_false_iff in O as [O _]. apply Nat.ltb_ge in O. split; [done |]. by eapply bisect_sound. }
    destruct B as (B1 & B2 & B3). split_and!; try done. intros M.
    rewrite (names_address n e), bool_decide_true in E by done. done.
  - intros (B1 & B2 & B3 & M). by rewrite (names_address n e), bool_decide_false.
Qed.

(** Every mask of the table fits the width its register has in the invariant. *)
Lemma register_masks : Forall (λ e,
    ra_bits e = 24 ∨ ra_bits e = 32 ∧ ∃ r, ra_addr e = AddrReg r ∧ 0 ≤ r ∧ 0 ≤ ra_mask e < 2 ^ loose_bits r)
  register_names.
Proof.
  repeat (apply Forall_cons; split; [first [by left | right; split; [done |]; eexists; split_and!; by vm_compute] |]).
  apply Forall_nil_2.
Qed.

Lemma core_ok_stacks c m0 m1 : core_ok c → mem_ok 16 m0 → mem_ok 16 m1 →
  core_ok (c <| stack0 := m0 |>) ∧ core_ok (c <| stack1 := m1 |>).
Proof.
  intros [(? & ? & ?) (? & ? & ? & ?) ? ? ? ? ?] ? ?. split; (split; try done); by split.
Qed.

(** Whatever the debugger sets keeps the invariant of the core. *)
Lemma dsp_disasm_set_register_ok c arg value : core_ok c →
  core_ok (dsp_disasm_set_register c arg value).2.
Proof.
  intros Hc. pose proof (ok_regs c Hc) as (_ & S0 & S1).
  assert (A : ∀ e, dsp_get_register_address arg = Some e → ra_bits e = 24 ∨
    ra_bits e = 32 ∧ ∃ r, ra_addr e = AddrReg r ∧ 0 ≤ r ∧ 0 ≤ ra_mask e < 2 ^ loose_bits r).
  { intros e E. unfold dsp_get_register_address in E. destruct (_ || _); [done |].
    apply bisect_sound in E as [E _]. exact (proj1 (Forall_forall _ _) register_masks e E). }
  assert (G : core_ok (match dsp_get_register_address arg with
    | Some e => if ra_bits e =? 32 then (true, store_reg c (ra_addr e) (value .& ra_mask e))
        else if ra_bits e =? 16 then (true, store_reg c (ra_addr e)
          ((load_reg c (ra_addr e) .& 0xffff0000) .| u16 (value .& ra_mask e))) else (false, c)
    | None => (false, c) end).2).
  { destruct (dsp_get_register_address arg) as [e |]; [| done].
    destruct (A e eq_refl) as [-> | (-> & r & -> & Hr & Hm)]; [done |].
    apply core_set_reg; [done | done |]. apply land_bound; [| done]. pose proof (loose_max r). lia. }
  unfold dsp_disasm_set_register. cbn zeta.
  destruct (upto (char_at arg 0) 83 115); [| exact G].
  destruct (upto (char_at arg 1) 80 112).
  { cbn [snd]. apply core_set_reg; [| done | apply S1]. apply core_set_reg; [| done | apply S0].
    apply core_set_reg; [done | done |]. by apply (land_bound _ _ 6). }
  destruct (upto (char_at arg 1) 83 115); [| exact G].
  set (sp := reg c DSP_REG_SP .& BITMASK 4).
  assert (Hw : 0 ≤ (if sp =? 0 then 0 else value .& BITMASK 16) < 2 ^ 16)
    by (destruct (sp =? 0); [lia | by apply (land_bound _ _ 16)]).
  destruct (upto (char_at arg 2) 72 104).
  { eapply core_ok_stacks; [by apply core_set_reg | by apply mem_ok_wr | exact S1]. }
  destruct (upto (char_at arg 2) 76 108); [| exact G].
  eapply core_ok_stacks; [by apply core_set_reg | exact S0 | by apply mem_ok_wr].
Qed.

(** PC is found and cannot be set: its width is neither 32 nor 16. *)
Lemma dsp_disasm_set_pc c value : dsp_disasm_set_register c "PC" value = (false, c).
Proof. reflexivity. Qed.

(** ** Instances *)

(** A device in front of a flat memory, with an empty program (NOPs). *)
Definition flat_dsp : @DSPState mem := dsp_init ∅.

Lemma dsp_run_ends_witness : ∃ dsp', @dsp_run mem flat_bus 1 4 flat_dsp 7 = Some (Ok dsp') ∧
  -141 ≤ save_cycles dsp' ≤ 0 ∧ @reached mem flat_bus 1 (flat_dsp <| save_cycles := 7 |>) dsp'.
Proof.
  pose proof (@dsp_run_ends mem flat_bus 1 4 flat_dsp 7 eq_refl ltac:(done) ltac:(done)) as W. cbv zeta in W.
  assert (match @dsp_run mem flat_bus 1 4 flat_dsp 7 with Some (Ok _) => True | _ => False end) as R by (by vm_compute).
  destruct (dsp_run 1 4 flat_dsp 7) as [[dsp' | e] |]; [| done | done]. by exists dsp'.
Defined.

(** The device after one slice. *)
Definition flat_run (dsp : @DSPState mem) (cycles : Z) : @DSPState mem :=
  match @dsp_run mem flat_bus 1 4 dsp cycles with Some (Ok dsp) => dsp | _ => dsp end.

Lemma dsp_run_slices_witness :
  @dsp_run mem flat_bus 1 (4 + 4) flat_dsp (3 + 4) = Some (Ok (flat_run (flat_run flat_dsp 3) 4)).
Proof. apply (dsp_run_slices 1 4 4 flat_dsp 3 4 (flat_run flat_dsp 3)); by vm_compute. Defined.

Lemma interrupts_acknowledge_witness :
  ∃ p' y, @dsp_write_peripheral mem flat_bus 1 zero_core (periph_of (dsp_start_frame flat_dsp)) 0xFFFFC5 2
          = Ok (zero_core, p') ∧
    dsp_read_peripheral zero_core p' 0xFFFFC5 = Ok y ∧ Z.testbit y 1 = false.
Proof.
  destruct (@interrupts_acknowledge mem flat_bus 1 zero_core (dsp_start_frame flat_dsp) 2 1)
    as (p' & x & y & z & E1 & E2 & E3 & _ & B & _); [by vm_compute.. |].
  exists p', y. split_and!; [done.. |]. rewrite B. by rewrite andb_false_r.
Defined.

Lemma dsp_step_safe_witness :
  match @dsp_step mem flat_bus 1 flat_dsp with
  | Ok dsp' => @dsp_ok mem flat_bus flat_bus_ok dsp'
  | Fault e => e = assert_failed ∨ e = undefined_behaviour ∨ e = out_of_fuel ∨ False
  end.
Proof.
  apply (@dsp_step_safe mem flat_bus 1 flat_bus_ok flat_dsp); [by apply dsp_init_ok | by vm_compute].
Defined.

(** The boot image of the witness: every word holds its own address. *)
Definition boot_image : list Z := seqZ 0 0x800.

Lemma boot_image_words : Forall (λ w, 0 ≤ w < 2 ^ 24) boot_image.
Proof. apply Forall_forall. intros w Hw%elem_of_seqZ. lia. Qed.

(** A device whose scratch memory holds [boot_image]. *)
Definition boot_dsp : @DSPState mem := dsp_init (wr_bytes ∅ 0 (concat (le_bytes 4 <$> boot_image))).

Lemma flat_read m a l buf : length buf = length l →
  @scratch_rw mem flat_bus (wr_bytes m a l) buf a false = Ok (l, wr_bytes m a l).
Proof. intros El. cbn. by rewrite El, rd_bytes_wr. Qed.

Lemma dsp_bootstrap_witness :
  ∃ dsp', @dsp_bootstrap mem flat_bus boot_dsp = Ok dsp' ∧ rd (pram (core dsp')) 0x7ff = 0x7ff.
Proof.
  destruct (@dsp_bootstrap_correct mem flat_bus flat_bus_ok boot_dsp
    (concat (le_bytes 4 <$> boot_image)) (rw_opaque boot_dsp) boot_image) as (d' & E & _ & _ & _ & _ & R).
  - apply dsp_init_ok, wr_bytes_ok; [done |]. apply chunks_bytes, le_bytes_byte.
  - apply length_seqZ.
  - exact boot_image_words.
  - apply flat_read. rewrite (length_chunks (λ i, le_bytes 4 _) 4 (seqZ 0 0x800)) by (intros; apply le_bytes_length).
    by rewrite (length_chunks (le_bytes 4) 4 boot_image) by apply le_bytes_length.
  - done.
  - exists d'. split; [done |]. by rewrite R.
Defined.

Lemma dsp_get_register_address_witness : dsp_get_register_address "r3" = Some (RegAddr "R3" (AddrReg (DSP_REG_R0 + 3)) 32 (BITMASK 16)).
Proof.
  apply dsp_get_register_address_correct.
  - intros j Hj. destruct j as [| [| j]]; [by vm_compute.. | cbn in Hj; lia].
  - split_and!; [apply (bool_decide_unpack _); by vm_compute | done | | apply (bool_decide_unpack _); by vm_compute].
    intros j Hj. destruct j as [| [| j]]; [by vm_compute.. | cbn in Hj; lia].
Defined.
