(* ===== verification/Apu.v ===== *)
(** * Memory and FIFOs of the audio unit

    src/hw/xbox/mcpx_apu.c, lines 780 to 956: how the two DSPs of the audio unit reach
    guest memory.  Scratch memory is a list of pages (scatter/gather entries in guest
    memory); a FIFO is a ring in such a memory, with its bounds and its position in
    registers.  Both are the callbacks [scratch_rw] and [fifo_rw] of the DMA engine, so
    this file supplies the instances of the classes DspDma.v and Dsp.v are stated over. *)

From S2P Require Import Prelude Bytes Fields Dsp56 DspCore DspAlu DspSafe DspDma.

Definition TARGET_PAGE_SIZE := 4096.

Definition NV_PAPU_GPSADDR := 0x2040.
Definition NV_PAPU_GPFADDR := 0x2044.
Definition NV_PAPU_EPSADDR := 0x2048.
Definition NV_PAPU_EPFADDR := 0x204C.
Definition NV_PAPU_GPSMAXSGE := 0x20D4.
Definition NV_PAPU_GPFMAXSGE := 0x20D8.
Definition NV_PAPU_EPSMAXSGE := 0x20DC.
Definition NV_PAPU_EPFMAXSGE := 0x20E0.
Definition NV_PAPU_GPOFBASE0 := 0x3024.
Definition NV_PAPU_GPOFBASE0_VALUE := 0x00FFFF00.
Definition NV_PAPU_GPOFEND0 := 0x3028.
Definition NV_PAPU_GPOFEND0_VALUE := 0x00FFFF00.
Definition NV_PAPU_GPOFCUR0 := 0x302C.
Definition NV_PAPU_GPOFCUR0_VALUE := 0x00FFFFFC.
Definition NV_PAPU_GPIFBASE0 := 0x3064.
Definition NV_PAPU_GPIFEND0 := 0x3068.
Definition NV_PAPU_GPIFCUR0 := 0x306C.
Definition NV_PAPU_EPOFBASE0 := 0x4024.
Definition NV_PAPU_EPOFEND0 := 0x4028.
Definition NV_PAPU_EPOFCUR0 := 0x402C.
Definition NV_PAPU_EPIFBASE0 := 0x4064.
Definition NV_PAPU_EPIFEND0 := 0x4068.
Definition NV_PAPU_EPIFCUR0 := 0x406C.
Definition GP_OUTPUT_FIFO_COUNT := 4.
Definition GP_INPUT_FIFO_COUNT := 2.
Definition EP_OUTPUT_FIFO_COUNT := 4.
Definition EP_INPUT_FIFO_COUNT := 2.

(** What the callbacks reach through [opaque]: the guest's RAM, as bytes, and the
    registers of the audio unit. *)
Record apu_host := Host {
  ram : mem;
  regs : mem
}.

Section memory.

(** The size of the RAM, and what a load outside of it returns (another device answers). *)
Context (ram_size : Z) (io_ldl : Z → Z).
Implicit Types (h : apu_host) (buf : list Z).

Definition ldl_le_phys h (addr : Z) : Z :=
  if addr + 4 <=? ram_size then le_value (rd_bytes (ram h) addr 4) else u32 (io_ldl addr).

(** The loop of [scatter_gather_rw]; [buf] is what is left of the buffer ([ptr] and
    [len]).  The result is the buffer as the loop leaves it. *)
Fixpoint sg_loop (fuel : nat) h (sge_base max_sge page_entry offset_in_page bytes_to_copy : Z)
    buf (dir : bool) : res (list Z * apu_host) :=
  let len := Z.of_nat (length buf) in
  if len =? 0 then Ok ([], h)
  else
    match fuel with
    | O => Fault out_of_fuel
    | S fuel =>
        _ ← assert (page_entry <=? max_sge);
        let prd_address := ldl_le_phys h (sge_base + u32 (page_entry * 8)) in
        let paddr := u32 (prd_address + offset_in_page) in
        let bytes_to_copy := if len <? bytes_to_copy then len else bytes_to_copy in
        _ ← assert (paddr + bytes_to_copy <? ram_size);
        let n := Z.to_nat bytes_to_copy in
        let chunk := if dir then take n buf else rd_bytes (ram h) paddr bytes_to_copy in
        let h := if dir then Host (wr_bytes (ram h) paddr (take n buf)) (regs h) else h in
        '(rest, h) ← sg_loop fuel h sge_base max_sge (u32 (page_entry + 1)) 0 TARGET_PAGE_SIZE
                       (drop n buf) dir;
        Ok (chunk ++ rest, h)
    end.

(** Every iteration moves a byte, so the length of the buffer bounds the loop. *)
Definition scatter_gather_rw h (sge_base max_sge : Z) buf (addr : Z) (dir : bool)
    : res (list Z * apu_host) :=
  let page_entry := addr / TARGET_PAGE_SIZE in
  let offset_in_page := addr mod TARGET_PAGE_SIZE in
  sg_loop (length buf) h sge_base max_sge page_entry offset_in_page
    (TARGET_PAGE_SIZE - offset_in_page) buf dir.

Definition gp_scratch_rw h buf (addr : Z) (dir : bool) : res (list Z * apu_host) :=
  scatter_gather_rw h (rd (regs h) NV_PAPU_GPSADDR) (rd (regs h) NV_PAPU_GPSMAXSGE) buf addr dir.

Definition ep_scratch_rw h buf (addr : Z) (dir : bool) : res (list Z * apu_host) :=
  scatter_gather_rw h (rd (regs h) NV_PAPU_EPSADDR) (rd (regs h) NV_PAPU_EPSMAXSGE) buf addr dir.

(** The loop of [circular_scatter_gather_rw]; the result has the new [cur]. *)
Fixpoint circular_loop (fuel : nat) h (sge_base max_sge : Z) buf (base last cur : Z) (dir : bool)
    : res (list Z * Z * apu_host) :=
  let len := Z.of_nat (length buf) in
  if len =? 0 then Ok ([], cur, h)
  else
    match fuel with
    | O => Fault out_of_fuel
    | S fuel =>
        let bytes_to_copy := u32 (last - cur) in
        let bytes_to_copy := if len <? bytes_to_copy then len else bytes_to_copy in
        _ ← assert ((base <=? cur) && (u32 (cur + bytes_to_copy) <=? last));
        let n := Z.to_nat bytes_to_copy in
        '(chunk, h) ← scatter_gather_rw h sge_base max_sge (take n buf) cur dir;
        let cur := u32 (cur + bytes_to_copy) in
        cur ← (if last <=? cur then _ ← assert (cur =? last); Ok base else Ok cur);
        '(rest, cur, h) ← circular_loop fuel h sge_base max_sge (drop n buf) base last cur dir;
        Ok (chunk ++ rest, cur, h)
    end.

Definition circular_scatter_gather_rw h (sge_base max_sge : Z) buf (base last cur : Z) (dir : bool)
    : res (list Z * Z * apu_host) :=
  circular_loop (length buf) h sge_base max_sge buf base last cur dir.

(** The part [gp_fifo_rw] and [ep_fifo_rw] have in common, from the registers of the
    FIFO on. *)
Definition fifo_transfer h buf (base_reg end_reg cur_reg addr_reg max_reg : Z) (dir : bool)
    : res (list Z * apu_host) :=
  let base := GET_MASK (rd (regs h) base_reg) NV_PAPU_GPOFBASE0_VALUE in
  let last := GET_MASK (rd (regs h) end_reg) NV_PAPU_GPOFEND0_VALUE in
  let cur := GET_MASK (rd (regs h) cur_reg) NV_PAPU_GPOFCUR0_VALUE in
  _ ← assert (cur <? last);
  let cur := if cur <? base then base else cur in
  '(buf, cur, h) ← circular_scatter_gather_rw h (rd (regs h) addr_reg) (rd (regs h) max_reg)
                     buf base last cur dir;
  Ok (buf, Host (ram h)
             (wr (regs h) cur_reg (SET_MASK (rd (regs h) cur_reg) NV_PAPU_GPOFCUR0_VALUE cur))).

Definition gp_fifo_rw h buf (index : Z) (dir : bool) : res (list Z * apu_host) :=
  if dir then
    _ ← assert (index <? GP_OUTPUT_FIFO_COUNT);
    fifo_transfer h buf (NV_PAPU_GPOFBASE0 + 0x10 * index) (NV_PAPU_GPOFEND0 + 0x10 * index)
      (NV_PAPU_GPOFCUR0 + 0x10 * index) NV_PAPU_GPFADDR NV_PAPU_GPFMAXSGE dir
  else
    _ ← assert (index <? GP_INPUT_FIFO_COUNT);
    fifo_transfer h buf (NV_PAPU_GPIFBASE0 + 0x10 * index) (NV_PAPU_GPIFEND0 + 0x10 * index)
      (NV_PAPU_GPIFCUR0 + 0x10 * index) NV_PAPU_GPFADDR NV_PAPU_GPFMAXSGE dir.

Definition ep_fifo_rw h buf (index : Z) (dir : bool) : res (list Z * apu_host) :=
  if dir then
    _ ← assert (index <? EP_OUTPUT_FIFO_COUNT);
    fifo_transfer h buf (NV_PAPU_EPOFBASE0 + 0x10 * index) (NV_PAPU_EPOFEND0 + 0x10 * index)
      (NV_PAPU_EPOFCUR0 + 0x10 * index) NV_PAPU_EPFADDR NV_PAPU_EPFMAXSGE dir
  else
    _ ← assert (index <? EP_INPUT_FIFO_COUNT);
    fifo_transfer h buf (NV_PAPU_EPIFBASE0 + 0x10 * index) (NV_PAPU_EPIFEND0 + 0x10 * index)
      (NV_PAPU_EPIFCUR0 + 0x10 * index) NV_PAPU_EPFADDR NV_PAPU_EPFMAXSGE dir.

(** The callbacks of the two DSPs. *)
Definition gp_bus : ScratchBus apu_host := {| scratch_rw := gp_scratch_rw; fifo_rw := gp_fifo_rw |}.
Definition ep_bus : ScratchBus apu_host := {| scratch_rw := ep_scratch_rw; fifo_rw := ep_fifo_rw |}.

(** ** Scatter/gather as a flat memory *)

(** Where byte [a] of the scattered memory lies, by the table at [sge_base]. *)
Definition page_address h (sge_base page : Z) : Z := ldl_le_phys h (sge_base + page * 8).

Definition phys h (sge_base a : Z) : Z :=
  page_address h sge_base (a / TARGET_PAGE_SIZE) + a mod TARGET_PAGE_SIZE.

(** The bytes [a] to [a + n - 1] are below the last page and inside the RAM (the code
    leaves out its last byte). *)
Definition sg_mapped h (sge_base max_sge a n : Z) : Prop :=
  ∀ i, a ≤ i < a + n → i / TARGET_PAGE_SIZE ≤ max_sge ∧ phys h sge_base i + 1 < ram_size.

(** Bytes stored one by one at the addresses [f] gives. *)
Fixpoint store_at (m : mem) (f : Z → Z) (a : Z) (l : list Z) : mem :=
  match l with
  | [] => m
  | b :: l => store_at (wr m (f a) b) f (a + 1) l
  end.

(** No byte of the range lies in a table entry of the range. *)
Definition sg_apart h (sge_base a n : Z) : Prop :=
  ∀ i j, a ≤ i < a + n → a ≤ j < a + n →
    let entry := sge_base + j / TARGET_PAGE_SIZE * 8 in ¬ (entry ≤ phys h sge_base i < entry + 4).

Ltac page_lia := unfold TARGET_PAGE_SIZE in *; Z.to_euclidean_division_equations; lia.

(** The loop, seen from the address of the next byte. *)
Definition sg fuel h (sge_base max_sge a : Z) buf (dir : bool) : res (list Z * apu_host) :=
  sg_loop fuel h sge_base max_sge (a / TARGET_PAGE_SIZE) (a mod TARGET_PAGE_SIZE)
    (TARGET_PAGE_SIZE - a mod TARGET_PAGE_SIZE) buf dir.

(** The bytes of one iteration. *)
Definition chunk_size (a : Z) buf : Z :=
  Z.min (Z.of_nat (length buf)) (TARGET_PAGE_SIZE - a mod TARGET_PAGE_SIZE).

Lemma chunk_bounds a buf : buf ≠ [] → 0 < chunk_size a buf ≤ Z.of_nat (length buf).
Proof.
  intros Hb. pose proof (Z.mod_pos_bound a TARGET_PAGE_SIZE ltac:(done)).
  unfold chunk_size. destruct buf; [done |]. cbn [length]. lia.
Qed.

Lemma sg_nil fuel h sge_base max_sge a dir : sg fuel h sge_base max_sge a [] dir = Ok ([], h).
Proof. by destruct fuel. Qed.

Lemma next_page a : let n := TARGET_PAGE_SIZE - a mod TARGET_PAGE_SIZE in
  (a + n) / TARGET_PAGE_SIZE = a / TARGET_PAGE_SIZE + 1 ∧ (a + n) mod TARGET_PAGE_SIZE = 0.
Proof.
  cbn zeta. pose proof (Z.div_mod a TARGET_PAGE_SIZE ltac:(done)) as E.
  replace (a + _) with ((a / TARGET_PAGE_SIZE + 1) * TARGET_PAGE_SIZE) by lia.
  by rewrite Z.div_mul, Z.mod_mul.
Qed.

(** One iteration. *)
Lemma sg_step fuel h sge_base max_sge a buf dir : buf ≠ [] → 0 ≤ a < 2 ^ 32 →
  sg (S fuel) h sge_base max_sge a buf dir =
  (_ ← assert (a / TARGET_PAGE_SIZE <=? max_sge);
   let paddr := u32 (phys h sge_base a) in
   let n := chunk_size a buf in
   _ ← assert (paddr + n <? ram_size);
   '(rest, h') ← sg fuel (if dir then Host (wr_bytes (ram h) paddr (take (Z.to_nat n) buf)) (regs h) else h)
                   sge_base max_sge (a + n) (drop (Z.to_nat n) buf) dir;
   Ok ((if dir then take (Z.to_nat n) buf else rd_bytes (ram h) paddr n) ++ rest, h')).
Proof.
  intros Hb Ha. unfold sg at 1. cbn [sg_loop].
  assert (0 ≤ a / TARGET_PAGE_SIZE < 2 ^ 20)
    by page_lia.
  destruct (Z.eqb_spec (Z.of_nat (length buf)) 0); [destruct buf; [done | cbn in *; lia] |].
  rewrite !(wrap_small 32 (a / _ * 8)), !(wrap_small 32 (_ + 1)) by lia.
  change (ldl_le_phys h (sge_base + _) + _) with (phys h sge_base a).
  replace (if Z.of_nat (length buf) <? _ then _ else _) with (chunk_size a buf)
    by (unfold chunk_size; destruct (Z.ltb_spec (Z.of_nat (length buf)) (TARGET_PAGE_SIZE - a mod TARGET_PAGE_SIZE)); lia).
  destruct (assert (_ <=? _)); [| done]. cbn. destruct (assert (_ <? _)); [| done]. cbn.
  set (h' := if dir then _ else h). destruct (decide (drop (Z.to_nat (chunk_size a buf)) buf = [])) as [-> | D].
  { rewrite sg_nil. by destruct fuel. }
  assert (E : chunk_size a buf = TARGET_PAGE_SIZE - a mod TARGET_PAGE_SIZE).
  { unfold chunk_size in *. destruct (Z.le_gt_cases (TARGET_PAGE_SIZE - a mod TARGET_PAGE_SIZE) (Z.of_nat (length buf))); [lia |].
    exfalso. apply D, drop_ge. lia. }
  unfold sg. rewrite E, (proj1 (next_page a)), (proj2 (next_page a)), Z.sub_0_r. done.
Qed.

(** *** Safety *)

(** RAM cells are bytes, registers are 32 bits wide. *)
Definition host_ok h : Prop := mem_ok 8 (ram h) ∧ mem_ok 32 (regs h).

(** A byte buffer of the same length is returned, or a fault in [F]. *)
Definition moved {A} (F : fault → Prop) (len : nat) (get : A → list Z * apu_host) (r : res A) : Prop :=
  match r with
  | Ok a => bytes (get a).1 ∧ length (get a).1 = len ∧ host_ok (get a).2
  | Fault e => F e
  end.

Definition asserts (e : fault) : Prop := e = assert_failed.
Definition asserts_or_hangs (e : fault) : Prop := e = assert_failed ∨ e = out_of_fuel.

Lemma ldl_bound h addr : host_ok h → 0 ≤ ldl_le_phys h addr < 2 ^ 32.
Proof.
  intros [Hr _]. unfold ldl_le_phys. destruct (_ <=? _); [| by apply wrap_bound].
  pose proof (le_value_bound (rd_bytes (ram h) addr 4) (rd_bytes_ok _ _ _ Hr)) as B.
  by rewrite rd_bytes_length in B.
Qed.

Lemma sg_loop_safe fuel h sge_base max_sge page offset size buf dir : host_ok h → bytes buf →
  (length buf ≤ fuel)%nat → 0 < size →
  moved asserts (length buf) id (sg_loop fuel h sge_base max_sge page offset size buf dir).
Proof.
  revert h page offset size buf. induction fuel as [| fuel IH]; intros h page offset size buf Hh Hb Hf Hs;
    cbn [sg_loop].
  { destruct buf; cbn in *; [split_and!; [constructor | done | apply Hh..] | lia]. }
  destruct (Z.eqb_spec (Z.of_nat (length buf)) 0) as [E | Hz]; [destruct buf; [| done]; split_and!; [constructor | done | apply Hh..] |].
  destruct (page <=? max_sge); [| done]. cbn [assert mbind res_bind].
  set (paddr := u32 _). set (n := if _ <? _ then _ else _).
  assert (Hn : 0 < n ≤ Z.of_nat (length buf)) by (unfold n; destruct (Z.ltb_spec (Z.of_nat (length buf)) size); lia).
  destruct (paddr + n <? ram_size); [| done]. cbn [assert mbind res_bind].
  set (h1 := if dir then _ else h). set (chunk := if dir then _ else _).
  assert (Hc : bytes chunk ∧ length chunk = Z.to_nat n).
  { unfold chunk. destruct dir.
    - split; [by apply Forall_take | apply length_take_le; lia].
    - split; [apply rd_bytes_ok, Hh | apply rd_bytes_length]. }
  assert (H1 : host_ok h1).
  { unfold h1. destruct dir; [| done]. split; [apply wr_bytes_ok; [apply Hh | by apply Forall_take] | apply Hh]. }
  pose proof (IH h1 (u32 (page + 1)) 0 TARGET_PAGE_SIZE (drop (Z.to_nat n) buf) H1
    ltac:(by apply Forall_drop) ltac:(rewrite length_drop; lia) ltac:(done)) as G.
  destruct (sg_loop fuel h1 _ _ _ _ _ _ _) as [[rest h2] | e]; [| exact G].
  destruct G as (G1 & G2 & G3), Hc as [C1 C2]. cbn in *. split_and!; [by apply Forall_app | | apply G3..].
  rewrite length_app, C2, G2, length_drop. lia.
Qed.

Lemma sg_rw_safe h sge_base max_sge buf a dir : host_ok h → bytes buf →
  moved asserts (length buf) id (scatter_gather_rw h sge_base max_sge buf a dir).
Proof. intros Hh Hb. apply sg_loop_safe; [done | done | lia | page_lia]. Qed.

Lemma circular_safe fuel h sge_base max_sge buf base last cur dir : host_ok h → bytes buf →
  moved asserts_or_hangs (length buf) (λ r, (r.1.1, r.2))
    (circular_loop fuel h sge_base max_sge buf base last cur dir).
Proof.
  revert h buf cur. induction fuel as [| fuel IH]; intros h buf cur Hh Hb; cbn [circular_loop];
    (destruct (Z.eqb_spec (Z.of_nat (length buf)) 0) as [E | Hz];
      [destruct buf; [| done]; split_and!; [constructor | done | apply Hh..] |]); [by right |].
  set (n := if _ <? _ then _ else _).
  assert (Hn : 0 ≤ n ≤ Z.of_nat (length buf)).
  { unfold n. pose proof (wrap_bound 32 (last - cur) ltac:(done)).
    destruct (Z.ltb_spec (Z.of_nat (length buf)) (u32 (last - cur))); lia. }
  destruct (_ && _); [| by left]. cbn [assert mbind res_bind].
  pose proof (sg_rw_safe h sge_base max_sge (take (Z.to_nat n) buf) cur dir Hh ltac:(by apply Forall_take)) as G.
  destruct (scatter_gather_rw _ _ _ _ _ _) as [[chunk h1] | e]; [| by left].
  destruct G as (G1 & G2 & G3). cbn [id fst snd mbind res_bind] in *.
  assert (K : ∀ c, moved asserts_or_hangs (length buf) (λ r, (r.1.1, r.2))
    ('(rest, cur, h) ← circular_loop fuel h1 sge_base max_sge (drop (Z.to_nat n) buf) base last c dir;
     Ok (chunk ++ rest, cur, h))).
  { intros c. pose proof (IH h1 (drop (Z.to_nat n) buf) c G3 ltac:(by apply Forall_drop)) as K.
    destruct (circular_loop fuel _ _ _ _ _ _ _ _) as [[[rest c2] h2] | e]; [| exact K].
    destruct K as (K1 & K2 & K3). cbn in *. split_and!; [by apply Forall_app | | apply K3..].
    rewrite length_app, G2, K2, length_take, length_drop. lia. }
  destruct (last <=? _); [| apply K]. destruct (_ =? _); [apply K | by left].
Qed.

Lemma fifo_safe h buf base_reg end_reg cur_reg addr_reg max_reg dir : host_ok h → bytes buf →
  moved asserts_or_hangs (length buf) id (fifo_transfer h buf base_reg end_reg cur_reg addr_reg max_reg dir).
Proof.
  intros Hh Hb. unfold fifo_transfer, circular_scatter_gather_rw.
  match goal with |- context [assert ?b] => destruct b; [| by left] end. cbn [assert mbind res_bind].
  set (c := if _ <? _ then _ else _).
  pose proof (circular_safe (length buf) h (rd (regs h) addr_reg) (rd (regs h) max_reg) buf
    (GET_MASK (rd (regs h) base_reg) NV_PAPU_GPOFBASE0_VALUE)
    (GET_MASK (rd (regs h) end_reg) NV_PAPU_GPOFEND0_VALUE) c dir Hh Hb) as G.
  destruct (circular_loop _ _ _ _ _ _ _ _ _) as [[[buf' c'] h'] | e]; [| exact G].
  destruct G as (G1 & G2 & G3 & G4). cbn in *. split_and!; [done.. |]. split; [done |].
  apply mem_ok_wr; [done |]. apply set_mask_bound; [apply G4 | done].
Qed.

(** *** The interface of the DMA engine *)

Ltac fifo_case :=
  match goal with |- context [assert ?b] => destruct b; [| by left] end; cbn [assert mbind res_bind];
  match goal with Hh : host_ok ?h, Hb : bytes ?buf |- context [fifo_transfer ?h ?buf ?a ?b ?c ?d ?e ?f] =>
    let G := fresh in pose proof (fifo_safe h buf a b c d e f Hh Hb) as G;
    destruct (fifo_transfer h buf a b c d e f) as [[] |]; exact G
  end.

Lemma gp_bus_ok : @ScratchBusOk apu_host gp_bus.
Proof.
  refine {| bus_ok := host_ok; bus_fault := asserts_or_hangs |}.
  - intros h buf a dir Hh Hb _. pose proof (sg_rw_safe h (rd (regs h) NV_PAPU_GPSADDR)
      (rd (regs h) NV_PAPU_GPSMAXSGE) buf a dir Hh Hb) as G.
    cbn. unfold gp_scratch_rw. destruct (scatter_gather_rw _ _ _ _ _ _) as [[buf' h'] | e]; [exact G | by left].
  - intros h buf i dir Hh Hb _. change (fifo_rw h buf i dir) with (gp_fifo_rw h buf i dir).
    unfold gp_fifo_rw. destruct dir; fifo_case.
Defined.

Lemma ep_bus_ok : @ScratchBusOk apu_host ep_bus.
Proof.
  refine {| bus_ok := host_ok; bus_fault := asserts_or_hangs |}.
  - intros h buf a dir Hh Hb _. pose proof (sg_rw_safe h (rd (regs h) NV_PAPU_EPSADDR)
      (rd (regs h) NV_PAPU_EPSMAXSGE) buf a dir Hh Hb) as G.
    cbn. unfold ep_scratch_rw. destruct (scatter_gather_rw _ _ _ _ _ _) as [[buf' h'] | e]; [exact G | by left].
  - intros h buf i dir Hh Hb _. change (fifo_rw h buf i dir) with (ep_fifo_rw h buf i dir).
    unfold ep_fifo_rw. destruct dir; fifo_case.
Defined.

(** *** Stores *)

Lemma fmap_seqZ_from {A} (k n : Z) (f : Z → A) : f <$> seqZ k n = (λ i, f (k + i)) <$> seqZ 0 n.
Proof.
  apply list_eq. intros i. rewrite !list_lookup_fmap. destruct (decide (Z.of_nat i < n)).
  - by rewrite !lookup_seqZ_lt by done.
  - by rewrite !lookup_seqZ_ge by lia.
Qed.

Lemma seqZ_cut a n len : 0 ≤ n ≤ len → seqZ a len = seqZ a n ++ seqZ (a + n) (len - n).
Proof. intros. rewrite <- seqZ_app by lia. f_equal. lia. Qed.

Lemma store_at_app m f a l1 l2 :
  store_at m f a (l1 ++ l2) = store_at (store_at m f a l1) f (a + Z.of_nat (length l1)) l2.
Proof.
  revert m a. induction l1 as [| b l1 IH]; intros m a; cbn [app store_at length]; [by rewrite Z.add_0_r |].
  rewrite IH. f_equal. lia.
Qed.

Lemma store_at_ext m f g a l : (∀ i, a ≤ i < a + Z.of_nat (length l) → f i = g i) →
  store_at m f a l = store_at m g a l.
Proof.
  revert m a. induction l as [| b l IH]; intros m a E; [done |]. cbn [store_at length] in *.
  rewrite E by lia. apply IH. intros. apply E. lia.
Qed.

Lemma store_at_from m f k a l : store_at m f (k + a) l = store_at m (λ i, f (k + i)) a l.
Proof.
  revert m a. induction l as [| b l IH]; intros m a; [done |]. cbn [store_at].
  by rewrite <- Z.add_assoc, IH.
Qed.

(** Consecutive addresses: the store is a copy. *)
Lemma store_at_wr_bytes m f a p l : (∀ i, a ≤ i < a + Z.of_nat (length l) → f i = p + (i - a)) →
  store_at m f a l = wr_bytes m p l.
Proof.
  revert m a p. induction l as [| b l IH]; intros m a p E; [done |]. cbn [store_at wr_bytes length] in *.
  rewrite E, Z.sub_diag, Z.add_0_r by lia. apply IH. intros. rewrite E by lia. lia.
Qed.

Lemma rd_store_at_other m f a l k : (∀ i, a ≤ i < a + Z.of_nat (length l) → f i ≠ k) →
  rd (store_at m f a l) k = rd m k.
Proof.
  revert m a. induction l as [| b l IH]; intros m a E; [done |]. cbn [store_at length] in *.
  rewrite IH by (intros; apply E; lia). apply rd_wr_ne, E. lia.
Qed.

Lemma rd_store_at m f a l (i : nat) :
  (∀ i j, a ≤ i < a + Z.of_nat (length l) → a ≤ j < a + Z.of_nat (length l) → f i = f j → i = j) →
  (i < length l)%nat → rd (store_at m f a l) (f (a + Z.of_nat i)) = l !!! i.
Proof.
  revert m a i. induction l as [| b l IH]; intros m a i I Hi; [cbn in Hi; lia |].
  cbn [store_at length] in *. destruct i as [| i].
  - rewrite Z.add_0_r, rd_store_at_other; [by rewrite rd_wr_eq |]. intros j Hj E. apply I in E; lia.
  - replace (a + Z.of_nat (S i)) with (a + 1 + Z.of_nat i) by lia. apply IH; [| lia].
    intros ? ? ? ?. apply I; lia.
Qed.

Lemma store_at_ok m f a l : mem_ok 8 m → bytes l → mem_ok 8 (store_at m f a l).
Proof.
  intros Hm Hl. revert m a Hm. induction Hl as [| b l Hb _ IH]; intros m a Hm; [done |].
  apply IH. by apply mem_ok_wr.
Qed.

(** *** The transfers *)

Context (Hram : ram_size ≤ 2 ^ 32).

Lemma ldl_ext h h' addr : (∀ k, addr ≤ k < addr + 4 → rd (ram h') k = rd (ram h) k) →
  ldl_le_phys h' addr = ldl_le_phys h addr.
Proof.
  intros E. unfold ldl_le_phys. destruct (_ <=? _); [| done]. f_equal. apply list_eq. intros i.
  destruct (decide (i < 4)%nat).
  - rewrite !rd_bytes_lookup by lia. f_equal. apply E. lia.
  - rewrite !lookup_ge_None_2; rewrite ?rd_bytes_length; try done; lia.
Qed.

(** Inside a page addresses are consecutive. *)
Lemma phys_page h sge_base a i : a ≤ i < a + (TARGET_PAGE_SIZE - a mod TARGET_PAGE_SIZE) →
  phys h sge_base i = phys h sge_base a + (i - a).
Proof.
  intros Hi. unfold phys. assert (i / TARGET_PAGE_SIZE = a / TARGET_PAGE_SIZE) as -> by page_lia. page_lia.
Qed.

(** The first iteration of a transfer that is mapped. *)
Lemma sg_mapped_step fuel h sge_base max_sge a buf dir : host_ok h → buf ≠ [] → 0 ≤ a < 2 ^ 32 →
  sg_mapped h sge_base max_sge a (Z.of_nat (length buf)) →
  let n := chunk_size a buf in let p := phys h sge_base a in
  sg (S fuel) h sge_base max_sge a buf dir =
  ('(rest, h') ← sg fuel (if dir then Host (wr_bytes (ram h) p (take (Z.to_nat n) buf)) (regs h) else h)
                   sge_base max_sge (a + n) (drop (Z.to_nat n) buf) dir;
   Ok ((if dir then take (Z.to_nat n) buf else rd_bytes (ram h) p n) ++ rest, h')).
Proof.
  intros Hh Hb Ha Hm n p. pose proof (chunk_bounds a buf Hb) as Hn. fold n in Hn. rewrite sg_step by done. cbn zeta. fold n.
  destruct (Hm a ltac:(lia)) as [M1 M2]. destruct (Hm (a + n - 1) ltac:(lia)) as [_ M3].
  rewrite (phys_page h sge_base a) in M3 by (unfold n, chunk_size in *; lia). fold p in M2, M3.
  assert (0 ≤ p).
  { unfold p, phys, page_address. pose proof (ldl_bound h (sge_base + a / TARGET_PAGE_SIZE * 8) Hh).
    pose proof (Z.mod_pos_bound a TARGET_PAGE_SIZE ltac:(done)). lia. }
  fold p. rewrite (wrap_small 32 p) by lia.
  rewrite (proj2 (Z.leb_le _ _) M1), (proj2 (Z.ltb_lt (p + n) ram_size)) by lia. done.
Qed.

Lemma sg_read fuel h sge_base max_sge a buf : host_ok h → (length buf ≤ fuel)%nat → 0 ≤ a →
  a + Z.of_nat (length buf) ≤ 2 ^ 32 → sg_mapped h sge_base max_sge a (Z.of_nat (length buf)) →
  sg fuel h sge_base max_sge a buf false =
  Ok ((λ i, rd (ram h) (phys h sge_base i)) <$> seqZ a (Z.of_nat (length buf)), h).
Proof.
  revert a buf. induction fuel as [| fuel IH]; intros a buf Hh Hf Ha Hl Hm.
  { destruct buf; [by rewrite sg_nil | cbn in Hf; lia]. }
  destruct (decide (buf = [])) as [-> | Hb]; [by rewrite sg_nil |].
  pose proof (chunk_bounds a buf Hb) as Hn. rewrite sg_mapped_step by (done || lia).
  cbn zeta. set (n := chunk_size a buf) in *. set (len := Z.of_nat (length buf)) in *.
  rewrite IH; rewrite ?length_drop; try done; try lia.
  2: { intros i Hi. apply Hm. lia. }
  cbn. do 2 f_equal. rewrite (seqZ_cut a n len), fmap_app by lia.
  replace (Z.of_nat (length buf - Z.to_nat n)) with (len - n) by lia. f_equal.
  unfold rd_bytes. apply list_eq. intros i. rewrite !list_lookup_fmap.
  destruct (decide (Z.of_nat i < n)).
  - rewrite !lookup_seqZ_lt by lia. cbn. rewrite (phys_page h sge_base a (a + Z.of_nat i)) by (unfold n, chunk_size in *; lia).
    do 2 f_equal. lia.
  - by rewrite !lookup_seqZ_ge by lia.
Qed.

(** Where the bytes of a transfer go is not changed by the transfer itself. *)
Lemma phys_stable h sge_base a n m : sg_apart h sge_base a n →
  (∀ k, (∀ i, a ≤ i < a + n → phys h sge_base i ≠ k) → rd m k = rd (ram h) k) →
  ∀ j, a ≤ j < a + n → phys (Host m (regs h)) sge_base j = phys h sge_base j.
Proof.
  intros A F j Hj. unfold phys, page_address. f_equal. apply ldl_ext. intros k Hk.
  apply F. intros i Hi <-. exact (A i j Hi Hj Hk).
Qed.

Lemma sg_write fuel h sge_base max_sge a buf : host_ok h → bytes buf → (length buf ≤ fuel)%nat → 0 ≤ a →
  a + Z.of_nat (length buf) ≤ 2 ^ 32 → sg_mapped h sge_base max_sge a (Z.of_nat (length buf)) →
  sg_apart h sge_base a (Z.of_nat (length buf)) →
  sg fuel h sge_base max_sge a buf true =
  Ok (buf, Host (store_at (ram h) (phys h sge_base) a buf) (regs h)).
Proof.
  revert h a buf. induction fuel as [| fuel IH]; intros h a buf Hh Hy Hf Ha Hl Hm Hd.
  { destruct buf; [rewrite sg_nil; by destruct h | cbn in Hf; lia]. }
  destruct (decide (buf = [])) as [-> | Hb]; [rewrite sg_nil; by destruct h |].
  pose proof (chunk_bounds a buf Hb) as Hn. rewrite sg_mapped_step by (done || lia).
  cbn zeta. set (n := chunk_size a buf) in *. set (k := Z.to_nat n). assert (Hk : Z.of_nat k = n) by lia.
  assert (Lk : length (take k buf) = k) by (apply length_take_le; lia).
  rewrite <- (store_at_wr_bytes _ (phys h sge_base) a).
  2: { intros i Hi. apply phys_page. unfold n, chunk_size in *. lia. }
  set (h1 := Host _ (regs h)).
  assert (P : ∀ j, a ≤ j < a + Z.of_nat (length buf) → phys h1 sge_base j = phys h sge_base j)
    by (apply phys_stable; [done |]; intros; apply rd_store_at_other; naive_solver lia).
  rewrite IH; rewrite ?length_drop; try lia.
  - cbn. do 2 f_equal; [apply take_drop |]. unfold h1. cbn [ram regs]. f_equal.
    trans (store_at (ram h) (phys h sge_base) a (take k buf ++ drop k buf)); [| by rewrite take_drop].
    rewrite store_at_app, Lk, Hk. apply store_at_ext.
    rewrite length_drop. intros i Hi. apply P. lia.
  - split; [apply store_at_ok; [apply Hh | by apply Forall_take] | apply Hh].
  - by apply Forall_drop.
  - intros i Hi. rewrite P by lia. apply Hm. lia.
  - intros i j Hi Hj. rewrite P by lia. apply Hd; lia.
Qed.

Lemma sg_rw_read h sge_base max_sge buf a : host_ok h → 0 ≤ a →
  a + Z.of_nat (length buf) ≤ 2 ^ 32 → sg_mapped h sge_base max_sge a (Z.of_nat (length buf)) →
  scatter_gather_rw h sge_base max_sge buf a false =
    Ok ((λ i, rd (ram h) (phys h sge_base i)) <$> seqZ a (Z.of_nat (length buf)), h).
Proof. intros. by apply sg_read. Qed.

Lemma sg_rw_write h sge_base max_sge buf a : host_ok h → bytes buf → 0 ≤ a →
  a + Z.of_nat (length buf) ≤ 2 ^ 32 → sg_mapped h sge_base max_sge a (Z.of_nat (length buf)) →
  sg_apart h sge_base a (Z.of_nat (length buf)) →
  scatter_gather_rw h sge_base max_sge buf a true =
    Ok (buf, Host (store_at (ram h) (phys h sge_base) a buf) (regs h)).
Proof. intros. by apply sg_write. Qed.

(** C24: the scattered memory behaves as one memory.  When the bytes are mapped, the page
    loop of [scatter_gather_rw] reads byte by byte what lies where the page table puts
    each byte; a transfer to memory stores its bytes, in order, at these addresses and
    touches nothing else, provided it does not overwrite the table entries it uses. *)
Theorem scatter_gather_rw_correct h sge_base max_sge buf a : host_ok h → bytes buf → 0 ≤ a →
  a + Z.of_nat (length buf) ≤ 2 ^ 32 → sg_mapped h sge_base max_sge a (Z.of_nat (length buf)) →
  scatter_gather_rw h sge_base max_sge buf a false =
    Ok ((λ i, rd (ram h) (phys h sge_base i)) <$> seqZ a (Z.of_nat (length buf)), h) ∧
  (sg_apart h sge_base a (Z.of_nat (length buf)) →
   scatter_gather_rw h sge_base max_sge buf a true =
     Ok (buf, Host (store_at (ram h) (phys h sge_base) a buf) (regs h))).
Proof. intros. split; [by apply sg_rw_read | intros; by apply sg_rw_write]. Qed.

(** No two bytes of the range share an address. *)
Definition sg_injective h (sge_base a n : Z) : Prop :=
  ∀ i j, a ≤ i < a + n → a ≤ j < a + n → phys h sge_base i = phys h sge_base j → i = j.

(** What a range needs to be a memory. *)
Record sg_memory h (sge_base max_sge a n : Z) : Prop := {
  sgm_range : 0 ≤ a ∧ a + n ≤ 2 ^ 32;
  sgm_mapped : sg_mapped h sge_base max_sge a n;
  sgm_apart : sg_apart h sge_base a n;
  sgm_injective : sg_injective h sge_base a n
}.

Lemma sg_write_read h sge_base max_sge buf a : host_ok h → bytes buf →
  sg_memory h sge_base max_sge a (Z.of_nat (length buf)) →
  ∃ h', scatter_gather_rw h sge_base max_sge buf a true = Ok (buf, h') ∧ regs h' = regs h ∧
    ∀ buf', length buf' = length buf → scatter_gather_rw h' sge_base max_sge buf' a false = Ok (buf, h').
Proof.
  intros Hh Hb [[R1 R2] M A I]. set (h' := Host (store_at (ram h) (phys h sge_base) a buf) (regs h)).
  assert (P : ∀ j, a ≤ j < a + Z.of_nat (length buf) → phys h' sge_base j = phys h sge_base j)
    by (apply phys_stable; [done |]; intros; by apply rd_store_at_other).
  assert (Hh' : host_ok h') by (split; [apply store_at_ok; [apply Hh | done] | apply Hh]).
  exists h'. split; [by apply sg_rw_write |]. split; [done |]. intros buf' E.
  rewrite sg_rw_read; rewrite ?E; try done; try lia.
  - do 2 f_equal. apply list_eq. intros i. rewrite list_lookup_fmap. destruct (decide (i < length buf)%nat).
    + rewrite lookup_seqZ_lt by lia. cbn. rewrite P by lia. rewrite rd_store_at by done.
      symmetry. by apply list_lookup_lookup_total_lt.
    + rewrite lookup_seqZ_ge by lia. by rewrite lookup_ge_None_2 by lia.
  - intros i Hi. rewrite P by done. by apply M.
Qed.

Lemma gp_memory : @ScratchMemory apu_host gp_bus gp_bus_ok.
Proof.
  refine {| scratch_mapped := λ h a n, sg_memory h (rd (regs h) NV_PAPU_GPSADDR) (rd (regs h) NV_PAPU_GPSMAXSGE) a (Z.of_nat n) |}.
  intros h buf a Hh Hb Hm. destruct (sg_write_read _ _ _ _ _ Hh Hb Hm) as (h' & W & E & R).
  exists buf, h'. split; [exact W |]. intros buf' _ L. exists h'. cbn. unfold gp_scratch_rw. rewrite E. by apply R.
Defined.

Lemma ep_memory : @ScratchMemory apu_host ep_bus ep_bus_ok.
Proof.
  refine {| scratch_mapped := λ h a n, sg_memory h (rd (regs h) NV_PAPU_EPSADDR) (rd (regs h) NV_PAPU_EPSMAXSGE) a (Z.of_nat n) |}.
  intros h buf a Hh Hb Hm. destruct (sg_write_read _ _ _ _ _ Hh Hb Hm) as (h' & W & E & R).
  exists buf, h'. split; [exact W |]. intros buf' _ L. exists h'. cbn. unfold ep_scratch_rw. rewrite E. by apply R.
Defined.

(** *** The FIFOs are rings *)

(** Position [i] bytes after [cur] in the ring from [base] to [last]. *)
Definition ring (base last cur i : Z) : Z := base + (cur - base + i) mod (last - base).

Lemma ring_range base last cur i : base < last → base ≤ ring base last cur i < last.
Proof. intros. unfold ring. pose proof (Z.mod_pos_bound (cur - base + i) (last - base)). lia. Qed.

Lemma ring_small base last cur i : base ≤ cur → 0 ≤ i → cur + i < last → ring base last cur i = cur + i.
Proof. intros. unfold ring. rewrite Z.mod_small by lia. lia. Qed.

Lemma ring_ring base last cur i j : base < last →
  ring base last (ring base last cur i) j = ring base last cur (i + j).
Proof.
  intros. unfold ring. f_equal.
  replace (base + (cur - base + i) mod (last - base) - base + j)
    with ((cur - base + i) mod (last - base) + j) by lia.
  rewrite Zplus_mod_idemp_l. f_equal. lia.
Qed.

(** Where the code goes on after a copy of [n] bytes. *)
Lemma ring_next base last cur n : base ≤ cur < last → 0 ≤ n ≤ last - cur →
  (if last <=? cur + n then _ ← assert (cur + n =? last); Ok base else Ok (cur + n)) =
  Ok (ring base last cur n).
Proof.
  intros Hc Hn. destruct (Z.leb_spec last (cur + n)).
  - rewrite (proj2 (Z.eqb_eq _ _)) by lia. cbn. f_equal. unfold ring.
    replace (cur - base + n) with (last - base) by lia. rewrite Z.mod_same by lia. lia.
  - by rewrite ring_small by lia.
Qed.

Lemma circular_nil fuel h sge_base max_sge base last cur dir :
  circular_loop fuel h sge_base max_sge [] base last cur dir = Ok ([], cur, h).
Proof. by destruct fuel. Qed.

Lemma circular_step fuel h sge_base max_sge buf base last cur dir : buf ≠ [] →
  0 ≤ base ≤ cur → cur < last → last < 2 ^ 32 →
  let n := Z.min (Z.of_nat (length buf)) (last - cur) in
  circular_loop (S fuel) h sge_base max_sge buf base last cur dir =
  ('(chunk, h) ← scatter_gather_rw h sge_base max_sge (take (Z.to_nat n) buf) cur dir;
   '(rest, c, h) ← circular_loop fuel h sge_base max_sge (drop (Z.to_nat n) buf) base last (ring base last cur n) dir;
   Ok (chunk ++ rest, c, h)).
Proof.
  intros Hb H0 Hc Hl n. cbn [circular_loop].
  destruct (Z.eqb_spec (Z.of_nat (length buf)) 0); [destruct buf; [done | cbn in *; lia] |].
  rewrite (wrap_small 32 (last - cur)) by lia.
  replace (if Z.of_nat (length buf) <? last - cur then _ else _) with n
    by (unfold n; destruct (Z.ltb_spec (Z.of_nat (length buf)) (last - cur)); lia).
  rewrite (wrap_small 32 (cur + n)) by lia. rewrite (proj2 (Z.leb_le base cur)), (proj2 (Z.leb_le (cur + n) last)) by lia.
  cbn [andb assert mbind res_bind]. destruct (scatter_gather_rw _ _ _ _ _ _) as [[chunk h1] |]; [| done].
  cbn [mbind res_bind]. by rewrite ring_next by lia.
Qed.

(** The ring lies in a memory. *)
Lemma sub_range h sge_base max_sge base last a n : base ≤ a → a + n ≤ last →
  (sg_mapped h sge_base max_sge base (last - base) → sg_mapped h sge_base max_sge a n) ∧
  (sg_apart h sge_base base (last - base) → sg_apart h sge_base a n).
Proof. intros ? ?. split; [intros M i Hi; apply M; lia | intros A i j Hi Hj; apply A; lia]. Qed.

Lemma circular_read fuel h sge_base max_sge buf base last cur : host_ok h → (length buf ≤ fuel)%nat →
  0 ≤ base ≤ cur → cur < last → last < 2 ^ 32 → sg_mapped h sge_base max_sge base (last - base) →
  circular_loop fuel h sge_base max_sge buf base last cur false =
  Ok ((λ i, rd (ram h) (phys h sge_base (ring base last cur i))) <$> seqZ 0 (Z.of_nat (length buf)),
      ring base last cur (Z.of_nat (length buf)), h).
Proof.
  intros Hh. revert buf cur. induction fuel as [| fuel IH]; intros buf cur Hf H0 Hc Hl Hm;
    (destruct (decide (buf = [])) as [-> | Hb];
      [rewrite circular_nil; cbn; by rewrite ring_small, Z.add_0_r by lia |]); [destruct buf; [done | cbn in Hf; lia] |].
  rewrite circular_step by done. cbn zeta. set (n := Z.min _ _). set (len := Z.of_nat (length buf)) in *.
  assert (Hn : 0 < n ≤ len) by (destruct buf; [done | cbn in *; lia]). set (k := Z.to_nat n).
  assert (Lk : Z.of_nat (length (take k buf)) = n) by (rewrite length_take_le; lia).
  assert (Ld : Z.of_nat (length (drop k buf)) = len - n) by (rewrite length_drop; lia).
  rewrite sg_rw_read by (done || lia || (apply (sub_range h sge_base max_sge base last); lia || done)).
  cbn [mbind res_bind]. pose proof (ring_range base last cur n ltac:(lia)).
  rewrite IH, Lk, Ld by (done || lia). cbn [mbind res_bind].
  rewrite ring_ring by lia. replace (n + (len - n)) with len by lia. do 3 f_equal.
  rewrite (seqZ_cut 0 n len), fmap_app by lia. f_equal.
  - rewrite (fmap_seqZ_from cur). apply list_fmap_ext. intros _ i Hi%list_elem_of_lookup_2%elem_of_seqZ.
    by rewrite ring_small by lia.
  - rewrite (fmap_seqZ_from (0 + n)). apply list_fmap_ext. intros _ i _. by rewrite ring_ring by lia.
Qed.

Lemma circular_write fuel h sge_base max_sge buf base last cur : host_ok h → bytes buf → (length buf ≤ fuel)%nat →
  0 ≤ base ≤ cur → cur < last → last < 2 ^ 32 → sg_mapped h sge_base max_sge base (last - base) →
  sg_apart h sge_base base (last - base) →
  circular_loop fuel h sge_base max_sge buf base last cur true =
  Ok (buf, ring base last cur (Z.of_nat (length buf)),
      Host (store_at (ram h) (λ i, phys h sge_base (ring base last cur i)) 0 buf) (regs h)).
Proof.
  revert h buf cur. induction fuel as [| fuel IH]; intros h buf cur Hh Hy Hf H0 Hc Hl Hm Hd;
    (destruct (decide (buf = [])) as [-> | Hb];
      [rewrite circular_nil; cbn; destruct h; by rewrite ring_small, Z.add_0_r by lia |]); [destruct buf; [done | cbn in Hf; lia] |].
  rewrite circular_step by done. cbn zeta. set (n := Z.min _ _). set (len := Z.of_nat (length buf)) in *.
  assert (Hn : 0 < n ≤ len) by (destruct buf; [done | cbn in *; lia]). set (k := Z.to_nat n).
  assert (Lk : Z.of_nat (length (take k buf)) = n) by (rewrite length_take_le; lia).
  assert (Ld : Z.of_nat (length (drop k buf)) = len - n) by (rewrite length_drop; lia).
  rewrite sg_rw_write by (done || lia || (by apply Forall_take) || (apply (sub_range h sge_base max_sge base last); lia || done)).
  cbn [mbind res_bind]. pose proof (ring_range base last cur n ltac:(lia)). set (h1 := Host _ (regs h)).
  assert (P : ∀ j, base ≤ j < base + (last - base) → phys h1 sge_base j = phys h sge_base j).
  { apply phys_stable; [done |]. intros j Hj. apply rd_store_at_other. intros i Hi. apply Hj. lia. }
  rewrite IH; try done; try lia.
  - cbn [mbind res_bind]. rewrite Ld, ring_ring by lia. replace (n + (len - n)) with len by lia.
    rewrite take_drop. do 3 f_equal. unfold h1. cbn [ram regs].
    set (g := λ i, phys h sge_base (ring base last cur i)).
    trans (store_at (ram h) g 0 (take k buf ++ drop k buf)); [| by rewrite take_drop].
    rewrite store_at_app, Lk, (Z.add_comm 0 n), (store_at_from _ g n 0).
    replace cur with (cur + 0) at 1 by lia. rewrite store_at_from.
    rewrite (store_at_ext _ (λ i, phys h sge_base (cur + i)) g)
      by (intros i Hi; unfold g; by rewrite ring_small by lia).
    apply store_at_ext. intros i Hi. pose proof (ring_range base last cur (n + i) ltac:(lia)).
    unfold g. by rewrite P, ring_ring by (rewrite ?ring_ring; lia).
  - split; [apply store_at_ok; [apply Hh | by apply Forall_take] | apply Hh].
  - by apply Forall_drop.
  - intros i Hi. rewrite P by lia. apply Hm. lia.
  - intros i j Hi Hj. rewrite P by lia. apply Hd; lia.
Qed.

(** *** The FIFO registers *)

(** A FIFO as its registers describe it. *)
Definition fifo_base h (base_reg : Z) : Z := GET_MASK (rd (regs h) base_reg) NV_PAPU_GPOFBASE0_VALUE.
Definition fifo_end h (end_reg : Z) : Z := GET_MASK (rd (regs h) end_reg) NV_PAPU_GPOFEND0_VALUE.
Definition fifo_cur h (cur_reg : Z) : Z := GET_MASK (rd (regs h) cur_reg) NV_PAPU_GPOFCUR0_VALUE.

Lemma fifo_fields h r : 0 ≤ fifo_base h r < 2 ^ 16 ∧ 0 ≤ fifo_end h r < 2 ^ 16 ∧ 0 ≤ fifo_cur h r < 2 ^ 22.
Proof.
  unfold fifo_base, fifo_end, fifo_cur. change NV_PAPU_GPOFBASE0_VALUE with (field 8 16).
  change NV_PAPU_GPOFEND0_VALUE with (field 8 16). change NV_PAPU_GPOFCUR0_VALUE with (field 2 22).
  split_and!; by apply get_field_bound.
Qed.

(** The FIFO after a transfer: its position register has moved. *)
Definition fifo_moved h (cur_reg cur : Z) : mem :=
  wr (regs h) cur_reg (SET_MASK (rd (regs h) cur_reg) NV_PAPU_GPOFCUR0_VALUE cur).

(** C23: the FIFOs are rings.  A transfer through a FIFO whose registers describe a
    non-empty, mapped ring moves byte [i] from or to the place [i] bytes after the current
    position, wrapping at the end; it leaves the position register that many bytes
    further, wrapped, and changes no other register and no other byte of memory. *)
Theorem fifo_transfer_correct h buf base_reg end_reg cur_reg addr_reg max_reg : host_ok h → bytes buf →
  let base := fifo_base h base_reg in let last := fifo_end h end_reg in
  let cur := Z.max base (fifo_cur h cur_reg) in let table := rd (regs h) addr_reg in
  let len := Z.of_nat (length buf) in
  base < last → fifo_cur h cur_reg < last → sg_mapped h table (rd (regs h) max_reg) base (last - base) →
  let at_ (i : Z) := phys h table (ring base last cur i) in
  fifo_transfer h buf base_reg end_reg cur_reg addr_reg max_reg false =
    Ok ((λ i, rd (ram h) (at_ i)) <$> seqZ 0 len,
        Host (ram h) (fifo_moved h cur_reg (ring base last cur len))) ∧
  (sg_apart h table base (last - base) →
   fifo_transfer h buf base_reg end_reg cur_reg addr_reg max_reg true =
     Ok (buf, Host (store_at (ram h) at_ 0 buf) (fifo_moved h cur_reg (ring base last cur len)))) ∧
  fifo_cur (Host (ram h) (fifo_moved h cur_reg (ring base last cur len))) cur_reg = ring base last cur len.
Proof.
  intros Hh Hb base last cur table len Hbl Hcl Hm at_.
  destruct (fifo_fields h base_reg) as (F1 & _ & _). destruct (fifo_fields h end_reg) as (_ & F2 & _).
  fold base in F1. fold last in F2. assert (Hc : 0 ≤ base ≤ cur ∧ cur < last) by lia.
  unfold fifo_transfer, circular_scatter_gather_rw. fold (fifo_base h base_reg) (fifo_end h end_reg) (fifo_cur h cur_reg).
  fold base last. rewrite (proj2 (Z.ltb_lt _ _) Hcl). cbn [assert mbind res_bind].
  replace (if _ <? base then _ else _) with cur
    by (unfold cur; destruct (Z.ltb_spec (fifo_cur h cur_reg) base); lia).
  split_and!.
  - fold table. by rewrite circular_read by (done || lia).
  - intros Ha. fold table. by rewrite circular_write by (done || lia).
  - unfold fifo_cur, fifo_moved. cbn [regs]. rewrite rd_wr_eq. change NV_PAPU_GPOFCUR0_VALUE with (field 2 22).
    apply get_set_field; [done.. | apply Hh |]. pose proof (ring_range base last cur len Hbl). lia.
Qed.

(** A ring of no bytes: no iteration makes progress. *)
Lemma circular_hangs fuel h sge_base max_sge buf base dir : host_ok h → buf ≠ [] → 0 ≤ base < 2 ^ 32 →
  circular_loop fuel h sge_base max_sge buf base base base dir = Fault out_of_fuel.
Proof.
  intros Hh Hb H0. induction fuel as [| fuel IH]; cbn [circular_loop];
    (destruct (Z.eqb_spec (Z.of_nat (length buf)) 0); [destruct buf; [done | cbn in *; lia] |]); [done |].
  rewrite Z.sub_diag. change (u32 0) with 0. rewrite (proj2 (Z.ltb_ge _ 0)) by lia.
  rewrite Z.add_0_r, (wrap_small 32 base), Z.leb_refl by lia. cbn [andb assert mbind res_bind Z.to_nat].
  rewrite take_0, drop_0, Z.eqb_refl. cbn [assert mbind res_bind]. change (scatter_gather_rw h sge_base max_sge [] base dir) with (Ok ([] : list Z, h)).
  cbn [mbind res_bind]. by rewrite IH.
Qed.

(** what FIFO registers the code does not survive.  The bounds are taken in units
    of 256 bytes and the position in units of 4: with byte addresses in the three
    registers, as their fields are laid out, a position at or above a 64th of the end
    fails the assertion; and when base and end are equal and the position is below them, the transfer of
    one byte never ends, however long it runs. *)
Theorem fifo_transfer_faults h buf base_reg end_reg cur_reg addr_reg max_reg dir : host_ok h →
  (rd (regs h) end_reg < 2 ^ 24 → rd (regs h) cur_reg < 2 ^ 24 → rd (regs h) end_reg ≤ 64 * rd (regs h) cur_reg →
   fifo_transfer h buf base_reg end_reg cur_reg addr_reg max_reg dir = Fault assert_failed) ∧
  (fifo_base h base_reg = fifo_end h end_reg → fifo_cur h cur_reg < fifo_base h base_reg → buf ≠ [] →
   fifo_transfer h buf base_reg end_reg cur_reg addr_reg max_reg dir = Fault out_of_fuel ∧
   ∀ fuel, circular_loop fuel h (rd (regs h) addr_reg) (rd (regs h) max_reg) buf
     (fifo_base h base_reg) (fifo_end h end_reg) (fifo_base h base_reg) dir = Fault out_of_fuel).
Proof.
  intros Hh. split.
  - intros He Hc Hle. pose proof (proj2 Hh cur_reg). pose proof (proj2 Hh end_reg). unfold fifo_transfer.
    change NV_PAPU_GPOFEND0_VALUE with (field 8 16). change NV_PAPU_GPOFCUR0_VALUE with (field 2 22).
    rewrite !get_field_div by done. match goal with |- context [assert ?b] => replace b with false; [done |] end.
    symmetry. apply Z.ltb_ge. rewrite !Z.mod_small by (Z.to_euclidean_division_equations; lia).
    change (2 ^ 8) with 256. change (2 ^ 2) with 4. Z.to_euclidean_division_equations; lia.
  - intros E Hc Hb. destruct (fifo_fields h base_reg) as (F1 & _ & _).
    assert (L : ∀ fuel, circular_loop fuel h (rd (regs h) addr_reg) (rd (regs h) max_reg) buf
      (fifo_base h base_reg) (fifo_end h end_reg) (fifo_base h base_reg) dir = Fault out_of_fuel)
      by (intros; rewrite <- E; apply circular_hangs; [done.. | lia]).
    split; [| exact L]. unfold fifo_transfer, circular_scatter_gather_rw.
    fold (fifo_base h base_reg) (fifo_end h end_reg) (fifo_cur h cur_reg).
    rewrite (proj2 (Z.ltb_lt _ (fifo_end h end_reg))), (proj2 (Z.ltb_lt _ (fifo_base h base_reg))) by lia.
    cbn [assert mbind res_bind]. by rewrite L.
Qed.

End memory.

(** ** Instances *)

Lemma range_forall (P : Z → Prop) a n : Forall P (seqZ a n) → ∀ i, a ≤ i < a + n → P i.
Proof. intros F i Hi. apply (proj1 (Forall_forall _ _) F). by apply elem_of_seqZ. Qed.

(** A RAM of 32 KB with a table of two pages at 0, and GP output FIFO 0 from 0x10 to 0x20
    at 0x1e. *)
Definition sample_host : apu_host :=
  Host (wr_bytes (wr_bytes ∅ 0 (le_bytes 4 0x2000)) 8 (le_bytes 4 0x4000))
    (wr (wr (wr (wr ∅ NV_PAPU_GPFMAXSGE 1) NV_PAPU_GPOFBASE0 0x1000) NV_PAPU_GPOFEND0 0x2000)
       NV_PAPU_GPOFCUR0 (0x1e * 4)).

Definition no_io (_ : Z) : Z := 0.

Lemma sample_host_ok : host_ok sample_host.
Proof.
  split; [repeat apply wr_bytes_ok; [done | apply le_bytes_byte..] |].
  repeat apply mem_ok_wr; done.
Qed.

Lemma sample_apart a n :
  bool_decide (Forall (λ i, Forall (λ j,
    ¬ (0 + j / TARGET_PAGE_SIZE * 8 ≤ phys 0x8000 no_io sample_host 0 i < 0 + j / TARGET_PAGE_SIZE * 8 + 4)) (seqZ a n)) (seqZ a n)) = true →
  sg_apart 0x8000 no_io sample_host 0 a n.
Proof.
  intros F%bool_decide_eq_true_1 i j Hi Hj. exact (range_forall _ _ _ (range_forall _ _ _ F i Hi) j Hj).
Qed.

Lemma sample_mapped a n :
  bool_decide (Forall (λ i, i / TARGET_PAGE_SIZE ≤ 1 ∧ phys 0x8000 no_io sample_host 0 i + 1 < 0x8000) (seqZ a n)) = true →
  sg_mapped 0x8000 no_io sample_host 0 1 a n.
Proof. intros F%bool_decide_eq_true_1 i Hi. exact (range_forall _ _ _ F i Hi). Qed.

(** Three bytes across the boundary of the two pages. *)
Lemma scatter_gather_rw_witness :
  scatter_gather_rw 0x8000 no_io sample_host 0 1 [1; 2; 3] 4094 true =
  Ok ([1; 2; 3], Host (wr (wr (wr (ram sample_host) 0x2ffe 1) 0x2fff 2) 0x4000 3) (regs sample_host)).
Proof.
  destruct (scatter_gather_rw_correct 0x8000 no_io ltac:(done) sample_host 0 1 [1; 2; 3] 4094) as [_ W].
  - exact sample_host_ok.
  - repeat constructor; done.
  - done.
  - done.
  - apply sample_mapped. by vm_compute.
  - rewrite W; [by vm_compute |]. apply sample_apart. by vm_compute.
Defined.

(** Four bytes through the FIFO, over its end. *)
Lemma fifo_transfer_witness :
  ∃ h', gp_fifo_rw 0x8000 no_io sample_host [1; 2; 3; 4] 0 true = Ok ([1; 2; 3; 4], h') ∧
    fifo_cur h' NV_PAPU_GPOFCUR0 = 0x12 ∧ rd (ram h') 0x2010 = 3.
Proof.
  destruct (fifo_transfer_correct 0x8000 no_io ltac:(done) sample_host [1; 2; 3; 4]
    NV_PAPU_GPOFBASE0 NV_PAPU_GPOFEND0 NV_PAPU_GPOFCUR0 NV_PAPU_GPFADDR NV_PAPU_GPFMAXSGE) as (_ & W & C).
  - exact sample_host_ok.
  - repeat constructor; done.
  - by vm_compute.
  - by vm_compute.
  - apply sample_mapped. by vm_compute.
  - eexists. split; [apply W; apply sample_apart; by vm_compute |]. split; vm_compute; reflexivity.
Defined.

(** The registers with byte addresses: from 0x1000 to 0x2000, at 0x1000. *)
Lemma fifo_transfer_faults_witness :
  gp_fifo_rw 0x8000 no_io (Host ∅ (wr (wr (wr ∅ NV_PAPU_GPOFBASE0 0x1000) NV_PAPU_GPOFEND0 0x2000)
    NV_PAPU_GPOFCUR0 0x1000)) [1] 0 true = Fault assert_failed ∧
  gp_fifo_rw 0x8000 no_io (Host ∅ (wr (wr ∅ NV_PAPU_GPOFBASE0 0x1000) NV_PAPU_GPOFEND0 0x1000)) [1] 0 true
    = Fault out_of_fuel.
Proof.
  split.
  - apply (fifo_transfer_faults 0x8000 no_io (Host ∅ (wr (wr (wr ∅ NV_PAPU_GPOFBASE0 0x1000) NV_PAPU_GPOFEND0 0x2000)
      NV_PAPU_GPOFCUR0 0x1000)) [1]); [| by vm_compute..].
    split; [done |]. by repeat apply mem_ok_wr.
  - apply (fifo_transfer_faults 0x8000 no_io (Host ∅ (wr (wr ∅ NV_PAPU_GPOFBASE0 0x1000) NV_PAPU_GPOFEND0 0x1000)) [1]);
      [| by vm_compute..]. split; [done |]. by repeat apply mem_ok_wr.
Defined.
