(* ===== verification/ApuFront.v ===== *)
(** * The audio unit

    src/hw/xbox/mcpx_apu.c: the register file, the front end that executes the methods
    the driver writes (voices and their lists live in guest memory), the windows onto the
    two DSPs, and the frame timer that walks the voice lists and runs the DSPs.  The
    voice processor proper is disabled in the source ([process_voice] has no body), so
    the walk mixes nothing. *)

From S2P Require Import Prelude Bytes Fields Dsp56 DspCore DspAlu DspCpu DspExec DspSafe DspStep DspTime DspDma Dsp Apu.
From Stdlib Require Import Ascii.

Definition NUM_SAMPLES_PER_FRAME := 32.
Definition NUM_MIXBINS := 32.

Definition NV_PAPU_ISTS := 0x1000.
Definition NV_PAPU_ISTS_GINTSTS := 1 .<< 0.
Definition NV_PAPU_ISTS_FETINTSTS := 1 .<< 4.
Definition NV_PAPU_IEN := 0x1004.
Definition NV_PAPU_FECTL := 0x1100.
Definition NV_PAPU_FECTL_FEMETHMODE := 0x000000E0.
Definition NV_PAPU_FECTL_FEMETHMODE_TRAPPED := 0x000000E0.
Definition NV_PAPU_FECTL_FETRAPREASON := 0x00000F00.
Definition NV_PAPU_FECTL_FETRAPREASON_REQUESTED := 0x00000F00.
Definition NV_PAPU_FECV := 0x1110.
Definition NV_PAPU_FEAV := 0x1118.
Definition NV_PAPU_FEAV_VALUE := 0x0000FFFF.
Definition NV_PAPU_FEAV_LST := 0x00030000.
Definition NV_PAPU_FEDECMETH := 0x1300.
Definition NV_PAPU_FEDECPARAM := 0x1304.
Definition NV_PAPU_FEMEMADDR := 0x1324.
Definition NV_PAPU_FEMEMDATA := 0x1334.
Definition NV_PAPU_FETFORCE1 := 0x1504.
Definition NV_PAPU_FETFORCE1_SE2FE_IDLE_VOICE := 1 .<< 15.
Definition NV_PAPU_SECTL := 0x2000.
Definition NV_PAPU_SECTL_XCNTMODE := 0x00000018.
Definition NV_PAPU_SECTL_XCNTMODE_OFF := 0.
Definition NV_PAPU_XGSCNT := 0x200C.
Definition NV_PAPU_VPVADDR := 0x202C.
Definition NV_PAPU_VPSGEADDR := 0x2030.
Definition NV_PAPU_TVL2D := 0x2054.
Definition NV_PAPU_CVL2D := 0x2058.
Definition NV_PAPU_NVL2D := 0x205C.
Definition NV_PAPU_TVL3D := 0x2060.
Definition NV_PAPU_CVL3D := 0x2064.
Definition NV_PAPU_NVL3D := 0x2068.
Definition NV_PAPU_TVLMP := 0x206C.
Definition NV_PAPU_CVLMP := 0x2070.
Definition NV_PAPU_NVLMP := 0x2074.

Definition NV_PAPU_GPXMEM := 0x0000.
Definition NV_PAPU_GPMIXBUF := 0x5000.
Definition NV_PAPU_GPYMEM := 0x6000.
Definition NV_PAPU_GPPMEM := 0xA000.
Definition NV_PAPU_GPRST := 0xFFFC.
Definition NV_PAPU_GPRST_GPRST := 1 .<< 0.
Definition NV_PAPU_GPRST_GPDSPRST := 1 .<< 1.
Definition NV_PAPU_EPXMEM := 0x0000.
Definition NV_PAPU_EPYMEM := 0x6000.
Definition NV_PAPU_EPPMEM := 0xA000.
Definition NV_PAPU_EPRST := 0xFFFC.
Definition GP_DSP_MIXBUF_BASE := 0x1400.

Definition NV1BA0_PIO_FREE := 0x10.
Definition NV1BA0_PIO_SET_ANTECEDENT_VOICE := 0x120.
Definition NV1BA0_PIO_SET_ANTECEDENT_VOICE_LIST_INHERIT := 0.
Definition NV1BA0_PIO_VOICE_ON := 0x124.
Definition NV1BA0_PIO_VOICE_ON_HANDLE := 0x0000FFFF.
Definition NV1BA0_PIO_VOICE_ON_ENVF := 0x0F000000.
Definition NV1BA0_PIO_VOICE_ON_ENVA := 0xF0000000.
Definition NV1BA0_PIO_VOICE_OFF := 0x128.
Definition NV1BA0_PIO_VOICE_OFF_HANDLE := 0x0000FFFF.
Definition NV1BA0_PIO_VOICE_PAUSE := 0x140.
Definition NV1BA0_PIO_VOICE_PAUSE_HANDLE := 0x0000FFFF.
Definition NV1BA0_PIO_VOICE_PAUSE_ACTION := 1 .<< 18.
Definition NV1BA0_PIO_SET_CURRENT_VOICE := 0x2F8.
Definition NV1BA0_PIO_SET_VOICE_CFG_VBIN := 0x300.
Definition NV1BA0_PIO_SET_VOICE_CFG_FMT := 0x304.
Definition NV1BA0_PIO_SET_VOICE_CFG_ENV0 := 0x308.
Definition NV1BA0_PIO_SET_VOICE_CFG_ENVA := 0x30C.
Definition NV1BA0_PIO_SET_VOICE_CFG_ENV1 := 0x310.
Definition NV1BA0_PIO_SET_VOICE_CFG_ENVF := 0x314.
Definition NV1BA0_PIO_SET_VOICE_CFG_MISC := 0x318.
Definition NV1BA0_PIO_SET_VOICE_TAR_VOLA := 0x360.
Definition NV1BA0_PIO_SET_VOICE_TAR_VOLB := 0x364.
Definition NV1BA0_PIO_SET_VOICE_TAR_VOLC := 0x368.
Definition NV1BA0_PIO_SET_VOICE_LFO_ENV := 0x36C.
Definition NV1BA0_PIO_SET_VOICE_TAR_PITCH := 0x37C.
Definition NV1BA0_PIO_SET_VOICE_TAR_PITCH_STEP := 0xFFFF0000.
Definition NV1BA0_PIO_SET_VOICE_CFG_BUF_BASE := 0x3A0.
Definition NV1BA0_PIO_SET_VOICE_CFG_BUF_LBO := 0x3A4.
Definition NV1BA0_PIO_SET_VOICE_BUF_CBO := 0x3D8.
Definition NV1BA0_PIO_SET_VOICE_CFG_BUF_EBO := 0x3DC.
Definition NV1BA0_PIO_SET_CURRENT_INBUF_SGE := 0x804.
Definition NV1BA0_PIO_SET_CURRENT_INBUF_SGE_HANDLE := 0xFFFFFFFF.
Definition NV1BA0_PIO_SET_CURRENT_INBUF_SGE_OFFSET := 0x808.
Definition NV1BA0_PIO_SET_CURRENT_INBUF_SGE_OFFSET_PARAMETER := 0xFFFFF000.
Definition NV1BA0_PIO_SET_OUTBUF_BA := 0x1000.
Definition NV1BA0_PIO_SET_OUTBUF_LEN := 0x1004.
Definition NV1BA0_PIO_SET_CURRENT_OUTBUF_SGE := 0x1800.
Definition NV1BA0_PIO_SET_CURRENT_OUTBUF_SGE_HANDLE := 0xFFFFFFFF.
Definition NV1BA0_PIO_SET_CURRENT_OUTBUF_SGE_OFFSET := 0x1808.
Definition NV1BA0_PIO_SET_CURRENT_OUTBUF_SGE_OFFSET_PARAMETER := 0xFFFFF000.
Definition SE2FE_IDLE_VOICE := 0x8000.

Definition NV_PAVS_SIZE := 0x80.
Definition NV_PAVS_VOICE_CFG_VBIN := 0x00.
Definition NV_PAVS_VOICE_CFG_FMT := 0x04.
Definition NV_PAVS_VOICE_CFG_ENV0 := 0x08.
Definition NV_PAVS_VOICE_CFG_ENV0_EA_DELAYTIME := 0xFFF .<< 12.
Definition NV_PAVS_VOICE_CFG_ENVA := 0x0C.
Definition NV_PAVS_VOICE_CFG_ENVA_EA_HOLDTIME := 0xFFF .<< 12.
Definition NV_PAVS_VOICE_CFG_ENV1 := 0x10.
Definition NV_PAVS_VOICE_CFG_ENVF := 0x14.
Definition NV_PAVS_VOICE_CFG_MISC := 0x18.
Definition NV_PAVS_VOICE_CUR_PSL_START := 0x20.
Definition NV_PAVS_VOICE_CUR_PSL_START_BA := 0x00FFFFFF.
Definition NV_PAVS_VOICE_CUR_PSH_SAMPLE := 0x24.
Definition NV_PAVS_VOICE_CUR_PSH_SAMPLE_LBO := 0x00FFFFFF.
Definition NV_PAVS_VOICE_CUR_ECNT := 0x34.
Definition NV_PAVS_VOICE_CUR_ECNT_EACOUNT := 0x0000FFFF.
Definition NV_PAVS_VOICE_CUR_ECNT_EFCOUNT := 0xFFFF0000.
Definition NV_PAVS_VOICE_PAR_STATE := 0x54.
Definition NV_PAVS_VOICE_PAR_STATE_PAUSED := 1 .<< 18.
Definition NV_PAVS_VOICE_PAR_STATE_ACTIVE_VOICE := 1 .<< 21.
Definition NV_PAVS_VOICE_PAR_STATE_EFCUR := 0xF .<< 24.
Definition NV_PAVS_VOICE_PAR_STATE_EACUR := 0xF .<< 28.
Definition NV_PAVS_VOICE_PAR_OFFSET := 0x58.
Definition NV_PAVS_VOICE_PAR_OFFSET_CBO := 0x00FFFFFF.
Definition NV_PAVS_VOICE_PAR_NEXT := 0x5C.
Definition NV_PAVS_VOICE_PAR_NEXT_EBO := 0x00FFFFFF.
Definition NV_PAVS_VOICE_TAR_VOLA := 0x60.
Definition NV_PAVS_VOICE_TAR_VOLB := 0x64.
Definition NV_PAVS_VOICE_TAR_VOLC := 0x68.
Definition NV_PAVS_VOICE_TAR_LFO_ENV := 0x6C.
Definition NV_PAVS_VOICE_TAR_PITCH_LINK := 0x7C.
Definition NV_PAVS_VOICE_TAR_PITCH_LINK_NEXT_VOICE_HANDLE := 0x0000FFFF.
Definition NV_PAVS_VOICE_TAR_PITCH_LINK_PITCH := 0xFFFF0000.

(** [voice_list_regs]: top, current and next of the 2D, 3D and MP lists. *)
Definition voice_list_regs : list (Z * Z * Z) :=
  [ (NV_PAPU_TVL2D, NV_PAPU_CVL2D, NV_PAPU_NVL2D);
    (NV_PAPU_TVL3D, NV_PAPU_CVL3D, NV_PAPU_NVL3D);
    (NV_PAPU_TVLMP, NV_PAPU_CVLMP, NV_PAPU_NVLMP) ].

(** [MCPXAPUState].  RAM and registers are in [host], which the callbacks of the DSPs
    reach too; [irq] is the level of the PCI interrupt line and [frame_timer] the time, in
    milliseconds, at which the timer is due. *)
Record MCPXAPUState := APU {
  host : apu_host;
  gp_dsp : @DSPState apu_host;
  gp_regs : mem;
  ep_dsp : @DSPState apu_host;
  ep_regs : mem;
  inbuf_sge_handle : Z;
  outbuf_sge_handle : Z;
  irq : bool;
  frame_timer : option Z
}.

#[global] Instance MCPXAPUState_eta : Eta MCPXAPUState := λ d,
  APU (host d) (gp_dsp d) (gp_regs d) (ep_dsp d) (ep_regs d) (inbuf_sge_handle d)
    (outbuf_sge_handle d) (irq d) (frame_timer d).

(** [d->regs[r]], and the assignment to it. *)
Definition areg (d : MCPXAPUState) (r : Z) : Z := rd (regs (host d)) r.

Definition set_areg (d : MCPXAPUState) (r v : Z) : MCPXAPUState :=
  d <| host := Host (ram (host d)) (wr (regs (host d)) r v) |>.

Section apu.

(** The size of the RAM, and what the loads and stores outside of it do (another device
    answers; it may change the RAM). *)
Context (ram_size : Z) (io_ldl : Z → Z) (io_stl : apu_host → Z → Z → apu_host).
(** The bounds of the DMA lists and of a time slice of a DSP. *)
Context (dma_fuel run_fuel : nat).
Implicit Types (d : MCPXAPUState).

Definition ldl (d : MCPXAPUState) (addr : Z) : Z := ldl_le_phys ram_size io_ldl (host d) addr.

Definition stl_le_phys (h : apu_host) (addr v : Z) : apu_host :=
  if addr + 4 <=? ram_size then Host (wr_bytes (ram h) addr (le_bytes 4 v)) (regs h)
  else io_stl h addr v.

Definition stl d (addr v : Z) : MCPXAPUState := d <| host := stl_le_phys (host d) addr v |>.

(** ** Voices *)

(** The address of the structure of a voice. *)
Definition voice_addr d (voice_handle : Z) : Z :=
  u32 (areg d NV_PAPU_VPVADDR + u32 (voice_handle * NV_PAVS_SIZE)).

Definition voice_get_mask d (voice_handle offset mask : Z) : res Z :=
  _ ← assert (voice_handle <? 0xFFFF);
  Ok ((ldl d (voice_addr d voice_handle + offset) .& mask) .>> ctz32 mask).

Definition voice_set_mask d (voice_handle offset mask val : Z) : res MCPXAPUState :=
  _ ← assert (voice_handle <? 0xFFFF);
  let v := ldl d (voice_addr d voice_handle + offset) .& u32 (.~ mask) in
  Ok (stl d (voice_addr d voice_handle + offset) (v .| (u32 (val .<< ctz32 mask) .& mask))).

Definition update_irq d : MCPXAPUState :=
  if nz (areg d NV_PAPU_IEN .& NV_PAPU_ISTS_GINTSTS)
     && nz ((areg d NV_PAPU_ISTS .& u32 (.~ NV_PAPU_ISTS_GINTSTS)) .& areg d NV_PAPU_IEN)
  then (set_areg d NV_PAPU_ISTS (areg d NV_PAPU_ISTS .| NV_PAPU_ISTS_GINTSTS)) <| irq := true |>
  else (set_areg d NV_PAPU_ISTS (areg d NV_PAPU_ISTS .& u32 (.~ NV_PAPU_ISTS_GINTSTS))) <| irq := false |>.

(** ** The register file *)

(** [clock_ns] is the virtual clock. *)
Definition mcpx_apu_read (clock_ns : Z) d (addr : Z) : Z :=
  if addr =? NV_PAPU_XGSCNT then clock_ns / 100
  else if addr <? 0x20000 then areg d addr
  else 0.

Definition mcpx_apu_write (clock_ms : Z) d (addr val : Z) : MCPXAPUState :=
  if addr =? NV_PAPU_ISTS then
    update_irq (set_areg d NV_PAPU_ISTS (areg d NV_PAPU_ISTS .& u32 (.~ val)))
  else if addr =? NV_PAPU_SECTL then
    let d := d <| frame_timer :=
      if (val .& NV_PAPU_SECTL_XCNTMODE) .>> 3 =? NV_PAPU_SECTL_XCNTMODE_OFF then None
      else Some (clock_ms + 10) |> in
    set_areg d addr (u32 val)
  else if addr =? NV_PAPU_FEMEMDATA then
    let d := stl d (areg d NV_PAPU_FEMEMADDR) (u32 val) in
    set_areg d addr (u32 val)
  else if addr <? 0x20000 then set_areg d addr (u32 val)
  else d.

(** ** The front end *)

(** The voice is added to the top of the selected list or after the antecedent voice. *)
Definition link_voice d (selected_handle : Z) : res MCPXAPUState :=
  let lst := GET_MASK (areg d NV_PAPU_FEAV) NV_PAPU_FEAV_LST in
  if negb (lst =? NV1BA0_PIO_SET_ANTECEDENT_VOICE_LIST_INHERIT) then
    match voice_list_regs !! Z.to_nat (lst - 1) with
    | None => Fault out_of_bounds
    | Some (top_reg, _, _) =>
        d ← voice_set_mask d selected_handle NV_PAVS_VOICE_TAR_PITCH_LINK
              NV_PAVS_VOICE_TAR_PITCH_LINK_NEXT_VOICE_HANDLE (areg d top_reg);
        Ok (set_areg d top_reg selected_handle)
    end
  else
    let antecedent_voice := GET_MASK (areg d NV_PAPU_FEAV) NV_PAPU_FEAV_VALUE in
    _ ← assert (negb (antecedent_voice =? 0xFFFF));
    next_handle ← voice_get_mask d antecedent_voice NV_PAVS_VOICE_TAR_PITCH_LINK
                    NV_PAVS_VOICE_TAR_PITCH_LINK_NEXT_VOICE_HANDLE;
    d ← voice_set_mask d selected_handle NV_PAVS_VOICE_TAR_PITCH_LINK
          NV_PAVS_VOICE_TAR_PITCH_LINK_NEXT_VOICE_HANDLE next_handle;
    voice_set_mask d antecedent_voice NV_PAVS_VOICE_TAR_PITCH_LINK
      NV_PAVS_VOICE_TAR_PITCH_LINK_NEXT_VOICE_HANDLE selected_handle.

(** The start of an envelope: its phase, and the count its phase starts with.  The two
    envelopes differ in the fields they use. *)
Definition start_envelope d (selected_handle start cur_mask delay_reg hold_reg count_mask : Z)
    : res MCPXAPUState :=
  d ← voice_set_mask d selected_handle NV_PAVS_VOICE_PAR_STATE cur_mask start;
  if start =? 1 then
    delay_time ← voice_get_mask d selected_handle delay_reg NV_PAVS_VOICE_CFG_ENV0_EA_DELAYTIME;
    voice_set_mask d selected_handle NV_PAVS_VOICE_CUR_ECNT count_mask (u16 delay_time * 16)
  else if start =? 2 then
    voice_set_mask d selected_handle NV_PAVS_VOICE_CUR_ECNT count_mask 0
  else if start =? 3 then
    hold_time ← voice_get_mask d selected_handle hold_reg NV_PAVS_VOICE_CFG_ENVA_EA_HOLDTIME;
    voice_set_mask d selected_handle NV_PAVS_VOICE_CUR_ECNT count_mask (u16 hold_time * 16)
  else Ok d.

Definition voice_on d (argument : Z) : res MCPXAPUState :=
  let selected_handle := argument .& NV1BA0_PIO_VOICE_ON_HANDLE in
  d ← link_voice d selected_handle;
  d ← start_envelope d selected_handle (GET_MASK argument NV1BA0_PIO_VOICE_ON_ENVA)
        NV_PAVS_VOICE_PAR_STATE_EACUR NV_PAVS_VOICE_CFG_ENV0 NV_PAVS_VOICE_CFG_ENVA
        NV_PAVS_VOICE_CUR_ECNT_EACOUNT;
  d ← start_envelope d selected_handle (GET_MASK argument NV1BA0_PIO_VOICE_ON_ENVF)
        NV_PAVS_VOICE_PAR_STATE_EFCUR NV_PAVS_VOICE_CFG_ENV1 NV_PAVS_VOICE_CFG_ENVF
        NV_PAVS_VOICE_CUR_ECNT_EFCOUNT;
  voice_set_mask d selected_handle NV_PAVS_VOICE_PAR_STATE NV_PAVS_VOICE_PAR_STATE_ACTIVE_VOICE 1.

(** The methods that store their argument in a field of the current voice: method,
    offset and mask. *)
Definition voice_methods : list (Z * (Z * Z)) :=
  [ (NV1BA0_PIO_SET_VOICE_CFG_VBIN, (NV_PAVS_VOICE_CFG_VBIN, 0xFFFFFFFF));
    (NV1BA0_PIO_SET_VOICE_CFG_FMT, (NV_PAVS_VOICE_CFG_FMT, 0xFFFFFFFF));
    (NV1BA0_PIO_SET_VOICE_CFG_ENV0, (NV_PAVS_VOICE_CFG_ENV0, 0xFFFFFFFF));
    (NV1BA0_PIO_SET_VOICE_CFG_ENVA, (NV_PAVS_VOICE_CFG_ENVA, 0xFFFFFFFF));
    (NV1BA0_PIO_SET_VOICE_CFG_ENV1, (NV_PAVS_VOICE_CFG_ENV1, 0xFFFFFFFF));
    (NV1BA0_PIO_SET_VOICE_CFG_ENVF, (NV_PAVS_VOICE_CFG_ENVF, 0xFFFFFFFF));
    (NV1BA0_PIO_SET_VOICE_CFG_MISC, (NV_PAVS_VOICE_CFG_MISC, 0xFFFFFFFF));
    (NV1BA0_PIO_SET_VOICE_TAR_VOLA, (NV_PAVS_VOICE_TAR_VOLA, 0xFFFFFFFF));
    (NV1BA0_PIO_SET_VOICE_TAR_VOLB, (NV_PAVS_VOICE_TAR_VOLB, 0xFFFFFFFF));
    (NV1BA0_PIO_SET_VOICE_TAR_VOLC, (NV_PAVS_VOICE_TAR_VOLC, 0xFFFFFFFF));
    (NV1BA0_PIO_SET_VOICE_LFO_ENV, (NV_PAVS_VOICE_TAR_LFO_ENV, 0xFFFFFFFF));
    (NV1BA0_PIO_SET_VOICE_CFG_BUF_BASE, (NV_PAVS_VOICE_CUR_PSL_START, NV_PAVS_VOICE_CUR_PSL_START_BA));
    (NV1BA0_PIO_SET_VOICE_CFG_BUF_LBO, (NV_PAVS_VOICE_CUR_PSH_SAMPLE, NV_PAVS_VOICE_CUR_PSH_SAMPLE_LBO));
    (NV1BA0_PIO_SET_VOICE_BUF_CBO, (NV_PAVS_VOICE_PAR_OFFSET, NV_PAVS_VOICE_PAR_OFFSET_CBO));
    (NV1BA0_PIO_SET_VOICE_CFG_BUF_EBO, (NV_PAVS_VOICE_PAR_NEXT, NV_PAVS_VOICE_PAR_NEXT_EBO)) ].

(** [CASE_4(v, step)]. *)
Definition case_4 (method v step : Z) : bool :=
  (method =? v) || (method =? v + step) || (method =? v + step * 2) || (method =? v + step * 3).

(** The front end reports an idle voice: it traps when the driver asked for it. *)
Definition idle_voice d : res MCPXAPUState :=
  if nz (areg d NV_PAPU_FETFORCE1 .& NV_PAPU_FETFORCE1_SE2FE_IDLE_VOICE) then
    let d := set_areg d NV_PAPU_FECTL (areg d NV_PAPU_FECTL .& u32 (.~ NV_PAPU_FECTL_FEMETHMODE)) in
    let d := set_areg d NV_PAPU_FECTL (areg d NV_PAPU_FECTL .| NV_PAPU_FECTL_FEMETHMODE_TRAPPED) in
    let d := set_areg d NV_PAPU_FECTL (areg d NV_PAPU_FECTL .& u32 (.~ NV_PAPU_FECTL_FETRAPREASON)) in
    let d := set_areg d NV_PAPU_FECTL (areg d NV_PAPU_FECTL .| NV_PAPU_FECTL_FETRAPREASON_REQUESTED) in
    let d := set_areg d NV_PAPU_ISTS (areg d NV_PAPU_ISTS .| NV_PAPU_ISTS_FETINTSTS) in
    Ok (update_irq d)
  else Fault assert_failed.

Definition fe_method d (method argument : Z) : res MCPXAPUState :=
  let d := set_areg d NV_PAPU_FEDECMETH method in
  let d := set_areg d NV_PAPU_FEDECPARAM argument in
  if method =? NV1BA0_PIO_SET_ANTECEDENT_VOICE then Ok (set_areg d NV_PAPU_FEAV argument)
  else if method =? NV1BA0_PIO_VOICE_ON then voice_on d argument
  else if method =? NV1BA0_PIO_VOICE_OFF then
    voice_set_mask d (argument .& NV1BA0_PIO_VOICE_OFF_HANDLE) NV_PAVS_VOICE_PAR_STATE
      NV_PAVS_VOICE_PAR_STATE_ACTIVE_VOICE 0
  else if method =? NV1BA0_PIO_VOICE_PAUSE then
    voice_set_mask d (argument .& NV1BA0_PIO_VOICE_PAUSE_HANDLE) NV_PAVS_VOICE_PAR_STATE
      NV_PAVS_VOICE_PAR_STATE_PAUSED (b2z (nz (argument .& NV1BA0_PIO_VOICE_PAUSE_ACTION)))
  else if method =? NV1BA0_PIO_SET_CURRENT_VOICE then Ok (set_areg d NV_PAPU_FECV argument)
  else if method =? NV1BA0_PIO_SET_VOICE_TAR_PITCH then
    voice_set_mask d (areg d NV_PAPU_FECV) NV_PAVS_VOICE_TAR_PITCH_LINK NV_PAVS_VOICE_TAR_PITCH_LINK_PITCH
      ((argument .& NV1BA0_PIO_SET_VOICE_TAR_PITCH_STEP) .>> 16)
  else if method =? NV1BA0_PIO_SET_CURRENT_INBUF_SGE then
    Ok (d <| inbuf_sge_handle := argument .& NV1BA0_PIO_SET_CURRENT_INBUF_SGE_HANDLE |>)
  else if method =? NV1BA0_PIO_SET_CURRENT_INBUF_SGE_OFFSET then
    let sge_address := u32 (areg d NV_PAPU_VPSGEADDR + u32 (inbuf_sge_handle d * 8)) in
    Ok (stl d sge_address (argument .& NV1BA0_PIO_SET_CURRENT_INBUF_SGE_OFFSET_PARAMETER))
  else if case_4 method NV1BA0_PIO_SET_OUTBUF_BA 8 || case_4 method NV1BA0_PIO_SET_OUTBUF_LEN 8 then Ok d
  else if method =? NV1BA0_PIO_SET_CURRENT_OUTBUF_SGE then
    Ok (d <| outbuf_sge_handle := argument .& NV1BA0_PIO_SET_CURRENT_OUTBUF_SGE_HANDLE |>)
  else if method =? NV1BA0_PIO_SET_CURRENT_OUTBUF_SGE_OFFSET then
    let sge_address := u32 (areg d NV_PAPU_VPSGEADDR + u32 (outbuf_sge_handle d * 8)) in
    Ok (stl d sge_address (argument .& NV1BA0_PIO_SET_CURRENT_OUTBUF_SGE_OFFSET_PARAMETER))
  else if method =? SE2FE_IDLE_VOICE then idle_voice d
  else
    match list_find (λ e, method = e.1) voice_methods with
    | Some (_, (_, (offset, mask))) => voice_set_mask d (areg d NV_PAPU_FECV) offset mask argument
    | None => Fault assert_failed
    end.

(** The methods [vp_write] passes on. *)
Definition is_method (addr : Z) : bool :=
  bool_decide (addr ∈ [NV1BA0_PIO_SET_ANTECEDENT_VOICE; NV1BA0_PIO_VOICE_ON; NV1BA0_PIO_VOICE_OFF;
    NV1BA0_PIO_VOICE_PAUSE; NV1BA0_PIO_SET_CURRENT_VOICE; NV1BA0_PIO_SET_VOICE_TAR_PITCH;
    NV1BA0_PIO_SET_CURRENT_INBUF_SGE; NV1BA0_PIO_SET_CURRENT_INBUF_SGE_OFFSET;
    NV1BA0_PIO_SET_CURRENT_OUTBUF_SGE; NV1BA0_PIO_SET_CURRENT_OUTBUF_SGE_OFFSET])
  || bool_decide (addr ∈ voice_methods.*1)
  || case_4 addr NV1BA0_PIO_SET_OUTBUF_BA 8 || case_4 addr NV1BA0_PIO_SET_OUTBUF_LEN 8.

Definition vp_read (addr : Z) : Z := if addr =? NV1BA0_PIO_FREE then 0x80 else 0.

Definition vp_write d (addr val : Z) : res MCPXAPUState :=
  if is_method addr then fe_method d addr (u32 val) else Ok d.

(** ** The windows onto the DSPs *)

(** The DSPs hold a pointer to the audio unit ([rw_opaque]): they work on its RAM and
    registers as these are when they are called. *)
Definition attach (h : apu_host) (dsp : @DSPState apu_host) : @DSPState apu_host :=
  Dsp (core dsp) (dma dsp) (save_cycles dsp) (interrupts dsp) h.

Definition on_gp (f : @DSPState apu_host → res (@DSPState apu_host)) d : res MCPXAPUState :=
  dsp ← f (attach (host d) (gp_dsp d));
  Ok (APU (rw_opaque dsp) dsp (gp_regs d) (ep_dsp d) (ep_regs d) (inbuf_sge_handle d)
        (outbuf_sge_handle d) (irq d) (frame_timer d)).

Definition on_ep (f : @DSPState apu_host → res (@DSPState apu_host)) d : res MCPXAPUState :=
  dsp ← f (attach (host d) (ep_dsp d));
  Ok (APU (rw_opaque dsp) (gp_dsp d) (gp_regs d) dsp (ep_regs d) (inbuf_sge_handle d)
        (outbuf_sge_handle d) (irq d) (frame_timer d)).

(** The callbacks each DSP was given by [mcpx_apu_realize]. *)
Notation gp_callbacks := (gp_bus ram_size io_ldl).
Notation ep_callbacks := (ep_bus ram_size io_ldl).

Definition proc_rst_write (bus : ScratchBus apu_host) (dsp : @DSPState apu_host) (oldval val : Z)
    : res (@DSPState apu_host) :=
  let up v := nz (v .& NV_PAPU_GPRST_GPRST) && nz (v .& NV_PAPU_GPRST_GPDSPRST) in
  if negb (nz (val .& NV_PAPU_GPRST_GPRST)) || negb (nz (val .& NV_PAPU_GPRST_GPDSPRST)) then
    Ok (dsp_reset dsp)
  else if (negb (nz (oldval .& NV_PAPU_GPRST_GPRST)) || negb (nz (oldval .& NV_PAPU_GPRST_GPDSPRST))) && up val
  then @dsp_bootstrap apu_host bus dsp
  else Ok dsp.

(** The case range [lo ... lo + n * 4 - 1]. *)
Definition window (addr lo n : Z) : bool := (lo <=? addr) && (addr <=? lo + n * 4 - 1).

(** The memory of a DSP behind an address of its window. *)
Definition gp_window (addr : Z) : option (ascii * Z) :=
  if window addr NV_PAPU_GPXMEM 0x1000 then Some ("X"%char, (addr - NV_PAPU_GPXMEM) / 4)
  else if window addr NV_PAPU_GPMIXBUF 0x400 then
    Some ("X"%char, GP_DSP_MIXBUF_BASE + (addr - NV_PAPU_GPMIXBUF) / 4)
  else if window addr NV_PAPU_GPYMEM 0x800 then Some ("Y"%char, (addr - NV_PAPU_GPYMEM) / 4)
  else if window addr NV_PAPU_GPPMEM 0x1000 then Some ("P"%char, (addr - NV_PAPU_GPPMEM) / 4)
  else None.

Definition ep_window (addr : Z) : option (ascii * Z) :=
  if window addr NV_PAPU_EPXMEM 0xC00 then Some ("X"%char, (addr - NV_PAPU_EPXMEM) / 4)
  else if window addr NV_PAPU_EPYMEM 0x100 then Some ("Y"%char, (addr - NV_PAPU_EPYMEM) / 4)
  else if window addr NV_PAPU_EPPMEM 0x1000 then Some ("P"%char, (addr - NV_PAPU_EPPMEM) / 4)
  else None.

(** The regions have 0x10000 bytes, so that [addr] indexes the register arrays. *)
Definition gp_read d (addr size : Z) : res Z :=
  _ ← assert (size =? 4);
  _ ← assert (addr mod 4 =? 0);
  match gp_window addr with
  | Some (space, a) => @dsp_read_memory apu_host gp_callbacks dma_fuel (attach (host d) (gp_dsp d)) space a
  | None => _ ← in_bounds (addr <? 0x10000); Ok (rd (gp_regs d) addr)
  end.

Definition gp_write d (addr val size : Z) : res MCPXAPUState :=
  _ ← assert (size =? 4);
  _ ← assert (addr mod 4 =? 0);
  match gp_window addr with
  | Some (space, a) => on_gp (λ dsp, @dsp_write_memory apu_host gp_callbacks dma_fuel dsp space a (u32 val)) d
  | None =>
      if addr =? NV_PAPU_GPRST then
        d ← on_gp (λ dsp, proc_rst_write gp_callbacks dsp (rd (gp_regs d) NV_PAPU_GPRST) (u32 val)) d;
        Ok (d <| gp_regs := wr (gp_regs d) NV_PAPU_GPRST (u32 val) |>)
      else
        _ ← in_bounds (addr <? 0x10000);
        Ok (d <| gp_regs := wr (gp_regs d) addr (u32 val) |>)
  end.

Definition ep_read d (addr size : Z) : res Z :=
  _ ← assert (size =? 4);
  _ ← assert (addr mod 4 =? 0);
  match ep_window addr with
  | Some (space, a) => @dsp_read_memory apu_host ep_callbacks dma_fuel (attach (host d) (ep_dsp d)) space a
  | None => _ ← in_bounds (addr <? 0x10000); Ok (rd (ep_regs d) addr)
  end.

Definition ep_write d (addr val size : Z) : res MCPXAPUState :=
  _ ← assert (size =? 4);
  _ ← assert (addr mod 4 =? 0);
  match ep_window addr with
  | Some (space, a) => on_ep (λ dsp, @dsp_write_memory apu_host ep_callbacks dma_fuel dsp space a (u32 val)) d
  | None =>
      if addr =? NV_PAPU_EPRST then
        d ← on_ep (λ dsp, proc_rst_write ep_callbacks dsp (rd (ep_regs d) NV_PAPU_EPRST) (u32 val)) d;
        Ok (d <| ep_regs := wr (ep_regs d) NV_PAPU_EPRST (u32 val) |>)
      else
        _ ← in_bounds (addr <? 0x10000);
        Ok (d <| ep_regs := wr (ep_regs d) addr (u32 val) |>)
  end.

(** ** The frame timer *)

(** [process_voice] mixes a voice into the bins; its body is disabled. *)
Definition process_voice d (voice : Z) : res MCPXAPUState := Ok d.

(** The walk along one voice list. *)
Fixpoint walk_list (fuel : nat) d (current next : Z) : res MCPXAPUState :=
  if areg d current =? 0xFFFF then Ok d
  else
    match fuel with
    | O => Fault out_of_fuel
    | S fuel =>
        handle ← voice_get_mask d (areg d current) NV_PAVS_VOICE_TAR_PITCH_LINK
                   NV_PAVS_VOICE_TAR_PITCH_LINK_NEXT_VOICE_HANDLE;
        let d := set_areg d next handle in
        active ← voice_get_mask d (areg d current) NV_PAVS_VOICE_PAR_STATE
                   NV_PAVS_VOICE_PAR_STATE_ACTIVE_VOICE;
        d ← (if nz active then process_voice d (areg d current)
             else fe_method d SE2FE_IDLE_VOICE (areg d current));
        walk_list fuel (set_areg d current (areg d next)) current next
    end.

(** All voice lists from the given ones on. *)
Fixpoint walk_lists (fuel : nat) d (lists : list (Z * Z * Z)) : res MCPXAPUState :=
  match lists with
  | [] => Ok d
  | (top, current, next) :: lists =>
      d ← walk_list fuel (set_areg d current (areg d top)) current next;
      walk_lists fuel d lists
  end.

(** The mix bins, which hold zeroes, are written to the mix buffer of the GP. *)
Fixpoint write_mixbins (dsp : @DSPState apu_host) (addrs : list Z) : res (@DSPState apu_host) :=
  match addrs with
  | [] => Ok dsp
  | a :: addrs =>
      dsp ← @dsp_write_memory apu_host gp_callbacks dma_fuel dsp "X"%char (GP_DSP_MIXBUF_BASE + a) (0 .& 0xFFFFFF);
      write_mixbins dsp addrs
  end.

(** [mixbin * 0x20 + sample], in the order of the two loops. *)
Definition mixbin_addrs : list Z :=
  concat ((λ mixbin, (λ sample, mixbin * 0x20 + sample) <$> seqZ 0 NUM_SAMPLES_PER_FRAME) <$> seqZ 0 NUM_MIXBINS).

Definition running (v : Z) : bool := nz (v .& NV_PAPU_GPRST_GPRST) && nz (v .& NV_PAPU_GPRST_GPDSPRST).

Definition run_gp (dsp : @DSPState apu_host) : res (@DSPState apu_host) :=
  match @dsp_run apu_host gp_callbacks dma_fuel run_fuel (dsp_start_frame dsp) 1000 with
  | Some r => r
  | None => Fault out_of_fuel
  end.

Definition se_frame (clock_ms : Z) (fuel : nat) d : res MCPXAPUState :=
  let d := d <| frame_timer := Some (clock_ms + 10) |> in
  d ← walk_lists fuel d voice_list_regs;
  d ← on_gp (λ dsp, write_mixbins dsp mixbin_addrs) d;
  d ← (if running (rd (gp_regs d) NV_PAPU_GPRST) then on_gp run_gp d else Ok d);
  if running (rd (ep_regs d) NV_PAPU_EPRST) then on_ep (λ dsp, Ok (dsp_start_frame dsp)) d else Ok d.

(** ** Creation *)

(** [mcpx_apu_realize], on a unit that starts zeroed, and [mcpx_apu_init], which hands it
    the RAM. *)
Definition mcpx_apu_realize (ram : mem) : MCPXAPUState :=
  let h := Host ram ∅ in APU h (dsp_init h) ∅ (dsp_init h) ∅ 0 0 false None.

(** ** Voices as records

    Seen from the front end, guest memory is an array of voices of 32 words. *)

Context (Hram : ram_size ≤ 2 ^ 32).

(** The whole array of voices lies in the RAM. *)
Definition voices_ok d : Prop :=
  host_ok (host d) ∧ areg d NV_PAPU_VPVADDR + 0x10000 * NV_PAVS_SIZE ≤ ram_size.

(** Word [offset] of voice [h]. *)
Definition vword d (h offset : Z) : Z := ldl d (areg d NV_PAPU_VPVADDR + h * NV_PAVS_SIZE + offset).

Definition vvalid (h offset : Z) : Prop := 0 ≤ h < 0xFFFF ∧ 0 ≤ offset < NV_PAVS_SIZE ∧ offset mod 4 = 0.

Lemma vword_bound d h offset : voices_ok d → 0 ≤ vword d h offset < 2 ^ 32.
Proof. intros [Hh _]. by apply ldl_bound. Qed.

Lemma voice_addr_ok d h : voices_ok d → 0 ≤ h < 0xFFFF →
  voice_addr d h = areg d NV_PAPU_VPVADDR + h * NV_PAVS_SIZE.
Proof.
  intros [[_ Hr] Hf] Hh. pose proof (Hr NV_PAPU_VPVADDR). unfold voice_addr, areg, NV_PAVS_SIZE in *.
  by rewrite !wrap_small by (rewrite ?wrap_small; lia).
Qed.

Lemma host_stl d a v : a + 4 ≤ ram_size →
  host (stl d a v) = Host (wr_bytes (ram (host d)) a (le_bytes 4 v)) (regs (host d)).
Proof.
  intros Hf. change (host (stl d a v)) with (stl_le_phys (host d) a v). unfold stl_le_phys.
  by rewrite (proj2 (Z.leb_le _ _) Hf).
Qed.

(** A load after a store to the same word, and to another. *)
Lemma ldl_stl_eq d a v : a + 4 ≤ ram_size → 0 ≤ v < 2 ^ 32 → ldl (stl d a v) a = v.
Proof.
  intros Hf Hv. unfold ldl, ldl_le_phys. rewrite host_stl, (proj2 (Z.leb_le _ _) Hf) by done. cbn [ram].
  pose proof (rd_bytes_wr (ram (host d)) a (le_bytes 4 v)) as E. rewrite le_bytes_length in E.
  change (Z.of_nat 4) with 4 in E. rewrite E. by apply le_value_bytes.
Qed.

Lemma ldl_stl_ne d a b v : a + 4 ≤ ram_size → a + 4 ≤ b ∨ b + 4 ≤ a → ldl (stl d a v) b = ldl d b.
Proof.
  intros Hf Hd. unfold ldl. rewrite host_stl by done. apply ldl_ext. cbn [ram]. intros k Hk.
  rewrite rd_wr_bytes, le_bytes_length. by rewrite decide_False by lia.
Qed.

(** [d'] is [d] with some words of voice [h], at [offsets], changed. *)
Record touches d d' (h : Z) (offsets : list Z) : Prop := {
  th_ok : voices_ok d';
  th_regs : regs (host d') = regs (host d);
  th_words h' o : vvalid h' o → ¬ (h' = h ∧ o ∈ offsets) → vword d' h' o = vword d h' o
}.

Lemma touches_refl d h offsets : voices_ok d → touches d d h offsets.
Proof. by split. Qed.

Lemma touches_trans d1 d2 d3 h offsets : touches d1 d2 h offsets → touches d2 d3 h offsets → touches d1 d3 h offsets.
Proof.
  intros [? E1 W1] [? E2 W2]. split; [done | congruence |]. intros h' o V N. by rewrite W2, W1.
Qed.

Lemma touches_weaken d d' h offsets offsets' : offsets ⊆ offsets' → touches d d' h offsets → touches d d' h offsets'.
Proof. intros S [? E W]. split; [done | done |]. intros h' o V N. apply W; [done |]. set_solver. Qed.

Lemma voice_get_ok d h offset mask : voices_ok d → vvalid h offset →
  voice_get_mask d h offset mask = Ok (GET_MASK (vword d h offset) mask).
Proof.
  intros Hd ([Hh Hl] & _). unfold voice_get_mask. rewrite (proj2 (Z.ltb_lt _ _) Hl).
  by rewrite voice_addr_ok.
Qed.

(** A field of a voice is set and nothing else. *)
Lemma voice_set_ok d h offset lo w val : voices_ok d → vvalid h offset → 0 ≤ lo → 0 < w → lo + w ≤ 32 →
  ∃ d', voice_set_mask d h offset (field lo w) val = Ok d' ∧ touches d d' h [offset] ∧
    vword d' h offset = SET_MASK (vword d h offset) (field lo w) val.
Proof.
  intros Hd Hv Hlo Hw Hf. destruct Hv as ([Hh Hl] & Ho & Hm). unfold voice_set_mask.
  rewrite (proj2 (Z.ltb_lt _ _) Hl). cbn [assert mbind res_bind]. rewrite voice_addr_ok by done.
  set (a := areg d NV_PAPU_VPVADDR + h * NV_PAVS_SIZE + offset).
  set (v := _ .| _). exists (stl d a v).
  assert (Ev : v = SET_MASK (vword d h offset) (field lo w) val) by done.
  pose proof (vword_bound d h offset Hd) as Hb. pose proof (set_field_bound lo w Hlo Hw Hf _ val Hb) as Hvb.
  rewrite <- Ev in Hvb. pose proof (proj2 (proj1 Hd) NV_PAPU_VPVADDR) as Hr. pose proof (proj2 Hd) as Hs.
  unfold areg, NV_PAVS_SIZE in *.
  assert (Ha : 0 ≤ a ∧ a + 4 ≤ ram_size) by (unfold a; Z.to_euclidean_division_equations; lia).
  assert (Er : regs (host (stl d a v)) = regs (host d)) by (rewrite host_stl; [done | lia]).
  split; [done |]. split; [split |].
  - split; [split |].
    + rewrite host_stl by lia. cbn [ram]. apply wr_bytes_ok; [apply Hd | apply le_bytes_byte].
    + rewrite Er. apply Hd.
    + unfold areg. rewrite Er. exact Hs.
  - exact Er.
  - intros h' o ([Hh' Hl'] & Ho' & Hm') N. unfold vword, areg, NV_PAVS_SIZE. rewrite Er. apply ldl_stl_ne; [lia |].
    unfold a, areg, NV_PAVS_SIZE in *. destruct (decide (h' = h)) as [-> |]; [| Z.to_euclidean_division_equations; lia].
    assert (o ≠ offset) by (intros ->; apply N; set_solver). Z.to_euclidean_division_equations; lia.
  - rewrite <- Ev. unfold vword, areg. rewrite Er. apply (ldl_stl_eq d a v); [lia | done].
Qed.

(** ** Voice lists *)

(** The voice after [h] in its list. *)
Definition link d (h : Z) : Z :=
  GET_MASK (vword d h NV_PAVS_VOICE_TAR_PITCH_LINK) NV_PAVS_VOICE_TAR_PITCH_LINK_NEXT_VOICE_HANDLE.

(** The voices reached from [h], up to the end mark. *)
Fixpoint linked d (h : Z) (l : list Z) : Prop :=
  match l with
  | [] => h = 0xFFFF
  | x :: l => h = x ∧ 0 ≤ x < 0xFFFF ∧ linked d (link d x) l
  end.

(** The voice [h] behind [a] in a list. *)
Fixpoint insert_after (a h : Z) (l : list Z) : list Z :=
  match l with
  | [] => []
  | x :: l => if decide (x = a) then x :: h :: l else x :: insert_after a h l
  end.

(** Where VOICE_ON puts voice [h]: at the top of list [lst], or behind [ante] when [lst] is 0.
    [i] is the number of the list that holds [l]. *)
Definition placed (lst ante h : Z) (i : Z) (l : list Z) : list Z :=
  if lst =? NV1BA0_PIO_SET_ANTECEDENT_VOICE_LIST_INHERIT then insert_after ante h l
  else if lst =? i then h :: l else l.

Lemma linked_functional d h l1 l2 : linked d h l1 → linked d h l2 → l1 = l2.
Proof.
  revert h l2. induction l1 as [| x l1 IH]; intros h [| y l2]; cbn; [done | lia | lia |].
  intros (-> & _ & L1) (-> & _ & L2). f_equal. by eapply IH.
Qed.

Lemma linked_suffix d h l1 x l2 : linked d h (l1 ++ x :: l2) → linked d x (x :: l2).
Proof.
  revert h. induction l1 as [| y l1 IH]; intros h; cbn; [by intros (-> & L) | intros (_ & _ & L); by eapply IH].
Qed.

(** A list that ends repeats no voice. *)
Lemma linked_nodup d h l : linked d h l → NoDup l.
Proof.
  revert h. induction l as [| x l IH]; intros h L; [constructor |]. constructor.
  - intros (l1 & l2 & ->)%list_elem_of_split. pose proof L as (-> & _ & L').
    pose proof (linked_functional _ _ _ _ L (linked_suffix _ _ _ _ _ L')) as E.
    apply (f_equal length) in E. cbn in E. rewrite length_app in E. cbn in E. lia.
  - destruct L as (_ & _ & L). by eapply IH.
Qed.

Lemma linked_members d h l x : linked d h l → x ∈ l → 0 ≤ x < 0xFFFF.
Proof.
  revert h. induction l as [| y l IH]; intros h L Hx; [by apply elem_of_nil in Hx |].
  destruct L as (_ & Hy & L). apply elem_of_cons in Hx as [-> | Hx]; [done | by eapply IH].
Qed.

Lemma linked_ext d d' h l : (∀ x, x ∈ l → link d' x = link d x) → linked d h l → linked d' h l.
Proof.
  revert h. induction l as [| x l IH]; intros h E; cbn; [done |]. intros (-> & Hx & L).
  split; [done |]. split; [done |]. rewrite E by set_solver. apply IH; [set_solver | done].
Qed.

Lemma linked_insert d d' a v h l : linked d v l → h ∉ l → 0 ≤ h < 0xFFFF → (a ∈ l → link d' a = h ∧ link d' h = link d a) →
  (∀ x, x ∈ l → x ≠ a → link d' x = link d x) → linked d' v (insert_after a h l).
Proof.
  intros L. pose proof (linked_nodup _ _ _ L) as N. revert v L.
  induction l as [| x l IH]; intros v L Hh Hb Ha E; [done |]. cbn [insert_after].
  destruct L as (-> & Hx & L). apply NoDup_cons in N as [Nx N]. case_decide as D.
  - subst x. destruct Ha as [A1 A2]; [set_solver |]. cbn. split_and!; try done; try lia.
    rewrite A2. apply (linked_ext d); [| done]. intros y Hy. apply E; [set_solver |]. intros ->. done.
  - cbn. split_and!; try done; try lia. rewrite E by set_solver. apply IH; try done; try set_solver.
Qed.

(** Words other than the links do not matter. *)
Lemma link_touches d d' h offsets x : touches d d' h offsets → NV_PAVS_VOICE_TAR_PITCH_LINK ∉ offsets →
  0 ≤ x < 0xFFFF → link d' x = link d x.
Proof. intros T N Hx. unfold link. rewrite (th_words _ _ _ _ T); [done | by split | naive_solver]. Qed.

Lemma areg_touches d d' h offsets r : touches d d' h offsets → areg d' r = areg d r.
Proof. intros T. unfold areg. by rewrite (th_regs _ _ _ _ T). Qed.

Lemma link_bound d h : 0 ≤ link d h < 2 ^ 16.
Proof. by apply (get_field_bound 0 16). Qed.

(** The register that holds the top of list 1, 2 or 3. *)
Definition list_top (i : Z) : Z :=
  if i =? 1 then NV_PAPU_TVL2D else if i =? 2 then NV_PAPU_TVL3D else NV_PAPU_TVLMP.

(** The voice lists of the unit. *)
Definition voice_lists d (ls : Z → list Z) : Prop :=
  ∀ i, 1 ≤ i ≤ 3 → linked d (areg d (list_top i)) (ls i).

Lemma voice_list_top i : 1 ≤ i ≤ 3 → ∃ c n, voice_list_regs !! Z.to_nat (i - 1) = Some (list_top i, c, n).
Proof. intros Hi. assert (i = 1 ∨ i = 2 ∨ i = 3) as [-> | [-> | ->]] by lia; by do 2 eexists. Qed.

Lemma areg_set d r v r' : areg (set_areg d r v) r' = if decide (r = r') then v else areg d r'.
Proof. apply rd_wr. Qed.

Lemma vword_set_areg d r v h o : r ≠ NV_PAPU_VPVADDR → vword (set_areg d r v) h o = vword d h o.
Proof.
  intros Hr. unfold vword, ldl. rewrite areg_set, decide_False by done.
  by apply ldl_ext.
Qed.

Lemma set_areg_ok d r v : voices_ok d → r ≠ NV_PAPU_VPVADDR → 0 ≤ v < 2 ^ 32 → voices_ok (set_areg d r v).
Proof.
  intros [[H1 H2] H3] Hr Hv. split; [split; [exact H1 | by apply mem_ok_wr] |].
  by rewrite areg_set, decide_False.
Qed.

Lemma set_link d h v : voices_ok d → 0 ≤ h < 0xFFFF → 0 ≤ v < 2 ^ 16 →
  ∃ d', voice_set_mask d h NV_PAVS_VOICE_TAR_PITCH_LINK NV_PAVS_VOICE_TAR_PITCH_LINK_NEXT_VOICE_HANDLE v = Ok d' ∧
    touches d d' h [NV_PAVS_VOICE_TAR_PITCH_LINK] ∧ link d' h = v ∧
    ∀ x, 0 ≤ x < 0xFFFF → x ≠ h → link d' x = link d x.
Proof.
  intros Hd Hh Hv.
  destruct (voice_set_ok d h NV_PAVS_VOICE_TAR_PITCH_LINK 0 16 v Hd) as (d' & E & T & W); [by split | done.. |].
  exists d'. split; [exact E |]. split; [done |]. split.
  - unfold link. rewrite W. change NV_PAVS_VOICE_TAR_PITCH_LINK_NEXT_VOICE_HANDLE with (field 0 16).
    apply get_set_field; [done.. | by apply vword_bound | done].
  - intros x Hx N. unfold link. rewrite (th_words _ _ _ _ T); [done | by split | naive_solver].
Qed.

Lemma linked_top_bound d h l : linked d h l → 0 ≤ h < 2 ^ 16.
Proof. destruct l; cbn; lia. Qed.

(** Linking a voice refines the insertion into the abstract lists. *)
Lemma link_voice_ok d h ls : voices_ok d → 0 ≤ h < 0xFFFF → voice_lists d ls →
  (∀ i, 1 ≤ i ≤ 3 → h ∉ ls i) →
  let lst := GET_MASK (areg d NV_PAPU_FEAV) NV_PAPU_FEAV_LST in
  let ante := GET_MASK (areg d NV_PAPU_FEAV) NV_PAPU_FEAV_VALUE in
  (lst = 0 → ante ≠ 0xFFFF) →
  ∃ d', link_voice d h = Ok d' ∧ voices_ok d' ∧ voice_lists d' (λ i, placed lst ante h i (ls i)).
Proof.
  intros Hd Hh Hls Hn lst ante Hante. unfold link_voice. fold lst ante.
  assert (Hl : 0 ≤ lst < 4) by (by apply (get_field_bound 16 2)).
  assert (Ha : 0 ≤ ante < 2 ^ 16) by (by apply (get_field_bound 0 16)). unfold placed.
  destruct (Z.eqb_spec lst NV1BA0_PIO_SET_ANTECEDENT_VOICE_LIST_INHERIT) as [E | E]; cbn [negb].
  - specialize (Hante E). rewrite (proj2 (Z.eqb_neq _ _) Hante). cbn [negb assert mbind res_bind].
    rewrite voice_get_ok; [| done | split; [lia | done]]. cbn [mbind res_bind].
    destruct (set_link d h (link d ante) Hd Hh (link_bound d ante)) as (d1 & E1 & T1 & L1 & O1).
    fold (link d ante). rewrite E1. cbn [mbind res_bind].
    destruct (set_link d1 ante h (th_ok _ _ _ _ T1) ltac:(lia) ltac:(lia)) as (d2 & E2 & T2 & L2 & O2).
    exists d2. split; [exact E2 |]. split; [apply T2 |]. intros i Hi. specialize (Hls i Hi). specialize (Hn i Hi).
    rewrite (areg_touches _ _ _ _ _ T2), (areg_touches _ _ _ _ _ T1).
    apply (linked_insert d); [done | done | done | |].
    + intros Hin. split; [done |]. rewrite O2; [done | lia | by intros ->].
    + intros x Hx Nx. assert (0 ≤ x < 0xFFFF) by (eapply linked_members; done).
      rewrite O2, O1; [done | done | by intros -> | done | done].
  - destruct (voice_list_top lst) as (c & n & ->); [unfold NV1BA0_PIO_SET_ANTECEDENT_VOICE_LIST_INHERIT in E; lia |].
    assert (Hi : 1 ≤ lst ≤ 3) by (unfold NV1BA0_PIO_SET_ANTECEDENT_VOICE_LIST_INHERIT in E; lia).
    destruct (set_link d h (areg d (list_top lst)) Hd Hh (linked_top_bound _ _ _ (Hls lst Hi))) as (d1 & -> & T1 & L1 & O1).
    cbn [mbind res_bind]. exists (set_areg d1 (list_top lst) h). split; [done |].
    assert (Ht : ∀ i, list_top i ≠ NV_PAPU_VPVADDR) by (intros i; unfold list_top; by repeat case_match).
    split; [apply set_areg_ok; [apply T1 | done | lia] |]. intros i Hi'.
    assert (Lk : ∀ x, link (set_areg d1 (list_top lst) h) x = link d1 x) by (intros x; unfold link; by rewrite vword_set_areg).
    assert (Old : linked (set_areg d1 (list_top lst) h) (areg d (list_top i)) (ls i)).
    { apply (linked_ext d); [| by apply Hls]. intros x Hx. rewrite Lk. apply O1; [| intros ->; by eapply Hn].
      eapply linked_members; [by apply Hls | done]. }
    rewrite areg_set. destruct (Z.eqb_spec lst i) as [-> | Ni].
    + rewrite decide_True by done. cbn. split_and!; [done | lia | lia |]. by rewrite Lk, L1.
    + rewrite decide_False, (areg_touches _ _ _ _ _ T1); [done |].
      assert (lst = 1 ∨ lst = 2 ∨ lst = 3) as [-> | [-> | ->]] by lia;
        assert (i = 1 ∨ i = 2 ∨ i = 3) as [-> | [-> | ->]] by lia; done.
Qed.

(** The words of a voice an envelope uses. *)
Notation envelope_words := [NV_PAVS_VOICE_PAR_STATE; NV_PAVS_VOICE_CUR_ECNT].

Lemma set_count d d1 h lo val : touches d d1 h envelope_words → 0 ≤ h < 0xFFFF → 0 ≤ lo → lo + 16 ≤ 32 →
  ∃ d', voice_set_mask d1 h NV_PAVS_VOICE_CUR_ECNT (field lo 16) val = Ok d' ∧
    touches d d' h envelope_words ∧ vword d' h NV_PAVS_VOICE_PAR_STATE = vword d1 h NV_PAVS_VOICE_PAR_STATE.
Proof.
  intros T Hh Hlo Hl.
  destruct (voice_set_ok d1 h NV_PAVS_VOICE_CUR_ECNT lo 16 val (th_ok _ _ _ _ T)) as (d' & -> & T' & _); [by split | done.. |].
  exists d'. split; [done |]. split.
  - eapply touches_trans; [exact T |]. eapply touches_weaken; [| exact T']. set_solver.
  - rewrite (th_words _ _ _ _ T'); [done | by split | set_solver].
Qed.

Lemma start_envelope_ok d h start lo delay_reg hold_reg clo : voices_ok d → 0 ≤ h < 0xFFFF →
  0 ≤ lo → lo + 4 ≤ 32 → 0 ≤ clo → clo + 16 ≤ 32 → vvalid h delay_reg → vvalid h hold_reg →
  ∃ d', start_envelope d h start (field lo 4) delay_reg hold_reg (field clo 16) = Ok d' ∧
    touches d d' h envelope_words ∧
    vword d' h NV_PAVS_VOICE_PAR_STATE = SET_MASK (vword d h NV_PAVS_VOICE_PAR_STATE) (field lo 4) start.
Proof.
  intros Hd Hh Hlo Hl Hclo Hcl Hdelay Hhold. unfold start_envelope.
  destruct (voice_set_ok d h NV_PAVS_VOICE_PAR_STATE lo 4 start Hd) as (d1 & -> & T & W); [by split | done.. |].
  cbn [mbind res_bind].
  assert (T1 : touches d d1 h envelope_words) by (eapply touches_weaken; [| exact T]; set_solver).
  rewrite <- W. destruct (start =? 1); [| destruct (start =? 2); [| destruct (start =? 3)]].
  - rewrite voice_get_ok by (done || apply T). cbn [mbind res_bind]. by apply set_count.
  - by apply set_count.
  - rewrite voice_get_ok by (done || apply T). cbn [mbind res_bind]. by apply set_count.
  - by exists d1.
Qed.

Lemma voice_lists_touches d d' h offsets ls : touches d d' h offsets → NV_PAVS_VOICE_TAR_PITCH_LINK ∉ offsets →
  voice_lists d ls → voice_lists d' ls.
Proof.
  intros T N L i Hi. rewrite (areg_touches _ _ _ _ _ T). apply (linked_ext d); [| by apply L].
  intros x Hx. eapply link_touches; [exact T | done |]. eapply linked_members; [by apply L | done].
Qed.

Lemma voice_lists_set_areg d r v ls : r ≠ NV_PAPU_VPVADDR → (∀ i, list_top i ≠ r) → voice_lists d ls →
  voice_lists (set_areg d r v) ls.
Proof.
  intros Hr Ht L i Hi. rewrite areg_set, decide_False by (intros E; by apply (Ht i)).
  apply (linked_ext d); [| by apply L]. intros x _. unfold link. by rewrite vword_set_areg.
Qed.

(** The state field of a voice that was just started. *)
Lemma started_state w ea ef : 0 ≤ w < 2 ^ 32 → 0 ≤ ea < 16 → 0 ≤ ef < 16 →
  let w' := SET_MASK (SET_MASK (SET_MASK w (field 28 4) ea) (field 24 4) ef) (field 21 1) 1 in
  GET_MASK w' (field 28 4) = ea ∧ GET_MASK w' (field 24 4) = ef ∧ GET_MASK w' (field 21 1) = 1.
Proof.
  intros Hw Ha Hf w'. unfold w'.
  assert (0 ≤ SET_MASK w (field 28 4) ea < 2 ^ 32) by (by apply set_field_bound).
  assert (0 ≤ SET_MASK (SET_MASK w (field 28 4) ea) (field 24 4) ef < 2 ^ 32) by (by apply set_field_bound).
  split_and!.
  - by rewrite !get_set_field_other, get_set_field by (done || lia).
  - by rewrite get_set_field_other, get_set_field by (done || lia).
  - by rewrite get_set_field by (done || lia).
Qed.

(** C8: switching a voice on.  When the voice array is in memory and the three voice
    lists end, VOICE_ON with a voice that is in no list links it in front of the list the
    driver selected, or behind the antecedent voice when it selected none; the other
    voices stay where they are, in their order.  The voice is active and its two envelopes are in
    the phases of the argument. *)
Theorem voice_on_correct d argument ls : voices_ok d → 0 ≤ argument < 2 ^ 32 → voice_lists d ls →
  let h := GET_MASK argument NV1BA0_PIO_VOICE_ON_HANDLE in
  h ≠ 0xFFFF → (∀ i, 1 ≤ i ≤ 3 → h ∉ ls i) →
  let lst := GET_MASK (areg d NV_PAPU_FEAV) NV_PAPU_FEAV_LST in
  let ante := GET_MASK (areg d NV_PAPU_FEAV) NV_PAPU_FEAV_VALUE in
  (lst = 0 → ante ≠ 0xFFFF) →
  ∃ d', fe_method d NV1BA0_PIO_VOICE_ON argument = Ok d' ∧ voices_ok d' ∧
    voice_lists d' (λ i, placed lst ante h i (ls i)) ∧
    GET_MASK (vword d' h NV_PAVS_VOICE_PAR_STATE) NV_PAVS_VOICE_PAR_STATE_ACTIVE_VOICE = 1 ∧
    GET_MASK (vword d' h NV_PAVS_VOICE_PAR_STATE) NV_PAVS_VOICE_PAR_STATE_EACUR = GET_MASK argument NV1BA0_PIO_VOICE_ON_ENVA ∧
    GET_MASK (vword d' h NV_PAVS_VOICE_PAR_STATE) NV_PAVS_VOICE_PAR_STATE_EFCUR = GET_MASK argument NV1BA0_PIO_VOICE_ON_ENVF.
Proof.
  intros Hd Harg Hls h Hh Hn lst ante Hante.
  assert (Hb : 0 ≤ h < 2 ^ 16) by (by apply (get_field_bound 0 16)).
  set (d0 := set_areg (set_areg d NV_PAPU_FEDECMETH NV1BA0_PIO_VOICE_ON) NV_PAPU_FEDECPARAM argument).
  assert (Hd0 : voices_ok d0) by (by repeat apply set_areg_ok).
  assert (Hls0 : voice_lists d0 ls)
    by (repeat apply voice_lists_set_areg; try done; intros i; unfold list_top; by repeat case_match).
  change (fe_method d NV1BA0_PIO_VOICE_ON argument) with (voice_on d0 argument). unfold voice_on.
  replace (argument .& NV1BA0_PIO_VOICE_ON_HANDLE) with h
    by (unfold h, GET_MASK; change (ctz32 NV1BA0_PIO_VOICE_ON_HANDLE) with 0; apply Z.shiftr_0_r).
  assert (Ef : areg d0 NV_PAPU_FEAV = areg d NV_PAPU_FEAV) by (unfold d0; by rewrite !areg_set).
  pose proof (link_voice_ok d0 h ls Hd0 ltac:(lia) Hls0 Hn) as L. rewrite Ef in L.
  destruct (L Hante) as (d1 & -> & Hd1 & L1). cbn [mbind res_bind].
  fold lst ante in L1. clear L Hls0 Hd0 Ef Hante Hls Hd. clearbody d0 lst ante.
  set (ea := GET_MASK argument NV1BA0_PIO_VOICE_ON_ENVA). set (ef := GET_MASK argument NV1BA0_PIO_VOICE_ON_ENVF).
  assert (Hea : 0 ≤ ea < 2 ^ 4) by (by apply (get_field_bound 28 4)).
  assert (Hef : 0 ≤ ef < 2 ^ 4) by (by apply (get_field_bound 24 4)).
  assert (V : ∀ o, 0 ≤ o < NV_PAVS_SIZE → o mod 4 = 0 → vvalid h o) by (intros; split; [lia | done]).
  assert (Hr : 0 ≤ h < 0xFFFF) by lia. clearbody h ea ef.
  destruct (start_envelope_ok d1 h ea 28 NV_PAVS_VOICE_CFG_ENV0 NV_PAVS_VOICE_CFG_ENVA 0 Hd1) as (d2 & E2 & T2 & W2);
    [done.. | by apply V | by apply V |].
  change (field 28 4) with NV_PAVS_VOICE_PAR_STATE_EACUR in E2.
  change (field 0 16) with NV_PAVS_VOICE_CUR_ECNT_EACOUNT in E2. rewrite E2. cbn [mbind res_bind].
  destruct (start_envelope_ok d2 h ef 24 NV_PAVS_VOICE_CFG_ENV1 NV_PAVS_VOICE_CFG_ENVF 16 (th_ok _ _ _ _ T2))
    as (d3 & E3 & T3 & W3); [done.. | by apply V | by apply V |].
  change (field 24 4) with NV_PAVS_VOICE_PAR_STATE_EFCUR in E3.
  change (field 16 16) with NV_PAVS_VOICE_CUR_ECNT_EFCOUNT in E3. rewrite E3. cbn [mbind res_bind].
  destruct (voice_set_ok d3 h NV_PAVS_VOICE_PAR_STATE 21 1 1 (th_ok _ _ _ _ T3)) as (d4 & E4 & T4 & W4);
    [by apply V | done.. |].
  exists d4. split; [exact E4 |]. split; [apply T4 |]. split.
  - eapply voice_lists_touches; [exact T4 | set_solver |].
    eapply voice_lists_touches; [exact T3 | set_solver |].
    eapply voice_lists_touches; [exact T2 | set_solver | exact L1].
  - rewrite W4, W3, W2.
    destruct (started_state (vword d1 h NV_PAVS_VOICE_PAR_STATE) ea ef) as (S1 & S2 & S3);
      [by apply vword_bound | done.. |]. done.
Qed.

(** ** The walk along the lists *)

(** The registers the walk writes. *)
Definition walk_regs : list Z :=
  [NV_PAPU_FEDECMETH; NV_PAPU_FEDECPARAM; NV_PAPU_FECTL; NV_PAPU_ISTS;
   NV_PAPU_CVL2D; NV_PAPU_NVL2D; NV_PAPU_CVL3D; NV_PAPU_NVL3D; NV_PAPU_CVLMP; NV_PAPU_NVLMP].

(** [d'] differs from [d] in registers of the walk, the interrupt line and the timer only. *)
Record walks d d' : Prop := {
  wk_ok : voices_ok d → voices_ok d';
  wk_ram : ram (host d') = ram (host d);
  wk_regs r : r ∉ walk_regs → areg d' r = areg d r
}.

Lemma walks_refl d : walks d d.
Proof. by split. Qed.

Lemma walks_trans d1 d2 d3 : walks d1 d2 → walks d2 d3 → walks d1 d3.
Proof. intros [O1 M1 R1] [O2 M2 R2]. split; [auto | congruence |]. intros r Hr. by rewrite R2, R1. Qed.

Lemma walks_set d r v : r ∈ walk_regs → 0 ≤ v < 2 ^ 32 → walks d (set_areg d r v).
Proof.
  intros Hr Hv. split; [| done |].
  - intros Hd. apply set_areg_ok; [done | | done]. intros ->. revert Hr. decided.
  - intros r' Hr'. rewrite areg_set, decide_False; [done |]. by intros ->.
Qed.

Lemma areg_irq d b r : areg (d <| irq := b |>) r = areg d r.
Proof. done. Qed.

Lemma walks_irq d b : walks d (d <| irq := b |>).
Proof. by split. Qed.

Lemma vword_walks d d' h o : walks d d' → vword d' h o = vword d h o.
Proof.
  intros [_ M R]. unfold vword, ldl. rewrite R by decided.
  apply ldl_ext. intros. by rewrite M.
Qed.

Lemma linked_walks d d' h l : walks d d' → linked d h l → linked d' h l.
Proof. intros W. apply linked_ext. intros x _. unfold link. by rewrite (vword_walks d d'). Qed.

(** The front end was trapped. *)
Definition trapped d : bool := Z.testbit (areg d NV_PAPU_ISTS) 4.

(** The driver asked to be told of idle voices. *)
Definition traps_idle d : bool := Z.testbit (areg d NV_PAPU_FETFORCE1) 15.

Definition idle d (h : Z) : bool :=
  GET_MASK (vword d h NV_PAVS_VOICE_PAR_STATE) NV_PAVS_VOICE_PAR_STATE_ACTIVE_VOICE =? 0.

Lemma areg_bound d r : voices_ok d → 0 ≤ areg d r < 2 ^ 32.
Proof. intros [[_ Hr] _]. apply Hr. Qed.

Lemma update_irq_walks d : voices_ok d → walks d (update_irq d) ∧ trapped (update_irq d) = trapped d.
Proof.
  intros Hd. pose proof (areg_bound d NV_PAPU_ISTS Hd) as B. unfold update_irq. destruct (_ && _).
  - split; [eapply walks_trans; [apply walks_set | apply walks_irq] |].
    + set_solver.
    + by apply lor_bound.
    + unfold trapped. rewrite areg_irq, areg_set, decide_True by done.
      by rewrite Z.lor_spec, orb_false_r.
  - split; [eapply walks_trans; [apply walks_set | apply walks_irq] |].
    + set_solver.
    + rewrite Z.land_comm. by apply land_bound.
    + unfold trapped. rewrite areg_irq, areg_set, decide_True by done.
      by rewrite Z.land_spec, andb_true_r.
Qed.

Lemma idle_voice_ok d : voices_ok d → traps_idle d = true →
  ∃ d', idle_voice d = Ok d' ∧ walks d d' ∧ trapped d' = true.
Proof.
  intros Hd Ht. unfold idle_voice, NV_PAPU_FETFORCE1_SE2FE_IDLE_VOICE. rewrite nz_bit by done.
  unfold traps_idle in Ht. rewrite Ht.
  set (d1 := set_areg d NV_PAPU_FECTL _). set (d2 := set_areg d1 NV_PAPU_FECTL _).
  set (d3 := set_areg d2 NV_PAPU_FECTL _). set (d4 := set_areg d3 NV_PAPU_FECTL _). set (d5 := set_areg d4 NV_PAPU_ISTS _).
  assert (W1 : walks d d1) by (apply walks_set; [decided | by apply land_bound]).
  assert (W2 : walks d1 d2) by (apply walks_set; [decided | apply lor_bound; [done | apply areg_bound, W1, Hd | done]]).
  assert (W3 : walks d2 d3) by (apply walks_set; [decided | by apply land_bound]).
  assert (W4 : walks d3 d4) by (apply walks_set; [decided | apply lor_bound; [done | apply areg_bound, W3, W2, W1, Hd | done]]).
  assert (W5 : walks d4 d5) by (apply walks_set; [decided | apply lor_bound; [done | apply areg_bound, W4, W3, W2, W1, Hd | done]]).
  assert (W : walks d d5) by eauto using walks_trans.
  destruct (update_irq_walks d5) as [Wi Ti]; [by apply W |].
  exists (update_irq d5). split; [done |]. split; [by eapply walks_trans |]. rewrite Ti. unfold trapped, d5.
  rewrite areg_set, decide_True by done. by rewrite Z.lor_spec, orb_true_r.
Qed.

(** The registers of a list the walk keeps its position in. *)
Record position_regs (current next : Z) : Prop := {
  pr_current : current ∈ walk_regs;
  pr_next : next ∈ walk_regs;
  pr_apart : current ≠ next;
  pr_ists : current ≠ NV_PAPU_ISTS ∧ next ≠ NV_PAPU_ISTS;
  pr_fe : next ≠ NV_PAPU_FEDECMETH ∧ next ≠ NV_PAPU_FEDECPARAM ∧ next ≠ NV_PAPU_FECTL
}.

(** The front end leaves the position alone. *)
Lemma idle_position d d' r : idle_voice d = Ok d' → r ≠ NV_PAPU_FECTL → r ≠ NV_PAPU_ISTS → areg d' r = areg d r.
Proof.
  unfold idle_voice. destruct (nz _); [| done]. intros [= <-] N1 N2. unfold update_irq.
  destruct (_ && _); rewrite areg_irq, !areg_set, !decide_False by done; done.
Qed.

(** One voice: the walk moves on, traps when the voice is idle, and changes nothing else. *)
Lemma walk_voice_ok d x current next : voices_ok d → position_regs current next → 0 ≤ x < 0xFFFF →
  areg d current = x → (idle d x = true → traps_idle d = true) →
  ∃ d', (∀ fuel, walk_list (S fuel) d current next = walk_list fuel d' current next) ∧ walks d d' ∧
    areg d' current = link d x ∧ trapped d' = trapped d || idle d x.
Proof.
  intros Hd [P1 P2 P3 [P4 P5] (P6 & P7 & P8)] Hx Ec Ht.
  assert (V : ∀ o, 0 ≤ o < NV_PAVS_SIZE → o mod 4 = 0 → vvalid x o) by (intros; by split).
  set (d1 := set_areg d next (link d x)). pose proof (link_bound d x) as Hb.
  assert (W1 : walks d d1) by (apply walks_set; [done | lia]). pose proof (wk_ok _ _ W1 Hd) as Hd1.
  assert (E1 : areg d1 current = x) by (unfold d1; by rewrite areg_set, decide_False).
  assert (N1 : areg d1 next = link d x) by (unfold d1; by rewrite areg_set, decide_True).
  assert (I1 : idle d1 x = idle d x) by (unfold idle; by rewrite (vword_walks d d1)).
  assert (T1 : trapped d1 = trapped d).
  { unfold trapped, d1. by rewrite areg_set, decide_False. }
  (* the voice is processed or reported *)
  assert (S : ∃ d2, (if negb (idle d1 x) then process_voice d1 x else fe_method d1 SE2FE_IDLE_VOICE x) = Ok d2 ∧
    walks d1 d2 ∧ areg d2 next = link d x ∧ trapped d2 = trapped d || idle d x).
  { rewrite I1. destruct (idle d x) eqn:Ei; cbn [negb].
    - specialize (Ht eq_refl).
      set (d2 := set_areg (set_areg d1 NV_PAPU_FEDECMETH SE2FE_IDLE_VOICE) NV_PAPU_FEDECPARAM x).
      assert (W2 : walks d1 d2) by (eapply walks_trans; apply walks_set; done || lia || decided).
      destruct (idle_voice_ok d2) as (d3 & E3 & W3 & T3).
      { by apply W2. }
      { unfold traps_idle. rewrite (wk_regs _ _ W2), (wk_regs _ _ W1) by decided. exact Ht. }
      exists d3. split; [exact E3 |]. split; [by eapply walks_trans |]. split; [| by rewrite T3, orb_true_r].
      rewrite (idle_position d2 d3) by done. unfold d2. by rewrite !areg_set, !decide_False.
    - exists d1. split; [done |]. split; [apply walks_refl |]. by rewrite T1, orb_false_r. }
  destruct S as (d2 & E2 & W2 & N2 & T2).
  exists (set_areg d2 current (areg d2 next)). rewrite N2. split; [| split; [| split]].
  - intros fuel. cbn [walk_list]. rewrite Ec, (proj2 (Z.eqb_neq _ _)) by lia.
    rewrite voice_get_ok by (done || by apply V). cbn [mbind res_bind]. fold (link d x). fold d1. rewrite E1.
    rewrite voice_get_ok by (done || by apply V). cbn [mbind res_bind].
    fold (idle d1 x). unfold nz. fold (idle d1 x). rewrite E2. cbn [mbind res_bind]. by rewrite N2.
  - eapply walks_trans; [exact W1 |]. eapply walks_trans; [exact W2 |]. apply walks_set; [done | lia].
  - by rewrite areg_set, decide_True.
  - rewrite <- T2. unfold trapped. by rewrite areg_set, decide_False.
Qed.

Lemma existsb_idle d d' l : walks d d' → existsb (idle d') l = existsb (idle d) l.
Proof.
  intros W. induction l as [| x l IH]; [done |]. cbn [existsb]. rewrite IH. unfold idle at 1.
  by rewrite (vword_walks d d').
Qed.

Lemma walk_list_ok fuel d l current next : voices_ok d → position_regs current next →
  linked d (areg d current) l → (∀ x, x ∈ l → idle d x = true → traps_idle d = true) → (length l ≤ fuel)%nat →
  ∃ d', walk_list fuel d current next = Ok d' ∧ walks d d' ∧ trapped d' = trapped d || existsb (idle d) l.
Proof.
  revert d fuel. induction l as [| x l IH]; intros d fuel Hd P L I F.
  - exists d. rewrite orb_false_r. split; [| by split; [apply walks_refl |]]. destruct fuel; cbn in *; by rewrite L.
  - destruct fuel as [| fuel]; [cbn in F; lia |]. destruct L as (Ec & Hx & L).
    destruct (walk_voice_ok d x current next Hd P Hx Ec) as (d1 & E & W & C & T); [apply I; set_solver |].
    rewrite E. destruct (IH d1 fuel) as (d2 & E2 & W2 & T2).
    + by apply W.
    + done.
    + rewrite C. by apply (linked_walks d).
    + intros y Hy. unfold idle, traps_idle. rewrite (vword_walks d d1), (wk_regs _ _ W) by (done || decided).
      apply I. set_solver.
    + cbn in F. lia.
    + exists d2. split; [done |]. split; [by eapply walks_trans |]. rewrite T2, T. cbn [existsb].
      rewrite orb_assoc. f_equal. by apply existsb_idle.
Qed.

(** There are no more voices than handles. *)
Lemma linked_length d h l : linked d h l → (length l ≤ Z.to_nat 0xFFFF)%nat.
Proof.
  intros L. rewrite <- (length_seqZ 0 0xFFFF). apply submseteq_length, NoDup_submseteq; [by eapply linked_nodup |].
  intros x Hx. apply elem_of_seqZ. pose proof (linked_members _ _ _ _ L Hx). lia.
Qed.

Lemma walk_next d ls i top current next rest : voices_ok d → voice_lists d ls → position_regs current next →
  1 ≤ i ≤ 3 → top = list_top i → (∀ x, x ∈ ls i → idle d x = true → traps_idle d = true) →
  ∃ d', walk_lists (Z.to_nat 0xFFFF) d ((top, current, next) :: rest) = walk_lists (Z.to_nat 0xFFFF) d' rest ∧
    walks d d' ∧ trapped d' = trapped d || existsb (idle d) (ls i).
Proof.
  intros Hd L P Hi -> I. pose proof (L i Hi) as Li. set (d1 := set_areg d current (areg d (list_top i))).
  assert (W1 : walks d d1) by (apply walks_set; [apply P | by apply areg_bound]).
  assert (T1 : trapped d1 = trapped d) by (unfold trapped, d1; rewrite areg_set, decide_False; [done | apply P]).
  destruct (walk_list_ok (Z.to_nat 0xFFFF) d1 (ls i) current next) as (d2 & E2 & W2 & T2).
  - by apply W1.
  - done.
  - unfold d1 at 2. rewrite areg_set, decide_True by done. by apply (linked_walks d).
  - intros x Hx. unfold idle, traps_idle. rewrite (vword_walks d d1), (wk_regs _ _ W1) by (done || decided). by apply I.
  - by eapply linked_length.
  - exists d2. cbn [walk_lists]. fold d1. rewrite E2. cbn [mbind res_bind]. split; [done |].
    split; [by eapply walks_trans |]. by rewrite T2, T1, (existsb_idle d d1).
Qed.

Lemma voice_lists_walks d d' ls : walks d d' → voice_lists d ls → voice_lists d' ls.
Proof.
  intros W L i Hi. rewrite (wk_regs _ _ W); [by apply (linked_walks d), L |].
  assert (i = 1 ∨ i = 2 ∨ i = 3) as [-> | [-> | ->]] by lia; decided.
Qed.

(** C26: a frame gets to the end of the voice lists.  When the three lists end, and the
    driver asked to be told of idle voices in case there is one, the walk of the frame
    timer ends after no more voices than there are handles; it has changed no memory and no
    register but its position and the state of the front end, and the front end is trapped
    exactly if it was or a voice of the lists is idle. *)
Theorem voice_walk_ends d ls : voices_ok d → voice_lists d ls →
  (∀ i x, 1 ≤ i ≤ 3 → x ∈ ls i → idle d x = true → traps_idle d = true) →
  ∃ d', walk_lists (Z.to_nat 0xFFFF) d voice_list_regs = Ok d' ∧ walks d d' ∧ voice_lists d' ls ∧
    trapped d' = trapped d || existsb (idle d) (ls 1 ++ ls 2 ++ ls 3).
Proof.
  intros Hd L I. unfold voice_list_regs.
  assert (C : ∀ d', walks d d' → ∀ i, 1 ≤ i ≤ 3 → ∀ x, x ∈ ls i → idle d' x = true → traps_idle d' = true).
  { intros d' W i Hi x Hx. unfold idle, traps_idle. rewrite (vword_walks d d'), (wk_regs _ _ W) by (done || decided).
    by apply (I i). }
  destruct (walk_next d ls 1 NV_PAPU_TVL2D NV_PAPU_CVL2D NV_PAPU_NVL2D
    [(NV_PAPU_TVL3D, NV_PAPU_CVL3D, NV_PAPU_NVL3D); (NV_PAPU_TVLMP, NV_PAPU_CVLMP, NV_PAPU_NVLMP)])
    as (d1 & -> & W1 & T1); [done | done | split; decided | lia | done | apply C; [apply walks_refl | lia] |].
  destruct (walk_next d1 ls 2 NV_PAPU_TVL3D NV_PAPU_CVL3D NV_PAPU_NVL3D
    [(NV_PAPU_TVLMP, NV_PAPU_CVLMP, NV_PAPU_NVLMP)]) as (d2 & -> & W2 & T2);
    [by apply W1 | by apply (voice_lists_walks d) | split; decided | lia | done | apply C; [done | lia] |].
  pose proof (walks_trans _ _ _ W1 W2) as W12.
  destruct (walk_next d2 ls 3 NV_PAPU_TVLMP NV_PAPU_CVLMP NV_PAPU_NVLMP []) as (d3 & -> & W3 & T3);
    [by apply W12 | by apply (voice_lists_walks d) | split; decided | lia | done | apply C; [done | lia] |].
  pose proof (walks_trans _ _ _ W12 W3) as W. exists d3. split; [done |]. split; [done |].
  split; [by apply (voice_lists_walks d) |].
  rewrite T3, T2, T1, (existsb_idle d d2), (existsb_idle d d1), !existsb_app by done. btauto.
Qed.

(** a voice list that does not end hangs the emulator: an active voice that is
    linked to itself keeps the frame timer walking, however long it walks. *)
Theorem voice_walk_hangs d x current next fuel : voices_ok d → position_regs current next → 0 ≤ x < 0xFFFF →
  areg d current = x → link d x = x → idle d x = false → walk_list fuel d current next = Fault out_of_fuel.
Proof.
  intros Hd P Hx. revert d Hd. induction fuel as [| fuel IH]; intros d Hd Ec El Ei.
  - cbn [walk_list]. by rewrite Ec, (proj2 (Z.eqb_neq _ _)) by lia.
  - destruct (walk_voice_ok d x current next Hd P Hx Ec) as (d' & E & W & C & _); [by rewrite Ei |].
    rewrite E. apply IH; [by apply W | by rewrite C | |].
    + unfold link. by rewrite (vword_walks d d').
    + unfold idle. by rewrite (vword_walks d d').
Qed.

End apu.

(** ** The memory windows *)

(** A letter and an address that name a word of a DSP. *)
Definition names_word (t : ascii * Z) (id : Z) : Prop :=
  space_id t.1 = Ok id ∧ 0 ≤ t.2 ∧ ram_mapped id t.2 = true.

Ltac window_cases :=
  repeat match goal with
  | |- context [if window ?a ?lo ?n then _ else _] =>
      let E := fresh "E" in destruct (window a lo n) eqn:E;
      [apply andb_prop in E as [?%Z.leb_le ?%Z.leb_le] |]
  end.

Ltac window_lia :=
  unfold NV_PAPU_GPXMEM, NV_PAPU_GPMIXBUF, NV_PAPU_GPYMEM, NV_PAPU_GPPMEM, NV_PAPU_EPXMEM, NV_PAPU_EPYMEM,
    NV_PAPU_EPPMEM, GP_DSP_MIXBUF_BASE in *; Z.to_euclidean_division_equations; lia.

Lemma named id t : (space_id t.1 = Ok id ∧ 0 ≤ t.2 ∧
    (id = DSP_SPACE_X ∧ (t.2 < 0x1000 ∨ 0x1400 ≤ t.2 < 0x1800) ∨ id = DSP_SPACE_Y ∧ t.2 < 0x800 ∨
     id = DSP_SPACE_P ∧ t.2 < 0x1000)) → names_word t id.
Proof.
  intros (S & N & C). split; [done |]. split; [done |]. unfold ram_mapped. dsp_consts.
  destruct C as [[-> C] | [[-> C] | [-> C]]]; cbn; [| by apply Z.ltb_lt..].
  apply orb_true_iff. destruct C; [left; by apply Z.ltb_lt | right]. apply andb_true_iff.
  split; [apply Z.leb_le | apply Z.ltb_lt]; lia.
Qed.

Lemma gp_window_word a t : gp_window a = Some t → ∃ id, names_word t id.
Proof.
  unfold gp_window. window_cases; intros [= <-]; eexists; apply named; (split; [done |]); cbn [snd];
    (split; [window_lia |]).
  - left. split; [done |]. left. window_lia.
  - left. split; [done |]. right. window_lia.
  - right. left. split; [done |]. window_lia.
  - right. right. split; [done |]. window_lia.
Qed.

Lemma ep_window_word a t : ep_window a = Some t → ∃ id, names_word t id.
Proof.
  unfold ep_window. window_cases; intros [= <-]; eexists; apply named; (split; [done |]); cbn [snd];
    (split; [window_lia |]).
  - left. split; [done |]. left. window_lia.
  - right. left. split; [done |]. window_lia.
  - right. right. split; [done |]. window_lia.
Qed.

Lemma gp_window_inj a b t : gp_window a = Some t → gp_window b = Some t → a mod 4 = 0 → b mod 4 = 0 → a = b.
Proof. unfold gp_window. window_cases; intros ? ? ? ?; simplify_eq; window_lia. Qed.

Lemma ep_window_inj a b t : ep_window a = Some t → ep_window b = Some t → a mod 4 = 0 → b mod 4 = 0 → a = b.
Proof. unfold ep_window. window_cases; intros ? ? ? ?; simplify_eq; window_lia. Qed.

Lemma space_id_inj c c' id : space_id c = Ok id → space_id c' = Ok id → c = c'.
Proof.
  unfold space_id. dsp_consts.
  repeat match goal with |- context [Ascii.eqb ?x ?y] => destruct (Ascii.eqb_spec x y) end;
    intros E1 E2; subst; try done; congruence.
Qed.

Section windows.
Context (ram_size : Z) (io_ldl : Z → Z) (dma_fuel : nat).
Implicit Types (d : MCPXAPUState).

(** A word written through a window is read back; no other word changes. *)
Lemma dsp_memory_word (bus : ScratchBus apu_host) dsp t id v : ram_ok (core dsp) → names_word t id → 0 ≤ v < 2 ^ 24 →
  ∃ dsp', @dsp_write_memory apu_host bus dma_fuel dsp t.1 t.2 v = Ok dsp' ∧ rw_opaque dsp' = rw_opaque dsp ∧
    ram_ok (core dsp') ∧
    ∀ h t' id', names_word t' id' →
      @dsp_read_memory apu_host bus dma_fuel (attach h dsp') t'.1 t'.2 =
      if decide (t' = t) then Ok v else @dsp_read_memory apu_host bus dma_fuel (attach h dsp) t'.1 t'.2.
Proof.
  intros Hr (S & N & M) Hv. unfold dsp_write_memory. rewrite S. cbn [mbind res_bind].
  rewrite write_mapped by done. cbn [mbind res_bind].
  exists (with_core dsp (ram_update (core dsp) id t.2 v) (periph_of dsp)).
  assert (Hr' : ram_ok (ram_update (core dsp) id t.2 v)) by (by apply ram_update_ok).
  split; [done |]. split; [done |]. split; [exact Hr' |].
  intros h t' id' (S' & N' & M'). unfold dsp_read_memory. rewrite S'. cbn [mbind res_bind].
  rewrite !read_mapped; try done. cbn [core attach with_core periph_of]. rewrite ram_cell_update by done.
  destruct t as [c w], t' as [c' w']. cbn [fst snd] in *. destruct (decide (id = id' ∧ w = w')) as [[-> ->] | D].
  - by rewrite (space_id_inj c c' id'), decide_True.
  - rewrite decide_False; [done |]. intros [= -> ->]. apply D. split; congruence.
Qed.

Lemma dsp_memory_wide (bus : ScratchBus apu_host) dsp t id v : names_word t id → 2 ^ 24 ≤ v < 2 ^ 32 →
  @dsp_write_memory apu_host bus dma_fuel dsp t.1 t.2 v = Fault assert_failed.
Proof.
  intros (S & _) Hv. unfold dsp_write_memory, dsp56k_write_memory. rewrite S. cbn [mbind res_bind].
  by rewrite (top_byte_clear v), (proj2 (Z.ltb_ge v (2 ^ 24))) by lia.
Qed.

(** What the windows of a DSP promise to the driver. *)
Definition windowed (win : Z → option (ascii * Z)) (read : MCPXAPUState → Z → Z → res Z)
    (write : MCPXAPUState → Z → Z → Z → res MCPXAPUState) d (a v : Z) : Prop :=
  if v <? 2 ^ 24 then
    ∃ d', write d a v 4 = Ok d' ∧ host d' = host d ∧
      ∀ b, b mod 4 = 0 → is_Some (win b) → read d' b 4 = if a =? b then Ok v else read d b 4
  else write d a v 4 = Fault assert_failed.

Lemma windowed_ok win bus (get : MCPXAPUState → @DSPState apu_host) (put : MCPXAPUState → @DSPState apu_host → MCPXAPUState)
    read write d a v :
  (∀ b t, win b = Some t → ∃ id, names_word t id) →
  (∀ b t, win a = Some t → win b = Some t → b mod 4 = 0 → a = b) →
  (∀ d b t, win b = Some t → b mod 4 = 0 →
     read d b 4 = @dsp_read_memory apu_host bus dma_fuel (attach (host d) (get d)) t.1 t.2) →
  (∀ t, win a = Some t → write d a v 4 =
     (dsp ← @dsp_write_memory apu_host bus dma_fuel (attach (host d) (get d)) t.1 t.2 v; Ok (put d dsp))) →
  (∀ dsp, host (put d dsp) = rw_opaque dsp ∧ get (put d dsp) = dsp) →
  ram_ok (core (get d)) → 0 ≤ v < 2 ^ 32 → is_Some (win a) → windowed win read write d a v.
Proof.
  intros Word Inj Read Write Put Hr Hv [t Et]. unfold windowed. destruct (Word a t Et) as (id & Hid).
  rewrite (Write t Et). destruct (Z.ltb_spec v (2 ^ 24)).
  - destruct (dsp_memory_word bus (attach (host d) (get d)) t id v Hr Hid ltac:(lia)) as (dsp' & -> & O & _ & R).
    cbn [mbind res_bind]. destruct (Put dsp') as [P1 P2]. exists (put d dsp'). split; [done |].
    change (rw_opaque (attach (host d) (get d))) with (host d) in O. split; [by rewrite P1 |].
    intros b Hb [t' Et']. destruct (Word b t' Et') as (id' & Hid'). rewrite !(Read _ b t') by done.
    rewrite P1, P2, O, (R (host d) t' id' Hid'). change (attach (host d) (attach (host d) (get d))) with (attach (host d) (get d)).
    case_decide as D.
    + subst t'. by rewrite (Inj b t), Z.eqb_refl by done.
    + rewrite (proj2 (Z.eqb_neq a b)); [done |]. intros ->. congruence.
  - by rewrite (dsp_memory_wide _ _ t id v Hid) by lia.
Qed.

(** C32: the memory windows of the DSPs.  A word of up to 24 bits that the driver writes
    to an aligned address of a window of the GP or EP is read back there, every other
    word of the windows of that DSP keeps its value, and memory and registers of the unit
    are untouched; a word with a bit above 23 set stops the emulator at an assertion. *)
Theorem dsp_windows_correct d a v : ram_ok (core (gp_dsp d)) → ram_ok (core (ep_dsp d)) →
  a mod 4 = 0 → 0 ≤ v < 2 ^ 32 →
  (is_Some (gp_window a) → windowed gp_window (gp_read ram_size io_ldl dma_fuel) (gp_write ram_size io_ldl dma_fuel) d a v) ∧
  (is_Some (ep_window a) → windowed ep_window (ep_read ram_size io_ldl dma_fuel) (ep_write ram_size io_ldl dma_fuel) d a v).
Proof.
  intros Hg He Ha Hv. split.
  - apply (windowed_ok gp_window (gp_bus ram_size io_ldl) gp_dsp (λ d dsp, APU (rw_opaque dsp) dsp (gp_regs d) (ep_dsp d)
      (ep_regs d) (inbuf_sge_handle d) (outbuf_sge_handle d) (irq d) (frame_timer d))); try done.
    + exact gp_window_word.
    + intros b t. intros. by apply (gp_window_inj a b t).
    + intros d' b [c w] E Eb. unfold gp_read. by rewrite E, Eb.
    + intros [c w] E. unfold gp_write. by rewrite E, Ha, (wrap_small 32 v).
  - apply (windowed_ok ep_window (ep_bus ram_size io_ldl) ep_dsp (λ d dsp, APU (rw_opaque dsp) (gp_dsp d) (gp_regs d) dsp
      (ep_regs d) (inbuf_sge_handle d) (outbuf_sge_handle d) (irq d) (frame_timer d))); try done.
    + exact ep_window_word.
    + intros b t. intros. by apply (ep_window_inj a b t).
    + intros d' b [c w] E Eb. unfold ep_read. by rewrite E, Eb.
    + intros [c w] E. unfold ep_write. by rewrite E, Ha, (wrap_small 32 v).
Qed.

End windows.

(** ** Instances *)

(** A unit with 16 MB of RAM, the voice array at 0, and the voice 5 alone in the 2D list,
    inactive; the 2D list is selected and idle voices are reported. *)
Definition sample_size := 0x1000000.

Definition no_store (h : apu_host) (_ _ : Z) : apu_host := h.

Definition unit_with (voice : mem) : MCPXAPUState :=
  let d := mcpx_apu_realize voice in
  let d := set_areg d NV_PAPU_TVL2D 5 in
  let d := set_areg d NV_PAPU_TVL3D 0xFFFF in
  let d := set_areg d NV_PAPU_TVLMP 0xFFFF in
  let d := set_areg d NV_PAPU_FEAV 0x10000 in
  set_areg d NV_PAPU_FETFORCE1 0x8000.

Definition sample_unit : MCPXAPUState :=
  unit_with (wr_bytes ∅ (5 * NV_PAVS_SIZE + NV_PAVS_VOICE_TAR_PITCH_LINK) (le_bytes 4 0xFFFF)).

(** The same with voice 5 active and linked to itself. *)
Definition cyclic_unit : MCPXAPUState :=
  set_areg (unit_with (wr_bytes (wr_bytes ∅ (5 * NV_PAVS_SIZE + NV_PAVS_VOICE_TAR_PITCH_LINK) (le_bytes 4 5))
    (5 * NV_PAVS_SIZE + NV_PAVS_VOICE_PAR_STATE) (le_bytes 4 NV_PAVS_VOICE_PAR_STATE_ACTIVE_VOICE))) NV_PAPU_CVL2D 5.

Definition sample_lists (i : Z) : list Z := if i =? 1 then [5] else [].

Lemma unit_with_ok m : mem_ok 8 m → voices_ok sample_size (unit_with m).
Proof. intros Hm. repeat (apply set_areg_ok; [| done | done]). by split; [split |]. Qed.

Lemma sample_unit_ok : voices_ok sample_size sample_unit.
Proof. apply unit_with_ok, wr_bytes_ok; [done | apply le_bytes_byte]. Qed.

Lemma sample_unit_lists : voice_lists sample_size no_io sample_unit sample_lists.
Proof. intros i Hi. assert (i = 1 ∨ i = 2 ∨ i = 3) as [-> | [-> | ->]] by lia; vm_compute; repeat split; discriminate. Qed.

Lemma voice_on_witness : ∃ d', fe_method sample_size no_io no_store sample_unit NV1BA0_PIO_VOICE_ON 0x21000007 = Ok d' ∧
  linked sample_size no_io d' (areg d' NV_PAPU_TVL2D) [7; 5].
Proof.
  destruct (voice_on_correct sample_size no_io no_store ltac:(done) sample_unit 0x21000007 sample_lists) as (d' & E & _ & L & _).
  - exact sample_unit_ok.
  - done.
  - exact sample_unit_lists.
  - done.
  - intros i _. unfold sample_lists. destruct (i =? 1); apply (bool_decide_unpack _); by vm_compute.
  - done.
  - exists d'. split; [exact E |]. exact (L 1 ltac:(lia)).
Defined.

Lemma voice_walk_ends_witness : ∃ d', walk_lists sample_size no_io no_store (Z.to_nat 0xFFFF) sample_unit voice_list_regs = Ok d' ∧
  trapped d' = true.
Proof.
  destruct (voice_walk_ends sample_size no_io no_store ltac:(done) sample_unit sample_lists) as (d' & E & _ & _ & T).
  - exact sample_unit_ok.
  - exact sample_unit_lists.
  - done.
  - exists d'. split; [exact E |]. rewrite T. by vm_compute.
Defined.

Lemma voice_walk_hangs_witness :
  walk_list sample_size no_io no_store 1000 cyclic_unit NV_PAPU_CVL2D NV_PAPU_NVL2D = Fault out_of_fuel.
Proof.
  apply (voice_walk_hangs sample_size no_io no_store ltac:(done) cyclic_unit 5).
  - apply set_areg_ok; [| done | done]. apply unit_with_ok. apply wr_bytes_ok; [| apply le_bytes_byte].
    apply wr_bytes_ok; [done | apply le_bytes_byte].
  - split; decided.
  - done.
  - done.
  - by vm_compute.
  - by vm_compute.
Defined.

Lemma dsp_windows_witness :
  ∃ d', gp_write sample_size no_io 1 sample_unit 0x5004 0x123456 4 = Ok d' ∧ gp_read sample_size no_io 1 d' 0x5004 4 = Ok 0x123456.
Proof.
  destruct (dsp_windows_correct sample_size no_io 1 sample_unit 0x5004 0x123456) as [G _];
    [by apply empty_ram_ok | by apply empty_ram_ok | done | done |].
  destruct G as (d' & E & _ & R); [by eexists |]. exists d'. split; [exact E |]. by rewrite R by (done || by eexists).
Defined.
