(* ===== verification/Swizzle.v ===== *)
(** * Swizzled textures

    src/hw/xbox/nv2a/swizzle.c.  A swizzled texture stores the texel (x, y, z) at the
    offset whose bits are those of the three coordinates, interleaved.  The masks say which
    bits of the offset belong to which coordinate, [fill_pattern] spreads a coordinate over
    the bits of its mask, and the four copy routines convert between that order and rows.

    The file shows where each bit of a coordinate goes, for all sizes, that the texels of
    an image land in different places, and that a converted image converts back. *)

From S2P Require Import Prelude Bytes.

(** ** The code *)

(** The [do ... while] of [generate_swizzle_masks].  [bit] has left the 32 bits after 32
    turns; if a size is still above it, it stays 0 and the loop does not end. *)
Fixpoint masks_loop (fuel : nat) (width height depth x y z bit mask_bit : Z)
    : res (Z * Z * Z * Z) :=
  match fuel with
  | O => Fault out_of_fuel
  | S fuel =>
      let '(x, mask_bit, done) :=
        if bit <? width then (x .| mask_bit, u32 (mask_bit .<< 1), false)
        else (x, mask_bit, true) in
      let '(y, mask_bit, done) :=
        if bit <? height then (y .| mask_bit, u32 (mask_bit .<< 1), false)
        else (y, mask_bit, done) in
      let '(z, mask_bit, done) :=
        if bit <? depth then (z .| mask_bit, u32 (mask_bit .<< 1), false)
        else (z, mask_bit, done) in
      let bit := u32 (bit .<< 1) in
      if done then Ok (x, y, z, mask_bit)
      else masks_loop fuel width height depth x y z bit mask_bit
  end.

(** The assertion is [x ^ y ^ (z == mask_bit - 1)], as C groups it. *)
Definition generate_swizzle_masks (width height depth : Z) : res (Z * Z * Z) :=
  '(x, y, z, mask_bit) ← masks_loop 33 width height depth 0 0 0 1 1;
  _ ← assert (nz (x .^ y .^ b2z (z =? u32 (mask_bit - 1))));
  Ok (x, y, z).

(** The loop of [fill_pattern]: it has no end when the pattern has too few bits. *)
Fixpoint fill_loop (fuel : nat) (pattern value bit result : Z) : res Z :=
  if value =? 0 then Ok result
  else
    match fuel with
    | O => Fault out_of_fuel
    | S fuel =>
        if nz (pattern .& bit) then
          fill_loop fuel pattern (value .>> 1) (u32 (bit .<< 1))
            (result .| (if nz (value .& 1) then bit else 0))
        else fill_loop fuel pattern value (u32 (bit .<< 1)) result
    end.

Definition fill_pattern (pattern value : Z) : res Z := fill_loop 32 pattern value 1 0.

Definition get_swizzled_offset (x y z mask_x mask_y mask_z bytes_per_pixel : Z) : res Z :=
  fx ← fill_pattern mask_x x;
  fy ← fill_pattern mask_y y;
  fz ← fill_pattern mask_z z;
  Ok (u32 (bytes_per_pixel * (fx .| fy .| fz))).

(** [for (i = 0; i < n; i++)] with [int i]: the last increment overflows when [n] is
    above [INT_MAX]. *)
Fixpoint for_each {S} (range : list Z) (body : Z → S → res S) (s : S) : res S :=
  match range with
  | [] => Ok s
  | i :: range => s ← body i s; for_each range body s
  end.

Definition for_int {S} (n : Z) (body : Z → S → res S) (s : S) : res S :=
  if 2 ^ 31 <=? n then Fault undefined_behaviour else for_each (seqZ 0 n) body s.

Definition memcpy (dst : mem) (to : Z) (src : mem) (from n : Z) : mem :=
  wr_bytes dst to (rd_bytes src from n).

(** The buffers are arrays of bytes that do not overlap, indexed from [src_buf] and
    [dst_buf]; in the slice [z] the moving pointer has advanced by [z * slice_pitch]. *)
Definition swizzle_box (src : mem) (width height depth : Z) (dst : mem)
    (row_pitch slice_pitch bytes_per_pixel : Z) : res mem :=
  '(mask_x, mask_y, mask_z) ← generate_swizzle_masks width height depth;
  for_int depth (λ z dst, for_int height (λ y dst, for_int width (λ x dst,
    let from := z * slice_pitch + u32 (y * row_pitch) + u32 (x * bytes_per_pixel) in
    to ← get_swizzled_offset x y 0 mask_x mask_y 0 bytes_per_pixel;
    Ok (memcpy dst to src from bytes_per_pixel)) dst) dst) dst.

Definition unswizzle_box (src : mem) (width height depth : Z) (dst : mem)
    (row_pitch slice_pitch bytes_per_pixel : Z) : res mem :=
  '(mask_x, mask_y, mask_z) ← generate_swizzle_masks width height depth;
  for_int depth (λ z dst, for_int height (λ y dst, for_int width (λ x dst,
    from ← get_swizzled_offset x y z mask_x mask_y mask_z bytes_per_pixel;
    let to := z * slice_pitch + u32 (y * row_pitch) + u32 (x * bytes_per_pixel) in
    Ok (memcpy dst to src from bytes_per_pixel)) dst) dst) dst.

Definition unswizzle_rect (src : mem) (width height : Z) (dst : mem) (pitch bytes_per_pixel : Z)
    : res mem := unswizzle_box src width height 1 dst pitch 0 bytes_per_pixel.

Definition swizzle_rect (src : mem) (width height : Z) (dst : mem) (pitch bytes_per_pixel : Z)
    : res mem := swizzle_box src width height 1 dst pitch 0 bytes_per_pixel.

(** ** Spreading a value over a pattern *)

(** How many bits of [p] are set below bit [k]. *)
Fixpoint rank (p : Z) (k : nat) : nat :=
  match k with
  | O => O
  | S k => (if Z.testbit p (Z.of_nat k) then 1 else 0) + rank p k
  end%nat.

Lemma rank_mono p k j : (k ≤ j)%nat → (rank p k ≤ rank p j)%nat.
Proof. induction 1 as [| j _ IH]; [done |]. cbn [rank]. lia. Qed.

Lemma rank_gap p k j : (k ≤ j)%nat → (∀ i, (k ≤ i < j)%nat → Z.testbit p (Z.of_nat i) = false) →
  rank p j = rank p k.
Proof.
  induction 1 as [| j L IH]; intros G; [done |]. cbn [rank].
  rewrite G by lia. rewrite IH; [done |]. intros. apply G. lia.
Qed.

(** A pattern given by the increasing sequence of its bits: the rank of the [i]-th is [i]. *)
Lemma rank_seq p n (f : nat → nat) :
  (∀ i, f i < f (S i))%nat →
  (∀ k, Z.testbit p (Z.of_nat k) = true ↔ ∃ i, (i < n)%nat ∧ k = f i) →
  ∀ i, (i ≤ n)%nat → rank p (f i) = i.
Proof.
  intros Hf Hp.
  assert (M : ∀ a b, (a < b)%nat → (f a < f b)%nat).
  { intros a b. induction 1; [apply Hf |]. etrans; eauto. }
  assert (M' : ∀ a b, (f a < f b)%nat → (a < b)%nat).
  { intros a b L. destruct (lt_eq_lt_dec a b) as [[? | ->] | G]; [done | lia |]. specialize (M _ _ G). lia. }
  induction i as [| i IH]; intros Hi.
  - transitivity (rank p 0); [| done]. apply rank_gap; [lia |]. intros k Hk.
    apply not_true_is_false. intros (j & Hj & ->)%Hp. destruct j; [lia |]. specialize (M O (S j)). lia.
  - transitivity (rank p (S (f i))); [apply rank_gap; [apply Hf |] |].
    + intros k Hk. apply not_true_is_false. intros (j & Hj & ->)%Hp.
      assert (i < j)%nat by (apply M'; lia). assert (j < S i)%nat by (apply M'; lia). lia.
    + cbn [rank]. rewrite IH by lia. rewrite (proj2 (Hp _)); [done |]. exists i. split; [lia | done].
Qed.

Lemma shiftr_0_bits v n i : 0 ≤ n ≤ i → v .>> n = 0 → Z.testbit v i = false.
Proof.
  intros Hn E. replace i with (i - n + n) by lia. rewrite <- Z.shiftr_spec by lia.
  by rewrite E, Z.bits_0.
Qed.

Lemma u32_pow2_next k : 0 ≤ k < 32 → u32 (u32 (2 ^ k) .<< 1) = u32 (2 ^ (k + 1)).
Proof.
  intros Hk. assert (0 ≤ 2 ^ k < 2 ^ 32) by (split; [lia | apply Z.pow_lt_mono_r; lia]).
  rewrite (wrap_small 32 (2 ^ k)) by done. rewrite shiftl_mul, Z.pow_add_r by lia. done.
Qed.

Section fill.
Context (p v : Z) (Hp : 0 ≤ p < 2 ^ 32) (Hv : 0 ≤ v).

(** What [fill_pattern] computes: bit [k] of the pattern receives the bit of the value
    whose number is the rank of [k]. *)
Definition filled (r : Z) : Prop :=
  0 ≤ r < 2 ^ 32 ∧
  ∀ k : nat, Z.testbit r (Z.of_nat k) = Z.testbit p (Z.of_nat k) && Z.testbit v (Z.of_nat (rank p k)).

Definition filled_below (k : nat) (r : Z) : Prop :=
  0 ≤ r < 2 ^ 32 ∧
  ∀ j : nat, Z.testbit r (Z.of_nat j) =
    bool_decide (j < k)%nat && (Z.testbit p (Z.of_nat j) && Z.testbit v (Z.of_nat (rank p j))).

Lemma filled_stop k r : v .>> Z.of_nat (rank p k) = 0 → filled_below k r → filled r.
Proof.
  intros E [Hr B]. split; [done |]. intros j. rewrite B. case_bool_decide; [done |].
  rewrite (shiftr_0_bits v (Z.of_nat (rank p k)) (Z.of_nat (rank p j))); [by rewrite andb_false_r | | done].
  pose proof (rank_mono p k j ltac:(lia)). lia.
Qed.

Lemma filled_next (k : nat) r : (k < 32)%nat → filled_below k r →
  filled_below (S k)
    (if Z.testbit p (Z.of_nat k)
     then r .| (if nz ((v .>> Z.of_nat (rank p k)) .& 1) then 2 ^ Z.of_nat k else 0) else r).
Proof.
  intros Hk [Hr B].
  assert (2 ^ Z.of_nat k < 2 ^ 32) by (apply Z.pow_lt_mono_r; lia).
  rewrite (bit_b2z v) by lia.
  split.
  { destruct (Z.testbit p (Z.of_nat k)), (Z.testbit v (Z.of_nat (rank p k))); cbn; [apply lor_bound; lia | by rewrite Z.lor_0_r | done | done]. }
  intros j. rewrite (bool_decide_ext (j < S k)%nat (j < k ∨ j = k)%nat) by lia.
  assert (E : Z.testbit (if Z.testbit p (Z.of_nat k) then
     r .| (if nz (b2z (Z.testbit v (Z.of_nat (rank p k)))) then 2 ^ Z.of_nat k else 0) else r) (Z.of_nat j)
     = Z.testbit r (Z.of_nat j) ||
       (Z.testbit p (Z.of_nat k) && Z.testbit v (Z.of_nat (rank p k)) && (Z.of_nat k =? Z.of_nat j))).
  { destruct (Z.testbit p (Z.of_nat k)), (Z.testbit v (Z.of_nat (rank p k))); cbn [nz b2z negb Z.eqb andb];
      by rewrite ?Z.lor_spec, ?Z.bits_0, ?testbit_pow2, ?orb_false_r by lia. }
  rewrite E, B. destruct (Z.eqb_spec (Z.of_nat k) (Z.of_nat j)) as [?%Nat2Z.inj | N].
  - subst j. rewrite (bool_decide_eq_false_2 (k < k)%nat) by lia.
    rewrite (bool_decide_eq_true_2 (k < k ∨ k = k)%nat) by lia. by rewrite andb_true_r.
  - rewrite andb_false_r, orb_false_r. f_equal. apply bool_decide_ext. lia.
Qed.

Lemma fill_loop_filled fuel (k : nat) r : (fuel + k = 32)%nat → filled_below k r →
  match fill_loop fuel p (v .>> Z.of_nat (rank p k)) (u32 (2 ^ Z.of_nat k)) r with
  | Ok r => v < 2 ^ Z.of_nat (rank p 32) ∧ filled r
  | Fault e => e = out_of_fuel ∧ 2 ^ Z.of_nat (rank p 32) ≤ v
  end.
Proof using Hp Hv.
  revert k r. induction fuel as [| fuel IH]; intros k r Hk Hr; cbn [fill_loop].
  all: destruct (Z.eqb_spec (v .>> Z.of_nat (rank p k)) 0) as [E | E];
    [split; [| by eapply filled_stop] |].
  - rewrite shiftr_div in E by lia. apply Z.div_small_iff in E; [| lia].
    replace 32%nat with k by lia. lia.
  - split; [done |]. replace 32%nat with k by lia. rewrite shiftr_div in E by lia.
    apply Z.nlt_ge. intros ?. apply E, Z.div_small. lia.
  - rewrite shiftr_div in E by lia. apply Z.div_small_iff in E; [| lia].
    pose proof (rank_mono p k 32 ltac:(lia)).
    assert (2 ^ Z.of_nat (rank p k) ≤ 2 ^ Z.of_nat (rank p 32)) by (apply Z.pow_le_mono_r; lia). lia.
  - rewrite u32_pow2_next by lia. replace (Z.of_nat k + 1) with (Z.of_nat (S k)) by lia.
    pose proof (filled_next k r ltac:(lia) Hr) as Hn. specialize (IH (S k) _ ltac:(lia) Hn). clear Hn.
    rewrite (wrap_small 32 (2 ^ Z.of_nat k)) by (split; [lia |]; apply Z.pow_lt_mono_r; lia).
    rewrite <- Z.shiftl_1_l, nz_bit, Z.shiftl_1_l by lia.
    cbn [rank] in IH. destruct (Z.testbit p (Z.of_nat k)); [| exact IH].
    rewrite Z.shiftr_shiftr by lia. replace (Z.of_nat (rank p k) + 1) with (Z.of_nat (1 + rank p k)) by lia.
    exact IH.
Qed.

Lemma fill_pattern_cases :
  match fill_pattern p v with
  | Ok r => v < 2 ^ Z.of_nat (rank p 32) ∧ filled r
  | Fault e => e = out_of_fuel ∧ 2 ^ Z.of_nat (rank p 32) ≤ v
  end.
Proof.
  pose proof (fill_loop_filled 32 0 0 eq_refl) as H. rewrite Z.shiftr_0_r in H. apply H.
  split; [lia |]. intros j. by rewrite Z.bits_0, bool_decide_eq_false_2 by lia.
Qed.

Lemma fill_pattern_ok : v < 2 ^ Z.of_nat (rank p 32) → ∃ r, fill_pattern p v = Ok r ∧ filled r.
Proof.
  intros L. pose proof fill_pattern_cases. destruct (fill_pattern p v); [naive_solver |].
  exfalso. lia.
Qed.

End fill.

(** ** The masks *)

(** The sequence [f] enumerates, in increasing order, the [n] bits of the mask [m]. *)
Definition is_mask (n : nat) (f : nat → nat) (m : Z) : Prop :=
  0 ≤ m < 2 ^ 32 ∧ ∀ k : nat, Z.testbit m (Z.of_nat k) = true ↔ ∃ i, (i < n)%nat ∧ k = f i.

Lemma is_mask_0 f : is_mask 0 f 0.
Proof. split; [done |]. intros k. rewrite Z.bits_0. split; [done |]. intros (? & ? & _). lia. Qed.

Lemma is_mask_S n f m : (f n < 32)%nat → is_mask n f m → is_mask (S n) f (m .| u32 (2 ^ Z.of_nat (f n))).
Proof.
  intros Hn [Hm B].
  assert (0 ≤ 2 ^ Z.of_nat (f n) < 2 ^ 32) by (split; [lia | apply Z.pow_lt_mono_r; lia]).
  rewrite wrap_small by done. split; [apply lor_bound; lia |].
  intros k. rewrite Z.lor_spec, testbit_pow2 by lia. rewrite orb_true_iff, B, Z.eqb_eq.
  split.
  - intros [(i & Hi & ->) | E%Nat2Z.inj]; [exists i; split; [lia | done] | exists n; split; [lia | done]].
  - intros (i & Hi & ->). destruct (decide (i = n)) as [-> | N]; [by right |].
    left. exists i. split; [lia | done].
Qed.

Lemma is_mask_step n n' f m m' (b : bool) : is_mask n f m → (b = true → (f n < 32)%nat) →
  n' = (if b then S n else n) → m' = (if b then m .| u32 (2 ^ Z.of_nat (f n)) else m) →
  is_mask n' f m'.
Proof. intros Hm Hn -> ->. destruct b; [apply is_mask_S; auto | done]. Qed.

Lemma is_mask_ones n m : (n ≤ 32)%nat → is_mask n (λ i, i) m → m = 2 ^ Z.of_nat n - 1.
Proof.
  intros Hn [Hm B]. apply Z.bits_inj'. intros j Hj. rewrite <- (Z2Nat.id j) by done.
  replace (2 ^ Z.of_nat n - 1) with (Z.ones (Z.of_nat n)) by (rewrite Z.ones_equiv; lia).
  apply eq_true_iff_eq. rewrite B, Z.testbit_ones_nonneg, Z.ltb_lt by lia.
  split; [intros (i & Hi & E); lia | intros ?; exists (Z.to_nat j); lia].
Qed.

Lemma is_mask_id n f m : is_mask n f m → (n ≤ 32)%nat → (∀ i, i < n → f i = i)%nat →
  m = 2 ^ Z.of_nat n - 1.
Proof.
  intros [Hm B] Hn E. apply is_mask_ones; [done |]. split; [done |]. intros k. rewrite B.
  split; intros (i & Hi & ->); exists i; rewrite E; auto.
Qed.

Lemma rank_mask n f m : (∀ i, (f i < f (S i))%nat) → is_mask n f m → ∀ i, (i ≤ n)%nat → rank m (f i) = i.
Proof. intros Hf [_ B]. by apply rank_seq. Qed.

(** How many bits a coordinate below [n] takes. *)
Definition width_bits (n : Z) : nat := Z.to_nat (Z.log2_up n).

Lemma width_bits_spec n (t : nat) : 0 ≤ n → (2 ^ Z.of_nat t <? n) = bool_decide (t < width_bits n)%nat.
Proof.
  intros Hn. unfold width_bits. apply eq_true_iff_eq. rewrite Z.ltb_lt, bool_decide_eq_true.
  destruct (Z.eq_dec n 0) as [-> | ?]; [cbn; lia |].
  pose proof (Z.log2_up_le_pow2 n (Z.of_nat t) ltac:(lia)). pose proof (Z.log2_up_nonneg n). lia.
Qed.

Lemma width_bits_fits n : 0 ≤ n → n ≤ 2 ^ Z.of_nat (width_bits n).
Proof.
  intros Hn. pose proof (width_bits_spec n (width_bits n) Hn) as E.
  rewrite bool_decide_eq_false_2 in E by lia. by apply Z.ltb_ge in E.
Qed.

Lemma width_bits_31 n : 0 ≤ n ≤ 2 ^ 31 → (width_bits n ≤ 31)%nat.
Proof.
  intros Hn. pose proof (width_bits_spec n 31 ltac:(lia)) as E.
  rewrite (proj2 (Z.ltb_ge (2 ^ Z.of_nat 31) n)) in E by (change (Z.of_nat 31) with 31; lia). symmetry in E.
  apply bool_decide_eq_false in E. lia.
Qed.

Section interleaving.
Context (a b c : nat).

(** Where bit [i] of each coordinate goes: behind the lower bits of its own coordinate and
    behind those of the others that come before it, as far as they have so many. *)
Definition x_bit (i : nat) : nat := i + min b i + min c i.
Definition y_bit (i : nat) : nat := i + min a (S i) + min c i.
Definition z_bit (i : nat) : nat := i + min a (S i) + min b (S i).

Lemma x_bit_mono i : (x_bit i < x_bit (S i))%nat.
Proof. unfold x_bit. lia. Qed.
Lemma y_bit_mono i : (y_bit i < y_bit (S i))%nat.
Proof. unfold y_bit. lia. Qed.
Lemma z_bit_mono i : (z_bit i < z_bit (S i))%nat.
Proof. unfold z_bit. lia. Qed.

Context (Hfit : (a + b + c ≤ 32)%nat).

Definition are_masks (t : nat) (x y z mask_bit : Z) : Prop :=
  is_mask (min t a) x_bit x ∧ is_mask (min t b) y_bit y ∧ is_mask (min t c) z_bit z ∧
  mask_bit = u32 (2 ^ Z.of_nat (min t a + min t b + min t c)).

Lemma mask_bit_next (k : nat) : (k < 32)%nat →
  u32 (u32 (2 ^ Z.of_nat k) .<< 1) = u32 (2 ^ Z.of_nat (S k)).
Proof. intros. rewrite u32_pow2_next by lia. do 2 f_equal. lia. Qed.

(** One turn of the loop, for one coordinate. *)
Lemma is_mask_turn n f m (t k k' : nat) d : (t < n → k = f t ∧ k < 32)%nat →
  k' = (if decide (t < n)%nat then S k else k) → is_mask (min t n) f m →
  ∃ m', (if bool_decide (t < n)%nat then (m .| u32 (2 ^ Z.of_nat k), u32 (u32 (2 ^ Z.of_nat k) .<< 1), false)
         else (m, u32 (2 ^ Z.of_nat k), d)) = (m', u32 (2 ^ Z.of_nat k'), d && bool_decide (n ≤ t)%nat) ∧
        is_mask (min (S t) n) f m'.
Proof.
  intros Hk -> Hm. case_decide as L.
  - destruct Hk as [-> Hk]; [done |]. rewrite (bool_decide_eq_true_2 (t < n)%nat), bool_decide_eq_false_2 by lia.
    rewrite andb_false_r, mask_bit_next by done. eexists. split; [done |].
    replace (min t n) with t in Hm by lia. replace (min (S t) n) with (S t) by lia. by apply is_mask_S.
  - rewrite (bool_decide_eq_false_2 (t < n)%nat), bool_decide_eq_true_2 by lia. rewrite andb_true_r.
    exists m. split; [done |]. by replace (min (S t) n) with (min t n) by lia.
Qed.

Lemma masks_loop_spec width height depth fuel t x y z :
  (∀ t : nat, (2 ^ Z.of_nat t <? width) = bool_decide (t < a)%nat) →
  (∀ t : nat, (2 ^ Z.of_nat t <? height) = bool_decide (t < b)%nat) →
  (∀ t : nat, (2 ^ Z.of_nat t <? depth) = bool_decide (t < c)%nat) →
  (max a (max b c) ≤ 31)%nat → (t ≤ max a (max b c))%nat → (max a (max b c) < fuel + t)%nat →
  is_mask (min t a) x_bit x → is_mask (min t b) y_bit y → is_mask (min t c) z_bit z →
  ∃ x' y' z', masks_loop fuel width height depth x y z (2 ^ Z.of_nat t)
                (u32 (2 ^ Z.of_nat (min t a + min t b + min t c)))
    = Ok (x', y', z', u32 (2 ^ Z.of_nat (a + b + c))) ∧
    is_mask a x_bit x' ∧ is_mask b y_bit y' ∧ is_mask c z_bit z'.
Proof.
  intros Hw Hh Hd Hmax. revert t x y z. induction fuel as [| fuel IH]; intros t x y z Ht Hfuel Hx Hy Hz; [lia |].
  cbn [masks_loop]. rewrite Hw, Hh, Hd.
  edestruct (is_mask_turn a x_bit x t (min t a + min t b + min t c)) as (x' & -> & Hx');
    [unfold x_bit; lia | done | done |].
  edestruct (is_mask_turn b y_bit y t) as (y' & -> & Hy'); [| done | done |].
  { unfold y_bit. case_decide; lia. }
  edestruct (is_mask_turn c z_bit z t) as (z' & -> & Hz'); [| done | done |].
  { unfold z_bit. repeat case_decide; lia. }
  match goal with |- context [if ?d then _ else _] => destruct d eqn:E end.
  - rewrite !andb_true_iff, !bool_decide_eq_true in E. exists x', y', z'.
    replace (min (S t) a) with a in Hx' by lia. replace (min (S t) b) with b in Hy' by lia.
    replace (min (S t) c) with c in Hz' by lia.
    rewrite !decide_False by lia. split; [do 6 f_equal; lia | done].
  - assert (t < max a (max b c))%nat.
    { apply not_true_iff_false in E. rewrite !andb_true_iff, !bool_decide_eq_true in E. lia. }
    replace (u32 (2 ^ Z.of_nat t .<< 1)) with (2 ^ Z.of_nat (S t)).
    + specialize (IH (S t) x' y' z' ltac:(lia) ltac:(lia) Hx' Hy' Hz').
      match goal with |- context [u32 (2 ^ Z.of_nat ?k)] =>
        replace k with (min (S t) a + min (S t) b + min (S t) c)%nat by (repeat case_decide; lia) end.
      exact IH.
    + replace (Z.of_nat (S t)) with (Z.of_nat t + 1) by lia. rewrite Z.pow_add_r, shiftl_mul by lia.
      symmetry. apply wrap_small. rewrite <- Z.pow_add_r by lia. split; [lia |].
      apply Z.pow_lt_mono_r; lia.
Qed.

Lemma bit_0_set n f m : is_mask n f m → (0 < n → f 0 = 0)%nat → (0 < n)%nat → Z.testbit m 0 = true.
Proof. intros [_ B] Hf Hn. apply (B 0%nat). exists 0%nat. split; [done |]. by rewrite Hf. Qed.

Lemma bit_0_clear n f m : is_mask n f m → (∀ i, i < n → f i ≠ 0)%nat → Z.testbit m 0 = false.
Proof. intros [_ B] Hf. apply not_true_is_false. intros (i & Hi & E)%(B 0%nat). by apply (Hf i). Qed.

(** The assertion holds, whatever the sizes. *)
Lemma masks_assertion x y z : is_mask a x_bit x → is_mask b y_bit y → is_mask c z_bit z →
  nz (x .^ y .^ b2z (z =? u32 (u32 (2 ^ Z.of_nat (a + b + c)) - 1))) = true.
Proof.
  intros Hx Hy Hz.
  assert (T : u32 (u32 (2 ^ Z.of_nat (a + b + c)) - 1) = 2 ^ Z.of_nat (a + b + c) - 1).
  { assert (0 < 2 ^ Z.of_nat (a + b + c) ≤ 2 ^ 32) by (split; [lia | apply Z.pow_le_mono_r; lia]).
    unfold wrap. rewrite Zminus_mod_idemp_l. apply Z.mod_small. lia. }
  rewrite T. destruct (decide (a + b = 0)%nat).
  { apply (is_mask_id a) in Hx; [| unfold x_bit; lia ..]. apply (is_mask_id b) in Hy; [| unfold y_bit; lia ..].
    apply (is_mask_id c) in Hz; [| unfold z_bit; lia ..]. rewrite Hx, Hy, Hz.
    replace a with 0%nat by lia. replace b with 0%nat by lia. cbn [Nat.add]. by rewrite Z.eqb_refl. }
  assert (O : Z.testbit (2 ^ Z.of_nat (a + b + c) - 1) 0 = true).
  { replace (2 ^ Z.of_nat (a + b + c) - 1) with (Z.ones (Z.of_nat (a + b + c))) by (rewrite Z.ones_equiv; lia).
    apply Z.ones_spec_low. lia. }
  assert (Z0 : Z.testbit z 0 = false) by (apply (bit_0_clear c z_bit z Hz); unfold z_bit; lia).
  rewrite (proj2 (Z.eqb_neq z _)) by congruence. cbn [b2z]. rewrite Z.lxor_0_r.
  assert (Z.testbit (x .^ y) 0 = true) as B.
  { rewrite Z.lxor_spec. destruct (decide (0 < a)%nat).
    - rewrite (bit_0_set a x_bit x Hx), (bit_0_clear b y_bit y Hy) by (unfold x_bit, y_bit; lia). done.
    - rewrite (bit_0_set b y_bit y Hy), (bit_0_clear a x_bit x Hx) by (unfold x_bit, y_bit; lia). done. }
  unfold nz. destruct (Z.eqb_spec (x .^ y) 0) as [E | E]; [| done]. by rewrite E, Z.bits_0 in B.
Qed.

(** [o] is the place of the texel (x, y, z). *)
Definition interleaved (o x y z : Z) : Prop :=
  0 ≤ o < 2 ^ Z.of_nat (a + b + c) ∧
  (∀ i, i < a → Z.testbit o (Z.of_nat (x_bit i)) = Z.testbit x (Z.of_nat i))%nat ∧
  (∀ i, i < b → Z.testbit o (Z.of_nat (y_bit i)) = Z.testbit y (Z.of_nat i))%nat ∧
  (∀ i, i < c → Z.testbit o (Z.of_nat (z_bit i)) = Z.testbit z (Z.of_nat i))%nat.

Lemma fill_mask n f m v : (∀ i, f i < f (S i))%nat → (f n ≤ 32)%nat → is_mask n f m →
  0 ≤ v < 2 ^ Z.of_nat n →
  ∃ r, fill_pattern m v = Ok r ∧ 0 ≤ r ∧
    (∀ i, i < n → Z.testbit r (Z.of_nat (f i)) = Z.testbit v (Z.of_nat i))%nat ∧
    (∀ k, (∀ i, i < n → k ≠ f i)%nat → Z.testbit r (Z.of_nat k) = false).
Proof.
  intros Hf Hn Hm Hv. pose proof (rank_mask n f m Hf Hm) as R. destruct Hm as [Hm B].
  destruct (fill_pattern_ok m v Hm ltac:(lia)) as (r & -> & Hr & F).
  { pose proof (rank_mono m (f n) 32 Hn) as L. rewrite R in L by done.
    assert (2 ^ Z.of_nat n ≤ 2 ^ Z.of_nat (rank m 32)) by (apply Z.pow_le_mono_r; lia). lia. }
  exists r. split; [done |]. split; [lia |]. split.
  - intros i Hi. rewrite F, R by lia. rewrite (proj2 (B (f i))); [done | by exists i].
  - intros k Hk. rewrite F. replace (Z.testbit m (Z.of_nat k)) with false; [done |].
    symmetry. apply not_true_is_false. intros (i & Hi & E)%B. by apply (Hk i).
Qed.

Lemma offset_interleaved mx my mz x y z bpp :
  is_mask a x_bit mx → is_mask b y_bit my → is_mask c z_bit mz →
  0 ≤ x < 2 ^ Z.of_nat a → 0 ≤ y < 2 ^ Z.of_nat b → 0 ≤ z < 2 ^ Z.of_nat c →
  0 ≤ bpp → bpp * 2 ^ Z.of_nat (a + b + c) ≤ 2 ^ 32 →
  ∃ o, get_swizzled_offset x y z mx my mz bpp = Ok (u32 (bpp * o)) ∧ interleaved o x y z.
Proof.
  intros Hmx Hmy Hmz Hx Hy Hz Hbpp Hsize. unfold get_swizzled_offset.
  destruct (fill_mask a x_bit mx x x_bit_mono) as (rx & -> & Px & Bx & Nx); [unfold x_bit; lia | done | done |].
  destruct (fill_mask b y_bit my y y_bit_mono) as (ry & -> & Py & By & Ny); [unfold y_bit; lia | done | done |].
  destruct (fill_mask c z_bit mz z z_bit_mono) as (rz & -> & Pz & Bz & Nz); [unfold z_bit; lia | done | done |].
  cbn [mbind res_bind]. eexists. split; [done |].
  assert (P : 0 ≤ rx .| ry .| rz) by (rewrite !Z.lor_nonneg; lia).
  split; [split; [done |]; apply bits_bound; [lia | done |] |].
  - intros k Hk. rewrite <- (Z2Nat.id k), !Z.lor_spec by lia.
    rewrite Nx, Ny, Nz; [done | unfold z_bit | unfold y_bit | unfold x_bit]; lia.
  - split_and!; intros i Hi; rewrite !Z.lor_spec.
    + rewrite Bx, Ny, Nz by (done || (unfold x_bit, y_bit, z_bit; lia)). by rewrite !orb_false_r.
    + rewrite By, Nx, Nz by (done || (unfold x_bit, y_bit, z_bit; lia)). by rewrite !orb_false_r.
    + rewrite Bz, Nx, Ny by (done || (unfold x_bit, y_bit, z_bit; lia)). done.
Qed.

Lemma same_bits (n : nat) v v' : 0 ≤ v < 2 ^ Z.of_nat n → 0 ≤ v' < 2 ^ Z.of_nat n →
  (∀ i : nat, (i < n)%nat → Z.testbit v (Z.of_nat i) = Z.testbit v' (Z.of_nat i)) → v = v'.
Proof.
  intros Hv Hv' B. apply Z.bits_inj'. intros i Hi. destruct (Z.lt_ge_cases i (Z.of_nat n)).
  - rewrite <- (Z2Nat.id i) by done. apply B. lia.
  - by rewrite !(testbit_high _ (Z.of_nat n) i).
Qed.

(** Different texels have different places. *)
Lemma interleaved_inj o x y z x' y' z' : interleaved o x y z → interleaved o x' y' z' →
  0 ≤ x < 2 ^ Z.of_nat a → 0 ≤ y < 2 ^ Z.of_nat b → 0 ≤ z < 2 ^ Z.of_nat c →
  0 ≤ x' < 2 ^ Z.of_nat a → 0 ≤ y' < 2 ^ Z.of_nat b → 0 ≤ z' < 2 ^ Z.of_nat c →
  (x, y, z) = (x', y', z').
Proof.
  intros (_ & X & Y & Z) (_ & X' & Y' & Z') ??????. f_equal; [f_equal |].
  - apply (same_bits a); try done. intros. by rewrite <- X, <- X'.
  - apply (same_bits b); try done. intros. by rewrite <- Y, <- Y'.
  - apply (same_bits c); try done. intros. by rewrite <- Z, <- Z'.
Qed.

(** Every place below the size is that of a bit of one of the coordinates. *)
Lemma every_bit (k : nat) : (k < a + b + c)%nat →
  ∃ i, (i < a ∧ k = x_bit i ∨ i < b ∧ k = y_bit i ∨ i < c ∧ k = z_bit i)%nat.
Proof.
  intros Hk.
  assert (H : ∀ t, (k < min t a + min t b + min t c)%nat →
    ∃ i, (i < a ∧ k = x_bit i ∨ i < b ∧ k = y_bit i ∨ i < c ∧ k = z_bit i)%nat).
  { induction t as [| t IH]; intros L; [lia |].
    destruct (decide (k < min t a + min t b + min t c)%nat); [by apply IH |].
    exists t. unfold x_bit, y_bit, z_bit. lia. }
  apply (H (a + b + c)%nat). lia.
Qed.

Lemma interleaved_unique o o' x y z : interleaved o x y z → interleaved o' x y z → o = o'.
Proof.
  intros (Ho & X & Y & Z) (Ho' & X' & Y' & Z'). apply (same_bits (a + b + c)); try done.
  intros k Hk. destruct (every_bit k Hk) as (i & [[Hi ->] | [[Hi ->] | [Hi ->]]]).
  - by rewrite X, X'.
  - by rewrite Y, Y'.
  - by rewrite Z, Z'.
Qed.

End interleaving.

(** ** Copies *)

(** The texels of an image, in the order of the loops. *)
Definition texels (width height depth : Z) : list (Z * Z * Z) :=
  z ← seqZ 0 depth; y ← seqZ 0 height; x ← seqZ 0 width; [(x, y, z)].

Lemma elem_of_texels w h d x y z :
  (x, y, z) ∈ texels w h d ↔ (0 ≤ x < w ∧ 0 ≤ y < h ∧ 0 ≤ z < d).
Proof.
  unfold texels. rewrite list_elem_of_bind. setoid_rewrite list_elem_of_bind.
  setoid_rewrite list_elem_of_bind. setoid_rewrite list_elem_of_singleton.
  setoid_rewrite elem_of_seqZ. split.
  - intros (? & (? & (? & [= -> -> ->] & ?) & ?) & ?). lia.
  - intros. exists z. split; [| lia]. exists y. split; [| lia]. exists x. split; [done | lia].
Qed.

Lemma for_each_foldl {S} range (body : Z → S → res S) (step : Z → S → S) s :
  (∀ i s, i ∈ range → body i s = Ok (step i s)) →
  for_each range body s = Ok (foldl (λ s i, step i s) s range).
Proof.
  revert s. induction range as [| i range IH]; intros s H; cbn; [done |].
  rewrite H by (by left). cbn. apply IH. intros. apply H. by right.
Qed.

Lemma foldl_bind {A B S} (f : S → B → S) (g : A → list B) l s :
  foldl f s (l ≫= g) = foldl (λ s a, foldl f s (g a)) s l.
Proof. revert s. induction l as [| a l IH]; intros s; cbn; [done |]. by rewrite foldl_app, IH. Qed.

(** The three loops, as one over the texels. *)
Lemma for_int_box {S} w h d (body : Z → Z → Z → S → res S) (step : Z * Z * Z → S → S) s :
  w < 2 ^ 31 → h < 2 ^ 31 → d < 2 ^ 31 →
  (∀ x y z s, 0 ≤ x < w ∧ 0 ≤ y < h ∧ 0 ≤ z < d → body z y x s = Ok (step (x, y, z) s)) →
  for_int d (λ z s, for_int h (λ y s, for_int w (λ x s, body z y x s) s) s) s
  = Ok (foldl (λ s c, step c s) s (texels w h d)).
Proof.
  intros Hw Hh Hd H. unfold for_int.
  rewrite !(proj2 (Z.leb_gt _ _)) by done. unfold texels. rewrite foldl_bind.
  apply (for_each_foldl _ _ (λ z s, foldl (λ s c, step c s) s (y ← seqZ 0 h; x ← seqZ 0 w; [(x, y, z)]))).
  intros z s1 Hz%elem_of_seqZ. rewrite foldl_bind.
  apply (for_each_foldl _ _ (λ y s, foldl (λ s c, step c s) s (x ← seqZ 0 w; [(x, y, z)]))).
  intros y s2 Hy%elem_of_seqZ. rewrite foldl_bind.
  apply (for_each_foldl _ _ (λ x s, step (x, y, z) s)). intros x s3 Hx%elem_of_seqZ. apply H. lia.
Qed.

Section copies.
Context `{EqDecision A} (from to : A → Z) (src : mem) (bpp : Z).

Definition copy_all (dst : mem) (l : list A) : mem :=
  foldl (λ dst c, memcpy dst (to c) src (from c) bpp) dst l.

Lemma rd_memcpy dst t s i : 0 ≤ bpp →
  rd (memcpy dst t src s bpp) i = if decide (t ≤ i < t + bpp) then rd src (s + (i - t)) else rd dst i.
Proof.
  intros Hb. unfold memcpy. rewrite rd_wr_bytes, rd_bytes_length, Z2Nat.id by done.
  case_decide as D; [| done]. rewrite list_lookup_total_alt, rd_bytes_lookup by lia.
  cbn. f_equal. lia.
Qed.

Lemma copy_all_frame dst l i : 0 ≤ bpp → (∀ c, c ∈ l → ~ to c ≤ i < to c + bpp) →
  rd (copy_all dst l) i = rd dst i.
Proof.
  intros Hb. revert dst. induction l as [| c l IH]; intros dst H; cbn; [done |].
  unfold copy_all in IH. rewrite IH by (intros; apply H; by right).
  rewrite rd_memcpy by done. rewrite decide_False; [done |]. apply H. by left.
Qed.

(** Copies to places apart from each other all arrive. *)
Lemma copy_all_read dst l c j : 0 ≤ bpp →
  (∀ c c', c ∈ l → c' ∈ l → c = c' ∨ to c + bpp ≤ to c' ∨ to c' + bpp ≤ to c) →
  c ∈ l → 0 ≤ j < bpp → rd (copy_all dst l) (to c + j) = rd src (from c + j).
Proof.
  intros Hb Hd Hc Hj. revert dst. induction l as [| c0 l IH]; intros dst; [by apply not_elem_of_nil in Hc |].
  cbn. change (rd (copy_all (memcpy dst (to c0) src (from c0) bpp) l) (to c + j) = rd src (from c + j)).
  destruct (decide (c ∈ l)) as [Hl | Hl].
  - apply IH; [| done]. intros. apply Hd; by right.
  - assert (c = c0) as -> by (apply elem_of_cons in Hc; naive_solver).
    rewrite copy_all_frame; [rewrite rd_memcpy, decide_True by lia; f_equal; lia | done |].
    intros c' Hc'. destruct (Hd c0 c') as [-> | ?]; [by left | by right | done | lia].
Qed.

Lemma copy_all_bytes dst l c : 0 ≤ bpp →
  (∀ c c', c ∈ l → c' ∈ l → c = c' ∨ to c + bpp ≤ to c' ∨ to c' + bpp ≤ to c) →
  c ∈ l → rd_bytes (copy_all dst l) (to c) bpp = rd_bytes src (from c) bpp.
Proof.
  intros Hb Hd Hc. unfold rd_bytes. apply list_fmap_ext. intros k j Hj.
  apply list_elem_of_lookup_2, elem_of_seqZ in Hj. apply copy_all_read; auto with lia.
Qed.

End copies.

(** ** Images *)

Section image.
Context (w h d bpp row_pitch slice_pitch : Z).

(** An image whose sizes the code handles: offsets of texels stay in 32 bits, rows and
    slices do not overlap. *)
Definition image_ok : Prop :=
  0 ≤ w < 2 ^ 31 ∧ 0 ≤ h < 2 ^ 31 ∧ 0 ≤ d < 2 ^ 31 ∧ 0 ≤ bpp ∧
  (width_bits w + width_bits h + width_bits d ≤ 32)%nat ∧
  bpp * 2 ^ Z.of_nat (width_bits w + width_bits h + width_bits d) ≤ 2 ^ 32 ∧
  w * bpp ≤ row_pitch ∧ h * row_pitch < 2 ^ 32 ∧ (d ≤ 1 ∨ h * row_pitch ≤ slice_pitch).

(** Where the texel is in the rows of the image. *)
Definition linear (c : Z * Z * Z) : Z :=
  let '(x, y, z) := c in z * slice_pitch + y * row_pitch + x * bpp.

(** Where it is in the swizzled image. *)
Definition swizzled (c : Z * Z * Z) (o : Z) : Prop :=
  let '(x, y, z) := c in interleaved (width_bits w) (width_bits h) (width_bits d) o x y z.

Lemma linear_before x y z x' y' z' : image_ok →
  0 ≤ x < w → 0 ≤ y < h → 0 ≤ z < d → 0 ≤ x' < w → 0 ≤ y' < h → 0 ≤ z' < d →
  z < z' ∨ z = z' ∧ (y < y' ∨ y = y' ∧ x < x') → linear (x, y, z) + bpp ≤ linear (x', y', z').
Proof.
  intros (_ & _ & _ & Hb & _ & _ & Hrow & _ & Hslice) Hx Hy Hz Hx' Hy' Hz' L. unfold linear.
  assert (x * bpp + bpp ≤ row_pitch) by nia. assert (0 ≤ x' * bpp) by nia.
  assert (y * row_pitch + x * bpp + bpp ≤ h * row_pitch) by nia.
  assert (0 ≤ y' * row_pitch) by nia.
  destruct L as [L | [-> [L | [-> L]]]]; [| nia ..].
  destruct Hslice; [lia |]. assert (0 ≤ y * row_pitch) by nia. assert (0 ≤ x * bpp) by nia.
  assert ((z + 1) * slice_pitch ≤ z' * slice_pitch) by (apply Z.mul_le_mono_nonneg_r; lia). lia.
Qed.

Lemma linear_apart c c' : image_ok → c ∈ texels w h d → c' ∈ texels w h d →
  c = c' ∨ linear c + bpp ≤ linear c' ∨ linear c' + bpp ≤ linear c.
Proof.
  destruct c as [[x y] z], c' as [[x' y'] z']. rewrite !elem_of_texels. intros Hok ? ?.
  destruct (decide ((x, y, z) = (x', y', z'))) as [-> | N]; [by left |]. right.
  assert ((z < z' ∨ z = z' ∧ (y < y' ∨ y = y' ∧ x < x')) ∨
          (z' < z ∨ z' = z ∧ (y' < y ∨ y' = y ∧ x' < x))) as [L | L].
  { destruct (Z.lt_total z z') as [? | [-> | ?]]; [lia | | lia].
    destruct (Z.lt_total y y') as [? | [-> | ?]]; [lia | | lia].
    destruct (Z.lt_total x x') as [? | [-> | ?]]; [lia | done | lia]. }
  - left. apply linear_before; tauto.
  - right. apply linear_before; tauto.
Qed.

Lemma linear_u32 x y z : image_ok → (x, y, z) ∈ texels w h d →
  z * slice_pitch + u32 (y * row_pitch) + u32 (x * bpp) = linear (x, y, z).
Proof.
  rewrite elem_of_texels. intros (_ & _ & _ & Hb & _ & _ & Hrow & Hh & _) (Hx & Hy & Hz).
  unfold linear. assert (0 ≤ x * bpp ≤ row_pitch) by nia. assert (row_pitch ≤ h * row_pitch) by nia.
  rewrite !wrap_small by nia. done.
Qed.

Lemma masks_of_image : image_ok → ∃ mx my mz,
  generate_swizzle_masks w h d = Ok (mx, my, mz) ∧
  is_mask (width_bits w) (x_bit (width_bits h) (width_bits d)) mx ∧
  is_mask (width_bits h) (y_bit (width_bits w) (width_bits d)) my ∧
  is_mask (width_bits d) (z_bit (width_bits w) (width_bits h)) mz.
Proof.
  intros (Hw & Hh & Hd & Hb & Hbits & _).
  pose proof (width_bits_31 w ltac:(lia)). pose proof (width_bits_31 h ltac:(lia)).
  pose proof (width_bits_31 d ltac:(lia)).
  destruct (masks_loop_spec (width_bits w) (width_bits h) (width_bits d) Hbits w h d 33 0 0 0 0)
    as (mx & my & mz & E & Hx & Hy & Hz).
  1-3: intros; apply width_bits_spec; lia.
  1-3: lia.
  1-3: by apply is_mask_0.
  change (u32 (2 ^ Z.of_nat (min 0 _ + min 0 _ + min 0 _))) with 1 in E. change (2 ^ Z.of_nat 0) with 1 in E.
  exists mx, my, mz. split; [| done]. unfold generate_swizzle_masks. rewrite E. cbn [mbind res_bind].
  rewrite (masks_assertion _ _ _ Hbits) by done. done.
Qed.

Lemma texel_bits x y z : image_ok → (x, y, z) ∈ texels w h d →
  0 ≤ x < 2 ^ Z.of_nat (width_bits w) ∧ 0 ≤ y < 2 ^ Z.of_nat (width_bits h) ∧
  0 ≤ z < 2 ^ Z.of_nat (width_bits d).
Proof.
  rewrite elem_of_texels. intros (Hw & Hh & Hd & _) ?.
  pose proof (width_bits_fits w ltac:(lia)). pose proof (width_bits_fits h ltac:(lia)).
  pose proof (width_bits_fits d ltac:(lia)). lia.
Qed.

(** The offset the code computes for a texel. *)
Lemma offset_of_texel mx my mz x y z : image_ok →
  is_mask (width_bits w) (x_bit (width_bits h) (width_bits d)) mx →
  is_mask (width_bits h) (y_bit (width_bits w) (width_bits d)) my →
  is_mask (width_bits d) (z_bit (width_bits w) (width_bits h)) mz →
  (x, y, z) ∈ texels w h d →
  ∃ o, get_swizzled_offset x y z mx my mz bpp = Ok (bpp * o) ∧ swizzled (x, y, z) o.
Proof.
  intros Hok Hmx Hmy Hmz Hc. pose proof (texel_bits x y z Hok Hc) as (Hx & Hy & Hz).
  destruct Hok as (Hw & Hh & Hd & Hb & Hbits & Hsize & _).
  destruct (offset_interleaved _ _ _ Hbits mx my mz x y z bpp) as (o & E & Ho); try done.
  exists o. split; [| done]. destruct Ho as [Ho _]. rewrite E, wrap_small; [done |].
  destruct (Z.eq_dec bpp 0) as [-> |]; [lia |]. nia.
Qed.

(** The places of different texels are apart. *)
Lemma swizzled_apart c c' o o' : image_ok → c ∈ texels w h d → c' ∈ texels w h d →
  swizzled c o → swizzled c' o' → c = c' ∨ bpp * o + bpp ≤ bpp * o' ∨ bpp * o' + bpp ≤ bpp * o.
Proof.
  destruct c as [[x y] z], c' as [[x' y'] z']. intros Hok Hc Hc' Ho Ho'.
  pose proof (texel_bits _ _ _ Hok Hc) as (? & ? & ?). pose proof (texel_bits _ _ _ Hok Hc') as (? & ? & ?).
  destruct (Z.lt_total o o') as [? | [-> | ?]].
  - right. left. destruct Hok as (_ & _ & _ & ? & _). nia.
  - left. destruct Hok as (_ & _ & _ & _ & Hbits & _). by eapply interleaved_inj.
  - right. right. destruct Hok as (_ & _ & _ & ? & _). nia.
Qed.

Lemma swizzled_unique c o o' : image_ok → swizzled c o → swizzled c o' → o = o'.
Proof.
  destruct c as [[x y] z]. intros (_ & _ & _ & _ & Hbits & _) Ho Ho'. by eapply interleaved_unique.
Qed.

End image.

(** The offset of a texel, when it is one of the image. *)
Definition offset_or_0 (mx my mz bpp : Z) (c : Z * Z * Z) : Z :=
  let '(x, y, z) := c in
  match get_swizzled_offset x y z mx my mz bpp with Ok o => o | Fault _ => 0 end.

Lemma unswizzle_box_spec src dst w h d bpp row_pitch slice_pitch :
  image_ok w h d bpp row_pitch slice_pitch →
  ∃ dst', unswizzle_box src w h d dst row_pitch slice_pitch bpp = Ok dst' ∧
    ∀ c, c ∈ texels w h d → ∃ o, swizzled w h d c o ∧
      rd_bytes dst' (linear bpp row_pitch slice_pitch c) bpp = rd_bytes src (bpp * o) bpp.
Proof.
  intros Hok. destruct (masks_of_image _ _ _ _ _ _ Hok) as (mx & my & mz & E & Hx & Hy & Hz).
  set (from := offset_or_0 mx my mz bpp). set (to := linear bpp row_pitch slice_pitch).
  exists (copy_all from to src bpp dst (texels w h d)).
  assert (Hb : 0 ≤ bpp) by apply Hok. split.
  - unfold unswizzle_box. rewrite E. cbn [mbind res_bind].
    apply (for_int_box w h d _ (λ c dst, memcpy dst (to c) src (from c) bpp)); try apply Hok.
    intros x y z m Hc%elem_of_texels. unfold from, offset_or_0.
    destruct (offset_of_texel _ _ _ _ _ _ mx my mz x y z Hok Hx Hy Hz Hc) as (o & -> & _).
    cbn [mbind res_bind]. by rewrite (linear_u32 w h d) by done.
  - intros [[x y] z] Hc.
    destruct (offset_of_texel _ _ _ _ _ _ mx my mz x y z Hok Hx Hy Hz Hc) as (o & Eo & Ho).
    exists o. split; [done |].
    replace (bpp * o) with (from (x, y, z)) by (unfold from, offset_or_0; by rewrite Eo).
    apply copy_all_bytes; [done | intros; by apply (linear_apart w h d) | done].
Qed.

(** The copies that [swizzle_rect] makes. *)
Lemma swizzle_rect_copies src dst w h bpp row_pitch :
  image_ok w h 1 bpp row_pitch 0 →
  ∃ to, swizzle_rect src w h dst row_pitch bpp =
      Ok (copy_all (linear bpp row_pitch 0) to src bpp dst (texels w h 1)) ∧
    ∀ c, c ∈ texels w h 1 → ∃ o, to c = bpp * o ∧ swizzled w h 1 c o.
Proof.
  intros Hok. destruct (masks_of_image _ _ _ _ _ _ Hok) as (mx & my & mz & E & Hx & Hy & Hz).
  assert (mz = 0) as -> by (by apply (is_mask_id 0) in Hz; [| lia ..]).
  set (to := offset_or_0 mx my 0 bpp). set (from := linear bpp row_pitch 0). exists to. split.
  - unfold swizzle_rect, swizzle_box. rewrite E. cbn [mbind res_bind].
    apply (for_int_box w h 1 _ (λ c dst, memcpy dst (to c) src (from c) bpp)); try apply Hok.
    intros x y z m Hc%elem_of_texels. unfold to, offset_or_0.
    replace z with 0 in * by (apply elem_of_texels in Hc; lia).
    destruct (offset_of_texel _ _ _ _ _ _ mx my 0 x y 0 Hok Hx Hy Hz Hc) as (o & -> & _).
    cbn [mbind res_bind]. by rewrite (linear_u32 w h 1) by done.
  - intros [[x1 y1] z1] Hc1.
    destruct (offset_of_texel _ _ _ _ _ _ mx my 0 x1 y1 z1 Hok Hx Hy Hz Hc1) as (o1 & Eo & Ho1).
    exists o1. split; [| done]. unfold to, offset_or_0. by rewrite Eo.
Qed.

Lemma swizzle_rect_spec src dst w h bpp row_pitch :
  image_ok w h 1 bpp row_pitch 0 →
  ∃ dst', swizzle_rect src w h dst row_pitch bpp = Ok dst' ∧
    ∀ c o, c ∈ texels w h 1 → swizzled w h 1 c o →
      rd_bytes dst' (bpp * o) bpp = rd_bytes src (linear bpp row_pitch 0 c) bpp.
Proof.
  intros Hok. destruct (swizzle_rect_copies src dst w h bpp row_pitch Hok) as (to & E & T).
  eexists. split; [exact E |]. assert (Hb : 0 ≤ bpp) by apply Hok. intros c o Hc Ho.
  destruct (T _ Hc) as (o1 & Eo & Ho1). rewrite (swizzled_unique _ _ _ _ _ _ _ _ _ Hok Ho Ho1), <- Eo.
  apply copy_all_bytes; [done | | done]. intros c1 c' H1 H2.
  destruct (T _ H1) as (p1 & -> & P1). destruct (T _ H2) as (p2 & -> & P2).
  by eapply swizzled_apart.
Qed.

(** C22: for every image whose sizes fit, the masks are generated (the assertion holds and
    the loop ends) and the offset the code computes for a texel is its place: bit [i] of x
    is bit [i + min(by, i) + min(bz, i)] of it, where bx, by and bz are the numbers of bits
    of the coordinates, and the bits of y and z follow those of x.  Different texels have
    different places. *)
Theorem get_swizzled_offset_correct w h d bpp row_pitch slice_pitch :
  image_ok w h d bpp row_pitch slice_pitch →
  ∃ mx my mz, generate_swizzle_masks w h d = Ok (mx, my, mz) ∧
    (∀ x y z, 0 ≤ x < w → 0 ≤ y < h → 0 ≤ z < d →
       ∃ o, get_swizzled_offset x y z mx my mz bpp = Ok (bpp * o) ∧
            interleaved (width_bits w) (width_bits h) (width_bits d) o x y z) ∧
    (∀ x y z x' y' z' o, 0 ≤ x < w → 0 ≤ y < h → 0 ≤ z < d → 0 ≤ x' < w → 0 ≤ y' < h → 0 ≤ z' < d →
       interleaved (width_bits w) (width_bits h) (width_bits d) o x y z →
       interleaved (width_bits w) (width_bits h) (width_bits d) o x' y' z' →
       (x, y, z) = (x', y', z')).
Proof.
  intros Hok. destruct (masks_of_image _ _ _ _ _ _ Hok) as (mx & my & mz & E & Hx & Hy & Hz).
  exists mx, my, mz. split; [done |]. split.
  - intros x y z ???. apply (offset_of_texel _ _ _ _ _ _ mx my mz x y z Hok Hx Hy Hz).
    apply elem_of_texels. lia.
  - intros x y z x' y' z' o ?????? Ho Ho'.
    pose proof (texel_bits _ _ _ _ _ _ x y z Hok ltac:(apply elem_of_texels; lia)) as (? & ? & ?).
    pose proof (texel_bits _ _ _ _ _ _ x' y' z' Hok ltac:(apply elem_of_texels; lia)) as (? & ? & ?).
    destruct Hok as (_ & _ & _ & _ & Hbits & _). by eapply interleaved_inj.
Qed.

Lemma image_4_2 : image_ok 4 2 1 1 4 0.
Proof. unfold image_ok. decided. Qed.

Lemma get_swizzled_offset_correct_witness :
  ∃ mx my mz, generate_swizzle_masks 4 2 1 = Ok (mx, my, mz) ∧
    ∃ o, get_swizzled_offset 3 1 0 mx my mz 1 = Ok (1 * o) ∧ interleaved 2 1 0 o 3 1 0.
Proof.
  destruct (get_swizzled_offset_correct 4 2 1 1 4 0 image_4_2) as (mx & my & mz & E & H & _).
  exists mx, my, mz. split; [exact E |]. exact (H 3 1 0 ltac:(lia) ltac:(lia) ltac:(lia)).
Defined.

(** C15: an image converted to the swizzled order and back is the image: both conversions
    return, and every texel of the result has the bytes of the original, whatever the two
    destination buffers held. *)
Theorem unswizzle_swizzle_rect src tmp dst w h bpp pitch :
  image_ok w h 1 bpp pitch 0 →
  ∃ tmp' dst', swizzle_rect src w h tmp pitch bpp = Ok tmp' ∧
    unswizzle_rect tmp' w h dst pitch bpp = Ok dst' ∧
    ∀ x y, 0 ≤ x < w → 0 ≤ y < h →
      rd_bytes dst' (y * pitch + x * bpp) bpp = rd_bytes src (y * pitch + x * bpp) bpp.
Proof.
  intros Hok. destruct (swizzle_rect_spec src tmp w h bpp pitch Hok) as (tmp' & E & T).
  destruct (unswizzle_box_spec tmp' dst w h 1 bpp pitch 0 Hok) as (dst' & E' & D).
  exists tmp', dst'. split; [done |]. split; [done |]. intros x y Hx Hy.
  assert (Hc : (x, y, 0) ∈ texels w h 1) by (apply elem_of_texels; lia).
  destruct (D _ Hc) as (o & Ho & R). rewrite (T _ _ Hc Ho) in R. exact R.
Qed.

Lemma unswizzle_swizzle_rect_witness :
  ∃ tmp' dst', swizzle_rect (wr_bytes ∅ 0 [10; 11; 12; 13; 14; 15; 16; 17]) 4 2 ∅ 4 1 = Ok tmp' ∧
    unswizzle_rect tmp' 4 2 ∅ 4 1 = Ok dst' ∧ rd_bytes dst' 6 1 = [16] ∧ rd tmp' 5 = 13.
Proof.
  destruct (unswizzle_swizzle_rect (wr_bytes ∅ 0 [10; 11; 12; 13; 14; 15; 16; 17]) ∅ ∅ 4 2 1 4 image_4_2)
    as (tmp' & dst' & E & E' & H).
  exists tmp', dst'. split; [exact E |]. split; [exact E' |]. split.
  - exact (H 2 1 ltac:(lia) ltac:(lia)).
  - vm_compute in E. injection E as <-. reflexivity.
Defined.

(** A coordinate that needs more bits than its mask has makes [fill_pattern] loop for
    ever; with enough bits it returns. *)
Theorem fill_pattern_ends p v : 0 ≤ p < 2 ^ 32 → 0 ≤ v →
  (is_ok (fill_pattern p v) = true ↔ v < 2 ^ Z.of_nat (rank p 32)) ∧
  (is_ok (fill_pattern p v) = false → fill_pattern p v = Fault out_of_fuel).
Proof.
  intros Hp Hv. pose proof (fill_pattern_cases p v Hp Hv). destruct (fill_pattern p v); cbn [is_ok].
  - naive_solver.
  - destruct H as [-> ?]. split; [split; [done | intros; exfalso; lia] | done].
Qed.

(** With more than one slice [swizzle_box] writes every slice to the places of the first:
    the image that is left is the last slice. *)
Lemma swizzle_box_drops_slices :
  ∃ m, swizzle_box (wr_bytes ∅ 0 [1; 2; 3; 4; 5; 6; 7; 8]) 2 2 2 ∅ 2 4 1 = Ok m ∧
    rd_bytes m 0 8 = [5; 6; 7; 8; 0; 0; 0; 0].
Proof. eexists. split; vm_compute; reflexivity. Qed.
