(* ===== verification/Lru.v ===== *)
(** * The LRU object cache

    src/hw/xbox/nv2a/lru.c and lru.h, which hold the textures the GPU has converted.  Two
    singly linked lists thread the preallocated nodes: those in use, the most recently
    used first, and those that are free.  The nodes live in a heap of addresses, as in C;
    the object a node is embedded in is reached through three callbacks, which may change
    a world [W] outside of the cache.

    The lists are shown to represent sequences, and [lru_lookup] and [lru_flush] to do on
    the heap what their comments promise of those sequences. *)

From S2P Require Import Prelude.

(** The callbacks, with the object as the value they read and write. *)
Class LruObject (W Obj Key : Type) := {
  obj_init : W → Obj → Key → res (Obj * W);
  obj_deinit : W → Obj → res (Obj * W);
  obj_key_compare : Obj → Key → Z
}.

(** ** The code *)

Section lru.
Context {W Obj Key : Type} `{LruObject W Obj Key}.

(** A node and the object around it; [next] is an address or [NULL]. *)
Record lru_node := Node {
  hash : Z;
  next : option Z;
  obj : Obj
}.

Record lru := Lru {
  heap : gmap Z lru_node;
  active : option Z;
  free : option Z;
  num_free : Z;
  num_collisions : Z;
  num_hit : Z;
  num_miss : Z
}.

Implicit Types (w : W) (s : lru) (h : gmap Z lru_node) (p : option Z) (i : Z).

Definition deref h p : res (Z * lru_node) :=
  match p with
  | None => Fault undefined_behaviour
  | Some i => match h !! i with Some n => Ok (i, n) | None => Fault undefined_behaviour end
  end.

Definition lru_init h : lru := Lru h None None 0 0 0 0.

Definition lru_add_free s i : res lru :=
  '(_, n) ← deref (heap s) (Some i);
  Ok (Lru (<[i := Node (hash n) (free s) (obj n)]> (heap s)) (active s) (Some i)
        (u64 (num_free s + 1)) (num_collisions s) (num_hit s) (num_miss s)).

(** How the walk along the active list ends: on the node looked for, or on the last one;
    [prev] is the node before, and the number is that of the collisions on the way. *)
Inductive walk_end :=
| Found (prev : option Z) (node : Z) (collisions : Z)
| Missed (prev : option Z) (node : Z) (collisions : Z).

Fixpoint lookup_walk (fuel : nat) h (prev node : option Z) (hsh : Z) (key : Key) (collisions : Z)
    : res walk_end :=
  match fuel with
  | O => Fault out_of_fuel
  | S fuel =>
      '(i, n) ← deref h node;
      let same := hash n =? hsh in
      if same && (obj_key_compare (obj n) key =? 0) then Ok (Found prev i collisions)
      else
        let collisions := if same then u64 (collisions + 1) else collisions in
        match next n with
        | None => Ok (Missed prev i collisions)
        | Some _ => lookup_walk fuel h (Some i) (next n) hsh key collisions
        end
  end.

(** [p->next = q]. *)
Definition set_next h i (q : option Z) : res (gmap Z lru_node) :=
  '(_, n) ← deref h (Some i);
  Ok (<[i := Node (hash n) q (obj n)]> h).

(** The hit: unlink the node and promote it. *)
Definition promote s (prev : option Z) i (collisions : Z) : res (Z * lru) :=
  match prev with
  | None => Ok (i, Lru (heap s) (active s) (free s) (num_free s) collisions
                     (u64 (num_hit s + 1)) (num_miss s))
  | Some j =>
      '(_, n) ← deref (heap s) (Some i);
      h ← set_next (heap s) j (next n);
      h ← set_next h i (active s);
      Ok (i, Lru h (Some i) (free s) (num_free s) collisions (u64 (num_hit s + 1)) (num_miss s))
  end.

(** Eviction of the last node of the active list. *)
Definition evict w s (prev : option Z) (node : option Z) : res (lru * W) :=
  _ ← assert (bool_decide (node ≠ None));
  '(i, n) ← deref (heap s) node;
  '(h, a) ← (match prev with
             | None => Ok (heap s, None)
             | Some j => h ← set_next (heap s) j (next n); Ok (h, active s)
             end);
  '(_, n) ← deref h (Some i);
  '(o, w) ← obj_deinit w (obj n);
  s ← lru_add_free (Lru (<[i := Node (hash n) (next n) o]> h) a (free s)
                      (num_free s) (num_collisions s) (num_hit s) (num_miss s)) i;
  Ok (s, w).

(** The tail of [lru_lookup]: take a node of the free list. *)
Definition allocate w s (hsh : Z) (key : Key) : res (Z * lru * W) :=
  _ ← assert (bool_decide (free s ≠ None));
  '(i, n) ← deref (heap s) (free s);
  '(o, w) ← obj_init w (obj n) key;
  Ok (i, Lru (<[i := Node hsh (active s) o]> (heap s)) (Some i) (next n)
           (u64 (num_free s - 1)) (num_collisions s) (num_hit s) (num_miss s), w).

(** The object is not in the cache. *)
Definition lookup_miss w s (prev node : option Z) (hsh : Z) (key : Key) : res (Z * lru * W) :=
  let s := Lru (heap s) (active s) (free s) (num_free s) (num_collisions s) (num_hit s)
             (u64 (num_miss s + 1)) in
  '(s, w) ← (match free s with None => evict w s prev node | Some _ => Ok (s, w) end);
  allocate w s hsh key.

(** The walk visits a node of the heap at most once, so their number is enough fuel. *)
Definition lru_lookup w s (hsh : Z) (key : Key) : res (Z * lru * W) :=
  _ ← assert (bool_decide (active s ≠ None) || bool_decide (free s ≠ None));
  match active s with
  | None => lookup_miss w s None None hsh key
  | Some _ =>
      e ← lookup_walk (size (heap s)) (heap s) None (active s) hsh key (num_collisions s);
      match e with
      | Found prev i c => '(i, s) ← promote s prev i c; Ok (i, s, w)
      | Missed prev i c =>
          lookup_miss w (Lru (heap s) (active s) (free s) (num_free s) c (num_hit s) (num_miss s))
            prev (Some i) hsh key
      end
  end.

(** The loop of [lru_flush]. *)
Fixpoint flush_loop (fuel : nat) w s (node : option Z) : res (lru * W) :=
  match node with
  | None => Ok (s, w)
  | Some _ =>
      match fuel with
      | O => Fault out_of_fuel
      | S fuel =>
          '(i, n) ← deref (heap s) node;
          '(o, w) ← obj_deinit w (obj n);
          s ← lru_add_free
                (Lru (<[i := Node (hash n) (next n) o]> (heap s)) (active s)
                   (free s) (num_free s) (num_collisions s) (num_hit s) (num_miss s)) i;
          flush_loop fuel w s (next n)
      end
  end.

Definition lru_flush w s : res (lru * W) :=
  '(s, w) ← flush_loop (size (heap s)) w s (active s);
  Ok (Lru (heap s) None (free s) (num_free s) (num_collisions s) (num_hit s) (num_miss s), w).

(** ** Lists in the heap *)

(** The list that starts at [p] has the nodes [l]. *)
Fixpoint chain h p (l : list Z) : Prop :=
  match l with
  | [] => p = None
  | i :: l => p = Some i ∧ ∃ n, h !! i = Some n ∧ chain h (next n) l
  end.

Lemma chain_frame h p l i n : i ∉ l → chain h p l → chain (<[i := n]> h) p l.
Proof.
  revert p. induction l as [| j l IH]; intros p Hi; cbn; [done |].
  apply not_elem_of_cons in Hi as [Hij Hi]. intros (-> & nj & Hj & C). split; [done |].
  exists nj. rewrite lookup_insert_ne by done. auto.
Qed.

Lemma chain_head h p l : chain h p l → p = head l.
Proof. destruct l; cbn; [done |]. by intros [-> _]. Qed.

Lemma chain_lookup h p l i : chain h p l → i ∈ l → ∃ n, h !! i = Some n.
Proof.
  revert p. induction l as [| j l IH]; intros p; [by intros _ ?%not_elem_of_nil |].
  cbn. intros (_ & n & Hn & C) [-> | Hi]%elem_of_cons; eauto.
Qed.

Lemma chain_length h p l : chain h p l → NoDup l → (length l ≤ size h)%nat.
Proof.
  intros C ND. rewrite <- size_dom, <- (size_list_to_set (C := gset Z) l) by done.
  apply subseteq_size. intros i Hi%elem_of_list_to_set. apply elem_of_dom.
  destruct (chain_lookup h p l i C Hi) as [n ->]. done.
Qed.

(** The part of the list behind a node. *)
Lemma chain_behind h p l1 i l2 : chain h p (l1 ++ i :: l2) →
  ∃ n, h !! i = Some n ∧ chain h (next n) l2.
Proof.
  revert p. induction l1 as [| j l1 IH]; intros p; cbn; intros (_ & n & Hn & C); [by exists n |]. eauto.
Qed.

(** Storing another tail behind a node. *)
Lemma chain_relink h p l1 i l2 l2' n q o hs :
  NoDup (l1 ++ i :: l2) → i ∉ l2' → chain h p (l1 ++ i :: l2) → h !! i = Some n → chain h q l2' →
  chain (<[i := Node hs q o]> h) p (l1 ++ i :: l2').
Proof.
  intros ND Hi' C Hn C'. revert p C. induction l1 as [| j l1 IH]; intros p; cbn.
  - intros (-> & _). split; [done |]. eexists. split; [apply lookup_insert_eq |]. cbn.
    by apply chain_frame.
  - cbn in ND. apply NoDup_cons in ND as [Hj ND]. intros (-> & nj & Ej & C). split; [done |].
    exists nj. rewrite lookup_insert_ne by (intros ->; apply Hj, elem_of_app; right; left).
    split; [done |]. by apply IH.
Qed.

Lemma chain_cons h i n p l o hs : i ∉ l → h !! i = Some n → chain h p l →
  chain (<[i := Node hs p o]> h) (Some i) (i :: l).
Proof.
  intros Hi Hn C. split; [done |]. eexists. split; [apply lookup_insert_eq |]. by apply chain_frame.
Qed.
(** ** What the cache promises *)

(** The nodes in use, the most recently used first, the free ones, and what each node
    holds: its hash and its object. *)
Record view := View {
  used : list Z;
  unused : list Z;
  contents : gmap Z (Z * Obj)
}.

Definition view_of h : gmap Z (Z * Obj) := (λ n, (hash n, obj n)) <$> h.

Definition represents s (v : view) : Prop :=
  chain (heap s) (active s) (used v) ∧ chain (heap s) (free s) (unused v) ∧
  NoDup (used v ++ unused v) ∧ contents v = view_of (heap s) ∧
  num_free s = u64 (Z.of_nat (length (unused v))).

(** The node [i] holds the object of that hash and key. *)
Definition holds (c : gmap Z (Z * Obj)) (hsh : Z) (key : Key) i : bool :=
  match c !! i with
  | Some (hs, o) => (hs =? hsh) && (obj_key_compare o key =? 0)
  | None => false
  end.

(** [i] now holds what [f] makes of its object, under the hash [hsh]. *)
Definition refill (c : gmap Z (Z * Obj)) i (hsh : Z) (f : Obj → Obj) : gmap Z (Z * Obj) :=
  match c !! i with Some (_, o) => <[i := (hsh, f o)]> c | None => c end.

(** The object of [i] is closed; and it is set up for a key, under a hash. *)
Definition close w (c : gmap Z (Z * Obj)) i : res (gmap Z (Z * Obj) * W) :=
  match c !! i with
  | Some (hs, o) => '(o, w) ← obj_deinit w o; Ok (<[i := (hs, o)]> c, w)
  | None => Fault undefined_behaviour
  end.

Definition fill w (c : gmap Z (Z * Obj)) i (hsh : Z) (key : Key) : res (gmap Z (Z * Obj) * W) :=
  match c !! i with
  | Some (_, o) => '(o, w) ← obj_init w o key; Ok (<[i := (hsh, o)]> c, w)
  | None => Fault undefined_behaviour
  end.

(** A lookup: the first node that holds the object moves to the front; if there is none, a
    free node or else the least recently used one is filled and put in front. *)
Definition spec_lookup w (v : view) (hsh : Z) (key : Key) : res (Z * view * W) :=
  match list_find (λ i, holds (contents v) hsh key i = true) (used v) with
  | Some (k, i) => Ok (i, View (i :: delete k (used v)) (unused v) (contents v), w)
  | None =>
      match unused v, last (used v) with
      | i :: rest, _ =>
          '(c, w) ← fill w (contents v) i hsh key;
          Ok (i, View (i :: used v) rest c, w)
      | [], Some i =>
          '(c, w) ← close w (contents v) i;
          '(c, w) ← fill w c i hsh key;
          Ok (i, View (i :: take (pred (length (used v))) (used v)) [] c, w)
      | [], None => Fault assert_failed
      end
  end.

(** The outcome of an operation on the lists and that of its specification: the same value
    and world and a state that represents the view, or the same fault. *)
Definition agree {A} (r : res (A * lru * W)) (q : res (A * view * W)) : Prop :=
  match r, q with
  | Ok (a, s, w), Ok (a', v, w') => a = a' ∧ w = w' ∧ represents s v
  | Fault f, Fault f' => f = f'
  | _, _ => False
  end.

(** ** The walk *)

Lemma view_lookup h i n : h !! i = Some n → view_of h !! i = Some (hash n, obj n).
Proof. intros E. unfold view_of. by rewrite lookup_fmap, E. Qed.

Lemma view_insert h i hs p o n : h !! i = Some n →
  view_of (<[i := Node hs p o]> h) = refill (view_of h) i hs (λ _, o).
Proof.
  intros E. unfold refill. rewrite (view_lookup h i n E). unfold view_of. by rewrite fmap_insert.
Qed.

Lemma view_set_next h i p n : h !! i = Some n → view_of (<[i := Node (hash n) p (obj n)]> h) = view_of h.
Proof.
  intros E. unfold view_of. rewrite fmap_insert. apply insert_id. by rewrite lookup_fmap, E.
Qed.

(** The walk finds the first node that holds the object, or ends on the last one; in both
    cases it knows the node before. *)
Lemma lookup_walk_spec h hsh key fuel pre rest node c : 
  rest ≠ [] → chain h node rest → (length rest ≤ fuel)%nat →
  ∃ c', match list_find (λ i, holds (view_of h) hsh key i = true) rest with
        | Some (k, i) => lookup_walk fuel h (last pre) node hsh key c =
                           Ok (Found (last (pre ++ take k rest)) i c')
        | None => ∃ l i, rest = l ++ [i] ∧ lookup_walk fuel h (last pre) node hsh key c =
                           Ok (Missed (last (pre ++ l)) i c')
        end.
Proof.
  revert pre rest node c. induction fuel as [| fuel IH]; intros pre [| i rest] node c N C L; cbn in L; [done | lia | done |].
  cbn [chain] in C. destruct C as (-> & n & Hn & C). cbn [lookup_walk deref]. rewrite Hn. cbn [mbind res_bind].
  assert (E : holds (view_of h) hsh key i = (hash n =? hsh) && (obj_key_compare (obj n) key =? 0))
    by (unfold holds; by rewrite (view_lookup h i n Hn)).
  cbn [list_find]. rewrite <- E. case_decide as D.
  - eexists. rewrite D. cbn. by rewrite app_nil_r.
  - apply not_true_is_false in D. rewrite D. destruct rest as [| j rest].
    + cbn in C. rewrite C. cbn. eexists. exists [], i. by rewrite app_nil_r.
    + specialize (IH (pre ++ [i]) (j :: rest) (next n)
        (if hash n =? hsh then u64 (c + 1) else c) ltac:(done) C ltac:(cbn in *; lia)).
      rewrite last_snoc in IH. destruct IH as [c' IH]. exists c'.
      destruct C as [En C]. rewrite En in *. destruct (list_find _ (j :: rest)) as [[k j'] |] eqn:F; cbn [fmap option_fmap option_map prod_map] in *.
      * rewrite IH. do 2 f_equal. by rewrite <- app_assoc.
      * destruct IH as (l & j' & El & IH). exists (i :: l), j'. split; [by rewrite El |].
        rewrite IH. by rewrite <- app_assoc.
Qed.

(** ** The operations on the lists *)

Lemma nodup_middle (l1 : list Z) i l2 l3 : NoDup ((l1 ++ i :: l2) ++ l3) →
  i ∉ (l1 ++ l2) ++ l3 ∧ NoDup ((l1 ++ l2) ++ l3).
Proof.
  rewrite <- !app_assoc. cbn. intros N.
  assert (P : l1 ++ i :: l2 ++ l3 ≡ₚ i :: l1 ++ l2 ++ l3) by (symmetry; apply Permutation_middle).
  rewrite P in N. by apply NoDup_cons in N.
Qed.

Lemma promote_spec s l1 i l2 f c cc : represents s (View (l1 ++ i :: l2) f c) →
  ∃ s', promote s (last l1) i cc = Ok (i, s') ∧ represents s' (View (i :: l1 ++ l2) f c).
Proof.
  intros (Ca & Cf & ND & Ec & En). cbn [used unused contents] in *.
  destruct (nodup_middle _ _ _ _ ND) as [Hi ND'].
  assert (NoDup (i :: (l1 ++ l2) ++ f)) by (by apply NoDup_cons).
  destruct (chain_behind _ _ _ _ _ Ca) as (n & Hn & C2).
  destruct l1 as [| j0 l0] using rev_ind; [eexists; split; [done |]; done |].
  clear IHl0. rename j0 into j. rewrite last_snoc. unfold promote, set_next. cbn [deref].
  rewrite Hn. cbn [mbind res_bind]. 
  apply NoDup_app in ND as [ND _]. rewrite <- app_assoc in Ca, ND. cbn [app] in Ca, ND.
  destruct (chain_behind _ _ _ _ _ Ca) as (nj & Hj & _). rewrite Hj. cbn [mbind res_bind].
  assert (Hij : j ≠ i).
  { intros ->. apply Hi. rewrite !elem_of_app. left. left. right. by left. }
  rewrite lookup_insert_ne, Hn by done. cbn [mbind res_bind]. eexists. split; [done |].
  assert (Ni : i ∉ (l0 ++ [j]) ++ l2) by (intros X; apply Hi, elem_of_app; by left).
  assert (Nf : i ∉ f) by (intros X; apply Hi, elem_of_app; by right).
  assert (Nj : j ∉ l2 ∧ j ∉ f).
  { rewrite <- !app_assoc in ND'. apply NoDup_app in ND' as (_ & _ & N).
    cbn in N. apply NoDup_cons in N as [N _]. rewrite elem_of_app in N. tauto. }
  split_and!; cbn [heap active free num_free used unused contents]; [| | done | | done].
  - apply (chain_cons _ i n); [done | by rewrite lookup_insert_ne |].
    rewrite <- app_assoc. eapply chain_relink; [exact ND | tauto | exact Ca | exact Hj | exact C2].
  - apply chain_frame; [done |]. apply chain_frame; [tauto | done].
  - rewrite (view_set_next _ i _ n) by (by rewrite lookup_insert_ne).
    by rewrite (view_set_next _ j _ nj).
Qed.

Lemma u64_count (x y : Z) : u64 (u64 x + y) = u64 (x + y).
Proof. unfold wrap. by rewrite Zplus_mod_idemp_l. Qed.

Lemma add_free_spec s u f c i n : represents s (View u f c) → heap s !! i = Some n →
  i ∉ u ++ f → ∃ s', lru_add_free s i = Ok s' ∧ represents s' (View u (i :: f) c).
Proof.
  intros (Ca & Cf & ND & Ec & En) Hn Hi. cbn [used unused contents] in *.
  unfold lru_add_free. cbn [deref]. rewrite Hn. cbn [mbind res_bind]. eexists. split; [done |].
  rewrite elem_of_app in Hi.
  split_and!; cbn [heap active free num_free used unused contents].
  - apply chain_frame; tauto.
  - apply (chain_cons _ i n); tauto.
  - assert (P : u ++ i :: f ≡ₚ i :: u ++ f) by (symmetry; apply Permutation_middle).
    rewrite P. apply NoDup_cons. by rewrite elem_of_app.
  - by rewrite (view_set_next _ i _ n).
  - rewrite En, u64_count. f_equal. cbn [length]. lia.
Qed.

(** A node outside of both lists can be given another object. *)
Lemma represents_detached s u f c i n hs p o : represents s (View u f c) → heap s !! i = Some n →
  i ∉ u ++ f → represents
    (Lru (<[i := Node hs p o]> (heap s)) (active s) (free s) (num_free s) (num_collisions s)
       (num_hit s) (num_miss s)) (View u f (refill c i hs (λ _, o))).
Proof.
  intros (Ca & Cf & ND & Ec & En) Hn Hi. cbn [used unused contents] in *. rewrite elem_of_app in Hi.
  split_and!; cbn [heap active free num_free used unused contents]; try done.
  - apply chain_frame; tauto.
  - apply chain_frame; tauto.
  - subst c. by rewrite (view_insert _ i _ _ _ n).
Qed.

(** Unlinking the last node. *)
Lemma unlink_last s l i f c : represents s (View (l ++ [i]) f c) → ∃ h a n,
  (match last l with
   | None => Ok (heap s, None)
   | Some j => h ← set_next (heap s) j None; Ok (h, active s)
   end) = Ok (h, a) ∧ h !! i = Some n ∧ contents (View (l ++ [i]) f c) !! i = Some (hash n, obj n) ∧
  i ∉ l ++ f ∧ represents (Lru h a (free s) (num_free s) (num_collisions s) (num_hit s) (num_miss s))
    (View l f c).
Proof.
  intros (Ca & Cf & ND & Ec & En). cbn [used unused contents] in *.
  destruct (nodup_middle _ _ _ _ ND) as [Hi ND']. rewrite app_nil_r in Hi, ND'.
  destruct (chain_behind _ _ _ _ _ Ca) as (n & Hn & _).
  destruct l as [| j l] using rev_ind; [| clear IHl].
  - exists (heap s), None, n. split; [done |]. split; [done |].
    split; [subst c; by apply view_lookup |]. split; [done |]. by split_and!.
  - rewrite last_snoc. unfold set_next. cbn [deref]. apply NoDup_app in ND as [ND _].
    rewrite <- app_assoc in Ca, ND. cbn [app] in Ca, ND.
    destruct (chain_behind _ _ _ _ _ Ca) as (nj & Hj & _). rewrite Hj. cbn [mbind res_bind].
    assert (j ≠ i) by (intros ->; apply Hi; rewrite !elem_of_app; left; right; by left).
    eexists _, _, n. split; [done |]. split; [by rewrite lookup_insert_ne |].
    split; [subst c; by apply view_lookup |]. split; [done |].
    split_and!; cbn [heap active free num_free used unused contents]; [| | done | | done].
    + eapply chain_relink; [exact ND | apply not_elem_of_nil | exact Ca | exact Hj | done].
    + apply chain_frame; [| done]. rewrite <- app_assoc in ND'. apply NoDup_app in ND' as (_ & _ & N).
      cbn in N. by apply NoDup_cons in N as [N _].
    + by rewrite (view_set_next _ j _ nj).
Qed.

Lemma evict_spec w s l i f c : represents s (View (l ++ [i]) f c) → ∃ hs o, c !! i = Some (hs, o) ∧
  match obj_deinit w o with
  | Ok (o, w') => ∃ s', evict w s (last l) (Some i) = Ok (s', w') ∧
      represents s' (View l (i :: f) (<[i := (hs, o)]> c))
  | Fault e => evict w s (last l) (Some i) = Fault e
  end.
Proof.
  intros R. destruct (unlink_last _ _ _ _ _ R) as (h & a & n & E & Hn & Hc & Hi & R').
  destruct R as (Ca & _). destruct (chain_behind _ _ _ _ _ Ca) as (n0 & Hn0 & C0).
  exists (hash n), (obj n). split; [done |].
  unfold evict. rewrite bool_decide_eq_true_2 by done. cbn [mbind res_bind assert deref].
  rewrite Hn0. cbn [mbind res_bind]. cbn [chain] in C0. rewrite C0.
  cbn [mbind res_bind] in E. rewrite E. cbn [mbind res_bind]. rewrite Hn. cbn [mbind res_bind].
  destruct (obj_deinit w (obj n)) as [[o w'] | e]; [| done]. cbn [mbind res_bind].
  pose proof (represents_detached _ _ _ _ i n (hash n) (next n) o R' Hn Hi) as R2.
  cbn [heap active free num_free num_collisions num_hit num_miss] in R2.
  destruct (add_free_spec _ _ _ _ i (Node (hash n) (next n) o) R2) as (s' & E' & R3);
    [apply lookup_insert_eq | done |].
  exists s'. rewrite E'. split; [done |]. unfold refill in R3. cbn [contents] in Hc. by rewrite Hc in R3.
Qed.

Lemma allocate_spec w s u i f c hsh key : represents s (View u (i :: f) c) → ∃ hs o, c !! i = Some (hs, o) ∧
  match obj_init w o key with
  | Ok (o, w') => ∃ s', allocate w s hsh key = Ok (i, s', w') ∧
      represents s' (View (i :: u) f (<[i := (hsh, o)]> c))
  | Fault e => allocate w s hsh key = Fault e
  end.
Proof.
  intros (Ca & Cf & ND & Ec & En). cbn [used unused contents] in *.
  cbn [chain] in Cf. destruct Cf as (Ef & n & Hn & Cf).
  exists (hash n), (obj n). split; [subst c; by apply view_lookup |].
  unfold allocate. rewrite Ef. rewrite bool_decide_eq_true_2 by done.
  cbn [mbind res_bind assert deref]. rewrite Hn. cbn [mbind res_bind].
  destruct (obj_init w (obj n) key) as [[o w'] | e]; [| done]. cbn [mbind res_bind].
  eexists. split; [done |].
  assert (P : u ++ i :: f ≡ₚ i :: u ++ f) by (symmetry; apply Permutation_middle).
  rewrite P in ND. pose proof ND as [Hi _]%NoDup_cons. rewrite elem_of_app in Hi.
  split_and!; cbn [heap active free num_free used unused contents]; [| | done | |].
  - apply (chain_cons _ i n); tauto.
  - apply chain_frame; tauto.
  - subst c. unfold view_of. by rewrite fmap_insert.
  - rewrite En. change (_ - 1) with (u64 (Z.of_nat (length (i :: f))) + -1). rewrite u64_count.
    f_equal. cbn [length]. lia.
Qed.

(** The counters do not matter to what is represented. *)
Lemma represents_counters s v c1 c2 c3 : represents s v →
  represents (Lru (heap s) (active s) (free s) (num_free s) c1 c2 c3) v.
Proof. done. Qed.

(** Evict and fill, when nothing is free. *)
Lemma miss_evict w s l i c hsh key : represents s (View (l ++ [i]) [] c) →
  agree (lookup_miss w s (last l) (Some i) hsh key)
    ('(c, w) ← close w c i; '(c, w) ← fill w c i hsh key; Ok (i, View (i :: l) [] c, w)).
Proof.
  intros R. pose proof (represents_counters _ _ (num_collisions s) (num_hit s) (u64 (num_miss s + 1)) R) as R0.
  destruct (evict_spec w _ _ _ _ _ R0) as (hs & o & Hc & E).
  destruct R as (_ & Cf & _). cbn in Cf. unfold lookup_miss, close. cbn [free]. rewrite Cf, Hc in *.
  destruct (obj_deinit w o) as [[o' w'] | e]; [| by rewrite E]. destruct E as (s1 & E & R1). rewrite E.
  cbn [mbind res_bind]. destruct (allocate_spec w' _ _ _ _ _ hsh key R1) as (hs' & o2 & Hc' & E2).
  unfold fill. rewrite Hc'. destruct (obj_init w' o2 key) as [[o3 w2] | e]; [| by rewrite E2].
  destruct E2 as (s2 & -> & R2). by split_and!.
Qed.

Lemma miss_allocate w s u i f c prev node hsh key : represents s (View u (i :: f) c) →
  agree (lookup_miss w s prev node hsh key)
    ('(c, w) ← fill w c i hsh key; Ok (i, View (i :: u) f c, w)).
Proof.
  intros R. pose proof (represents_counters _ _ (num_collisions s) (num_hit s) (u64 (num_miss s + 1)) R) as R0.
  destruct (allocate_spec w _ _ _ _ _ hsh key R0) as (hs & o & Hc & E).
  destruct R as (_ & [Cf _] & _). unfold lookup_miss, fill. cbn [free]. rewrite Cf, Hc in *. cbn [mbind res_bind].
  destruct (obj_init w o key) as [[o' w'] | e]; [| by rewrite E].
  destruct E as (s' & -> & R'). by split_and!.
Qed.

Lemma list_find_split {A} (P : A → Prop) `{∀ x, Decision (P x)} l k x :
  list_find P l = Some (k, x) → l = take k l ++ x :: drop (S k) l.
Proof. intros (E & _)%list_find_Some. symmetry. by apply take_drop_middle. Qed.

Lemma lookup_refines w s v hsh key : represents s v →
  agree (lru_lookup w s hsh key) (spec_lookup w v hsh key).
Proof.
  destruct v as [u f c]. intros R. pose proof R as (Ca & Cf & ND & Ec & _).
  cbn [used unused contents] in *. pose proof (chain_head _ _ _ Ca) as Ea.
  pose proof (chain_head _ _ _ Cf) as Ef. unfold lru_lookup, spec_lookup. cbn [used unused contents].
  destruct u as [| i0 u0].
  { rewrite Ea, Ef. destruct f as [| i f]; [done |]. cbn [head list_find].
    exact (miss_allocate w _ _ _ _ _ None None hsh key R). }
  assert (bool_decide (active s ≠ None) || bool_decide (free s ≠ None) = true) as -> by (by rewrite Ea).
  cbn [assert mbind res_bind].
  cbn [head] in Ea. rewrite Ea in Ca |- *. destruct (lookup_walk_spec (heap s) hsh key (size (heap s))
    [] (i0 :: u0) (Some i0) (num_collisions s)) as [c' Wk]; [done | done | |].
  { eapply chain_length; [exact Ca |]. by apply NoDup_app in ND as [ND _]. }
  rewrite <- Ec in Wk. cbn [last app] in Wk.
  destruct (list_find _ (i0 :: u0)) as [[k i] |] eqn:F.
  - rewrite Wk. cbn [mbind res_bind]. pose proof (list_find_split _ _ _ _ F) as S.
    rewrite S in R. destruct (promote_spec _ _ _ _ _ _ c' R) as (s' & -> & R').
    split_and!; try done. by rewrite delete_take_drop.
  - destruct Wk as (l & i & El & Wk). rewrite Wk. cbn [mbind res_bind].
    apply (represents_counters s _ c' (num_hit s) (num_miss s)) in R. rewrite Ea in R. rewrite El in *.
    rewrite last_snoc. destruct f as [| j f].
    + rewrite length_app, Nat.add_1_r. cbn [pred]. rewrite take_app_length.
      exact (miss_evict w _ _ _ _ hsh key R).
    + exact (miss_allocate w _ _ _ _ _ (last l) (Some i) hsh key R).
Qed.

(** ** Flush *)

Fixpoint close_all w (c : gmap Z (Z * Obj)) (l : list Z) : res (gmap Z (Z * Obj) * W) :=
  match l with
  | [] => Ok (c, w)
  | i :: l => '(c, w) ← close w c i; close_all w c l
  end.

(** All nodes become free, the least recently used first, and their objects are closed. *)
Definition spec_flush w (v : view) : res (view * W) :=
  '(c, w) ← close_all w (contents v) (used v);
  Ok (View [] (rev (used v) ++ unused v) c, w).

Definition with_active s p : lru :=
  Lru (heap s) p (free s) (num_free s) (num_collisions s) (num_hit s) (num_miss s).

Lemma flush_loop_spec fuel w s a u f c : (length u ≤ fuel)%nat → represents (with_active s a) (View u f c) →
  match close_all w c u with
  | Ok (c', w') => ∃ s', flush_loop fuel w s a = Ok (s', w') ∧
      represents (with_active s' None) (View [] (rev u ++ f) c')
  | Fault e => flush_loop fuel w s a = Fault e
  end.
Proof.
  revert w s a u f c. induction fuel as [| fuel IH]; intros w s a [| i u] f c L R; cbn in L; try lia;
    pose proof R as (Ca & _); cbn [used with_active heap active chain] in Ca.
  1,2: subst a; exists s; split; [done | exact R].
  destruct Ca as (-> & n & Hn & Ca). cbn [flush_loop deref close_all]. rewrite Hn. cbn [mbind res_bind].
  assert (R1 : represents (with_active s (next n)) (View u f c) ∧ i ∉ u ++ f ∧ c !! i = Some (hash n, obj n)).
  { destruct R as (_ & Cf & ND & Ec & En). cbn [used unused contents with_active heap free num_free] in *.
    cbn in ND. apply NoDup_cons in ND as [Hi ND].
    split; [by split_and! | split; [done |]]. subst c. by apply view_lookup. }
  clear R. destruct R1 as (R1 & Hi & Hc). unfold close. rewrite Hc.
  destruct (obj_deinit w (obj n)) as [[o w'] | e]; [| done]. cbn [mbind res_bind].
  pose proof (represents_detached _ _ _ _ i n (hash n) (next n) o R1 Hn Hi) as R2.
  destruct (add_free_spec _ _ _ _ i (Node (hash n) (next n) o) R2) as (s2 & E2 & R3);
    [apply lookup_insert_eq | done |].
  unfold lru_add_free in E2 |- *. cbn [heap with_active deref active free num_free num_collisions num_hit num_miss] in E2 |- *.
  rewrite lookup_insert_eq in E2 |- *. cbn [mbind res_bind] in E2 |- *. apply Ok_inj in E2. subst s2.
  unfold refill in R3. rewrite Hc in R3.
  match goal with |- context [flush_loop fuel w' ?s1 _] =>
    pose proof (IH w' s1 (next n) u (i :: f) _ ltac:(lia) R3) as E end.
  destruct (close_all w' _ u) as [[c' w2] | e]; [| exact E]. destruct E as (s' & E & R4).
  exists s'. split; [exact E |]. cbn [rev]. rewrite <- app_assoc. exact R4.
Qed.

Lemma flush_refines w s v : represents s v →
  agree ('(s, w) ← lru_flush w s; Ok ((), s, w)) ('(v, w) ← spec_flush w v; Ok ((), v, w)).
Proof.
  destruct v as [u f c]. intros R. unfold lru_flush, spec_flush. cbn [used unused contents].
  assert (L : (length u ≤ size (heap s))%nat).
  { destruct R as (Ca & _ & ND & _). eapply chain_length; [exact Ca |]. by apply NoDup_app in ND as [ND _]. }
  pose proof (flush_loop_spec (size (heap s)) w s (active s) u f c L ltac:(by destruct s)) as E.
  destruct (close_all w c u) as [[c' w'] | e]; [| by rewrite E].
  destruct E as (s' & -> & R'). by split_and!.
Qed.

End lru.

Arguments lru_node Obj : clear implicits.
Arguments lru Obj : clear implicits.
Arguments view Obj : clear implicits.

(** ** The theorems *)

Section theorems.
Context {W Obj Key : Type} `{LruObject W Obj Key}.
Implicit Types (s : lru Obj) (v : view Obj).

Lemma lru_init_represents (h : gmap Z (lru_node Obj)) : represents (lru_init h) (View [] [] (view_of h)).
Proof. split_and!; try done. apply NoDup_nil_2. Qed.

(** A lookup puts the object in front, under its hash. *)
Lemma fill_holds w c i hsh key c' w' : (∀ w o k o' w', obj_init w o k = Ok (o', w') → obj_key_compare o' k = 0) →
  fill w c i hsh key = Ok (c', w') → holds c' hsh key i = true.
Proof.
  intros Law. unfold fill, holds. destruct (c !! i) as [[hs o] |]; [| done].
  intros ([o' w2] & E & [= <- <-])%bind_ok. by rewrite lookup_insert_eq, Z.eqb_refl, (Law _ _ _ _ _ E).
Qed.

Lemma spec_lookup_front w v hsh key i v' w' :
  (∀ w o k o' w', obj_init w o k = Ok (o', w') → obj_key_compare o' k = 0) →
  spec_lookup w v hsh key = Ok (i, v', w') →
  head (used v') = Some i ∧ holds (contents v') hsh key i = true.
Proof.
  intros Law. unfold spec_lookup. destruct (list_find _ _) as [[k j] |] eqn:F.
  - intros [= <- <- _]. split; [done |]. cbn. apply list_find_Some in F. naive_solver.
  - destruct (unused v) as [| j rest]; [destruct (last (used v)) as [j |]; [| done] |].
    + intros ([c1 w1] & _ & ([c2 w2] & E & [= <- <- _])%bind_ok)%bind_ok. split; [done |]. by eapply fill_holds.
    + intros ([c2 w2] & E & [= <- <- _])%bind_ok. split; [done |]. by eapply fill_holds.
Qed.

Lemma represents_contents s v i : represents s v → i ∈ used v ++ unused v → is_Some (contents v !! i).
Proof.
  intros (Ca & Cf & _ & Ec & _) [Hi | Hi]%elem_of_app; rewrite Ec.
  - destruct (chain_lookup _ _ _ _ Ca Hi) as [n E]. by rewrite (view_lookup _ _ _ E).
  - destruct (chain_lookup _ _ _ _ Cf Hi) as [n E]. by rewrite (view_lookup _ _ _ E).
Qed.

(** The node in front is found at once, and only the hit is counted. *)
Lemma lookup_front w s v i hsh key : represents s v → head (used v) = Some i →
  holds (contents v) hsh key i = true →
  lru_lookup w s hsh key =
  Ok (i, Lru (heap s) (active s) (free s) (num_free s) (num_collisions s) (u64 (num_hit s + 1)) (num_miss s), w).
Proof.
  intros (Ca & _ & ND & Ec & _) Hh Hi. destruct (used v) as [| j u]; [done |]. injection Hh as ->.
  unfold lru_lookup. assert (Ea : active s = Some i) by (by apply chain_head in Ca).
  rewrite Ea. rewrite (bool_decide_eq_true_2 (Some i ≠ None)) by done. cbn [orb assert mbind res_bind].
  assert (L : (1 ≤ size (heap s))%nat).
  { apply chain_length in Ca; [cbn in Ca; lia |]. by apply NoDup_app in ND as [ND _]. }
  destruct (size (heap s)) as [| fuel]; [lia |]. cbn [lookup_walk deref].
  destruct Ca as (_ & n & Hn & _). rewrite Hn. cbn [mbind res_bind].
  rewrite Ec in Hi. unfold holds in Hi. rewrite (view_lookup _ _ _ Hn) in Hi. rewrite Hi.
  cbn [mbind res_bind promote]. by rewrite Ea.
Qed.

(** ** Ownership

    The objects in use, as their owner sees them: a relation [I] between them and the world
    that setting up and closing an object maintain is maintained by the cache. *)

Definition used_objects v : list Obj := omap (λ i, snd <$> contents v !! i) (used v).

Class Owned (I : list Obj → W → Prop) := {
  owned_perm l l' w : l ≡ₚ l' → I l w → I l' w;
  owned_init l w o key o' w' : I l w → obj_init w o key = Ok (o', w') → I (o' :: l) w';
  owned_deinit l w o o' w' : I (o :: l) w → obj_deinit w o = Ok (o', w') → I l w'
}.

Lemma omap_frame (c : gmap Z (Z * Obj)) i x (l : list Z) : i ∉ l →
  omap (λ j, snd <$> <[i := x]> c !! j) l = omap (λ j, snd <$> c !! j) l.
Proof.
  induction l as [| j l IH]; intros Hi; [done |]. apply not_elem_of_cons in Hi as [Hij Hi].
  cbn. rewrite lookup_insert_ne by done. by rewrite (IH Hi).
Qed.

Lemma owned_fill I `{!Owned I} w c l i hsh key c' w' : i ∉ l → I (omap (λ j, snd <$> c !! j) l) w →
  fill w c i hsh key = Ok (c', w') → I (omap (λ j, snd <$> c' !! j) (i :: l)) w'.
Proof.
  intros Hi Il. unfold fill. destruct (c !! i) as [[hs o] |]; [| done].
  intros ([o' w2] & E & [= <- <-])%bind_ok. cbn. rewrite lookup_insert_eq, omap_frame by done. cbn.
  by eapply owned_init.
Qed.

Lemma owned_close I `{!Owned I} w c l i c' w' : i ∉ l → I (omap (λ j, snd <$> c !! j) (i :: l)) w →
  close w c i = Ok (c', w') → I (omap (λ j, snd <$> c' !! j) l) w'.
Proof.
  intros Hi Il. unfold close. destruct (c !! i) as [[hs o] |] eqn:Hc; [| done].
  intros ([o' w2] & E & [= <- <-])%bind_ok. rewrite omap_frame by done.
  cbn in Il. rewrite Hc in Il. exact (owned_deinit _ _ _ _ _ Il E).
Qed.

Lemma lookup_owned I `{!Owned I} w s v hsh key i s' w' : represents s v → I (used_objects v) w →
  lru_lookup w s hsh key = Ok (i, s', w') →
  ∃ v', represents s' v' ∧ I (used_objects v') w' ∧ i ∈ used v' ∧
    length (used v' ++ unused v') = length (used v ++ unused v).
Proof.
  intros R Iv E. pose proof (lookup_refines w s v hsh key R) as A. rewrite E in A. cbn in A.
  destruct (spec_lookup w v hsh key) as [[[i' v'] w2] |] eqn:S; [| done]. destruct A as (<- & <- & R').
  exists v'. split; [done |]. destruct R as (_ & _ & ND & _). unfold spec_lookup in S.
  destruct (list_find _ _) as [[k j] |] eqn:F.
  - injection S as <- <- <-. apply list_find_Some in F as (F & _).
    split; [| split; [by left |]].
    + eapply (owned_perm (I := I)); [| exact Iv]. unfold used_objects. cbn [used contents].
      apply omap_Permutation. by apply delete_Permutation.
    + rewrite !length_app. apply delete_Permutation, Permutation_length in F. cbn [used unused length] in *. lia.
  - destruct (unused v) as [| j rest] eqn:U; [destruct (last (used v)) as [j |] eqn:L; [| done] |].
    + apply last_Some in L as [u L]. unfold used_objects in Iv. rewrite L in *.
      rewrite length_app, Nat.add_1_r in S. cbn [pred] in S. rewrite take_app_length in S.
      apply bind_ok in S as ([c1 w1] & E1 & S). apply bind_ok in S as ([c2 w2] & E2 & [= <- <- <-]).
      rewrite app_nil_r in ND. apply NoDup_app in ND as (_ & Hj & _).
      assert (j ∉ u) as Nj by (intros Hu; by apply (Hj j Hu), list_elem_of_singleton).
      split; [| split; [by left | rewrite !length_app; cbn; lia]].
      eapply (owned_fill I); [done | | exact E2]. eapply (owned_close I); [done | | exact E1].
      eapply (owned_perm (I := I)); [| exact Iv]. apply omap_Permutation. rewrite Permutation_app_comm. done.
    + apply bind_ok in S as ([c2 w2] & E2 & [= <- <- <-]).
      split; [| split; [by left | rewrite !length_app; cbn; lia]].
      eapply (owned_fill I); [| exact Iv | exact E2]. apply NoDup_app in ND as (_ & ND & _).
      intros Hu. apply (ND j Hu). by left.
Qed.

Lemma close_all_owned I `{!Owned I} w c l c' w' : NoDup l → I (omap (λ j, snd <$> c !! j) l) w →
  close_all w c l = Ok (c', w') → I [] w'.
Proof.
  revert w c. induction l as [| i l IH]; intros w c ND Il; cbn [close_all]; [by intros [= <- <-] |].
  apply NoDup_cons in ND as [Hi ND]. intros ([c1 w1] & E1 & E)%bind_ok.
  eapply IH; [done | | exact E]. by eapply (owned_close I).
Qed.

Lemma flush_owned I `{!Owned I} w s v s' w' : represents s v → I (used_objects v) w →
  lru_flush w s = Ok (s', w') → I [] w'.
Proof.
  intros R Iv E. pose proof (flush_refines w s v R) as A. rewrite E in A. cbn in A.
  destruct (spec_flush w v) as [[v' w2] |] eqn:S; [| done]. destruct A as (_ & <- & _).
  apply bind_ok in S as ([c w3] & Ec & [= <- <-]). destruct R as (_ & _ & ND & _).
  apply NoDup_app in ND as [ND _]. by eapply close_all_owned.
Qed.

(** C12: the cache does on its linked lists what its comments say of the sequence of recent
    use.  A lookup returns the first node in use whose hash and key match and moves it to
    the front; without one it fills a free node, or, if none is free, closes and refills
    the least recently used one, and puts that in front.  The lists stay well formed and
    disjoint, the free nodes are counted, and nothing else changes.  A lookup fails only
    when the cache has no nodes at all or when a callback fails.  A flush closes every
    object in use, in order, and frees its node. *)
Theorem lru_refines w s v : represents s v →
  (∀ hsh key, agree (lru_lookup w s hsh key) (spec_lookup w v hsh key)) ∧
  agree ('(s, w) ← lru_flush w s; Ok ((), s, w)) ('(v, w) ← spec_flush w v; Ok ((), v, w)).
Proof. intros R. split; [intros; by apply lookup_refines | by apply flush_refines]. Qed.

(** an object that was looked up is in the cache: looking it up again returns the same
    node without creating, evicting or moving anything, and without changing the world.  It
    rests on what the callbacks promise: a freshly initialised object compares equal to its
    key. *)
Theorem lru_lookup_again w s v hsh key i s' w' w2 :
  (∀ w o k o' w', obj_init w o k = Ok (o', w') → obj_key_compare o' k = 0) →
  represents s v → lru_lookup w s hsh key = Ok (i, s', w') →
  lru_lookup w2 s' hsh key =
    Ok (i, Lru (heap s') (active s') (free s') (num_free s') (num_collisions s')
             (u64 (num_hit s' + 1)) (num_miss s'), w2).
Proof.
  intros Law R E. pose proof (lookup_refines w s v hsh key R) as A. rewrite E in A. cbn in A.
  destruct (spec_lookup w v hsh key) as [[[i' v'] w3] |] eqn:S; [| done]. destruct A as (<- & <- & R').
  destruct (spec_lookup_front _ _ _ _ _ _ _ Law S) as [F Hh]. by eapply lookup_front.
Qed.
End theorems.

(** Objects that only keep their key; the world counts the objects set up and not closed. *)
#[local] Instance keys_only : LruObject Z Z Z := {|
  obj_init := λ w _ k, Ok (k, w + 1); obj_deinit := λ w _, Ok (0, w - 1); obj_key_compare := λ o k, o - k
|}.

Definition sample_cache : lru Z :=
  Lru {[ 10 := Node 7 (Some 30) 100; 20 := Node 0 None 0; 30 := Node 8 None 101 ]} (Some 10) (Some 20) 1 0 0 0.

Lemma sample_represents : represents sample_cache (View [10; 30] [20] (view_of (heap sample_cache))).
Proof.
  split_and!; [| | by apply (bool_decide_unpack _) | done | done].
  - split; [done |]. eexists. split; [by vm_compute |]. split; [done |]. eexists. split; [by vm_compute | done].
  - split; [done |]. eexists. split; [by vm_compute | done].
Qed.

Lemma lru_refines_witness :
  ∃ i s' v', lru_lookup 2 sample_cache 8 101 = Ok (i, s', 2) ∧ represents s' v' ∧ used v' = [30; 10].
Proof.
  destruct (lru_refines 2 sample_cache _ sample_represents) as [A _]. specialize (A 8 101).
  destruct (lru_lookup 2 sample_cache 8 101) as [[[i s'] w'] |] eqn:E; [| vm_compute in E; discriminate].
  cbn [agree] in A.
  destruct (spec_lookup 2 _ 8 101) as [[[i' v'] w2] |] eqn:S; [| destruct A].
  destruct A as (-> & -> & R). exists i', s', v'. vm_compute in S. injection S as <- <- <-.
  split; [reflexivity |]. split; [exact R | reflexivity].
Defined.

Lemma lru_lookup_again_witness : ∃ i s' w', lru_lookup 2 sample_cache 9 102 = Ok (i, s', w') ∧ i = 20 ∧ w' = 3 ∧
  ∃ s'', lru_lookup w' s' 9 102 = Ok (i, s'', 3).
Proof.
  destruct (lru_lookup 2 sample_cache 9 102) as [[[i s'] w'] |] eqn:E; [| vm_compute in E; discriminate].
  exists i, s', w'. split; [reflexivity |].
  assert (i = 20 ∧ w' = 3) as [-> ->] by (vm_compute in E; by injection E as <- _ <-).
  split; [reflexivity |]. split; [reflexivity |]. eexists.
  refine (lru_lookup_again 2 sample_cache _ 9 102 20 s' 3 3 _ sample_represents E).
  intros w o k o' w2 [= <- _]. cbn. apply Z.sub_diag.
Defined.
