(* ===== verification/Nv2a.v ===== *)
(** * Registers and interrupts of the GPU

    src/hw/xbox/nv2a/nv2a.c and the register blocks it is assembled from (nv2a_pmc.c,
    nv2a_pbus.c, nv2a_pfb.c, nv2a_ptimer.c, nv2a_pcrtc.c, nv2a_pramdac.c, nv2a_pvideo.c,
    nv2a_prmcio.c, nv2a_prmvio.c, nv2a_user.c, nv2a_stubs.c, and the register access of
    nv2a_pfifo.c and nv2a_pgraph.c), behind the table that maps them into one window.

    The blocks raise one interrupt line through PMC; the file shows which accesses keep the
    line in step with the blocks, and which do not.  The two loops of PFIFO are in Pfifo.v. *)

From S2P Require Import Prelude Bytes Fields.

Definition NV_PMC_BOOT_0 := 0x000.
Definition NV_PMC_INTR_0 := 0x100.
Definition NV_PMC_INTR_0_PFIFO := 1 .<< 8.
Definition NV_PMC_INTR_0_PGRAPH := 1 .<< 12.
Definition NV_PMC_INTR_0_PCRTC := 1 .<< 24.
Definition NV_PMC_INTR_EN_0 := 0x140.
Definition NV_PBUS_PCI_NV_0 := 0x800.
Definition NV_PBUS_PCI_NV_1 := 0x804.
Definition NV_PBUS_PCI_NV_2 := 0x808.
Definition NV_PFIFO_INTR_0 := 0x100.
Definition NV_PFIFO_INTR_EN_0 := 0x140.
Definition NV_PFIFO_RUNOUT_STATUS := 0x400.
Definition NV_PFIFO_RUNOUT_STATUS_LOW_MARK := 1 .<< 4.
Definition NV_PFIFO_MODE := 0x504.
Definition NV_PFIFO_CACHE1_PUSH1 := 0x1204.
Definition NV_PFIFO_CACHE1_PUSH1_CHID := 0x1F.
Definition NV_PFIFO_CACHE1_STATUS := 0x1214.
Definition NV_PFIFO_CACHE1_STATUS_LOW_MARK := 1 .<< 4.
Definition NV_PFIFO_CACHE1_STATUS_HIGH_MARK := 1 .<< 8.
Definition NV_PFIFO_CACHE1_DMA_PUT := 0x1240.
Definition NV_PFIFO_CACHE1_DMA_GET := 0x1244.
Definition NV_PFIFO_CACHE1_REF := 0x1248.
Definition NV_PVIDEO_BUFFER := 0x700.
Definition NV_PVIDEO_STOP := 0x704.
Definition NV_PVIDEO_POINT_OUT := 0x948.
Definition NV_PVIDEO_POINT_OUT_Y := 0x0FFF0000.
Definition NV_PVIDEO_SIZE_OUT := 0x950.
Definition NV_PVIDEO_SIZE_OUT_HEIGHT := 0x0FFF0000.
Definition NV_PTIMER_INTR_0 := 0x100.
Definition NV_PTIMER_INTR_EN_0 := 0x140.
Definition NV_PTIMER_NUMERATOR := 0x200.
Definition NV_PTIMER_DENOMINATOR := 0x210.
Definition NV_PTIMER_TIME_0 := 0x400.
Definition NV_PTIMER_TIME_1 := 0x410.
Definition NV_PTIMER_ALARM_0 := 0x420.
Definition NV_PFB_CFG0 := 0x200.
Definition NV_PFB_CSTATUS := 0x20C.
Definition NV_PFB_WBC := 0x410.
Definition NV_PCRTC_INTR_0 := 0x100.
Definition NV_PCRTC_INTR_0_VBLANK := 1 .<< 0.
Definition NV_PCRTC_INTR_EN_0 := 0x140.
Definition NV_PCRTC_START := 0x800.
Definition NV_PRAMDAC_NVPLL_COEFF := 0x500.
Definition NV_PRAMDAC_MPLL_COEFF := 0x504.
Definition NV_PRAMDAC_VPLL_COEFF := 0x508.
Definition NV_PRAMDAC_PLL_TEST_COUNTER := 0x514.
Definition NV_PRAMDAC_GENERAL_CONTROL := 0x600.
Definition NV_PRAMDAC_GENERAL_CONTROL_ALT_MODE_SEL := 1 .<< 12.
Definition NV_PRAMDAC_FP_VDISPLAY_END := 0x800.
Definition NV_PRAMDAC_FP_VCRTC := 0x808.
Definition NV_PRAMDAC_FP_VSYNC_END := 0x810.
Definition NV_PRAMDAC_FP_VVALID_END := 0x818.
Definition NV_PRAMDAC_FP_HDISPLAY_END := 0x820.
Definition NV_PRAMDAC_FP_HCRTC := 0x828.
Definition NV_PRAMDAC_FP_HVALID_END := 0x838.
Definition NV2A_CRYSTAL_FREQ := 16666666.
Definition NV2A_NUM_CHANNELS := 32.
Definition NV_USER_DMA_PUT := 0x40.
Definition NV_USER_DMA_GET := 0x44.
Definition NV_USER_REF := 0x48.
Definition NV_PGRAPH_INTR := 0x100.
Definition NV_PGRAPH_INTR_EN := 0x140.
Definition NV_PGRAPH_CTX_CONTROL := 0x144.
Definition NV_PGRAPH_CTX_CONTROL_CHID := 1 .<< 16.
Definition NV_PGRAPH_CTX_USER := 0x148.
Definition NV_PGRAPH_CTX_USER_CHID := 0x1F000000.
Definition NV_PGRAPH_SURFACE := 0x710.
Definition NV_PGRAPH_SURFACE_READ_3D := 0x07000000.
Definition NV_PGRAPH_SURFACE_MODULO_3D := 0x70000000.
Definition NV_PGRAPH_INCREMENT := 0x71C.
Definition NV_PGRAPH_INCREMENT_READ_3D := 1 .<< 1.
Definition NV_PGRAPH_RDI_INDEX := 0x750.
Definition NV_PGRAPH_RDI_INDEX_ADDRESS := 0x1FFC.
Definition NV_PGRAPH_RDI_INDEX_SELECT := 0x01FF0000.
Definition NV_PGRAPH_RDI_DATA := 0x754.
Definition NV_PGRAPH_DEBUG_3 := 0x8C.
Definition NV_PGRAPH_DEBUG_3_HW_CONTEXT_SWITCH := 1 .<< 2.
Definition NV_PGRAPH_INTR_CONTEXT_SWITCH := 1 .<< 12.
Definition NV_PGRAPH_TRAPPED_ADDR := 0x704.
Definition NV_PGRAPH_TRAPPED_ADDR_CHID := 0x01F00000.
Definition NV_PGRAPH_CHANNEL_CTX_POINTER := 0x784.
Definition NV_PGRAPH_CHANNEL_CTX_POINTER_INST := 0xFFFF.
Definition NV_PGRAPH_CHANNEL_CTX_TRIGGER := 0x788.
Definition NV_PGRAPH_CHANNEL_CTX_TRIGGER_READ_IN := 1 .<< 0.
Definition RDI_INDEX_VTX_CONSTANTS0 := 0x17.
Definition RDI_INDEX_VTX_CONSTANTS1 := 0xCC.
Definition NV2A_VERTEXSHADER_CONSTANTS := 192.
Definition NV_DMA_CLASS := 0x00000FFF.
Definition NV_DMA_TARGET := 0x00030000.
Definition NV_DMA_ADJUST := 0xFFF00000.
Definition NV_DMA_ADDRESS := 0xFFFFF000.
Definition VGA_ATT_W := 0x3C0.
Definition VGA_AR_ENABLE_DISPLAY := 0x20.
Definition RAMIN_SIZE := 0x100000.

(** What the blocks use of the VGA device they contain. *)
Class VgaPort (V : Type) := {
  vga_ioport_read : V → Z → Z * V;
  vga_ioport_write : V → Z → Z → V;
  vga_invalidate_scanlines : V → Z → Z → V;
  ar_flip_flop : V → Z;
  cr : V → Z → Z
}.

Record Pramdac := PramdacRegs {
  core_clock_coeff : Z;
  core_clock_freq : Z;
  memory_clock_coeff : Z;
  video_clock_coeff : Z;
  general_control : Z;
  fp_vdisplay_end : Z;
  fp_vcrtc : Z;
  fp_vsync_end : Z;
  fp_vvalid_end : Z;
  fp_hdisplay_end : Z;
  fp_hcrtc : Z;
  fp_hvalid_end : Z
}.

#[global] Instance Pramdac_eta : Eta Pramdac := λ p,
  PramdacRegs (core_clock_coeff p) (core_clock_freq p) (memory_clock_coeff p) (video_clock_coeff p)
    (general_control p) (fp_vdisplay_end p) (fp_vcrtc p) (fp_vsync_end p) (fp_vvalid_end p)
    (fp_hdisplay_end p) (fp_hcrtc p) (fp_hvalid_end p).

(** The device: its configuration space, its interrupt line, the instance and video
    memory as bytes, and the registers of the blocks.  Of PGRAPH the registers and the
    shader constants are here, the state only its methods use is not. *)
Record NV2AState (V : Type) := NV2A {
  config : mem;
  irq : bool;
  ramin : mem;
  vram : mem;
  vga : V;
  pmc_pending : Z;
  pmc_enabled : Z;
  pfifo_pending : Z;
  pfifo_enabled : Z;
  pfifo_regs : mem;
  pvideo_regs : mem;
  ptimer_pending : Z;
  ptimer_enabled : Z;
  numerator : Z;
  denominator : Z;
  alarm_time : Z;
  pfb_regs : mem;
  pgraph_pending : Z;
  pgraph_enabled : Z;
  pgraph_regs : mem;
  vsh_constants : mem;
  pcrtc_pending : Z;
  pcrtc_enabled : Z;
  pcrtc_start : Z;
  pramdac : Pramdac
}.
Arguments NV2A {V}.
Arguments config {V}.
Arguments irq {V}.
Arguments ramin {V}.
Arguments vram {V}.
Arguments vga {V}.
Arguments pmc_pending {V}.
Arguments pmc_enabled {V}.
Arguments pfifo_pending {V}.
Arguments pfifo_enabled {V}.
Arguments pfifo_regs {V}.
Arguments pvideo_regs {V}.
Arguments ptimer_pending {V}.
Arguments ptimer_enabled {V}.
Arguments numerator {V}.
Arguments denominator {V}.
Arguments alarm_time {V}.
Arguments pfb_regs {V}.
Arguments pgraph_pending {V}.
Arguments pgraph_enabled {V}.
Arguments pgraph_regs {V}.
Arguments vsh_constants {V}.
Arguments pcrtc_pending {V}.
Arguments pcrtc_enabled {V}.
Arguments pcrtc_start {V}.
Arguments pramdac {V}.

#[global] Instance NV2AState_eta {V} : Eta (NV2AState V) := λ d,
  NV2A (config d) (irq d) (ramin d) (vram d) (vga d) (pmc_pending d) (pmc_enabled d)
    (pfifo_pending d) (pfifo_enabled d) (pfifo_regs d) (pvideo_regs d) (ptimer_pending d)
    (ptimer_enabled d) (numerator d) (denominator d) (alarm_time d) (pfb_regs d)
    (pgraph_pending d) (pgraph_enabled d) (pgraph_regs d) (vsh_constants d) (pcrtc_pending d)
    (pcrtc_enabled d) (pcrtc_start d) (pramdac d).

(** The functional units, as the table of blocks names them. *)
Inductive block :=
| PMC | PBUS | PFIFO | PRMA | PVIDEO | PTIMER | PCOUNTER | PVPE | PTV | PRMFB | PRMVIO
| PFB | PSTRAPS | PGRAPH | PCRTC | PRMCIO | PRAMDAC | PRMDIO | USER.

Record DMAObject := Dma {
  dma_class : Z;
  dma_target : Z;
  address : Z;
  limit : Z
}.

Section nv2a.

(** The size of the video memory, and the VGA device. *)
Context {V : Type} `{VgaPort V} (vram_size : Z).
Implicit Types (d : NV2AState V).

(** ** Interrupts and memory *)

Definition pmc_bit (pending : Z) (unit_pending unit_enabled bit : Z) : Z :=
  if nz (unit_pending .& unit_enabled) then pending .| bit else pending .& u32 (.~ bit).

Definition update_irq d : NV2AState V :=
  let p := pmc_bit (pmc_pending d) (pfifo_pending d) (pfifo_enabled d) NV_PMC_INTR_0_PFIFO in
  let p := pmc_bit p (pcrtc_pending d) (pcrtc_enabled d) NV_PMC_INTR_0_PCRTC in
  let p := pmc_bit p (pgraph_pending d) (pgraph_enabled d) NV_PMC_INTR_0_PGRAPH in
  d <| pmc_pending := p |> <| irq := nz p && nz (pmc_enabled d) |>.

(** [ldl_le_p] on the instance memory and on the video memory. *)
Definition ramin_ldl d (addr : Z) : res Z :=
  _ ← in_bounds (addr + 4 <=? RAMIN_SIZE);
  Ok (le_value (rd_bytes (ramin d) addr 4)).

Definition vram_ldl d (addr : Z) : res Z :=
  _ ← in_bounds (addr + 4 <=? vram_size);
  Ok (le_value (rd_bytes (vram d) addr 4)).

Definition nv_dma_load d (dma_obj_address : Z) : res DMAObject :=
  _ ← assert (dma_obj_address <? RAMIN_SIZE);
  flags ← ramin_ldl d dma_obj_address;
  lim ← ramin_ldl d (dma_obj_address + 4);
  frame ← ramin_ldl d (dma_obj_address + 8);
  Ok (Dma (GET_MASK flags NV_DMA_CLASS) (GET_MASK flags NV_DMA_TARGET)
        ((frame .& NV_DMA_ADDRESS) .| GET_MASK flags NV_DMA_ADJUST) lim).

(** The address in the video memory, and the length. *)
Definition nv_dma_map d (dma_obj_address : Z) : res (Z * Z) :=
  dma ← nv_dma_load d dma_obj_address;
  let addr := address dma .& 0x07FFFFFF in
  _ ← assert (addr <? vram_size);
  Ok (addr, limit dma).

(** ** The blocks *)

Definition pmc_read d (addr : Z) : Z :=
  if addr =? NV_PMC_BOOT_0 then 0x02A000A2
  else if addr =? NV_PMC_INTR_0 then pmc_pending d
  else if addr =? NV_PMC_INTR_EN_0 then pmc_enabled d
  else 0.

Definition pmc_write d (addr val : Z) : NV2AState V :=
  if addr =? NV_PMC_INTR_0 then update_irq (d <| pmc_pending := pmc_pending d .& u32 (.~ val) |>)
  else if addr =? NV_PMC_INTR_EN_0 then update_irq (d <| pmc_enabled := u32 val |>)
  else d.

Definition pci_get_long d (offset : Z) : Z := le_value (rd_bytes (config d) offset 4).

Definition pbus_read d (addr : Z) : Z :=
  if addr =? NV_PBUS_PCI_NV_0 then pci_get_long d 0
  else if addr =? NV_PBUS_PCI_NV_1 then pci_get_long d 4
  else if addr =? NV_PBUS_PCI_NV_2 then pci_get_long d 8
  else 0.

Definition pbus_write d (addr val : Z) : NV2AState V :=
  if addr =? NV_PBUS_PCI_NV_1 then d <| config := wr_bytes (config d) 4 (le_bytes 4 val) |> else d.

Definition pfb_read d (addr : Z) : Z :=
  if addr =? NV_PFB_CFG0 then 3
  else if addr =? NV_PFB_CSTATUS then vram_size
  else if addr =? NV_PFB_WBC then 0
  else rd (pfb_regs d) addr.

Definition pfb_write d (addr val : Z) : NV2AState V :=
  d <| pfb_regs := wr (pfb_regs d) addr (u32 val) |>.
(** A product divided with a 128-bit intermediate; the compiler's division by zero. *)
Definition muldiv64 (a b c : Z) : res Z :=
  if u32 c =? 0 then Fault undefined_behaviour else Ok (u64 (u64 a * u32 b / u32 c)).

(** [now] is the virtual clock, in nanoseconds. *)
Definition ptimer_get_clock d (now : Z) : res Z :=
  t ← muldiv64 now (core_clock_freq (pramdac d)) 1000000000;
  muldiv64 t (denominator d) (numerator d).

Definition ptimer_read d (now addr : Z) : res Z :=
  if addr =? NV_PTIMER_INTR_0 then Ok (ptimer_pending d)
  else if addr =? NV_PTIMER_INTR_EN_0 then Ok (ptimer_enabled d)
  else if addr =? NV_PTIMER_NUMERATOR then Ok (numerator d)
  else if addr =? NV_PTIMER_DENOMINATOR then Ok (denominator d)
  else if addr =? NV_PTIMER_TIME_0 then
    t ← ptimer_get_clock d now; Ok ((t .& 0x7ffffff) .<< 5)
  else if addr =? NV_PTIMER_TIME_1 then
    t ← ptimer_get_clock d now; Ok ((t .>> 27) .& 0x1fffffff)
  else Ok 0.

Definition ptimer_write d (addr val : Z) : NV2AState V :=
  if addr =? NV_PTIMER_INTR_0 then
    update_irq (d <| ptimer_pending := ptimer_pending d .& u32 (.~ val) |>)
  else if addr =? NV_PTIMER_INTR_EN_0 then update_irq (d <| ptimer_enabled := u32 val |>)
  else if addr =? NV_PTIMER_DENOMINATOR then d <| denominator := u32 val |>
  else if addr =? NV_PTIMER_NUMERATOR then d <| numerator := u32 val |>
  else if addr =? NV_PTIMER_ALARM_0 then d <| alarm_time := u32 val |>
  else d.

Definition pcrtc_read d (addr : Z) : Z :=
  if addr =? NV_PCRTC_INTR_0 then pcrtc_pending d
  else if addr =? NV_PCRTC_INTR_EN_0 then pcrtc_enabled d
  else if addr =? NV_PCRTC_START then pcrtc_start d
  else 0.

Definition pcrtc_write d (addr val : Z) : NV2AState V :=
  if addr =? NV_PCRTC_INTR_0 then
    update_irq (d <| pcrtc_pending := pcrtc_pending d .& u32 (.~ val) |>)
  else if addr =? NV_PCRTC_INTR_EN_0 then update_irq (d <| pcrtc_enabled := u32 val |>)
  else if addr =? NV_PCRTC_START then d <| pcrtc_start := val .& 0x07FFFFFF |>
  else d.

Definition pramdac_reg (p : Pramdac) (addr : Z) : Z :=
  if addr =? NV_PRAMDAC_NVPLL_COEFF then core_clock_coeff p
  else if addr =? NV_PRAMDAC_MPLL_COEFF then memory_clock_coeff p
  else if addr =? NV_PRAMDAC_VPLL_COEFF then video_clock_coeff p
  else if addr =? NV_PRAMDAC_PLL_TEST_COUNTER then
    (1 .<< 27) .| (1 .<< 29) .| (1 .<< 30) .| (1 .<< 31)
  else if addr =? NV_PRAMDAC_GENERAL_CONTROL then general_control p
  else if addr =? NV_PRAMDAC_FP_VDISPLAY_END then fp_vdisplay_end p
  else if addr =? NV_PRAMDAC_FP_VCRTC then fp_vcrtc p
  else if addr =? NV_PRAMDAC_FP_VSYNC_END then fp_vsync_end p
  else if addr =? NV_PRAMDAC_FP_VVALID_END then fp_vvalid_end p
  else if addr =? NV_PRAMDAC_FP_HDISPLAY_END then fp_hdisplay_end p
  else if addr =? NV_PRAMDAC_FP_HCRTC then fp_hcrtc p
  else if addr =? NV_PRAMDAC_FP_HVALID_END then fp_hvalid_end p
  else 0.

(** The shift count is negative for an access across the end of the register. *)
Definition pramdac_read d (addr size : Z) : res Z :=
  let r := pramdac_reg (pramdac d) (addr .& .~ 3) in
  let shift := 32 - 8 * size - 8 * (addr .& 3) in
  if shift <? 0 then Fault undefined_behaviour else Ok (r .>> shift).

Definition set_core_clock (p : Pramdac) (val : Z) : Pramdac :=
  let m := val .& 0xFF in
  let n := (val .& 0xFF00) .>> 8 in
  let s := (val .& 0x70000) .>> 16 in
  p <| core_clock_coeff := u32 val |>
    <| core_clock_freq := if m =? 0 then 0 else u32 (NV2A_CRYSTAL_FREQ * n) / (1 .<< s) / m |>.

Definition pramdac_write d (addr val : Z) : NV2AState V :=
  let p := pramdac d in
  let v := u32 val in
  d <| pramdac :=
    if addr =? NV_PRAMDAC_NVPLL_COEFF then set_core_clock p val
    else if addr =? NV_PRAMDAC_MPLL_COEFF then p <| memory_clock_coeff := v |>
    else if addr =? NV_PRAMDAC_VPLL_COEFF then p <| video_clock_coeff := v |>
    else if addr =? NV_PRAMDAC_GENERAL_CONTROL then p <| general_control := v |>
    else if addr =? NV_PRAMDAC_FP_VDISPLAY_END then p <| fp_vdisplay_end := v |>
    else if addr =? NV_PRAMDAC_FP_VCRTC then p <| fp_vcrtc := v |>
    else if addr =? NV_PRAMDAC_FP_VSYNC_END then p <| fp_vsync_end := v |>
    else if addr =? NV_PRAMDAC_FP_VVALID_END then p <| fp_vvalid_end := v |>
    else if addr =? NV_PRAMDAC_FP_HDISPLAY_END then p <| fp_hdisplay_end := v |>
    else if addr =? NV_PRAMDAC_FP_HCRTC then p <| fp_hcrtc := v |>
    else if addr =? NV_PRAMDAC_FP_HVALID_END then p <| fp_hvalid_end := v |>
    else p |>.

Definition pvideo_vga_invalidate d : NV2AState V :=
  let y1 := GET_MASK (rd (pvideo_regs d) NV_PVIDEO_POINT_OUT) NV_PVIDEO_POINT_OUT_Y in
  let y2 := y1 + GET_MASK (rd (pvideo_regs d) NV_PVIDEO_SIZE_OUT) NV_PVIDEO_SIZE_OUT_HEIGHT in
  d <| vga := vga_invalidate_scanlines (vga d) y1 y2 |>.

Definition pvideo_read d (addr : Z) : Z :=
  if addr =? NV_PVIDEO_STOP then 0 else rd (pvideo_regs d) addr.

Definition pvideo_write d (addr val : Z) : NV2AState V :=
  if addr =? NV_PVIDEO_BUFFER then
    pvideo_vga_invalidate (d <| pvideo_regs := wr (pvideo_regs d) addr (u32 val) |>)
  else if addr =? NV_PVIDEO_STOP then
    pvideo_vga_invalidate (d <| pvideo_regs := wr (pvideo_regs d) NV_PVIDEO_BUFFER 0 |>)
  else d <| pvideo_regs := wr (pvideo_regs d) addr (u32 val) |>.

(** [prmcio_read] and [prmvio_read]. *)
Definition prmcio_read d (addr : Z) : Z * NV2AState V :=
  let '(r, v) := vga_ioport_read (vga d) addr in (r, d <| vga := v |>).

Definition prmcio_write d (addr val : Z) : NV2AState V :=
  let val := if (addr =? VGA_ATT_W) && (ar_flip_flop (vga d) =? 0)
             then val .| VGA_AR_ENABLE_DISPLAY else val in
  d <| vga := vga_ioport_write (vga d) addr val |>.

Definition prmvio_write d (addr val : Z) : NV2AState V :=
  d <| vga := vga_ioport_write (vga d) addr val |>.

Definition pfifo_read d (addr : Z) : Z :=
  if addr =? NV_PFIFO_INTR_0 then pfifo_pending d
  else if addr =? NV_PFIFO_INTR_EN_0 then pfifo_enabled d
  else if addr =? NV_PFIFO_RUNOUT_STATUS then NV_PFIFO_RUNOUT_STATUS_LOW_MARK
  else rd (pfifo_regs d) addr.

Definition pfifo_write d (addr val : Z) : NV2AState V :=
  if addr =? NV_PFIFO_INTR_0 then
    update_irq (d <| pfifo_pending := pfifo_pending d .& u32 (.~ val) |>)
  else if addr =? NV_PFIFO_INTR_EN_0 then update_irq (d <| pfifo_enabled := u32 val |>)
  else d <| pfifo_regs := wr (pfifo_regs d) addr (u32 val) |>.

(** The submission area: only the channel that is loaded, in DMA mode. *)
Definition user_channel d (addr : Z) : res () :=
  let channel_id := addr .>> 16 in
  _ ← assert (channel_id <? NV2A_NUM_CHANNELS);
  _ ← assert (nz (rd (pfifo_regs d) NV_PFIFO_MODE .& (1 .<< channel_id)));
  assert (channel_id =? GET_MASK (rd (pfifo_regs d) NV_PFIFO_CACHE1_PUSH1) NV_PFIFO_CACHE1_PUSH1_CHID).

Definition user_read d (addr : Z) : res Z :=
  _ ← user_channel d addr;
  let reg := addr .& 0xFFFF in
  Ok (if reg =? NV_USER_DMA_PUT then rd (pfifo_regs d) NV_PFIFO_CACHE1_DMA_PUT
      else if reg =? NV_USER_DMA_GET then rd (pfifo_regs d) NV_PFIFO_CACHE1_DMA_GET
      else if reg =? NV_USER_REF then rd (pfifo_regs d) NV_PFIFO_CACHE1_REF
      else 0).

Definition user_write d (addr val : Z) : res (NV2AState V) :=
  _ ← user_channel d addr;
  let reg := addr .& 0xFFFF in
  let store r := Ok (d <| pfifo_regs := wr (pfifo_regs d) r (u32 val) |>) in
  if reg =? NV_USER_DMA_PUT then store NV_PFIFO_CACHE1_DMA_PUT
  else if reg =? NV_USER_DMA_GET then store NV_PFIFO_CACHE1_DMA_GET
  else if reg =? NV_USER_REF then store NV_PFIFO_CACHE1_REF
  else Fault assert_failed.

Definition is_vtx_constants (select : Z) : bool :=
  (select =? RDI_INDEX_VTX_CONSTANTS0) || (select =? RDI_INDEX_VTX_CONSTANTS1).

(** Four words for each constant, the last first. *)
Definition pgraph_rdi_read d (select addr : Z) : res Z :=
  if is_vtx_constants select then
    _ ← assert (addr / 4 <? NV2A_VERTEXSHADER_CONSTANTS);
    Ok (rd (vsh_constants d) (4 * (addr / 4) + (3 - addr mod 4)))
  else Fault assert_failed.

(** Writes to the constants stop at an [assert(false)]; other writes do nothing. *)
Definition pgraph_rdi_write (select : Z) : res () := assert (negb (is_vtx_constants select)).

(** The index register moves on after each access. *)
Definition rdi_next d (addr : Z) : res (NV2AState V) :=
  _ ← assert (addr <? GET_MASK NV_PGRAPH_RDI_INDEX_ADDRESS NV_PGRAPH_RDI_INDEX_ADDRESS);
  Ok (d <| pgraph_regs := wr (pgraph_regs d) NV_PGRAPH_RDI_INDEX
        (SET_MASK (rd (pgraph_regs d) NV_PGRAPH_RDI_INDEX) NV_PGRAPH_RDI_INDEX_ADDRESS (addr + 1)) |>).

Definition pgraph_read d (addr : Z) : res (Z * NV2AState V) :=
  if addr =? NV_PGRAPH_INTR then Ok (pgraph_pending d, d)
  else if addr =? NV_PGRAPH_INTR_EN then Ok (pgraph_enabled d, d)
  else if addr =? NV_PGRAPH_RDI_DATA then
    let index := rd (pgraph_regs d) NV_PGRAPH_RDI_INDEX in
    let a := GET_MASK index NV_PGRAPH_RDI_INDEX_ADDRESS in
    r ← pgraph_rdi_read d (GET_MASK index NV_PGRAPH_RDI_INDEX_SELECT) a;
    d ← rdi_next d a;
    Ok (r, d)
  else Ok (rd (pgraph_regs d) addr, d).

Definition pgraph_write d (addr val : Z) : res (NV2AState V) :=
  let regs := pgraph_regs d in
  if addr =? NV_PGRAPH_INTR then Ok (d <| pgraph_pending := pgraph_pending d .& u32 (.~ val) |>)
  else if addr =? NV_PGRAPH_INTR_EN then Ok (d <| pgraph_enabled := u32 val |>)
  else if addr =? NV_PGRAPH_INCREMENT then
    if nz (val .& NV_PGRAPH_INCREMENT_READ_3D) then
      let surface := rd regs NV_PGRAPH_SURFACE in
      let modulo := GET_MASK surface NV_PGRAPH_SURFACE_MODULO_3D in
      if modulo =? 0 then Fault undefined_behaviour
      else Ok (d <| pgraph_regs := wr regs NV_PGRAPH_SURFACE
                 (SET_MASK surface NV_PGRAPH_SURFACE_READ_3D
                    ((GET_MASK surface NV_PGRAPH_SURFACE_READ_3D + 1) mod modulo)) |>)
    else Ok d
  else if addr =? NV_PGRAPH_RDI_DATA then
    let index := rd regs NV_PGRAPH_RDI_INDEX in
    _ ← pgraph_rdi_write (GET_MASK index NV_PGRAPH_RDI_INDEX_SELECT);
    rdi_next d (GET_MASK index NV_PGRAPH_RDI_INDEX_ADDRESS)
  else if addr =? NV_PGRAPH_CHANNEL_CTX_TRIGGER then
    let context_address :=
      GET_MASK (rd regs NV_PGRAPH_CHANNEL_CTX_POINTER) NV_PGRAPH_CHANNEL_CTX_POINTER_INST .<< 4 in
    if nz (val .& NV_PGRAPH_CHANNEL_CTX_TRIGGER_READ_IN) then
      _ ← assert (context_address <? RAMIN_SIZE);
      context_user ← ramin_ldl d context_address;
      Ok (d <| pgraph_regs := wr regs NV_PGRAPH_CTX_USER context_user |>)
    else Ok d
  else Ok (d <| pgraph_regs := wr regs addr (u32 val) |>).

(** A switch to another channel: the interrupt is raised, and the puller waits until the
    guest has cleared it ([true]). *)
Definition pgraph_context_switch d (channel_id : Z) : res (NV2AState V * bool) :=
  let regs := pgraph_regs d in
  let channel_valid := nz (rd regs NV_PGRAPH_CTX_CONTROL .& NV_PGRAPH_CTX_CONTROL_CHID) in
  let pgraph_channel_id := GET_MASK (rd regs NV_PGRAPH_CTX_USER) NV_PGRAPH_CTX_USER_CHID in
  if channel_valid && (pgraph_channel_id =? channel_id) then Ok (d, false)
  else
    let regs := wr regs NV_PGRAPH_TRAPPED_ADDR
      (SET_MASK (rd regs NV_PGRAPH_TRAPPED_ADDR) NV_PGRAPH_TRAPPED_ADDR_CHID channel_id) in
    _ ← assert (negb (nz (rd regs NV_PGRAPH_DEBUG_3 .& NV_PGRAPH_DEBUG_3_HW_CONTEXT_SWITCH)));
    Ok (update_irq (d <| pgraph_regs := regs |>
          <| pgraph_pending := pgraph_pending d .| NV_PGRAPH_INTR_CONTEXT_SWITCH |>), true).

(** ** Display *)

Definition nv2a_get_bpp d : res Z :=
  let depth := cr (vga d) 0x28 .& 3 in
  if depth =? 0 then Ok 0
  else if depth =? 2 then
    Ok (if nz (general_control (pramdac d) .& NV_PRAMDAC_GENERAL_CONTROL_ALT_MODE_SEL) then 16 else 15)
  else if depth =? 3 then Ok 32
  else Fault assert_failed.

(** The line offset, the start address and the line compare. *)
Definition nv2a_get_offsets d : Z * Z * Z :=
  let c := cr (vga d) in
  (u32 ((c 0x13 .| ((c 0x19 .& 0xe0) .<< 3) .| ((c 0x25 .& 0x20) .<< 6)) .<< 3),
   u32 (pcrtc_start d / 4),
   c 0x18 .| ((c 0x07 .& 0x10) .<< 4) .| ((c 0x09 .& 0x40) .<< 3)).

(** After the VGA device has drawn, the vertical blank is signalled. *)
Definition nv2a_vga_gfx_update d : NV2AState V :=
  update_irq (d <| pcrtc_pending := pcrtc_pending d .| NV_PCRTC_INTR_0_VBLANK |>).

(** ** The window *)

Definition blocktable : list (block * Z * Z) :=
  [(PMC, 0x000000, 0x001000); (PBUS, 0x001000, 0x001000); (PFIFO, 0x002000, 0x002000);
   (PRMA, 0x007000, 0x001000); (PVIDEO, 0x008000, 0x001000); (PTIMER, 0x009000, 0x001000);
   (PCOUNTER, 0x00a000, 0x001000); (PVPE, 0x00b000, 0x001000); (PTV, 0x00d000, 0x001000);
   (PRMFB, 0x0a0000, 0x020000); (PRMVIO, 0x0c0000, 0x001000); (PFB, 0x100000, 0x001000);
   (PSTRAPS, 0x101000, 0x001000); (PGRAPH, 0x400000, 0x002000); (PCRTC, 0x600000, 0x001000);
   (PRMCIO, 0x601000, 0x001000); (PRAMDAC, 0x680000, 0x001000); (PRMDIO, 0x681000, 0x001000);
   (USER, 0x800000, 0x800000)].

(** The read and write functions of the table; those of [nv2a_stubs.c] read 0 and ignore
    what is written. *)
Definition block_read d (now : Z) (b : block) (addr size : Z) : res (Z * NV2AState V) :=
  match b with
  | PMC => Ok (pmc_read d addr, d)
  | PBUS => Ok (pbus_read d addr, d)
  | PFIFO => Ok (pfifo_read d addr, d)
  | PVIDEO => Ok (pvideo_read d addr, d)
  | PTIMER => r ← ptimer_read d now addr; Ok (r, d)
  | PRMVIO | PRMCIO => Ok (prmcio_read d addr)
  | PFB => Ok (pfb_read d addr, d)
  | PGRAPH => pgraph_read d addr
  | PCRTC => Ok (pcrtc_read d addr, d)
  | PRAMDAC => r ← pramdac_read d addr size; Ok (r, d)
  | USER => r ← user_read d addr; Ok (r, d)
  | PRMA | PCOUNTER | PVPE | PTV | PRMFB | PSTRAPS | PRMDIO => Ok (0, d)
  end.

Definition block_write d (b : block) (addr val : Z) : res (NV2AState V) :=
  match b with
  | PMC => Ok (pmc_write d addr val)
  | PBUS => Ok (pbus_write d addr val)
  | PFIFO => Ok (pfifo_write d addr val)
  | PVIDEO => Ok (pvideo_write d addr val)
  | PTIMER => Ok (ptimer_write d addr val)
  | PRMVIO => Ok (prmvio_write d addr val)
  | PRMCIO => Ok (prmcio_write d addr val)
  | PFB => Ok (pfb_write d addr val)
  | PGRAPH => pgraph_write d addr val
  | PCRTC => Ok (pcrtc_write d addr val)
  | PRAMDAC => Ok (pramdac_write d addr val)
  | USER => user_write d addr val
  | PRMA | PCOUNTER | PVPE | PTV | PRMFB | PSTRAPS | PRMDIO => Ok d
  end.

(** The block an address of the window belongs to, and the offset in it. *)
Definition find_block (addr : Z) : option (block * Z) :=
  match list_find (λ e : block * Z * Z, let '(_, offset, size) := e in
                     offset ≤ addr < offset + size) blocktable with
  | Some (_, (b, offset, _)) => Some (b, addr - offset)
  | None => None
  end.

(** The state [nv2a_realize] leaves: an object starts zeroed. *)
Definition nv2a_realize (cfg : mem) (v : V) : NV2AState V :=
  NV2A (wr (wr_bytes cfg 0x2c [0; 0; 0; 0]) 0x3d 1) false ∅ ∅ v 0 0 0 0
    (wr ∅ NV_PFIFO_CACHE1_STATUS NV_PFIFO_CACHE1_STATUS_LOW_MARK) ∅ 0 0 0 0 0 ∅ 0 0 ∅ ∅ 0 0 0
    (PramdacRegs 0x00011c01 189000000 0 0x0003C20D 0 0 0 0 0 0 0 0).

(** ** The interrupt line *)

(** The units with an enabled interrupt pending, as PMC shows them. *)
Definition unit_bit (p e k i : Z) : bool := (i =? k) && nz (p .& e).

Definition shows_units (p : Z) d : Prop :=
  0 ≤ p ∧ ∀ i, 0 ≤ i → Z.testbit p i =
    unit_bit (pfifo_pending d) (pfifo_enabled d) 8 i ||
    unit_bit (pcrtc_pending d) (pcrtc_enabled d) 24 i ||
    unit_bit (pgraph_pending d) (pgraph_enabled d) 12 i.

(** PMC shows the units, and the line is up when it shows any and is enabled. *)
Definition irq_ok d : Prop :=
  shows_units (pmc_pending d) d ∧ irq d = nz (pmc_pending d) && nz (pmc_enabled d).

(** PMC shows nothing but units. *)
Definition only_units (p : Z) : Prop :=
  0 ≤ p ∧ ∀ i, 0 ≤ i → Z.testbit p i = true → i = 8 ∨ i = 24 ∨ i = 12.

Lemma shows_only_units p d : shows_units p d → only_units p.
Proof.
  intros [Hp B]. split; [done |]. intros i Hi. rewrite B by done. unfold unit_bit.
  booleans; cbn [andb orb]; auto; done.
Qed.

Lemma only_units_bound p : only_units p → 0 ≤ p < 2 ^ 32.
Proof.
  intros [Hp B]. split; [done |]. apply bits_bound; [done | done |]. intros i Hi.
  apply not_true_is_false. intros T%B; lia.
Qed.

Lemma only_units_land p m : only_units p → only_units (p .& m).
Proof.
  intros [Hp B]. split; [apply Z.land_nonneg; by left |]. intros i Hi.
  rewrite Z.land_spec. intros [T _]%andb_prop. by apply B.
Qed.

Lemma pmc_bit_spec p a e k : 0 ≤ p < 2 ^ 32 → 0 ≤ k < 32 →
  0 ≤ pmc_bit p a e (1 .<< k) < 2 ^ 32 ∧
  ∀ i, 0 ≤ i → Z.testbit (pmc_bit p a e (1 .<< k)) i = if i =? k then nz (a .& e) else Z.testbit p i.
Proof.
  intros Hp Hk. unfold pmc_bit.
  assert (0 ≤ 1 .<< k < 2 ^ 32) by (rewrite Z.shiftl_1_l; split; [lia | apply Z.pow_lt_mono_r; lia]).
  destruct (nz (a .& e)).
  - split; [apply lor_bound; lia |]. intros i Hi. rewrite Z.lor_spec, Z.shiftl_1_l, testbit_pow2 by lia.
    rewrite Z.eqb_sym. destruct (Z.eqb_spec i k); [apply orb_true_r | apply orb_false_r].
  - split; [rewrite Z.land_comm; apply land_bound; lia |].
    intros i Hi. rewrite testbit_andn, Z.shiftl_1_l, testbit_pow2 by lia.
    rewrite Z.eqb_sym. destruct (Z.eqb_spec i k); [apply andb_false_r | apply andb_true_r].
Qed.

(** [update_irq] brings PMC and the line in step. *)
Lemma update_irq_ok d : only_units (pmc_pending d) → irq_ok (update_irq d).
Proof.
  intros [Hp B]. pose proof (only_units_bound _ (conj Hp B)) as Hb.
  destruct (pmc_bit_spec (pmc_pending d) (pfifo_pending d) (pfifo_enabled d) 8) as [B1 T1]; [done | lia |].
  destruct (pmc_bit_spec _ (pcrtc_pending d) (pcrtc_enabled d) 24 B1) as [B2 T2]; [lia |].
  destruct (pmc_bit_spec _ (pgraph_pending d) (pgraph_enabled d) 12 B2) as [B3 T3]; [lia |].
  split; [| done]. split; [apply B3 |]. intros i Hi.
  etransitivity; [exact (T3 i Hi) |]. rewrite T2, T1 by done.
  change (pfifo_pending (update_irq d)) with (pfifo_pending d).
  change (pfifo_enabled (update_irq d)) with (pfifo_enabled d).
  change (pcrtc_pending (update_irq d)) with (pcrtc_pending d).
  change (pcrtc_enabled (update_irq d)) with (pcrtc_enabled d).
  change (pgraph_pending (update_irq d)) with (pgraph_pending d).
  change (pgraph_enabled (update_irq d)) with (pgraph_enabled d).
  unfold unit_bit. booleans; cbn [andb orb]; rewrite ?orb_false_r; try done; try lia.
  apply not_true_is_false. intros T%B; lia.
Qed.

(** The registers the line depends on. *)
Definition irq_regs d : list Z * bool :=
  ([pmc_pending d; pmc_enabled d; pfifo_pending d; pfifo_enabled d; pcrtc_pending d; pcrtc_enabled d;
    pgraph_pending d; pgraph_enabled d], irq d).

Lemma irq_ok_same d d' : irq_regs d' = irq_regs d → irq_ok d → irq_ok d'.
Proof.
  unfold irq_regs. intros E. injection E as E1 E2 E3 E4 E5 E6 E7 E8 E9.
  unfold irq_ok, shows_units. by rewrite E1, E2, E3, E4, E5, E6, E7, E8, E9.
Qed.

Lemma irq_ok_only d : irq_ok d → only_units (pmc_pending d).
Proof. intros [S _]. by eapply shows_only_units. Qed.

(** One of the writes that end with [update_irq], or one that leaves the registers alone. *)
Ltac irq_step :=
  match goal with
  | H : irq_ok ?d |- _ =>
      first
        [ apply update_irq_ok; exact (irq_ok_only d H)
        | apply update_irq_ok; exact (only_units_land _ _ (irq_ok_only d H))
        | apply (irq_ok_same d); [reflexivity | exact H] ]
  end.

Lemma block_write_irq d b addr val d' : irq_ok d → block_write d b addr val = Ok d' →
  ~ (b = PGRAPH ∧ (addr = NV_PGRAPH_INTR ∨ addr = NV_PGRAPH_INTR_EN)) → irq_ok d'.
Proof.
  intros Hd E N. destruct b; cbn [block_write] in E; try (apply Ok_inj in E; subst d'; try exact Hd).
  - unfold pmc_write. repeat case_match; try done; irq_step.
  - unfold pbus_write. case_match; [irq_step | done].
  - unfold pfifo_write. repeat case_match; irq_step.
  - unfold pvideo_write, pvideo_vga_invalidate. repeat case_match; irq_step.
  - unfold ptimer_write. repeat case_match; try done; irq_step.
  - unfold pgraph_write, rdi_next in E.
    destruct (Z.eqb_spec addr NV_PGRAPH_INTR); [by destruct N; auto |].
    destruct (Z.eqb_spec addr NV_PGRAPH_INTR_EN); [by destruct N; auto |].
    repeat case_match; repeat (apply bind_ok in E as (? & ? & E)); try done;
      apply Ok_inj in E; subst d'; irq_step || exact Hd.
  - unfold pcrtc_write. repeat case_match; irq_step || exact Hd.
  - unfold user_write in E. rewrite bind_ok in E. destruct E as (? & _ & E).
    repeat case_match; apply Ok_inj in E || done; subst d'; irq_step.
Qed.

Lemma block_read_irq d now b addr size r d' : irq_ok d → block_read d now b addr size = Ok (r, d') → irq_ok d'.
Proof.
  intros Hd E. destruct b; cbn [block_read] in E; repeat (apply bind_ok in E as (? & ? & E));
    try (injection E as _ <-; exact Hd).
  - unfold prmcio_read in E. case_match. injection E as _ <-. irq_step.
  - unfold pgraph_read, rdi_next in E. repeat case_match;
      repeat (apply bind_ok in E as (? & ? & E)); try (injection E as _ <-; exact Hd).
    match goal with H : _ = Ok ?d1 |- _ => apply bind_ok in H as (? & ? & H); apply Ok_inj in H; subst d1 end.
    injection E as _ <-. irq_step.
  - unfold prmcio_read in E. case_match. injection E as _ <-. irq_step.
Qed.

Lemma gfx_update_irq d : irq_ok d → irq_ok (nv2a_vga_gfx_update d).
Proof. intros Hd. unfold nv2a_vga_gfx_update. irq_step. Qed.

Lemma context_switch_irq d chid d' wait : irq_ok d → pgraph_context_switch d chid = Ok (d', wait) → irq_ok d'.
Proof.
  intros Hd. unfold pgraph_context_switch. case_match; [intros E; injection E as <- _; exact Hd |].
  intros (? & ? & E)%bind_ok. injection E as <- _. irq_step.
Qed.

Lemma shows_none p d : shows_units p d → p = 0 ↔
  pfifo_pending d .& pfifo_enabled d = 0 ∧ pcrtc_pending d .& pcrtc_enabled d = 0 ∧
  pgraph_pending d .& pgraph_enabled d = 0.
Proof.
  intros [Hp B]. unfold unit_bit in B. split.
  - intros ->. pose proof (B 8 ltac:(lia)) as B8. pose proof (B 24 ltac:(lia)) as B24.
    pose proof (B 12 ltac:(lia)) as B12. rewrite Z.bits_0 in B8, B24, B12. cbn in B8, B24, B12.
    rewrite ?orb_false_r in *. unfold nz in *. symmetry in B8, B24, B12.
    rewrite negb_false_iff, Z.eqb_eq in B8, B24, B12. done.
  - intros (E1 & E2 & E3). apply Z.bits_inj'. intros i Hi. rewrite B, E1, E2, E3, Z.bits_0 by done.
    unfold nz. cbn. by rewrite !andb_false_r.
Qed.

(** When the line is up. *)
Lemma irq_ok_line d : irq_ok d → irq d = true ↔
  pmc_enabled d ≠ 0 ∧ (pfifo_pending d .& pfifo_enabled d ≠ 0 ∨ pcrtc_pending d .& pcrtc_enabled d ≠ 0 ∨
                       pgraph_pending d .& pgraph_enabled d ≠ 0).
Proof.
  intros [S ->]. pose proof (shows_none _ _ S) as N. unfold nz.
  rewrite andb_true_iff, !negb_true_iff, !Z.eqb_neq, N. destruct (Z.eq_dec (pfifo_pending d .& pfifo_enabled d) 0),
    (Z.eq_dec (pcrtc_pending d .& pcrtc_enabled d) 0), (Z.eq_dec (pgraph_pending d .& pgraph_enabled d) 0); tauto.
Qed.

Lemma realize_irq cfg v : irq_ok (nv2a_realize cfg v).
Proof.
  split; [| done]. split; [done |]. intros i Hi. cbn. rewrite Z.bits_0. unfold unit_bit, nz. cbn.
  by rewrite !andb_false_r.
Qed.

(** C19: the interrupt line follows the units.  It is up exactly when PMC enables interrupts
    and PFIFO, PCRTC or PGRAPH has an enabled interrupt pending: so after reset, and after
    every access to the window but two, the vertical blank and a context switch.  The
    exceptions are the writes to the two interrupt registers of PGRAPH. *)
Theorem nv2a_irq_invariant cfg v :
  irq_ok (nv2a_realize cfg v) ∧
  ∀ d, irq_ok d →
    (irq d = true ↔ pmc_enabled d ≠ 0 ∧
       (pfifo_pending d .& pfifo_enabled d ≠ 0 ∨ pcrtc_pending d .& pcrtc_enabled d ≠ 0 ∨
        pgraph_pending d .& pgraph_enabled d ≠ 0)) ∧
    (∀ b addr val d', block_write d b addr val = Ok d' →
       ~ (b = PGRAPH ∧ (addr = NV_PGRAPH_INTR ∨ addr = NV_PGRAPH_INTR_EN)) → irq_ok d') ∧
    (∀ now b addr size r d', block_read d now b addr size = Ok (r, d') → irq_ok d') ∧
    irq_ok (nv2a_vga_gfx_update d) ∧
    (∀ chid d' wait, pgraph_context_switch d chid = Ok (d', wait) → irq_ok d').
Proof.
  split; [apply realize_irq |]. intros d Hd. split; [by apply irq_ok_line |].
  split; [intros; by eapply block_write_irq |]. split; [intros; by eapply block_read_irq |].
  split; [by apply gfx_update_irq | intros; by eapply context_switch_irq].
Qed.

(** acknowledging PGRAPH does not lower the line.  If PGRAPH is the only unit with an
    enabled interrupt pending and the guest clears all its interrupts, or disables them,
    nothing is pending any more, but PMC still shows PGRAPH and the line stays up until
    some other register access recomputes it. *)
Theorem pgraph_ack_stale d addr val d' : irq_ok d → pmc_enabled d ≠ 0 →
  pgraph_pending d .& pgraph_enabled d ≠ 0 →
  pfifo_pending d .& pfifo_enabled d = 0 → pcrtc_pending d .& pcrtc_enabled d = 0 →
  addr = NV_PGRAPH_INTR ∧ val = 0xffffffff ∨
  addr = NV_PGRAPH_INTR_EN ∧ val = 0 →
  block_write d PGRAPH addr val = Ok d' →
  pgraph_pending d' .& pgraph_enabled d' = 0 ∧ irq d' = true ∧ ~ irq_ok d' ∧
  irq_ok (update_irq d') ∧ irq (update_irq d') = false.
Proof.
  intros Hd He Hg Hf Hc Hw E.
  assert (R : pgraph_pending d' .& pgraph_enabled d' = 0 ∧ irq d' = irq d ∧ pmc_pending d' = pmc_pending d ∧
    pmc_enabled d' = pmc_enabled d ∧ pfifo_pending d' .& pfifo_enabled d' = 0 ∧
    pcrtc_pending d' .& pcrtc_enabled d' = 0).
  { destruct Hw as [(-> & ->) | (-> & ->)]; cbn in E; apply Ok_inj in E; subst d'.
    - split; [| done]. change (pgraph_pending d .& u32 (.~ 0xffffffff) .& pgraph_enabled d = 0).
      change (u32 (.~ 0xffffffff)) with 0. by rewrite Z.land_0_r.
    - split; [| done]. change (pgraph_pending d .& 0 = 0). apply Z.land_0_r. }
  destruct R as (Z1 & Ei & Ep & Ee & Z2 & Z3).
  assert (L : irq d = true) by (apply irq_ok_line; auto).
  assert (U : irq_ok (update_irq d')) by (apply update_irq_ok; rewrite Ep; by apply irq_ok_only).
  split; [done |]. split; [by rewrite Ei |]. split.
  - intros Hd'. apply irq_ok_line in Hd'. rewrite Z1, Z2, Z3, Ei in Hd'. tauto.
  - split; [done |]. apply not_true_is_false. intros (_ & Hx)%(irq_ok_line _ U).
    change (pfifo_pending d' .& pfifo_enabled d' ≠ 0 ∨ pcrtc_pending d' .& pcrtc_enabled d' ≠ 0 ∨
      pgraph_pending d' .& pgraph_enabled d' ≠ 0) in Hx. tauto.
Qed.

(** ** Clocks *)

(** The two time registers together are the low 56 bits of the clock, shifted by 5. *)
Lemma ptimer_time d now t : ptimer_get_clock d now = Ok t → ∃ lo hi,
  ptimer_read d now NV_PTIMER_TIME_0 = Ok lo ∧ ptimer_read d now NV_PTIMER_TIME_1 = Ok hi ∧
  hi * 2 ^ 32 + lo = t mod 2 ^ 56 * 2 ^ 5.
Proof.
  intros E. unfold ptimer_read. cbn [Z.eqb Pos.eqb NV_PTIMER_TIME_0 NV_PTIMER_TIME_1 NV_PTIMER_INTR_0
    NV_PTIMER_INTR_EN_0 NV_PTIMER_NUMERATOR NV_PTIMER_DENOMINATOR]. rewrite E. cbn [mbind res_bind].
  eexists _, _. split; [done |]. split; [done |].
  rewrite (land_mask t 27), (land_mask (t .>> 27) 29) by done. rewrite shiftl_mul, shiftr_div by done.
  pow2_lits. Z.to_euclidean_division_equations. lia.
Qed.

(** Reading the time before the guest has set the divisor divides by zero. *)
Lemma ptimer_unset d now : numerator d = 0 →
  ptimer_read d now NV_PTIMER_TIME_0 = Fault undefined_behaviour.
Proof. intros E. cbn. unfold ptimer_get_clock. by rewrite E. Qed.

(** A byte of a RAMDAC register is read from the wrong end. *)
Lemma pramdac_read_byte d addr k : addr mod 4 = 0 → 0 ≤ k < 4 →
  pramdac_read d (addr + k) 1 = Ok (pramdac_reg (pramdac d) addr .>> (8 * (3 - k))).
Proof.
  intros Ha Hk. unfold pramdac_read.
  assert (E1 : (addr + k) .& 3 = k) by (rewrite (land_mask _ 2) by done; pow2_lits; Z.to_euclidean_division_equations; lia).
  assert (E2 : (addr + k) .& .~ 3 = addr).
  { replace (.~ 3) with (.~ Z.ones 2) by done. rewrite <- Z.ldiff_land, Z.ldiff_ones_r by done.
    rewrite shiftl_mul, shiftr_div by done. pow2_lits. Z.to_euclidean_division_equations; lia. }
  rewrite E1, E2. rewrite (proj2 (Z.ltb_ge _ _)) by lia. do 2 f_equal. lia.
Qed.

(** No address belongs to two blocks. *)
Lemma blocks_apart : Forall (λ p : (block * Z * Z) * (block * Z * Z),
  let '((_, o1, n1), (_, o2, n2)) := p in o1 + n1 ≤ o2) (zip blocktable (tail blocktable)).
Proof. repeat constructor; by vm_compute. Qed.

End nv2a.

(** A VGA device that ignores everything. *)
#[local] Instance no_vga : VgaPort () := {|
  vga_ioport_read := λ v _, (0, v); vga_ioport_write := λ v _ _, v;
  vga_invalidate_scanlines := λ v _ _, v; ar_flip_flop := λ _, 0; cr := λ _ _, 0
|}.

(** PGRAPH has an enabled context switch pending. *)
Definition sample_gpu : NV2AState () :=
  update_irq ((nv2a_realize ∅ ()) <| pmc_enabled := 1 |> <| pgraph_enabled := 1 .<< 12 |>
                <| pgraph_pending := 1 .<< 12 |>).

Lemma pgraph_ack_stale_witness : ∃ d', block_write sample_gpu PGRAPH NV_PGRAPH_INTR 0xffffffff = Ok d' ∧
  irq d' = true ∧ pgraph_pending d' = 0.
Proof.
  eexists. split; [reflexivity |].
  destruct (pgraph_ack_stale sample_gpu NV_PGRAPH_INTR 0xffffffff
    (sample_gpu <| pgraph_pending := 0 |>)) as (_ & L & _).
  - apply update_irq_ok. split; [done |]. intros i Hi. cbn. by rewrite Z.bits_0.
  - by vm_compute.
  - by vm_compute.
  - by vm_compute.
  - by vm_compute.
  - by left.
  - reflexivity.
  - split; [exact L | reflexivity].
Defined.
