(* ===== verification/Pfifo.v ===== *)
(** * Command submission of the GPU

    src/hw/xbox/nv2a/nv2a_pfifo.c.  The guest writes commands to a buffer in memory; the
    pusher reads them and puts methods into CACHE1, a ring of 128 entries in the register
    file; the puller takes them out and passes them to PGRAPH.  Pusher and puller are two
    threads that share the registers under a lock: the pusher holds it for a whole run, the
    puller gives it up in every iteration, while PGRAPH works.

    The calls of PGRAPH are recorded, not executed: what its methods do is not part of this
    file.  CACHE1 is shown to be a bounded queue, so that methods reach PGRAPH in the order
    in which they were submitted, however the threads interleave; the pusher is shown to
    unpack commands into the methods they stand for. *)

From S2P Require Import Prelude Bytes Fields Nv2a.

Definition NV_PFIFO_RAMHT := 0x210.
Definition NV_PFIFO_RAMHT_BASE_ADDRESS := 0x1F0.
Definition NV_PFIFO_RAMHT_SIZE := 0x30000.
Definition NV_PFIFO_CACHE1_PUSH0 := 0x1200.
Definition NV_PFIFO_CACHE1_PUSH0_ACCESS := 1 .<< 0.
Definition NV_PFIFO_CACHE1_PUSH1_MODE := 0x100.
Definition NV_PFIFO_CACHE1_PUSH1_MODE_DMA := 1.
Definition NV_PFIFO_CACHE1_PUT := 0x1210.
Definition NV_PFIFO_CACHE1_DMA_PUSH := 0x1220.
Definition NV_PFIFO_CACHE1_DMA_PUSH_ACCESS := 1 .<< 0.
Definition NV_PFIFO_CACHE1_DMA_PUSH_STATUS := 1 .<< 12.
Definition NV_PFIFO_CACHE1_DMA_STATE := 0x1228.
Definition NV_PFIFO_CACHE1_DMA_STATE_METHOD_TYPE := 1 .<< 0.
Definition NV_PFIFO_CACHE1_DMA_STATE_METHOD_TYPE_INC := 0.
Definition NV_PFIFO_CACHE1_DMA_STATE_METHOD_TYPE_NON_INC := 1.
Definition NV_PFIFO_CACHE1_DMA_STATE_METHOD := 0x1FFC.
Definition NV_PFIFO_CACHE1_DMA_STATE_SUBCHANNEL := 0xE000.
Definition NV_PFIFO_CACHE1_DMA_STATE_METHOD_COUNT := 0x1FFC0000.
Definition NV_PFIFO_CACHE1_DMA_STATE_ERROR := 0xE0000000.
Definition NV_PFIFO_CACHE1_DMA_STATE_ERROR_CALL := 1.
Definition NV_PFIFO_CACHE1_DMA_STATE_ERROR_RETURN := 3.
Definition NV_PFIFO_CACHE1_DMA_INSTANCE := 0x122C.
Definition NV_PFIFO_CACHE1_DMA_INSTANCE_ADDRESS := 0xFFFF.
Definition NV_PFIFO_CACHE1_DMA_SUBROUTINE := 0x124C.
Definition NV_PFIFO_CACHE1_DMA_SUBROUTINE_STATE := 1 .<< 0.
Definition NV_PFIFO_CACHE1_PULL0 := 0x1250.
Definition NV_PFIFO_CACHE1_PULL0_ACCESS := 1 .<< 0.
Definition NV_PFIFO_CACHE1_PULL1 := 0x1254.
Definition NV_PFIFO_CACHE1_PULL1_ENGINE := 3.
Definition NV_PFIFO_CACHE1_GET := 0x1270.
Definition NV_PFIFO_CACHE1_ENGINE := 0x1280.
Definition NV_PFIFO_CACHE1_DMA_DCOUNT := 0x12A0.
Definition NV_PFIFO_CACHE1_DMA_GET_JMP_SHADOW := 0x12A4.
Definition NV_PFIFO_CACHE1_DMA_RSVD_SHADOW := 0x12A8.
Definition NV_PFIFO_CACHE1_DMA_DATA_SHADOW := 0x12AC.
Definition NV_PFIFO_CACHE1_METHOD := 0x1800.
Definition NV_PFIFO_CACHE1_METHOD_TYPE := 1 .<< 0.
Definition NV_PFIFO_CACHE1_METHOD_ADDRESS := 0x1FFC.
Definition NV_PFIFO_CACHE1_METHOD_SUBCHANNEL := 0xE000.
Definition NV_PFIFO_CACHE1_DATA := 0x1804.
Definition NV_RAMHT_INSTANCE := 0xFFFF.
Definition NV_RAMHT_ENGINE := 0x30000.
Definition NV_RAMHT_CHID := 0x1F000000.
Definition NV_RAMHT_STATUS := 0x80000000.
Definition ENGINE_GRAPHICS := 1.

(** ** CACHE1 *)

Implicit Types r : mem.

(** Put an entry, unless the ring is full. *)
Definition cache1_push r (method_entry word : Z) : res mem :=
  let put := rd r NV_PFIFO_CACHE1_PUT in
  let get := rd r NV_PFIFO_CACHE1_GET in
  _ ← assert ((put <? 128 * 4) && (put mod 4 =? 0));
  let r := wr r (NV_PFIFO_CACHE1_METHOD + put * 2) method_entry in
  let r := wr r (NV_PFIFO_CACHE1_DATA + put * 2) word in
  let new_put := (put + 4) .& 0x1fc in
  let r := wr r NV_PFIFO_CACHE1_PUT new_put in
  let status := rd r NV_PFIFO_CACHE1_STATUS in
  let status := if new_put =? get then status .| NV_PFIFO_CACHE1_STATUS_HIGH_MARK else status in
  let status := if nz (status .& NV_PFIFO_CACHE1_STATUS_LOW_MARK)
                then status .& u32 (.~ NV_PFIFO_CACHE1_STATUS_LOW_MARK) else status in
  Ok (wr r NV_PFIFO_CACHE1_STATUS status).

(** Take the next entry of a ring that is not empty. *)
Definition cache1_pull r : res (mem * Z * Z) :=
  let get := rd r NV_PFIFO_CACHE1_GET in
  let put := rd r NV_PFIFO_CACHE1_PUT in
  _ ← assert ((get <? 128 * 4) && (get mod 4 =? 0));
  let method_entry := rd r (NV_PFIFO_CACHE1_METHOD + get * 2) in
  let parameter := rd r (NV_PFIFO_CACHE1_DATA + get * 2) in
  let new_get := (get + 4) .& 0x1fc in
  let r := wr r NV_PFIFO_CACHE1_GET new_get in
  let status := rd r NV_PFIFO_CACHE1_STATUS in
  let status := if new_get =? put then status .| NV_PFIFO_CACHE1_STATUS_LOW_MARK else status in
  let status := if nz (status .& NV_PFIFO_CACHE1_STATUS_HIGH_MARK)
                then status .& u32 (.~ NV_PFIFO_CACHE1_STATUS_HIGH_MARK) else status in
  Ok (wr r NV_PFIFO_CACHE1_STATUS status, method_entry, parameter).

(** ** The object table *)

Record RAMHTEntry := Entry {
  handle : Z;
  instance : Z;
  engine : Z;
  channel_id : Z;
  valid : bool
}.

Fixpoint hash_loop (fuel : nat) (bits h hash : Z) : res Z :=
  if h =? 0 then Ok hash
  else
    match fuel with
    | O => Fault out_of_fuel
    | S fuel => hash_loop fuel bits (h .>> bits) (hash .^ (h .& ((1 .<< bits) - 1)))
    end.

Definition ramht_size r : Z :=
  1 .<< (GET_MASK (rd r NV_PFIFO_RAMHT) NV_PFIFO_RAMHT_SIZE + 12).

(** A handle has 32 bits and [bits] is at least 11, so three turns are enough. *)
Definition ramht_hash r (h : Z) : res Z :=
  let bits := ctz32 (ramht_size r) - 1 in
  hash ← hash_loop 32 bits h 0;
  let chid := GET_MASK (rd r NV_PFIFO_CACHE1_PUSH1) NV_PFIFO_CACHE1_PUSH1_CHID in
  Ok (hash .^ u32 (chid .<< (bits - 4))).

Definition entry_of (h context : Z) : RAMHTEntry :=
  Entry h ((context .& NV_RAMHT_INSTANCE) .<< 4) ((context .& NV_RAMHT_ENGINE) .>> 16)
    ((context .& NV_RAMHT_CHID) .>> 24) (nz (context .& NV_RAMHT_STATUS)).

(** ** Calls of PGRAPH *)

Inductive pgraph_call :=
| ContextSwitch (chid : Z)
| WaitFifoAccess
| Method (subchannel method parameter : Z).

(** How an iteration of a loop ends. *)
Inductive outcome :=
| Continue (r : mem)
| Break (r : mem)
| Return (r : mem).

Section pfifo.
Context {V : Type} (vram_size : Z).
Implicit Types (d : NV2AState V).

Definition ramht_lookup d (h : Z) : res RAMHTEntry :=
  let r := pfifo_regs d in
  hash ← ramht_hash r h;
  _ ← assert (u32 (hash * 8) <? ramht_size r);
  let ramht_address := GET_MASK (rd r NV_PFIFO_RAMHT) NV_PFIFO_RAMHT_BASE_ADDRESS .<< 12 in
  let entry_ptr := ramht_address + u32 (hash * 8) in
  _ ← assert (entry_ptr <? RAMIN_SIZE);
  entry_handle ← ramin_ldl d entry_ptr;
  entry_context ← ramin_ldl d (entry_ptr + 4);
  Ok (entry_of entry_handle entry_context).

(** ** The puller *)

(** The object method: the engine is bound to the subchannel. *)
Definition bind_object d r (subchannel parameter : Z) : res (mem * list pgraph_call) :=
  entry ← ramht_lookup d parameter;
  _ ← assert (valid entry);
  _ ← assert (engine entry =? ENGINE_GRAPHICS);
  _ ← assert (subchannel <? 8);
  let r := wr r NV_PFIFO_CACHE1_ENGINE
             (SET_MASK (rd r NV_PFIFO_CACHE1_ENGINE) (3 .<< (4 * subchannel)) (engine entry)) in
  let r := wr r NV_PFIFO_CACHE1_PULL1
             (SET_MASK (rd r NV_PFIFO_CACHE1_PULL1) NV_PFIFO_CACHE1_PULL1_ENGINE (engine entry)) in
  Ok (r, [ContextSwitch (channel_id entry); WaitFifoAccess; Method subchannel 0 (instance entry)]).

(** Any other method: those from 0x180 to 0x1ff take an object. *)
Definition pass_method d r (subchannel method parameter : Z) : res (mem * list pgraph_call) :=
  parameter ← (if (0x180 <=? method) && (method <? 0x200) then
                 entry ← ramht_lookup d parameter;
                 _ ← assert (valid entry);
                 Ok (instance entry)
               else Ok parameter);
  let eng := GET_MASK (rd r NV_PFIFO_CACHE1_ENGINE) (3 .<< (4 * subchannel)) in
  _ ← assert (eng =? ENGINE_GRAPHICS);
  Ok (wr r NV_PFIFO_CACHE1_PULL1
        (SET_MASK (rd r NV_PFIFO_CACHE1_PULL1) NV_PFIFO_CACHE1_PULL1_ENGINE eng),
      [WaitFifoAccess; Method subchannel method parameter]).

(** An iteration of the puller, up to where it takes the lock again; [None] when it has
    nothing to do. *)
Definition puller_step d : res (option (NV2AState V * list pgraph_call)) :=
  let r := pfifo_regs d in
  if GET_MASK (rd r NV_PFIFO_CACHE1_PULL0) NV_PFIFO_CACHE1_PULL0_ACCESS =? 0 then Ok None
  else if nz (rd r NV_PFIFO_CACHE1_STATUS .& NV_PFIFO_CACHE1_STATUS_LOW_MARK) then Ok None
  else
    '(r, method_entry, parameter) ← cache1_pull r;
    let method := method_entry .& 0x1FFC in
    let subchannel := GET_MASK method_entry NV_PFIFO_CACHE1_METHOD_SUBCHANNEL in
    let d := d <| pfifo_regs := r |> in
    '(r, calls) ← (if method =? 0 then bind_object d r subchannel parameter
                   else if 0x100 <=? method then pass_method d r subchannel method parameter
                   else Fault assert_failed);
    Ok (Some (d <| pfifo_regs := r |>, calls)).

(** The loop, when no other thread takes the lock in between. *)
Fixpoint pfifo_run_puller (fuel : nat) d : res (NV2AState V * list pgraph_call) :=
  match fuel with
  | O => Fault out_of_fuel
  | S fuel =>
      o ← puller_step d;
      match o with
      | None => Ok (d, [])
      | Some (d, calls) =>
          '(d, rest) ← pfifo_run_puller fuel d;
          Ok (d, calls ++ rest)
      end
  end.

(** ** The pusher *)

(** A data word of the command that is running. *)
Definition push_data r (word method_type method_subchannel method method_count : Z) : res mem :=
  let r := wr r NV_PFIFO_CACHE1_DMA_DATA_SHADOW word in
  _ ← assert (method .& 3 =? 0);
  let method_entry := SET_MASK 0 NV_PFIFO_CACHE1_METHOD_ADDRESS (method .>> 2) in
  let method_entry := SET_MASK method_entry NV_PFIFO_CACHE1_METHOD_TYPE method_type in
  let method_entry := SET_MASK method_entry NV_PFIFO_CACHE1_METHOD_SUBCHANNEL method_subchannel in
  r ← cache1_push r method_entry word;
  let state := rd r NV_PFIFO_CACHE1_DMA_STATE in
  let state := if method_type =? NV_PFIFO_CACHE1_DMA_STATE_METHOD_TYPE_INC
               then SET_MASK state NV_PFIFO_CACHE1_DMA_STATE_METHOD ((method + 4) .>> 2) else state in
  let state := SET_MASK state NV_PFIFO_CACHE1_DMA_STATE_METHOD_COUNT (method_count - 1) in
  let r := wr r NV_PFIFO_CACHE1_DMA_STATE state in
  Ok (wr r NV_PFIFO_CACHE1_DMA_DCOUNT (u32 (rd r NV_PFIFO_CACHE1_DMA_DCOUNT + 1))).

(** The first word of a command that starts methods. *)
Definition start_methods r (word method_type : Z) : mem :=
  let state := rd r NV_PFIFO_CACHE1_DMA_STATE in
  let state := SET_MASK state NV_PFIFO_CACHE1_DMA_STATE_METHOD ((word .& 0x1fff) .>> 2) in
  let state := SET_MASK state NV_PFIFO_CACHE1_DMA_STATE_SUBCHANNEL ((word .>> 13) .& 7) in
  let state := SET_MASK state NV_PFIFO_CACHE1_DMA_STATE_METHOD_COUNT ((word .>> 18) .& 0x7ff) in
  let state := SET_MASK state NV_PFIFO_CACHE1_DMA_STATE_METHOD_TYPE method_type in
  wr (wr r NV_PFIFO_CACHE1_DMA_STATE state) NV_PFIFO_CACHE1_DMA_DCOUNT 0.

Definition dma_error r (code : Z) : mem :=
  wr r NV_PFIFO_CACHE1_DMA_STATE
    (SET_MASK (rd r NV_PFIFO_CACHE1_DMA_STATE) NV_PFIFO_CACHE1_DMA_STATE_ERROR code).

(** The first word of a command, and where to read on; [None] stops at once. *)
Definition push_command r (word dma_get_v : Z) : res (mem * option Z) :=
  let subroutine := rd r NV_PFIFO_CACHE1_DMA_SUBROUTINE in
  let subroutine_state := GET_MASK subroutine NV_PFIFO_CACHE1_DMA_SUBROUTINE_STATE in
  let r := wr r NV_PFIFO_CACHE1_DMA_RSVD_SHADOW word in
  if word .& 0xe0000003 =? 0x20000000 then
    Ok (wr r NV_PFIFO_CACHE1_DMA_GET_JMP_SHADOW dma_get_v, Some (word .& 0x1fffffff))
  else if word .& 3 =? 1 then
    Ok (wr r NV_PFIFO_CACHE1_DMA_GET_JMP_SHADOW dma_get_v, Some (word .& 0xfffffffc))
  else if word .& 3 =? 2 then
    if nz subroutine_state then Ok (dma_error r NV_PFIFO_CACHE1_DMA_STATE_ERROR_CALL, None)
    else Ok (wr r NV_PFIFO_CACHE1_DMA_SUBROUTINE
               (SET_MASK dma_get_v NV_PFIFO_CACHE1_DMA_SUBROUTINE_STATE 1), Some (word .& 0xfffffffc))
  else if word =? 0x00020000 then
    if negb (nz subroutine_state) then
      Ok (dma_error r NV_PFIFO_CACHE1_DMA_STATE_ERROR_RETURN, Some dma_get_v)
    else Ok (wr r NV_PFIFO_CACHE1_DMA_SUBROUTINE
               (SET_MASK subroutine NV_PFIFO_CACHE1_DMA_SUBROUTINE_STATE 0),
             Some (subroutine .& 0xfffffffc))
  else if word .& 0xe0030003 =? 0 then
    Ok (start_methods r word NV_PFIFO_CACHE1_DMA_STATE_METHOD_TYPE_INC, Some dma_get_v)
  else if word .& 0xe0030003 =? 0x40000000 then
    Ok (start_methods r word NV_PFIFO_CACHE1_DMA_STATE_METHOD_TYPE_NON_INC, Some dma_get_v)
  else Fault assert_failed.

(** The end of an iteration. *)
Definition advance r (dma_get_v : Z) : outcome :=
  let r := wr r NV_PFIFO_CACHE1_DMA_GET dma_get_v in
  if nz (GET_MASK (rd r NV_PFIFO_CACHE1_DMA_STATE) NV_PFIFO_CACHE1_DMA_STATE_ERROR)
  then Break r else Continue r.

(** An iteration of the pusher; [dma] and [dma_len] are the buffer in the video memory. *)
Definition pusher_step d r (dma dma_len : Z) : res outcome :=
  let dma_get_v := rd r NV_PFIFO_CACHE1_DMA_GET in
  if dma_get_v =? rd r NV_PFIFO_CACHE1_DMA_PUT then Ok (Break r)
  else
    _ ← assert (dma_get_v <? dma_len);
    word ← vram_ldl vram_size d (dma + dma_get_v);
    let dma_get_v := u32 (dma_get_v + 4) in
    let state := rd r NV_PFIFO_CACHE1_DMA_STATE in
    let method_count := GET_MASK state NV_PFIFO_CACHE1_DMA_STATE_METHOD_COUNT in
    if nz method_count then
      if nz (rd r NV_PFIFO_CACHE1_STATUS .& NV_PFIFO_CACHE1_STATUS_HIGH_MARK) then Ok (Return r)
      else
        r ← push_data r word (GET_MASK state NV_PFIFO_CACHE1_DMA_STATE_METHOD_TYPE)
              (GET_MASK state NV_PFIFO_CACHE1_DMA_STATE_SUBCHANNEL)
              (GET_MASK state NV_PFIFO_CACHE1_DMA_STATE_METHOD .<< 2) method_count;
        Ok (advance r dma_get_v)
    else
      '(r, next) ← push_command r word dma_get_v;
      Ok (match next with Some a => advance r a | None => Break r end).

(** The loop and the check behind it. *)
Fixpoint pusher_loop (fuel : nat) d r (dma dma_len : Z) : res mem :=
  match fuel with
  | O => Fault out_of_fuel
  | S fuel =>
      o ← pusher_step d r dma dma_len;
      match o with
      | Continue r => pusher_loop fuel d r dma dma_len
      | Return r => Ok r
      | Break r =>
          _ ← assert (GET_MASK (rd r NV_PFIFO_CACHE1_DMA_STATE) NV_PFIFO_CACHE1_DMA_STATE_ERROR =? 0);
          Ok r
      end
  end.

Definition pfifo_run_pusher (fuel : nat) d : res (NV2AState V) :=
  let r := pfifo_regs d in
  let push1 := rd r NV_PFIFO_CACHE1_PUSH1 in
  let dma_push := rd r NV_PFIFO_CACHE1_DMA_PUSH in
  if GET_MASK (rd r NV_PFIFO_CACHE1_PUSH0) NV_PFIFO_CACHE1_PUSH0_ACCESS =? 0 then Ok d
  else if GET_MASK dma_push NV_PFIFO_CACHE1_DMA_PUSH_ACCESS =? 0 then Ok d
  else if nz (GET_MASK dma_push NV_PFIFO_CACHE1_DMA_PUSH_STATUS) then Ok d
  else
    let chid := GET_MASK push1 NV_PFIFO_CACHE1_PUSH1_CHID in
    _ ← assert (nz (rd r NV_PFIFO_MODE .& (1 .<< chid)));
    _ ← assert (GET_MASK push1 NV_PFIFO_CACHE1_PUSH1_MODE =? NV_PFIFO_CACHE1_PUSH1_MODE_DMA);
    _ ← assert (GET_MASK (rd r NV_PFIFO_CACHE1_DMA_STATE) NV_PFIFO_CACHE1_DMA_STATE_ERROR =? 0);
    let dma_instance :=
      GET_MASK (rd r NV_PFIFO_CACHE1_DMA_INSTANCE) NV_PFIFO_CACHE1_DMA_INSTANCE_ADDRESS .<< 4 in
    '(dma, dma_len) ← nv_dma_map vram_size d dma_instance;
    r ← pusher_loop fuel d r dma dma_len;
    Ok (d <| pfifo_regs := r |>).

End pfifo.

(** ** CACHE1 is a queue *)

Definition slot r (k : Z) : Z * Z :=
  (rd r (NV_PFIFO_CACHE1_METHOD + 8 * k), rd r (NV_PFIFO_CACHE1_DATA + 8 * k)).

(** The ring holds the entries [q]; the two marks tell an empty ring from a full one. *)
Definition queue r (q : list (Z * Z)) : Prop := ∃ g,
  0 ≤ g < 128 ∧ Z.of_nat (length q) ≤ 128 ∧
  rd r NV_PFIFO_CACHE1_GET = 4 * g ∧
  rd r NV_PFIFO_CACHE1_PUT = 4 * ((g + Z.of_nat (length q)) mod 128) ∧
  0 ≤ rd r NV_PFIFO_CACHE1_STATUS < 2 ^ 32 ∧
  Z.testbit (rd r NV_PFIFO_CACHE1_STATUS) 4 = (Z.of_nat (length q) =? 0) ∧
  Z.testbit (rd r NV_PFIFO_CACHE1_STATUS) 8 = (Z.of_nat (length q) =? 128) ∧
  ∀ (k : nat) e, q !! k = Some e → slot r ((g + Z.of_nat k) mod 128) = e.

(** The registers of the ring. *)
Definition ring_reg (a : Z) : Prop :=
  a = NV_PFIFO_CACHE1_GET ∨ a = NV_PFIFO_CACHE1_PUT ∨ a = NV_PFIFO_CACHE1_STATUS ∨
  NV_PFIFO_CACHE1_METHOD ≤ a < 0x1C00.

#[global] Instance ring_reg_dec a : Decision (ring_reg a).
Proof. unfold ring_reg. apply _. Defined.

Lemma queue_frame r r' q : (∀ a, ring_reg a → rd r' a = rd r a) → queue r q → queue r' q.
Proof.
  intros F (g & Hg & Hn & Eg & Ep & Hs & E4 & E8 & S). exists g.
  unfold ring_reg in F. rewrite !F by (unfold NV_PFIFO_CACHE1_GET, NV_PFIFO_CACHE1_PUT, NV_PFIFO_CACHE1_STATUS; lia).
  do 7 (split; [done |]). intros k e Hk. rewrite <- (S k e Hk). unfold slot.
  unfold NV_PFIFO_CACHE1_METHOD, NV_PFIFO_CACHE1_DATA in *.
  pose proof (Z.mod_pos_bound (g + Z.of_nat k) 128 ltac:(lia)).
  rewrite !F by (right; right; right; lia). done.
Qed.

Lemma queue_wr r a v q : ~ ring_reg a → queue r q → queue (wr r a v) q.
Proof. intros N. apply queue_frame. intros b Hb. apply rd_wr_ne. by intros ->. Qed.

Lemma slot_next p : 0 ≤ p → (4 * p + 4) .& 0x1fc = 4 * ((p + 1) mod 128).
Proof.
  intros Hp. replace (4 * p + 4) with ((p + 1) .<< 2) by (rewrite shiftl_mul by lia; lia).
  change 0x1fc with (127 .<< 2). rewrite <- Z.shiftl_land, (land_mask _ 7) by done.
  rewrite shiftl_mul by lia. change (2 ^ 7) with 128. lia.
Qed.

(** Setting and clearing a mark. *)
Lemma mark_set s k i : 0 ≤ k → Z.testbit (s .| (1 .<< k)) i = Z.testbit s i || (k =? i).
Proof. intros. by rewrite Z.lor_spec, Z.shiftl_1_l, testbit_pow2. Qed.

Lemma mark_clear s k i : 0 ≤ s < 2 ^ 32 → 0 ≤ k → 0 ≤ i →
  Z.testbit (if nz (s .& (1 .<< k)) then s .& u32 (.~ (1 .<< k)) else s) i = Z.testbit s i && negb (k =? i).
Proof.
  intros Hs Hk Hi. rewrite nz_bit by done. destruct (Z.testbit s k) eqn:T.
  - by rewrite testbit_andn, Z.shiftl_1_l, testbit_pow2.
  - destruct (Z.eqb_spec k i) as [-> |]; [by rewrite T | by rewrite andb_true_r].
Qed.

Lemma mark_bound s k (b c : bool) : 0 ≤ s < 2 ^ 32 → 0 ≤ k < 32 →
  0 ≤ (if b then s .| (1 .<< k) else s) < 2 ^ 32 ∧ 0 ≤ (if c then s .& u32 (.~ (1 .<< k)) else s) < 2 ^ 32.
Proof.
  intros Hs Hk.
  assert (0 ≤ 1 .<< k < 2 ^ 32) by (rewrite Z.shiftl_1_l; split; [lia | apply Z.pow_lt_mono_r; lia]).
  split; [destruct b; [apply lor_bound; lia | done] |].
  destruct c; [rewrite Z.land_comm; apply land_bound; lia | done].
Qed.

(** Both marks after an operation that may reach the other end. *)
Lemma marks s (hi : bool) set clear : 0 ≤ s < 2 ^ 32 → 0 ≤ set < 32 → 0 ≤ clear < 32 → set ≠ clear →
  let s1 := if hi then s .| (1 .<< set) else s in
  let s2 := if nz (s1 .& (1 .<< clear)) then s1 .& u32 (.~ (1 .<< clear)) else s1 in
  0 ≤ s2 < 2 ^ 32 ∧ Z.testbit s2 set = Z.testbit s set || hi ∧ Z.testbit s2 clear = false.
Proof.
  intros Hs Hset Hclear N s1 s2.
  assert (0 ≤ s1 < 2 ^ 32) by (unfold s1; apply (mark_bound s set hi true); done).
  assert (T : Z.testbit s1 set = Z.testbit s set || hi).
  { unfold s1. destruct hi; [| by rewrite orb_false_r]. by rewrite mark_set, Z.eqb_refl by lia. }
  split; [unfold s2; apply (mark_bound s1 clear true); done |]. unfold s2.
  rewrite !mark_clear, T by lia. rewrite (proj2 (Z.eqb_neq clear set)), Z.eqb_refl by done.
  cbn. by rewrite andb_true_r, andb_false_r.
Qed.

Ltac regs_ne :=
  unfold ring_reg in *;
  unfold NV_PFIFO_CACHE1_GET, NV_PFIFO_CACHE1_PUT, NV_PFIFO_CACHE1_STATUS, NV_PFIFO_CACHE1_METHOD,
    NV_PFIFO_CACHE1_DATA, NV_PFIFO_CACHE1_DMA_DATA_SHADOW, NV_PFIFO_CACHE1_DMA_STATE,
    NV_PFIFO_CACHE1_DMA_DCOUNT, NV_PFIFO_CACHE1_DMA_GET, NV_PFIFO_CACHE1_DMA_PUT,
    NV_PFIFO_CACHE1_DMA_RSVD_SHADOW, NV_PFIFO_CACHE1_DMA_GET_JMP_SHADOW,
    NV_PFIFO_CACHE1_DMA_SUBROUTINE, NV_PFIFO_CACHE1_PULL1, NV_PFIFO_CACHE1_ENGINE,
    NV_PFIFO_CACHE1_REF, NV_PFIFO_CACHE1_PUSH1, NV_PFIFO_RAMHT in *; lia.

Lemma cache1_push_queue r q m w : queue r q → Z.of_nat (length q) < 128 → ∃ r',
  cache1_push r m w = Ok r' ∧ queue r' (q ++ [(m, w)]) ∧ ∀ a, ~ ring_reg a → rd r' a = rd r a.
Proof.
  intros (g & Hg & Hn & Eg & Ep & Hs & E4 & E8 & S) Hlt. unfold cache1_push.
  set (n := Z.of_nat (length q)) in *. set (p := (g + n) mod 128) in *.
  assert (Hp : 0 ≤ p < 128) by (apply Z.mod_pos_bound; lia).
  rewrite Ep, Eg. rewrite (proj2 (Z.ltb_lt _ _)), (proj2 (Z.eqb_eq (4 * p mod 4) 0)) by
    (lia || (rewrite Z.mul_comm; apply Z.mod_mul; lia)).
  cbn [andb assert mbind res_bind]. rewrite slot_next by lia. set (p1 := (p + 1) mod 128).
  assert (Hp1 : 0 ≤ p1 < 128) by (apply Z.mod_pos_bound; lia).
  assert (Ep1 : p1 = (g + (n + 1)) mod 128) by (unfold p1, p; rewrite Zplus_mod_idemp_l; f_equal; lia).
  rewrite !(rd_wr_ne _ _ NV_PFIFO_CACHE1_STATUS) by regs_ne.
  assert (Ehi : (4 * p1 =? 4 * g) = (n + 1 =? 128)).
  { apply eq_true_iff_eq. rewrite !Z.eqb_eq, Ep1. Z.to_euclidean_division_equations. lia. }
  rewrite Ehi. destruct (marks (rd r NV_PFIFO_CACHE1_STATUS) (n + 1 =? 128) 8 4 Hs) as (Hs2 & M8 & M4); try lia.
  eexists. split; [done |]. split.
  2: { intros a Na. rewrite !rd_wr_ne by regs_ne. done. }
  exists g. rewrite length_app. cbn [length]. rewrite Nat2Z.inj_add. fold n. change (Z.of_nat 1) with 1.
  split; [done |]. split; [lia |].
  split; [rewrite !rd_wr_ne by regs_ne; exact Eg |].
  split; [rewrite rd_wr_ne, rd_wr_eq by regs_ne; by rewrite Ep1 |].
  rewrite rd_wr_eq. split; [exact Hs2 |]. split; [| split].
  - etransitivity; [exact M4 |]. symmetry. apply Z.eqb_neq. lia.
  - etransitivity; [exact M8 |]. rewrite E8. destruct (Z.eqb_spec n 128); [lia | done].
  - intros k e Hk. apply lookup_app_Some in Hk as [Hk | [Hk1 Hk]].
    + pose proof (lookup_lt_Some _ _ _ Hk). rewrite <- (S k e Hk).
      assert ((g + Z.of_nat k) mod 128 ≠ p) by (intros E%mod_add_inj; lia).
      pose proof (Z.mod_pos_bound (g + Z.of_nat k) 128 ltac:(lia)). unfold slot.
      rewrite !rd_wr_ne by regs_ne. done.
    + apply list_lookup_singleton_Some in Hk as [Hk <-].
      replace (g + Z.of_nat k) with (g + n) by lia. fold p.
      unfold slot. replace (8 * p) with (4 * p * 2) by lia.
      by repeat (rewrite rd_wr_eq || rewrite rd_wr_ne by regs_ne).
Qed.

Lemma cache1_pull_queue r e q : queue r (e :: q) → ∃ r',
  cache1_pull r = Ok (r', e.1, e.2) ∧ queue r' q ∧ ∀ a, ~ ring_reg a → rd r' a = rd r a.
Proof.
  intros (g & Hg & Hn & Eg & Ep & Hs & E4 & E8 & S). unfold cache1_pull. cbn [length] in *.
  set (n := Z.of_nat (length q)) in *. assert (En : Z.of_nat (Datatypes.S (length q)) = n + 1) by lia. rewrite En in *.
  rewrite Ep, Eg. rewrite (proj2 (Z.ltb_lt _ _)), (proj2 (Z.eqb_eq (4 * g mod 4) 0)) by
    (lia || (rewrite Z.mul_comm; apply Z.mod_mul; lia)).
  cbn [andb assert mbind res_bind]. rewrite slot_next by lia. set (g1 := (g + 1) mod 128).
  assert (Hg1 : 0 ≤ g1 < 128) by (apply Z.mod_pos_bound; lia).
  assert (Ep1 : (g + (n + 1)) mod 128 = (g1 + n) mod 128) by (unfold g1; rewrite Zplus_mod_idemp_l; f_equal; lia).
  rewrite !(rd_wr_ne _ _ NV_PFIFO_CACHE1_STATUS) by regs_ne.
  assert (Ehi : (4 * g1 =? 4 * ((g + (n + 1)) mod 128)) = (n =? 0)).
  { rewrite Ep1. apply eq_true_iff_eq. rewrite !Z.eqb_eq. Z.to_euclidean_division_equations. lia. }
  rewrite Ehi. destruct (marks (rd r NV_PFIFO_CACHE1_STATUS) (n =? 0) 4 8 Hs) as (Hs2 & M4 & M8); try lia.
  pose proof (S 0%nat e eq_refl) as S0. rewrite Z.add_0_r, Z.mod_small in S0 by lia.
  unfold slot in S0. replace (8 * g) with (4 * g * 2) in S0 by lia. rewrite <- S0. cbn [fst snd].
  eexists. split; [done |]. split.
  2: { intros a Na. rewrite !rd_wr_ne by regs_ne. done. }
  exists g1. fold n. split; [done |]. split; [lia |].
  split; [rewrite rd_wr_ne, rd_wr_eq by regs_ne; done |].
  split; [rewrite !rd_wr_ne by regs_ne; by rewrite Ep, Ep1 |].
  rewrite rd_wr_eq. split; [exact Hs2 |]. split; [| split].
  - etransitivity; [exact M4 |]. rewrite E4. destruct (Z.eqb_spec (n + 1) 0); [lia | done].
  - etransitivity; [exact M8 |]. symmetry. apply Z.eqb_neq. lia.
  - intros k e' Hk. rewrite <- (S (Datatypes.S k) e' Hk).
    replace ((g + Z.of_nat (Datatypes.S k)) mod 128) with ((g1 + Z.of_nat k) mod 128)
      by (unfold g1; rewrite Zplus_mod_idemp_l; f_equal; lia).
    pose proof (Z.mod_pos_bound (g1 + Z.of_nat k) 128 ltac:(lia)). unfold slot.
    rewrite !rd_wr_ne by regs_ne. done.
Qed.

(** What the two threads see of the marks. *)
Lemma queue_low r q : queue r q →
  nz (rd r NV_PFIFO_CACHE1_STATUS .& NV_PFIFO_CACHE1_STATUS_LOW_MARK) = bool_decide (q = []).
Proof.
  intros (g & _ & _ & _ & _ & _ & E & _). unfold NV_PFIFO_CACHE1_STATUS_LOW_MARK.
  rewrite nz_bit, E by lia. by destruct q.
Qed.

Lemma queue_high r q : queue r q →
  nz (rd r NV_PFIFO_CACHE1_STATUS .& NV_PFIFO_CACHE1_STATUS_HIGH_MARK) = (Z.of_nat (length q) =? 128).
Proof.
  intros (g & _ & _ & _ & _ & _ & _ & E & _). unfold NV_PFIFO_CACHE1_STATUS_HIGH_MARK.
  by rewrite nz_bit, E by lia.
Qed.

Lemma queue_fits r q : queue r q → Z.of_nat (length q) ≤ 128.
Proof. by intros (g & _ & ? & _). Qed.

(** ** The order of the methods *)

(** The entry the pusher builds from the state of the command. *)
Definition method_entry_of (state : Z) : Z :=
  SET_MASK (SET_MASK (SET_MASK 0 NV_PFIFO_CACHE1_METHOD_ADDRESS
                        ((GET_MASK state NV_PFIFO_CACHE1_DMA_STATE_METHOD .<< 2) .>> 2))
              NV_PFIFO_CACHE1_METHOD_TYPE (GET_MASK state NV_PFIFO_CACHE1_DMA_STATE_METHOD_TYPE))
    NV_PFIFO_CACHE1_METHOD_SUBCHANNEL (GET_MASK state NV_PFIFO_CACHE1_DMA_STATE_SUBCHANNEL).

Definition outcome_regs (o : outcome) : mem :=
  match o with Continue r => r | Break r => r | Return r => r end.

Section order.
Context {V : Type} `{VgaPort V} (vram_size : Z).
Implicit Types (d : NV2AState V).

(** What becomes of an entry at PGRAPH, when the puller takes it from the device [d]: the
    object method switches to the channel of the object that the instance memory has for
    the handle; a method that takes an object gets its instance; other methods arrive as
    they are. *)
Inductive delivered d (e : Z * Z) : list pgraph_call → Prop :=
| deliver_object entry : e.1 .& 0x1FFC = 0 → ramht_lookup d e.2 = Ok entry → valid entry = true →
    delivered d e [ContextSwitch (channel_id entry); WaitFifoAccess;
                   Method (GET_MASK e.1 NV_PFIFO_CACHE1_METHOD_SUBCHANNEL) 0 (instance entry)]
| deliver_instance entry : 0x180 ≤ e.1 .& 0x1FFC < 0x200 → ramht_lookup d e.2 = Ok entry → valid entry = true →
    delivered d e [WaitFifoAccess;
                   Method (GET_MASK e.1 NV_PFIFO_CACHE1_METHOD_SUBCHANNEL) (e.1 .& 0x1FFC) (instance entry)]
| deliver_plain : 0x100 ≤ e.1 .& 0x1FFC → ~ 0x180 ≤ e.1 .& 0x1FFC < 0x200 →
    delivered d e [WaitFifoAccess;
                   Method (GET_MASK e.1 NV_PFIFO_CACHE1_METHOD_SUBCHANNEL) (e.1 .& 0x1FFC) e.2].

(** The entry an iteration of the pusher adds, if it adds one. *)
Definition pushed d r (dma : Z) : list (Z * Z) :=
  let get := rd r NV_PFIFO_CACHE1_DMA_GET in
  let state := rd r NV_PFIFO_CACHE1_DMA_STATE in
  if get =? rd r NV_PFIFO_CACHE1_DMA_PUT then []
  else
    match vram_ldl vram_size d (dma + get) with
    | Ok word =>
        if nz (GET_MASK state NV_PFIFO_CACHE1_DMA_STATE_METHOD_COUNT) &&
           negb (nz (rd r NV_PFIFO_CACHE1_STATUS .& NV_PFIFO_CACHE1_STATUS_HIGH_MARK))
        then [(method_entry_of state, word)] else []
    | Fault _ => []
    end.

Lemma advance_regs r a : outcome_regs (advance r a) = wr r NV_PFIFO_CACHE1_DMA_GET a.
Proof. unfold advance. by destruct (nz _). Qed.

Lemma push_data_queue r q word ty sub m count : queue r q → Z.of_nat (length q) < 128 → 
  m .& 3 = 0 → ∃ r' me,
  push_data r word ty sub m count = Ok r' ∧ queue r' (q ++ [(me, word)]) ∧
  me = SET_MASK (SET_MASK (SET_MASK 0 NV_PFIFO_CACHE1_METHOD_ADDRESS (m .>> 2))
                   NV_PFIFO_CACHE1_METHOD_TYPE ty) NV_PFIFO_CACHE1_METHOD_SUBCHANNEL sub ∧
  rd r' NV_PFIFO_CACHE1_DMA_STATE =
    SET_MASK (if ty =? NV_PFIFO_CACHE1_DMA_STATE_METHOD_TYPE_INC
              then SET_MASK (rd r NV_PFIFO_CACHE1_DMA_STATE) NV_PFIFO_CACHE1_DMA_STATE_METHOD ((m + 4) .>> 2)
              else rd r NV_PFIFO_CACHE1_DMA_STATE) NV_PFIFO_CACHE1_DMA_STATE_METHOD_COUNT (count - 1) ∧
  rd r' NV_PFIFO_CACHE1_DMA_PUT = rd r NV_PFIFO_CACHE1_DMA_PUT.
Proof.
  intros Hq Hn Hm. unfold push_data. rewrite Hm. cbn [Z.eqb assert mbind res_bind].
  set (me := SET_MASK _ NV_PFIFO_CACHE1_METHOD_SUBCHANNEL sub).
  destruct (cache1_push_queue (wr r NV_PFIFO_CACHE1_DMA_DATA_SHADOW word) q me word) as (r1 & -> & Hq1 & F);
    [apply queue_wr; [regs_ne | done] | done |].
  cbn [mbind res_bind]. eexists _, me. split; [done |]. split; [| split; [done |]].
  - repeat (apply queue_wr; [regs_ne |]). exact Hq1.
  - split.
    + rewrite rd_wr_ne, rd_wr_eq by regs_ne. rewrite F by regs_ne. by rewrite rd_wr_ne by regs_ne.
    + rewrite !rd_wr_ne, F by regs_ne. by rewrite rd_wr_ne by regs_ne.
Qed.

Lemma push_command_queue r q word a r' next : queue r q → push_command r word a = Ok (r', next) → queue r' q.
Proof.
  intros Hq. unfold push_command, start_methods, dma_error. intros E.
  repeat case_match; try done; apply Ok_inj in E; injection E as <- _;
    repeat (apply queue_wr; [regs_ne |]); exact Hq.
Qed.

Lemma shift_aligned x : (x .<< 2) .& 3 = 0.
Proof. rewrite (land_mask _ 2), shiftl_mul by done. change (2 ^ 2) with 4. apply Z.mod_mul. lia. Qed.

Lemma pusher_step_queue d r dma len q o : queue r q → pusher_step vram_size d r dma len = Ok o →
  queue (outcome_regs o) (q ++ pushed d r dma).
Proof.
  intros Hq. unfold pusher_step, pushed. destruct (_ =? _); [intros E; apply Ok_inj in E; subst o; by rewrite app_nil_r |].
  intros (? & _ & E)%bind_ok. apply bind_ok in E as (word & -> & E).
  pose proof (queue_high r q Hq) as Hh. pose proof (queue_fits r q Hq).
  destruct (nz (GET_MASK _ _)); cbn [andb].
  - rewrite Hh in E |- *. destruct (Z.eqb_spec (Z.of_nat (length q)) 128); cbn [negb].
    { apply Ok_inj in E. subst o. by rewrite app_nil_r. }
    apply bind_ok in E as (r1 & E1 & E). apply Ok_inj in E. subst o. rewrite advance_regs.
    destruct (push_data_queue r q word (GET_MASK (rd r NV_PFIFO_CACHE1_DMA_STATE) NV_PFIFO_CACHE1_DMA_STATE_METHOD_TYPE)
      (GET_MASK (rd r NV_PFIFO_CACHE1_DMA_STATE) NV_PFIFO_CACHE1_DMA_STATE_SUBCHANNEL)
      (GET_MASK (rd r NV_PFIFO_CACHE1_DMA_STATE) NV_PFIFO_CACHE1_DMA_STATE_METHOD .<< 2)
      (GET_MASK (rd r NV_PFIFO_CACHE1_DMA_STATE) NV_PFIFO_CACHE1_DMA_STATE_METHOD_COUNT))
      as (r2 & me & E2 & Hq2 & -> & _); [done | lia | apply shift_aligned |].
    rewrite E1 in E2. apply Ok_inj in E2. subst r2. apply queue_wr; [regs_ne | exact Hq2].
  - rewrite app_nil_r. apply bind_ok in E as ([r1 next] & E1 & E). apply Ok_inj in E. subst o.
    apply (push_command_queue r q) in E1; [| done]. destruct next; [rewrite advance_regs; apply queue_wr; [regs_ne | done] | done].
Qed.

(** The lookup does not depend on the ring. *)
Lemma ramht_lookup_ring d r h : (∀ a, ~ ring_reg a → rd r a = rd (pfifo_regs d) a) →
  ramht_lookup (d <| pfifo_regs := r |>) h = ramht_lookup d h.
Proof.
  intros F. unfold ramht_lookup, ramht_hash, ramht_size. cbn [set pfifo_regs]. rewrite !F by regs_ne. reflexivity.
Qed.

Lemma puller_step_queue d q d' calls : queue (pfifo_regs d) q → puller_step d = Ok (Some (d', calls)) →
  ∃ e q', q = e :: q' ∧ queue (pfifo_regs d') q' ∧ delivered d e calls.
Proof.
  intros Hq. unfold puller_step. destruct (_ =? 0); [done |]. rewrite (queue_low _ q Hq).
  destruct q as [| e q]; [done |]. rewrite bool_decide_eq_false_2 by done.
  destruct (cache1_pull_queue _ _ _ Hq) as (r1 & -> & Hq1 & Fr). cbn [mbind res_bind].
  intros ([r2 c] & E1 & E)%bind_ok. apply Ok_inj in E. injection E as <- <-.
  exists e, q. split; [done |]. change (queue r2 q ∧ delivered d e c).
  pose proof (λ h, ramht_lookup_ring d r1 h Fr) as Lk.
  destruct (Z.eqb_spec (e.1 .& 0x1FFC) 0) as [E0 | N0].
  - unfold bind_object in E1. rewrite Lk in E1. apply bind_ok in E1 as (entry & El & E1).
    apply bind_ok in E1 as ([] & Ev%assert_ok & E1).
    repeat (apply bind_ok in E1 as (? & ? & E1)). apply Ok_inj in E1.
    injection E1 as <- <-. split; [repeat (apply queue_wr; [regs_ne |]); done | by constructor].
  - destruct (Z.leb_spec 0x100 (e.1 .& 0x1FFC)); [| done]. unfold pass_method in E1. rewrite Lk in E1.
    apply bind_ok in E1 as (par & Ep & E1). apply bind_ok in E1 as (? & ? & E1). apply Ok_inj in E1.
    injection E1 as <- <-. split; [apply queue_wr; [regs_ne | done] |].
    destruct (Z.leb_spec 0x180 (e.1 .& 0x1FFC)), (Z.ltb_spec (e.1 .& 0x1FFC) 0x200); cbn [andb] in Ep;
      try (apply Ok_inj in Ep; subst par; apply deliver_plain; lia).
    apply bind_ok in Ep as (entry & El & Ep). apply bind_ok in Ep as ([] & Ev%assert_ok & Ep). apply Ok_inj in Ep. subst par. by apply deliver_instance.
Qed.

Lemma block_write_queue d b addr val d' q : (b = PFIFO → ~ ring_reg addr) →
  queue (pfifo_regs d) q → block_write d b addr val = Ok d' → queue (pfifo_regs d') q.
Proof.
  intros N Hq E. destruct b; cbn [block_write] in E; try (apply Ok_inj in E; subst d'; try exact Hq).
  - unfold pmc_write. repeat case_match; exact Hq.
  - unfold pbus_write. repeat case_match; exact Hq.
  - unfold pfifo_write. repeat case_match; [exact Hq | exact Hq |].
    apply (queue_wr (pfifo_regs d)); [by apply N | done].
  - unfold pvideo_write, pvideo_vga_invalidate. repeat case_match; exact Hq.
  - unfold ptimer_write. repeat case_match; exact Hq.
  - unfold pgraph_write, rdi_next in E. repeat case_match; repeat (apply bind_ok in E as (? & ? & E)); try done;
      apply Ok_inj in E; subst d'; exact Hq.
  - unfold pcrtc_write. repeat case_match; exact Hq.
  - unfold user_write in E. apply bind_ok in E as (? & _ & E).
    repeat case_match; try done; apply Ok_inj in E; subst d'; apply (queue_wr (pfifo_regs d)); [regs_ne | done | regs_ne | done | regs_ne | done].
Qed.

(** The threads and the guest, interleaved in any order: [ps] are the entries the pusher
    puts in, [cs] what the puller passes to PGRAPH, one item for each iteration, with the
    device that it takes the entry from.  An
    iteration of the pusher is a step of its own, which allows more interleavings than the
    lock does.  The guest writes registers, but not those of the ring; PGRAPH and stores to
    memory change the device as they like, but not the registers of PFIFO. *)
Inductive fifo_run : NV2AState V → list (Z * Z) → list (NV2AState V * list pgraph_call) → NV2AState V → Prop :=
| run_done d : fifo_run d [] [] d
| run_push d dma len o ps cs d' :
    pusher_step vram_size d (pfifo_regs d) dma len = Ok o →
    fifo_run (d <| pfifo_regs := outcome_regs o |>) ps cs d' →
    fifo_run d (pushed d (pfifo_regs d) dma ++ ps) cs d'
| run_pull d d1 calls ps cs d' :
    puller_step d = Ok (Some (d1, calls)) → fifo_run d1 ps cs d' → fifo_run d ps ((d, calls) :: cs) d'
| run_guest d b addr val d1 ps cs d' :
    (b = PFIFO → ~ ring_reg addr) → block_write d b addr val = Ok d1 →
    fifo_run d1 ps cs d' → fifo_run d ps cs d'
| run_other d d1 ps cs d' :
    pfifo_regs d1 = pfifo_regs d → fifo_run d1 ps cs d' → fifo_run d ps cs d'.

Lemma realize_queue cfg (v : V) : queue (pfifo_regs (nv2a_realize cfg v)) [].
Proof. exists 0. by repeat split. Qed.

Lemma fifo_run_order d ps cs d' : fifo_run d ps cs d' → ∀ q, queue (pfifo_regs d) q →
  ∃ pulled q', queue (pfifo_regs d') q' ∧ q ++ ps = pulled ++ q' ∧ Forall2 (λ e c, delivered c.1 e c.2) pulled cs.
Proof.
  induction 1 as [d | d dma len o ps cs d' E R IH | d d1 calls ps cs d' E R IH
    | d b addr val d1 ps cs d' N E R IH | d d1 ps cs d' E R IH]; intros q Hq.
  - exists [], q. by rewrite app_nil_r.
  - destruct (IH _ (pusher_step_queue _ _ _ _ _ _ Hq E)) as (pulled & q' & Hq' & Eq & D).
    exists pulled, q'. by rewrite app_assoc.
  - destruct (puller_step_queue _ _ _ _ Hq E) as (e & q1 & -> & Hq1 & De).
    destruct (IH _ Hq1) as (pulled & q' & Hq' & Eq & D). exists (e :: pulled), q'.
    split; [done |]. split; [cbn; by rewrite Eq | by constructor].
  - apply IH. by eapply block_write_queue.
  - apply IH. by rewrite E.
Qed.

(** methods reach PGRAPH in the order in which they were submitted, none lost, none
    twice, however pusher, puller, PGRAPH and the guest interleave: the entries CACHE1 held
    and those pushed since are, in this order, those delivered to PGRAPH followed by those
    the ring still holds.  The ring is empty after reset. *)
Theorem pfifo_in_order d q ps cs d' : queue (pfifo_regs d) q → fifo_run d ps cs d' →
  ∃ pulled q', queue (pfifo_regs d') q' ∧ q ++ ps = pulled ++ q' ∧ Forall2 (λ e c, delivered c.1 e c.2) pulled cs.
Proof. intros Hq R. by eapply fifo_run_order. Qed.

End order.

(** CACHE1, a ring in the register file whose read and write positions agree both when
    it is empty and when it is full, implements a queue of at most 128 entries: the marks
    tell the two cases apart, a push appends, a pull takes the first entry, and neither
    changes any other register. *)
Theorem cache1_refines r q : queue r q →
  nz (rd r NV_PFIFO_CACHE1_STATUS .& NV_PFIFO_CACHE1_STATUS_LOW_MARK) = bool_decide (q = []) ∧
  nz (rd r NV_PFIFO_CACHE1_STATUS .& NV_PFIFO_CACHE1_STATUS_HIGH_MARK) = (Z.of_nat (length q) =? 128) ∧
  (∀ m w, Z.of_nat (length q) < 128 → ∃ r', cache1_push r m w = Ok r' ∧ queue r' (q ++ [(m, w)]) ∧
     ∀ a, ~ ring_reg a → rd r' a = rd r a) ∧
  (∀ e q', q = e :: q' → ∃ r', cache1_pull r = Ok (r', e.1, e.2) ∧ queue r' q' ∧
     ∀ a, ~ ring_reg a → rd r' a = rd r a).
Proof.
  intros Hq. split; [by apply queue_low |]. split; [by apply queue_high |].
  split; [intros; by apply cache1_push_queue |]. intros e q' ->. by apply cache1_pull_queue.
Qed.

(** ** Unpacking commands *)

(** The state of a command: kind of method, subchannel, next method (its number divided by
    4), words left; no error. *)
Definition command_state (st ty sub m count : Z) : Prop :=
  0 ≤ st < 2 ^ 32 ∧
  GET_MASK st NV_PFIFO_CACHE1_DMA_STATE_METHOD_TYPE = ty ∧
  GET_MASK st NV_PFIFO_CACHE1_DMA_STATE_SUBCHANNEL = sub ∧
  GET_MASK st NV_PFIFO_CACHE1_DMA_STATE_METHOD = m ∧
  GET_MASK st NV_PFIFO_CACHE1_DMA_STATE_METHOD_COUNT = count ∧
  GET_MASK st NV_PFIFO_CACHE1_DMA_STATE_ERROR = 0.

(** The masks of that register, as fields. *)
Ltac as_fields :=
  change NV_PFIFO_CACHE1_DMA_STATE_METHOD_TYPE with (field 0 1) in *;
  change NV_PFIFO_CACHE1_DMA_STATE_METHOD with (field 2 11) in *;
  change NV_PFIFO_CACHE1_DMA_STATE_SUBCHANNEL with (field 13 3) in *;
  change NV_PFIFO_CACHE1_DMA_STATE_METHOD_COUNT with (field 18 11) in *;
  change NV_PFIFO_CACHE1_DMA_STATE_ERROR with (field 29 3) in *;
  change NV_PFIFO_CACHE1_METHOD_TYPE with (field 0 1) in *;
  change NV_PFIFO_CACHE1_METHOD_ADDRESS with (field 2 11) in *;
  change NV_PFIFO_CACHE1_METHOD_SUBCHANNEL with (field 13 3) in *.

Ltac set_fields :=
  unfold command_state in *; as_fields; split; [apply set_field_bound; lia |];
  repeat first [rewrite get_set_field_mod by lia | rewrite get_set_field_other by lia];
  split_and!; done.

Lemma command_set_method st ty sub m c v : command_state st ty sub m c →
  command_state (SET_MASK st NV_PFIFO_CACHE1_DMA_STATE_METHOD v) ty sub (v mod 2 ^ 11) c.
Proof. intros (Hb & ? & ? & ? & ? & ?). set_fields. Qed.

Lemma command_set_sub st ty sub m c v : command_state st ty sub m c →
  command_state (SET_MASK st NV_PFIFO_CACHE1_DMA_STATE_SUBCHANNEL v) ty (v mod 2 ^ 3) m c.
Proof. intros (Hb & ? & ? & ? & ? & ?). set_fields. Qed.

Lemma command_set_count st ty sub m c v : command_state st ty sub m c →
  command_state (SET_MASK st NV_PFIFO_CACHE1_DMA_STATE_METHOD_COUNT v) ty sub m (v mod 2 ^ 11).
Proof. intros (Hb & ? & ? & ? & ? & ?). set_fields. Qed.

Lemma command_set_type st ty sub m c v : command_state st ty sub m c →
  command_state (SET_MASK st NV_PFIFO_CACHE1_DMA_STATE_METHOD_TYPE v) (v mod 2 ^ 1) sub m c.
Proof. intros (Hb & ? & ? & ? & ? & ?). set_fields. Qed.

(** The first word of a command that sends [count] words to the method [4 * m] and, unless
    [ty] is 1, the methods after it; and the entry for one of them. *)
Definition header (ty sub m count : Z) : Z := ty * 2 ^ 30 + count * 2 ^ 18 + sub * 2 ^ 13 + m * 4.
Definition entry_value (ty sub m : Z) : Z := sub * 2 ^ 13 + m * 4 + ty.

Lemma entry_word ty sub m : 0 ≤ ty < 2 → 0 ≤ sub < 8 → 0 ≤ m < 2 ^ 11 →
  SET_MASK (SET_MASK (SET_MASK 0 NV_PFIFO_CACHE1_METHOD_ADDRESS ((m .<< 2) .>> 2))
    NV_PFIFO_CACHE1_METHOD_TYPE ty) NV_PFIFO_CACHE1_METHOD_SUBCHANNEL sub = entry_value ty sub m.
Proof.
  intros Ht Hs Hm. rewrite Z.shiftr_shiftl_l, Z.sub_diag, Z.shiftl_0_r by done. as_fields.
  rewrite (set_field_add 2 11) by (lia || done).
  rewrite (set_field_add 0 1) by (lia || (rewrite get_field_div by lia; arith)).
  rewrite (set_field_add 13 3) by (lia || (rewrite get_field_div by lia; arith)).
  unfold entry_value. lia.
Qed.

Section header.
Context (ty sub m count : Z) (Ht : 0 ≤ ty < 2) (Hs : 0 ≤ sub < 8) (Hm : 0 ≤ m < 2 ^ 11)
  (Hc : 0 ≤ count < 2 ^ 11).

Lemma header_parts :
  header ty sub m count mod 2 ^ 2 = 0 ∧ (header ty sub m count / 2 ^ 16) mod 2 ^ 2 = 0 ∧
  (header ty sub m count / 2 ^ 29) mod 2 ^ 3 = 2 * ty ∧
  (header ty sub m count mod 2 ^ 13) / 2 ^ 2 = m ∧ (header ty sub m count / 2 ^ 13) mod 2 ^ 3 = sub ∧
  (header ty sub m count / 2 ^ 18) mod 2 ^ 11 = count.
Proof. unfold header. pow2_lits. split_and!; Z.to_euclidean_division_equations; lia. Qed.

Lemma header_tests :
  header ty sub m count .& 0xe0000003 = ty * 2 ^ 30 ∧ header ty sub m count .& 3 = 0 ∧
  header ty sub m count ≠ 0x20000 ∧ header ty sub m count .& 0xe0030003 = ty * 2 ^ 30.
Proof.
  pose proof header_parts as (P0 & P16 & P29 & _).
  assert (L3 : header ty sub m count .& 3 = 0) by (by rewrite (land_mask _ 2)).
  assert (L29 : header ty sub m count .& 0xe0000000 = ty * 2 ^ 30).
  { change 0xe0000000 with (field 29 3). rewrite land_field, P29 by lia. lia. }
  assert (L16 : header ty sub m count .& 0x30000 = 0).
  { change 0x30000 with (field 16 2). rewrite land_field, P16 by lia. lia. }
  split; [| split; [done | split]].
  - change 0xe0000003 with (0xe0000000 .| 3). by rewrite Z.land_lor_distr_r, L29, L3, Z.lor_0_r.
  - intros E. by rewrite E in P16.
  - change 0xe0030003 with (0xe0000000 .| 0x30000 .| 3).
    by rewrite !Z.land_lor_distr_r, L29, L16, L3, !Z.lor_0_r.
Qed.

Lemma header_command r a ty0 sub0 m0 : command_state (rd r NV_PFIFO_CACHE1_DMA_STATE) ty0 sub0 m0 0 →
  ∃ r', push_command r (header ty sub m count) a = Ok (r', Some a) ∧
    command_state (rd r' NV_PFIFO_CACHE1_DMA_STATE) ty sub m count ∧
    ∀ b, b ≠ NV_PFIFO_CACHE1_DMA_STATE → b ≠ NV_PFIFO_CACHE1_DMA_DCOUNT → b ≠ NV_PFIFO_CACHE1_DMA_RSVD_SHADOW →
      rd r' b = rd r b.
Proof.
  intros Hst. pose proof header_tests as (T1 & T2 & T3 & T4).
  exists (start_methods (wr r NV_PFIFO_CACHE1_DMA_RSVD_SHADOW (header ty sub m count)) (header ty sub m count) ty).
  split.
  - unfold push_command. rewrite T1, T2, T4.
    rewrite (proj2 (Z.eqb_neq (ty * 2 ^ 30) 0x20000000)) by lia. cbn [Z.eqb].
    rewrite (proj2 (Z.eqb_neq _ 0x20000)) by done.
    assert (ty = 0 ∨ ty = 1) as [-> | ->] by lia; done.
  - split.
    + unfold start_methods. rewrite rd_wr_ne, rd_wr_eq by regs_ne. rewrite rd_wr_ne by regs_ne.
      pose proof header_parts as (_ & _ & _ & P2 & P13 & P18).
      rewrite (land_mask _ 13 0x1fff), (land_mask _ 3 7), (land_mask _ 11 0x7ff), !shiftr_div by done.
      rewrite P2, P13, P18.
      apply (command_set_method _ _ _ _ _ m) in Hst. apply (command_set_sub _ _ _ _ _ sub) in Hst.
      apply (command_set_count _ _ _ _ _ count) in Hst. apply (command_set_type _ _ _ _ _ ty) in Hst.
      rewrite !Z.mod_small in Hst by lia. exact Hst.
    + intros b N1 N2 N3. unfold start_methods. by rewrite !rd_wr_ne.
Qed.

End header.

(** A command: its kind, the subchannel, the first method and the data. *)
Record command := Command {
  c_type : Z;
  c_sub : Z;
  c_method : Z;
  c_data : list Z
}.

Definition command_ok (c : command) : Prop :=
  0 ≤ c_type c < 2 ∧ 0 ≤ c_sub c < 8 ∧ 0 ≤ c_method c < 2 ^ 11 ∧ Z.of_nat (length (c_data c)) < 2 ^ 11.

(** Its words in the buffer. *)
Definition encode (c : command) : list Z :=
  header (c_type c) (c_sub c) (c_method c) (Z.of_nat (length (c_data c))) :: c_data c.

(** The methods it stands for. *)
Definition next_method (ty m : Z) : Z := if ty =? 0 then (m + 1) mod 2 ^ 11 else m.

Fixpoint entries (ty sub m : Z) (data : list Z) : list (Z * Z) :=
  match data with
  | [] => []
  | w :: data => (entry_value ty sub m, w) :: entries ty sub (next_method ty m) data
  end.

Definition expand (c : command) : list (Z * Z) := entries (c_type c) (c_sub c) (c_method c) (c_data c).

Lemma entries_length ty sub m data : length (entries ty sub m data) = length data.
Proof. revert m. induction data as [| w data IH]; intros m; cbn; [done |]. by rewrite IH. Qed.

Section unpack.
Context {V : Type} (vram_size : Z) (d : NV2AState V) (dma dma_len : Z).

(** The buffer holds the words from the offset [g] on. *)
Definition in_buffer (g : Z) (ws : list Z) : Prop :=
  ∀ k w, ws !! k = Some w → vram_ldl vram_size d (dma + (g + 4 * Z.of_nat k)) = Ok w.

Lemma in_buffer_cons g w ws : in_buffer g (w :: ws) →
  vram_ldl vram_size d (dma + g) = Ok w ∧ in_buffer (g + 4) ws.
Proof.
  intros B. split.
  - rewrite <- (B 0%nat w eq_refl). do 2 f_equal. lia.
  - intros k x Hk. rewrite <- (B (S k) x Hk). do 2 f_equal. lia.
Qed.

Lemma in_buffer_app g ws1 ws2 : in_buffer g (ws1 ++ ws2) →
  in_buffer g ws1 ∧ in_buffer (g + 4 * Z.of_nat (length ws1)) ws2.
Proof.
  intros B. split.
  - intros k w Hk. apply B. by apply lookup_app_l_Some.
  - intros k w Hk. rewrite <- (B (length ws1 + k)%nat w); [do 2 f_equal; lia |].
    rewrite lookup_app_r by lia. by replace (length ws1 + k - length ws1)%nat with k by lia.
Qed.

(** The pusher stands at [g], short of [put], in the middle of a command with these
    parameters; the ring holds [q]. *)
Definition pusher_at r q (g put ty sub m count : Z) : Prop :=
  queue r q ∧ rd r NV_PFIFO_CACHE1_DMA_GET = g ∧ rd r NV_PFIFO_CACHE1_DMA_PUT = put ∧
  command_state (rd r NV_PFIFO_CACHE1_DMA_STATE) ty sub m count.

(** The pusher goes on to the next word. *)
Lemma advance_continue r q g put ty sub m count a : pusher_at r q g put ty sub m count →
  ∃ r', advance r a = Continue r' ∧ pusher_at r' q a put ty sub m count.
Proof.
  intros (Hq & Hg & Hp & Hst). unfold advance. rewrite rd_wr_ne by regs_ne.
  pose proof Hst as (_ & _ & _ & _ & _ & Ee). rewrite Ee. cbn [nz Z.eqb negb]. eexists. split; [done |].
  split; [apply queue_wr; [regs_ne | done] |]. rewrite rd_wr_eq. split; [done |].
  rewrite !rd_wr_ne by regs_ne. done.
Qed.

Lemma fetch_step {A} (g put word : Z) (k : Z → res A) : g ≠ put → g < dma_len →
  vram_ldl vram_size d (dma + g) = Ok word →
  (_ ← assert (g <? dma_len); w ← vram_ldl vram_size d (dma + g); k w) = k word.
Proof. intros _ L E. rewrite (proj2 (Z.ltb_lt _ _)) by done. cbn [assert mbind res_bind]. by rewrite E. Qed.

Lemma header_step r q g put ty0 sub0 m0 ty sub m count :
  pusher_at r q g put ty0 sub0 m0 0 → g ≠ put → 0 ≤ g < dma_len → g + 4 < 2 ^ 32 →
  0 ≤ ty < 2 → 0 ≤ sub < 8 → 0 ≤ m < 2 ^ 11 → 0 ≤ count < 2 ^ 11 →
  vram_ldl vram_size d (dma + g) = Ok (header ty sub m count) →
  ∃ r', pusher_step vram_size d r dma dma_len = Ok (Continue r') ∧
    pusher_at r' q (g + 4) put ty sub m count.
Proof.
  intros (Hq & Hg & Hp & Hst) N L B Ht Hs Hm Hc W. unfold pusher_step. rewrite Hg, Hp.
  rewrite (proj2 (Z.eqb_neq _ _)) by done. rewrite (fetch_step g put _ _ N (proj2 L) W).
  pose proof Hst as (_ & _ & _ & _ & Ec & _). rewrite Ec. cbn [nz Z.eqb negb].
  rewrite wrap_small by lia.
  destruct (header_command ty sub m count Ht Hs Hm Hc r (g + 4) _ _ _ Hst) as (r1 & E1 & Hst1 & F).
  rewrite E1. cbn [mbind res_bind].
  assert (A : pusher_at r1 q g put ty sub m count).
  { split; [| split; [| split; [| done]]].
    - apply (push_command_queue r q) in E1; done.
    - rewrite F by regs_ne. done.
    - rewrite F by regs_ne. done. }
  destruct (advance_continue _ _ _ _ _ _ _ _ (g + 4) A) as (r2 & -> & A2). eauto.
Qed.

Lemma data_step r q g put ty sub m count word :
  pusher_at r q g put ty sub m count → 0 < count < 2 ^ 11 → Z.of_nat (length q) < 128 →
  g ≠ put → 0 ≤ g < dma_len → g + 4 < 2 ^ 32 → 0 ≤ ty < 2 → 0 ≤ sub < 8 → 0 ≤ m < 2 ^ 11 →
  vram_ldl vram_size d (dma + g) = Ok word →
  ∃ r', pusher_step vram_size d r dma dma_len = Ok (Continue r') ∧
    pusher_at r' (q ++ [(entry_value ty sub m, word)]) (g + 4) put ty sub (next_method ty m) (count - 1).
Proof.
  intros (Hq & Hg & Hp & Hst) Hc Hn N L B Ht Hs Hm W. unfold pusher_step. rewrite Hg, Hp.
  rewrite (proj2 (Z.eqb_neq _ _)) by done. rewrite (fetch_step g put _ _ N (proj2 L) W).
  pose proof Hst as (_ & Et & Es & Em & Ec & _). rewrite Ec, Et, Es, Em.
  unfold nz at 1. rewrite (proj2 (Z.eqb_neq count 0)) by lia. cbn [negb].
  rewrite (queue_high r q Hq), (proj2 (Z.eqb_neq _ _)) by lia. rewrite wrap_small by lia.
  destruct (push_data_queue r q word ty sub (m .<< 2) count Hq Hn (shift_aligned m))
    as (r1 & me & -> & Hq1 & Eme & Est & Eput).
  cbn [mbind res_bind]. rewrite entry_word in Eme by done. subst me.
  assert (A : ∃ g1, pusher_at r1 (q ++ [(entry_value ty sub m, word)]) g1 put ty sub (next_method ty m) (count - 1)).
  { eexists. split; [done |]. split; [done |]. split; [by rewrite Eput |]. rewrite Est. unfold next_method.
    replace (count - 1) with ((count - 1) mod 2 ^ 11) at 2 by (apply Z.mod_small; lia).
    eapply command_set_count. change NV_PFIFO_CACHE1_DMA_STATE_METHOD_TYPE_INC with 0.
    destruct (ty =? 0); [| exact Hst].
    replace (((m .<< 2) + 4) .>> 2) with (m + 1); [by eapply command_set_method |].
    rewrite shiftl_mul, shiftr_div by lia. pow2_lits. Z.to_euclidean_division_equations. lia. }
  destruct A as [g1 A]. destruct (advance_continue _ _ _ _ _ _ _ _ (g + 4) A) as (r2 & -> & A2). eauto.
Qed.

(** All words of the data, one iteration each. *)
Lemma data_run ws r q g put ty sub m fuel :
  pusher_at r q g put ty sub m (Z.of_nat (length ws)) → Z.of_nat (length ws) < 2 ^ 11 →
  Z.of_nat (length q + length ws) ≤ 128 → 0 ≤ g → g + 4 * Z.of_nat (length ws) ≤ put →
  put ≤ dma_len → put < 2 ^ 32 → 0 ≤ ty < 2 → 0 ≤ sub < 8 → 0 ≤ m < 2 ^ 11 → in_buffer g ws →
  ∃ r' m', pusher_loop vram_size (length ws + fuel) d r dma dma_len
           = pusher_loop vram_size fuel d r' dma dma_len ∧
    pusher_at r' (q ++ entries ty sub m ws) (g + 4 * Z.of_nat (length ws)) put ty sub m' 0.
Proof.
  revert r q g m. induction ws as [| w ws IH]; intros r q g m A Hl Hq Hg Hput Hlen H32 Ht Hs Hm B.
  { exists r, m. split; [done |]. cbn [entries]. rewrite app_nil_r. cbn [length] in *.
    by replace (g + 4 * Z.of_nat 0) with g by lia. }
  apply in_buffer_cons in B as [W B]. cbn [length] in *.
  destruct (data_step r q g put ty sub m _ w A) as (r1 & E1 & A1); try done; try lia.
  assert (Hm1 : 0 ≤ next_method ty m < 2 ^ 11).
  { unfold next_method. case_match; [by apply Z.mod_pos_bound | done]. }
  replace (Z.of_nat (S (length ws)) - 1) with (Z.of_nat (length ws)) in A1 by lia.
  destruct (IH r1 _ (g + 4) _ A1) as (r' & m' & E & A'); try done; try lia.
  { rewrite length_app. cbn [length]. lia. }
  exists r', m'. split.
  - cbn [Nat.add pusher_loop]. rewrite E1. exact E.
  - cbn [entries]. replace (g + 4 * Z.of_nat (S (length ws))) with (g + 4 + 4 * Z.of_nat (length ws)) by lia.
    by rewrite <- app_assoc in A'.
Qed.

(** One command, and then a list of them. *)
Lemma command_run c r q g put ty0 sub0 m0 fuel : command_ok c →
  pusher_at r q g put ty0 sub0 m0 0 → Z.of_nat (length q + length (c_data c)) ≤ 128 →
  0 ≤ g → g + 4 * Z.of_nat (length (encode c)) ≤ put → put ≤ dma_len → put < 2 ^ 32 →
  in_buffer g (encode c) →
  ∃ r' m', pusher_loop vram_size (length (encode c) + fuel) d r dma dma_len
           = pusher_loop vram_size fuel d r' dma dma_len ∧
    pusher_at r' (q ++ expand c) (g + 4 * Z.of_nat (length (encode c))) put (c_type c) (c_sub c) m' 0.
Proof.
  intros (Ht & Hs & Hm & Hl) A Hq Hg Hput Hlen H32 B. unfold encode in *. cbn [length] in *.
  apply in_buffer_cons in B as [W B].
  destruct (header_step r q g put ty0 sub0 m0 (c_type c) (c_sub c) (c_method c)
    (Z.of_nat (length (c_data c))) A) as (r1 & E1 & A1); try done; try lia.
  destruct (data_run (c_data c) r1 q (g + 4) put _ _ _ fuel A1) as (r' & m' & E & A'); try done; try lia.
  exists r', m'. split; [cbn [Nat.add pusher_loop]; rewrite E1; exact E |].
  by replace (g + 4 * Z.of_nat (S (length (c_data c)))) with (g + 4 + 4 * Z.of_nat (length (c_data c))) by lia.
Qed.

Lemma commands_run cs r q g put ty0 sub0 m0 fuel : Forall command_ok cs →
  pusher_at r q g put ty0 sub0 m0 0 → Z.of_nat (length q + length (concat (c_data <$> cs))) ≤ 128 →
  0 ≤ g → g + 4 * Z.of_nat (length (concat (encode <$> cs))) ≤ put → put ≤ dma_len → put < 2 ^ 32 →
  in_buffer g (concat (encode <$> cs)) →
  ∃ r' ty sub m, pusher_loop vram_size (length (concat (encode <$> cs)) + fuel) d r dma dma_len
           = pusher_loop vram_size fuel d r' dma dma_len ∧
    pusher_at r' (q ++ concat (expand <$> cs)) (g + 4 * Z.of_nat (length (concat (encode <$> cs)))) put ty sub m 0.
Proof.
  revert r q g ty0 sub0 m0. induction cs as [| c cs IH]; intros r q g ty0 sub0 m0 Hok A Hq Hg Hput Hlen H32 B.
  { exists r, ty0, sub0, m0. split; [done |]. cbn [fmap list_fmap concat length]. rewrite app_nil_r.
    replace (g + 4 * Z.of_nat 0) with g by lia. exact A. }
  apply Forall_cons in Hok as [Hc Hcs]. cbn [fmap list_fmap concat] in *. rewrite !length_app in *.
  apply in_buffer_app in B as [B1 B2].
  destruct (command_run c r q g put _ _ _ (length (concat (encode <$> cs)) + fuel) Hc A)
    as (r1 & m1 & E1 & A1); try done; try lia.
  destruct (IH r1 _ _ _ _ _ Hcs A1) as (r' & ty & sub & m & E & A'); try done; try lia.
  { rewrite length_app. unfold expand. rewrite entries_length. lia. }
  exists r', ty, sub, m. split; [rewrite <- Nat.add_assoc, E1; exact E |].
  rewrite <- app_assoc in A'. replace (g + 4 * Z.of_nat (length (encode c) + length (concat (encode <$> cs))))
    with (g + 4 * Z.of_nat (length (encode c)) + 4 * Z.of_nat (length (concat (encode <$> cs)))) by lia. done.
Qed.

(** The guards of a run: the pusher is enabled and not suspended, the channel is in DMA
    mode, no error is left, and the buffer is mapped. *)
Definition pusher_ready : Prop :=
  let r := pfifo_regs d in
  GET_MASK (rd r NV_PFIFO_CACHE1_PUSH0) NV_PFIFO_CACHE1_PUSH0_ACCESS ≠ 0 ∧
  GET_MASK (rd r NV_PFIFO_CACHE1_DMA_PUSH) NV_PFIFO_CACHE1_DMA_PUSH_ACCESS ≠ 0 ∧
  GET_MASK (rd r NV_PFIFO_CACHE1_DMA_PUSH) NV_PFIFO_CACHE1_DMA_PUSH_STATUS = 0 ∧
  rd r NV_PFIFO_MODE .& (1 .<< GET_MASK (rd r NV_PFIFO_CACHE1_PUSH1) NV_PFIFO_CACHE1_PUSH1_CHID) ≠ 0 ∧
  GET_MASK (rd r NV_PFIFO_CACHE1_PUSH1) NV_PFIFO_CACHE1_PUSH1_MODE = 1 ∧
  nv_dma_map vram_size d (GET_MASK (rd r NV_PFIFO_CACHE1_DMA_INSTANCE)
    NV_PFIFO_CACHE1_DMA_INSTANCE_ADDRESS .<< 4) = Ok (dma, dma_len).

Lemma run_pusher_ready fuel : pusher_ready →
  GET_MASK (rd (pfifo_regs d) NV_PFIFO_CACHE1_DMA_STATE) NV_PFIFO_CACHE1_DMA_STATE_ERROR = 0 →
  pfifo_run_pusher vram_size fuel d =
  (r ← pusher_loop vram_size fuel d (pfifo_regs d) dma dma_len; Ok (d <| pfifo_regs := r |>)).
Proof.
  intros (A & B & C & M & D & E) Er. unfold pfifo_run_pusher.
  rewrite (proj2 (Z.eqb_neq _ _) A), (proj2 (Z.eqb_neq _ _) B), C, Er, D, E. unfold nz.
  rewrite (proj2 (Z.eqb_neq _ _) M). done.
Qed.

(** A jump to the place where it is read. *)
Lemma jump_to_itself r word g put : word .& 0xe0000003 ≠ 0x20000000 → word .& 3 = 1 →
  word .& 0xfffffffc = g → g ≠ put → 0 ≤ g < dma_len → vram_ldl vram_size d (dma + g) = Ok word →
  rd r NV_PFIFO_CACHE1_DMA_GET = g → rd r NV_PFIFO_CACHE1_DMA_PUT = put →
  GET_MASK (rd r NV_PFIFO_CACHE1_DMA_STATE) NV_PFIFO_CACHE1_DMA_STATE_METHOD_COUNT = 0 →
  GET_MASK (rd r NV_PFIFO_CACHE1_DMA_STATE) NV_PFIFO_CACHE1_DMA_STATE_ERROR = 0 →
  ∀ fuel, pusher_loop vram_size fuel d r dma dma_len = Fault out_of_fuel.
Proof.
  intros T1 T2 T3 N L W Hg Hp Hc He fuel. revert r Hg Hp Hc He.
  induction fuel as [| fuel IH]; intros r Hg Hp Hc He; [done |]. cbn [pusher_loop].
  unfold pusher_step. rewrite Hg, Hp. rewrite (proj2 (Z.eqb_neq _ _)) by done.
  rewrite (fetch_step g put _ _ N (proj2 L) W), Hc. cbn [nz Z.eqb negb]. unfold push_command.
  rewrite (proj2 (Z.eqb_neq _ _) T1), T2, T3. cbn [Z.eqb Pos.eqb mbind res_bind]. unfold advance.
  rewrite !rd_wr_ne, He by regs_ne. cbn [nz Z.eqb negb]. apply IH.
  - by rewrite rd_wr_eq.
  - by rewrite !rd_wr_ne by regs_ne.
  - by rewrite !rd_wr_ne by regs_ne.
  - by rewrite !rd_wr_ne by regs_ne.
Qed.

(** Nothing keeps the buffer inside the video memory. *)
Lemma pusher_out_of_bounds r : rd r NV_PFIFO_CACHE1_DMA_GET ≠ rd r NV_PFIFO_CACHE1_DMA_PUT →
  rd r NV_PFIFO_CACHE1_DMA_GET < dma_len → vram_size < dma + rd r NV_PFIFO_CACHE1_DMA_GET + 4 →
  pusher_step vram_size d r dma dma_len = Fault out_of_bounds.
Proof.
  intros N L O. unfold pusher_step. rewrite (proj2 (Z.eqb_neq _ _)), (proj2 (Z.ltb_lt _ _)) by done.
  cbn [assert mbind res_bind]. unfold vram_ldl. by rewrite (proj2 (Z.leb_gt _ _)) by lia.
Qed.

End unpack.

(** C16: a run of the pusher unpacks every command of the buffer.  When the pusher is
    enabled, stands at the start of a list of commands that fills the buffer up to the put
    pointer, and CACHE1 has room, the run ends, has consumed the buffer, and has appended,
    in order, for each data word of each command one entry with the command's subchannel
    and its method, which counts up from word to word (wrapping after 2048 methods) unless
    the command is of the kind that does not count. *)
Theorem pusher_unpacks {V} vram_size (d : NV2AState V) dma dma_len cs q g put ty sub m :
  pusher_ready vram_size d dma dma_len → pusher_at (pfifo_regs d) q g put ty sub m 0 →
  Forall command_ok cs → in_buffer vram_size d dma g (concat (encode <$> cs)) →
  put = g + 4 * Z.of_nat (length (concat (encode <$> cs))) → 0 ≤ g → put ≤ dma_len → put < 2 ^ 32 →
  Z.of_nat (length q + length (concat (c_data <$> cs))) ≤ 128 →
  ∃ d', pfifo_run_pusher vram_size (S (length (concat (encode <$> cs)))) d = Ok d' ∧
    queue (pfifo_regs d') (q ++ concat (expand <$> cs)) ∧
    rd (pfifo_regs d') NV_PFIFO_CACHE1_DMA_GET = put.
Proof.
  intros R A Hok B Hput Hg Hlen H32 Hq.
  assert (E : GET_MASK (rd (pfifo_regs d) NV_PFIFO_CACHE1_DMA_STATE) NV_PFIFO_CACHE1_DMA_STATE_ERROR = 0)
    by apply A.
  rewrite (run_pusher_ready _ _ _ _ _ R E). replace (S _) with (length (concat (encode <$> cs)) + 1)%nat by lia.
  destruct (commands_run vram_size d dma dma_len cs _ q g put ty sub m 1 Hok A) as (r' & ? & ? & ? & -> & A'); try done; [lia |].
  destruct A' as (Hq' & Hg' & Hp' & Hst'). cbn [pusher_loop]. unfold pusher_step.
  rewrite Hg', Hp', <- Hput, Z.eqb_refl. cbn [mbind res_bind].
  destruct Hst' as (_ & _ & _ & _ & _ & ->). cbn [Z.eqb assert mbind res_bind].
  eexists. split; [done |]. split; [exact Hq' |]. by rewrite Hput.
Qed.

(** C40: a jump to itself in the command buffer stops the machine: the pusher reads it for
    ever, and holds the lock of PFIFO while it does. *)
Theorem pusher_jump_hangs {V} vram_size (d : NV2AState V) dma dma_len g put ty sub m q :
  pusher_ready vram_size d dma dma_len → pusher_at (pfifo_regs d) q g put ty sub m 0 →
  g ≠ put → 0 ≤ g < dma_len → g mod 4 = 0 → g < 2 ^ 29 →
  vram_ldl vram_size d (dma + g) = Ok (g + 1) →
  ∀ fuel, pfifo_run_pusher vram_size fuel d = Fault out_of_fuel.
Proof.
  intros R A N L Hm Hb W fuel. pose proof A as (_ & Hg & Hp & Hst). destruct Hst as (_ & _ & _ & _ & Hc & He).
  assert (T2 : (g + 1) .& 3 = 1) by (rewrite (land_mask _ 2) by done; change (2 ^ 2) with 4; Z.to_euclidean_division_equations; lia).
  assert (T29 : (g + 1) .& 0xe0000000 = 0).
  { change 0xe0000000 with (field 29 3). rewrite land_field by lia. rewrite Z.div_small; [done |].
    pow2_lits. Z.to_euclidean_division_equations. lia. }
  assert (T3 : (g + 1) .& 0xfffffffc = g).
  { change 0xfffffffc with (2 ^ 32 - 2 ^ 2). rewrite land_high by lia. change (2 ^ 2) with 4.
    Z.to_euclidean_division_equations. lia. }
  rewrite (run_pusher_ready _ _ _ _ _ R He).
  rewrite (jump_to_itself vram_size d dma dma_len _ (g + 1) g put); try done.
  change 0xe0000003 with (0xe0000000 .| 3). rewrite Z.land_lor_distr_r, T29, T2. done.
Qed.

(** C39: the object table is searched wrongly.  With a table of 4 KB (512 entries) and
    channel 0, a handle from 512 to 2047 stops the emulator at an assertion, since its hash
    is above the table; and handles are never compared, so that 2048 finds the entry of
    handle 1. *)
Theorem ramht_lookup_flaws {V} (d : NV2AState V) :
  GET_MASK (rd (pfifo_regs d) NV_PFIFO_RAMHT) NV_PFIFO_RAMHT_SIZE = 0 →
  GET_MASK (rd (pfifo_regs d) NV_PFIFO_CACHE1_PUSH1) NV_PFIFO_CACHE1_PUSH1_CHID = 0 →
  (∀ h, 512 ≤ h < 2048 → ramht_lookup d h = Fault assert_failed) ∧
  ramht_lookup d 2048 = ramht_lookup d 1.
Proof.
  intros Hs Hc.
  assert (Sz : ramht_size (pfifo_regs d) = 4096) by (unfold ramht_size; by rewrite Hs).
  assert (Hh : ∀ h, 0 < h < 2048 → ramht_hash (pfifo_regs d) h = Ok h).
  { intros h Hh. unfold ramht_hash. rewrite Sz, Hc. change (ctz32 4096 - 1) with 11. cbn [hash_loop].
    rewrite (proj2 (Z.eqb_neq h 0)) by lia. rewrite shiftr_div, Z.div_small by lia. cbn [Z.eqb mbind res_bind].
    rewrite Z.lxor_0_l. change ((1 .<< 11) - 1) with (Z.ones 11). rewrite Z.land_ones, Z.mod_small by lia.
    change (u32 (0 .<< (11 - 4))) with 0. by rewrite Z.lxor_0_r. }
  assert (H2 : ramht_hash (pfifo_regs d) 2048 = Ok 1).
  { unfold ramht_hash. rewrite Sz, Hc. by vm_compute. }
  split.
  - intros h Hb. unfold ramht_lookup. rewrite Hh by lia. cbn [mbind res_bind].
    rewrite Sz, wrap_small by lia. by rewrite (proj2 (Z.ltb_ge (h * 8) 4096)) by lia.
  - unfold ramht_lookup. by rewrite H2, (Hh 1) by lia.
Qed.

(** A ring with one entry: method 0x100 of subchannel 0, bound to the graphics engine. *)
Definition sample_ring : mem :=
  wr (wr (wr (wr (wr ∅ NV_PFIFO_CACHE1_PUT 4) NV_PFIFO_CACHE1_METHOD 0x100) NV_PFIFO_CACHE1_DATA 7)
     NV_PFIFO_CACHE1_ENGINE 1) NV_PFIFO_CACHE1_PULL0 1.

Lemma sample_ring_queue : queue sample_ring [(0x100, 7)].
Proof.
  exists 0. split; [lia |]. split; [cbn; lia |]. do 2 (split; [by vm_compute |]). split; [by vm_compute |].
  do 2 (split; [by vm_compute |]). intros [| k] e; [| done]. intros E. injection E as <-. by vm_compute.
Qed.

Lemma cache1_refines_witness : ∃ r', cache1_pull sample_ring = Ok (r', 0x100, 7) ∧ queue r' [].
Proof.
  destruct (cache1_refines sample_ring _ sample_ring_queue) as (_ & _ & _ & H).
  destruct (H (0x100, 7) [] eq_refl) as (r' & E & Q & _). exists r'. split; [exact E | exact Q].
Defined.

#[local] Instance no_vga_port : VgaPort () := {|
  vga_ioport_read := λ v _, (0, v); vga_ioport_write := λ v _ _, v;
  vga_invalidate_scanlines := λ v _ _, v; ar_flip_flop := λ _, 0; cr := λ _ _, 0
|}.

Definition sample_device : NV2AState () := (nv2a_realize ∅ ()) <| pfifo_regs := sample_ring |>.
Definition sample_pulled : list (NV2AState () * list pgraph_call) := [(sample_device, [WaitFifoAccess; Method 0 0x100 7])].

Lemma pfifo_in_order_witness : ∃ d' pulled q', fifo_run 64 sample_device [] sample_pulled d' ∧
  queue (pfifo_regs d') q' ∧ [(0x100, 7)] = pulled ++ q' ∧ Forall2 (λ e c, delivered c.1 e c.2) pulled sample_pulled.
Proof.
  assert (R : ∃ d', fifo_run 64 sample_device [] sample_pulled d').
  { eexists. eapply run_pull; [vm_compute; reflexivity | apply run_done]. }
  destruct R as [d' R]. exists d'.
  destruct (pfifo_in_order 64 sample_device [(0x100, 7)] [] _ d' sample_ring_queue R) as (pulled & q' & H).
  exists pulled, q'. split; [exact R | exact H].
Defined.

(** A device whose pusher is ready; the buffer is the first 64 bytes of the memory. *)
Definition sample_pusher (words : list Z) (put : Z) : NV2AState () :=
  let r := wr ∅ NV_PFIFO_CACHE1_STATUS NV_PFIFO_CACHE1_STATUS_LOW_MARK in
  let r := wr (wr r NV_PFIFO_CACHE1_PUSH0 1) NV_PFIFO_CACHE1_DMA_PUSH 1 in
  let r := wr (wr r NV_PFIFO_MODE 1) NV_PFIFO_CACHE1_PUSH1 0x100 in
  (nv2a_realize ∅ ()) <| pfifo_regs := wr r NV_PFIFO_CACHE1_DMA_PUT put |>
    <| ramin := wr_bytes ∅ 4 (le_bytes 4 64) |>
    <| vram := wr_bytes ∅ 0 (concat (le_bytes 4 <$> words)) |>.

Lemma sample_ready words put : pusher_ready 64 (sample_pusher words put) 0 64.
Proof. unfold pusher_ready. repeat split; by vm_compute. Qed.

Lemma sample_at words put : pusher_at (pfifo_regs (sample_pusher words put)) [] 0 put 0 0 0 0.
Proof.
  set (r := pfifo_regs (sample_pusher words put)).
  assert (Q : queue r []).
  { exists 0. do 4 (split; [by vm_compute |]). do 3 (split; [by vm_compute |]). intros k e E. by rewrite lookup_nil in E. }
  split; [done |]. split; [by vm_compute |]. split; [apply rd_wr_eq |]. repeat split; by vm_compute.
Qed.

(** Two words to the methods 0x100 and 0x104 of subchannel 3. *)
Definition sample_command : command := Command 0 3 0x40 [5; 6].

Lemma pusher_unpacks_witness : ∃ d',
  pfifo_run_pusher 64 4 (sample_pusher (encode sample_command) 12) = Ok d' ∧
  queue (pfifo_regs d') [(0x6100, 5); (0x6104, 6)].
Proof.
  destruct (pusher_unpacks 64 (sample_pusher (encode sample_command) 12) 0 64 [sample_command] [] 0 12 0 0 0)
    as (d' & E & Q & _).
  - apply sample_ready.
  - apply sample_at.
  - apply Forall_singleton. decided.
  - intros [| [| [| k]]] w Hk; try done; injection Hk as <-; by vm_compute.
  - done.
  - lia.
  - lia.
  - lia.
  - cbn. lia.
  - exists d'. split; [exact E | exact Q].
Defined.

Lemma pusher_jump_hangs_witness : pfifo_run_pusher 64 100 (sample_pusher [1] 4) = Fault out_of_fuel.
Proof.
  apply (pusher_jump_hangs 64 (sample_pusher [1] 4) 0 64 0 4 0 0 0 []).
  - apply sample_ready.
  - apply sample_at.
  - lia.
  - lia.
  - done.
  - lia.
  - by vm_compute.
Defined.

Lemma ramht_lookup_flaws_witness :
  ramht_lookup (sample_pusher [] 0) 600 = Fault assert_failed ∧
  ramht_lookup (sample_pusher [] 0) 2048 = ramht_lookup (sample_pusher [] 0) 1.
Proof.
  destruct (ramht_lookup_flaws (sample_pusher [] 0)) as [H1 H2]; [by vm_compute | by vm_compute |].
  split; [apply H1; lia | exact H2].
Defined.
