(* ===== verification/Xxhash.v ===== *)
(** * The xxHash functions

    src/hw/xbox/nv2a/xxhash.c and xxhash.h, the hashes that the texture and shader caches
    look entries up by: the 32-bit and the 64-bit hash, each in one call or fed piece by
    piece, and the canonical representation.  The host is little endian.

    Feeding an input in pieces of any lengths is shown to give the hash of the whole, and
    the switch that hashes the last bytes to take each of them once. *)

From S2P Require Import Prelude Bytes.

(** ** Stripes

    Both hashes take the input in stripes of a fixed number of bytes. *)

Section stripes.
Context {A : Type} (n : nat) (round : A → list Z → A).

(** [while (p <= limit)] where [limit] is [n] bytes before the end. *)
Fixpoint stripes (fuel : nat) (v : A) (p : list Z) : A * list Z :=
  match fuel with
  | O => (v, p)
  | S fuel => if (length p <? n)%nat then (v, p) else stripes fuel (round v p) (drop n p)
  end.

Context (Hn : n ≠ O).

Lemma stripes_fuel fuel fuel' v p : (length p ≤ fuel)%nat → (length p ≤ fuel')%nat →
  stripes fuel v p = stripes fuel' v p.
Proof using Hn.
  revert fuel' v p. induction fuel as [| fuel IH]; intros [| fuel'] v p L L'; cbn [stripes]; try done.
  - destruct (Nat.ltb_spec (length p) n); [done | lia].
  - destruct (Nat.ltb_spec (length p) n); [done | lia].
  - destruct (Nat.ltb_spec (length p) n); [done |]. apply IH; rewrite length_drop; lia.
Qed.

Lemma stripes_rest fuel v p : (length p ≤ fuel)%nat → (length (stripes fuel v p).2 = length p mod n)%nat.
Proof using Hn.
  revert v p. induction fuel as [| fuel IH]; intros v p L; cbn [stripes].
  - cbn. assert (length p = 0)%nat as -> by lia. by rewrite Nat.Div0.mod_0_l.
  - destruct (Nat.ltb_spec (length p) n); [by rewrite Nat.mod_small |].
    rewrite IH by (rewrite length_drop; lia). rewrite length_drop.
    replace (length p) with ((length p - n) + 1 * n)%nat at 2 by lia. by rewrite Nat.Div0.mod_add.
Qed.

(** A round reads only its stripe. *)
Context (Hround : ∀ v p q, (n ≤ length p)%nat → round v (p ++ q) = round v p).

Lemma stripes_app fuel v p q : (length (p ++ q) ≤ fuel)%nat →
  stripes fuel v (p ++ q) = (let '(v', r) := stripes fuel v p in stripes fuel v' (r ++ q)).
Proof using Hn Hround.
  revert v p. induction fuel as [| fuel IH]; intros v p L; cbn [stripes]; [done |].
  rewrite length_app in L. destruct (Nat.ltb_spec (length p) n) as [Hp | Hp].
  { cbn [stripes]. rewrite length_app. by destruct (Nat.ltb_spec (length p + length q) n). }
  rewrite length_app. destruct (Nat.ltb_spec (length p + length q) n) as [? | _]; [lia |].
  rewrite Hround by done. rewrite drop_app_le by lia. rewrite IH by (rewrite length_app, length_drop; lia).
  destruct (stripes fuel (round v p) (drop n p)) as [v' r] eqn:E.
  pose proof (stripes_rest fuel (round v p) (drop n p)) as R. rewrite E in R. cbn in R.
  rewrite length_drop in R. specialize (R ltac:(lia)).
  assert (length r < n)%nat by (rewrite R; by apply Nat.mod_upper_bound).
  transitivity (stripes (S fuel) v' (r ++ q)); [| done].
  apply stripes_fuel; rewrite length_app; pose proof (Nat.Div0.mod_le (length p - n) n); lia.
Qed.

(** The tail that is left is the end of the input. *)
Lemma stripes_tail fuel v p : (length p ≤ fuel)%nat →
  (stripes fuel v p).2 = drop (length p - length p mod n) p.
Proof using Hn.
  revert v p. induction fuel as [| fuel IH]; intros v p L; cbn [stripes].
  - by destruct p; [| cbn in L; lia].
  - destruct (Nat.ltb_spec (length p) n).
    + cbn. by rewrite Nat.mod_small, Nat.sub_diag by done.
    + rewrite IH by (rewrite length_drop; lia). rewrite length_drop, drop_drop.
      f_equal. replace (length p) with ((length p - n) + 1 * n)%nat at 4 by lia.
      rewrite Nat.Div0.mod_add. pose proof (Nat.Div0.mod_le (length p - n) n). lia.
Qed.
End stripes.

(** ** The code *)

Record lanes := Lanes { v1 : Z; v2 : Z; v3 : Z; v4 : Z }.

Definition XXH_rotl32 (x r : Z) : Z := u32 (x .<< r) .| (x .>> (32 - r)).
Definition XXH_rotl64 (x r : Z) : Z := u64 (x .<< r) .| (x .>> (64 - r)).

(** Little-endian reads at the start of a buffer, and the byte swaps. *)
Definition XXH_read32 (p : list Z) : Z := le_value (take 4 p).
Definition XXH_read64 (p : list Z) : Z := le_value (take 8 p).
Definition XXH_swap32 (x : Z) : Z := le_value (rev (le_bytes 4 x)).
Definition XXH_swap64 (x : Z) : Z := le_value (rev (le_bytes 8 x)).

(** A step of the last bytes: how many it takes. *)
Inductive process := PROCESS1 | PROCESS4 | PROCESS8.

Definition process_size (o : process) : nat :=
  match o with PROCESS1 => 1 | PROCESS4 => 4 | PROCESS8 => 8 end.

(** A [switch] whose cases fall through up to the next [return]: the groups between the
    returns, each a list of the statements with the label in front of it, if any. *)
Definition switch_code := list (list (option Z * process)).

(** Run a group from the label [n] on. *)
Fixpoint from_label (n : Z) (group : list (option Z * process)) : option (list process) :=
  match group with
  | [] => None
  | (l, o) :: group =>
      if bool_decide (l = Some n) then Some (o :: (snd <$> group)) else from_label n group
  end.

Fixpoint switch_to (n : Z) (s : switch_code) : option (list process) :=
  match s with
  | [] => None
  | group :: s => match from_label n group with Some l => Some l | None => switch_to n s end
  end.

(** Feeding a piece to the state of a stream: the lanes, the buffer of one stripe and how
    much of it is filled. *)
Definition feed (n : Z) (round : lanes → list Z → lanes) (v : lanes) (buf : mem) (memsize : Z)
    (input : list Z) : lanes * mem * Z :=
  let len := Z.of_nat (length input) in
  if u64 (memsize + len) <? n then (v, wr_bytes buf memsize input, u32 (memsize + len))
  else
    let '(v, buf, p, memsize) :=
      if nz memsize then
        let buf := wr_bytes buf memsize (take (Z.to_nat (n - memsize)) input) in
        (round v (rd_bytes buf 0 n), buf, drop (Z.to_nat (n - memsize)) input, 0)
      else (v, buf, input, memsize) in
    let '(v, p) := stripes (Z.to_nat n) round (length p) v p in
    if (0 <? length p)%nat then (v, wr_bytes buf 0 p, Z.of_nat (length p)) else (v, buf, memsize).

(** *** 32 bits *)

Definition PRIME32_1 := 2654435761.
Definition PRIME32_2 := 2246822519.
Definition PRIME32_3 := 3266489917.
Definition PRIME32_4 := 668265263.
Definition PRIME32_5 := 374761393.

Definition XXH32_round (seed input : Z) : Z :=
  let seed := u32 (seed + input * PRIME32_2) in
  let seed := XXH_rotl32 seed 13 in
  u32 (seed * PRIME32_1).

Definition XXH32_avalanche (h : Z) : Z :=
  let h := h .^ (h .>> 15) in
  let h := u32 (h * PRIME32_2) in
  let h := h .^ (h .>> 13) in
  let h := u32 (h * PRIME32_3) in
  h .^ (h .>> 16).

Definition XXH32_switch : switch_code := [
  [(Some 12, PROCESS4); (Some 8, PROCESS4); (Some 4, PROCESS4)];
  [(Some 13, PROCESS4); (Some 9, PROCESS4); (Some 5, PROCESS4); (None, PROCESS1)];
  [(Some 14, PROCESS4); (Some 10, PROCESS4); (Some 6, PROCESS4); (None, PROCESS1); (None, PROCESS1)];
  [(Some 15, PROCESS4); (Some 11, PROCESS4); (Some 7, PROCESS4); (Some 3, PROCESS1); (Some 2, PROCESS1);
   (Some 1, PROCESS1)]].

Definition XXH32_process (o : process) (h : Z) (p : list Z) : Z :=
  match o with
  | PROCESS1 => u32 (XXH_rotl32 (u32 (h + hd 0 p * PRIME32_5)) 11 * PRIME32_1)
  | _ => u32 (XXH_rotl32 (u32 (h + XXH_read32 p * PRIME32_3)) 17 * PRIME32_4)
  end.

Fixpoint run_process (process_one : process → Z → list Z → Z) (ops : list process) (h : Z) (p : list Z) : Z :=
  match ops with
  | [] => h
  | o :: ops => run_process process_one ops (process_one o h p) (drop (process_size o) p)
  end.

(** The label 0 is the last [return] itself. *)
Definition XXH32_finalize (h : Z) (p : list Z) (len : Z) : res Z :=
  match (if len .& 15 =? 0 then Some [] else switch_to (len .& 15) XXH32_switch) with
  | Some ops => Ok (XXH32_avalanche (run_process XXH32_process ops h p))
  | None => Fault assert_failed
  end.

Definition XXH32_rounds (v : lanes) (p : list Z) : lanes :=
  Lanes (XXH32_round (v1 v) (XXH_read32 p)) (XXH32_round (v2 v) (XXH_read32 (drop 4 p)))
    (XXH32_round (v3 v) (XXH_read32 (drop 8 p))) (XXH32_round (v4 v) (XXH_read32 (drop 12 p))).

Definition XXH32_seed (seed : Z) : lanes :=
  Lanes (u32 (seed + PRIME32_1 + PRIME32_2)) (u32 (seed + PRIME32_2)) (u32 (seed + 0)) (u32 (seed - PRIME32_1)).

Definition XXH32_merge (v : lanes) : Z :=
  u32 (XXH_rotl32 (v1 v) 1 + XXH_rotl32 (v2 v) 7 + XXH_rotl32 (v3 v) 12 + XXH_rotl32 (v4 v) 18).

Definition XXH32 (input : list Z) (seed : Z) : res Z :=
  let len := Z.of_nat (length input) in
  let '(h, p) :=
    if 16 <=? len then
      let '(v, p) := stripes 16 XXH32_rounds (length input) (XXH32_seed seed) input in (XXH32_merge v, p)
    else (u32 (seed + PRIME32_5), input) in
  XXH32_finalize (u32 (h + len)) p (len .& 15).

Record XXH32_state := State32 {
  total_len_32 : Z;
  large_len : Z;
  lanes32 : lanes;
  mem32 : mem;
  memsize32 : Z
}.

Definition XXH32_reset (seed : Z) : XXH32_state := State32 0 0 (XXH32_seed seed) ∅ 0.

Definition XXH32_update (s : XXH32_state) (input : list Z) : XXH32_state :=
  let len := Z.of_nat (length input) in
  let total := u32 (total_len_32 s + len) in
  let large := large_len s .| (b2z (16 <=? len) .| b2z (16 <=? total)) in
  let '(v, buf, memsize) := feed 16 XXH32_rounds (lanes32 s) (mem32 s) (memsize32 s) input in
  State32 total large v buf memsize.

Definition XXH32_digest (s : XXH32_state) : res Z :=
  let h := if nz (large_len s) then XXH32_merge (lanes32 s) else u32 (v3 (lanes32 s) + PRIME32_5) in
  XXH32_finalize (u32 (h + total_len_32 s)) (rd_bytes (mem32 s) 0 16) (memsize32 s).

(** *** 64 bits *)

Definition PRIME64_1 := 11400714785074694791.
Definition PRIME64_2 := 14029467366897019727.
Definition PRIME64_3 := 1609587929392839161.
Definition PRIME64_4 := 9650029242287828579.
Definition PRIME64_5 := 2870177450012600261.

Definition XXH64_round (acc input : Z) : Z :=
  let acc := u64 (acc + input * PRIME64_2) in
  let acc := XXH_rotl64 acc 31 in
  u64 (acc * PRIME64_1).

Definition XXH64_mergeRound (acc val : Z) : Z :=
  let val := XXH64_round 0 val in
  let acc := acc .^ val in
  u64 (acc * PRIME64_1 + PRIME64_4).

Definition XXH64_avalanche (h : Z) : Z :=
  let h := h .^ (h .>> 33) in
  let h := u64 (h * PRIME64_2) in
  let h := h .^ (h .>> 29) in
  let h := u64 (h * PRIME64_3) in
  h .^ (h .>> 32).

Definition XXH64_switch : switch_code := [
  [(Some 24, PROCESS8); (Some 16, PROCESS8); (Some 8, PROCESS8)];
  [(Some 28, PROCESS8); (Some 20, PROCESS8); (Some 12, PROCESS8); (Some 4, PROCESS4)];
  [(Some 25, PROCESS8); (Some 17, PROCESS8); (Some 9, PROCESS8); (None, PROCESS1)];
  [(Some 29, PROCESS8); (Some 21, PROCESS8); (Some 13, PROCESS8); (Some 5, PROCESS4); (None, PROCESS1)];
  [(Some 26, PROCESS8); (Some 18, PROCESS8); (Some 10, PROCESS8); (None, PROCESS1); (None, PROCESS1)];
  [(Some 30, PROCESS8); (Some 22, PROCESS8); (Some 14, PROCESS8); (Some 6, PROCESS4); (None, PROCESS1);
   (None, PROCESS1)];
  [(Some 27, PROCESS8); (Some 19, PROCESS8); (Some 11, PROCESS8); (None, PROCESS1); (None, PROCESS1);
   (None, PROCESS1)];
  [(Some 31, PROCESS8); (Some 23, PROCESS8); (Some 15, PROCESS8); (Some 7, PROCESS4); (Some 3, PROCESS1);
   (Some 2, PROCESS1); (Some 1, PROCESS1)]].

Definition XXH64_process (o : process) (h : Z) (p : list Z) : Z :=
  match o with
  | PROCESS1 => u64 (XXH_rotl64 (h .^ u64 (hd 0 p * PRIME64_5)) 11 * PRIME64_1)
  | PROCESS4 => u64 (XXH_rotl64 (h .^ u64 (XXH_read32 p * PRIME64_1)) 23 * PRIME64_2 + PRIME64_3)
  | PROCESS8 => u64 (XXH_rotl64 (h .^ XXH64_round 0 (XXH_read64 p)) 27 * PRIME64_1 + PRIME64_4)
  end.

Definition XXH64_finalize (h : Z) (p : list Z) (len : Z) : res Z :=
  match (if len .& 31 =? 0 then Some [] else switch_to (len .& 31) XXH64_switch) with
  | Some ops => Ok (XXH64_avalanche (run_process XXH64_process ops h p))
  | None => Fault assert_failed
  end.

Definition XXH64_rounds (v : lanes) (p : list Z) : lanes :=
  Lanes (XXH64_round (v1 v) (XXH_read64 p)) (XXH64_round (v2 v) (XXH_read64 (drop 8 p)))
    (XXH64_round (v3 v) (XXH_read64 (drop 16 p))) (XXH64_round (v4 v) (XXH_read64 (drop 24 p))).

Definition XXH64_seed (seed : Z) : lanes :=
  Lanes (u64 (seed + PRIME64_1 + PRIME64_2)) (u64 (seed + PRIME64_2)) (u64 (seed + 0)) (u64 (seed - PRIME64_1)).

Definition XXH64_merge (v : lanes) : Z :=
  let h := u64 (XXH_rotl64 (v1 v) 1 + XXH_rotl64 (v2 v) 7 + XXH_rotl64 (v3 v) 12 + XXH_rotl64 (v4 v) 18) in
  let h := XXH64_mergeRound h (v1 v) in
  let h := XXH64_mergeRound h (v2 v) in
  let h := XXH64_mergeRound h (v3 v) in
  XXH64_mergeRound h (v4 v).

Definition XXH64 (input : list Z) (seed : Z) : res Z :=
  let len := Z.of_nat (length input) in
  let '(h, p) :=
    if 32 <=? len then
      let '(v, p) := stripes 32 XXH64_rounds (length input) (XXH64_seed seed) input in (XXH64_merge v, p)
    else (u64 (seed + PRIME64_5), input) in
  XXH64_finalize (u64 (h + len)) p len.

Record XXH64_state := State64 {
  total_len : Z;
  lanes64 : lanes;
  mem64 : mem;
  memsize64 : Z
}.

Definition XXH64_reset (seed : Z) : XXH64_state := State64 0 (XXH64_seed seed) ∅ 0.

Definition XXH64_update (s : XXH64_state) (input : list Z) : XXH64_state :=
  let '(v, buf, memsize) := feed 32 XXH64_rounds (lanes64 s) (mem64 s) (memsize64 s) input in
  State64 (u64 (total_len s + Z.of_nat (length input))) v buf memsize.

Definition XXH64_digest (s : XXH64_state) : res Z :=
  let h := if 32 <=? total_len s then XXH64_merge (lanes64 s) else u64 (v3 (lanes64 s) + PRIME64_5) in
  XXH64_finalize (u64 (h + total_len s)) (rd_bytes (mem64 s) 0 32) (total_len s).

(** *** Canonical representation *)

Definition XXH32_canonicalFromHash (hash : Z) : list Z := le_bytes 4 (XXH_swap32 hash).
Definition XXH32_hashFromCanonical (src : list Z) : Z := XXH_swap32 (XXH_read32 src).
Definition XXH64_canonicalFromHash (hash : Z) : list Z := le_bytes 8 (XXH_swap64 hash).
Definition XXH64_hashFromCanonical (src : list Z) : Z := XXH_swap64 (XXH_read64 src).

(** ** Streams *)

(** The state of a stream that was fed [l], from the lanes [v0]. *)
Definition fed (n : Z) (round : lanes → list Z → lanes) (v0 : lanes) (l : list Z)
    (v : lanes) (buf : mem) (memsize : Z) : Prop :=
  let '(v', r) := stripes (Z.to_nat n) round (length l) v0 l in
  v = v' ∧ memsize = Z.of_nat (length r) ∧ rd_bytes buf 0 memsize = r.

Lemma rd_bytes_append m k l : 0 ≤ k →
  rd_bytes (wr_bytes m k l) 0 (k + Z.of_nat (length l)) = rd_bytes m 0 k ++ l.
Proof.
  intros Hk. apply list_eq. intros i. destruct (decide (Z.of_nat i < k + Z.of_nat (length l))) as [Hi | Hi].
  - rewrite rd_bytes_lookup, rd_wr_bytes by done. rewrite Z.add_0_l. case_decide.
    + rewrite lookup_app_r by (rewrite rd_bytes_length; lia). rewrite rd_bytes_length.
      replace (Z.to_nat (Z.of_nat i - k)) with (i - Z.to_nat k)%nat by lia.
      symmetry. apply list_lookup_lookup_total_lt. lia.
    + rewrite lookup_app_l by (rewrite rd_bytes_length; lia). rewrite rd_bytes_lookup by lia. done.
  - rewrite !lookup_ge_None_2; [done | rewrite length_app, rd_bytes_length; lia | rewrite rd_bytes_length; lia].
Qed.

Section feed.
Context (n : Z) (Hn : 0 < n < 2 ^ 32) (round : lanes → list Z → lanes).
Context (Hround : ∀ v p q, (Z.to_nat n ≤ length p)%nat → round v (p ++ q) = round v p).
Implicit Types (v : lanes) (buf : mem) (input l r p : list Z).

Lemma fed_nil v0 : fed n round v0 [] v0 ∅ 0.
Proof using. done. Qed.

(** The end of [feed], when the stripe that was begun is complete. *)
Lemma feed_stripes v buf p ms : (ms = 0 ∨ ms = Z.of_nat (length p)) → ms = 0 →
  let '(v', r) := stripes (Z.to_nat n) round (length p) v p in
  let '(v2, buf2, ms2) := if (0 <? length r)%nat then (v', wr_bytes buf 0 r, Z.of_nat (length r)) else (v', buf, ms) in
  v2 = v' ∧ ms2 = Z.of_nat (length r) ∧ rd_bytes buf2 0 ms2 = r.
Proof using.
  intros _ ->. destruct (stripes _ _ _ _ _) as [v' r]. destruct (Nat.ltb_spec 0 (length r)) as [L | L].
  - split_and!; [done | done |]. exact (rd_bytes_append buf 0 r ltac:(lia)).
  - destruct r; [| cbn in L; lia]. by split_and!.
Qed.

Lemma stripes_continue v0 l input v r : stripes (Z.to_nat n) round (length l) v0 l = (v, r) →
  stripes (Z.to_nat n) round (length (l ++ input)) v0 (l ++ input) =
  stripes (Z.to_nat n) round (length (r ++ input)) v (r ++ input).
Proof using Hn Hround.
  intros E. assert (N : Z.to_nat n ≠ O) by lia.
  pose proof (stripes_rest (Z.to_nat n) round N (length l) v0 l ltac:(lia)) as R. rewrite E in R. cbn in R.
  rewrite stripes_app by done.
  rewrite (stripes_fuel _ round N _ (length l) v0 l), E by (rewrite ?length_app; lia).
  apply stripes_fuel; [done | | done]. rewrite !length_app.
  pose proof (Nat.Div0.mod_le (length l) (Z.to_nat n)). lia.
Qed.

Lemma feed_spec v0 l v buf ms input : fed n round v0 l v buf ms → Z.of_nat (length input) < 2 ^ 63 →
  let '(v', buf', ms') := feed n round v buf ms input in fed n round v0 (l ++ input) v' buf' ms'.
Proof using Hn Hround.
  unfold fed. destruct (stripes (Z.to_nat n) round (length l) v0 l) as [v' r] eqn:E.
  intros (-> & -> & Hb) Hlen. assert (N : Z.to_nat n ≠ O) by lia.
  pose proof (stripes_rest (Z.to_nat n) round N (length l) v0 l ltac:(lia)) as R. rewrite E in R. cbn in R.
  assert (Hr : (length r < Z.to_nat n)%nat) by (rewrite R; by apply Nat.mod_upper_bound).
  rewrite (stripes_continue v0 l input v' r E). unfold feed. rewrite wrap_small by lia.
  destruct (Z.ltb_spec (Z.of_nat (length r) + Z.of_nat (length input)) n) as [Hs | Hs].
  { rewrite (stripes_fuel _ round N _ (S (length (r ++ input)))) by lia. cbn [stripes].
    rewrite length_app. rewrite (proj2 (Nat.ltb_lt _ _)) by lia. rewrite wrap_small by lia.
    split; [done |]. split; [rewrite length_app; lia |]. rewrite rd_bytes_append by lia. by rewrite Hb. }
  unfold nz. destruct (Z.eqb_spec (Z.of_nat (length r)) 0) as [Z0 | Z0]; cbn [negb].
  - destruct r; [| cbn in Z0; lia]. cbn [app]. pose proof (feed_stripes v' buf input 0 ltac:(by left) eq_refl) as F.
    destruct (stripes (Z.to_nat n) round (length input) v' input). exact F.
  - set (k := Z.to_nat (n - Z.of_nat (length r))).
    assert (Hk : (length (take k input) = k)%nat) by (rewrite length_take; lia).
    assert (rd_bytes (wr_bytes buf (Z.of_nat (length r)) (take k input)) 0 n = r ++ take k input) as ->.
    { replace n with (Z.of_nat (length r) + Z.of_nat (length (take k input))) at 1 by lia.
      rewrite rd_bytes_append by lia. by rewrite Hb. }
    rewrite (stripes_fuel _ round N (length (r ++ input)) (S (length (r ++ input)))) by lia.
    cbn [stripes]. rewrite (proj2 (Nat.ltb_ge _ _)) by (rewrite length_app; lia).
    assert (round v' (r ++ input) = round v' (r ++ take k input)) as ->.
    { rewrite <- (take_drop k input) at 1. rewrite app_assoc. apply Hround. rewrite length_app. lia. }
    assert (drop (Z.to_nat n) (r ++ input) = drop k input) as ->.
    { rewrite drop_app_ge by lia. f_equal. lia. }
    rewrite (stripes_fuel _ round N (length (r ++ input)) (length (drop k input)))
      by (rewrite ?length_app, ?length_drop; lia).
    pose proof (feed_stripes (round v' (r ++ take k input)) (wr_bytes buf (Z.of_nat (length r)) (take k input))
      (drop k input) 0 ltac:(by left) eq_refl) as F.
    destruct (stripes (Z.to_nat n) round (length (drop k input)) _ _). exact F.
Qed.
End feed.

(** ** The last bytes *)

Definition total_size (ops : list process) : nat := sum_list (process_size <$> ops).

(** The switch has a case for each number of bytes that can be left, and its statements take
    just that many. *)
Lemma switch_sizes (s : switch_code) (m k : Z) :
  forallb (λ i, match switch_to i s with Some ops => (total_size ops =? Z.to_nat i)%nat | None => false end)
    (seqZ 1 (m - 1)) = true → 0 < k < m → ∃ ops, switch_to k s = Some ops ∧ total_size ops = Z.to_nat k.
Proof.
  intros F Hk. rewrite forallb_forall in F. specialize (F k). destruct (switch_to k s) as [ops |].
  - exists ops. split; [done |]. apply Nat.eqb_eq, F. apply list_elem_of_In, elem_of_seqZ. lia.
  - discriminate F. apply list_elem_of_In, elem_of_seqZ. lia.
Qed.

Section process.
Context (process_one : process → Z → list Z → Z).
Context (Hone : ∀ o h p q, (process_size o ≤ length p)%nat → process_one o h (p ++ q) = process_one o h p).

Lemma run_process_app ops h p q : (total_size ops ≤ length p)%nat →
  run_process process_one ops h (p ++ q) = run_process process_one ops h p.
Proof using Hone.
  revert h p. induction ops as [| o ops IH]; intros h p L; [done |].
  cbn in L. cbn [run_process]. rewrite Hone by (unfold total_size in *; cbn in *; lia).
  rewrite drop_app_le by (unfold total_size in *; cbn in *; lia). apply IH.
  rewrite length_drop. unfold total_size in *. cbn in *. lia.
Qed.
End process.

Lemma read32_app p q : (4 ≤ length p)%nat → XXH_read32 (p ++ q) = XXH_read32 p.
Proof. intros. unfold XXH_read32. by rewrite take_app_le. Qed.

Lemma read64_app p q : (8 ≤ length p)%nat → XXH_read64 (p ++ q) = XXH_read64 p.
Proof. intros. unfold XXH_read64. by rewrite take_app_le. Qed.

Lemma process32_app o h p q : (process_size o ≤ length p)%nat → XXH32_process o h (p ++ q) = XXH32_process o h p.
Proof. destruct o; cbn; intros L; [by destruct p; [cbn in L; lia |] | by rewrite read32_app | by rewrite read32_app by lia]. Qed.

Lemma process64_app o h p q : (process_size o ≤ length p)%nat → XXH64_process o h (p ++ q) = XXH64_process o h p.
Proof. destruct o; cbn; intros L; [by destruct p; [cbn in L; lia |] | by rewrite read32_app | by rewrite read64_app]. Qed.

Lemma rounds32_app v p q : (16 ≤ length p)%nat → XXH32_rounds v (p ++ q) = XXH32_rounds v p.
Proof.
  intros L. unfold XXH32_rounds. by rewrite !drop_app_le, !read32_app by (rewrite ?length_drop; lia).
Qed.

Lemma rounds64_app v p q : (32 ≤ length p)%nat → XXH64_rounds v (p ++ q) = XXH64_rounds v p.
Proof.
  intros L. unfold XXH64_rounds. by rewrite !drop_app_le, !read64_app by (rewrite ?length_drop; lia).
Qed.

(** The last bytes can be hashed out of a buffer that begins with them. *)
Lemma rd_bytes_take buf r n : Z.of_nat (length r) ≤ n → rd_bytes buf 0 (Z.of_nat (length r)) = r →
  rd_bytes buf 0 n = r ++ drop (length r) (rd_bytes buf 0 n).
Proof.
  intros L E. rewrite <- (take_drop (length r) (rd_bytes buf 0 n)) at 1. f_equal. rewrite <- E at 2.
  apply list_eq. intros i. destruct (decide (i < length r)%nat).
  - rewrite lookup_take_lt by lia. by rewrite !rd_bytes_lookup by lia.
  - rewrite !lookup_ge_None_2; [done | rewrite rd_bytes_length; lia | rewrite length_take; lia].
Qed.

Lemma finalize32_buffer h buf r len : Z.of_nat (length r) = len mod 16 →
  rd_bytes buf 0 (Z.of_nat (length r)) = r →
  XXH32_finalize h (rd_bytes buf 0 16) (Z.of_nat (length r)) = XXH32_finalize h r (len .& 15).
Proof.
  intros El Eb. pose proof (Z.mod_pos_bound len 16 ltac:(done)). unfold XXH32_finalize.
  change 15 with (BITMASK 4). rewrite !land_BITMASK by done. change (2 ^ 4) with 16.
  rewrite El, !Zmod_mod. destruct (Z.eqb_spec (len mod 16) 0); [done |].
  destruct (switch_sizes XXH32_switch 16 (len mod 16) eq_refl ltac:(lia)) as (ops & -> & T). do 2 f_equal.
  rewrite (rd_bytes_take buf r 16) by (done || lia). apply run_process_app; [apply process32_app | lia].
Qed.

Lemma finalize64_buffer h buf r len : Z.of_nat (length r) = len mod 32 →
  rd_bytes buf 0 (Z.of_nat (length r)) = r →
  XXH64_finalize h (rd_bytes buf 0 32) len = XXH64_finalize h r len.
Proof.
  intros El Eb. pose proof (Z.mod_pos_bound len 32 ltac:(done)). unfold XXH64_finalize.
  change 31 with (BITMASK 5). rewrite !land_BITMASK by done. change (2 ^ 5) with 32.
  destruct (Z.eqb_spec (len mod 32) 0); [done |].
  destruct (switch_sizes XXH64_switch 32 (len mod 32) eq_refl ltac:(lia)) as (ops & -> & T). do 2 f_equal.
  rewrite (rd_bytes_take buf r 32) by (done || lia). apply run_process_app; [apply process64_app | lia].
Qed.

Lemma finalize32_ok h p len : is_ok (XXH32_finalize h p len) = true.
Proof.
  unfold XXH32_finalize. change 15 with (BITMASK 4). rewrite land_BITMASK by done. change (2 ^ 4) with 16.
  pose proof (Z.mod_pos_bound len 16 ltac:(done)). destruct (Z.eqb_spec (len mod 16) 0); [done |].
  by destruct (switch_sizes XXH32_switch 16 (len mod 16) eq_refl ltac:(lia)) as (ops & -> & _).
Qed.

Lemma finalize64_ok h p len : is_ok (XXH64_finalize h p len) = true.
Proof.
  unfold XXH64_finalize. change 31 with (BITMASK 5). rewrite land_BITMASK by done. change (2 ^ 5) with 32.
  pose proof (Z.mod_pos_bound len 32 ltac:(done)). destruct (Z.eqb_spec (len mod 32) 0); [done |].
  by destruct (switch_sizes XXH64_switch 32 (len mod 32) eq_refl ltac:(lia)) as (ops & -> & _).
Qed.

Lemma XXH32_ok input seed : is_ok (XXH32 input seed) = true.
Proof. unfold XXH32. destruct (if _ : bool then _ else _). apply finalize32_ok. Qed.

Lemma XXH64_ok input seed : is_ok (XXH64 input seed) = true.
Proof. unfold XXH64. destruct (if _ : bool then _ else _). apply finalize64_ok. Qed.

(** ** Pieces and the whole *)

Definition fed64 (seed : Z) (l : list Z) (s : XXH64_state) : Prop :=
  total_len s = u64 (Z.of_nat (length l)) ∧
  fed 32 XXH64_rounds (XXH64_seed seed) l (lanes64 s) (mem64 s) (memsize64 s).

Definition fed32 (seed : Z) (l : list Z) (s : XXH32_state) : Prop :=
  total_len_32 s = u32 (Z.of_nat (length l)) ∧
  nz (large_len s) = (16 <=? Z.of_nat (length l)) ∧
  fed 16 XXH32_rounds (XXH32_seed seed) l (lanes32 s) (mem32 s) (memsize32 s).

Lemma update64 seed l s input : Z.of_nat (length input) < 2 ^ 63 → fed64 seed l s →
  fed64 seed (l ++ input) (XXH64_update s input).
Proof.
  intros Hl [T F]. unfold XXH64_update.
  pose proof (feed_spec 32 ltac:(done) XXH64_rounds rounds64_app _ _ _ _ _ input F Hl) as F'.
  destruct (feed _ _ _ _ _ _) as [[v buf] ms]. split; [| done]. cbn. rewrite T, length_app.
  unfold wrap. rewrite Zplus_mod_idemp_l. f_equal. lia.
Qed.

Lemma update32 seed l s input : Z.of_nat (length (l ++ input)) < 2 ^ 63 → fed32 seed l s →
  fed32 seed (l ++ input) (XXH32_update s input).
Proof.
  intros Hl (T & Lg & F). rewrite length_app in Hl. unfold XXH32_update.
  pose proof (feed_spec 16 ltac:(done) XXH32_rounds rounds32_app _ _ _ _ _ input F ltac:(lia)) as F'.
  destruct (feed _ _ _ _ _ _) as [[v buf] ms].
  assert (E : u32 (total_len_32 s + Z.of_nat (length input)) = u32 (Z.of_nat (length (l ++ input)))).
  { rewrite T, length_app. unfold wrap. rewrite Zplus_mod_idemp_l. f_equal. lia. }
  split; [exact E |]. split; [| done]. cbn [large_len]. rewrite E, length_app.
  destruct (Z.leb_spec 16 (Z.of_nat (length l))).
  - rewrite (proj2 (Z.leb_le 16 (Z.of_nat (length l + length input)))) by lia.
    unfold nz in *. apply negb_true_iff, Z.eqb_neq in Lg.
    apply negb_true_iff, Z.eqb_neq. rewrite Z.lor_eq_0_iff. tauto.
  - unfold nz in *. apply negb_false_iff, Z.eqb_eq in Lg. rewrite Lg, Z.lor_0_l.
    destruct (Z.leb_spec 16 (Z.of_nat (length input))).
    + rewrite (proj2 (Z.leb_le 16 (Z.of_nat (length l + length input)))) by lia. by destruct (16 <=? u32 _).
    + rewrite wrap_small by lia. by destruct (16 <=? _).
Qed.

Lemma digest64 seed l s : 0 ≤ seed < 2 ^ 64 → Z.of_nat (length l) < 2 ^ 64 → fed64 seed l s →
  XXH64_digest s = XXH64 l seed.
Proof.
  intros Hs Hl [T F]. rewrite wrap_small in T by lia. unfold fed in F. unfold XXH64_digest, XXH64.
  pose proof (stripes_rest 32 XXH64_rounds ltac:(done) (length l) (XXH64_seed seed) l ltac:(lia)) as R.
  change (Z.to_nat 32) with 32%nat in F.
  destruct (Z.leb_spec 32 (Z.of_nat (length l))) as [L | L].
  - destruct (stripes 32 XXH64_rounds (length l) (XXH64_seed seed) l) as [v r]. cbn [snd] in R.
    destruct F as (-> & -> & Eb). rewrite T. rewrite (proj2 (Z.leb_le _ _)) by done.
    apply finalize64_buffer; [| done]. rewrite R, Nat2Z.inj_mod. done.
  - rewrite (stripes_fuel 32 XXH64_rounds ltac:(done) _ (S (length l))) in F by lia. cbn [stripes] in F.
    rewrite (proj2 (Nat.ltb_lt _ _)) in F by lia. destruct F as (-> & E & Eb). rewrite E in Eb.
    rewrite T. rewrite (proj2 (Z.leb_gt _ _)) by done. cbn [v3 XXH64_seed].
    rewrite Z.add_0_r, (wrap_small 64 seed) by done.
    apply finalize64_buffer; [| done]. by rewrite Z.mod_small by lia.
Qed.

Lemma digest32 seed l s : 0 ≤ seed < 2 ^ 32 → fed32 seed l s → XXH32_digest s = XXH32 l seed.
Proof.
  intros Hs (T & Lg & F). unfold fed in F. unfold XXH32_digest, XXH32. rewrite Lg.
  pose proof (stripes_rest 16 XXH32_rounds ltac:(done) (length l) (XXH32_seed seed) l ltac:(lia)) as R.
  change (Z.to_nat 16) with 16%nat in F.
  assert (W : ∀ x, u32 (x + total_len_32 s) = u32 (x + Z.of_nat (length l)))
    by (intros; rewrite T; unfold wrap; by rewrite Zplus_mod_idemp_r).
  rewrite W. destruct (Z.leb_spec 16 (Z.of_nat (length l))) as [L | L].
  - destruct (stripes 16 XXH32_rounds (length l) (XXH32_seed seed) l) as [v r]. cbn [snd] in R.
    destruct F as (-> & -> & Eb). apply finalize32_buffer; [| done]. rewrite R, Nat2Z.inj_mod. done.
  - rewrite (stripes_fuel 16 XXH32_rounds ltac:(done) _ (S (length l))) in F by lia. cbn [stripes] in F.
    rewrite (proj2 (Nat.ltb_lt _ _)) in F by lia. destruct F as (-> & E & Eb). rewrite E in Eb |- *.
    cbn [v3 XXH32_seed]. rewrite Z.add_0_r, (wrap_small 32 seed) by done.
    apply finalize32_buffer; [| done]. by rewrite Z.mod_small by lia.
Qed.

(** ** The theorems *)

(** C17: the streaming interface computes the hash of its input.  A state that is reset with a
    seed and then updated with any pieces, empty ones included, gives the digest that one
    call gives for the concatenation of the pieces, for the 32-bit and the 64-bit hash and for
    inputs below 2^63 bytes; the digest never runs into the assertion behind the switch. *)
Theorem xxhash_streaming (pieces : list (list Z)) (seed32 seed64 : Z) :
  0 ≤ seed32 < 2 ^ 32 → 0 ≤ seed64 < 2 ^ 64 → Z.of_nat (length (concat pieces)) < 2 ^ 63 →
  XXH32_digest (foldl XXH32_update (XXH32_reset seed32) pieces) = XXH32 (concat pieces) seed32 ∧
  XXH64_digest (foldl XXH64_update (XXH64_reset seed64) pieces) = XXH64 (concat pieces) seed64 ∧
  is_ok (XXH32 (concat pieces) seed32) = true ∧ is_ok (XXH64 (concat pieces) seed64) = true.
Proof.
  intros H32 H64 Hl.
  assert (F : ∀ l s32 s64, fed32 seed32 l s32 → fed64 seed64 l s64 →
    Z.of_nat (length (l ++ concat pieces)) < 2 ^ 63 →
    fed32 seed32 (l ++ concat pieces) (foldl XXH32_update s32 pieces) ∧
    fed64 seed64 (l ++ concat pieces) (foldl XXH64_update s64 pieces)).
  { clear Hl. induction pieces as [| p pieces IH]; intros l s32 s64 F32 F64 Hl; cbn; [by rewrite !app_nil_r |].
    cbn in Hl. rewrite app_assoc. rewrite !length_app in Hl.
    apply IH; [apply update32; [rewrite length_app; lia | done] | apply update64; [lia | done] | rewrite !length_app; lia]. }
  destruct (F [] (XXH32_reset seed32) (XXH64_reset seed64)) as [F32 F64]; [done | done | done |].
  rewrite (digest32 _ _ _ H32 F32), (digest64 seed64 (concat pieces) _ H64 ltac:(lia) F64).
  split_and!; [done | done | apply XXH32_ok | apply XXH64_ok].
Qed.

Lemma xxhash_streaming_witness :
  XXH64_digest (foldl XXH64_update (XXH64_reset 7) [[1; 2; 3]; []; seqZ 0 70; [9]]) =
  XXH64 ([1; 2; 3] ++ seqZ 0 70 ++ [9]) 7.
Proof.
  destruct (xxhash_streaming [[1; 2; 3]; []; seqZ 0 70; [9]] 7 7) as (_ & E & _);
    [lia | lia | vm_compute; reflexivity |]. exact E.
Defined.

(** A hash is recovered from its canonical representation, which is big endian. *)
Lemma swap_swap n x : 0 ≤ x < 2 ^ (8 * Z.of_nat n) →
  le_bytes n (le_value (rev (le_bytes n x))) = rev (le_bytes n x).
Proof.
  intros Hx. assert (L : ∀ l, bytes l → le_bytes (length l) (le_value l) = l).
  { induction 1 as [| b l Hb _ IH]; [done |]. cbn [length le_bytes le_value].
    change 0xff with (BITMASK 8). rewrite land_BITMASK, shiftr_div by done. change (2 ^ 8) with 256.
    rewrite Z.mul_comm, Z.mod_add, Z.mod_small, Z.div_add, Z.div_small, Z.add_0_l by lia. by rewrite IH. }
  rewrite <- (L (rev (le_bytes n x))) at 2; [by rewrite length_rev, le_bytes_length |].
  apply Forall_rev, le_bytes_byte.
Qed.

Lemma canonical_roundtrip h : 
  (0 ≤ h < 2 ^ 32 → XXH32_hashFromCanonical (XXH32_canonicalFromHash h) = h) ∧
  (0 ≤ h < 2 ^ 64 → XXH64_hashFromCanonical (XXH64_canonicalFromHash h) = h).
Proof.
  split; intros Hh.
  - unfold XXH32_hashFromCanonical, XXH32_canonicalFromHash, XXH_swap32, XXH_read32.
    rewrite take_ge by (by rewrite le_bytes_length). rewrite (swap_swap 4) by done.
    rewrite <- (swap_swap 4 h) at 1 by done. rewrite le_value_bytes.
    + rewrite (swap_swap 4) by done. rewrite rev_involutive. by apply le_value_bytes.
    + pose proof (le_value_bound (rev (le_bytes 4 h)) ltac:(apply Forall_rev, le_bytes_byte)) as B.
      by rewrite length_rev, le_bytes_length in B.
  - unfold XXH64_hashFromCanonical, XXH64_canonicalFromHash, XXH_swap64, XXH_read64.
    rewrite take_ge by (by rewrite le_bytes_length). rewrite (swap_swap 8) by done.
    rewrite <- (swap_swap 8 h) at 1 by done. rewrite le_value_bytes.
    + rewrite (swap_swap 8) by done. rewrite rev_involutive. by apply le_value_bytes.
    + pose proof (le_value_bound (rev (le_bytes 8 h)) ltac:(apply Forall_rev, le_bytes_byte)) as B.
      by rewrite length_rev, le_bytes_length in B.
Qed.
