(* ===== verification/PgraphRegs.v ===== *)
(** * Registers and methods of PGRAPH

    The constants of src/hw/xbox/nv2a/nv2a_regs.h that nv2a_pgraph.c uses: the registers
    and their fields ([NV_PGRAPH_...]), the rows of the vertex shader and lighting contexts
    ([NV_IGRAPH_XF_...]), and the methods of the graphics classes with their values
    ([NV044_...], [NV062_...], [NV09F_...], [NV097_...]). *)

From S2P Require Import Prelude.

Definition NV_PGRAPH_INTR_ERROR := 0x100000.
Definition NV_PGRAPH_NSOURCE := 0x108.
Definition NV_PGRAPH_NSOURCE_NOTIFICATION := 1.
Definition NV_PGRAPH_CTX_SWITCH1 := 0x14C.
Definition NV_PGRAPH_CTX_SWITCH1_GRCLASS := 0xFF.
Definition NV_PGRAPH_CTX_SWITCH2 := 0x150.
Definition NV_PGRAPH_CTX_SWITCH3 := 0x154.
Definition NV_PGRAPH_CTX_SWITCH4 := 0x158.
Definition NV_PGRAPH_CTX_SWITCH5 := 0x15C.
Definition NV_PGRAPH_CTX_CACHE1 := 0x160.
Definition NV_PGRAPH_CTX_CACHE2 := 0x180.
Definition NV_PGRAPH_CTX_CACHE3 := 0x1A0.
Definition NV_PGRAPH_CTX_CACHE4 := 0x1C0.
Definition NV_PGRAPH_CTX_CACHE5 := 0x1E0.
Definition NV_PGRAPH_TRAPPED_ADDR_MTHD := 0x1FFF.
Definition NV_PGRAPH_TRAPPED_ADDR_SUBCH := 0x70000.
Definition NV_PGRAPH_TRAPPED_DATA_LOW := 0x708.
Definition NV_PGRAPH_SURFACE_WRITE_3D := 0x700000.
Definition NV_PGRAPH_FIFO := 0x720.
Definition NV_PGRAPH_FIFO_ACCESS := 1.
Definition NV_PGRAPH_CHANNEL_CTX_TRIGGER_WRITE_OUT := 2.
Definition NV_PGRAPH_PATT_COLOR0 := 0xB10.
Definition NV_PGRAPH_CSV0_D := 0xFB4.
Definition NV_PGRAPH_CSV0_D_LIGHTS := 0xFFFF.
Definition NV_PGRAPH_CSV0_D_LIGHT0 := 3.
Definition NV_PGRAPH_CSV0_D_RANGE_MODE := 0x40000.
Definition NV_PGRAPH_CSV0_D_FOGENABLE := 0x80000.
Definition NV_PGRAPH_CSV0_D_TEXGEN_REF := 0x100000.
Definition NV_PGRAPH_CSV0_D_FOG_MODE := 0x200000.
Definition NV_PGRAPH_CSV0_D_FOGGENMODE := 0x1C00000.
Definition NV_PGRAPH_CSV0_D_FOGGENMODE_SPEC_ALPHA := 0.
Definition NV_PGRAPH_CSV0_D_FOGGENMODE_RADIAL := 1.
Definition NV_PGRAPH_CSV0_D_FOGGENMODE_PLANAR := 2.
Definition NV_PGRAPH_CSV0_D_FOGGENMODE_ABS_PLANAR := 3.
Definition NV_PGRAPH_CSV0_D_FOGGENMODE_FOG_X := 4.
Definition NV_PGRAPH_CSV0_D_MODE := 0xC0000000.
Definition NV_PGRAPH_CSV0_D_SKIN := 0x1C000000.
Definition NV_PGRAPH_CSV0_C := 0xFB8.
Definition NV_PGRAPH_CSV0_C_CHEOPS_PROGRAM_START := 0xFF00.
Definition NV_PGRAPH_CSV0_C_SPECULAR := 0x180000.
Definition NV_PGRAPH_CSV0_C_DIFFUSE := 0x600000.
Definition NV_PGRAPH_CSV0_C_AMBIENT := 0x1800000.
Definition NV_PGRAPH_CSV0_C_EMISSION := 0x6000000.
Definition NV_PGRAPH_CSV0_C_NORMALIZATION_ENABLE := 0x8000000.
Definition NV_PGRAPH_CSV0_C_LIGHTING := 0x80000000.
Definition NV_PGRAPH_CSV1_B := 0xFBC.
Definition NV_PGRAPH_CSV1_A := 0xFC0.
Definition NV_PGRAPH_CSV1_A_T0_S := 0x70.
Definition NV_PGRAPH_CSV1_A_T0_S_DISABLE := 0.
Definition NV_PGRAPH_CSV1_A_T0_S_NORMAL_MAP := 4.
Definition NV_PGRAPH_CSV1_A_T0_S_REFLECTION_MAP := 5.
Definition NV_PGRAPH_CSV1_A_T0_S_EYE_LINEAR := 1.
Definition NV_PGRAPH_CSV1_A_T0_S_OBJECT_LINEAR := 2.
Definition NV_PGRAPH_CSV1_A_T0_S_SPHERE_MAP := 3.
Definition NV_PGRAPH_CSV1_A_T0_T := 0x380.
Definition NV_PGRAPH_CSV1_A_T0_R := 0x1C00.
Definition NV_PGRAPH_CSV1_A_T0_Q := 0xE000.
Definition NV_PGRAPH_CSV1_A_T1_S := 0x700000.
Definition NV_PGRAPH_CSV1_A_T1_T := 0x3800000.
Definition NV_PGRAPH_CSV1_A_T1_R := 0x1C000000.
Definition NV_PGRAPH_CSV1_A_T1_Q := 0xE0000000.
Definition NV_PGRAPH_CHEOPS_OFFSET := 0xFC4.
Definition NV_PGRAPH_CHEOPS_OFFSET_PROG_LD_PTR := 0xFF.
Definition NV_PGRAPH_CHEOPS_OFFSET_CONST_LD_PTR := 0xFF00.
Definition NV_PGRAPH_BLEND := 0x1804.
Definition NV_PGRAPH_BLEND_EQN := 7.
Definition NV_PGRAPH_BLEND_EN := 8.
Definition NV_PGRAPH_BLEND_SFACTOR := 0xF0.
Definition NV_PGRAPH_BLEND_SFACTOR_ZERO := 0.
Definition NV_PGRAPH_BLEND_SFACTOR_ONE := 1.
Definition NV_PGRAPH_BLEND_SFACTOR_SRC_COLOR := 2.
Definition NV_PGRAPH_BLEND_SFACTOR_ONE_MINUS_SRC_COLOR := 3.
Definition NV_PGRAPH_BLEND_SFACTOR_SRC_ALPHA := 4.
Definition NV_PGRAPH_BLEND_SFACTOR_ONE_MINUS_SRC_ALPHA := 5.
Definition NV_PGRAPH_BLEND_SFACTOR_DST_ALPHA := 6.
Definition NV_PGRAPH_BLEND_SFACTOR_ONE_MINUS_DST_ALPHA := 7.
Definition NV_PGRAPH_BLEND_SFACTOR_DST_COLOR := 8.
Definition NV_PGRAPH_BLEND_SFACTOR_ONE_MINUS_DST_COLOR := 9.
Definition NV_PGRAPH_BLEND_SFACTOR_SRC_ALPHA_SATURATE := 0xA.
Definition NV_PGRAPH_BLEND_SFACTOR_CONSTANT_COLOR := 0xC.
Definition NV_PGRAPH_BLEND_SFACTOR_ONE_MINUS_CONSTANT_COLOR := 0xD.
Definition NV_PGRAPH_BLEND_SFACTOR_CONSTANT_ALPHA := 0xE.
Definition NV_PGRAPH_BLEND_SFACTOR_ONE_MINUS_CONSTANT_ALPHA := 0xF.
Definition NV_PGRAPH_BLEND_DFACTOR := 0xF00.
Definition NV_PGRAPH_BLEND_DFACTOR_ZERO := 0.
Definition NV_PGRAPH_BLEND_DFACTOR_ONE := 1.
Definition NV_PGRAPH_BLEND_DFACTOR_SRC_COLOR := 2.
Definition NV_PGRAPH_BLEND_DFACTOR_ONE_MINUS_SRC_COLOR := 3.
Definition NV_PGRAPH_BLEND_DFACTOR_SRC_ALPHA := 4.
Definition NV_PGRAPH_BLEND_DFACTOR_ONE_MINUS_SRC_ALPHA := 5.
Definition NV_PGRAPH_BLEND_DFACTOR_DST_ALPHA := 6.
Definition NV_PGRAPH_BLEND_DFACTOR_ONE_MINUS_DST_ALPHA := 7.
Definition NV_PGRAPH_BLEND_DFACTOR_DST_COLOR := 8.
Definition NV_PGRAPH_BLEND_DFACTOR_ONE_MINUS_DST_COLOR := 9.
Definition NV_PGRAPH_BLEND_DFACTOR_SRC_ALPHA_SATURATE := 0xA.
Definition NV_PGRAPH_BLEND_DFACTOR_CONSTANT_COLOR := 0xC.
Definition NV_PGRAPH_BLEND_DFACTOR_ONE_MINUS_CONSTANT_COLOR := 0xD.
Definition NV_PGRAPH_BLEND_DFACTOR_CONSTANT_ALPHA := 0xE.
Definition NV_PGRAPH_BLEND_DFACTOR_ONE_MINUS_CONSTANT_ALPHA := 0xF.
Definition NV_PGRAPH_BLEND_LOGICOP_ENABLE := 0x10000.
Definition NV_PGRAPH_BLEND_LOGICOP := 0xF000.
Definition NV_PGRAPH_BLENDCOLOR := 0x1808.
Definition NV_PGRAPH_BORDERCOLOR0 := 0x180C.
Definition NV_PGRAPH_BUMPOFFSET1 := 0x184C.
Definition NV_PGRAPH_BUMPSCALE1 := 0x1858.
Definition NV_PGRAPH_CLEARRECTX := 0x1864.
Definition NV_PGRAPH_CLEARRECTX_XMIN := 0xFFF.
Definition NV_PGRAPH_CLEARRECTX_XMAX := 0xFFF0000.
Definition NV_PGRAPH_CLEARRECTY := 0x1868.
Definition NV_PGRAPH_CLEARRECTY_YMIN := 0xFFF.
Definition NV_PGRAPH_CLEARRECTY_YMAX := 0xFFF0000.
Definition NV_PGRAPH_COLORCLEARVALUE := 0x186C.
Definition NV_PGRAPH_COMBINEFACTOR0 := 0x1880.
Definition NV_PGRAPH_COMBINEFACTOR1 := 0x18A0.
Definition NV_PGRAPH_COMBINEALPHAI0 := 0x18C0.
Definition NV_PGRAPH_COMBINEALPHAO0 := 0x18E0.
Definition NV_PGRAPH_COMBINECOLORI0 := 0x1900.
Definition NV_PGRAPH_COMBINECOLORO0 := 0x1920.
Definition NV_PGRAPH_COMBINECTL := 0x1940.
Definition NV_PGRAPH_COMBINESPECFOG0 := 0x1944.
Definition NV_PGRAPH_COMBINESPECFOG1 := 0x1948.
Definition NV_PGRAPH_CONTROL_0 := 0x194C.
Definition NV_PGRAPH_CONTROL_0_ALPHAREF := 0xFF.
Definition NV_PGRAPH_CONTROL_0_ALPHAFUNC := 0xF00.
Definition NV_PGRAPH_CONTROL_0_ALPHATESTENABLE := 0x1000.
Definition NV_PGRAPH_CONTROL_0_ZENABLE := 0x4000.
Definition NV_PGRAPH_CONTROL_0_ZFUNC := 0xF0000.
Definition NV_PGRAPH_CONTROL_0_DITHERENABLE := 0x400000.
Definition NV_PGRAPH_CONTROL_0_Z_PERSPECTIVE_ENABLE := 0x800000.
Definition NV_PGRAPH_CONTROL_0_ZWRITEENABLE := 0x1000000.
Definition NV_PGRAPH_CONTROL_0_STENCIL_WRITE_ENABLE := 0x2000000.
Definition NV_PGRAPH_CONTROL_0_ALPHA_WRITE_ENABLE := 0x4000000.
Definition NV_PGRAPH_CONTROL_0_RED_WRITE_ENABLE := 0x8000000.
Definition NV_PGRAPH_CONTROL_0_GREEN_WRITE_ENABLE := 0x10000000.
Definition NV_PGRAPH_CONTROL_0_BLUE_WRITE_ENABLE := 0x20000000.
Definition NV_PGRAPH_CONTROL_1 := 0x1950.
Definition NV_PGRAPH_CONTROL_1_STENCIL_TEST_ENABLE := 1.
Definition NV_PGRAPH_CONTROL_1_STENCIL_FUNC := 0xF0.
Definition NV_PGRAPH_CONTROL_1_STENCIL_REF := 0xFF00.
Definition NV_PGRAPH_CONTROL_1_STENCIL_MASK_READ := 0xFF0000.
Definition NV_PGRAPH_CONTROL_1_STENCIL_MASK_WRITE := 0xFF000000.
Definition NV_PGRAPH_CONTROL_2 := 0x1954.
Definition NV_PGRAPH_CONTROL_2_STENCIL_OP_FAIL := 0xF.
Definition NV_PGRAPH_CONTROL_2_STENCIL_OP_ZFAIL := 0xF0.
Definition NV_PGRAPH_CONTROL_2_STENCIL_OP_ZPASS := 0xF00.
Definition NV_PGRAPH_CONTROL_2_STENCIL_OP_V_KEEP := 1.
Definition NV_PGRAPH_CONTROL_2_STENCIL_OP_V_ZERO := 2.
Definition NV_PGRAPH_CONTROL_2_STENCIL_OP_V_REPLACE := 3.
Definition NV_PGRAPH_CONTROL_2_STENCIL_OP_V_INCRSAT := 4.
Definition NV_PGRAPH_CONTROL_2_STENCIL_OP_V_DECRSAT := 5.
Definition NV_PGRAPH_CONTROL_2_STENCIL_OP_V_INVERT := 6.
Definition NV_PGRAPH_CONTROL_2_STENCIL_OP_V_INCR := 7.
Definition NV_PGRAPH_CONTROL_2_STENCIL_OP_V_DECR := 8.
Definition NV_PGRAPH_CONTROL_3 := 0x1958.
Definition NV_PGRAPH_CONTROL_3_FOGENABLE := 0x100.
Definition NV_PGRAPH_CONTROL_3_FOG_MODE := 0x70000.
Definition NV_PGRAPH_CONTROL_3_FOG_MODE_LINEAR := 0.
Definition NV_PGRAPH_CONTROL_3_FOG_MODE_EXP := 1.
Definition NV_PGRAPH_CONTROL_3_FOG_MODE_EXP2 := 3.
Definition NV_PGRAPH_CONTROL_3_FOG_MODE_EXP_ABS := 5.
Definition NV_PGRAPH_CONTROL_3_FOG_MODE_EXP2_ABS := 7.
Definition NV_PGRAPH_CONTROL_3_FOG_MODE_LINEAR_ABS := 4.
Definition NV_PGRAPH_FOGCOLOR := 0x1980.
Definition NV_PGRAPH_FOGCOLOR_RED := 0xFF0000.
Definition NV_PGRAPH_FOGCOLOR_GREEN := 0xFF00.
Definition NV_PGRAPH_FOGCOLOR_BLUE := 0xFF.
Definition NV_PGRAPH_FOGCOLOR_ALPHA := 0xFF000000.
Definition NV_PGRAPH_FOGPARAM0 := 0x1984.
Definition NV_PGRAPH_FOGPARAM1 := 0x1988.
Definition NV_PGRAPH_SETUPRASTER := 0x1990.
Definition NV_PGRAPH_SETUPRASTER_FRONTFACEMODE := 3.
Definition NV_PGRAPH_SETUPRASTER_FRONTFACEMODE_FILL := 0.
Definition NV_PGRAPH_SETUPRASTER_FRONTFACEMODE_POINT := 1.
Definition NV_PGRAPH_SETUPRASTER_FRONTFACEMODE_LINE := 2.
Definition NV_PGRAPH_SETUPRASTER_BACKFACEMODE := 0xC.
Definition NV_PGRAPH_SETUPRASTER_POFFSETPOINTENABLE := 0x40.
Definition NV_PGRAPH_SETUPRASTER_POFFSETLINEENABLE := 0x80.
Definition NV_PGRAPH_SETUPRASTER_POFFSETFILLENABLE := 0x100.
Definition NV_PGRAPH_SETUPRASTER_CULLCTRL := 0x600000.
Definition NV_PGRAPH_SETUPRASTER_CULLCTRL_FRONT := 1.
Definition NV_PGRAPH_SETUPRASTER_CULLCTRL_BACK := 2.
Definition NV_PGRAPH_SETUPRASTER_CULLCTRL_FRONT_AND_BACK := 3.
Definition NV_PGRAPH_SETUPRASTER_FRONTFACE := 0x800000.
Definition NV_PGRAPH_SETUPRASTER_CULLENABLE := 0x10000000.
Definition NV_PGRAPH_SETUPRASTER_Z_FORMAT := 0x20000000.
Definition NV_PGRAPH_SETUPRASTER_WINDOWCLIPTYPE := 0x80000000.
Definition NV_PGRAPH_SHADERCLIPMODE := 0x1994.
Definition NV_PGRAPH_SHADERCTL := 0x1998.
Definition NV_PGRAPH_SHADERPROG := 0x199C.
Definition NV_PGRAPH_SEMAPHOREOFFSET := 0x19A0.
Definition NV_PGRAPH_SHADOWZSLOPETHRESHOLD := 0x19A8.
Definition NV_PGRAPH_SPECFOGFACTOR0 := 0x19AC.
Definition NV_PGRAPH_SPECFOGFACTOR1 := 0x19B0.
Definition NV_PGRAPH_TEXADDRESS0 := 0x19BC.
Definition NV_PGRAPH_TEXADDRESS0_ADDRU := 7.
Definition NV_PGRAPH_TEXADDRESS0_ADDRV := 0x700.
Definition NV_PGRAPH_TEXADDRESS0_ADDRP := 0x70000.
Definition NV_PGRAPH_TEXCTL0_0 := 0x19CC.
Definition NV_PGRAPH_TEXCTL0_0_ALPHAKILLEN := 4.
Definition NV_PGRAPH_TEXCTL0_0_MAX_LOD_CLAMP := 0x3FFC0.
Definition NV_PGRAPH_TEXCTL0_0_MIN_LOD_CLAMP := 0x3FFC0000.
Definition NV_PGRAPH_TEXCTL0_0_ENABLE := 0x40000000.
Definition NV_PGRAPH_TEXCTL1_0 := 0x19DC.
Definition NV_PGRAPH_TEXCTL1_0_IMAGE_PITCH := 0xFFFF0000.
Definition NV_PGRAPH_TEXFILTER0 := 0x19F4.
Definition NV_PGRAPH_TEXFILTER0_MIPMAP_LOD_BIAS := 0x1FFF.
Definition NV_PGRAPH_TEXFILTER0_MIN := 0x3F0000.
Definition NV_PGRAPH_TEXFILTER0_MIN_BOX_LOD0 := 1.
Definition NV_PGRAPH_TEXFILTER0_MIN_TENT_LOD0 := 2.
Definition NV_PGRAPH_TEXFILTER0_MIN_BOX_NEARESTLOD := 3.
Definition NV_PGRAPH_TEXFILTER0_MIN_TENT_NEARESTLOD := 4.
Definition NV_PGRAPH_TEXFILTER0_MIN_BOX_TENT_LOD := 5.
Definition NV_PGRAPH_TEXFILTER0_MIN_TENT_TENT_LOD := 6.
Definition NV_PGRAPH_TEXFILTER0_MAG := 0xF000000.
Definition NV_PGRAPH_TEXFILTER0_ASIGNED := 0x10000000.
Definition NV_PGRAPH_TEXFILTER0_RSIGNED := 0x20000000.
Definition NV_PGRAPH_TEXFILTER0_GSIGNED := 0x40000000.
Definition NV_PGRAPH_TEXFILTER0_BSIGNED := 0x80000000.
Definition NV_PGRAPH_TEXFMT0 := 0x1A04.
Definition NV_PGRAPH_TEXFMT0_CONTEXT_DMA := 2.
Definition NV_PGRAPH_TEXFMT0_CUBEMAPENABLE := 4.
Definition NV_PGRAPH_TEXFMT0_BORDER_SOURCE := 8.
Definition NV_PGRAPH_TEXFMT0_BORDER_SOURCE_COLOR := 1.
Definition NV_PGRAPH_TEXFMT0_DIMENSIONALITY := 0xC0.
Definition NV_PGRAPH_TEXFMT0_COLOR := 0x7F00.
Definition NV_PGRAPH_TEXFMT0_MIPMAP_LEVELS := 0xF0000.
Definition NV_PGRAPH_TEXFMT0_BASE_SIZE_U := 0xF00000.
Definition NV_PGRAPH_TEXFMT0_BASE_SIZE_V := 0xF000000.
Definition NV_PGRAPH_TEXFMT0_BASE_SIZE_P := 0xF0000000.
Definition NV_PGRAPH_TEXIMAGERECT0 := 0x1A14.
Definition NV_PGRAPH_TEXIMAGERECT0_WIDTH := 0x1FFF0000.
Definition NV_PGRAPH_TEXIMAGERECT0_HEIGHT := 0x1FFF.
Definition NV_PGRAPH_TEXOFFSET0 := 0x1A24.
Definition NV_PGRAPH_TEXPALETTE0 := 0x1A34.
Definition NV_PGRAPH_TEXPALETTE0_CONTEXT_DMA := 1.
Definition NV_PGRAPH_TEXPALETTE0_LENGTH := 0xC.
Definition NV_PGRAPH_TEXPALETTE0_LENGTH_256 := 0.
Definition NV_PGRAPH_TEXPALETTE0_LENGTH_128 := 1.
Definition NV_PGRAPH_TEXPALETTE0_LENGTH_64 := 2.
Definition NV_PGRAPH_TEXPALETTE0_LENGTH_32 := 3.
Definition NV_PGRAPH_TEXPALETTE0_OFFSET := 0xFFFFFFC0.
Definition NV_PGRAPH_WINDOWCLIPX0 := 0x1A44.
Definition NV_PGRAPH_WINDOWCLIPX0_XMIN := 0xFFF.
Definition NV_PGRAPH_WINDOWCLIPX0_XMAX := 0xFFF0000.
Definition NV_PGRAPH_WINDOWCLIPY0 := 0x1A64.
Definition NV_PGRAPH_WINDOWCLIPY0_YMIN := 0xFFF.
Definition NV_PGRAPH_WINDOWCLIPY0_YMAX := 0xFFF0000.
Definition NV_PGRAPH_ZSTENCILCLEARVALUE := 0x1A88.
Definition NV_PGRAPH_ZCLIPMIN := 0x1A90.
Definition NV_PGRAPH_ZOFFSETBIAS := 0x1AA4.
Definition NV_PGRAPH_ZOFFSETFACTOR := 0x1AA8.
Definition NV_PGRAPH_EYEVEC0 := 0x1AAC.
Definition NV_PGRAPH_ZCLIPMAX := 0x1ABC.
Definition NV_DMA_IN_MEMORY_CLASS := 0x3D.
Definition NV_SET_OBJECT := 0.
Definition NV_CONTEXT_PATTERN := 0x44.
Definition NV044_SET_MONOCHROME_COLOR0 := 0x310.
Definition NV_CONTEXT_SURFACES_2D := 0x62.
Definition NV062_SET_OBJECT := 0.
Definition NV062_SET_CONTEXT_DMA_IMAGE_SOURCE := 0x184.
Definition NV062_SET_CONTEXT_DMA_IMAGE_DESTIN := 0x188.
Definition NV062_SET_COLOR_FORMAT := 0x300.
Definition NV062_SET_COLOR_FORMAT_LE_Y8 := 1.
Definition NV062_SET_COLOR_FORMAT_LE_R5G6B5 := 4.
Definition NV062_SET_COLOR_FORMAT_LE_A8R8G8B8 := 0xA.
Definition NV062_SET_PITCH := 0x304.
Definition NV062_SET_OFFSET_SOURCE := 0x308.
Definition NV062_SET_OFFSET_DESTIN := 0x30C.
Definition NV_IMAGE_BLIT := 0x9F.
Definition NV09F_SET_OBJECT := 0.
Definition NV09F_SET_CONTEXT_SURFACES := 0x19C.
Definition NV09F_SET_OPERATION := 0x2FC.
Definition NV09F_SET_OPERATION_SRCCOPY := 3.
Definition NV09F_CONTROL_POINT_IN := 0x300.
Definition NV09F_CONTROL_POINT_OUT := 0x304.
Definition NV09F_SIZE := 0x308.
Definition NV_KELVIN_PRIMITIVE := 0x97.
Definition NV097_SET_OBJECT := 0.
Definition NV097_NO_OPERATION := 0x100.
Definition NV097_WAIT_FOR_IDLE := 0x110.
Definition NV097_SET_FLIP_READ := 0x120.
Definition NV097_SET_FLIP_WRITE := 0x124.
Definition NV097_SET_FLIP_MODULO := 0x128.
Definition NV097_FLIP_INCREMENT_WRITE := 0x12C.
Definition NV097_FLIP_STALL := 0x130.
Definition NV097_SET_CONTEXT_DMA_NOTIFIES := 0x180.
Definition NV097_SET_CONTEXT_DMA_A := 0x184.
Definition NV097_SET_CONTEXT_DMA_B := 0x188.
Definition NV097_SET_CONTEXT_DMA_STATE := 0x190.
Definition NV097_SET_CONTEXT_DMA_COLOR := 0x194.
Definition NV097_SET_CONTEXT_DMA_ZETA := 0x198.
Definition NV097_SET_CONTEXT_DMA_VERTEX_A := 0x19C.
Definition NV097_SET_CONTEXT_DMA_VERTEX_B := 0x1A0.
Definition NV097_SET_CONTEXT_DMA_SEMAPHORE := 0x1A4.
Definition NV097_SET_CONTEXT_DMA_REPORT := 0x1A8.
Definition NV097_SET_SURFACE_CLIP_HORIZONTAL := 0x200.
Definition NV097_SET_SURFACE_CLIP_HORIZONTAL_X := 0xFFFF.
Definition NV097_SET_SURFACE_CLIP_HORIZONTAL_WIDTH := 0xFFFF0000.
Definition NV097_SET_SURFACE_CLIP_VERTICAL := 0x204.
Definition NV097_SET_SURFACE_CLIP_VERTICAL_Y := 0xFFFF.
Definition NV097_SET_SURFACE_CLIP_VERTICAL_HEIGHT := 0xFFFF0000.
Definition NV097_SET_SURFACE_FORMAT := 0x208.
Definition NV097_SET_SURFACE_FORMAT_COLOR := 0xF.
Definition NV097_SET_SURFACE_FORMAT_COLOR_LE_X1R5G5B5_Z1R5G5B5 := 1.
Definition NV097_SET_SURFACE_FORMAT_COLOR_LE_X1R5G5B5_O1R5G5B5 := 2.
Definition NV097_SET_SURFACE_FORMAT_COLOR_LE_R5G6B5 := 3.
Definition NV097_SET_SURFACE_FORMAT_COLOR_LE_X8R8G8B8_Z8R8G8B8 := 4.
Definition NV097_SET_SURFACE_FORMAT_COLOR_LE_X8R8G8B8_O8R8G8B8 := 5.
Definition NV097_SET_SURFACE_FORMAT_COLOR_LE_X1A7R8G8B8_Z1A7R8G8B8 := 6.
Definition NV097_SET_SURFACE_FORMAT_COLOR_LE_X1A7R8G8B8_O1A7R8G8B8 := 7.
Definition NV097_SET_SURFACE_FORMAT_COLOR_LE_A8R8G8B8 := 8.
Definition NV097_SET_SURFACE_FORMAT_COLOR_LE_B8 := 9.
Definition NV097_SET_SURFACE_FORMAT_COLOR_LE_G8B8 := 0xA.
Definition NV097_SET_SURFACE_FORMAT_ZETA := 0xF0.
Definition NV097_SET_SURFACE_FORMAT_ZETA_Z16 := 1.
Definition NV097_SET_SURFACE_FORMAT_ZETA_Z24S8 := 2.
Definition NV097_SET_SURFACE_FORMAT_TYPE := 0xF00.
Definition NV097_SET_SURFACE_FORMAT_TYPE_SWIZZLE := 2.
Definition NV097_SET_SURFACE_FORMAT_ANTI_ALIASING := 0xF000.
Definition NV097_SET_SURFACE_FORMAT_ANTI_ALIASING_CENTER_1 := 0.
Definition NV097_SET_SURFACE_FORMAT_ANTI_ALIASING_CENTER_CORNER_2 := 1.
Definition NV097_SET_SURFACE_FORMAT_ANTI_ALIASING_SQUARE_OFFSET_4 := 2.
Definition NV097_SET_SURFACE_FORMAT_WIDTH := 0xFF0000.
Definition NV097_SET_SURFACE_FORMAT_HEIGHT := 0xFF000000.
Definition NV097_SET_SURFACE_PITCH := 0x20C.
Definition NV097_SET_SURFACE_PITCH_COLOR := 0xFFFF.
Definition NV097_SET_SURFACE_PITCH_ZETA := 0xFFFF0000.
Definition NV097_SET_SURFACE_COLOR_OFFSET := 0x210.
Definition NV097_SET_SURFACE_ZETA_OFFSET := 0x214.
Definition NV097_SET_COMBINER_ALPHA_ICW := 0x260.
Definition NV097_SET_COMBINER_SPECULAR_FOG_CW0 := 0x288.
Definition NV097_SET_COMBINER_SPECULAR_FOG_CW1 := 0x28C.
Definition NV097_SET_CONTROL0 := 0x290.
Definition NV097_SET_CONTROL0_STENCIL_WRITE_ENABLE := 1.
Definition NV097_SET_CONTROL0_Z_FORMAT := 0x1000.
Definition NV097_SET_CONTROL0_Z_PERSPECTIVE_ENABLE := 0x10000.
Definition NV097_SET_COLOR_MATERIAL := 0x298.
Definition NV097_SET_FOG_MODE := 0x29C.
Definition NV097_SET_FOG_MODE_V_LINEAR := 0x2601.
Definition NV097_SET_FOG_MODE_V_EXP := 0x800.
Definition NV097_SET_FOG_MODE_V_EXP2 := 0x801.
Definition NV097_SET_FOG_MODE_V_EXP_ABS := 0x802.
Definition NV097_SET_FOG_MODE_V_EXP2_ABS := 0x803.
Definition NV097_SET_FOG_MODE_V_LINEAR_ABS := 0x804.
Definition NV097_SET_FOG_GEN_MODE := 0x2A0.
Definition NV097_SET_FOG_GEN_MODE_V_SPEC_ALPHA := 0.
Definition NV097_SET_FOG_GEN_MODE_V_RADIAL := 1.
Definition NV097_SET_FOG_GEN_MODE_V_PLANAR := 2.
Definition NV097_SET_FOG_GEN_MODE_V_ABS_PLANAR := 3.
Definition NV097_SET_FOG_GEN_MODE_V_FOG_X := 6.
Definition NV097_SET_FOG_ENABLE := 0x2A4.
Definition NV097_SET_FOG_COLOR := 0x2A8.
Definition NV097_SET_FOG_COLOR_RED := 0xFF.
Definition NV097_SET_FOG_COLOR_GREEN := 0xFF00.
Definition NV097_SET_FOG_COLOR_BLUE := 0xFF0000.
Definition NV097_SET_FOG_COLOR_ALPHA := 0xFF000000.
Definition NV097_SET_WINDOW_CLIP_TYPE := 0x2B4.
Definition NV097_SET_WINDOW_CLIP_HORIZONTAL := 0x2C0.
Definition NV097_SET_WINDOW_CLIP_VERTICAL := 0x2E0.
Definition NV097_SET_ALPHA_TEST_ENABLE := 0x300.
Definition NV097_SET_BLEND_ENABLE := 0x304.
Definition NV097_SET_CULL_FACE_ENABLE := 0x308.
Definition NV097_SET_DEPTH_TEST_ENABLE := 0x30C.
Definition NV097_SET_DITHER_ENABLE := 0x310.
Definition NV097_SET_LIGHTING_ENABLE := 0x314.
Definition NV097_SET_SKIN_MODE := 0x328.
Definition NV097_SET_STENCIL_TEST_ENABLE := 0x32C.
Definition NV097_SET_POLY_OFFSET_POINT_ENABLE := 0x330.
Definition NV097_SET_POLY_OFFSET_LINE_ENABLE := 0x334.
Definition NV097_SET_POLY_OFFSET_FILL_ENABLE := 0x338.
Definition NV097_SET_ALPHA_FUNC := 0x33C.
Definition NV097_SET_ALPHA_REF := 0x340.
Definition NV097_SET_BLEND_FUNC_SFACTOR := 0x344.
Definition NV097_SET_BLEND_FUNC_SFACTOR_V_ZERO := 0.
Definition NV097_SET_BLEND_FUNC_SFACTOR_V_ONE := 1.
Definition NV097_SET_BLEND_FUNC_SFACTOR_V_SRC_COLOR := 0x300.
Definition NV097_SET_BLEND_FUNC_SFACTOR_V_ONE_MINUS_SRC_COLOR := 0x301.
Definition NV097_SET_BLEND_FUNC_SFACTOR_V_SRC_ALPHA := 0x302.
Definition NV097_SET_BLEND_FUNC_SFACTOR_V_ONE_MINUS_SRC_ALPHA := 0x303.
Definition NV097_SET_BLEND_FUNC_SFACTOR_V_DST_ALPHA := 0x304.
Definition NV097_SET_BLEND_FUNC_SFACTOR_V_ONE_MINUS_DST_ALPHA := 0x305.
Definition NV097_SET_BLEND_FUNC_SFACTOR_V_DST_COLOR := 0x306.
Definition NV097_SET_BLEND_FUNC_SFACTOR_V_ONE_MINUS_DST_COLOR := 0x307.
Definition NV097_SET_BLEND_FUNC_SFACTOR_V_SRC_ALPHA_SATURATE := 0x308.
Definition NV097_SET_BLEND_FUNC_SFACTOR_V_CONSTANT_COLOR := 0x8001.
Definition NV097_SET_BLEND_FUNC_SFACTOR_V_ONE_MINUS_CONSTANT_COLOR := 0x8002.
Definition NV097_SET_BLEND_FUNC_SFACTOR_V_CONSTANT_ALPHA := 0x8003.
Definition NV097_SET_BLEND_FUNC_SFACTOR_V_ONE_MINUS_CONSTANT_ALPHA := 0x8004.
Definition NV097_SET_BLEND_FUNC_DFACTOR := 0x348.
Definition NV097_SET_BLEND_FUNC_DFACTOR_V_ZERO := 0.
Definition NV097_SET_BLEND_FUNC_DFACTOR_V_ONE := 1.
Definition NV097_SET_BLEND_FUNC_DFACTOR_V_SRC_COLOR := 0x300.
Definition NV097_SET_BLEND_FUNC_DFACTOR_V_ONE_MINUS_SRC_COLOR := 0x301.
Definition NV097_SET_BLEND_FUNC_DFACTOR_V_SRC_ALPHA := 0x302.
Definition NV097_SET_BLEND_FUNC_DFACTOR_V_ONE_MINUS_SRC_ALPHA := 0x303.
Definition NV097_SET_BLEND_FUNC_DFACTOR_V_DST_ALPHA := 0x304.
Definition NV097_SET_BLEND_FUNC_DFACTOR_V_ONE_MINUS_DST_ALPHA := 0x305.
Definition NV097_SET_BLEND_FUNC_DFACTOR_V_DST_COLOR := 0x306.
Definition NV097_SET_BLEND_FUNC_DFACTOR_V_ONE_MINUS_DST_COLOR := 0x307.
Definition NV097_SET_BLEND_FUNC_DFACTOR_V_SRC_ALPHA_SATURATE := 0x308.
Definition NV097_SET_BLEND_FUNC_DFACTOR_V_CONSTANT_COLOR := 0x8001.
Definition NV097_SET_BLEND_FUNC_DFACTOR_V_ONE_MINUS_CONSTANT_COLOR := 0x8002.
Definition NV097_SET_BLEND_FUNC_DFACTOR_V_CONSTANT_ALPHA := 0x8003.
Definition NV097_SET_BLEND_FUNC_DFACTOR_V_ONE_MINUS_CONSTANT_ALPHA := 0x8004.
Definition NV097_SET_BLEND_COLOR := 0x34C.
Definition NV097_SET_BLEND_EQUATION := 0x350.
Definition NV097_SET_BLEND_EQUATION_V_FUNC_SUBTRACT := 0x800A.
Definition NV097_SET_BLEND_EQUATION_V_FUNC_REVERSE_SUBTRACT := 0x800B.
Definition NV097_SET_BLEND_EQUATION_V_FUNC_ADD := 0x8006.
Definition NV097_SET_BLEND_EQUATION_V_MIN := 0x8007.
Definition NV097_SET_BLEND_EQUATION_V_MAX := 0x8008.
Definition NV097_SET_BLEND_EQUATION_V_FUNC_REVERSE_SUBTRACT_SIGNED := 0xF005.
Definition NV097_SET_BLEND_EQUATION_V_FUNC_ADD_SIGNED := 0xF006.
Definition NV097_SET_DEPTH_FUNC := 0x354.
Definition NV097_SET_COLOR_MASK := 0x358.
Definition NV097_SET_COLOR_MASK_BLUE_WRITE_ENABLE := 1.
Definition NV097_SET_COLOR_MASK_GREEN_WRITE_ENABLE := 0x100.
Definition NV097_SET_COLOR_MASK_RED_WRITE_ENABLE := 0x10000.
Definition NV097_SET_COLOR_MASK_ALPHA_WRITE_ENABLE := 0x1000000.
Definition NV097_SET_DEPTH_MASK := 0x35C.
Definition NV097_SET_STENCIL_MASK := 0x360.
Definition NV097_SET_STENCIL_FUNC := 0x364.
Definition NV097_SET_STENCIL_FUNC_REF := 0x368.
Definition NV097_SET_STENCIL_FUNC_MASK := 0x36C.
Definition NV097_SET_STENCIL_OP_FAIL := 0x370.
Definition NV097_SET_STENCIL_OP_ZFAIL := 0x374.
Definition NV097_SET_STENCIL_OP_ZPASS := 0x378.
Definition NV097_SET_STENCIL_OP_V_KEEP := 0x1E00.
Definition NV097_SET_STENCIL_OP_V_ZERO := 0.
Definition NV097_SET_STENCIL_OP_V_REPLACE := 0x1E01.
Definition NV097_SET_STENCIL_OP_V_INCRSAT := 0x1E02.
Definition NV097_SET_STENCIL_OP_V_DECRSAT := 0x1E03.
Definition NV097_SET_STENCIL_OP_V_INVERT := 0x150A.
Definition NV097_SET_STENCIL_OP_V_INCR := 0x8507.
Definition NV097_SET_STENCIL_OP_V_DECR := 0x8508.
Definition NV097_SET_POLYGON_OFFSET_SCALE_FACTOR := 0x384.
Definition NV097_SET_POLYGON_OFFSET_BIAS := 0x388.
Definition NV097_SET_FRONT_POLYGON_MODE := 0x38C.
Definition NV097_SET_FRONT_POLYGON_MODE_V_POINT := 0x1B00.
Definition NV097_SET_FRONT_POLYGON_MODE_V_LINE := 0x1B01.
Definition NV097_SET_FRONT_POLYGON_MODE_V_FILL := 0x1B02.
Definition NV097_SET_BACK_POLYGON_MODE := 0x390.
Definition NV097_SET_CLIP_MIN := 0x394.
Definition NV097_SET_CLIP_MAX := 0x398.
Definition NV097_SET_CULL_FACE := 0x39C.
Definition NV097_SET_CULL_FACE_V_FRONT := 0x404.
Definition NV097_SET_CULL_FACE_V_BACK := 0x405.
Definition NV097_SET_CULL_FACE_V_FRONT_AND_BACK := 0x408.
Definition NV097_SET_FRONT_FACE := 0x3A0.
Definition NV097_SET_FRONT_FACE_V_CW := 0x900.
Definition NV097_SET_FRONT_FACE_V_CCW := 0x901.
Definition NV097_SET_NORMALIZATION_ENABLE := 0x3A4.
Definition NV097_SET_MATERIAL_EMISSION := 0x3A8.
Definition NV097_SET_LIGHT_ENABLE_MASK := 0x3BC.
Definition NV097_SET_TEXGEN_S := 0x3C0.
Definition NV097_SET_TEXGEN_S_DISABLE := 0.
Definition NV097_SET_TEXGEN_S_EYE_LINEAR := 0x2400.
Definition NV097_SET_TEXGEN_S_OBJECT_LINEAR := 0x2401.
Definition NV097_SET_TEXGEN_S_SPHERE_MAP := 0x2402.
Definition NV097_SET_TEXGEN_S_REFLECTION_MAP := 0x8512.
Definition NV097_SET_TEXGEN_S_NORMAL_MAP := 0x8511.
Definition NV097_SET_TEXGEN_T := 0x3C4.
Definition NV097_SET_TEXGEN_R := 0x3C8.
Definition NV097_SET_TEXGEN_Q := 0x3CC.
Definition NV097_SET_TEXTURE_MATRIX_ENABLE := 0x420.
Definition NV097_SET_PROJECTION_MATRIX := 0x440.
Definition NV097_SET_MODEL_VIEW_MATRIX := 0x480.
Definition NV097_SET_INVERSE_MODEL_VIEW_MATRIX := 0x580.
Definition NV097_SET_COMPOSITE_MATRIX := 0x680.
Definition NV097_SET_TEXTURE_MATRIX := 0x6C0.
Definition NV097_SET_FOG_PARAMS := 0x9C0.
Definition NV097_SET_TEXGEN_PLANE_S := 0x840.
Definition NV097_SET_TEXGEN_VIEW_MODEL := 0x9CC.
Definition NV097_SET_FOG_PLANE := 0x9D0.
Definition NV097_SET_SCENE_AMBIENT_COLOR := 0xA10.
Definition NV097_SET_VIEWPORT_OFFSET := 0xA20.
Definition NV097_SET_EYE_POSITION := 0xA50.
Definition NV097_SET_COMBINER_FACTOR0 := 0xA60.
Definition NV097_SET_COMBINER_FACTOR1 := 0xA80.
Definition NV097_SET_COMBINER_ALPHA_OCW := 0xAA0.
Definition NV097_SET_COMBINER_COLOR_ICW := 0xAC0.
Definition NV097_SET_VIEWPORT_SCALE := 0xAF0.
Definition NV097_SET_TRANSFORM_PROGRAM := 0xB00.
Definition NV097_SET_TRANSFORM_CONSTANT := 0xB80.
Definition NV097_SET_VERTEX3F := 0x1500.
Definition NV097_SET_BACK_LIGHT_AMBIENT_COLOR := 0xC00.
Definition NV097_SET_BACK_LIGHT_DIFFUSE_COLOR := 0xC0C.
Definition NV097_SET_BACK_LIGHT_SPECULAR_COLOR := 0xC18.
Definition NV097_SET_LIGHT_AMBIENT_COLOR := 0x1000.
Definition NV097_SET_LIGHT_DIFFUSE_COLOR := 0x100C.
Definition NV097_SET_LIGHT_SPECULAR_COLOR := 0x1018.
Definition NV097_SET_LIGHT_LOCAL_RANGE := 0x1024.
Definition NV097_SET_LIGHT_INFINITE_HALF_VECTOR := 0x1028.
Definition NV097_SET_LIGHT_INFINITE_DIRECTION := 0x1034.
Definition NV097_SET_LIGHT_SPOT_FALLOFF := 0x1040.
Definition NV097_SET_LIGHT_SPOT_DIRECTION := 0x104C.
Definition NV097_SET_LIGHT_LOCAL_POSITION := 0x105C.
Definition NV097_SET_LIGHT_LOCAL_ATTENUATION := 0x1068.
Definition NV097_SET_VERTEX4F := 0x1518.
Definition NV097_SET_VERTEX_DATA_ARRAY_OFFSET := 0x1720.
Definition NV097_SET_VERTEX_DATA_ARRAY_FORMAT := 0x1760.
Definition NV097_SET_VERTEX_DATA_ARRAY_FORMAT_TYPE := 0xF.
Definition NV097_SET_VERTEX_DATA_ARRAY_FORMAT_TYPE_UB_D3D := 0.
Definition NV097_SET_VERTEX_DATA_ARRAY_FORMAT_TYPE_S1 := 1.
Definition NV097_SET_VERTEX_DATA_ARRAY_FORMAT_TYPE_F := 2.
Definition NV097_SET_VERTEX_DATA_ARRAY_FORMAT_TYPE_UB_OGL := 4.
Definition NV097_SET_VERTEX_DATA_ARRAY_FORMAT_TYPE_S32K := 5.
Definition NV097_SET_VERTEX_DATA_ARRAY_FORMAT_TYPE_CMP := 6.
Definition NV097_SET_VERTEX_DATA_ARRAY_FORMAT_SIZE := 0xF0.
Definition NV097_SET_VERTEX_DATA_ARRAY_FORMAT_STRIDE := 0xFFFFFF00.
Definition NV097_SET_LOGIC_OP_ENABLE := 0x17BC.
Definition NV097_SET_LOGIC_OP := 0x17C0.
Definition NV097_CLEAR_REPORT_VALUE := 0x17C8.
Definition NV097_SET_ZPASS_PIXEL_COUNT_ENABLE := 0x17CC.
Definition NV097_GET_REPORT := 0x17D0.
Definition NV097_GET_REPORT_OFFSET := 0xFFFFFF.
Definition NV097_GET_REPORT_TYPE := 0xFF000000.
Definition NV097_GET_REPORT_TYPE_ZPASS_PIXEL_CNT := 1.
Definition NV097_SET_EYE_DIRECTION := 0x17E0.
Definition NV097_SET_SHADER_CLIP_PLANE_MODE := 0x17F8.
Definition NV097_SET_BEGIN_END := 0x17FC.
Definition NV097_SET_BEGIN_END_OP_END := 0.
Definition NV097_SET_BEGIN_END_OP_POLYGON := 0xA.
Definition NV097_ARRAY_ELEMENT16 := 0x1800.
Definition NV097_ARRAY_ELEMENT32 := 0x1808.
Definition NV097_DRAW_ARRAYS := 0x1810.
Definition NV097_DRAW_ARRAYS_COUNT := 0xFF000000.
Definition NV097_DRAW_ARRAYS_START_INDEX := 0xFFFFFF.
Definition NV097_INLINE_ARRAY := 0x1818.
Definition NV097_SET_EYE_VECTOR := 0x181C.
Definition NV097_SET_VERTEX_DATA2F_M := 0x1880.
Definition NV097_SET_VERTEX_DATA4F_M := 0x1A00.
Definition NV097_SET_VERTEX_DATA2S := 0x1900.
Definition NV097_SET_VERTEX_DATA4UB := 0x1940.
Definition NV097_SET_VERTEX_DATA4S_M := 0x1980.
Definition NV097_SET_TEXTURE_OFFSET := 0x1B00.
Definition NV097_SET_TEXTURE_FORMAT := 0x1B04.
Definition NV097_SET_TEXTURE_FORMAT_CONTEXT_DMA := 3.
Definition NV097_SET_TEXTURE_FORMAT_CUBEMAP_ENABLE := 4.
Definition NV097_SET_TEXTURE_FORMAT_BORDER_SOURCE := 8.
Definition NV097_SET_TEXTURE_FORMAT_DIMENSIONALITY := 0xF0.
Definition NV097_SET_TEXTURE_FORMAT_COLOR := 0xFF00.
Definition NV097_SET_TEXTURE_FORMAT_COLOR_SZ_Y8 := 0.
Definition NV097_SET_TEXTURE_FORMAT_COLOR_SZ_AY8 := 1.
Definition NV097_SET_TEXTURE_FORMAT_COLOR_SZ_A1R5G5B5 := 2.
Definition NV097_SET_TEXTURE_FORMAT_COLOR_SZ_X1R5G5B5 := 3.
Definition NV097_SET_TEXTURE_FORMAT_COLOR_SZ_A4R4G4B4 := 4.
Definition NV097_SET_TEXTURE_FORMAT_COLOR_SZ_R5G6B5 := 5.
Definition NV097_SET_TEXTURE_FORMAT_COLOR_SZ_A8R8G8B8 := 6.
Definition NV097_SET_TEXTURE_FORMAT_COLOR_SZ_X8R8G8B8 := 7.
Definition NV097_SET_TEXTURE_FORMAT_COLOR_SZ_I8_A8R8G8B8 := 0xB.
Definition NV097_SET_TEXTURE_FORMAT_COLOR_L_DXT1_A1R5G5B5 := 0xC.
Definition NV097_SET_TEXTURE_FORMAT_COLOR_L_DXT23_A8R8G8B8 := 0xE.
Definition NV097_SET_TEXTURE_FORMAT_COLOR_L_DXT45_A8R8G8B8 := 0xF.
Definition NV097_SET_TEXTURE_FORMAT_COLOR_LU_IMAGE_A1R5G5B5 := 0x10.
Definition NV097_SET_TEXTURE_FORMAT_COLOR_LU_IMAGE_R5G6B5 := 0x11.
Definition NV097_SET_TEXTURE_FORMAT_COLOR_LU_IMAGE_A8R8G8B8 := 0x12.
Definition NV097_SET_TEXTURE_FORMAT_COLOR_LU_IMAGE_Y8 := 0x13.
Definition NV097_SET_TEXTURE_FORMAT_COLOR_SZ_A8 := 0x19.
Definition NV097_SET_TEXTURE_FORMAT_COLOR_SZ_A8Y8 := 0x1A.
Definition NV097_SET_TEXTURE_FORMAT_COLOR_LU_IMAGE_AY8 := 0x1B.
Definition NV097_SET_TEXTURE_FORMAT_COLOR_LU_IMAGE_X1R5G5B5 := 0x1C.
Definition NV097_SET_TEXTURE_FORMAT_COLOR_LU_IMAGE_A4R4G4B4 := 0x1D.
Definition NV097_SET_TEXTURE_FORMAT_COLOR_LU_IMAGE_X8R8G8B8 := 0x1E.
Definition NV097_SET_TEXTURE_FORMAT_COLOR_LU_IMAGE_A8 := 0x1F.
Definition NV097_SET_TEXTURE_FORMAT_COLOR_LU_IMAGE_A8Y8 := 0x20.
Definition NV097_SET_TEXTURE_FORMAT_COLOR_LC_IMAGE_CR8YB8CB8YA8 := 0x24.
Definition NV097_SET_TEXTURE_FORMAT_COLOR_SZ_R6G5B5 := 0x27.
Definition NV097_SET_TEXTURE_FORMAT_COLOR_SZ_G8B8 := 0x28.
Definition NV097_SET_TEXTURE_FORMAT_COLOR_SZ_R8B8 := 0x29.
Definition NV097_SET_TEXTURE_FORMAT_COLOR_LU_IMAGE_DEPTH_X8_Y24_FIXED := 0x2E.
Definition NV097_SET_TEXTURE_FORMAT_COLOR_LU_IMAGE_DEPTH_Y16_FIXED := 0x30.
Definition NV097_SET_TEXTURE_FORMAT_COLOR_LU_IMAGE_Y16 := 0x35.
Definition NV097_SET_TEXTURE_FORMAT_COLOR_SZ_A8B8G8R8 := 0x3A.
Definition NV097_SET_TEXTURE_FORMAT_COLOR_SZ_R8G8B8A8 := 0x3C.
Definition NV097_SET_TEXTURE_FORMAT_COLOR_LU_IMAGE_A8B8G8R8 := 0x3F.
Definition NV097_SET_TEXTURE_FORMAT_COLOR_LU_IMAGE_B8G8R8A8 := 0x40.
Definition NV097_SET_TEXTURE_FORMAT_COLOR_LU_IMAGE_R8G8B8A8 := 0x41.
Definition NV097_SET_TEXTURE_FORMAT_MIPMAP_LEVELS := 0xF0000.
Definition NV097_SET_TEXTURE_FORMAT_BASE_SIZE_U := 0xF00000.
Definition NV097_SET_TEXTURE_FORMAT_BASE_SIZE_V := 0xF000000.
Definition NV097_SET_TEXTURE_FORMAT_BASE_SIZE_P := 0xF0000000.
Definition NV097_SET_TEXTURE_ADDRESS := 0x1B08.
Definition NV097_SET_TEXTURE_CONTROL0 := 0x1B0C.
Definition NV097_SET_TEXTURE_CONTROL1 := 0x1B10.
Definition NV097_SET_TEXTURE_FILTER := 0x1B14.
Definition NV097_SET_TEXTURE_IMAGE_RECT := 0x1B1C.
Definition NV097_SET_TEXTURE_PALETTE := 0x1B20.
Definition NV097_SET_TEXTURE_PALETTE_CONTEXT_DMA := 1.
Definition NV097_SET_TEXTURE_PALETTE_LENGTH := 0xC.
Definition NV097_SET_TEXTURE_PALETTE_OFFSET := 0xFFFFFFC0.
Definition NV097_SET_TEXTURE_BORDER_COLOR := 0x1B24.
Definition NV097_SET_TEXTURE_SET_BUMP_ENV_MAT := 0x1B28.
Definition NV097_SET_TEXTURE_SET_BUMP_ENV_SCALE := 0x1B38.
Definition NV097_SET_TEXTURE_SET_BUMP_ENV_OFFSET := 0x1B3C.
Definition NV097_SET_SEMAPHORE_OFFSET := 0x1D6C.
Definition NV097_BACK_END_WRITE_SEMAPHORE_RELEASE := 0x1D70.
Definition NV097_SET_ZSTENCIL_CLEAR_VALUE := 0x1D8C.
Definition NV097_SET_COLOR_CLEAR_VALUE := 0x1D90.
Definition NV097_CLEAR_SURFACE := 0x1D94.
Definition NV097_CLEAR_SURFACE_Z := 1.
Definition NV097_CLEAR_SURFACE_STENCIL := 2.
Definition NV097_CLEAR_SURFACE_COLOR := 0xF0.
Definition NV097_CLEAR_SURFACE_R := 0x10.
Definition NV097_CLEAR_SURFACE_G := 0x20.
Definition NV097_CLEAR_SURFACE_B := 0x40.
Definition NV097_CLEAR_SURFACE_A := 0x80.
Definition NV097_SET_CLEAR_RECT_HORIZONTAL := 0x1D98.
Definition NV097_SET_CLEAR_RECT_VERTICAL := 0x1D9C.
Definition NV097_SET_SPECULAR_FOG_FACTOR := 0x1E20.
Definition NV097_SET_COMBINER_COLOR_OCW := 0x1E40.
Definition NV097_SET_COMBINER_CONTROL := 0x1E60.
Definition NV097_SET_SHADOW_ZSLOPE_THRESHOLD := 0x1E68.
Definition NV097_SET_SHADER_STAGE_PROGRAM := 0x1E70.
Definition NV097_SET_SHADER_OTHER_STAGE_INPUT := 0x1E78.
Definition NV097_SET_TRANSFORM_EXECUTION_MODE := 0x1E94.
Definition NV097_SET_TRANSFORM_EXECUTION_MODE_MODE := 3.
Definition NV097_SET_TRANSFORM_EXECUTION_MODE_RANGE_MODE := 0xFFFFFFFC.
Definition NV097_SET_TRANSFORM_PROGRAM_CXT_WRITE_EN := 0x1E98.
Definition NV097_SET_TRANSFORM_PROGRAM_LOAD := 0x1E9C.
Definition NV097_SET_TRANSFORM_PROGRAM_START := 0x1EA0.
Definition NV097_SET_TRANSFORM_CONSTANT_LOAD := 0x1EA4.
Definition NV_IGRAPH_XF_XFCTX_CMAT0 := 0.
Definition NV_IGRAPH_XF_XFCTX_PMAT0 := 4.
Definition NV_IGRAPH_XF_XFCTX_MMAT0 := 8.
Definition NV_IGRAPH_XF_XFCTX_IMMAT0 := 0xC.
Definition NV_IGRAPH_XF_XFCTX_EYEP := 0x38.
Definition NV_IGRAPH_XF_XFCTX_FOG := 0x39.
Definition NV_IGRAPH_XF_XFCTX_VPSCL := 0x3A.
Definition NV_IGRAPH_XF_XFCTX_VPOFF := 0x3B.
Definition NV_IGRAPH_XF_XFCTX_TG0MAT := 0x40.
Definition NV_IGRAPH_XF_XFCTX_T0MAT := 0x44.
Definition NV_IGRAPH_XF_LTCTXA_L0_K := 0.
Definition NV_IGRAPH_XF_LTCTXA_L0_SPT := 1.
Definition NV_IGRAPH_XF_LTCTXA_EYED := 0x10.
Definition NV_IGRAPH_XF_LTCTXA_FR_AMB := 0x11.
Definition NV_IGRAPH_XF_LTCTXA_CM_COL := 0x13.
Definition NV_IGRAPH_XF_LTCTXA_FOG_K := 0x15.
Definition NV_IGRAPH_XF_LTCTXB_L0_AMB := 0.
Definition NV_IGRAPH_XF_LTCTXB_L0_DIF := 1.
Definition NV_IGRAPH_XF_LTCTXB_L0_SPC := 2.
Definition NV_IGRAPH_XF_LTCTXB_L0_BAMB := 3.
Definition NV_IGRAPH_XF_LTCTXB_L0_BDIF := 4.
Definition NV_IGRAPH_XF_LTCTXB_L0_BSPC := 5.
Definition NV_IGRAPH_XF_LTC1_r0 := 4.
Definition NV2A_VERTEX_ATTR_POSITION := 0.
Definition NV2A_VERTEX_ATTR_DIFFUSE := 3.
Definition NV2A_MAX_BATCH_LENGTH := 0x1FFFF.
Definition NV2A_VERTEXSHADER_ATTRIBUTES := 0x10.
Definition NV2A_MAX_TEXTURES := 4.
Definition NV2A_MAX_TRANSFORM_PROGRAM_LENGTH := 0x88.
Definition NV2A_MAX_LIGHTS := 8.
Definition NV2A_LTCTXA_COUNT := 0x1A.
Definition NV2A_LTCTXB_COUNT := 0x34.
Definition NV2A_LTC1_COUNT := 0x14.
Definition NV2A_CUBEMAP_FACE_ALIGNMENT := 0x80.
