(* ===== verification/Gl.v ===== *)
(** * The OpenGL interface of PGRAPH

    What src/hw/xbox/nv2a/nv2a_pgraph.c uses of OpenGL, which is not part of the sources.
    The renderer is driven by calls; they are recorded, the last one first.  What OpenGL
    answers (names of new objects, results of queries, pixels) is a function of the calls
    made so far, the class [OpenGL].  An enumerator is its name.

    A [float] is its 32 bits.  The few places where the code computes with floating-point
    numbers use the IEEE 754 operations of [SpecFloat], in single or double precision as the
    types of the source say. *)

From Stdlib Require Import Floats.SpecFloat.
From S2P Require Import Prelude.

Definition gl_enum := string.

(** [GL_ZERO] and the literal 0 are one value. *)
Definition GL_ZERO : gl_enum := "0".
Definition GL_ALWAYS : gl_enum := "GL_ALWAYS".
Definition GL_AND : gl_enum := "GL_AND".
Definition GL_AND_INVERTED : gl_enum := "GL_AND_INVERTED".
Definition GL_AND_REVERSE : gl_enum := "GL_AND_REVERSE".
Definition GL_ARRAY_BUFFER : gl_enum := "GL_ARRAY_BUFFER".
Definition GL_BACK : gl_enum := "GL_BACK".
Definition GL_BGRA : gl_enum := "GL_BGRA".
Definition GL_BLEND : gl_enum := "GL_BLEND".
Definition GL_BYTE : gl_enum := "GL_BYTE".
Definition GL_CCW : gl_enum := "GL_CCW".
Definition GL_CLAMP_TO_BORDER : gl_enum := "GL_CLAMP_TO_BORDER".
Definition GL_CLAMP_TO_EDGE : gl_enum := "GL_CLAMP_TO_EDGE".
Definition GL_CLEAR : gl_enum := "GL_CLEAR".
Definition GL_COLOR_ATTACHMENT0 : gl_enum := "GL_COLOR_ATTACHMENT0".
Definition GL_COMPRESSED_RGBA_S3TC_DXT1_EXT : gl_enum := "GL_COMPRESSED_RGBA_S3TC_DXT1_EXT".
Definition GL_COMPRESSED_RGBA_S3TC_DXT3_EXT : gl_enum := "GL_COMPRESSED_RGBA_S3TC_DXT3_EXT".
Definition GL_COMPRESSED_RGBA_S3TC_DXT5_EXT : gl_enum := "GL_COMPRESSED_RGBA_S3TC_DXT5_EXT".
Definition GL_CONSTANT_ALPHA : gl_enum := "GL_CONSTANT_ALPHA".
Definition GL_CONSTANT_COLOR : gl_enum := "GL_CONSTANT_COLOR".
Definition GL_COPY : gl_enum := "GL_COPY".
Definition GL_COPY_INVERTED : gl_enum := "GL_COPY_INVERTED".
Definition GL_CULL_FACE : gl_enum := "GL_CULL_FACE".
Definition GL_CW : gl_enum := "GL_CW".
Definition GL_DECR : gl_enum := "GL_DECR".
Definition GL_DECR_WRAP : gl_enum := "GL_DECR_WRAP".
Definition GL_DEPTH24_STENCIL8 : gl_enum := "GL_DEPTH24_STENCIL8".
Definition GL_DEPTH32F_STENCIL8 : gl_enum := "GL_DEPTH32F_STENCIL8".
Definition GL_DEPTH_ATTACHMENT : gl_enum := "GL_DEPTH_ATTACHMENT".
Definition GL_DEPTH_COMPONENT : gl_enum := "GL_DEPTH_COMPONENT".
Definition GL_DEPTH_COMPONENT16 : gl_enum := "GL_DEPTH_COMPONENT16".
Definition GL_DEPTH_COMPONENT32F : gl_enum := "GL_DEPTH_COMPONENT32F".
Definition GL_DEPTH_STENCIL : gl_enum := "GL_DEPTH_STENCIL".
Definition GL_DEPTH_STENCIL_ATTACHMENT : gl_enum := "GL_DEPTH_STENCIL_ATTACHMENT".
Definition GL_DEPTH_TEST : gl_enum := "GL_DEPTH_TEST".
Definition GL_DITHER : gl_enum := "GL_DITHER".
Definition GL_DST_ALPHA : gl_enum := "GL_DST_ALPHA".
Definition GL_DST_COLOR : gl_enum := "GL_DST_COLOR".
Definition GL_DYNAMIC_DRAW : gl_enum := "GL_DYNAMIC_DRAW".
Definition GL_ELEMENT_ARRAY_BUFFER : gl_enum := "GL_ELEMENT_ARRAY_BUFFER".
Definition GL_EQUAL : gl_enum := "GL_EQUAL".
Definition GL_EQUIV : gl_enum := "GL_EQUIV".
Definition GL_FLOAT : gl_enum := "GL_FLOAT".
Definition GL_FLOAT_32_UNSIGNED_INT_24_8_REV : gl_enum := "GL_FLOAT_32_UNSIGNED_INT_24_8_REV".
Definition GL_FRAMEBUFFER : gl_enum := "GL_FRAMEBUFFER".
Definition GL_FRONT : gl_enum := "GL_FRONT".
Definition GL_FRONT_AND_BACK : gl_enum := "GL_FRONT_AND_BACK".
Definition GL_FUNC_ADD : gl_enum := "GL_FUNC_ADD".
Definition GL_FUNC_REVERSE_SUBTRACT : gl_enum := "GL_FUNC_REVERSE_SUBTRACT".
Definition GL_FUNC_SUBTRACT : gl_enum := "GL_FUNC_SUBTRACT".
Definition GL_GEQUAL : gl_enum := "GL_GEQUAL".
Definition GL_GREATER : gl_enum := "GL_GREATER".
Definition GL_GREEN : gl_enum := "GL_GREEN".
Definition GL_HALF_FLOAT : gl_enum := "GL_HALF_FLOAT".
Definition GL_INCR : gl_enum := "GL_INCR".
Definition GL_INCR_WRAP : gl_enum := "GL_INCR_WRAP".
Definition GL_INVERT : gl_enum := "GL_INVERT".
Definition GL_KEEP : gl_enum := "GL_KEEP".
Definition GL_LEQUAL : gl_enum := "GL_LEQUAL".
Definition GL_LESS : gl_enum := "GL_LESS".
Definition GL_LINEAR : gl_enum := "GL_LINEAR".
Definition GL_LINEAR_MIPMAP_LINEAR : gl_enum := "GL_LINEAR_MIPMAP_LINEAR".
Definition GL_LINEAR_MIPMAP_NEAREST : gl_enum := "GL_LINEAR_MIPMAP_NEAREST".
Definition GL_MAX : gl_enum := "GL_MAX".
Definition GL_MAX_VERTEX_ATTRIBS : gl_enum := "GL_MAX_VERTEX_ATTRIBS".
Definition GL_MIN : gl_enum := "GL_MIN".
Definition GL_MIRRORED_REPEAT : gl_enum := "GL_MIRRORED_REPEAT".
Definition GL_NAND : gl_enum := "GL_NAND".
Definition GL_NEAREST : gl_enum := "GL_NEAREST".
Definition GL_NEAREST_MIPMAP_LINEAR : gl_enum := "GL_NEAREST_MIPMAP_LINEAR".
Definition GL_NEAREST_MIPMAP_NEAREST : gl_enum := "GL_NEAREST_MIPMAP_NEAREST".
Definition GL_NEVER : gl_enum := "GL_NEVER".
Definition GL_NOOP : gl_enum := "GL_NOOP".
Definition GL_NOR : gl_enum := "GL_NOR".
Definition GL_NOTEQUAL : gl_enum := "GL_NOTEQUAL".
Definition GL_ONE : gl_enum := "GL_ONE".
Definition GL_ONE_MINUS_CONSTANT_ALPHA : gl_enum := "GL_ONE_MINUS_CONSTANT_ALPHA".
Definition GL_ONE_MINUS_CONSTANT_COLOR : gl_enum := "GL_ONE_MINUS_CONSTANT_COLOR".
Definition GL_ONE_MINUS_DST_ALPHA : gl_enum := "GL_ONE_MINUS_DST_ALPHA".
Definition GL_ONE_MINUS_DST_COLOR : gl_enum := "GL_ONE_MINUS_DST_COLOR".
Definition GL_ONE_MINUS_SRC_ALPHA : gl_enum := "GL_ONE_MINUS_SRC_ALPHA".
Definition GL_ONE_MINUS_SRC_COLOR : gl_enum := "GL_ONE_MINUS_SRC_COLOR".
Definition GL_OR : gl_enum := "GL_OR".
Definition GL_OR_INVERTED : gl_enum := "GL_OR_INVERTED".
Definition GL_OR_REVERSE : gl_enum := "GL_OR_REVERSE".
Definition GL_POLYGON_OFFSET_FILL : gl_enum := "GL_POLYGON_OFFSET_FILL".
Definition GL_POLYGON_OFFSET_LINE : gl_enum := "GL_POLYGON_OFFSET_LINE".
Definition GL_POLYGON_OFFSET_POINT : gl_enum := "GL_POLYGON_OFFSET_POINT".
Definition GL_QUERY_RESULT : gl_enum := "GL_QUERY_RESULT".
Definition GL_R16 : gl_enum := "GL_R16".
Definition GL_R8 : gl_enum := "GL_R8".
Definition GL_RED : gl_enum := "GL_RED".
Definition GL_REPEAT : gl_enum := "GL_REPEAT".
Definition GL_REPLACE : gl_enum := "GL_REPLACE".
Definition GL_RG : gl_enum := "GL_RG".
Definition GL_RG8 : gl_enum := "GL_RG8".
Definition GL_RG8_SNORM : gl_enum := "GL_RG8_SNORM".
Definition GL_RGB : gl_enum := "GL_RGB".
Definition GL_RGB5 : gl_enum := "GL_RGB5".
Definition GL_RGB565 : gl_enum := "GL_RGB565".
Definition GL_RGB5_A1 : gl_enum := "GL_RGB5_A1".
Definition GL_RGB8 : gl_enum := "GL_RGB8".
Definition GL_RGB8_SNORM : gl_enum := "GL_RGB8_SNORM".
Definition GL_RGBA : gl_enum := "GL_RGBA".
Definition GL_RGBA4 : gl_enum := "GL_RGBA4".
Definition GL_RGBA8 : gl_enum := "GL_RGBA8".
Definition GL_SAMPLES_PASSED : gl_enum := "GL_SAMPLES_PASSED".
Definition GL_SCISSOR_TEST : gl_enum := "GL_SCISSOR_TEST".
Definition GL_SET : gl_enum := "GL_SET".
Definition GL_SHORT : gl_enum := "GL_SHORT".
Definition GL_SRC_ALPHA : gl_enum := "GL_SRC_ALPHA".
Definition GL_SRC_ALPHA_SATURATE : gl_enum := "GL_SRC_ALPHA_SATURATE".
Definition GL_SRC_COLOR : gl_enum := "GL_SRC_COLOR".
Definition GL_STENCIL_TEST : gl_enum := "GL_STENCIL_TEST".
Definition GL_TEXTURE_1D : gl_enum := "GL_TEXTURE_1D".
Definition GL_TEXTURE_2D : gl_enum := "GL_TEXTURE_2D".
Definition GL_TEXTURE_3D : gl_enum := "GL_TEXTURE_3D".
Definition GL_TEXTURE_BASE_LEVEL : gl_enum := "GL_TEXTURE_BASE_LEVEL".
Definition GL_TEXTURE_BORDER_COLOR : gl_enum := "GL_TEXTURE_BORDER_COLOR".
Definition GL_TEXTURE_CUBE_MAP : gl_enum := "GL_TEXTURE_CUBE_MAP".
Definition GL_TEXTURE_CUBE_MAP_NEGATIVE_X : gl_enum := "GL_TEXTURE_CUBE_MAP_NEGATIVE_X".
Definition GL_TEXTURE_CUBE_MAP_NEGATIVE_Y : gl_enum := "GL_TEXTURE_CUBE_MAP_NEGATIVE_Y".
Definition GL_TEXTURE_CUBE_MAP_NEGATIVE_Z : gl_enum := "GL_TEXTURE_CUBE_MAP_NEGATIVE_Z".
Definition GL_TEXTURE_CUBE_MAP_POSITIVE_X : gl_enum := "GL_TEXTURE_CUBE_MAP_POSITIVE_X".
Definition GL_TEXTURE_CUBE_MAP_POSITIVE_Y : gl_enum := "GL_TEXTURE_CUBE_MAP_POSITIVE_Y".
Definition GL_TEXTURE_CUBE_MAP_POSITIVE_Z : gl_enum := "GL_TEXTURE_CUBE_MAP_POSITIVE_Z".
Definition GL_TEXTURE_MAG_FILTER : gl_enum := "GL_TEXTURE_MAG_FILTER".
Definition GL_TEXTURE_MAX_LEVEL : gl_enum := "GL_TEXTURE_MAX_LEVEL".
Definition GL_TEXTURE_MIN_FILTER : gl_enum := "GL_TEXTURE_MIN_FILTER".
Definition GL_TEXTURE_RECTANGLE : gl_enum := "GL_TEXTURE_RECTANGLE".
Definition GL_TEXTURE_SWIZZLE_RGBA : gl_enum := "GL_TEXTURE_SWIZZLE_RGBA".
Definition GL_TEXTURE_WRAP_R : gl_enum := "GL_TEXTURE_WRAP_R".
Definition GL_TEXTURE_WRAP_S : gl_enum := "GL_TEXTURE_WRAP_S".
Definition GL_TEXTURE_WRAP_T : gl_enum := "GL_TEXTURE_WRAP_T".
Definition GL_UNPACK_ROW_LENGTH : gl_enum := "GL_UNPACK_ROW_LENGTH".
Definition GL_UNSIGNED_BYTE : gl_enum := "GL_UNSIGNED_BYTE".
Definition GL_UNSIGNED_INT : gl_enum := "GL_UNSIGNED_INT".
Definition GL_UNSIGNED_INT_24_8 : gl_enum := "GL_UNSIGNED_INT_24_8".
Definition GL_UNSIGNED_INT_8_8_8_8 : gl_enum := "GL_UNSIGNED_INT_8_8_8_8".
Definition GL_UNSIGNED_INT_8_8_8_8_REV : gl_enum := "GL_UNSIGNED_INT_8_8_8_8_REV".
Definition GL_UNSIGNED_SHORT : gl_enum := "GL_UNSIGNED_SHORT".
Definition GL_UNSIGNED_SHORT_1_5_5_5_REV : gl_enum := "GL_UNSIGNED_SHORT_1_5_5_5_REV".
Definition GL_UNSIGNED_SHORT_4_4_4_4_REV : gl_enum := "GL_UNSIGNED_SHORT_4_4_4_4_REV".
Definition GL_UNSIGNED_SHORT_5_6_5 : gl_enum := "GL_UNSIGNED_SHORT_5_6_5".
Definition GL_XOR : gl_enum := "GL_XOR".

(** ** Calls *)

(** Data behind a pointer is passed as the list of its bytes, or of its floats. *)
Inductive gl_call :=
| glActiveTexture (unit : Z)
| glBeginQuery (target : gl_enum) (id : Z)
| glBindBuffer (target : gl_enum) (buffer : Z)
| glBindTexture (target : gl_enum) (texture : Z)
| glBlendColor (red green blue alpha : Z)
| glBlendEquation (mode : gl_enum)
| glBlendFunc (sfactor dfactor : gl_enum)
| glBindFramebuffer (target : gl_enum) (framebuffer : Z)
| glBindVertexArray (vertex_array : Z)
| glBufferData (target : gl_enum) (size : Z) (data : list Z)
| glBufferSubData (target : gl_enum) (offset size : Z) (data : list Z)
| glClear (color depth stencil : bool)
| glClearColor (red green blue alpha : Z)
| glClearDepth (depth : Z)
| glClearStencil (s : Z)
| glColorMask (red green blue alpha : bool)
| glCompressedTexImage2D (target : gl_enum) (level : Z) (internal_format : gl_enum)
    (width height border size : Z) (data : list Z)
| glCullFace (mode : gl_enum)
| glDeleteFramebuffers (framebuffer : Z)
| glDeleteQueries (ids : list Z)
| glDeleteTextures (texture : Z)
| glDepthFunc (func : gl_enum)
| glDepthMask (flag : bool)
| glDisable (cap : gl_enum)
| glDisableVertexAttribArray (index : Z)
| glDrawArrays (mode first count : Z)
| glDrawRangeElements (mode start end_ count : Z) (type : gl_enum)
| glEnable (cap : gl_enum)
| glEnableVertexAttribArray (index : Z)
| glEndQuery (target : gl_enum)
| glFramebufferTexture2D (target attachment textarget : gl_enum) (texture level : Z)
| glFrontFace (mode : gl_enum)
| glGenBuffers (buffer : Z)
| glGenFramebuffers (framebuffer : Z)
| glGenQueries (id : Z)
| glGenTextures (texture : Z)
| glGenVertexArrays (vertex_array : Z)
| glMultiDrawArrays (mode : Z) (first count : list Z)
| glPixelStorei (name : gl_enum) (param : Z)
| glPolygonOffset (factor units : Z)
| glReadPixels (x y width height : Z) (format type : gl_enum)
| glScissor (x y width height : Z)
| glStencilFunc (func : gl_enum) (ref mask : Z)
| glStencilMask (mask : Z)
| glStencilOp (fail zfail zpass : gl_enum)
| glTexImage2D (target : gl_enum) (level : Z) (internal_format : gl_enum)
    (width height border : Z) (format type : gl_enum) (data : list Z)
| glTexImage3D (target : gl_enum) (level : Z) (internal_format : gl_enum)
    (width height depth border : Z) (format type : gl_enum) (data : list Z)
| glTexParameterfv (target name : gl_enum) (params : list Z)
| glTexParameteri (target name param : gl_enum)
| glTexParameterLevel (target name : gl_enum) (level : Z)
| glTexParameteriv (target name : gl_enum) (params : list gl_enum)
| glUniform1f (loc v : Z)
| glUniform2f (loc v0 v1 : Z)
| glUniform3fv (loc : Z) (v : list Z)
| glUniform4f (loc v0 v1 v2 v3 : Z)
| glUniform4fv (loc : Z) (v : list Z)
| glUniform4i (loc v0 v1 v2 v3 : Z)
| glUniformMatrix2fv (loc : Z) (transpose : bool) (v : list Z)
| glUniformMatrix4fv (loc : Z) (transpose : bool) (v : list Z)
| glUseProgram (program : Z)
| glVertexAttrib4fv (index : Z) (v : list Z)
| glVertexAttribPointer (index : Z) (size : gl_enum + Z) (type : gl_enum) (normalized : bool)
    (stride pointer : Z)
| glViewport (x y width height : Z).

(** ** Programs and their uniforms

    The calls that concern the programs, and what a program's uniform holds: the value that
    was last stored at its location while the program was in use. *)

Definition uniform_call (c : gl_call) : option (Z * list Z) :=
  match c with
  | glUniform1f loc v => Some (loc, [v])
  | glUniform2f loc v0 v1 => Some (loc, [v0; v1])
  | glUniform3fv loc v | glUniform4fv loc v => Some (loc, v)
  | glUniform4f loc v0 v1 v2 v3 | glUniform4i loc v0 v1 v2 v3 => Some (loc, [v0; v1; v2; v3])
  | glUniformMatrix2fv loc _ v | glUniformMatrix4fv loc _ v => Some (loc, v)
  | _ => None
  end.

Definition is_program_call (c : gl_call) : bool :=
  match c with
  | glUseProgram _ => true
  | _ => match uniform_call c with Some _ => true | None => false end
  end.

Fixpoint program_calls (log : list gl_call) : list gl_call :=
  match log with
  | [] => []
  | c :: log => if is_program_call c then c :: program_calls log else program_calls log
  end.

Fixpoint in_use (log : list gl_call) : option Z :=
  match log with
  | [] => None
  | glUseProgram p :: _ => Some p
  | _ :: log => in_use log
  end.

Fixpoint uniform_value (log : list gl_call) (program loc : Z) : option (list Z) :=
  match log with
  | [] => None
  | c :: log =>
      match uniform_call c with
      | Some (l, v) =>
          if (l =? loc) && bool_decide (in_use log = Some program) then Some v
          else uniform_value log program loc
      | None => uniform_value log program loc
      end
  end.

Lemma in_use_calls log : in_use (program_calls log) = in_use log.
Proof. induction log as [| c log IH]; [done |]. by destruct c. Qed.

Lemma uniform_value_calls log program loc : uniform_value (program_calls log) program loc = uniform_value log program loc.
Proof. induction log as [| c log IH]; [done |]. by destruct c; cbn; rewrite ?IH, ?in_use_calls. Qed.

(** ** Vertex fetch

    What OpenGL reads for attribute [i] of vertex [k]: from the array if it is enabled, and
    the current value of the attribute if not.  Of the arrays only those of four packed
    floats are described. *)

Definition is_array_buffer (target : gl_enum) : bool := bool_decide (target = GL_ARRAY_BUFFER).

Fixpoint array_enabled (log : list gl_call) (i : Z) : bool :=
  match log with
  | [] => false
  | glEnableVertexAttribArray j :: log => if j =? i then true else array_enabled log i
  | glDisableVertexAttribArray j :: log => if j =? i then false else array_enabled log i
  | _ :: log => array_enabled log i
  end.

Fixpoint attrib_value (log : list gl_call) (i : Z) : list Z :=
  match log with
  | [] => []
  | glVertexAttrib4fv j v :: log => if j =? i then v else attrib_value log i
  | _ :: log => attrib_value log i
  end.

Fixpoint bound_buffer (log : list gl_call) : Z :=
  match log with
  | [] => 0
  | glBindBuffer target buf :: log => if is_array_buffer target then buf else bound_buffer log
  | _ :: log => bound_buffer log
  end.

Fixpoint buffer_data (log : list gl_call) (buf : Z) : list Z :=
  match log with
  | [] => []
  | glBufferData target _ data :: log =>
      if is_array_buffer target && (bound_buffer log =? buf) then data else buffer_data log buf
  | glBufferSubData target offset size data :: log =>
      let old := buffer_data log buf in
      if is_array_buffer target && (bound_buffer log =? buf)
      then take (Z.to_nat offset) old ++ data ++ drop (Z.to_nat (offset + size)) old else old
  | _ :: log => buffer_data log buf
  end.

(** The buffer of an array is the one that is bound when the array is set up. *)
Fixpoint attrib_pointer (log : list gl_call) (i : Z) : option ((gl_enum + Z) * gl_enum * bool * Z * Z * Z) :=
  match log with
  | [] => None
  | glVertexAttribPointer j size type norm stride pointer :: log =>
      if j =? i then Some (size, type, norm, stride, pointer, bound_buffer log) else attrib_pointer log i
  | _ :: log => attrib_pointer log i
  end.

Definition fetch (log : list gl_call) (k : nat) (i : Z) : option (list Z) :=
  if array_enabled log i then
    match attrib_pointer log i with
    | Some (inr 4, type, false, 0, 0, buf) =>
        if bool_decide (type = GL_FLOAT) then Some (take 4 (drop (4 * k) (buffer_data log buf))) else None
    | _ => None
    end
  else Some (attrib_value log i).

(** The answers: the name a new object gets, whether there is an extension, the result of a query, the pixels of
    the framebuffer (rows without padding, the lowest first), the value of a parameter, and
    whether the framebuffer is complete and no error is pending. *)
Class OpenGL := {
  gl_new_texture : list gl_call → Z;
  gl_new_query : list gl_call → Z;
  gl_new_buffer : list gl_call → Z;
  gl_new_framebuffer : list gl_call → Z;
  gl_new_vertex_array : list gl_call → Z;
  gl_has_extension : string → bool;
  gl_query_result : list gl_call → Z → Z;
  gl_pixels : list gl_call → Z → Z → gl_enum → gl_enum → list Z;
  gl_integer : list gl_call → gl_enum → Z;
  gl_framebuffer_complete : list gl_call → bool;
  gl_no_error : list gl_call → bool
}.

(** ** Floating-point numbers *)

Definition f32_digits := 24.
Definition f32_emax := 128.
Definition f64_digits := 53.
Definition f64_emax := 1024.

(** The nearest number of a format to [m * 2 ^ e]. *)
Definition f32_make (m e : Z) : spec_float := binary_normalize f32_digits f32_emax m e false.
Definition f64_make (m e : Z) : spec_float := binary_normalize f64_digits f64_emax m e false.

(** The bits of a [float], and the [float] of 32 bits; every NaN is the quiet one. *)
Definition f32_bits (f : spec_float) : Z :=
  match f with
  | S754_zero s => if s then 0x80000000 else 0
  | S754_infinity s => (if s then 0x80000000 else 0) + 0x7F800000
  | S754_nan => 0x7FC00000
  | S754_finite s m e =>
      (if s then 0x80000000 else 0) +
      (if Z.pos m <? 2 ^ 23 then Z.pos m else (e + 150) * 2 ^ 23 + (Z.pos m - 2 ^ 23))
  end.

Definition f32_of_bits (b : Z) : spec_float :=
  let s := Z.testbit b 31 in
  let e := (b .>> 23) .& 0xFF in
  let m := b .& 0x7FFFFF in
  if e =? 0 then match m with Z.pos p => S754_finite s p (-149) | _ => S754_zero s end
  else if e =? 255 then if m =? 0 then S754_infinity s else S754_nan
  else match m + 2 ^ 23 with Z.pos p => S754_finite s p (e - 150) | _ => S754_nan end.

(** Conversions between the formats; to [double] is exact. *)
Definition f32_of_f64 (f : spec_float) : spec_float :=
  match f with
  | S754_finite s m e => binary_normalize f32_digits f32_emax (if s then Z.neg m else Z.pos m) e s
  | _ => f
  end.

Definition f64_of_f32 (f : spec_float) : spec_float :=
  match f with
  | S754_finite s m e => binary_normalize f64_digits f64_emax (if s then Z.neg m else Z.pos m) e s
  | _ => f
  end.

(** [(float)n], [n / d] with a [float] and with a [double] divisor, converted to [float]. *)
Definition float_of_int (n : Z) : Z := f32_bits (f32_make n 0).

Definition div_f (n d : Z) : Z :=
  f32_bits (SFdiv f32_digits f32_emax (f32_make n 0) (f32_make d 0)).

Definition div_d (n d : Z) : Z :=
  f32_bits (f32_of_f64 (SFdiv f64_digits f64_emax (f64_make n 0) (f64_make d 0))).

Definition float_0 := 0.
Definition float_1 := 0x3F800000.

(** A channel of eight bits, as a [float] from 0 to 1: [v / 255.0f]. *)
Definition channel (v : Z) (shift : Z) : Z := div_f ((v .>> shift) .& 0xFF) 255.
