(* ===== verification/GlImage.v ===== *)
(** * Images and framebuffers of OpenGL

    What the specification of OpenGL says of the images of textures, the attachments of a
    framebuffer and the storage of pixels in memory, as functions of the calls made so far
    (the last one first, see Gl.v).  It is used to say what reading pixels back returns.

    An image is known from the call that stored it to the next draw into it.  Of the
    conversions between pixels in memory and an internal format only those are described
    that keep every bit. *)

From S2P Require Import Prelude Gl.

Definition GL_PACK_ROW_LENGTH : gl_enum := "GL_PACK_ROW_LENGTH".
Definition GL_PACK_ALIGNMENT : gl_enum := "GL_PACK_ALIGNMENT".
Definition GL_UNPACK_ALIGNMENT : gl_enum := "GL_UNPACK_ALIGNMENT".

(** ** Pixels in memory *)

(** A parameter of the pixel storage; the alignments are 4 at first, the others 0. *)
Fixpoint pixel_store (log : list gl_call) (name : gl_enum) : Z :=
  match log with
  | [] => if bool_decide (name = GL_PACK_ALIGNMENT ∨ name = GL_UNPACK_ALIGNMENT) then 4 else 0
  | glPixelStorei n v :: log => if bool_decide (n = name) then v else pixel_store log name
  | _ :: log => pixel_store log name
  end.

(** The distance of two rows in memory: a row has as many pixels as the row length says, the
    width if that is 0, and starts at a multiple of the alignment. *)
Definition row_stride (log : list gl_call) (row_length alignment : gl_enum) (w bpp : Z) : Z :=
  let l := pixel_store log row_length in
  let n := (if l =? 0 then w else l) * bpp in
  let a := pixel_store log alignment in
  (n + a - 1) / a * a.

(** The rows of [h] rows of [n] bytes that start [stride] apart, without what is between. *)
Definition tight_rows (stride n h : Z) (data : list Z) : list Z :=
  concat ((λ r, take (Z.to_nat n) (drop (Z.to_nat (stride * r)) data)) <$> seqZ 0 h).

(** The pixels of an image given in memory, [None] if the memory ends before the image. *)
Definition unpacked (log : list gl_call) (w h bpp : Z) (data : list Z) : option (list Z) :=
  let stride := row_stride log GL_UNPACK_ROW_LENGTH GL_UNPACK_ALIGNMENT w bpp in
  if stride * (h - 1) + w * bpp <=? Z.of_nat (length data)
  then Some (tight_rows stride (w * bpp) h data) else None.

(** The formats of pixels that an internal format keeps to the bit, with the size of a pixel. *)
Definition lossless (internal fmt typ : gl_enum) : option Z :=
  let kept i f t := bool_decide (internal = i ∧ fmt = f ∧ typ = t) in
  if kept GL_RGB5_A1 GL_BGRA GL_UNSIGNED_SHORT_1_5_5_5_REV then Some 2
  else if kept GL_RGB565 GL_RGB GL_UNSIGNED_SHORT_5_6_5 then Some 2
  else if kept GL_RGBA8 GL_BGRA GL_UNSIGNED_INT_8_8_8_8_REV then Some 4
  else if kept GL_DEPTH_COMPONENT16 GL_DEPTH_COMPONENT GL_UNSIGNED_SHORT then Some 2
  else if kept GL_DEPTH24_STENCIL8 GL_DEPTH_STENCIL GL_UNSIGNED_INT_24_8 then Some 4
  else None.

(** ** Bindings *)

Definition is_texture_2d (target : gl_enum) : bool := bool_decide (target = GL_TEXTURE_2D).
Definition is_framebuffer (target : gl_enum) : bool := bool_decide (target = GL_FRAMEBUFFER).

Fixpoint active_unit (log : list gl_call) : Z :=
  match log with
  | [] => 0
  | glActiveTexture unit :: _ => unit
  | _ :: log => active_unit log
  end.

(** The two-dimensional texture of a unit; a texture that is deleted is no longer bound. *)
Fixpoint unit_texture (log : list gl_call) (unit : Z) : Z :=
  match log with
  | [] => 0
  | glBindTexture target t :: log =>
      if is_texture_2d target && (active_unit log =? unit) then t else unit_texture log unit
  | glDeleteTextures t :: log => if unit_texture log unit =? t then 0 else unit_texture log unit
  | _ :: log => unit_texture log unit
  end.

Definition bound_texture (log : list gl_call) : Z := unit_texture log (active_unit log).

Fixpoint bound_framebuffer (log : list gl_call) : Z :=
  match log with
  | [] => 0
  | glBindFramebuffer target fb :: log => if is_framebuffer target then fb else bound_framebuffer log
  | glDeleteFramebuffers fb :: log => if bound_framebuffer log =? fb then 0 else bound_framebuffer log
  | _ :: log => bound_framebuffer log
  end.

(** ** Attachments *)

Inductive attachment_point := PointColor | PointDepth | PointStencil.

Definition attaches (attachment : gl_enum) (p : attachment_point) : bool :=
  match p with
  | PointColor => bool_decide (attachment = GL_COLOR_ATTACHMENT0)
  | PointDepth => bool_decide (attachment = GL_DEPTH_ATTACHMENT ∨ attachment = GL_DEPTH_STENCIL_ATTACHMENT)
  | PointStencil => bool_decide (attachment = GL_DEPTH_STENCIL_ATTACHMENT)
  end.

(** The texture at a point of a framebuffer; texture 0 detaches, and a texture that is
    deleted is detached from the framebuffer that is bound. *)
Fixpoint attached (log : list gl_call) (fb : Z) (p : attachment_point) : option Z :=
  match log with
  | [] => None
  | glFramebufferTexture2D target attachment _ t _ :: log =>
      if is_framebuffer target && (bound_framebuffer log =? fb) && attaches attachment p
      then (if t =? 0 then None else Some t) else attached log fb p
  | glDeleteTextures t :: log =>
      if (bound_framebuffer log =? fb) && bool_decide (attached log fb p = Some t) then None else attached log fb p
  | glDeleteFramebuffers fb' :: log => if fb' =? fb then None else attached log fb p
  | _ :: log => attached log fb p
  end.

(** ** Images *)

(** An image of a texture, with the format that it was given in; the pixels are [None] where
    they are not known. *)
Record tex_image := Image {
  image_width : Z;
  image_height : Z;
  image_format : gl_enum;
  image_type : gl_enum;
  image_pixels : option (list Z)
}.

Definition drawn_to (i : tex_image) : tex_image :=
  Image (image_width i) (image_height i) (image_format i) (image_type i) None.

Definition renders (c : gl_call) : bool :=
  match c with
  | glClear _ _ _ | glDrawArrays _ _ _ | glDrawRangeElements _ _ _ _ _ | glMultiDrawArrays _ _ _ => true
  | _ => false
  end.

(** A texture is drawn to if it is attached to the framebuffer that is bound. *)
Definition is_target (log : list gl_call) (t : Z) : bool :=
  existsb (λ p, bool_decide (attached log (bound_framebuffer log) p = Some t)) [PointColor; PointDepth; PointStencil].

(** The image of level 0. *)
Fixpoint texture_image (log : list gl_call) (t : Z) : option tex_image :=
  match log with
  | [] => None
  | c :: log =>
      match c with
      | glTexImage2D target level internal w h _ fmt typ data =>
          if is_texture_2d target && (level =? 0) && (bound_texture log =? t)
          then Some (Image w h fmt typ (bpp ← lossless internal fmt typ; unpacked log w h bpp data))
          else texture_image log t
      | glCompressedTexImage2D target level _ _ _ _ _ _ =>
          if is_texture_2d target && (level =? 0) && (bound_texture log =? t) then None else texture_image log t
      | glDeleteTextures t' => if t' =? t then None else texture_image log t
      | _ => if renders c && is_target log t then drawn_to <$> texture_image log t else texture_image log t
      end
  end.

(** The image that pixels of a format are read from: colours from the first colour
    attachment, depth and stencil from the one that has both. *)
Definition read_image (log : list gl_call) (fmt : gl_enum) : option tex_image :=
  let fb := bound_framebuffer log in
  if fb =? 0 then None
  else if bool_decide (fmt = GL_DEPTH_COMPONENT) then attached log fb PointDepth ≫= texture_image log
  else if bool_decide (fmt = GL_DEPTH_STENCIL) then
    d ← attached log fb PointDepth;
    s ← attached log fb PointStencil;
    if d =? s then texture_image log d else None
  else attached log fb PointColor ≫= texture_image log.

(** What the renderer answers: a new texture has a name other than 0; an error stays until it
    is asked for, which the code does only to stop on it; and pixels that are read without an
    error, in the format of the image and over all of it, are those of the image. *)
Class OpenGLReads `{OpenGL} := {
  new_texture_named log : gl_new_texture log ≠ 0;
  error_stays c log : gl_no_error (c :: log) = true → gl_no_error log = true;
  pixels_read log w h fmt typ data : gl_no_error (glReadPixels 0 0 w h fmt typ :: log) = true →
    read_image log fmt = Some (Image w h fmt typ (Some data)) →
    gl_pixels (glReadPixels 0 0 w h fmt typ :: log) w h fmt typ = data
}.

(** ** Rows without a gap *)

Lemma row_stride_tight log row_length alignment w bpp : pixel_store log row_length = 0 →
  0 < pixel_store log alignment → (w * bpp) mod pixel_store log alignment = 0 →
  row_stride log row_length alignment w bpp = w * bpp.
Proof.
  intros L A M. unfold row_stride. rewrite L, Z.eqb_refl. set (a := pixel_store log alignment) in *.
  apply Z.mod_divide in M as [k E]; [| lia]. rewrite E.
  replace (k * a + a - 1) with (a - 1 + k * a) by lia. rewrite Z.div_add, Z.div_small by lia. lia.
Qed.

Lemma tight_rows_all n h data : 0 ≤ n → Z.of_nat (length data) = n * h → 0 ≤ h → tight_rows n n h data = data.
Proof.
  intros Hn L Hh. unfold tight_rows.
  assert (∀ k : nat, concat ((λ r, take (Z.to_nat n) (drop (Z.to_nat (n * r)) data)) <$> seqZ 0 (Z.of_nat k)) =
    take (Z.to_nat (n * Z.of_nat k)) data) as P.
  { induction k as [| k IH]; [by rewrite Z.mul_0_r |].
    rewrite seqZ_S, fmap_app, concat_app, IH. cbn [fmap list_fmap concat]. rewrite app_nil_r, Z.add_0_l.
    replace (Z.to_nat (n * Z.of_nat (S k))) with (Z.to_nat (n * Z.of_nat k) + Z.to_nat n)%nat by lia.
    by rewrite take_take_drop. }
  specialize (P (Z.to_nat h)). rewrite Z2Nat.id in P by done. rewrite P. apply take_ge. lia.
Qed.

Lemma unpacked_tight log w h bpp data : pixel_store log GL_UNPACK_ROW_LENGTH = 0 →
  0 < pixel_store log GL_UNPACK_ALIGNMENT → (w * bpp) mod pixel_store log GL_UNPACK_ALIGNMENT = 0 →
  0 ≤ w * bpp → 0 ≤ h → Z.of_nat (length data) = w * bpp * h → unpacked log w h bpp data = Some data.
Proof.
  intros L A M Hn Hh E. unfold unpacked. cbv zeta. rewrite row_stride_tight by done.
  rewrite (proj2 (Z.leb_le _ _)) by lia. by rewrite tight_rows_all.
Qed.
