(* ===== verification/PgraphState.v ===== *)
(** * The state of PGRAPH

    The structures of src/hw/xbox/nv2a/nv2a_int.h behind the methods of nv2a_pgraph.c.  The
    registers, the interrupts and the shader constants of PGRAPH are in [NV2AState]; the other
    fields of [PGRAPHState] are here, grouped by the part of the code that uses them.

    An array of flags is the set of the indices that are set.  A pointer to a binding is a
    number that is not used again; what it points to is in a heap.  Names that occur in
    several structures of the source carry a prefix. *)

From S2P Require Import Prelude Bytes Fields Swizzle Lru Nv2a PgraphRegs Gl.

Definition VSH_TOKEN_SIZE := 4.
Definition TARGET_PAGE_BITS := 12.


Record ContextSurfaces2DState := Surfaces2D {
  s2d_object_instance : Z;
  dma_image_source : Z;
  dma_image_dest : Z;
  s2d_color_format : Z;
  source_pitch : Z;
  dest_pitch : Z;
  source_offset : Z;
  dest_offset : Z
}.

#[global] Instance ContextSurfaces2DState_eta : Eta ContextSurfaces2DState := λ x,
  Surfaces2D (s2d_object_instance x) (dma_image_source x) (dma_image_dest x) (s2d_color_format x)
    (source_pitch x) (dest_pitch x) (source_offset x) (dest_offset x).

Record ImageBlitState := ImageBlit {
  blit_object_instance : Z;
  context_surfaces : Z;
  operation : Z;
  in_x : Z;
  in_y : Z;
  out_x : Z;
  out_y : Z;
  blit_width : Z;
  blit_height : Z
}.

#[global] Instance ImageBlitState_eta : Eta ImageBlitState := λ x,
  ImageBlit (blit_object_instance x) (context_surfaces x) (operation x) (in_x x) (in_y x)
    (out_x x) (out_y x) (blit_width x) (blit_height x).

(** The objects for memory access; [KelvinState] is one number. *)
Record Contexts := Ctxs {
  kelvin_object_instance : Z;
  dma_color : Z;
  dma_zeta : Z;
  dma_a : Z;
  dma_b : Z;
  dma_state : Z;
  dma_notifies : Z;
  dma_semaphore : Z;
  dma_report : Z;
  dma_vertex_a : Z;
  dma_vertex_b : Z
}.

#[global] Instance Contexts_eta : Eta Contexts := λ x,
  Ctxs (kelvin_object_instance x) (dma_color x) (dma_zeta x) (dma_a x) (dma_b x) (dma_state x)
    (dma_notifies x) (dma_semaphore x) (dma_report x) (dma_vertex_a x) (dma_vertex_b x).

Record Surface := Surf {
  draw_dirty : bool;
  buffer_dirty : bool;
  write_enabled_cache : bool;
  surface_pitch : Z;
  surface_offset : Z
}.

#[global] Instance Surface_eta : Eta Surface := λ x,
  Surf (draw_dirty x) (buffer_dirty x) (write_enabled_cache x) (surface_pitch x)
    (surface_offset x).

Record SurfaceShape := Shape {
  z_format : Z;
  color_format : Z;
  zeta_format : Z;
  log_width : Z;
  log_height : Z;
  clip_x : Z;
  clip_y : Z;
  clip_width : Z;
  clip_height : Z;
  anti_aliasing : Z
}.

#[global] Instance SurfaceShape_eta : Eta SurfaceShape := λ x,
  Shape (z_format x) (color_format x) (zeta_format x) (log_width x) (log_height x) (clip_x x)
    (clip_y x) (clip_width x) (clip_height x) (anti_aliasing x).

#[global] Instance SurfaceShape_eq_dec : EqDecision SurfaceShape.
Proof. solve_decision. Defined.


Record Surfaces := Surfs {
  surface_color : Surface;
  surface_zeta : Surface;
  surface_type : Z;
  surface_shape : SurfaceShape;
  last_surface_shape : SurfaceShape;
  gl_color_buffer : Z;
  gl_zeta_buffer : Z;
  gl_framebuffer : Z
}.

#[global] Instance Surfaces_eta : Eta Surfaces := λ x,
  Surfs (surface_color x) (surface_zeta x) (surface_type x) (surface_shape x)
    (last_surface_shape x) (gl_color_buffer x) (gl_zeta_buffer x) (gl_framebuffer x).

Record TextureShape := TexShape {
  cubemap : bool;
  dimensionality : Z;
  tex_color_format : Z;
  levels : Z;
  width : Z;
  height : Z;
  depth : Z;
  min_mipmap_level : Z;
  max_mipmap_level : Z;
  tex_pitch : Z
}.

#[global] Instance TextureShape_eta : Eta TextureShape := λ x,
  TexShape (cubemap x) (dimensionality x) (tex_color_format x) (levels x) (width x) (height x)
    (depth x) (min_mipmap_level x) (max_mipmap_level x) (tex_pitch x).

#[global] Instance TextureShape_eq_dec : EqDecision TextureShape.
Proof. solve_decision. Defined.


Record TextureBinding := Binding {
  gl_target : gl_enum;
  gl_texture : Z;
  refcnt : Z
}.

#[global] Instance TextureBinding_eta : Eta TextureBinding := λ x,
  Binding (gl_target x) (gl_texture x) (refcnt x).

(** The object of the texture cache; the pointers into the video memory are addresses. *)
Record TextureKey := Key {
  key_state : TextureShape;
  texture_data : Z;
  palette_data : Z;
  key_binding : option Z
}.

#[global] Instance TextureKey_eta : Eta TextureKey := λ x,
  Key (key_state x) (texture_data x) (palette_data x) (key_binding x).

(** [bindings] is the heap of the bindings, [next_binding] the next pointer to hand out. *)
Record Textures := Texs {
  texture_dirty : gset Z;
  texture_binding : gmap Z Z;
  texture_matrix_enable : gset Z;
  bump_env_matrix : mem;
  texture_cache : lru TextureKey;
  bindings : gmap Z TextureBinding;
  next_binding : Z
}.

#[global] Instance Textures_eta : Eta Textures := λ x,
  Texs (texture_dirty x) (texture_binding x) (texture_matrix_enable x) (bump_env_matrix x)
    (texture_cache x) (bindings x) (next_binding x).

Record PshState := Psh {
  combiner_control : Z;
  shader_stage_program : Z;
  other_stage_input : Z;
  final_inputs_0 : Z;
  final_inputs_1 : Z;
  rgb_inputs : list Z;
  rgb_outputs : list Z;
  alpha_inputs : list Z;
  alpha_outputs : list Z;
  rect_tex : list bool;
  compare_mode : list (list bool);
  alphakill : list bool;
  alpha_test : bool;
  alpha_func : Z;
  window_clip_exclusive : bool;
  window_clip_count : Z
}.

#[global] Instance PshState_eta : Eta PshState := λ x,
  Psh (combiner_control x) (shader_stage_program x) (other_stage_input x) (final_inputs_0 x)
    (final_inputs_1 x) (rgb_inputs x) (rgb_outputs x) (alpha_inputs x) (alpha_outputs x)
    (rect_tex x) (compare_mode x) (alphakill x) (alpha_test x) (alpha_func x)
    (window_clip_exclusive x) (window_clip_count x).

Record ShaderState := ShState {
  psh : PshState;
  sh_texture_matrix_enable : list bool;
  texgen : list (list Z);
  fog_enable : bool;
  foggen : Z;
  fog_mode : Z;
  skinning : Z;
  normalization : bool;
  emission_src : Z;
  ambient_src : Z;
  diffuse_src : Z;
  specular_src : Z;
  lighting : bool;
  light : list Z;
  fixed_function : bool;
  vertex_program : bool;
  sh_program_data : list (list Z);
  program_length : Z;
  z_perspective : bool;
  polygon_front_mode : Z;
  polygon_back_mode : Z;
  sh_primitive_mode : Z
}.

#[global] Instance ShaderState_eta : Eta ShaderState := λ x,
  ShState (psh x) (sh_texture_matrix_enable x) (texgen x) (fog_enable x) (foggen x) (fog_mode x)
    (skinning x) (normalization x) (emission_src x) (ambient_src x) (diffuse_src x)
    (specular_src x) (lighting x) (light x) (fixed_function x) (vertex_program x)
    (sh_program_data x) (program_length x) (z_perspective x) (polygon_front_mode x)
    (polygon_back_mode x) (sh_primitive_mode x).

#[global] Instance PshState_eq_dec : EqDecision PshState.
Proof. solve_decision. Defined.
#[global] Instance ShaderState_eq_dec : EqDecision ShaderState.
Proof. solve_decision. Defined.


(** The locations of the uniforms of a program; an array is a function of the index. *)
Record ShaderBinding := ShBinding {
  gl_program : Z;
  gl_primitive_mode : Z;
  psh_constant_loc : Z → Z → Z;
  alpha_ref_loc : Z;
  bump_mat_loc : Z → Z;
  bump_scale_loc : Z → Z;
  bump_offset_loc : Z → Z;
  surface_size_loc : Z;
  clip_range_loc : Z;
  vsh_constant_loc : Z → Z;
  inv_viewport_loc : Z;
  ltctxa_loc : Z → Z;
  ltctxb_loc : Z → Z;
  ltc1_loc : Z → Z;
  fog_color_loc : Z;
  fog_param_loc : Z → Z;
  light_infinite_half_vector_loc : Z → Z;
  light_infinite_direction_loc : Z → Z;
  light_local_position_loc : Z → Z;
  light_local_attenuation_loc : Z → Z;
  clip_region_loc : Z → Z
}.

#[global] Instance ShaderBinding_eta : Eta ShaderBinding := λ x,
  ShBinding (gl_program x) (gl_primitive_mode x) (psh_constant_loc x) (alpha_ref_loc x)
    (bump_mat_loc x) (bump_scale_loc x) (bump_offset_loc x) (surface_size_loc x)
    (clip_range_loc x) (vsh_constant_loc x) (inv_viewport_loc x) (ltctxa_loc x) (ltctxb_loc x)
    (ltc1_loc x) (fog_color_loc x) (fog_param_loc x) (light_infinite_half_vector_loc x)
    (light_infinite_direction_loc x) (light_local_position_loc x) (light_local_attenuation_loc x)
    (clip_region_loc x).

(** Programs and constants.  Rows of four words, or of three for the lights; the vertex
    shader constants themselves are in [NV2AState].  The cache maps a state to the pointer of
    its binding. *)
Record Shaders := Shs {
  shader_cache : list (ShaderState * Z);
  shader_bindings : gmap Z ShaderBinding;
  shader_binding : option Z;
  primitive_mode : Z;
  enable_vertex_program_write : bool;
  program_data : mem;
  vsh_constants_dirty : gset Z;
  ltctxa : mem;
  ltctxa_dirty : gset Z;
  ltctxb : mem;
  ltctxb_dirty : gset Z;
  ltc1 : mem;
  ltc1_dirty : gset Z;
  light_infinite_half_vector : mem;
  light_infinite_direction : mem;
  light_local_position : mem;
  light_local_attenuation : mem
}.

#[global] Instance Shaders_eta : Eta Shaders := λ x,
  Shs (shader_cache x) (shader_bindings x) (shader_binding x) (primitive_mode x)
    (enable_vertex_program_write x) (program_data x) (vsh_constants_dirty x) (ltctxa x)
    (ltctxa_dirty x) (ltctxb x) (ltctxb_dirty x) (ltc1 x) (ltc1_dirty x)
    (light_infinite_half_vector x) (light_infinite_direction x) (light_local_position x)
    (light_local_attenuation x).

(** [inline_buffer] has four floats for each vertex. *)
Record VertexAttribute := Attribute {
  attr_dma_select : bool;
  attr_offset : Z;
  inline_array_offset : Z;
  inline_value : list Z;
  attr_format : Z;
  attr_size : Z;
  attr_count : Z;
  attr_stride : Z;
  needs_conversion : bool;
  converted_buffer : option mem;
  converted_elements : Z;
  converted_size : Z;
  converted_count : Z;
  inline_buffer : option (gmap Z (list Z));
  gl_count : gl_enum + Z;
  gl_type : gl_enum;
  gl_normalize : bool;
  gl_converted_buffer : Z;
  gl_inline_buffer : Z
}.

#[global] Instance VertexAttribute_eta : Eta VertexAttribute := λ x,
  Attribute (attr_dma_select x) (attr_offset x) (inline_array_offset x) (inline_value x)
    (attr_format x) (attr_size x) (attr_count x) (attr_stride x) (needs_conversion x)
    (converted_buffer x) (converted_elements x) (converted_size x) (converted_count x)
    (inline_buffer x) (gl_count x) (gl_type x) (gl_normalize x) (gl_converted_buffer x)
    (gl_inline_buffer x).

(** What was submitted since the last [SET_BEGIN_END]. *)
Record Batch := Bat {
  vertex_attributes : list VertexAttribute;
  inline_array_length : Z;
  inline_array : mem;
  inline_elements_length : Z;
  inline_elements : mem;
  inline_buffer_length : Z;
  draw_arrays_length : Z;
  draw_arrays_max_count : Z;
  gl_draw_arrays_start : mem;
  gl_draw_arrays_count : mem;
  gl_inline_array_buffer : Z;
  gl_element_buffer : Z;
  gl_memory_buffer : Z;
  gl_vertex_array : Z
}.

#[global] Instance Batch_eta : Eta Batch := λ x,
  Bat (vertex_attributes x) (inline_array_length x) (inline_array x) (inline_elements_length x)
    (inline_elements x) (inline_buffer_length x) (draw_arrays_length x) (draw_arrays_max_count x)
    (gl_draw_arrays_start x) (gl_draw_arrays_count x) (gl_inline_array_buffer x)
    (gl_element_buffer x) (gl_memory_buffer x) (gl_vertex_array x).

Record Report := Rep {
  zpass_pixel_count_enable : bool;
  zpass_pixel_count_result : Z;
  gl_zpass_pixel_count_queries : list Z
}.

#[global] Instance Report_eta : Eta Report := λ x,
  Rep (zpass_pixel_count_enable x) (zpass_pixel_count_result x) (gl_zpass_pixel_count_queries x).

Record PGRAPHState := Pgraph {
  context_surfaces_2d : ContextSurfaces2DState;
  image_blit : ImageBlitState;
  contexts : Contexts;
  surfaces : Surfaces;
  textures : Textures;
  shaders : Shaders;
  batch : Batch;
  report : Report
}.

#[global] Instance PGRAPHState_eta : Eta PGRAPHState := λ x,
  Pgraph (context_surfaces_2d x) (image_blit x) (contexts x) (surfaces x) (textures x) (shaders x)
    (batch x) (report x).

(** What the thread that runs a method waits for before it goes on. *)
Inductive waits := Running | AwaitNotify | AwaitFlip | AwaitSwitch | AwaitAccess.


(** The device, PGRAPH, the calls of OpenGL so far (the last first), the pages of the video
    memory that are dirty for PGRAPH and for the display, and what the method waits for. *)
Record Gpu (V : Type) := GPU {
  nv : NV2AState V;
  pg : PGRAPHState;
  gl : list gl_call;
  nv2a_dirty : gset Z;
  vga_dirty : gset Z;
  waiting : waits
}.
Arguments GPU {V}.
Arguments nv {V}.
Arguments pg {V}.
Arguments gl {V}.
Arguments nv2a_dirty {V}.
Arguments vga_dirty {V}.
Arguments waiting {V}.

#[global] Instance Gpu_eta {V} : Eta (Gpu V) := λ x,
  GPU (nv x) (pg x) (gl x) (nv2a_dirty x) (vga_dirty x) (waiting x).

(** ** Access to the parts *)

Section access.
Context {V : Type}.
Implicit Types g : Gpu V.

Definition reg g (r : Z) : Z := rd (pgraph_regs (nv g)) r.

Definition set_reg (r v : Z) g : Gpu V := g <| nv ::= λ d, d <| pgraph_regs := wr (pgraph_regs d) r v |> |>.

(** [SET_MASK(pg->regs[r], mask, v)]. *)
Definition set_mask (r mask v : Z) g : Gpu V := set_reg r (SET_MASK (reg g r) mask v) g.

Definition emit (c : gl_call) g : Gpu V := g <| gl := c :: gl g |>.

Definition on_contexts (f : Contexts → Contexts) g : Gpu V := g <| pg ::= λ p, p <| contexts ::= f |> |>.
Definition on_surfaces (f : Surfaces → Surfaces) g : Gpu V := g <| pg ::= λ p, p <| surfaces ::= f |> |>.
Definition on_textures (f : Textures → Textures) g : Gpu V := g <| pg ::= λ p, p <| textures ::= f |> |>.
Definition on_shaders (f : Shaders → Shaders) g : Gpu V := g <| pg ::= λ p, p <| shaders ::= f |> |>.
Definition on_batch (f : Batch → Batch) g : Gpu V := g <| pg ::= λ p, p <| batch ::= f |> |>.
Definition on_report (f : Report → Report) g : Gpu V := g <| pg ::= λ p, p <| report ::= f |> |>.

Definition color_surface g : Surface := surface_color (surfaces (pg g)).
Definition zeta_surface g : Surface := surface_zeta (surfaces (pg g)).
Definition shape g : SurfaceShape := surface_shape (surfaces (pg g)).
Definition on_color (f : Surface → Surface) : Gpu V → Gpu V := on_surfaces (λ s, s <| surface_color ::= f |>).
Definition on_zeta (f : Surface → Surface) : Gpu V → Gpu V := on_surfaces (λ s, s <| surface_zeta ::= f |>).
Definition on_shape (f : SurfaceShape → SurfaceShape) : Gpu V → Gpu V :=
  on_surfaces (λ s, s <| surface_shape ::= f |>).

(** ** Dirty pages

    The video memory starts on a page; an empty range is never dirty. *)

Definition TARGET_PAGE_ALIGN (addr : Z) : Z :=
  (addr + (1 .<< TARGET_PAGE_BITS) - 1) .& (.~ ((1 .<< TARGET_PAGE_BITS) - 1)).

Definition pages (start length : Z) : gset Z :=
  let first := start .>> TARGET_PAGE_BITS in
  list_to_set (seqZ first ((TARGET_PAGE_ALIGN (start + length) .>> TARGET_PAGE_BITS) - first)).

Definition test_and_clear_dirty (start length : Z) g : bool * Gpu V :=
  if length =? 0 then (false, g)
  else (bool_decide (nv2a_dirty g ∩ pages start length ≠ ∅),
        g <| nv2a_dirty := nv2a_dirty g ∖ pages start length |>).

Definition set_client_dirty (start length : Z) g : Gpu V :=
  g <| vga_dirty := vga_dirty g ∪ pages start length |>.
End access.

(** ** What an operation leaves alone

    [kept π out g m]: when the operation [m], started in [g], returns, the part [π] of the
    state is what it was; [out] finds the state in the result. *)

Section kept.
Context {V T : Type} (π : Gpu V → T).

Definition kept {A} (out : A → Gpu V) (g : Gpu V) (m : res A) : Prop := ∀ a, m = Ok a → π (out a) = π g.

Lemma kept_ok {A} (out : A → Gpu V) g a : π (out a) = π g → kept out g (Ok a).
Proof. intros E b [= <-]. done. Qed.

Lemma kept_fault {A} (out : A → Gpu V) g e : kept out g (Fault e).
Proof. done. Qed.

Lemma kept_base {A} (out : A → Gpu V) g1 g m : kept out g1 m → π g1 = π g → kept out g m.
Proof. intros K E a Ea. by rewrite (K a Ea). Qed.

(** A step that does not change the state, and one that changes another part of it. *)
Lemma kept_pure {A B} (out : B → Gpu V) g (m : res A) (k : A → res B) :
  (∀ a, kept out g (k a)) → kept out g (m ≫= k).
Proof. intros K b E. apply bind_ok in E as (a & _ & E). by apply (K a). Qed.

Lemma kept_bind {A B} (out : B → Gpu V) (out' : A → Gpu V) g1 g (m : res A) (k : A → res B) :
  kept out' g1 m → π g1 = π g → (∀ a, π (out' a) = π g → kept out (out' a) (k a)) → kept out g (m ≫= k).
Proof.
  intros Km E Kk b Eb. apply bind_ok in Eb as (a & Ea & Eb).
  assert (π (out' a) = π g) as Eg by (by rewrite (Km a Ea)). by rewrite (Kk a Eg b Eb).
Qed.

Lemma kept_for_each (range : list Z) (body : Z → Gpu V → res (Gpu V)) g :
  (∀ i g, kept id g (body i g)) → kept id g (for_each range body g).
Proof.
  intros K. revert g. induction range as [| i range IH]; intros g; cbn [for_each]; [by apply kept_ok |].
  by eapply kept_bind; [apply K | done | intros].
Qed.

Lemma kept_for_int n (body : Z → Gpu V → res (Gpu V)) g :
  (∀ i g, kept id g (body i g)) → kept id g (for_int n body g).
Proof. intros K. unfold for_int. case_match; [done | by apply kept_for_each]. Qed.

Lemma kept_foldl {B} (f : Gpu V → B → Gpu V) l g : (∀ g b, π (f g b) = π g) → π (foldl f g l) = π g.
Proof. intros K. revert g. induction l as [| b l IH]; intros g; cbn; [done |]. by rewrite IH. Qed.
End kept.

Create HintDb kept.

(** The part does not depend on the calls of OpenGL, but for those that concern programs. *)
Definition ignores_calls {V T} (π : Gpu V → T) : Prop :=
  ∀ c g, is_program_call c = false → π (emit c g) = π g.
#[export] Hint Extern 1 (ignores_calls _) => intros []; done : kept.

(** The part is kept, by computation or by the rewrite rules of the database. *)
Ltac kept_eq :=
  first [ done | solve [autorewrite with kept; first [done | congruence]]
        | solve [repeat case_match; first [done | autorewrite with kept; first [done | congruence]]] ].

Ltac destruct_inner x :=
  lazymatch x with
  | context [match ?y with _ => _ end] => destruct_inner y
  | _ => destruct x
  end.

(** Proves [kept π out g m] by following the code of [m]; the operations it calls are in the
    database. *)
Ltac kept_step :=
  lazymatch goal with
  | |- kept _ _ _ (Ok _) => apply kept_ok; cbn [fst snd id]; try kept_eq
  | |- kept _ _ _ (Fault _) => apply kept_fault
  | |- kept _ _ ?g (@mbind _ _ ?A _ _ _) =>
      lazymatch A with
      | Gpu _ => apply (kept_bind _ _ id g g); [| done | intros ? ?; cbn [fst snd id]]
      | (_ * Gpu _)%type => apply (kept_bind _ _ snd g g); [| done | intros [] ?; cbn [fst snd id] in *]
      | _ => apply kept_pure; intros ?
      end
  | |- kept _ _ _ (match ?x with _ => _ end) => destruct_inner x
  | |- kept _ _ _ (for_int _ _ _) => apply kept_for_int; intros
  | |- kept _ _ _ (for_each _ _ _) => apply kept_for_each; intros
  | |- kept _ _ _ _ => eapply kept_base; [solve [eauto 2 with kept] | try kept_eq]
  end.
Ltac keeps := cbv zeta; repeat (kept_step; cbv zeta).

(** ** What an operation establishes when it returns *)

Definition ensures {A} (m : res A) (Q : A → Prop) : Prop := ∀ a, m = Ok a → Q a.

Lemma ensures_ok {A} (a : A) (Q : A → Prop) : Q a → ensures (Ok a) Q.
Proof. by intros Qa b [= <-]. Qed.

Lemma ensures_bind {A B} (m : res A) (k : A → res B) (R : A → Prop) Q :
  ensures m R → (∀ a, R a → ensures (k a) Q) → ensures (m ≫= k) Q.
Proof. intros Hm Hk b (a & Ea & Eb)%bind_ok. exact (Hk a (Hm a Ea) b Eb). Qed.

Lemma ensures_weaken {A} (m : res A) (R Q : A → Prop) : ensures m R → (∀ a, R a → Q a) → ensures m Q.
Proof. intros Hm HR a Ea. auto. Qed.

Lemma ensures_for_each {S} (I : S → Prop) (range : list Z) (body : Z → S → res S) s :
  (∀ i s, i ∈ range → I s → ensures (body i s) I) → I s → ensures (for_each range body s) I.
Proof.
  intros B. revert s. induction range as [| i range IH]; intros s Is; cbn [for_each]; [by apply ensures_ok |].
  eapply ensures_bind; [apply B; [by left | done] |]. intros s' Is'. apply IH; [| done].
  intros j s2 Hj. apply B. by right.
Qed.

Lemma ensures_for_int {S} (I : S → Prop) n (body : Z → S → res S) s :
  (∀ i s, 0 ≤ i < n → I s → ensures (body i s) I) → I s → ensures (for_int n body s) I.
Proof.
  intros B Is. unfold for_int. case_match; [done |]. apply ensures_for_each; [| done].
  intros i s' Hi%elem_of_seqZ. apply B. lia.
Qed.

(** An invariant that knows how far the loop is, if it returns. *)
Lemma ensures_for_int_upto {S} (I : Z → S → Prop) n (body : Z → S → res S) s :
  0 ≤ n → I 0 s → (∀ i s, 0 ≤ i < n → I i s → ensures (body i s) (I (i + 1))) → ensures (for_int n body s) (I n).
Proof.
  intros Hn I0 B. unfold for_int. case_match; [done |].
  assert (∀ k i s, i + Z.of_nat k = n → 0 ≤ i → I i s → ensures (for_each (seqZ i (Z.of_nat k)) body s) (I n)) as L.
  { induction k as [| k IH]; intros i t E Hi Ht s'.
    - intros [= <-]. by replace n with i by lia.
    - rewrite seqZ_cons by lia. cbn [for_each]. intros (t1 & E1 & E2)%bind_ok.
      replace (Z.pred (Z.of_nat (Datatypes.S k))) with (Z.of_nat k) in E2 by lia.
      apply (IH (Z.succ i) t1); [lia | lia | | done]. rewrite <- Z.add_1_r. by apply (B i t); [lia | ..]. }
  specialize (L (Z.to_nat n) 0 s). rewrite Z2Nat.id in L by done. by apply L.
Qed.

(** A loop that returns, with an invariant that knows how far it is. *)
Lemma for_int_invariant {S} (I : Z → S → Prop) n (body : Z → S → res S) s :
  0 ≤ n < 2 ^ 31 → I 0 s → (∀ i s, 0 ≤ i < n → I i s → ∃ s', body i s = Ok s' ∧ I (i + 1) s') →
  ∃ s', for_int n body s = Ok s' ∧ I n s'.
Proof.
  intros Hn I0 B. unfold for_int. rewrite (proj2 (Z.leb_gt (2 ^ 31) n)) by lia.
  assert (∀ k i s, i + Z.of_nat k = n → 0 ≤ i → I i s → ∃ s', for_each (seqZ i (Z.of_nat k)) body s = Ok s' ∧ I n s') as L.
  { induction k as [| k IH]; intros i t E Hi Ht.
    - exists t. split; [done |]. by replace n with i by lia.
    - rewrite seqZ_cons by lia. cbn [for_each]. destruct (B i t) as (t' & -> & Ht'); [lia | done |].
      cbn [mbind res_bind]. replace (Z.pred (Z.of_nat (Datatypes.S k))) with (Z.of_nat k) by lia. apply IH; [lia | lia |].
      by replace (Z.succ i) with (i + 1) by lia. }
  destruct (L (Z.to_nat n) 0 s) as (s' & E & H); [lia | lia | done |]. rewrite Z2Nat.id in E by lia. eauto.
Qed.

(** Passes the steps that do not change the state. *)
Ltac skips :=
  cbv zeta;
  repeat (first
    [ lazymatch goal with
      | |- ensures (@mbind _ _ ?A _ _ _) _ =>
          lazymatch A with
          | Gpu _ => fail
          | (_ * Gpu _)%type => fail
          | _ => apply (ensures_bind _ _ (λ _, True)); [done | intros ? _]
          end
      | |- ensures (Fault _) _ => done
      | |- ensures (match ?x with _ => _ end) _ => destruct_inner x
      end ]; cbv zeta).
