(* ===== verification/Surface.v ===== *)
(** * Render surfaces

    The surfaces of src/hw/xbox/nv2a/nv2a_pgraph.c, and [glo_readpixels] of
    gl/gloffscreen_common.c.  The colour and depth buffers live twice: in the video memory,
    where the guest sees them, and in a texture of OpenGL, where they are drawn to.
    [pgraph_update_surface] uploads what the guest has changed, or reads back what was
    drawn; the flags [buffer_dirty], [draw_dirty] and [write_enabled_cache] say when.

    The rows of OpenGL are in the opposite order, and a surface may be swizzled.  What the
    operations keep is shown here; that a surface survives an upload and a download is shown
    in SurfaceCopy.v. *)

From S2P Require Import Prelude Bytes Fields Swizzle Lru Nv2a PgraphRegs Gl GlImage PgraphState.

Record SurfaceColorFormatInfo := SurfaceFormat {
  surf_bytes_per_pixel : Z;
  surf_gl_internal_format : gl_enum;
  surf_gl_format : gl_enum;
  surf_gl_type : gl_enum
}.

Definition kelvin_surface_color_format_map : list (Z * SurfaceColorFormatInfo) := [
  (NV097_SET_SURFACE_FORMAT_COLOR_LE_X1R5G5B5_Z1R5G5B5,
   SurfaceFormat 2 GL_RGB5_A1 GL_BGRA GL_UNSIGNED_SHORT_1_5_5_5_REV);
  (NV097_SET_SURFACE_FORMAT_COLOR_LE_R5G6B5,
   SurfaceFormat 2 GL_RGB565 GL_RGB GL_UNSIGNED_SHORT_5_6_5);
  (NV097_SET_SURFACE_FORMAT_COLOR_LE_X8R8G8B8_Z8R8G8B8,
   SurfaceFormat 4 GL_RGBA8 GL_BGRA GL_UNSIGNED_INT_8_8_8_8_REV);
  (NV097_SET_SURFACE_FORMAT_COLOR_LE_A8R8G8B8,
   SurfaceFormat 4 GL_RGBA8 GL_BGRA GL_UNSIGNED_INT_8_8_8_8_REV)].

(** The entry of an array given by designated initialisers, the last one the greatest. *)
Definition table_size {A} (t : list (Z * A)) : Z := match last t with Some (i, _) => i + 1 | None => 0 end.

Fixpoint table_get {A} (t : list (Z * A)) (i : Z) : option A :=
  match t with
  | [] => None
  | (j, a) :: t => if j =? i then Some a else table_get t i
  end.

Section surface.
Context {V : Type} `{OpenGL} (vram_size : Z).
Implicit Types g : Gpu V.

(** ** Shapes and flags *)

Definition pgraph_framebuffer_dirty g : bool :=
  let shape_changed := bool_decide (shape g ≠ last_surface_shape (surfaces (pg g))) in
  if negb shape_changed || (negb (nz (color_format (shape g))) && negb (nz (zeta_format (shape g))))
  then false else true.

Definition pgraph_color_write_enabled g : bool :=
  nz (reg g NV_PGRAPH_CONTROL_0 .& (NV_PGRAPH_CONTROL_0_ALPHA_WRITE_ENABLE
    .| NV_PGRAPH_CONTROL_0_RED_WRITE_ENABLE .| NV_PGRAPH_CONTROL_0_GREEN_WRITE_ENABLE
    .| NV_PGRAPH_CONTROL_0_BLUE_WRITE_ENABLE)).

Definition pgraph_zeta_write_enabled g : bool :=
  nz (reg g NV_PGRAPH_CONTROL_0 .& (NV_PGRAPH_CONTROL_0_ZWRITEENABLE
    .| NV_PGRAPH_CONTROL_0_STENCIL_WRITE_ENABLE)).

Definition pgraph_set_surface_dirty (color zeta : bool) g : Gpu V :=
  let color := color && pgraph_color_write_enabled g in
  let zeta := zeta && pgraph_zeta_write_enabled g in
  on_zeta (λ s, s <| draw_dirty := draw_dirty s || zeta |>)
    (on_color (λ s, s <| draw_dirty := draw_dirty s || color |>) g).

(** [1 << n]; a shift by the width of an [int] or more is undefined. *)
Definition shift_1 (n : Z) : res Z := if n <? 32 then Ok (u32 (1 .<< n)) else Fault undefined_behaviour.

Definition pgraph_apply_anti_aliasing_factor g (w h : Z) : res (Z * Z) :=
  let aa := anti_aliasing (shape g) in
  if aa =? NV097_SET_SURFACE_FORMAT_ANTI_ALIASING_CENTER_1 then Ok (w, h)
  else if aa =? NV097_SET_SURFACE_FORMAT_ANTI_ALIASING_CENTER_CORNER_2 then Ok (u32 (w * 2), h)
  else if aa =? NV097_SET_SURFACE_FORMAT_ANTI_ALIASING_SQUARE_OFFSET_4 then Ok (u32 (w * 2), u32 (h * 2))
  else Fault assert_failed.

Definition is_swizzled g : bool := surface_type (surfaces (pg g)) =? NV097_SET_SURFACE_FORMAT_TYPE_SWIZZLE.

Definition pgraph_get_surface_dimensions g : res (Z * Z) :=
  if is_swizzled g then
    w ← shift_1 (log_width (shape g));
    h ← shift_1 (log_height (shape g));
    Ok (w, h)
  else Ok (clip_width (shape g), clip_height (shape g)).

(** The copy of the video memory that vertex data is read from, brought up to date. *)
Definition pgraph_update_memory_buffer (addr size : Z) (f : bool) g : res (Gpu V) :=
  let g := emit (glBindBuffer GL_ARRAY_BUFFER (gl_memory_buffer (batch (pg g)))) g in
  let end_ := TARGET_PAGE_ALIGN (addr + size) in
  let addr := addr .& (.~ ((1 .<< TARGET_PAGE_BITS) - 1)) in
  _ ← assert (end_ <? vram_size);
  let '(d, g) := if f then (true, g) else test_and_clear_dirty addr (end_ - addr) g in
  if d then Ok (emit (glBufferSubData GL_ARRAY_BUFFER addr (end_ - addr)
                        (rd_bytes (vram (nv g)) addr (end_ - addr))) g)
  else Ok g.

(** ** Reading the framebuffer *)

(** Rows in memory: where each starts, and how many bytes of it are used. *)
Definition store_rows (m : mem) (start row n h : Z) (pixels : list Z) : mem :=
  foldl (λ m r, wr_bytes m (start + row * r) (take (Z.to_nat n) (drop (Z.to_nat (n * r)) pixels))) m (seqZ 0 h).

Definition swap_rows (m : mem) (b c n : Z) : mem :=
  let tmp := rd_bytes m b n in
  wr_bytes (memcpy m b m c n) c tmp.

Definition flip_rows (m : mem) (start stride n h : Z) : mem :=
  foldl (λ m r, swap_rows m (start + stride * r) (start + stride * (h - 1) - stride * r) n) m (seqZ 0 (h / 2)).

(** OpenGL stores the rows as the parameters of the pixel storage say. *)
Definition glo_readpixels (fmt typ : gl_enum) (bpp stride w h : Z) (data : mem) (start : Z) g
    : res (mem * Gpu V) :=
  _ ← assert (stride mod bpp =? 0);
  let rl := gl_integer (gl g) GL_PACK_ROW_LENGTH in
  let pa := gl_integer (gl g) GL_PACK_ALIGNMENT in
  let g := emit (glPixelStorei GL_PACK_ROW_LENGTH (stride / bpp)) g in
  let g := emit (glPixelStorei GL_PACK_ALIGNMENT 1) g in
  let g := emit (glReadPixels 0 0 w h fmt typ) g in
  let row := row_stride (gl g) GL_PACK_ROW_LENGTH GL_PACK_ALIGNMENT w bpp in
  let data := store_rows data start row (w * bpp) h (gl_pixels (gl g) w h fmt typ) in
  let data := flip_rows data start stride (w * bpp) h in
  let g := emit (glPixelStorei GL_PACK_ROW_LENGTH rl) g in
  let g := emit (glPixelStorei GL_PACK_ALIGNMENT pa) g in
  Ok (data, g).

(** ** A surface *)

Record surface_format := SurfFormat {
  fmt_bytes_per_pixel : Z;
  fmt_internal : gl_enum;
  fmt_format : gl_enum;
  fmt_type : gl_enum;
  fmt_attachment : gl_enum
}.

Definition color_surface_format g : res surface_format :=
  let cf := color_format (shape g) in
  _ ← assert (nz cf);
  _ ← assert (cf <? table_size kelvin_surface_color_format_map);
  match table_get kelvin_surface_color_format_map cf with
  | None => Fault assert_failed
  | Some f => Ok (SurfFormat (surf_bytes_per_pixel f) (surf_gl_internal_format f) (surf_gl_format f)
                    (surf_gl_type f) GL_COLOR_ATTACHMENT0)
  end.

Definition zeta_surface_format g : res surface_format :=
  let zf := zeta_format (shape g) in
  _ ← assert (nz zf);
  if zf =? NV097_SET_SURFACE_FORMAT_ZETA_Z16 then
    if nz (z_format (shape g)) then
      Ok (SurfFormat 2 GL_DEPTH_COMPONENT32F GL_DEPTH_COMPONENT GL_HALF_FLOAT GL_DEPTH_ATTACHMENT)
    else Ok (SurfFormat 2 GL_DEPTH_COMPONENT16 GL_DEPTH_COMPONENT GL_UNSIGNED_SHORT GL_DEPTH_ATTACHMENT)
  else if zf =? NV097_SET_SURFACE_FORMAT_ZETA_Z24S8 then
    if nz (z_format (shape g)) then Fault assert_failed
    else Ok (SurfFormat 4 GL_DEPTH24_STENCIL8 GL_DEPTH_STENCIL GL_UNSIGNED_INT_24_8
               GL_DEPTH_STENCIL_ATTACHMENT)
  else Fault assert_failed.

Definition vram_range (start n : Z) : res () := in_bounds (start + n <=? vram_size).

(** [n] bytes of the video memory as an array of their own, and stored back. *)
Definition sub_vram g (start n : Z) : mem := wr_bytes ∅ 0 (rd_bytes (vram (nv g)) start n).
Definition set_vram (m : mem) g : Gpu V := g <| nv ::= λ d, d <| vram := m |> |>.

(** The rows to upload: an unswizzled copy, or the video memory itself. *)
Definition surface_rows (w h bpp pitch start : Z) g : res (mem * Z) :=
  if is_swizzled g then
    _ ← in_bounds ((w * bpp <=? pitch) && (h * pitch <? 2 ^ 32));
    _ ← vram_range start (w * h * bpp);
    buf ← unswizzle_rect (sub_vram g start (w * h * bpp)) w h ∅ pitch bpp;
    Ok (buf, 0)
  else
    _ ← vram_range start (pitch * (h - 1) + w * bpp);
    Ok (vram (nv g), start).

(** The rows from the last to the first. *)
Definition flipped_buf (buf : mem) (from w h bpp pitch : Z) : list Z :=
  rd_bytes (foldl (λ m irow, memcpy m (w * (h - irow - 1) * bpp) buf (from + pitch * irow) (w * bpp))
              ∅ (seqZ 0 h)) 0 (w * h * bpp).

Definition surface_of (color : bool) g : Surface := if color then color_surface g else zeta_surface g.
Definition on_surface (color : bool) (f : Surface → Surface) : Gpu V → Gpu V :=
  if color then on_color f else on_zeta f.
Definition gl_buffer (color : bool) g : Z :=
  if color then gl_color_buffer (surfaces (pg g)) else gl_zeta_buffer (surfaces (pg g)).
Definition set_gl_buffer (color : bool) (t : Z) : Gpu V → Gpu V :=
  on_surfaces (λ s, if color then s <| gl_color_buffer := t |> else s <| gl_zeta_buffer := t |>).

Definition detach (attachment : gl_enum) : Gpu V → Gpu V :=
  emit (glFramebufferTexture2D GL_FRAMEBUFFER attachment GL_TEXTURE_2D 0 0).

Definition delete_gl_buffer (color : bool) g : Gpu V :=
  if nz (gl_buffer color g) then set_gl_buffer color 0 (emit (glDeleteTextures (gl_buffer color g)) g) else g.

(** The surface was changed or moved by the guest: copy it into a texture of its own. *)
Definition upload_surface (color : bool) (f : surface_format) (w h dma_address base : Z) g : res (Gpu V) :=
  let s := surface_of color g in
  let pitch := surface_pitch s in
  let bpp := fmt_bytes_per_pixel f in
  _ ← assert (negb (draw_dirty s));
  _ ← assert (pitch mod bpp =? 0);
  '(buf, from) ← surface_rows w h bpp pitch (base + surface_offset s) g;
  let g := if color then g else detach GL_DEPTH_STENCIL_ATTACHMENT (detach GL_DEPTH_ATTACHMENT g) in
  let g := delete_gl_buffer color (detach (fmt_attachment f) g) in
  let t := gl_new_texture (gl g) in
  let g := emit (glBindTexture GL_TEXTURE_2D t) (set_gl_buffer color t (emit (glGenTextures t) g)) in
  _ ← in_bounds (w * h * bpp <? 2 ^ 32);
  let g := emit (glTexImage2D GL_TEXTURE_2D 0 (fmt_internal f) w h 0 (fmt_format f) (fmt_type f)
                   (flipped_buf buf from w h bpp pitch)) g in
  let g := emit (glFramebufferTexture2D GL_FRAMEBUFFER (fmt_attachment f) GL_TEXTURE_2D t 0) g in
  _ ← assert (gl_framebuffer_complete (gl g));
  g ← (if color then pgraph_update_memory_buffer (dma_address + surface_offset s) (u32 (pitch * h)) true g
       else Ok g);
  Ok (on_surface color (λ s, s <| buffer_dirty := false |>) g).

(** Read what was drawn back into the surface. *)
Definition read_surface (f : surface_format) (w h pitch start : Z) g : res (Gpu V) :=
  let bpp := fmt_bytes_per_pixel f in
  if is_swizzled g then
    _ ← in_bounds ((w * bpp <=? pitch) && (h * pitch <? 2 ^ 32));
    '(buf, g) ← glo_readpixels (fmt_format f) (fmt_type f) bpp pitch w h ∅ 0 g;
    _ ← assert (gl_no_error (gl g));
    _ ← vram_range start (w * h * bpp);
    m ← swizzle_rect buf w h (sub_vram g start (w * h * bpp)) pitch bpp;
    Ok (set_vram (wr_bytes (vram (nv g)) start (rd_bytes m 0 (w * h * bpp))) g)
  else
    _ ← vram_range start (pitch * (h - 1) + w * bpp);
    '(m, g) ← glo_readpixels (fmt_format f) (fmt_type f) bpp pitch w h (vram (nv g)) start g;
    _ ← assert (gl_no_error (gl g));
    Ok (set_vram m g).

Definition download_surface (color : bool) (f : surface_format) (w h dma_address base : Z) g : res (Gpu V) :=
  let s := surface_of color g in
  let pitch := surface_pitch s in
  g ← read_surface f w h pitch (base + surface_offset s) g;
  let g := set_client_dirty (dma_address + surface_offset s) (u32 (pitch * h)) g in
  g ← (if color then pgraph_update_memory_buffer (dma_address + surface_offset s) (u32 (pitch * h)) true g
       else Ok g);
  Ok (on_surface color (λ s, s <| draw_dirty := false |> <| write_enabled_cache := false |>) g).

Definition pgraph_update_surface_part (upload color : bool) g : res (Gpu V) :=
  '(w, h) ← pgraph_get_surface_dimensions g;
  '(w, h) ← pgraph_apply_anti_aliasing_factor g w h;
  f ← (if color then color_surface_format g else zeta_surface_format g);
  let s := surface_of color g in
  let object := if color then dma_color (contexts (pg g)) else dma_zeta (contexts (pg g)) in
  dma ← nv_dma_load (nv g) object;
  _ ← assert (dma_class dma =? NV_DMA_IN_MEMORY_CLASS);
  _ ← assert (nz (address dma + surface_offset s));
  _ ← assert (surface_offset s <=? limit dma);
  _ ← assert (surface_offset s + u32 (surface_pitch s * h) <=? limit dma + 1);
  '(base, _) ← nv_dma_map vram_size (nv g) object;
  let '(written, g) :=
    if color then test_and_clear_dirty (address dma + surface_offset s) (u32 (surface_pitch s * h)) g
    else (false, g) in
  let dirty := buffer_dirty s || written in
  g ← (if upload && dirty then upload_surface color f w h (address dma) base g else Ok g);
  if negb upload && draw_dirty (surface_of color g)
  then download_surface color f w h (address dma) base g else Ok g.

(** ** Both surfaces *)

Definition delete_gl_buffers g : Gpu V :=
  delete_gl_buffer false (detach GL_DEPTH_STENCIL_ATTACHMENT (detach GL_DEPTH_ATTACHMENT
    (delete_gl_buffer true (detach GL_COLOR_ATTACHMENT0 g)))).

Definition pgraph_update_surface (upload color_write zeta_write : bool) g : res (Gpu V) :=
  let zf := GET_MASK (reg g NV_PGRAPH_SETUPRASTER) NV_PGRAPH_SETUPRASTER_Z_FORMAT in
  let g := on_shape (λ s, s <| z_format := zf |>) g in
  let color_write := color_write && pgraph_color_write_enabled g in
  let zeta_write := zeta_write && pgraph_zeta_write_enabled g in
  g ← (if upload && pgraph_framebuffer_dirty g then
         _ ← assert (negb (draw_dirty (color_surface g)));
         _ ← assert (negb (draw_dirty (zeta_surface g)));
         let g := on_color (λ s, s <| buffer_dirty := true |>) g in
         let g := on_zeta (λ s, s <| buffer_dirty := true |>) g in
         let g := delete_gl_buffers g in
         Ok (on_surfaces (λ s, s <| last_surface_shape := surface_shape s |>) g)
       else Ok g);
  g ← (if (color_write || (negb upload && write_enabled_cache (color_surface g)))
          && (upload || draw_dirty (color_surface g))
       then pgraph_update_surface_part upload true g else Ok g);
  if (zeta_write || (negb upload && write_enabled_cache (zeta_surface g)))
     && (upload || draw_dirty (zeta_surface g))
  then pgraph_update_surface_part upload false g else Ok g.

(** ** What the surfaces leave alone *)

(** All but the surfaces, the video memory, the dirty pages and the calls of OpenGL that do
    not concern the programs. *)
Definition beside_surfaces g :=
  ((nv g) <| vram := ∅ |>, context_surfaces_2d (pg g), image_blit (pg g), contexts (pg g), textures (pg g),
   shaders (pg g), batch (pg g), report (pg g), waiting g, program_calls (gl g)).

Lemma beside_emit c g : is_program_call c = false → beside_surfaces (emit c g) = beside_surfaces g.
Proof. by destruct c. Qed.
Lemma beside_set_gl_buffer color t g : beside_surfaces (set_gl_buffer color t g) = beside_surfaces g.
Proof. done. Qed.
Lemma beside_delete_gl_buffer color g : beside_surfaces (delete_gl_buffer color g) = beside_surfaces g.
Proof. unfold delete_gl_buffer. by case_match. Qed.
Lemma beside_detach a g : beside_surfaces (detach a g) = beside_surfaces g.
Proof. done. Qed.
Lemma beside_on_surface color f g : beside_surfaces (on_surface color f g) = beside_surfaces g.
Proof. by destruct color. Qed.
Lemma beside_on_surfaces f g : beside_surfaces (on_surfaces f g) = beside_surfaces g.
Proof. done. Qed.
#[local] Hint Rewrite beside_emit using done : kept.
#[local] Hint Rewrite beside_set_gl_buffer beside_delete_gl_buffer beside_detach beside_on_surface
  beside_on_surfaces : kept.

Lemma update_memory_buffer_kept addr size f g :
  kept beside_surfaces id g (pgraph_update_memory_buffer addr size f g).
Proof.
  unfold pgraph_update_memory_buffer, test_and_clear_dirty. keeps.
Qed.
#[local] Hint Resolve update_memory_buffer_kept : kept.

Lemma upload_surface_kept color f w h a b g : kept beside_surfaces id g (upload_surface color f w h a b g).
Proof. unfold upload_surface. keeps.
Qed.
#[local] Hint Resolve upload_surface_kept : kept.

Lemma glo_readpixels_kept fmt typ bpp stride w h data start g :
  kept beside_surfaces snd g (glo_readpixels fmt typ bpp stride w h data start g).
Proof. unfold glo_readpixels. keeps. Qed.
#[local] Hint Resolve glo_readpixels_kept : kept.

Lemma download_surface_kept color f w h a b g : kept beside_surfaces id g (download_surface color f w h a b g).
Proof. unfold download_surface, read_surface. keeps. Qed.
#[local] Hint Resolve download_surface_kept : kept.

Lemma update_surface_part_kept upload color g :
  kept beside_surfaces id g (pgraph_update_surface_part upload color g).
Proof. unfold pgraph_update_surface_part, test_and_clear_dirty. keeps. Qed.
#[local] Hint Resolve update_surface_part_kept : kept.

Lemma update_surface_kept upload color_write zeta_write g :
  kept beside_surfaces id g (pgraph_update_surface upload color_write zeta_write g).
Proof. unfold pgraph_update_surface, delete_gl_buffers, on_color, on_zeta, on_shape. keeps. Qed.

End surface.

#[export] Hint Resolve update_memory_buffer_kept update_surface_kept : kept.
