(* ===== verification/Texture.v ===== *)
(** * Textures

    The textures of src/hw/xbox/nv2a/nv2a_pgraph.c.  [pgraph_bind_textures] reads the texture
    registers of the four units and binds a texture of OpenGL to each.  Textures are kept in
    an LRU cache under a hash of their data; a binding counts its users, the cache entry and
    the units, and is deleted with the last one.

    The count is shown to be exact, so that no unit uses a texture that was deleted. *)

From S2P Require Import Prelude Bytes Fields Swizzle Lru Nv2a Xxhash PgraphRegs Gl PgraphState Surface.

(** ** Tables *)

Definition pgraph_texture_min_filter_map : list gl_enum :=
  [GL_ZERO; GL_NEAREST; GL_LINEAR; GL_NEAREST_MIPMAP_NEAREST; GL_LINEAR_MIPMAP_NEAREST;
   GL_NEAREST_MIPMAP_LINEAR; GL_LINEAR_MIPMAP_LINEAR; GL_LINEAR].

Definition pgraph_texture_mag_filter_map : list gl_enum := [GL_ZERO; GL_NEAREST; GL_LINEAR; GL_ZERO; GL_LINEAR].

Definition pgraph_texture_addr_map : list gl_enum :=
  [GL_ZERO; GL_REPEAT; GL_MIRRORED_REPEAT; GL_CLAMP_TO_EDGE; GL_CLAMP_TO_BORDER].

(** [t[i]], and [assert(i < ARRAY_SIZE(t))] before it. *)
Definition enum_at (t : list gl_enum) (i : Z) : res gl_enum :=
  match t !! Z.to_nat i with Some e => Ok e | None => Fault out_of_bounds end.

Definition checked_enum_at (t : list gl_enum) (i : Z) : res gl_enum :=
  _ ← assert (i <? Z.of_nat (length t)); enum_at t i.

(** A missing swizzle mask is zero. *)
Record ColorFormatInfo := ColorFormat {
  bytes_per_pixel : Z;
  linear : bool;
  gl_internal_format : gl_enum;
  gl_format : gl_enum;
  tex_gl_type : gl_enum;
  gl_swizzle_mask : list gl_enum
}.

Definition kelvin_color_format_map : list (Z * ColorFormatInfo) := [
  (NV097_SET_TEXTURE_FORMAT_COLOR_SZ_Y8,
   ColorFormat 1 false GL_R8 GL_RED GL_UNSIGNED_BYTE [GL_RED; GL_RED; GL_RED; GL_ONE]);
  (NV097_SET_TEXTURE_FORMAT_COLOR_SZ_AY8,
   ColorFormat 1 false GL_R8 GL_RED GL_UNSIGNED_BYTE [GL_RED; GL_RED; GL_RED; GL_RED]);
  (NV097_SET_TEXTURE_FORMAT_COLOR_SZ_A1R5G5B5,
   ColorFormat 2 false GL_RGB5_A1 GL_BGRA GL_UNSIGNED_SHORT_1_5_5_5_REV []);
  (NV097_SET_TEXTURE_FORMAT_COLOR_SZ_X1R5G5B5,
   ColorFormat 2 false GL_RGB5 GL_BGRA GL_UNSIGNED_SHORT_1_5_5_5_REV []);
  (NV097_SET_TEXTURE_FORMAT_COLOR_SZ_A4R4G4B4,
   ColorFormat 2 false GL_RGBA4 GL_BGRA GL_UNSIGNED_SHORT_4_4_4_4_REV []);
  (NV097_SET_TEXTURE_FORMAT_COLOR_SZ_R5G6B5,
   ColorFormat 2 false GL_RGB565 GL_RGB GL_UNSIGNED_SHORT_5_6_5 []);
  (NV097_SET_TEXTURE_FORMAT_COLOR_SZ_A8R8G8B8,
   ColorFormat 4 false GL_RGBA8 GL_BGRA GL_UNSIGNED_INT_8_8_8_8_REV []);
  (NV097_SET_TEXTURE_FORMAT_COLOR_SZ_X8R8G8B8,
   ColorFormat 4 false GL_RGB8 GL_BGRA GL_UNSIGNED_INT_8_8_8_8_REV []);
  (NV097_SET_TEXTURE_FORMAT_COLOR_SZ_I8_A8R8G8B8,
   ColorFormat 1 false GL_RGBA8 GL_BGRA GL_UNSIGNED_INT_8_8_8_8_REV []);
  (NV097_SET_TEXTURE_FORMAT_COLOR_L_DXT1_A1R5G5B5,
   ColorFormat 4 false GL_COMPRESSED_RGBA_S3TC_DXT1_EXT GL_ZERO GL_RGBA []);
  (NV097_SET_TEXTURE_FORMAT_COLOR_L_DXT23_A8R8G8B8,
   ColorFormat 4 false GL_COMPRESSED_RGBA_S3TC_DXT3_EXT GL_ZERO GL_RGBA []);
  (NV097_SET_TEXTURE_FORMAT_COLOR_L_DXT45_A8R8G8B8,
   ColorFormat 4 false GL_COMPRESSED_RGBA_S3TC_DXT5_EXT GL_ZERO GL_RGBA []);
  (NV097_SET_TEXTURE_FORMAT_COLOR_LU_IMAGE_A1R5G5B5,
   ColorFormat 2 true GL_RGB5_A1 GL_BGRA GL_UNSIGNED_SHORT_1_5_5_5_REV []);
  (NV097_SET_TEXTURE_FORMAT_COLOR_LU_IMAGE_R5G6B5,
   ColorFormat 2 true GL_RGB565 GL_RGB GL_UNSIGNED_SHORT_5_6_5 []);
  (NV097_SET_TEXTURE_FORMAT_COLOR_LU_IMAGE_A8R8G8B8,
   ColorFormat 4 true GL_RGBA8 GL_BGRA GL_UNSIGNED_INT_8_8_8_8_REV []);
  (NV097_SET_TEXTURE_FORMAT_COLOR_LU_IMAGE_Y8,
   ColorFormat 1 true GL_R8 GL_RED GL_UNSIGNED_BYTE [GL_RED; GL_RED; GL_RED; GL_ONE]);
  (NV097_SET_TEXTURE_FORMAT_COLOR_SZ_A8,
   ColorFormat 1 false GL_R8 GL_RED GL_UNSIGNED_BYTE [GL_ONE; GL_ONE; GL_ONE; GL_RED]);
  (NV097_SET_TEXTURE_FORMAT_COLOR_SZ_A8Y8,
   ColorFormat 2 false GL_RG8 GL_RG GL_UNSIGNED_BYTE [GL_RED; GL_RED; GL_RED; GL_GREEN]);
  (NV097_SET_TEXTURE_FORMAT_COLOR_LU_IMAGE_AY8,
   ColorFormat 1 true GL_R8 GL_RED GL_UNSIGNED_BYTE [GL_RED; GL_RED; GL_RED; GL_RED]);
  (NV097_SET_TEXTURE_FORMAT_COLOR_LU_IMAGE_X1R5G5B5,
   ColorFormat 2 true GL_RGB5 GL_BGRA GL_UNSIGNED_SHORT_1_5_5_5_REV []);
  (NV097_SET_TEXTURE_FORMAT_COLOR_LU_IMAGE_A4R4G4B4,
   ColorFormat 2 true GL_RGBA4 GL_BGRA GL_UNSIGNED_SHORT_4_4_4_4_REV []);
  (NV097_SET_TEXTURE_FORMAT_COLOR_LU_IMAGE_X8R8G8B8,
   ColorFormat 4 true GL_RGB8 GL_BGRA GL_UNSIGNED_INT_8_8_8_8_REV []);
  (NV097_SET_TEXTURE_FORMAT_COLOR_LU_IMAGE_A8,
   ColorFormat 1 true GL_R8 GL_RED GL_UNSIGNED_BYTE [GL_ONE; GL_ONE; GL_ONE; GL_RED]);
  (NV097_SET_TEXTURE_FORMAT_COLOR_LU_IMAGE_A8Y8,
   ColorFormat 2 true GL_RG8 GL_RG GL_UNSIGNED_BYTE [GL_RED; GL_RED; GL_RED; GL_GREEN]);
  (NV097_SET_TEXTURE_FORMAT_COLOR_SZ_R6G5B5,
   ColorFormat 2 false GL_RGB8_SNORM GL_RGB GL_BYTE []);
  (NV097_SET_TEXTURE_FORMAT_COLOR_SZ_G8B8,
   ColorFormat 2 false GL_RG8_SNORM GL_RG GL_BYTE [GL_ZERO; GL_RED; GL_GREEN; GL_ONE]);
  (NV097_SET_TEXTURE_FORMAT_COLOR_SZ_R8B8,
   ColorFormat 2 false GL_RG8_SNORM GL_RG GL_BYTE [GL_RED; GL_ZERO; GL_GREEN; GL_ONE]);
  (NV097_SET_TEXTURE_FORMAT_COLOR_LC_IMAGE_CR8YB8CB8YA8,
   ColorFormat 2 true GL_RGBA8 GL_RGBA GL_UNSIGNED_INT_8_8_8_8_REV []);
  (NV097_SET_TEXTURE_FORMAT_COLOR_LU_IMAGE_DEPTH_X8_Y24_FIXED,
   ColorFormat 4 true GL_DEPTH24_STENCIL8 GL_DEPTH_STENCIL GL_UNSIGNED_INT_24_8 []);
  (NV097_SET_TEXTURE_FORMAT_COLOR_LU_IMAGE_DEPTH_Y16_FIXED,
   ColorFormat 2 true GL_DEPTH_COMPONENT16 GL_DEPTH_COMPONENT GL_UNSIGNED_SHORT []);
  (NV097_SET_TEXTURE_FORMAT_COLOR_LU_IMAGE_Y16,
   ColorFormat 2 true GL_R16 GL_RED GL_UNSIGNED_SHORT [GL_RED; GL_RED; GL_RED; GL_ONE]);
  (NV097_SET_TEXTURE_FORMAT_COLOR_SZ_A8B8G8R8,
   ColorFormat 4 false GL_RGBA8 GL_RGBA GL_UNSIGNED_INT_8_8_8_8_REV []);
  (NV097_SET_TEXTURE_FORMAT_COLOR_SZ_R8G8B8A8,
   ColorFormat 4 false GL_RGBA8 GL_RGBA GL_UNSIGNED_INT_8_8_8_8 []);
  (NV097_SET_TEXTURE_FORMAT_COLOR_LU_IMAGE_A8B8G8R8,
   ColorFormat 4 true GL_RGBA8 GL_RGBA GL_UNSIGNED_INT_8_8_8_8_REV []);
  (NV097_SET_TEXTURE_FORMAT_COLOR_LU_IMAGE_B8G8R8A8,
   ColorFormat 4 true GL_RGBA8 GL_BGRA GL_UNSIGNED_INT_8_8_8_8 []);
  (NV097_SET_TEXTURE_FORMAT_COLOR_LU_IMAGE_R8G8B8A8,
   ColorFormat 4 true GL_RGBA8 GL_RGBA GL_UNSIGNED_INT_8_8_8_8 [])].

Definition kelvin_color_formats := 66.

Definition color_format_info (i : Z) : res ColorFormatInfo :=
  _ ← in_bounds (i <? kelvin_color_formats);
  Ok (default (ColorFormat 0 false GL_ZERO GL_ZERO GL_ZERO []) (table_get kelvin_color_format_map i)).

(** ** Conversion of texels *)

Definition cliptobyte (x : Z) : Z := u8 (if x <? 0 then 0 else if 255 <? x then 255 else x).

(** An array of bytes: where it is, and how many bytes it has. *)
Record buffer := Buf { buf_mem : mem; buf_start : Z; buf_size : Z }.

Definition get_byte (b : buffer) (i : Z) : res Z :=
  _ ← in_bounds ((0 <=? i) && (i <? buf_size b));
  Ok (rd (buf_mem b) (buf_start b + i)).

Definition convert_yuy2_to_rgb (data : buffer) (line ix : Z) : res (Z * Z * Z) :=
  y ← get_byte data (line + ix * 2);
  u ← get_byte data (line + (if nz (ix mod 2) then ix * 2 - 1 else ix * 2 + 1));
  v ← get_byte data (line + (if nz (ix mod 2) then ix * 2 + 1 else ix * 2 + 3));
  let c := y - 16 in
  let d := u - 128 in
  let e := v - 128 in
  Ok (cliptobyte ((298 * c + 409 * e + 128) .>> 8),
      cliptobyte ((298 * c - 100 * d - 208 * e + 128) .>> 8),
      cliptobyte ((298 * c + 516 * d + 128) .>> 8)).

(** [for y < height, for x < width]. *)
Definition for_texels (w h : Z) (body : Z → Z → mem → res mem) : res mem :=
  for_int h (λ y m, for_int w (λ x m, body x y m) m) ∅.

Definition put_bytes (size : Z) (m : mem) (a : Z) (l : list Z) : res mem :=
  _ ← in_bounds (a + Z.of_nat (length l) <=? size);
  Ok (wr_bytes m a l).

(** A texel of an indexed texture: the entry of the palette. *)
Definition convert_i8 (data palette : buffer) (w row_pitch size x y : Z) (m : mem) : res mem :=
  index ← get_byte data (u32 (y * row_pitch + x));
  b0 ← get_byte palette (index * 4);
  b1 ← get_byte palette (index * 4 + 1);
  b2 ← get_byte palette (index * 4 + 2);
  b3 ← get_byte palette (index * 4 + 3);
  put_bytes size m (u32 (y * w * 4) + x * 4) [b0; b1; b2; b3].

Definition convert_yuy2 (s : TextureShape) (data : buffer) (size x y : Z) (m : mem) : res mem :=
  '(r, g, b) ← convert_yuy2_to_rgb data (u32 (y * width s * 2)) x;
  put_bytes size m (u32 ((y * width s + x) * 4)) [r; g; b; 255].

(** Two channels of five bits are signed, with an offset. *)
Definition convert_r6g5b5 (data : buffer) (w row_pitch size x y : Z) (m : mem) : res mem :=
  lo ← get_byte data (u32 (y * row_pitch) + x * 2);
  hi ← get_byte data (u32 (y * row_pitch) + x * 2 + 1);
  let rgb655 := (lo .| (hi .<< 8)) .^ ((1 .<< 9) .| (1 .<< 4)) in
  put_bytes size m (u32 ((y * w + x) * 3))
    [u8 (((rgb655 .& 0xFC00) .>> 10) * 0x7F / 0x3F);
     u8 (((rgb655 .& 0x03E0) .>> 5) * 0xFF / 0x1F - 0x80);
     u8 ((rgb655 .& 0x001F) * 0xFF / 0x1F - 0x80)].

(** The converted texels, or [None] where the format needs no conversion. *)
Definition convert_texture_data (s : TextureShape) (data palette : buffer) (w h d row_pitch slice_pitch : Z)
    : res (option (list Z)) :=
  if tex_color_format s =? NV097_SET_TEXTURE_FORMAT_COLOR_SZ_I8_A8R8G8B8 then
    _ ← assert (d =? 1);
    let size := u32 (w * h * 4) in
    m ← for_texels w h (convert_i8 data palette w row_pitch size);
    Ok (Some (rd_bytes m 0 size))
  else if tex_color_format s =? NV097_SET_TEXTURE_FORMAT_COLOR_LC_IMAGE_CR8YB8CB8YA8 then
    _ ← assert (d =? 1);
    let size := u32 (w * h * 4) in
    m ← for_texels w h (convert_yuy2 s data size);
    Ok (Some (rd_bytes m 0 size))
  else if tex_color_format s =? NV097_SET_TEXTURE_FORMAT_COLOR_SZ_R6G5B5 then
    _ ← assert (d =? 1);
    let size := u32 (w * h * 3) in
    m ← for_texels w h (convert_r6g5b5 data w row_pitch size);
    Ok (Some (rd_bytes m 0 size))
  else Ok None.

Section texture.
Context {V : Type} `{OpenGL} (vram_size : Z).
Implicit Types g : Gpu V.

(** ** Upload *)

(** The video memory from an address on. *)
Definition vram_from g (a : Z) : buffer := Buf (vram (nv g)) a (vram_size - a).

Definition block_size (f : ColorFormatInfo) : Z :=
  if bool_decide (gl_internal_format f = GL_COMPRESSED_RGBA_S3TC_DXT1_EXT) then 8 else 16.

Definition is_compressed (f : ColorFormatInfo) : bool := bool_decide (gl_format f = GL_ZERO).

(** A linear texture, uploaded from where it is. *)
Definition upload_rectangle (target : gl_enum) (s : TextureShape) (f : ColorFormatInfo) (data palette : Z) g
    : res (Gpu V) :=
  _ ← (if bytes_per_pixel f =? 0 then Fault undefined_behaviour else Ok ());
  _ ← assert (tex_pitch s mod bytes_per_pixel f =? 0);
  let g := emit (glPixelStorei GL_UNPACK_ROW_LENGTH (tex_pitch s / bytes_per_pixel f)) g in
  converted ← convert_texture_data s (vram_from g data) (vram_from g palette) (width s) (height s) 1 (tex_pitch s) 0;
  texels ← (match converted with
            | Some l => Ok l
            | None =>
                let n := tex_pitch s * (height s - 1) + width s * bytes_per_pixel f in
                _ ← vram_range vram_size data n;
                Ok (rd_bytes (vram (nv g)) data n)
            end);
  let g := emit (glTexImage2D target 0 (gl_internal_format f) (width s) (height s) 0 (gl_format f)
                   (tex_gl_type f) texels) g in
  Ok (emit (glPixelStorei GL_UNPACK_ROW_LENGTH 0) g).

(** The mipmap levels of a swizzled or compressed texture, one after the other in memory. *)
Fixpoint upload_levels (n : nat) (target : gl_enum) (s : TextureShape) (f : ColorFormatInfo)
    (level w h data palette : Z) g : res (Gpu V) :=
  match n with
  | O => Ok g
  | S n =>
      if is_compressed f then
        let w := w `max` 4 in
        let h := h `max` 4 in
        let size := u32 (w / 4 * h / 4 * block_size f) in
        _ ← vram_range vram_size data size;
        let g := emit (glCompressedTexImage2D target level (gl_internal_format f) w h 0 size
                         (rd_bytes (vram (nv g)) data size)) g in
        upload_levels n target s f (level + 1) (w / 2) (h / 2) (data + size) palette g
      else
        let w := w `max` 1 in
        let h := h `max` 1 in
        let pitch := u32 (w * bytes_per_pixel f) in
        _ ← vram_range vram_size data (w * h * bytes_per_pixel f);
        _ ← in_bounds (w * h * bytes_per_pixel f <? 2 ^ 32);
        unswizzled ← unswizzle_rect (sub_vram g data (w * h * bytes_per_pixel f)) w h ∅ pitch (bytes_per_pixel f);
        converted ← convert_texture_data s (Buf unswizzled 0 (u32 (h * pitch))) (vram_from g palette) w h 1 pitch 0;
        let texels := default (rd_bytes unswizzled 0 (u32 (h * pitch))) converted in
        let g := emit (glTexImage2D target level (gl_internal_format f) w h 0 (gl_format f) (tex_gl_type f) texels) g in
        upload_levels n target s f (level + 1) (w / 2) (h / 2) (data + u32 (w * h * bytes_per_pixel f)) palette g
  end.

Fixpoint upload_boxes (n : nat) (target : gl_enum) (s : TextureShape) (f : ColorFormatInfo)
    (level w h d data palette : Z) g : res (Gpu V) :=
  match n with
  | O => Ok g
  | S n =>
      let row_pitch := u32 (w * bytes_per_pixel f) in
      let slice_pitch := u32 (row_pitch * h) in
      let size := w * h * d * bytes_per_pixel f in
      _ ← vram_range vram_size data size;
      _ ← in_bounds (size <? 2 ^ 32);
      unswizzled ← unswizzle_box (sub_vram g data size) w h d ∅ row_pitch slice_pitch (bytes_per_pixel f);
      converted ← convert_texture_data s (Buf unswizzled 0 (u32 (slice_pitch * d))) (vram_from g palette)
                    w h d row_pitch slice_pitch;
      let texels := default (rd_bytes unswizzled 0 (u32 (slice_pitch * d))) converted in
      let g := emit (glTexImage3D target level (gl_internal_format f) w h d 0 (gl_format f) (tex_gl_type f) texels) g in
      upload_boxes n target s f (level + 1) (w / 2) (h / 2) (d / 2) (data + u32 size) palette g
  end.

Definition faces : list gl_enum :=
  [GL_TEXTURE_CUBE_MAP_POSITIVE_X; GL_TEXTURE_CUBE_MAP_NEGATIVE_X; GL_TEXTURE_CUBE_MAP_POSITIVE_Y;
   GL_TEXTURE_CUBE_MAP_NEGATIVE_Y; GL_TEXTURE_CUBE_MAP_POSITIVE_Z; GL_TEXTURE_CUBE_MAP_NEGATIVE_Z].

Definition upload_gl_texture (target : gl_enum) (s : TextureShape) (data palette : Z) g : res (Gpu V) :=
  f ← color_format_info (tex_color_format s);
  if bool_decide (target = GL_TEXTURE_1D) then Fault assert_failed
  else if bool_decide (target = GL_TEXTURE_RECTANGLE) then upload_rectangle target s f data palette g
  else if bool_decide (target = GL_TEXTURE_2D) || bool_decide (target ∈ faces) then
    upload_levels (Z.to_nat (levels s)) target s f 0 (width s) (height s) data palette g
  else if bool_decide (target = GL_TEXTURE_3D) then
    _ ← assert (negb (is_compressed f));
    _ ← assert (negb (linear f));
    upload_boxes (Z.to_nat (levels s)) target s f 0 (width s) (height s) (depth s) data palette g
  else Fault assert_failed.

(** The bytes of a face of a cube map with its mipmaps, up to the next alignment. *)
Fixpoint face_length (n : nat) (f : ColorFormatInfo) (w h length : Z) : Z :=
  match n with
  | O => length
  | S n =>
      let size := if is_compressed f then u32 (w / 4 * h / 4 * block_size f) else u32 (w * h * bytes_per_pixel f) in
      face_length n f (w / 2) (h / 2) (length + size)
  end.

Definition face_align (length : Z) : Z :=
  (length + NV2A_CUBEMAP_FACE_ALIGNMENT - 1) .& (.~ (NV2A_CUBEMAP_FACE_ALIGNMENT - 1)).

Fixpoint upload_faces (targets : list gl_enum) (s : TextureShape) (data length palette : Z) g : res (Gpu V) :=
  match targets with
  | [] => Ok g
  | target :: targets =>
      g ← upload_gl_texture target s data palette g;
      upload_faces targets s (data + length) length palette g
  end.

(** ** Bindings *)

Definition texture_target (s : TextureShape) (f : ColorFormatInfo) : res gl_enum :=
  if cubemap s then
    _ ← assert (negb (linear f));
    _ ← assert (dimensionality s =? 2);
    Ok GL_TEXTURE_CUBE_MAP
  else if linear f then
    _ ← assert (dimensionality s =? 2);
    Ok GL_TEXTURE_RECTANGLE
  else if dimensionality s =? 1 then Ok GL_TEXTURE_1D
  else if dimensionality s =? 2 then Ok GL_TEXTURE_2D
  else if dimensionality s =? 3 then Ok GL_TEXTURE_3D
  else Fault assert_failed.

(** [g_malloc] of a binding: a pointer that was not in use. *)
Definition new_binding (b : TextureBinding) g : Z * Gpu V :=
  let p := next_binding (textures (pg g)) in
  (p, on_textures (λ t, t <| bindings := <[p := b]> (bindings t) |> <| next_binding := p + 1 |>) g).

Definition generate_texture (s : TextureShape) (data palette : Z) g : res (Z * Gpu V) :=
  f ← color_format_info (tex_color_format s);
  let texture := gl_new_texture (gl g) in
  let g := emit (glGenTextures texture) g in
  target ← texture_target s f;
  let g := emit (glBindTexture target texture) g in
  g ← (if bool_decide (target = GL_TEXTURE_CUBE_MAP) then
         let length := face_align (face_length (Z.to_nat (levels s)) f (width s) (height s) 0) in
         upload_faces faces s data length palette g
       else upload_gl_texture target s data palette g);
  let g := if linear f then g
           else emit (glTexParameterLevel target GL_TEXTURE_MAX_LEVEL (u32 (levels s - 1)))
                  (emit (glTexParameterLevel target GL_TEXTURE_BASE_LEVEL (min_mipmap_level s)) g) in
  let g := if existsb (λ e, bool_decide (e ≠ GL_ZERO)) (gl_swizzle_mask f)
           then emit (glTexParameteriv target GL_TEXTURE_SWIZZLE_RGBA (gl_swizzle_mask f)) g else g in
  Ok (new_binding (Binding target texture 1) g).

(** A pointer to a binding that is in use. *)
Definition get_binding (p : Z) g : res TextureBinding :=
  match bindings (textures (pg g)) !! p with Some b => Ok b | None => Fault undefined_behaviour end.

Definition set_binding (p : Z) (b : TextureBinding) : Gpu V → Gpu V :=
  on_textures (λ t, t <| bindings := <[p := b]> (bindings t) |>).

Definition texture_binding_destroy (p : Z) g : res (Gpu V) :=
  b ← get_binding p g;
  _ ← assert (0 <? refcnt b);
  let n := refcnt b - 1 in
  if n =? 0 then
    Ok (on_textures (λ t, t <| bindings := delete p (bindings t) |>) (emit (glDeleteTextures (gl_texture b)) g))
  else Ok (set_binding p (b <| refcnt := n |>) g).

(** ** The cache *)

Definition texture_cache_entry_init g (_ k : TextureKey) : res (TextureKey * Gpu V) :=
  '(p, g) ← generate_texture (key_state k) (texture_data k) (palette_data k) g;
  Ok (k <| key_binding := Some p |>, g).

Definition texture_cache_entry_deinit g (a : TextureKey) : res (TextureKey * Gpu V) :=
  match key_binding a with
  | None => Fault undefined_behaviour
  | Some p => g ← texture_binding_destroy p g; Ok (a, g)
  end.

(** [memcmp] is 0 on equal states, and only there. *)
Definition texture_cache_entry_compare (a b : TextureKey) : Z :=
  if bool_decide (key_state a = key_state b) then 0 else 1.

#[local] Instance texture_lru : LruObject (Gpu V) TextureKey TextureKey := {|
  obj_init := texture_cache_entry_init;
  obj_deinit := texture_cache_entry_deinit;
  obj_key_compare := texture_cache_entry_compare
|}.

Definition fast_hash (data : list Z) : res Z := XXH64 data 0.
Definition fnv_hash (data : list Z) : res Z := XXH64 data 0.

(** A lookup in the cache: the binding, with one user more. *)
Definition cached_texture (hash : Z) (k : TextureKey) g : res (Z * Gpu V) :=
  '(i, cache, g) ← lru_lookup g (texture_cache (textures (pg g))) hash k;
  let g := on_textures (λ t, t <| texture_cache := cache |>) g in
  '(_, n) ← deref (heap cache) (Some i);
  match key_binding (obj n) with
  | None => Fault assert_failed
  | Some p =>
      b ← get_binding p g;
      Ok (p, set_binding p (b <| refcnt := u32 (refcnt b + 1) |>) g)
  end.

(** ** The texture registers *)

Definition palette_entries (index : Z) : res Z :=
  if index =? NV_PGRAPH_TEXPALETTE0_LENGTH_256 then Ok 256
  else if index =? NV_PGRAPH_TEXPALETTE0_LENGTH_128 then Ok 128
  else if index =? NV_PGRAPH_TEXPALETTE0_LENGTH_64 then Ok 64
  else if index =? NV_PGRAPH_TEXPALETTE0_LENGTH_32 then Ok 32
  else Fault assert_failed.

(** The size of the texture, and how many of its mipmap levels are used. *)
Definition texture_size (f : ColorFormatInfo) (dims fmt rect lvls max_level : Z) : res (Z * Z * Z * Z) :=
  let log_w := GET_MASK fmt NV_PGRAPH_TEXFMT0_BASE_SIZE_U in
  let log_h := GET_MASK fmt NV_PGRAPH_TEXFMT0_BASE_SIZE_V in
  let log_d := GET_MASK fmt NV_PGRAPH_TEXFMT0_BASE_SIZE_P in
  if linear f then
    _ ← assert (dims =? 2);
    Ok (GET_MASK rect NV_PGRAPH_TEXIMAGERECT0_WIDTH, GET_MASK rect NV_PGRAPH_TEXIMAGERECT0_HEIGHT, 1, lvls)
  else
    w ← shift_1 log_w;
    h ← shift_1 log_h;
    d ← shift_1 log_d;
    let lvls := lvls `min` (max_level + 1) in
    let lvls :=
      if negb (is_compressed f) then lvls `min` ((log_w `max` log_h) + 1)
      else if (log_w <? 2) || (log_h <? 2) then 1
      else lvls `min` ((log_w `min` log_h) - 1) in
    _ ← assert (0 <? lvls);
    Ok (w, h, d, lvls).

(** The number of bytes of the texture, which are hashed. *)
Fixpoint levels_length (n : nat) (f : ColorFormatInfo) (w h length : Z) : Z :=
  match n with
  | O => length
  | S n =>
      let least := if is_compressed f then 4 else 1 in
      let w := w `max` least in
      let h := h `max` least in
      let size := if is_compressed f then u32 (w / 4 * h / 4 * block_size f) else u32 (w * h * bytes_per_pixel f) in
      levels_length n f (w / 2) (h / 2) (length + size)
  end.

Definition texture_length (f : ColorFormatInfo) (s : TextureShape) : res Z :=
  if linear f then
    _ ← assert (negb (cubemap s));
    _ ← assert (dimensionality s =? 2);
    Ok (u32 (height s * tex_pitch s))
  else if 2 <=? dimensionality s then
    let length := levels_length (Z.to_nat (levels s)) f (width s) (height s) 0 in
    length ← (if cubemap s then
                _ ← assert (dimensionality s =? 2);
                Ok (face_align length * 6)
              else Ok length);
    Ok (if 3 <=? dimensionality s then length * depth s else length)
  else Ok 0.

(** Filters of linear textures: no mipmaps. *)
Definition linear_min_filter (min_filter : Z) : Z :=
  if (min_filter =? NV_PGRAPH_TEXFILTER0_MIN_BOX_NEARESTLOD) || (min_filter =? NV_PGRAPH_TEXFILTER0_MIN_BOX_TENT_LOD)
  then NV_PGRAPH_TEXFILTER0_MIN_BOX_LOD0
  else if (min_filter =? NV_PGRAPH_TEXFILTER0_MIN_TENT_NEARESTLOD) || (min_filter =? NV_PGRAPH_TEXFILTER0_MIN_TENT_TENT_LOD)
  then NV_PGRAPH_TEXFILTER0_MIN_TENT_LOD0
  else min_filter.

(** Filters, wrapping and border colour. *)
Definition set_sampling (target : gl_enum) (f : ColorFormatInfo) (dims fmt filter addr border : Z) g : res (Gpu V) :=
  let min_filter := GET_MASK filter NV_PGRAPH_TEXFILTER0_MIN in
  let min_filter := if linear f then linear_min_filter min_filter else min_filter in
  e ← enum_at pgraph_texture_min_filter_map min_filter;
  let g := emit (glTexParameteri target GL_TEXTURE_MIN_FILTER e) g in
  e ← enum_at pgraph_texture_mag_filter_map (GET_MASK filter NV_PGRAPH_TEXFILTER0_MAG);
  let g := emit (glTexParameteri target GL_TEXTURE_MAG_FILTER e) g in
  e ← checked_enum_at pgraph_texture_addr_map (GET_MASK addr NV_PGRAPH_TEXADDRESS0_ADDRU);
  let g := emit (glTexParameteri target GL_TEXTURE_WRAP_S e) g in
  g ← (if 1 <? dims then
         e ← checked_enum_at pgraph_texture_addr_map (GET_MASK addr NV_PGRAPH_TEXADDRESS0_ADDRV);
         Ok (emit (glTexParameteri target GL_TEXTURE_WRAP_T e) g)
       else Ok g);
  g ← (if 2 <? dims then
         e ← checked_enum_at pgraph_texture_addr_map (GET_MASK addr NV_PGRAPH_TEXADDRESS0_ADDRP);
         Ok (emit (glTexParameteri target GL_TEXTURE_WRAP_R e) g)
       else Ok g);
  if GET_MASK fmt NV_PGRAPH_TEXFMT0_BORDER_SOURCE =? NV_PGRAPH_TEXFMT0_BORDER_SOURCE_COLOR then
    Ok (emit (glTexParameterfv target GL_TEXTURE_BORDER_COLOR
                [channel border 16; channel border 8; channel border 0; channel border 24]) g)
  else Ok g.

(** The texture of a unit changes: the unit gives up the binding it had. *)
Definition assign_texture (i p : Z) g : res (Gpu V) :=
  g ← (match texture_binding (textures (pg g)) !! i with
       | Some old => texture_binding_destroy old g
       | None => Ok g
       end);
  Ok (on_textures (λ t, t <| texture_binding := <[i := p]> (texture_binding t) |>
                          <| texture_dirty := texture_dirty t ∖ {[i]} |>) g).

(** A unit that is enabled, and whose texture may have changed. *)
Definition load_texture (i : Z) g : res (Gpu V) :=
  let ctl_0 := reg g (NV_PGRAPH_TEXCTL0_0 + i * 4) in
  let ctl_1 := reg g (NV_PGRAPH_TEXCTL1_0 + i * 4) in
  let fmt := reg g (NV_PGRAPH_TEXFMT0 + i * 4) in
  let palette := reg g (NV_PGRAPH_TEXPALETTE0 + i * 4) in
  let offset := reg g (NV_PGRAPH_TEXOFFSET0 + i * 4) in
  let max_level := GET_MASK ctl_0 NV_PGRAPH_TEXCTL0_0_MAX_LOD_CLAMP in
  let dims := GET_MASK fmt NV_PGRAPH_TEXFMT0_DIMENSIONALITY in
  let color := GET_MASK fmt NV_PGRAPH_TEXFMT0_COLOR in
  palette_length ← palette_entries (GET_MASK palette NV_PGRAPH_TEXPALETTE0_LENGTH);
  _ ← assert (color <? kelvin_color_formats);
  f ← color_format_info color;
  _ ← assert (nz (bytes_per_pixel f));
  '(w, h, d, lvls) ← texture_size f dims fmt (reg g (NV_PGRAPH_TEXIMAGERECT0 + i * 4))
                       (GET_MASK fmt NV_PGRAPH_TEXFMT0_MIPMAP_LEVELS) max_level;
  '(data, dma_len) ← nv_dma_map vram_size (nv g)
    (if nz (GET_MASK fmt NV_PGRAPH_TEXFMT0_CONTEXT_DMA) then dma_b (contexts (pg g)) else dma_a (contexts (pg g)));
  _ ← assert (offset <? dma_len);
  let palette_offset := palette .& NV_PGRAPH_TEXPALETTE0_OFFSET in
  '(pal, palette_dma_len) ← nv_dma_map vram_size (nv g)
    (if nz (GET_MASK palette NV_PGRAPH_TEXPALETTE0_CONTEXT_DMA) then dma_b (contexts (pg g)) else dma_a (contexts (pg g)));
  _ ← assert (palette_offset <? palette_dma_len);
  let s := TexShape (nz (GET_MASK fmt NV_PGRAPH_TEXFMT0_CUBEMAPENABLE)) dims color lvls w h d
             (GET_MASK ctl_0 NV_PGRAPH_TEXCTL0_0_MIN_LOD_CLAMP) max_level
             (GET_MASK ctl_1 NV_PGRAPH_TEXCTL1_0_IMAGE_PITCH) in
  length ← texture_length f s;
  _ ← vram_range vram_size (data + offset) length;
  _ ← vram_range vram_size (pal + palette_offset) palette_length;
  h1 ← fast_hash (rd_bytes (vram (nv g)) (data + offset) length);
  h2 ← fnv_hash (rd_bytes (vram (nv g)) (pal + palette_offset) palette_length);
  '(p, g) ← cached_texture (h1 .^ h2) (Key s (data + offset) (pal + palette_offset) None) g;
  b ← get_binding p g;
  let g := emit (glBindTexture (gl_target b) (gl_texture b)) g in
  g ← set_sampling (gl_target b) f dims fmt (reg g (NV_PGRAPH_TEXFILTER0 + i * 4))
        (reg g (NV_PGRAPH_TEXADDRESS0 + i * 4)) (reg g (NV_PGRAPH_BORDERCOLOR0 + i * 4)) g;
  assign_texture i p g.

Definition bind_texture (i : Z) g : res (Gpu V) :=
  let filter := reg g (NV_PGRAPH_TEXFILTER0 + i * 4) in
  _ ← palette_entries (GET_MASK (reg g (NV_PGRAPH_TEXPALETTE0 + i * 4)) NV_PGRAPH_TEXPALETTE0_LENGTH);
  _ ← assert (negb (nz (filter .& NV_PGRAPH_TEXFILTER0_ASIGNED)));
  _ ← assert (negb (nz (filter .& NV_PGRAPH_TEXFILTER0_RSIGNED)));
  _ ← assert (negb (nz (filter .& NV_PGRAPH_TEXFILTER0_GSIGNED)));
  _ ← assert (negb (nz (filter .& NV_PGRAPH_TEXFILTER0_BSIGNED)));
  let g := emit (glActiveTexture i) g in
  if negb (nz (GET_MASK (reg g (NV_PGRAPH_TEXCTL0_0 + i * 4)) NV_PGRAPH_TEXCTL0_0_ENABLE)) then
    Ok (foldl (λ g target, emit (glBindTexture target 0) g) g
          [GL_TEXTURE_CUBE_MAP; GL_TEXTURE_RECTANGLE; GL_TEXTURE_1D; GL_TEXTURE_2D; GL_TEXTURE_3D])
  else
    match texture_binding (textures (pg g)) !! i with
    | Some p =>
        if bool_decide (i ∈ texture_dirty (textures (pg g))) then load_texture i g
        else b ← get_binding p g; Ok (emit (glBindTexture (gl_target b) (gl_texture b)) g)
    | None => load_texture i g
    end.

Definition pgraph_bind_textures g : res (Gpu V) := for_int NV2A_MAX_TEXTURES bind_texture g.

(** ** What the textures leave alone *)

Section calls.
Context {T : Type} (π : Gpu V → T) (ignores : ignores_calls π).
#[local] Hint Rewrite ignores using done : kept.

Lemma upload_rectangle_kept target s f data palette g :
  kept π id g (upload_rectangle target s f data palette g).
Proof. unfold upload_rectangle. keeps. Qed.
#[local] Hint Resolve upload_rectangle_kept : kept.

Lemma upload_levels_kept n target s f level w h data palette g :
  kept π id g (upload_levels n target s f level w h data palette g).
Proof.
  revert level w h data g. induction n as [| n IH]; intros; cbn [upload_levels]; [by apply kept_ok |]. keeps.
Qed.
#[local] Hint Resolve upload_levels_kept : kept.

Lemma upload_boxes_kept n target s f level w h d data palette g :
  kept π id g (upload_boxes n target s f level w h d data palette g).
Proof.
  revert level w h d data g. induction n as [| n IH]; intros; cbn [upload_boxes]; [by apply kept_ok |]. keeps.
Qed.
#[local] Hint Resolve upload_boxes_kept : kept.

Lemma upload_gl_texture_kept target s data palette g : kept π id g (upload_gl_texture target s data palette g).
Proof. unfold upload_gl_texture. keeps. Qed.
#[local] Hint Resolve upload_gl_texture_kept : kept.

Lemma upload_faces_kept targets s data length palette g :
  kept π id g (upload_faces targets s data length palette g).
Proof.
  revert data g. induction targets as [| target targets IH]; intros; cbn [upload_faces]; [by apply kept_ok |].
  keeps.
Qed.

Lemma set_sampling_kept target f dims fmt filter addr border g :
  kept π id g (set_sampling target f dims fmt filter addr border g).
Proof. unfold set_sampling. keeps. Qed.
End calls.
#[local] Hint Resolve upload_gl_texture_kept upload_faces_kept set_sampling_kept : kept.

(** All but the textures and the calls of OpenGL that do not concern the programs. *)
Definition beside_textures g :=
  (nv g, context_surfaces_2d (pg g), image_blit (pg g), contexts (pg g), surfaces (pg g),
   shaders (pg g), batch (pg g), report (pg g), nv2a_dirty g, vga_dirty g, waiting g, program_calls (gl g),
   (texture_matrix_enable (textures (pg g)), bump_env_matrix (textures (pg g)))).

Lemma generate_texture_kept s data palette g : kept beside_textures snd g (generate_texture s data palette g).
Proof. unfold generate_texture. keeps.
Qed.
#[local] Hint Resolve generate_texture_kept : kept.

Lemma texture_binding_destroy_kept p g : kept beside_textures id g (texture_binding_destroy p g).
Proof. unfold texture_binding_destroy. keeps. Qed.
#[local] Hint Resolve texture_binding_destroy_kept : kept.

Lemma lru_lookup_kept s hsh key g : kept beside_textures snd g (lru_lookup g s hsh key).
Proof.
  unfold lru_lookup, lookup_miss, allocate, evict. cbn [obj_init obj_deinit texture_lru].
  unfold texture_cache_entry_init, texture_cache_entry_deinit. keeps.
Qed.
#[local] Hint Resolve lru_lookup_kept : kept.

Lemma load_texture_kept i g : kept beside_textures id g (load_texture i g).
Proof. unfold load_texture, cached_texture, assign_texture. keeps. Qed.
#[local] Hint Resolve load_texture_kept : kept.

Lemma bind_textures_kept g : kept beside_textures id g (pgraph_bind_textures g).
Proof. unfold pgraph_bind_textures, bind_texture. keeps. Qed.

(** ** Reference counts

    The pointers to bindings that are held, by units, by the entries of the cache that are
    in use, and by the code while it runs ([extra]). *)

Definition occurrences (p : Z) (l : list Z) : Z := Z.of_nat (length (filter (p =.) l)).

Definition held (units : gmap Z Z) (entries : list TextureKey) (extra : list Z) : list Z :=
  extra ++ omap key_binding entries ++ (map_to_list units).*2.

(** Every binding counts those that hold it, and there is none that nobody holds. *)
Definition counted (t : Textures) (l : list Z) : Prop :=
  (∀ p, match bindings t !! p with
        | Some b => refcnt b = occurrences p l ∧ 0 < refcnt b
        | None => p ∉ l
        end) ∧
  ∀ p b, bindings t !! p = Some b → p < next_binding t.

Lemma occurrences_cons p q l : occurrences p (q :: l) = occurrences p l + (if decide (p = q) then 1 else 0).
Proof. unfold occurrences. rewrite filter_cons. case_decide; cbn [length]; lia. Qed.

Lemma occurrences_perm p l l' : l ≡ₚ l' → occurrences p l = occurrences p l'.
Proof. intros E. unfold occurrences. by rewrite E. Qed.

Lemma occurrences_pos p l : p ∈ l ↔ 0 < occurrences p l.
Proof.
  induction l as [| q l IH].
  - split; [by intros ?%not_elem_of_nil | by vm_compute].
  - rewrite elem_of_cons, occurrences_cons, IH. assert (0 ≤ occurrences p l) by (unfold occurrences; lia).
    case_decide; intuition lia.
Qed.

Lemma occurrences_bound p l : occurrences p l ≤ Z.of_nat (length l).
Proof. unfold occurrences. pose proof (length_filter (p =.) l). lia. Qed.

Lemma counted_perm t l l' : l ≡ₚ l' → counted t l → counted t l'.
Proof.
  intros E [C N]. split; [| done]. intros p. specialize (C p). case_match.
  - by rewrite <- (occurrences_perm _ _ _ E).
  - by rewrite <- E.
Qed.

Lemma counted_live t l p : counted t l → p ∈ l → ∃ b, bindings t !! p = Some b ∧ 0 < refcnt b.
Proof. intros [C _] Hp. specialize (C p). case_match; [naive_solver | done]. Qed.

(** The three ways in which the bindings change. *)
Lemma counted_new t l target texture : counted t l →
  counted (t <| bindings := <[next_binding t := Binding target texture 1]> (bindings t) |>
             <| next_binding := next_binding t + 1 |>) (next_binding t :: l).
Proof.
  intros [C N]. assert (bindings t !! next_binding t = None) as F.
  { apply eq_None_not_Some. intros [b E]. specialize (N _ _ E). lia. }
  pose proof (C (next_binding t)) as Cn. rewrite F in Cn.
  split; cbn [set bindings next_binding].
  - intros p. destruct (decide (p = next_binding t)) as [-> | D].
    + rewrite lookup_insert_eq, occurrences_cons, decide_True by done. cbn [refcnt].
      rewrite occurrences_pos in Cn. unfold occurrences in *. lia.
    + rewrite lookup_insert_ne by done. specialize (C p). rewrite occurrences_cons, decide_False by done.
      case_match; [by rewrite Z.add_0_r | by apply not_elem_of_cons].
  - intros p b. destruct (decide (p = next_binding t)) as [-> | D]; [lia |].
    rewrite lookup_insert_ne by done. intros E. specialize (N _ _ E). lia.
Qed.

Lemma counted_more t l p b : counted t l → bindings t !! p = Some b →
  counted (t <| bindings := <[p := b <| refcnt := refcnt b + 1 |>]> (bindings t) |>) (p :: l).
Proof.
  intros [C N] Hp. split; cbn [set bindings next_binding].
  - intros q. specialize (C q). destruct (decide (q = p)) as [-> | D].
    + rewrite lookup_insert_eq, occurrences_cons, decide_True by done. cbn. rewrite Hp in C. lia.
    + rewrite lookup_insert_ne, occurrences_cons, decide_False, Z.add_0_r by done.
      case_match; [done | by apply not_elem_of_cons].
  - intros q c. destruct (decide (q = p)) as [-> | D]; [rewrite lookup_insert_eq; eauto |].
    rewrite lookup_insert_ne by done. eauto.
Qed.

Lemma counted_fewer t l p b : counted t (p :: l) → bindings t !! p = Some b →
  counted (t <| bindings := if refcnt b - 1 =? 0 then delete p (bindings t)
                            else <[p := b <| refcnt := refcnt b - 1 |>]> (bindings t) |>) l.
Proof.
  intros [C N] Hp. pose proof (C p) as Cp. rewrite Hp, occurrences_cons, decide_True in Cp by done.
  split; cbn [set bindings next_binding].
  - intros q. specialize (C q). rewrite occurrences_cons in C. destruct (decide (q = p)) as [-> | D].
    + destruct (Z.eqb_spec (refcnt b - 1) 0).
      * rewrite lookup_delete_eq, occurrences_pos. lia.
      * rewrite lookup_insert_eq. cbn. lia.
    + assert ((if refcnt b - 1 =? 0 then delete p (bindings t)
               else <[p := b <| refcnt := refcnt b - 1 |>]> (bindings t)) !! q = bindings t !! q) as ->
        by (destruct (refcnt b - 1 =? 0); [by apply lookup_delete_ne | by apply lookup_insert_ne]).
      case_match; [lia | by apply not_elem_of_cons in C as []].
  - intros q c E. destruct (decide (q = p)) as [-> | D]; [eauto |].
    destruct (refcnt b - 1 =? 0); [rewrite lookup_delete_ne in E by done | rewrite lookup_insert_ne in E by done]; eauto.
Qed.

Lemma binding_destroy_counted p l g : counted (textures (pg g)) (p :: l) → ∃ g',
  texture_binding_destroy p g = Ok g' ∧ counted (textures (pg g')) l ∧
  texture_binding (textures (pg g')) = texture_binding (textures (pg g)) ∧
  texture_cache (textures (pg g')) = texture_cache (textures (pg g)).
Proof.
  intros C. destruct (counted_live _ _ p C) as (b & Hp & Hpos); [by left |].
  pose proof (counted_fewer _ _ _ _ C Hp) as C'. unfold texture_binding_destroy, get_binding.
  rewrite Hp. cbn [mbind res_bind]. rewrite (proj2 (Z.ltb_lt 0 (refcnt b)) Hpos). cbn [assert mbind res_bind].
  destruct (refcnt b - 1 =? 0); by eexists.
Qed.

Lemma generate_texture_binding s data palette g q g' : generate_texture s data palette g = Ok (q, g') →
  let t := textures (pg g) in q = next_binding t ∧ ∃ target texture,
  textures (pg g') = t <| bindings := <[next_binding t := Binding target texture 1]> (bindings t) |>
                       <| next_binding := next_binding t + 1 |>.
Proof.
  cbv zeta. unfold generate_texture. intros (f & _ & E)%bind_ok. apply bind_ok in E as (target & _ & E).
  apply bind_ok in E as (g1 & E1 & E).
  assert (textures (pg g1) = textures (pg g)) as T1.
  { match type of E1 with ?m = _ => assert (kept (λ g, textures (pg g)) id g m) as K by keeps end.
    exact (K _ E1). }
  injection E as <- <-.
  destruct (existsb _ _), (linear f); cbn [emit on_textures set pg gl textures]; rewrite T1; eauto.
Qed.

(** The entries in use have a binding, and all holders are counted. *)
Definition owned (units : gmap Z Z) (extra : list Z) (entries : list TextureKey) g : Prop :=
  Forall (λ k, is_Some (key_binding k)) entries ∧ counted (textures (pg g)) (held units entries extra) ∧
  texture_binding (textures (pg g)) = units.

#[local] Instance owned_textures units extra : Owned (owned units extra).
Proof.
  split.
  - intros l l' g P (F & C & U). split_and!; [by rewrite <- P | | done]. eapply counted_perm; [| done].
    unfold held. by rewrite P.
  - intros l g o k o' g' (F & C & U) E. cbn [obj_init texture_lru] in E.
    apply bind_ok in E as ([q g1] & E & [= <- <-]).
    apply generate_texture_binding in E as (-> & target & texture & Et). split_and!.
    + constructor; [by eexists | done].
    + eapply counted_perm; [| rewrite Et; apply (counted_new _ _ target texture C)].
      unfold held. cbn. apply Permutation_middle.
    + by rewrite Et.
  - intros l g o o' g' (F & C & U) E. cbn [obj_deinit texture_lru] in E. unfold texture_cache_entry_deinit in E.
    destruct (key_binding o) as [p |] eqn:K; [| done]. apply bind_ok in E as (g1 & E & [= <- <-]).
    assert (counted (textures (pg g)) (p :: held units l extra)) as C1.
    { eapply counted_perm; [| exact C]. unfold held. cbn. rewrite K. symmetry. apply Permutation_middle. }
    destruct (binding_destroy_counted _ _ _ C1) as (g2 & E2 & C2 & U2 & _). rewrite E in E2.
    injection E2 as <-. inversion F; subst. by split_and!.
Qed.

(** The state of the textures between two methods ([extra] empty), or within one. *)
Definition textures_hold (extra : list Z) g : Prop :=
  let t := textures (pg g) in
  ∃ v, represents (texture_cache t) v ∧ (length (used v ++ unused v) ≤ 512)%nat ∧
    owned (texture_binding t) extra (used_objects v) g ∧
    dom (texture_binding t) ⊆ list_to_set (seqZ 0 NV2A_MAX_TEXTURES).

Lemma units_length (m : gmap Z Z) : dom m ⊆ list_to_set (seqZ 0 NV2A_MAX_TEXTURES) → (length (map_to_list m) ≤ 4)%nat.
Proof.
  intros D. rewrite length_map_to_list, <- size_dom. apply subseteq_size in D. etrans; [exact D |].
  apply (bool_decide_unpack _). by vm_compute.
Qed.

Lemma omap_length {A B} (f : A → option B) l : (length (omap f l) ≤ length l)%nat.
Proof.
  induction l as [| a l IH]; [done |].
  change (omap f (a :: l)) with (match f a with Some b => b :: omap f l | None => omap f l end).
  destruct (f a); cbn [length]; lia.
Qed.

Lemma held_length units v : (length (used v ++ unused v) ≤ 512)%nat →
  dom units ⊆ list_to_set (seqZ 0 NV2A_MAX_TEXTURES) →
  Z.of_nat (length (held units (used_objects v) [])) < 2 ^ 32 - 1.
Proof.
  intros L D. apply units_length in D. unfold held. rewrite !length_app, length_fmap. cbn [length].
  pose proof (omap_length key_binding (used_objects v)).
  pose proof (omap_length (λ i, snd <$> contents v !! i) (used v)). unfold used_objects in *.
  rewrite length_app in L. lia.
Qed.

Lemma cached_texture_holds hsh k g p g' : textures_hold [] g → cached_texture hsh k g = Ok (p, g') →
  textures_hold [p] g'.
Proof.
  intros (v & R & L & O & D). unfold cached_texture. intros ([[i cache] g1] & E & E1)%bind_ok.
  destruct (lookup_owned (owned _ []) _ _ _ _ _ _ _ _ R O E) as (v' & R' & (F & C & U) & Hi & L').
  apply bind_ok in E1 as ([j n] & En & E1). cbn [deref] in En.
  destruct (heap cache !! i) as [n' |] eqn:Hn; [| done]. injection En as <- <-.
  destruct (key_binding (obj n')) as [q |] eqn:K; [| done]. apply bind_ok in E1 as (b & Eb & [= <- <-]).
  unfold get_binding in Eb. cbn [on_textures set pg textures bindings] in Eb.
  destruct (bindings (textures (pg g1)) !! q) as [b' |] eqn:Hq; [| done]. injection Eb as <-.
  assert (u32 (refcnt b' + 1) = refcnt b' + 1) as ->.
  { apply wrap_small. destruct C as [C _]. specialize (C q). rewrite Hq in C.
    pose proof (occurrences_bound q (held (texture_binding (textures (pg g))) (used_objects v') [])).
    pose proof (held_length _ v' ltac:(by rewrite L') D). lia. }
  exists v'. cbn [set_binding on_textures set pg textures texture_cache texture_binding bindings].
  rewrite U. split_and!; [done | by rewrite L' | | done]. split_and!; [done | | done].
  exact (counted_more _ _ _ _ C Hq).
Qed.

(** What the invariant is about; the calls of OpenGL do not change it. *)
Definition texture_store g :=
  let t := textures (pg g) in (texture_binding t, texture_cache t, bindings t, next_binding t).

Lemma textures_hold_store extra g g' : texture_store g' = texture_store g → textures_hold extra g → textures_hold extra g'.
Proof.
  unfold texture_store, textures_hold, owned, counted. cbv zeta. intros [= -> -> -> ->]. done.
Qed.

Lemma assign_texture_holds i p g g' : 0 ≤ i < NV2A_MAX_TEXTURES → textures_hold [p] g →
  assign_texture i p g = Ok g' → textures_hold [] g'.
Proof.
  intros Hi (v & R & L & (F & C & _) & D). unfold assign_texture. intros (g1 & E & [= <-])%bind_ok.
  set (m := texture_binding (textures (pg g))) in *.
  assert (counted (textures (pg g1)) (held (<[i := p]> m) (used_objects v) []) ∧
    texture_binding (textures (pg g1)) = m ∧ texture_cache (textures (pg g1)) = texture_cache (textures (pg g)))
    as (C1 & U1 & K1).
  { destruct (m !! i) as [old |] eqn:Ho.
    - assert (counted (textures (pg g)) (old :: held (<[i := p]> m) (used_objects v) [])) as C1.
      { eapply counted_perm; [| exact C]. unfold held. rewrite <- insert_delete_eq.
        rewrite (map_to_list_insert (delete i m)) by apply lookup_delete_eq.
        rewrite <- (insert_delete_id m i old Ho) at 1.
        rewrite (map_to_list_insert (delete i m)) by apply lookup_delete_eq. cbn.
        rewrite <- !Permutation_middle. apply perm_swap. }
      destruct (binding_destroy_counted _ _ _ C1) as (g2 & E2 & C2 & U2 & K2). rewrite E in E2.
      by injection E2 as <-.
    - injection E as <-. split_and!; [| done | done]. eapply counted_perm; [| exact C].
      unfold held. rewrite (map_to_list_insert m) by done. cbn. apply Permutation_middle. }
  exists v. cbn [on_textures set pg textures texture_cache texture_binding bindings].
  rewrite U1, K1. split_and!; [done | done | split; [done | split; [exact C1 | cbn; by rewrite U1]] |].
  rewrite dom_insert_L. apply union_subseteq. split; [| done].
  apply singleton_subseteq_l, elem_of_list_to_set, elem_of_seqZ. lia.
Qed.

Lemma load_texture_holds i g : 0 ≤ i < NV2A_MAX_TEXTURES → textures_hold [] g →
  ensures (load_texture i g) (textures_hold []).
Proof.
  intros Hi Hg. unfold load_texture. skips.
  apply (ensures_bind _ _ (λ pg, textures_hold [pg.1] pg.2)).
  { intros [p g1] E. exact (cached_texture_holds _ _ _ _ _ Hg E). }
  intros [p g1] H1. skips.
  eapply ensures_bind; [apply (set_sampling_kept texture_store); eauto with kept |].
  intros g2 H2 g3 E. eapply assign_texture_holds; [done | | exact E].
  exact (textures_hold_store _ _ _ H2 H1).
Qed.

Lemma bind_textures_holds g g' : textures_hold [] g → pgraph_bind_textures g = Ok g' → textures_hold [] g'.
Proof.
  intros Hg. revert g'. apply ensures_for_int; [| done]. clear g Hg. intros i g Hi Hg. unfold bind_texture. skips.
  - apply ensures_ok. eapply textures_hold_store; [| exact Hg]. done.
  - by apply load_texture_holds.
  - apply ensures_ok. by eapply textures_hold_store; [| exact Hg].
  - by apply load_texture_holds.
Qed.

End texture.

#[export] Hint Resolve bind_textures_kept : kept.
