(* ===== verification/Vsh.v ===== *)
(** * Vertex programs

    src/hw/xbox/nv2a/nv2a_vsh.c: the fields of the instructions of the vertex shader, which
    are four words each.  The translation to GLSL is in VshText.v. *)

From S2P Require Import Prelude Bytes.

(** ** Fields *)

Inductive VshFieldName :=
| FLD_ILU | FLD_MAC | FLD_CONST | FLD_V
| FLD_A_NEG | FLD_A_SWZ_X | FLD_A_SWZ_Y | FLD_A_SWZ_Z | FLD_A_SWZ_W | FLD_A_R | FLD_A_MUX
| FLD_B_NEG | FLD_B_SWZ_X | FLD_B_SWZ_Y | FLD_B_SWZ_Z | FLD_B_SWZ_W | FLD_B_R | FLD_B_MUX
| FLD_C_NEG | FLD_C_SWZ_X | FLD_C_SWZ_Y | FLD_C_SWZ_Z | FLD_C_SWZ_W | FLD_C_R_HIGH | FLD_C_R_LOW | FLD_C_MUX
| FLD_OUT_MAC_MASK | FLD_OUT_R | FLD_OUT_ILU_MASK | FLD_OUT_O_MASK | FLD_OUT_ORB | FLD_OUT_ADDRESS | FLD_OUT_MUX
| FLD_A0X | FLD_FINAL.

(** The word, the first bit and the number of bits. *)
Definition field_mapping (f : VshFieldName) : Z * Z * Z :=
  match f with
  | FLD_ILU => (1, 25, 3)
  | FLD_MAC => (1, 21, 4)
  | FLD_CONST => (1, 13, 8)
  | FLD_V => (1, 9, 4)
  | FLD_A_NEG => (1, 8, 1)
  | FLD_A_SWZ_X => (1, 6, 2)
  | FLD_A_SWZ_Y => (1, 4, 2)
  | FLD_A_SWZ_Z => (1, 2, 2)
  | FLD_A_SWZ_W => (1, 0, 2)
  | FLD_A_R => (2, 28, 4)
  | FLD_A_MUX => (2, 26, 2)
  | FLD_B_NEG => (2, 25, 1)
  | FLD_B_SWZ_X => (2, 23, 2)
  | FLD_B_SWZ_Y => (2, 21, 2)
  | FLD_B_SWZ_Z => (2, 19, 2)
  | FLD_B_SWZ_W => (2, 17, 2)
  | FLD_B_R => (2, 13, 4)
  | FLD_B_MUX => (2, 11, 2)
  | FLD_C_NEG => (2, 10, 1)
  | FLD_C_SWZ_X => (2, 8, 2)
  | FLD_C_SWZ_Y => (2, 6, 2)
  | FLD_C_SWZ_Z => (2, 4, 2)
  | FLD_C_SWZ_W => (2, 2, 2)
  | FLD_C_R_HIGH => (2, 0, 2)
  | FLD_C_R_LOW => (3, 30, 2)
  | FLD_C_MUX => (3, 28, 2)
  | FLD_OUT_MAC_MASK => (3, 24, 4)
  | FLD_OUT_R => (3, 20, 4)
  | FLD_OUT_ILU_MASK => (3, 16, 4)
  | FLD_OUT_O_MASK => (3, 12, 4)
  | FLD_OUT_ORB => (3, 11, 1)
  | FLD_OUT_ADDRESS => (3, 3, 8)
  | FLD_OUT_MUX => (3, 2, 1)
  | FLD_A0X => (3, 1, 1)
  | FLD_FINAL => (3, 0, 1)
  end.

(** An instruction is the list of its words. *)
Definition vsh_get_from_token (shader_token : list Z) (subtoken start_bit bit_length : Z) : Z :=
  (nth (Z.to_nat subtoken) shader_token 0 .>> start_bit) .& u32 (.~ u32 (0xFFFFFFFF .<< bit_length)).

Definition vsh_get_field (shader_token : list Z) (field_name : VshFieldName) : Z :=
  let '(subtoken, start_bit, bit_length) := field_mapping field_name in
  u8 (vsh_get_from_token shader_token subtoken start_bit bit_length).
