(* ===== verification/Text.v ===== *)
(** * Text

    What the translations of shaders share: the strings that [QString] builds, the numbers
    that [%d] and [%08X] print, and tables of names. *)

From Stdlib Require Import Ascii.
From stdpp Require Export pretty.
From S2P Require Import Prelude.

Definition newline : string := "
".

Definition line (s : string) : string := s +:+ newline.

Definition concat_strings (l : list string) : string := foldr String.append EmptyString l.

(** A word as [%08X]; an [int] is printed by [pretty]. *)
Definition hex_digit (d : Z) : ascii :=
  nth (Z.to_nat d) ["0"; "1"; "2"; "3"; "4"; "5"; "6"; "7"; "8"; "9"; "A"; "B"; "C"; "D"; "E"; "F"]%char "0"%char.

Definition hex8 (z : Z) : string :=
  foldr (λ i, String (hex_digit ((z .>> (4 * i)) .& 0xF))) EmptyString [7; 6; 5; 4; 3; 2; 1; 0].

(** An entry of a table; an index that cannot exceed it, or one that has to be checked. *)
Definition entry {A} (d : A) (table : list A) (i : Z) : A := nth (Z.to_nat i) table d.

Definition entry_at {A} (table : list A) (i : Z) : res A :=
  match table !! Z.to_nat i with Some a => Ok a | None => Fault out_of_bounds end.

Lemma append_assoc s1 s2 s3 : (s1 +:+ s2) +:+ s3 = s1 +:+ s2 +:+ s3.
Proof. induction s1 as [| a s1 IH]; [done | exact (f_equal (String a) IH)]. Qed.

Lemma append_nil s : s +:+ EmptyString = s.
Proof. induction s as [| a s IH]; [done | exact (f_equal (String a) IH)]. Qed.

Lemma concat_strings_app l l' : concat_strings (l ++ l') = concat_strings l +:+ concat_strings l'.
Proof.
  induction l as [| s l IH]; [done |]. rewrite <- app_comm_cons. unfold concat_strings in *. cbn [foldr].
  by rewrite IH, append_assoc.
Qed.
