(* ===== verification/VshText.v ===== *)
(** * The translation of vertex programs

    src/hw/xbox/nv2a/nv2a_vsh.c: a vertex program of the guest, four words an instruction, is
    translated to the text of a GLSL program, an instruction to up to four calls of macros
    that the text begins with.  An instruction has a part for the multiplier (MAC) and one
    for the scalar unit (ILU); either writes a temporary register and, if the multiplexer
    selects it, an output.

    The text is shown to be that of a sequence of statements, and the statements to have the
    effect of the instructions, for the instructions that read none of what their own first
    statements write. *)

From Stdlib Require Import Ascii.
From S2P Require Import Text Prelude Bytes Vsh.


(** ** Tables *)

Definition VSH_TOKEN_SIZE : Z := 4.
Definition VSH_D3DSCM_CORRECTION : Z := 96.

Definition PARAM_R : Z := 1.
Definition PARAM_V : Z := 2.
Definition PARAM_C : Z := 3.
Definition OUTPUT_C : Z := 0.
Definition OMUX_MAC : Z := 0.
Definition OMUX_ILU : Z := 1.
Definition ILU_NOP : Z := 0.
Definition MAC_NOP : Z := 0.
Definition MAC_ARL : Z := 13.

Record VshOpcodeParams := OpcodeParams { param_A : bool; param_B : bool; param_C : bool }.

Definition mac_opcode_params : list VshOpcodeParams := [
  OpcodeParams false false false; (* NOP *)
  OpcodeParams true false false;  (* MOV *)
  OpcodeParams true true false;   (* MUL *)
  OpcodeParams true false true;   (* ADD *)
  OpcodeParams true true true;    (* MAD *)
  OpcodeParams true true false;   (* DP3 *)
  OpcodeParams true true false;   (* DPH *)
  OpcodeParams true true false;   (* DP4 *)
  OpcodeParams true true false;   (* DST *)
  OpcodeParams true true false;   (* MIN *)
  OpcodeParams true true false;   (* MAX *)
  OpcodeParams true true false;   (* SLT *)
  OpcodeParams true true false;   (* SGE *)
  OpcodeParams true false false   (* ARL *)
].

Definition mask_str : list string :=
  [","; ",w"; ",z"; ",zw"; ",y"; ",yw"; ",yz"; ",yzw"; ",x"; ",xw"; ",xz"; ",xzw"; ",xy"; ",xyw"; ",xyz"; ",xyzw"].

Definition mac_opcode : list string :=
  ["NOP"; "MOV"; "MUL"; "ADD"; "MAD"; "DP3"; "DPH"; "DP4"; "DST"; "MIN"; "MAX"; "SLT"; "SGE"; "ARL A0.x"].

Definition ilu_opcode : list string := ["NOP"; "MOV"; "RCP"; "RCC"; "RSQ"; "EXP"; "LOG"; "LIT"].

Definition ilu_force_scalar : list bool := [false; false; true; true; true; true; true; false].

Definition out_reg_name : list string :=
  ["oPos"; "???"; "???"; "oD0"; "oD1"; "oFog"; "oPts"; "oB0"; "oB1"; "oT0"; "oT1"; "oT2"; "oT3"; "???"; "???"; "A0.x"].

(** ** Operands *)

Definition convert_c_register (c_reg : Z) : Z :=
  let r := s16 ((((c_reg .>> 5) .& 7) - 3) * 32 + (c_reg .& 31)) in
  s16 (r + VSH_D3DSCM_CORRECTION).

(** The fields of the swizzle follow the one of the sign, in the order of the components. *)
Definition next_field (f : VshFieldName) : VshFieldName :=
  match f with
  | FLD_A_NEG => FLD_A_SWZ_X | FLD_A_SWZ_X => FLD_A_SWZ_Y | FLD_A_SWZ_Y => FLD_A_SWZ_Z | FLD_A_SWZ_Z => FLD_A_SWZ_W
  | FLD_B_NEG => FLD_B_SWZ_X | FLD_B_SWZ_X => FLD_B_SWZ_Y | FLD_B_SWZ_Y => FLD_B_SWZ_Z | FLD_B_SWZ_Z => FLD_B_SWZ_W
  | FLD_C_NEG => FLD_C_SWZ_X | FLD_C_SWZ_X => FLD_C_SWZ_Y | FLD_C_SWZ_Y => FLD_C_SWZ_Z | FLD_C_SWZ_Z => FLD_C_SWZ_W
  | FLD_ILU => FLD_MAC | FLD_MAC => FLD_CONST | FLD_CONST => FLD_V | FLD_V => FLD_A_NEG
  | FLD_A_SWZ_W => FLD_A_R | FLD_A_R => FLD_A_MUX | FLD_A_MUX => FLD_B_NEG
  | FLD_B_SWZ_W => FLD_B_R | FLD_B_R => FLD_B_MUX | FLD_B_MUX => FLD_C_NEG
  | FLD_C_SWZ_W => FLD_C_R_HIGH | FLD_C_R_HIGH => FLD_C_R_LOW | FLD_C_R_LOW => FLD_C_MUX
  | FLD_C_MUX => FLD_OUT_MAC_MASK | FLD_OUT_MAC_MASK => FLD_OUT_R | FLD_OUT_R => FLD_OUT_ILU_MASK
  | FLD_OUT_ILU_MASK => FLD_OUT_O_MASK | FLD_OUT_O_MASK => FLD_OUT_ORB | FLD_OUT_ORB => FLD_OUT_ADDRESS
  | FLD_OUT_ADDRESS => FLD_OUT_MUX | FLD_OUT_MUX => FLD_A0X | FLD_A0X | FLD_FINAL => FLD_FINAL
  end.

Definition is_c_swizzle (f : VshFieldName) : bool := match f with FLD_C_SWZ_X => true | _ => false end.

Definition swizzle_str (i : Z) : ascii := entry "x"%char ["x"; "y"; "z"; "w"]%char i.

Definition letters (l : list Z) : string := foldr (λ i, String (swizzle_str i)) EmptyString l.

(** The component that each component of the operand is taken from. *)
Definition swizzle_of (shader_token : list Z) (swizzle_field : VshFieldName) : Z * Z * Z * Z :=
  let get := vsh_get_field shader_token in
  if is_c_swizzle swizzle_field && entry false ilu_force_scalar (get FLD_ILU)
  then let x := get swizzle_field in (x, x, x, x)
  else
    let fy := next_field swizzle_field in
    let fz := next_field fy in
    (get swizzle_field, get fy, get fz, get (next_field fz)).

Definition decode_swizzle (shader_token : list Z) (swizzle_field : VshFieldName) : string :=
  let '(x, y, z, w) := swizzle_of shader_token swizzle_field in
  if (x =? 0) && (y =? 1) && (z =? 2) && (w =? 3) then EmptyString
  else if (x =? y) && (y =? z) && (z =? w) then "." +:+ letters [x]
  else if (y =? z) && (z =? w) then "." +:+ letters [x; y]
  else if z =? w then "." +:+ letters [x; y; z]
  else "." +:+ letters [x; y; z; w].

Definition decode_opcode_input (shader_token : list Z) (param : Z) (neg_field : VshFieldName) (reg_num : Z) : res string :=
  let sign := if 0 <? vsh_get_field shader_token neg_field then "-" else EmptyString in
  tmp ← (if param =? PARAM_R then Ok ("R" +:+ pretty reg_num)
         else if param =? PARAM_V then Ok ("v" +:+ pretty (vsh_get_field shader_token FLD_V))
         else if param =? PARAM_C then
           let reg_num := convert_c_register (vsh_get_field shader_token FLD_CONST) in
           if 0 <? vsh_get_field shader_token FLD_A0X then Ok ("c[A0+" +:+ pretty reg_num +:+ "]")
           else Ok ("c[" +:+ pretty reg_num +:+ "]")
         else Fault assert_failed);
  Ok (sign +:+ tmp +:+ decode_swizzle shader_token (next_field neg_field)).

(** ** Instructions *)

(** The register that a part of an instruction writes, and the mask of it. *)
Definition paired (shader_token : list Z) (out_mux mask : Z) : Z * Z :=
  let reg_num := vsh_get_field shader_token FLD_OUT_R in
  if (out_mux =? OMUX_MAC) && negb (vsh_get_field shader_token FLD_ILU =? ILU_NOP) && (reg_num =? 1) then (reg_num, 0)
  else if (out_mux =? OMUX_ILU) && negb (vsh_get_field shader_token FLD_MAC =? MAC_NOP) then (1, mask)
  else (reg_num, mask).

Definition decode_opcode (shader_token : list Z) (out_mux mask : Z) (opcode inputs : string) : string :=
  let '(reg_num, mask) := paired shader_token out_mux mask in
  let ret :=
    if String.eqb opcode (entry EmptyString mac_opcode MAC_ARL) then "  ARL(A0" +:+ inputs +:+ ");" +:+ newline
    else if 0 <? mask
    then "  " +:+ opcode +:+ "(R" +:+ pretty reg_num +:+ entry EmptyString mask_str mask +:+ inputs +:+ ");" +:+ newline
    else EmptyString in
  if (vsh_get_field shader_token FLD_OUT_MUX =? out_mux) && negb (vsh_get_field shader_token FLD_OUT_O_MASK =? 0) then
    ret +:+ "  " +:+ opcode +:+ "(" +:+
    (if vsh_get_field shader_token FLD_OUT_ORB =? OUTPUT_C
     then "c" +:+ pretty (convert_c_register (vsh_get_field shader_token FLD_OUT_ADDRESS))
     else entry EmptyString out_reg_name (vsh_get_field shader_token FLD_OUT_ADDRESS .& 0xF)) +:+
    entry EmptyString mask_str (vsh_get_field shader_token FLD_OUT_O_MASK) +:+ inputs +:+ ");" +:+ newline
  else ret.

(** The inputs of the MAC part that its opcode has. *)
Definition mac_inputs (shader_token : list Z) (p : VshOpcodeParams) (input_c : string) : res string :=
  a ← (if param_A p then
         input_a ← decode_opcode_input shader_token (vsh_get_field shader_token FLD_A_MUX) FLD_A_NEG
                     (vsh_get_field shader_token FLD_A_R);
         Ok (", " +:+ input_a)
       else Ok EmptyString);
  b ← (if param_B p then
         input_b ← decode_opcode_input shader_token (vsh_get_field shader_token FLD_B_MUX) FLD_B_NEG
                     (vsh_get_field shader_token FLD_B_R);
         Ok (", " +:+ input_b)
       else Ok EmptyString);
  Ok (a +:+ b +:+ (if param_C p then ", " +:+ input_c else EmptyString)).

Definition c_register (shader_token : list Z) : Z :=
  (vsh_get_field shader_token FLD_C_R_HIGH .<< 2) .| vsh_get_field shader_token FLD_C_R_LOW.

Definition decode_token (shader_token : list Z) : res string :=
  input_c ← decode_opcode_input shader_token (vsh_get_field shader_token FLD_C_MUX) FLD_C_NEG (c_register shader_token);
  let mac := vsh_get_field shader_token FLD_MAC in
  ret ← (if negb (mac =? MAC_NOP) then
           p ← entry_at mac_opcode_params mac;
           inputs_mac ← mac_inputs shader_token p input_c;
           opcode ← entry_at mac_opcode mac;
           Ok (decode_opcode shader_token OMUX_MAC (vsh_get_field shader_token FLD_OUT_MAC_MASK) opcode inputs_mac)
         else Ok EmptyString);
  let ilu := vsh_get_field shader_token FLD_ILU in
  if negb (ilu =? ILU_NOP) then
    Ok (ret +:+ decode_opcode shader_token OMUX_ILU (vsh_get_field shader_token FLD_OUT_ILU_MASK)
                  (entry EmptyString ilu_opcode ilu) (", " +:+ input_c))
  else Ok ret.

(** ** Programs *)

Definition vsh_header : string := "
int A0 = 0;

vec4 R0 = vec4(0.0,0.0,0.0,0.0);
vec4 R1 = vec4(0.0,0.0,0.0,0.0);
vec4 R2 = vec4(0.0,0.0,0.0,0.0);
vec4 R3 = vec4(0.0,0.0,0.0,0.0);
vec4 R4 = vec4(0.0,0.0,0.0,0.0);
vec4 R5 = vec4(0.0,0.0,0.0,0.0);
vec4 R6 = vec4(0.0,0.0,0.0,0.0);
vec4 R7 = vec4(0.0,0.0,0.0,0.0);
vec4 R8 = vec4(0.0,0.0,0.0,0.0);
vec4 R9 = vec4(0.0,0.0,0.0,0.0);
vec4 R10 = vec4(0.0,0.0,0.0,0.0);
vec4 R11 = vec4(0.0,0.0,0.0,0.0);
#define R12 oPos


/* Converts the input to vec4, pads with last component */
vec4 _in(float v) { return vec4(v); }
vec4 _in(vec2 v) { return v.xyyy; }
vec4 _in(vec3 v) { return v.xyzz; }
vec4 _in(vec4 v) { return v.xyzw; }

#define INFINITY (1.0 / 0.0)

#define MOV(dest, mask, src) dest.mask = _MOV(_in(src)).mask
vec4 _MOV(vec4 src)
{
  return src;
}

#define MUL(dest, mask, src0, src1) dest.mask = _MUL(_in(src0), _in(src1)).mask
vec4 _MUL(vec4 src0, vec4 src1)
{
  return src0 * src1;
}

#define ADD(dest, mask, src0, src1) dest.mask = _ADD(_in(src0), _in(src1)).mask
vec4 _ADD(vec4 src0, vec4 src1)
{
  return src0 + src1;
}

#define MAD(dest, mask, src0, src1, src2) dest.mask = _MAD(_in(src0), _in(src1), _in(src2)).mask
vec4 _MAD(vec4 src0, vec4 src1, vec4 src2)
{
  return src0 * src1 + src2;
}

#define DP3(dest, mask, src0, src1) dest.mask = _DP3(_in(src0), _in(src1)).mask
vec4 _DP3(vec4 src0, vec4 src1)
{
  return vec4(dot(src0.xyz, src1.xyz));
}

#define DPH(dest, mask, src0, src1) dest.mask = _DPH(_in(src0), _in(src1)).mask
vec4 _DPH(vec4 src0, vec4 src1)
{
  return vec4(dot(vec4(src0.xyz, 1.0), src1));
}

#define DP4(dest, mask, src0, src1) dest.mask = _DP4(_in(src0), _in(src1)).mask
vec4 _DP4(vec4 src0, vec4 src1)
{
  return vec4(dot(src0, src1));
}

#define DST(dest, mask, src0, src1) dest.mask = _DST(_in(src0), _in(src1)).mask
vec4 _DST(vec4 src0, vec4 src1)
{
  return vec4(1.0,
              src0.y * src1.y,
              src0.z,
              src1.w);
}

#define MIN(dest, mask, src0, src1) dest.mask = _MIN(_in(src0), _in(src1)).mask
vec4 _MIN(vec4 src0, vec4 src1)
{
  return min(src0, src1);
}

#define MAX(dest, mask, src0, src1) dest.mask = _MAX(_in(src0), _in(src1)).mask
vec4 _MAX(vec4 src0, vec4 src1)
{
  return max(src0, src1);
}

#define SLT(dest, mask, src0, src1) dest.mask = _SLT(_in(src0), _in(src1)).mask
vec4 _SLT(vec4 src0, vec4 src1)
{
  return vec4(lessThan(src0, src1));
}

#define ARL(dest, src) dest = _ARL(_in(src).x)
int _ARL(float src)
{
  /* Xbox GPU does specify rounding, OpenGL doesn't; so we need a bias.
   * Example: We probably want to floor 16.99.. to 17, not 16.
   * Source of error (why we get 16.99.. instead of 17.0) is typically
   * vertex-attributes being normalized from a byte value to float:
   *   17 / 255 = 0.06666.. so is this 0.06667 (ceil) or 0.06666 (floor)?
   * Which value we get depends on the host GPU.
   * If we multiply these rounded values by 255 later, we get:
   *   17.00 (ARL result = 17) or 16.99 (ARL result = 16).
   * We assume the intend was to get 17, so we add our bias to fix it. */
  return int(floor(src + 0.001));
}

#define SGE(dest, mask, src0, src1) dest.mask = _SGE(_in(src0), _in(src1)).mask
vec4 _SGE(vec4 src0, vec4 src1)
{
  return vec4(greaterThanEqual(src0, src1));
}

#define RCP(dest, mask, src) dest.mask = _RCP(_in(src).x).mask
vec4 _RCP(float src)
{
  return vec4(1.0 / src);
}

#define RCC(dest, mask, src) dest.mask = _RCC(_in(src).x).mask
vec4 _RCC(float src)
{
  float t = 1.0 / src;
  if (t > 0.0) {
    t = clamp(t, 5.42101e-020, 1.884467e+019);
  } else {
    t = clamp(t, -1.884467e+019, -5.42101e-020);
  }
  return vec4(t);
}

#define RSQ(dest, mask, src) dest.mask = _RSQ(_in(src).x).mask
vec4 _RSQ(float src)
{
  if (src == 0.0) { return vec4(INFINITY); }
  if (isinf(src)) { return vec4(0.0); }
  return vec4(inversesqrt(abs(src)));
}

#define EXP(dest, mask, src) dest.mask = _EXP(_in(src).x).mask
vec4 _EXP(float src)
{
  vec4 result;
  result.x = exp2(floor(src));
  result.y = src - floor(src);
  result.z = exp2(src);
  result.w = 1.0;
  return result;
}

#define LOG(dest, mask, src) dest.mask = _LOG(_in(src).x).mask
vec4 _LOG(float src)
{
  float tmp = abs(src);
  if (tmp == 0.0) { return vec4(-INFINITY, 1.0f, -INFINITY, 1.0f); }
  vec4 result;
  result.x = floor(log2(tmp));
  result.y = tmp / exp2(floor(log2(tmp)));
  result.z = log2(tmp);
  result.w = 1.0;
  return result;
}

#define LIT(dest, mask, src) dest.mask = _LIT(_in(src)).mask
vec4 _LIT(vec4 src)
{
  vec4 s = src;
  float epsilon = 1.0 / 256.0;
  s.w = clamp(s.w, -(128.0 - epsilon), 128.0 - epsilon);
  s.x = max(s.x, 0.0);
  s.y = max(s.y, 0.0);
  vec4 t = vec4(1.0, 0.0, 0.0, 1.0);
  t.y = s.x;
  t.z = (s.x > 0.0) ? exp2(s.w * log2(s.y)) : 0.0;
  return t;
}
".

Definition slot_comment (slot : Z) (cur_token : list Z) : string :=
  let word i := hex8 (entry 0 cur_token i) in
  "  /* Slot " +:+ pretty slot +:+ ": 0x" +:+ word 0 +:+ " 0x" +:+ word 1 +:+ " 0x" +:+ word 2 +:+ " 0x" +:+ word 3 +:+ " */".

(** The loop over the slots; [tokens] are the words from the current slot on. *)
Fixpoint translate_slots (fuel : nat) (slot : Z) (tokens : list Z) (body : string) : res (bool * string) :=
  match fuel with
  | O => Ok (false, body)
  | S fuel =>
      let cur_token := take (Z.to_nat VSH_TOKEN_SIZE) tokens in
      _ ← in_bounds (Z.of_nat (length cur_token) =? VSH_TOKEN_SIZE);
      token_str ← decode_token cur_token;
      let body := body +:+ slot_comment slot cur_token +:+ newline +:+ token_str +:+ newline in
      if nz (vsh_get_field cur_token FLD_FINAL) then Ok (true, body)
      else translate_slots fuel (slot + 1) (drop (Z.to_nat VSH_TOKEN_SIZE) tokens) body
  end.

Definition perspective_text : string := "  if (oPos.w == 0.0 || isinf(oPos.w)) {
    vtx.inv_w = 1.0;
  } else {
    vtx.inv_w = 1.0 / oPos.w;
  }
".

Definition screen_text : string := "  oPos.x = 2.0 * (oPos.x - surfaceSize.x * 0.5) / surfaceSize.x;
  oPos.y = -2.0 * (oPos.y - surfaceSize.y * 0.5) / surfaceSize.y;
".

Definition clip_text : string := "  if (clipRange.y != clipRange.x) {
    oPos.z = (oPos.z - 0.5 * (clipRange.x + clipRange.y)) / (0.5 * (clipRange.y - clipRange.x));
  }
  if (oPos.w < 0.0) {
    oPos.xyz *= oPos.w;
  } else {
    oPos.w = 1.0;
  }
".

Definition vsh_translate (tokens : list Z) (len : Z) (z_perspective : bool) (header body : string) : res (string * string) :=
  let header := header +:+ vsh_header in
  '(has_final, body) ← translate_slots (Z.to_nat len) 0 tokens body;
  _ ← assert has_final;
  let body := body +:+ perspective_text +:+ screen_text in
  let body := if z_perspective then body +:+ "  oPos.z = oPos.w;" +:+ newline else body in
  Ok (header, body +:+ clip_text).
