(* ===== verification/VshRun.v ===== *)
(** * What a translated vertex program does

    The text that [vsh_translate] writes is a list of calls of the macros of [vsh_header].  A
    call assigns some components of a variable, with the value of an operation on operands
    that are swizzled and maybe negated.  The meaning of the calls is compared with that of
    the instructions of the guest: an instruction reads its operands, computes, and then
    writes its results.

    The operations themselves are parameters, functions of the names of the macros. *)

From Stdlib Require Import Ascii.
From S2P Require Import Text Prelude Bytes Vsh VshText.


(** ** Statements *)

(** [R%d], [v%d], [c[%d]] and [c[A0+%d]]. *)
Inductive source := Reg (n : Z) | Attr (n : Z) | Const (n : Z) | ConstA0 (n : Z).

Record operand := Operand { negated : bool; from : source; swizzle : string }.

Inductive target := ToA0 | ToR (n : Z) | ToC (n : Z) | ToO (n : Z).

#[export] Instance target_eq_dec : EqDecision target.
Proof. solve_decision. Defined.

Record statement := Call { macro_name : string; to : target; mask : string; operands : list operand }.

Definition print_source (s : source) : string :=
  match s with
  | Reg n => "R" +:+ pretty n
  | Attr n => "v" +:+ pretty n
  | Const n => "c[" +:+ pretty n +:+ "]"
  | ConstA0 n => "c[A0+" +:+ pretty n +:+ "]"
  end.

Definition print_operand (o : operand) : string :=
  (if negated o then "-" else EmptyString) +:+ print_source (from o) +:+ swizzle o.

Definition print_target (t : target) : string :=
  match t with
  | ToA0 => "A0"
  | ToR n => "R" +:+ pretty n
  | ToC n => "c" +:+ pretty n
  | ToO n => entry EmptyString out_reg_name n
  end.

Definition print_statement (s : statement) : string :=
  "  " +:+ macro_name s +:+ "(" +:+ print_target (to s) +:+ mask s +:+
  concat_strings ((λ o, ", " +:+ print_operand o) <$> operands s) +:+ ");" +:+ newline.

Definition print (l : list statement) : string := concat_strings (print_statement <$> l).

(** The statements of an instruction. *)
Definition operand_of (t : list Z) (param : Z) (neg_field : VshFieldName) (reg_num : Z) : option operand :=
  let operand s := Operand (0 <? vsh_get_field t neg_field) s (decode_swizzle t (next_field neg_field)) in
  if param =? PARAM_R then Some (operand (Reg reg_num))
  else if param =? PARAM_V then Some (operand (Attr (vsh_get_field t FLD_V)))
  else if param =? PARAM_C then
    let n := convert_c_register (vsh_get_field t FLD_CONST) in
    Some (operand (if 0 <? vsh_get_field t FLD_A0X then ConstA0 n else Const n))
  else None.

Definition operand_a (t : list Z) := operand_of t (vsh_get_field t FLD_A_MUX) FLD_A_NEG (vsh_get_field t FLD_A_R).
Definition operand_b (t : list Z) := operand_of t (vsh_get_field t FLD_B_MUX) FLD_B_NEG (vsh_get_field t FLD_B_R).
Definition operand_c (t : list Z) := operand_of t (vsh_get_field t FLD_C_MUX) FLD_C_NEG (c_register t).

Definition only {A} (b : bool) (o : option A) : option (list A) := if b then (λ a, [a]) <$> o else Some [].

Definition output_of (t : list Z) : target :=
  if vsh_get_field t FLD_OUT_ORB =? OUTPUT_C then ToC (convert_c_register (vsh_get_field t FLD_OUT_ADDRESS))
  else ToO (vsh_get_field t FLD_OUT_ADDRESS .& 0xF).

Definition opcode_statements (t : list Z) (out_mux bits : Z) (opcode : string) (args : list operand) : list statement :=
  let '(reg_num, bits) := paired t out_mux bits in
  (if String.eqb opcode (entry EmptyString mac_opcode MAC_ARL) then [Call "ARL" ToA0 EmptyString args]
   else if 0 <? bits then [Call opcode (ToR reg_num) (entry EmptyString mask_str bits) args] else []) ++
  (if (vsh_get_field t FLD_OUT_MUX =? out_mux) && negb (vsh_get_field t FLD_OUT_O_MASK =? 0)
   then [Call opcode (output_of t) (entry EmptyString mask_str (vsh_get_field t FLD_OUT_O_MASK)) args] else []).

Definition mac_operands (t : list Z) (p : VshOpcodeParams) : option (list operand) :=
  c ← operand_c t;
  a ← only (param_A p) (operand_a t);
  b ← only (param_B p) (operand_b t);
  Some (a ++ b ++ if param_C p then [c] else []).

Definition mac_statements (t : list Z) : option (list statement) :=
  let mac := vsh_get_field t FLD_MAC in
  if negb (mac =? MAC_NOP) then
    p ← mac_opcode_params !! Z.to_nat mac;
    args ← mac_operands t p;
    Some (opcode_statements t OMUX_MAC (vsh_get_field t FLD_OUT_MAC_MASK) (entry EmptyString mac_opcode mac) args)
  else Some [].

Definition ilu_statements (t : list Z) : option (list statement) :=
  let ilu := vsh_get_field t FLD_ILU in
  c ← operand_c t;
  Some (if negb (ilu =? ILU_NOP)
        then opcode_statements t OMUX_ILU (vsh_get_field t FLD_OUT_ILU_MASK) (entry EmptyString ilu_opcode ilu) [c]
        else []).

Definition statements (t : list Z) : option (list statement) :=
  l ← mac_statements t; l' ← ilu_statements t; Some (l ++ l').

(** ** The text is that of the statements *)

Lemma print_app l l' : print (l ++ l') = print l +:+ print l'.
Proof. unfold print. by rewrite fmap_app, concat_strings_app. Qed.

Lemma decode_input_print t param neg_field reg_num : decode_opcode_input t param neg_field reg_num =
  match operand_of t param neg_field reg_num with Some o => Ok (print_operand o) | None => Fault assert_failed end.
Proof.
  unfold decode_opcode_input, operand_of, print_operand.
  destruct (param =? PARAM_R); [done |]. destruct (param =? PARAM_V); [done |]. destruct (param =? PARAM_C); [| done].
  by destruct (0 <? vsh_get_field t FLD_A0X).
Qed.

Lemma decode_opcode_print t out_mux bits opcode args :
  decode_opcode t out_mux bits opcode (concat_strings ((λ o, ", " +:+ print_operand o) <$> args)) =
  print (opcode_statements t out_mux bits opcode args).
Proof.
  unfold decode_opcode, opcode_statements, output_of. destruct (paired t out_mux bits) as [reg_num bits'].
  rewrite print_app. set (inputs := concat_strings _).
  assert (∀ s : statement, print [s] = print_statement s) as P by (intros; apply append_nil).
  match goal with |- (if ?b then ?r +:+ _ else _) = print ?l +:+ _ => assert (r = print l) as -> end.
  { destruct (String.eqb _ _); [rewrite P; done |]. destruct (0 <? bits'); [rewrite P | done].
    unfold print_statement. cbn [macro_name to mask operands print_target]. by rewrite append_assoc. }
  destruct (_ && _); [| by rewrite append_nil]. f_equal. rewrite P. unfold print_statement. cbn [macro_name to mask operands].
  by destruct (vsh_get_field t FLD_OUT_ORB =? OUTPUT_C).
Qed.

Lemma mac_inputs_print t p c : operand_c t = Some c → mac_inputs t p (print_operand c) =
  match mac_operands t p with
  | Some args => Ok (concat_strings ((λ o, ", " +:+ print_operand o) <$> args))
  | None => Fault assert_failed
  end.
Proof.
  intros C. unfold mac_inputs, mac_operands. rewrite C, !decode_input_print. fold (operand_a t) (operand_b t).
  destruct p as [[] [] []]; cbn [param_A param_B param_C only mbind option_bind];
    repeat match goal with |- context [operand_a t] => destruct (operand_a t) end;
    repeat match goal with |- context [operand_b t] => destruct (operand_b t) end;
    cbn; rewrite ?append_nil, ?append_assoc; done.
Qed.

(** The opcodes that the tables have. *)
Definition known_mac (t : list Z) : Prop := 0 ≤ vsh_get_field t FLD_MAC ≤ MAC_ARL.

Lemma decode_token_print t : known_mac t → decode_token t =
  match statements t with Some l => Ok (print l) | None => Fault assert_failed end.
Proof.
  intros K. unfold decode_token, statements, mac_statements, ilu_statements. rewrite decode_input_print. fold (operand_c t).
  destruct (operand_c t) as [c |] eqn:C.
  2: { unfold mac_operands. rewrite C. destruct (negb (vsh_get_field t FLD_MAC =? MAC_NOP)); [| done].
       by destruct (mac_opcode_params !! Z.to_nat (vsh_get_field t FLD_MAC)). }
  cbn [mbind res_bind option_bind]. unfold entry_at.
  assert (∃ p, mac_opcode_params !! Z.to_nat (vsh_get_field t FLD_MAC) = Some p) as [p Hp].
  { apply lookup_lt_is_Some. unfold known_mac, MAC_ARL in K. change (length mac_opcode_params) with 14%nat. lia. }
  assert (mac_opcode !! Z.to_nat (vsh_get_field t FLD_MAC) = Some (entry EmptyString mac_opcode (vsh_get_field t FLD_MAC))) as Ho.
  { unfold entry. rewrite nth_lookup. assert (is_Some (mac_opcode !! Z.to_nat (vsh_get_field t FLD_MAC))) as [? ->]; [| done].
    apply lookup_lt_is_Some. unfold known_mac, MAC_ARL in K. change (length mac_opcode) with 14%nat. lia. }
  rewrite Hp, Ho. cbn [mbind res_bind option_bind]. rewrite (mac_inputs_print _ _ _ C).
  assert (", " +:+ print_operand c = concat_strings ((λ o, ", " +:+ print_operand o) <$> [c])) as ->
    by (cbn; by rewrite append_nil).
  destruct (negb (vsh_get_field t FLD_MAC =? MAC_NOP)).
  - destruct (mac_operands t p) as [args |]; [| done]. cbn [mbind res_bind option_bind]. rewrite !decode_opcode_print, print_app.
    by destruct (negb (vsh_get_field t FLD_ILU =? ILU_NOP)); rewrite ?append_nil.
  - cbn [mbind res_bind option_bind app]. rewrite !decode_opcode_print.
    by destruct (negb (vsh_get_field t FLD_ILU =? ILU_NOP)).
Qed.

(** ** The meaning of the statements *)

Record vec (F : Type) := Vec { vx : F; vy : F; vz : F; vw : F }.
Arguments Vec {F}. Arguments vx {F}. Arguments vy {F}. Arguments vz {F}. Arguments vw {F}.

Definition component {F} (v : vec F) (i : Z) : F :=
  if i =? 0 then vx v else if i =? 1 then vy v else if i =? 2 then vz v else vw v.

Definition set_component {F} (v : vec F) (i : Z) (f : F) : vec F :=
  if i =? 0 then Vec f (vy v) (vz v) (vw v) else if i =? 1 then Vec (vx v) f (vz v) (vw v)
  else if i =? 2 then Vec (vx v) (vy v) f (vw v) else Vec (vx v) (vy v) (vz v) f.

Definition map_vec {F} (h : F → F) (v : vec F) : vec F := Vec (h (vx v)) (h (vy v)) (h (vz v)) (h (vw v)).

Definition letter_index (a : ascii) : option Z :=
  if Ascii.eqb a "x"%char then Some 0 else if Ascii.eqb a "y"%char then Some 1
  else if Ascii.eqb a "z"%char then Some 2 else if Ascii.eqb a "w"%char then Some 3 else None.

Fixpoint indices (s : string) : option (list Z) :=
  match s with
  | EmptyString => Some []
  | String a s => i ← letter_index a; l ← indices s; Some (i :: l)
  end.

(** The functions [_in] of the header, which complete a value to four components. *)
Definition in_vec {F} (l : list F) : option (vec F) :=
  match l with
  | [x] => Some (Vec x x x x)
  | [x; y] => Some (Vec x y y y)
  | [x; y; z] => Some (Vec x y z z)
  | [x; y; z; w] => Some (Vec x y z w)
  | _ => None
  end.

(** A variable with a swizzle behind it, as an argument of [_in]. *)
Definition select {F} (v : vec F) (s : string) : option (vec F) :=
  match s with
  | EmptyString => Some v
  | String a s => if Ascii.eqb a "."%char then l ← indices s; in_vec (component v <$> l) else None
  end.

(** The components that are assigned; in the text a comma precedes them. *)
Definition mask_indices (s : string) : option (list Z) :=
  match s with String a s => if Ascii.eqb a ","%char then indices s else None | EmptyString => None end.

(** The variables: [R12] is another name of [oPos]. *)
Inductive place := Temp (n : Z) | Out (n : Z).

#[export] Instance place_eq_dec : EqDecision place.
Proof. solve_decision. Defined.

Definition place_of (t : target) : option place :=
  match t with
  | ToR n => if n =? 12 then Some (Out 0) else if (0 <=? n) && (n <? 12) then Some (Temp n) else None
  | ToO n => if (n =? 0) || ((3 <=? n) && (n <=? 12)) then Some (Out n) else None
  | ToA0 | ToC _ => None
  end.

(** The macros with a destination and a mask. *)
Definition macros : list string :=
  ["MOV"; "MUL"; "ADD"; "MAD"; "DP3"; "DPH"; "DP4"; "DST"; "MIN"; "MAX"; "SLT"; "SGE";
   "RCP"; "RCC"; "RSQ"; "EXP"; "LOG"; "LIT"].

(** ** The text of a program *)

Fixpoint slots_text (slot : Z) (prog : list (list Z * list statement)) : string :=
  match prog with
  | [] => EmptyString
  | (t, l) :: prog => slot_comment slot t +:+ newline +:+ print l +:+ newline +:+ slots_text (slot + 1) prog
  end.

Definition epilogue (z_perspective : bool) : string :=
  perspective_text +:+ screen_text +:+ (if z_perspective then "  oPos.z = oPos.w;" +:+ newline else EmptyString) +:+ clip_text.

(** Instructions, of which the last one is marked as such. *)
Definition is_program (prog : list (list Z)) : Prop :=
  Forall (λ t, length t = 4%nat) prog ∧
  ∃ before last, prog = before ++ [last] ∧ Forall (λ t, vsh_get_field t FLD_FINAL = 0) before ∧ vsh_get_field last FLD_FINAL ≠ 0.

Lemma translate_slots_text prog rest fuel slot body code : is_program prog → (length prog ≤ fuel)%nat →
  Forall2 (λ t l, decode_token t = Ok (print l)) prog code →
  translate_slots fuel slot (concat prog ++ rest) body = Ok (true, body +:+ slots_text slot (zip prog code)).
Proof.
  intros [W (before & last & -> & B & L)] Hf D. revert fuel slot body code W Hf D.
  induction B as [| t before Ht B IH]; intros [| fuel] slot body code W Hf D; try (cbn in Hf; rewrite ?length_app in Hf; cbn in Hf; lia).
  - apply Forall2_cons_inv_l in D as (l & code' & D & D' & ->). apply Forall2_nil_inv_l in D' as ->.
    apply Forall_cons in W as [W _]. cbn [app concat translate_slots]. rewrite app_nil_r, take_app_length' by done.
    rewrite W. cbn [Z.of_nat in_bounds Z.eqb mbind res_bind]. rewrite D. cbn [mbind res_bind]. unfold nz.
    rewrite (proj2 (Z.eqb_neq _ _) L). cbn [negb zip zip_with slots_text]. by rewrite append_nil.
  - apply Forall2_cons_inv_l in D as (l & code' & D & D' & ->). apply Forall_cons in W as [W W'].
    cbn [app concat translate_slots]. rewrite <- app_assoc, take_app_length', drop_app_length' by done.
    rewrite W. cbn [Z.of_nat in_bounds Z.eqb mbind res_bind]. rewrite D. cbn [mbind res_bind]. rewrite Ht. cbn [nz Z.eqb negb].
    rewrite (IH fuel (slot + 1) _ code') by (done || (cbn in Hf; lia)).
    cbn [zip zip_with slots_text]. by rewrite !append_assoc.
Qed.

Lemma vsh_translate_text prog rest len z_perspective header body code : is_program prog → Z.of_nat (length prog) ≤ len →
  Forall2 (λ t l, decode_token t = Ok (print l)) prog code →
  vsh_translate (concat prog ++ rest) len z_perspective header body =
    Ok (header +:+ vsh_header, body +:+ slots_text 0 (zip prog code) +:+ epilogue z_perspective).
Proof.
  intros P L D. unfold vsh_translate. rewrite (translate_slots_text _ _ _ _ _ code) by (done || lia).
  cbn [mbind res_bind assert]. unfold epilogue. destruct z_perspective; by rewrite !append_assoc.
Qed.

(** Without a last instruction the translation fails. *)
Lemma translate_slots_unfinished fuel slot tokens body : (∀ i, vsh_get_field (take 4 (drop (4 * i) tokens)) FLD_FINAL = 0) →
  ∀ body', translate_slots fuel slot tokens body ≠ Ok (true, body').
Proof.
  revert slot tokens body. induction fuel as [| fuel IH]; intros slot tokens body N body'; [done |]. cbn [translate_slots].
  change (Z.to_nat VSH_TOKEN_SIZE) with 4%nat. destruct (in_bounds _); [cbn [mbind res_bind] | done].
  destruct (decode_token _); [cbn [mbind res_bind] | done]. rewrite (N 0%nat : vsh_get_field (take 4 tokens) FLD_FINAL = 0).
  cbn [nz Z.eqb negb]. apply IH. intros i. rewrite drop_drop. specialize (N (S i)).
  by replace (4 * S i)%nat with (4 + 4 * i)%nat in N by lia.
Qed.

(** ** Fields and tables *)

Definition width (f : VshFieldName) : Z := (field_mapping f).2.

Lemma field_mask f : 0 ≤ width f ≤ 8 ∧ u32 (.~ u32 (0xFFFFFFFF .<< width f)) = Z.ones (width f).
Proof. destruct f; vm_compute; by repeat split. Qed.

Lemma field_bound t f : 0 ≤ vsh_get_field t f < 2 ^ width f.
Proof.
  destruct (field_mask f) as [W M]. unfold vsh_get_field, vsh_get_from_token, width in *.
  destruct (field_mapping f) as [[k b] n]. cbn [snd] in *. rewrite M, Z.land_ones by lia.
  assert (2 ^ n ≤ 2 ^ 8) by (apply Z.pow_le_mono_r; lia). pose proof (Z.mod_pos_bound (nth (Z.to_nat k) t 0 .>> b) (2 ^ n)).
  unfold u8, wrap. rewrite Z.mod_small; lia.
Qed.

(** An instruction with given fields, which are disjoint. *)
Definition all_fields : list VshFieldName := [
  FLD_ILU; FLD_MAC; FLD_CONST; FLD_V;
  FLD_A_NEG; FLD_A_SWZ_X; FLD_A_SWZ_Y; FLD_A_SWZ_Z; FLD_A_SWZ_W; FLD_A_R; FLD_A_MUX;
  FLD_B_NEG; FLD_B_SWZ_X; FLD_B_SWZ_Y; FLD_B_SWZ_Z; FLD_B_SWZ_W; FLD_B_R; FLD_B_MUX;
  FLD_C_NEG; FLD_C_SWZ_X; FLD_C_SWZ_Y; FLD_C_SWZ_Z; FLD_C_SWZ_W; FLD_C_R_HIGH; FLD_C_R_LOW; FLD_C_MUX;
  FLD_OUT_MAC_MASK; FLD_OUT_R; FLD_OUT_ILU_MASK; FLD_OUT_O_MASK; FLD_OUT_ORB; FLD_OUT_ADDRESS; FLD_OUT_MUX;
  FLD_A0X; FLD_FINAL].

#[export] Instance field_eq_dec : EqDecision VshFieldName.
Proof. solve_decision. Defined.

Definition word_of (f : VshFieldName) : Z := (field_mapping f).1.1.
Definition start_of (f : VshFieldName) : Z := (field_mapping f).1.2.

Definition vsh_word (v : VshFieldName → Z) (l : list VshFieldName) (k : Z) : Z :=
  foldr (λ f w, if word_of f =? k then (v f .<< start_of f) .| w else w) 0 l.

Definition vsh_token (v : VshFieldName → Z) : list Z := vsh_word v all_fields <$> [0; 1; 2; 3].

Definition apart (f g : VshFieldName) : bool :=
  bool_decide (f = g) || negb (word_of f =? word_of g) ||
  (start_of f + width f <=? start_of g) || (start_of g + width g <=? start_of f).

Lemma fields_apart f g : apart f g = true.
Proof. destruct f; destruct g; by vm_compute. Qed.

Lemma field_start f : 0 ≤ start_of f ∧ word_of f ∈ [0; 1; 2; 3].
Proof. split; [by destruct f | apply (bool_decide_unpack _); by destruct f]. Qed.

Lemma all_fields_all f : f ∈ all_fields.
Proof. apply (bool_decide_unpack _). destruct f; by vm_compute. Qed.

Lemma vsh_word_bit v l f i : (∀ f, 0 ≤ v f < 2 ^ width f) → 0 ≤ i < width f →
  Z.testbit (vsh_word v l (word_of f)) (start_of f + i) = bool_decide (f ∈ l) && Z.testbit (v f) i.
Proof.
  intros V I. pose proof (field_start f) as [Sf _]. induction l as [| g l IH]; [by rewrite Z.bits_0 |]. cbn [vsh_word foldr].
  fold (vsh_word v l (word_of f)). destruct (decide (f = g)) as [<- | N].
  - rewrite Z.eqb_refl, Z.lor_spec, Z.shiftl_spec, IH by lia. rewrite (bool_decide_eq_true_2 (f ∈ f :: l)) by by left.
    replace (start_of f + i - start_of f) with i by lia. by destruct (Z.testbit (v f) i), (bool_decide _).
  - rewrite (bool_decide_ext (f ∈ g :: l) (f ∈ l)) by (rewrite elem_of_cons; naive_solver).
    destruct (word_of g =? word_of f) eqn:E; [| exact IH]. rewrite Z.lor_spec, Z.shiftl_spec, IH by lia.
    pose proof (fields_apart f g) as A. unfold apart in A. rewrite (bool_decide_eq_false_2 _ N), Z.eqb_sym, E in A.
    cbn [negb orb] in A. apply orb_true_iff in A. rewrite !Z.leb_le in A. specialize (V g).
    assert (Z.testbit (v g) (start_of f + i - start_of g) = false) as ->; [| done].
    destruct A as [A | A]; [apply Z.testbit_neg_r; lia |].
    rewrite <- (Z.mod_small _ _ V). apply Z.mod_pow2_bits_high. pose proof (field_mask g). lia.
Qed.

Lemma vsh_field_token v f : (∀ f, 0 ≤ v f < 2 ^ width f) → vsh_get_field (vsh_token v) f = v f.
Proof.
  intros V. destruct (field_mask f) as [W M]. destruct (field_start f) as [Sf Wf].
  assert (nth (Z.to_nat (word_of f)) (vsh_token v) 0 = vsh_word v all_fields (word_of f)) as Nt.
  { rewrite !elem_of_cons in Wf. by destruct Wf as [-> | [-> | [-> | [-> | Wf%not_elem_of_nil]]]]. }
  unfold vsh_get_field, vsh_get_from_token. destruct (field_mapping f) as [[k b] n] eqn:Ef.
  unfold word_of, start_of, width in *. rewrite Ef in *. cbn [fst snd] in *. rewrite M, Nt.
  assert ((vsh_word v all_fields k .>> b) .& Z.ones n = v f) as ->.
  { apply Z.bits_inj'. intros i Hi. rewrite Z.land_spec, Z.shiftr_spec by done.
    pose proof (vsh_word_bit v all_fields f i V) as B. unfold word_of, start_of, width in B. rewrite Ef in B. cbn [fst snd] in B.
    specialize (V f). rewrite Ef in V. cbn [snd] in V. destruct (decide (i < n)) as [L | L].
    - rewrite Z.ones_spec_low, andb_true_r, Z.add_comm, B by lia. by rewrite bool_decide_eq_true_2 by apply all_fields_all.
    - rewrite Z.ones_spec_high, andb_false_r by lia. rewrite <- (Z.mod_small _ _ V). symmetry. apply Z.mod_pow2_bits_high. lia. }
  specialize (V f). rewrite Ef in V. cbn [snd] in V. assert (2 ^ n ≤ 2 ^ 8) by (apply Z.pow_le_mono_r; lia).
  unfold u8, wrap. apply Z.mod_small. lia.
Qed.

(** The conversion of the numbers of constants, which the code has a question about, does not
    change them. *)
Lemma convert_c_register_same c : 0 ≤ c < 256 → convert_c_register c = c.
Proof.
  intros Hc. assert (∀ n : nat, (n < 256)%nat → convert_c_register (Z.of_nat n) = Z.of_nat n) as H.
  { intros n Hn. assert (forallb (λ n, convert_c_register (Z.of_nat n) =? Z.of_nat n) (seq 0 256) = true) as A by by vm_compute.
    rewrite forallb_forall in A. apply Z.eqb_eq, A, in_seq. lia. }
  rewrite <- (Z2Nat.id c) by lia. apply H. lia.
Qed.

(** The swizzle in the text, if the last components are left out that repeat, selects the
    components that the instruction has. *)
Lemma indices_letters l : Forall (λ i, 0 ≤ i < 4) l → indices (letters l) = Some l.
Proof.
  induction 1 as [| i l Hi Hl IH]; [done |]. unfold letters in *. cbn [foldr indices]. rewrite IH.
  assert (i = 0 ∨ i = 1 ∨ i = 2 ∨ i = 3) as [-> | [-> | [-> | ->]]] by lia; done.
Qed.

Definition swizzle_field (f : VshFieldName) : bool :=
  match f with FLD_A_SWZ_X | FLD_B_SWZ_X | FLD_C_SWZ_X => true | _ => false end.

Lemma swizzle_bound t f x y z w : swizzle_field f = true → swizzle_of t f = (x, y, z, w) →
  0 ≤ x < 4 ∧ 0 ≤ y < 4 ∧ 0 ≤ z < 4 ∧ 0 ≤ w < 4.
Proof.
  intros S E. assert (∀ g, width g = 2 → 0 ≤ vsh_get_field t g < 4) as B.
  { intros g Hg. pose proof (field_bound t g) as H. by rewrite Hg in H. }
  unfold swizzle_of in E. cbv zeta in E. destruct (_ && _);
    rewrite !pair_equal_spec in E; destruct E as [[[<- <-] <-] <-]; by destruct f; try discriminate S; repeat split; apply B.
Qed.

Lemma decode_swizzle_select {F} (v : vec F) t f x y z w : swizzle_field f = true → swizzle_of t f = (x, y, z, w) →
  select v (decode_swizzle t f) = Some (Vec (component v x) (component v y) (component v z) (component v w)).
Proof.
  intros S E. destruct (swizzle_bound _ _ _ _ _ _ S E) as (Hx & Hy & Hz & Hw). unfold decode_swizzle. rewrite E.
  assert (∀ l, Forall (λ i, 0 ≤ i < 4) l → select v ("." +:+ letters l) = in_vec (component v <$> l)) as L.
  { intros l Hl. change (select v ("." +:+ letters l)) with (l ← indices (letters l); in_vec (component v <$> l)).
    by rewrite indices_letters. }
  destruct ((x =? 0) && (y =? 1) && (z =? 2) && (w =? 3)) eqn:E1.
  { rewrite !andb_true_iff, !Z.eqb_eq in E1. destruct E1 as [[[? ?] ?] ?]. subst. by destruct v. }
  destruct ((x =? y) && (y =? z) && (z =? w)) eqn:E2.
  { rewrite !andb_true_iff, !Z.eqb_eq in E2. destruct E2 as [[? ?] ?]. subst. rewrite L by (rewrite ?Forall_cons, Forall_nil; lia). done. }
  destruct ((y =? z) && (z =? w)) eqn:E3.
  { rewrite !andb_true_iff, !Z.eqb_eq in E3. destruct E3 as [? ?]. subst. rewrite L by (rewrite ?Forall_cons, Forall_nil; lia). done. }
  destruct (z =? w) eqn:E4; rewrite L by (rewrite ?Forall_cons, Forall_nil; lia); [| done]. apply Z.eqb_eq in E4 as <-. done.
Qed.

(** The components of a mask; the highest bit is x. *)
Definition bits (mask : Z) : list Z := filter (λ i, Z.testbit mask (3 - i) = true) [0; 1; 2; 3].

Lemma mask_str_bits k : 0 ≤ k < 16 → mask_indices (entry EmptyString mask_str k) = Some (bits k).
Proof.
  intros Hk. assert (∀ n : nat, (n < 16)%nat → mask_indices (entry EmptyString mask_str (Z.of_nat n)) = Some (bits (Z.of_nat n))) as H.
  { intros n Hn. do 16 (destruct n as [| n]; [by vm_compute |]). lia. }
  rewrite <- (Z2Nat.id k) by lia. apply H. lia.
Qed.

(** ** The statements that can be compared *)

(** What a statement reads. *)
Definition reads_place (s : statement) (p : place) : bool :=
  existsb (λ o, match from o with Reg n => bool_decide (place_of (ToR n) = Some p) | _ => false end) (operands s).

Definition reads_a0 (s : statement) : bool :=
  existsb (λ o, match from o with ConstA0 _ => true | _ => false end) (operands s).

(** Statement [s'] reads what [s] writes. *)
Definition disturbs (s s' : statement) : bool :=
  match to s with
  | ToA0 => reads_a0 s'
  | t => match place_of t with Some p => reads_place s' p | None => false end
  end.

Fixpoint hazard_free (l : list statement) : bool :=
  match l with [] => true | s :: l => forallb (λ s', negb (disturbs s s')) l && hazard_free l end.

(** The variables and the macros of the statement exist. *)
Definition source_declared (o : operand) : bool :=
  match from o with Reg n => bool_decide (is_Some (place_of (ToR n))) | _ => true end.

Definition declared (s : statement) : bool :=
  forallb source_declared (operands s) &&
  match to s with
  | ToA0 => true
  | t => bool_decide (is_Some (place_of t)) && bool_decide (macro_name s ∈ macros)
  end.

Definition translatable (t : list Z) : bool :=
  (vsh_get_field t FLD_MAC <=? MAC_ARL) &&
  match statements t with Some l => forallb declared l && hazard_free l | None => false end.

Section meaning.

(** The numbers with their negation, the inputs and constants of the program, the function
    that each macro computes, and the rounding of the address register. *)
Context {F : Type} (opp : F → F) (attr const : Z → vec F) (macro : string → list (vec F) → vec F) (arl : F → Z).

Record machine := Machine { a0 : Z; var : place → vec F }.

Definition set_var (p : place) (v : vec F) (m : machine) : machine :=
  Machine (a0 m) (λ q, if decide (q = p) then v else var m q).

Inductive effect := SetA0 (z : Z) | Assign (p : place) (l : list Z) (v : vec F).

Definition apply_effect (m : machine) (e : effect) : machine :=
  match e with
  | SetA0 z => Machine z (var m)
  | Assign p l v => foldl (λ m i, set_var p (set_component (var m p) i (component v i)) m) m l
  end.

Definition source_value (m : machine) (s : source) : option (vec F) :=
  match s with
  | Reg n => var m <$> place_of (ToR n)
  | Attr n => Some (attr n)
  | Const n => Some (const n)
  | ConstA0 n => Some (const (a0 m + n))
  end.

Definition operand_value (m : machine) (o : operand) : option (vec F) :=
  v ← source_value m (from o);
  w ← select v (swizzle o);
  Some (if negated o then map_vec opp w else w).

Definition effect_of (m : machine) (s : statement) : option effect :=
  values ← mapM (operand_value m) (operands s);
  match to s, values with
  | ToA0, [v] => if String.eqb (macro_name s) "ARL" then Some (SetA0 (arl (vx v))) else None
  | t, _ =>
      p ← place_of t;
      l ← mask_indices (mask s);
      if bool_decide (macro_name s ∈ macros) then Some (Assign p l (macro (macro_name s) values)) else None
  end.

(** One statement after the other, as the text has them. *)
Fixpoint run (l : list statement) (m : machine) : option machine :=
  match l with
  | [] => Some m
  | s :: l => e ← effect_of m s; run l (apply_effect m e)
  end.

(** ** The meaning of the instructions *)

Definition register (n : Z) : place := if n =? 12 then Out 0 else Temp n.

Definition fetch (t : list Z) (m : machine) (param : Z) (neg_field : VshFieldName) (reg_num : Z) : vec F :=
  let v := if param =? PARAM_R then var m (register reg_num)
           else if param =? PARAM_V then attr (vsh_get_field t FLD_V)
           else const ((if 0 <? vsh_get_field t FLD_A0X then a0 m else 0) + vsh_get_field t FLD_CONST) in
  let '(x, y, z, w) := swizzle_of t (next_field neg_field) in
  let v := Vec (component v x) (component v y) (component v z) (component v w) in
  if 0 <? vsh_get_field t neg_field then map_vec opp v else v.

Definition fetch_a t m := fetch t m (vsh_get_field t FLD_A_MUX) FLD_A_NEG (vsh_get_field t FLD_A_R).
Definition fetch_b t m := fetch t m (vsh_get_field t FLD_B_MUX) FLD_B_NEG (vsh_get_field t FLD_B_R).
Definition fetch_c t m := fetch t m (vsh_get_field t FLD_C_MUX) FLD_C_NEG (c_register t).

Definition store (p : place) (mask : Z) (v : vec F) : list effect := if mask =? 0 then [] else [Assign p (bits mask) v].

Definition store_output (t : list Z) (out_mux : Z) (v : vec F) : list effect :=
  if vsh_get_field t FLD_OUT_MUX =? out_mux
  then store (Out (vsh_get_field t FLD_OUT_ADDRESS .& 0xF)) (vsh_get_field t FLD_OUT_O_MASK) v else [].

Definition mac_args (t : list Z) (m : machine) (p : VshOpcodeParams) : list (vec F) :=
  (if param_A p then [fetch_a t m] else []) ++ (if param_B p then [fetch_b t m] else []) ++
  (if param_C p then [fetch_c t m] else []).

Definition mac_effects (t : list Z) (m : machine) : list effect :=
  let mac := vsh_get_field t FLD_MAC in
  if mac =? MAC_NOP then [] else
  if mac =? MAC_ARL then [SetA0 (arl (vx (fetch_a t m)))] else
  let p := entry (OpcodeParams false false false) mac_opcode_params mac in
  let v := macro (entry EmptyString mac_opcode mac) (mac_args t m p) in
  let r := vsh_get_field t FLD_OUT_R in
  (if negb (vsh_get_field t FLD_ILU =? ILU_NOP) && (r =? 1) then []
   else store (register r) (vsh_get_field t FLD_OUT_MAC_MASK) v) ++
  store_output t OMUX_MAC v.

Definition ilu_effects (t : list Z) (m : machine) : list effect :=
  let ilu := vsh_get_field t FLD_ILU in
  if ilu =? ILU_NOP then [] else
  let v := macro (entry EmptyString ilu_opcode ilu) [fetch_c t m] in
  let r := if vsh_get_field t FLD_MAC =? MAC_NOP then vsh_get_field t FLD_OUT_R else 1 in
  store (register r) (vsh_get_field t FLD_OUT_ILU_MASK) v ++ store_output t OMUX_ILU v.

(** An instruction reads its operands before it writes. *)
Definition vsh_execute (m : machine) (t : list Z) : machine :=
  foldl apply_effect m (mac_effects t m ++ ilu_effects t m).

(** ** Statements that do not disturb each other *)

Lemma assign_frame p v (l : list Z) m : let m' := apply_effect m (Assign p l v) in
  a0 m' = a0 m ∧ ∀ q, q ≠ p → var m' q = var m q.
Proof.
  cbn. revert m. induction l as [| i l IH]; intros m; [done |]. cbn [foldl].
  destruct (IH (set_var p (set_component (var m p) i (component v i)) m)) as [-> E]. split; [done |].
  intros q Hq. rewrite E by done. cbn. by rewrite decide_False.
Qed.

Lemma effect_writes m s e : effect_of m s = Some e →
  (∃ z, e = SetA0 z ∧ to s = ToA0) ∨ (∃ p l v, e = Assign p l v ∧ to s ≠ ToA0 ∧ place_of (to s) = Some p).
Proof.
  unfold effect_of. destruct (mapM (operand_value m) (operands s)) as [values |]; [| done]. cbn [mbind option_bind].
  intros E. destruct (decide (to s = ToA0)) as [T | T].
  - rewrite T in E. left. destruct values as [| v [| ? ?]]; [done | | done]. destruct (String.eqb _ _); [| done].
    injection E as <-. by eexists.
  - right. assert (∃ p l, place_of (to s) = Some p ∧ e = Assign p l (macro (macro_name s) values)) as (p & l & Ep & ->).
    { destruct (to s) as [| n | n | n]; [done | | done |]; (destruct (place_of _) as [p |]; [| done]);
        (destruct (mask_indices (mask s)) as [l |]; [| done]); cbn [mbind option_bind] in E;
        (case_bool_decide; [| done]); injection E as <-; by exists p, l. }
    by eexists _, _, _.
Qed.

Lemma reads_none s p o : reads_place s p = false → o ∈ operands s →
  match from o with Reg n => place_of (ToR n) ≠ Some p | _ => True end.
Proof.
  intros R Ho. apply list_elem_of_In in Ho. destruct (from o) as [n | | |] eqn:E; try done. intros P.
  assert (reads_place s p = true) as C; [| congruence]. apply existsb_exists. exists o. split; [done |]. rewrite E.
  by apply bool_decide_eq_true.
Qed.

Lemma reads_no_a0 s o : reads_a0 s = false → o ∈ operands s → match from o with ConstA0 _ => False | _ => True end.
Proof.
  intros R Ho. apply list_elem_of_In in Ho. destruct (from o) as [| | | n] eqn:E; try done.
  assert (reads_a0 s = true) as C; [| congruence]. apply existsb_exists. exists o. by rewrite E.
Qed.

Lemma effect_frame m s s' e : disturbs s s' = false → effect_of m s = Some e →
  effect_of (apply_effect m e) s' = effect_of m s'.
Proof.
  intros D E. assert (mapM (operand_value (apply_effect m e)) (operands s') = mapM (operand_value m) (operands s')) as M.
  2: { unfold effect_of. by rewrite M. }
  apply Forall_mapM_ext, Forall_forall. intros o Ho. unfold operand_value.
  enough (source_value (apply_effect m e) (from o) = source_value m (from o)) as -> by done.
  unfold disturbs in D. destruct (effect_writes _ _ _ E) as [(z & -> & T) | (p & l & v & -> & T & P)].
  - rewrite T in D. pose proof (reads_no_a0 _ _ D Ho) as N. by destruct (from o).
  - assert (reads_place s' p = false) as D' by (by destruct (to s); rewrite ?P in D).
    pose proof (reads_none _ _ _ D' Ho) as N. destruct (assign_frame p v l m) as [Ea Ev].
    destruct (from o) as [n | | | n]; [| done | done | cbn [source_value]; by rewrite Ea].
    cbn [source_value]. destruct (place_of (ToR n)) as [q |]; [| done]. cbn [fmap option_fmap option_map]. f_equal. apply Ev.
    congruence.
Qed.

Lemma run_parallel l m es : hazard_free l = true → mapM (effect_of m) l = Some es → run l m = Some (foldl apply_effect m es).
Proof.
  revert m es. induction l as [| s l IH]; intros m es H E; [by injection E as <- |].
  cbn [hazard_free] in H. apply andb_prop in H as [H1 H2]. rewrite forallb_forall in H1.
  cbn in E. destruct (effect_of m s) as [e |] eqn:Ee; [| done]. cbn in E.
  destruct (mapM (effect_of m) l) as [es' |] eqn:El; [| done]. injection E as <-.
  cbn [run]. rewrite Ee. cbn [mbind option_bind foldl]. apply IH; [done |]. rewrite <- El.
  apply Forall_mapM_ext, Forall_forall. intros s' Hs. apply (effect_frame _ s); [| done].
  apply negb_true_iff, H1. by apply list_elem_of_In.
Qed.
(** ** The statements of an instruction have its effects *)

Lemma place_register n p : place_of (ToR n) = Some p → p = register n.
Proof. cbn. unfold register. destruct (n =? 12); [| destruct (_ && _)]; congruence. Qed.

Lemma operand_fetch t m param neg_field reg_num o : swizzle_field (next_field neg_field) = true →
  operand_of t param neg_field reg_num = Some o → source_declared o = true →
  operand_value m o = Some (fetch t m param neg_field reg_num).
Proof.
  intros S E D. destruct (swizzle_of t (next_field neg_field)) as [[[x y] z] w] eqn:Sw.
  unfold operand_value, fetch. rewrite Sw. unfold operand_of in E.
  assert (∀ s v, o = Operand (0 <? vsh_get_field t neg_field) s (decode_swizzle t (next_field neg_field)) →
    source_value m s = Some v → operand_value m o = Some (let v := Vec (component v x) (component v y) (component v z) (component v w) in
      if 0 <? vsh_get_field t neg_field then map_vec opp v else v)) as V.
  { intros s v -> Es. unfold operand_value. cbn [from swizzle negated]. rewrite Es. cbn [mbind option_bind].
    by rewrite (decode_swizzle_select v _ _ _ _ _ _ S Sw). }
  destruct (param =? PARAM_R).
  { injection E as E. unfold source_declared in D. rewrite <- E in D. cbn [from] in D. apply bool_decide_eq_true in D as [p P].
    apply (V (Reg reg_num)); [done |]. cbn [source_value]. rewrite P. by rewrite (place_register _ _ P). }
  destruct (param =? PARAM_V); [injection E as E; by apply (V (Attr (vsh_get_field t FLD_V))) |].
  destruct (param =? PARAM_C); [| done].
  pose proof (field_bound t FLD_CONST). rewrite convert_c_register_same in E by done.
  injection E as E. destruct (0 <? vsh_get_field t FLD_A0X); [by apply (V (ConstA0 (vsh_get_field t FLD_CONST))) |].
  by apply (V (Const (vsh_get_field t FLD_CONST))).
Qed.

Lemma mac_values t m p args : mac_operands t p = Some args → forallb source_declared args = true →
  mapM (operand_value m) args = Some (mac_args t m p).
Proof.
  unfold mac_operands, mac_args. destruct (operand_c t) as [c |] eqn:C; [| done]. cbn [mbind option_bind]. intros E D.
  assert (∃ a b, args = a ++ b ++ (if param_C p then [c] else []) ∧
    only (param_A p) (operand_a t) = Some a ∧ only (param_B p) (operand_b t) = Some b) as (a & b & -> & Ea & Eb).
  { destruct (only (param_A p) _) as [a |]; [| done]. cbn [mbind option_bind] in E.
    destruct (only (param_B p) _) as [b |]; [| done]. injection E as <-. by exists a, b. }
  rewrite !forallb_app, !andb_true_iff in D. destruct D as (Da & Db & Dc).
  assert (∀ q r n o l, swizzle_field (next_field n) = true → only q (operand_of t r n o) = Some l → forallb source_declared l = true →
    Forall2 (λ o v, operand_value m o = Some v) l (if q then [fetch t m r n o] else [])) as L.
  { intros q r n o l S El Dl. destruct q; [| injection El as <-; constructor]. cbn [only] in El.
    destruct (operand_of t r n o) as [o' |] eqn:Eo; [| done]. injection El as <-. constructor; [| constructor].
    apply operand_fetch; [done.. |]. cbn in Dl. by rewrite andb_true_r in Dl. }
  apply mapM_Some_2. apply Forall2_app; [by apply L |]. apply Forall2_app; [by apply L |].
  apply L; [done | | done]. fold (operand_c t). rewrite C. by destruct (param_C p).
Qed.

Lemma call_effect m opcode target k args values p : mapM (operand_value m) args = Some values → target ≠ ToA0 →
  place_of target = Some p → 0 ≤ k < 16 → opcode ∈ macros →
  effect_of m (Call opcode target (entry EmptyString mask_str k) args) = Some (Assign p (bits k) (macro opcode values)).
Proof.
  intros V T P K M. unfold effect_of. cbn [operands to mask macro_name]. rewrite V. cbn [mbind option_bind].
  destruct target; [done |..]; rewrite P; cbn [mbind option_bind]; rewrite mask_str_bits by done;
    cbn [mbind option_bind]; by rewrite bool_decide_eq_true_2.
Qed.

Lemma opcode_effects t m out_mux k opcode args values : 0 ≤ k < 16 → opcode ≠ "ARL A0.x" →
  (forallb source_declared args = true → mapM (operand_value m) args = Some values) →
  let l := opcode_statements t out_mux k opcode args in
  let '(r, k') := paired t out_mux k in
  forallb declared l = true →
  mapM (effect_of m) l = Some (store (register r) k' (macro opcode values) ++ store_output t out_mux (macro opcode values)).
Proof.
  intros K N V. cbv zeta. unfold opcode_statements. destruct (paired t out_mux k) as [r k'] eqn:P.
  assert (0 ≤ k' < 16) as K'. { unfold paired in P. repeat destruct (_ && _); injection P as <- <-; lia. }
  change (entry EmptyString mac_opcode MAC_ARL) with "ARL A0.x".
  rewrite (proj2 (String.eqb_neq _ _) N), forallb_app, andb_true_iff. intros [D1 D2].
  assert (∀ target q, target ≠ ToA0 → 0 ≤ q < 16 → forallb declared [Call opcode target (entry EmptyString mask_str q) args] = true →
    ∃ p, place_of target = Some p ∧
      effect_of m (Call opcode target (entry EmptyString mask_str q) args) = Some (Assign p (bits q) (macro opcode values))) as C.
  { intros target q T Q D. cbn [forallb] in D. rewrite andb_true_r in D. unfold declared in D. cbn [operands to macro_name] in D.
    apply andb_true_iff in D as [D D']. assert (is_Some (place_of target) ∧ opcode ∈ macros) as [[p Hp] Hm].
    { destruct target; [done |..]; apply andb_true_iff in D' as [D1' D2']; by rewrite !bool_decide_eq_true in *. }
    exists p. split; [done |]. apply call_effect; auto. }
  apply mapM_Some_2, Forall2_app.
  - unfold store. destruct (0 <? k') eqn:Z0.
    + destruct (C (ToR r) k') as (p & Hp & E); [done.. |]. rewrite (proj2 (Z.eqb_neq k' 0)) by lia.
      rewrite <- (place_register _ _ Hp). by repeat constructor.
    + rewrite (proj2 (Z.eqb_eq k' 0)) by lia. constructor.
  - unfold store_output, store. destruct (vsh_get_field t FLD_OUT_MUX =? out_mux); [| constructor].
    destruct (vsh_get_field t FLD_OUT_O_MASK =? 0); [constructor |]. cbn [negb andb] in *.
    pose proof (field_bound t FLD_OUT_O_MASK). destruct (C (output_of t) (vsh_get_field t FLD_OUT_O_MASK)) as (p & Hp & E);
      [unfold output_of; by destruct (_ =? _) | done | done |].
    constructor; [| constructor]. rewrite E. do 2 f_equal. unfold output_of in Hp. destruct (_ =? OUTPUT_C); [done |].
    cbn [place_of] in Hp. destruct (_ || _); congruence.
Qed.

Lemma known_entry mac p : mac_opcode_params !! Z.to_nat mac = Some p → entry (OpcodeParams false false false) mac_opcode_params mac = p.
Proof. unfold entry. intros E. by rewrite nth_lookup, E. Qed.

Lemma mac_name_arl mac : 0 ≤ mac ≤ MAC_ARL → entry EmptyString mac_opcode mac = "ARL A0.x" → mac = MAC_ARL.
Proof.
  unfold MAC_ARL. intros H E. destruct (decide (mac = 13)) as [| N]; [done |]. exfalso.
  assert (∀ n : nat, (n < 13)%nat → entry EmptyString mac_opcode (Z.of_nat n) ≠ "ARL A0.x") as C.
  { intros n Hn. do 13 (destruct n as [| n]; [by vm_compute |]). lia. }
  apply (C (Z.to_nat mac)); [lia |]. by rewrite Z2Nat.id by lia.
Qed.

Lemma arl_not_macro : bool_decide ("ARL A0.x" ∈ macros) = false.
Proof. by vm_compute. Qed.

Lemma arl_not_ilu : bool_decide ("ARL A0.x" ∈ EmptyString :: ilu_opcode) = false.
Proof. by vm_compute. Qed.

Lemma mac_part t m l : known_mac t → mac_statements t = Some l → forallb declared l = true →
  mapM (effect_of m) l = Some (mac_effects t m).
Proof.
  intros K E D. unfold mac_statements, mac_effects in *. destruct (vsh_get_field t FLD_MAC =? MAC_NOP); [by injection E as <- |].
  cbn [negb] in E. destruct (mac_opcode_params !! _) as [p |] eqn:P; [| done]. cbn [mbind option_bind] in E.
  destruct (mac_operands t p) as [args |] eqn:A; [| done]. cbn [mbind option_bind] in E. injection E as <-.
  rewrite (known_entry _ _ P). pose proof (mac_values t m p args A) as V. destruct (vsh_get_field t FLD_MAC =? MAC_ARL) eqn:R.
  - apply Z.eqb_eq in R. rewrite R in *. assert (p = OpcodeParams true false false) as -> by (by injection P).
    unfold opcode_statements in *. change (entry EmptyString mac_opcode MAC_ARL) with "ARL A0.x" in *.
    destruct (paired t OMUX_MAC _) as [r k]. rewrite String.eqb_refl in *. destruct (_ && _).
    { exfalso. cbn [forallb app] in D. rewrite !andb_true_iff in D. destruct D as (_ & D & _). unfold declared in D.
      apply andb_true_iff in D as [_ D]. cbn [to macro_name] in D. unfold output_of in D.
      by destruct (_ =? OUTPUT_C); rewrite arl_not_macro, andb_false_r in D. }
    cbn [app forallb] in *. rewrite andb_true_r in D. apply andb_true_iff in D as [D _]. specialize (V D).
    cbn. unfold effect_of. cbn [operands to]. rewrite V. done.
  - apply Z.eqb_neq in R. assert (entry EmptyString mac_opcode (vsh_get_field t FLD_MAC) ≠ "ARL A0.x") as N.
    { intros C. apply R. by apply mac_name_arl. }
    pose proof (field_bound t FLD_OUT_MAC_MASK) as B.
    pose proof (opcode_effects t m OMUX_MAC _ _ args _ B N V) as O. cbv zeta in O. unfold paired in O.
    change (OMUX_MAC =? OMUX_MAC) with true in O. change (OMUX_MAC =? OMUX_ILU) with false in O. cbn [andb] in O.
    destruct (_ && _); by rewrite (O D).
Qed.

Lemma ilu_part t m l : ilu_statements t = Some l → forallb declared l = true → mapM (effect_of m) l = Some (ilu_effects t m).
Proof.
  unfold ilu_statements, ilu_effects. intros E D. destruct (operand_c t) as [c |] eqn:C; [| done]. cbn [mbind option_bind] in E.
  apply (inj Some) in E. subst l. destruct (vsh_get_field t FLD_ILU =? ILU_NOP); [done |]. cbn [negb] in *.
  assert (entry EmptyString ilu_opcode (vsh_get_field t FLD_ILU) ≠ "ARL A0.x") as N.
  { intros E. assert ("ARL A0.x" ∈ EmptyString :: ilu_opcode) as I.
    { rewrite <- E. unfold entry. rewrite nth_lookup. destruct (ilu_opcode !! _) eqn:L; [| by left].
      right. by eapply list_elem_of_lookup_2. }
    by apply (bool_decide_eq_false_1 _ arl_not_ilu). }
  pose proof (field_bound t FLD_OUT_ILU_MASK) as B.
  pose proof (opcode_effects t m OMUX_ILU _ _ [c] [fetch_c t m] B N) as O. cbv zeta in O. unfold paired in O.
  change (OMUX_ILU =? OMUX_MAC) with false in O. change (OMUX_ILU =? OMUX_ILU) with true in O. cbn [andb] in O.
  destruct (vsh_get_field t FLD_MAC =? MAC_NOP); cbn [negb] in O; apply O; auto; intros Dc; cbn in Dc |- *;
    rewrite andb_true_r in Dc; unfold fetch_c; by rewrite (operand_fetch t m _ FLD_C_NEG _ c eq_refl C Dc).
Qed.

(** An instruction that is translatable does what its text does. *)
Lemma translated_instruction t m : translatable t = true →
  ∃ l, decode_token t = Ok (print l) ∧ run l m = Some (vsh_execute m t).
Proof.
  unfold translatable. intros T. apply andb_true_iff in T as [K T]. apply Z.leb_le in K.
  assert (known_mac t) as K' by (unfold known_mac; pose proof (field_bound t FLD_MAC); lia).
  rewrite decode_token_print by done. destruct (statements t) as [l |] eqn:E; [| done]. apply andb_true_iff in T as [D H].
  exists l. split; [done |]. apply run_parallel; [done |]. unfold statements in E.
  destruct (mac_statements t) as [l1 |] eqn:E1; [| done]. destruct (ilu_statements t) as [l2 |] eqn:E2; [| done].
  injection E as <-. rewrite forallb_app, andb_true_iff in D. destruct D as [D1 D2].
  apply mapM_Some_2, Forall2_app; apply mapM_Some_1; [by apply mac_part | by apply ilu_part].
Qed.

Lemma run_app l l' m m' : run l m = Some m' → run (l ++ l') m = run l' m'.
Proof.
  revert m. induction l as [| s l IH]; intros m E; [by injection E as -> |]. cbn [run app] in *.
  destruct (effect_of m s) as [e |]; [| done]. by apply IH.
Qed.

(** C5: A vertex program is translated to a GLSL program that does the same.  For a program
    whose last instruction is marked as such, in the first [len] slots of the memory, the
    translation succeeds; it appends the macros to the header and, to the body, a comment and
    the statements for each slot and the conversion to clip coordinates.  Executed one after
    the other, the statements leave in the registers, the outputs and the address register
    what the instructions of the guest do, each of which reads all of its operands before it
    writes.  The instructions must not read what their own first statements write
    ([hazard_free]), and only name registers that exist. *)
Theorem vsh_translate_correct prog rest len z_perspective header body m : is_program prog → Z.of_nat (length prog) ≤ len →
  forallb translatable prog = true →
  ∃ code, length code = length prog ∧
    vsh_translate (concat prog ++ rest) len z_perspective header body =
      Ok (header +:+ vsh_header, body +:+ slots_text 0 (zip prog code) +:+ epilogue z_perspective) ∧
    run (concat code) m = Some (foldl vsh_execute m prog).
Proof.
  intros P L T.
  assert (∃ code, Forall2 (λ t l, decode_token t = Ok (print l)) prog code ∧ run (concat code) m = Some (foldl vsh_execute m prog))
    as (code & D & R).
  { clear P L. revert m. induction prog as [| t prog IH]; intros m; [by exists [] |].
    cbn [forallb] in T. apply andb_true_iff in T as [Ht T]. destruct (translated_instruction t m Ht) as (l & D & R).
    destruct (IH T (vsh_execute m t)) as (code & D' & R'). exists (l :: code). split; [by constructor |].
    cbn [concat foldl]. by rewrite (run_app _ _ _ _ R). }
  exists code. split; [by rewrite (Forall2_length _ _ _ D) |]. split; [by apply vsh_translate_text | done].
Qed.
End meaning.

(** ** Examples *)

Module SampleVsh.

(** Whole numbers, with the operations that the examples use. *)
Definition product (v w : vec Z) : vec Z := Vec (vx v * vx w) (vy v * vy w) (vz v * vz w) (vw v * vw w).
Definition sum (v : vec Z) : Z := vx v + vy v + vz v + vw v.

Definition macro (name : string) (args : list (vec Z)) : vec Z :=
  match args with
  | [v; w] => if String.eqb name "DP4" then let s := sum (product v w) in Vec s s s s else product v w
  | v :: _ => v
  | [] => Vec 0 0 0 0
  end.

Definition attr (n : Z) : vec Z := Vec (n + 1) (n + 2) (n + 3) (n + 4).
Definition const (n : Z) : vec Z := Vec 2 3 5 n.
Definition start : machine (F := Z) := Machine 0 (λ _, Vec 7 7 7 7).

(** A field of an instruction; those of the swizzles are in order. *)
Definition plain (f : VshFieldName) : Z :=
  match f with
  | FLD_A_SWZ_Y | FLD_B_SWZ_Y | FLD_C_SWZ_Y => 1
  | FLD_A_SWZ_Z | FLD_B_SWZ_Z | FLD_C_SWZ_Z => 2
  | FLD_A_SWZ_W | FLD_B_SWZ_W | FLD_C_SWZ_W => 3
  | FLD_C_MUX => PARAM_R
  | FLD_OUT_ORB => 1
  | _ => 0
  end.

(** MUL R1, v0, c[96] *)
Definition multiply (f : VshFieldName) : Z :=
  match f with
  | FLD_MAC => 2 | FLD_A_MUX => PARAM_V | FLD_B_MUX => PARAM_C | FLD_CONST => 96
  | FLD_OUT_R => 1 | FLD_OUT_MAC_MASK => 15 | f => plain f
  end.

(** DP4 R3.x, R1, c[96] with RCP R1.y and oFog.xy, -R2.w, the last one *)
Definition both (f : VshFieldName) : Z :=
  match f with
  | FLD_MAC => 7 | FLD_A_MUX => PARAM_R | FLD_A_R => 1 | FLD_B_MUX => PARAM_C | FLD_CONST => 96
  | FLD_OUT_R => 3 | FLD_OUT_MAC_MASK => 8
  | FLD_ILU => 2 | FLD_C_R_LOW => 2 | FLD_C_NEG => 1 | FLD_C_SWZ_X => 3 | FLD_OUT_ILU_MASK => 4
  | FLD_OUT_MUX => 1 | FLD_OUT_O_MASK => 12 | FLD_OUT_ADDRESS => 5 | FLD_FINAL => 1 | f => plain f
  end.

Definition program : list (list Z) := [vsh_token multiply; vsh_token both].

Lemma program_text : (λ t, match decode_token t with Ok s => s | _ => EmptyString end) <$> program =
  ["  MUL(R1,xyzw, v0, c[96]);" +:+ newline;
   "  DP4(R3,x, R1, c[96]);" +:+ newline +:+ "  RCP(R1,y, -R2.w);" +:+ newline +:+ "  RCP(oFog,xy, -R2.w);" +:+ newline].
Proof. by vm_compute. Qed.

Lemma program_ends : is_program program.
Proof.
  split; [by repeat constructor |]. exists [vsh_token multiply], (vsh_token both).
  split; [done |]. split; [constructor; [by vm_compute | constructor] | by vm_compute].
Qed.

Lemma program_translatable : forallb translatable program = true.
Proof. by vm_compute. Qed.

Lemma vsh_translate_correct_witness : ∃ code, length code = length program ∧
  vsh_translate (concat program ++ [0; 0; 0; 0]) 3 true EmptyString EmptyString =
    Ok (EmptyString +:+ vsh_header, EmptyString +:+ slots_text 0 (zip program code) +:+ epilogue true) ∧
  run Z.opp attr const macro id (concat code) start = Some (foldl (vsh_execute Z.opp attr const macro id) start program).
Proof. apply vsh_translate_correct; [exact program_ends | by vm_compute | exact program_translatable]. Defined.

(** MUL R1 and oPos, R1, c[96]: the second statement of the text reads the product that the
    first one has stored, and multiplies again. *)
Definition in_place (f : VshFieldName) : Z :=
  match f with
  | FLD_MAC => 2 | FLD_A_MUX => PARAM_R | FLD_A_R => 1 | FLD_B_MUX => PARAM_C | FLD_CONST => 96
  | FLD_OUT_R => 1 | FLD_OUT_MAC_MASK => 15 | FLD_OUT_O_MASK => 15 | f => plain f
  end.

Lemma text_multiplies_twice :
  ∃ l, statements (vsh_token in_place) = Some l ∧ decode_token (vsh_token in_place) =
    Ok ("  MUL(R1,xyzw, R1, c[96]);" +:+ newline +:+ "  MUL(oPos,xyzw, R1, c[96]);" +:+ newline) ∧
  (λ m, vx (var m (Out 0))) <$> run Z.opp attr const macro id l start = Some 28 ∧
  vx (var (vsh_execute Z.opp attr const macro id start (vsh_token in_place)) (Out 0)) = 14.
Proof. eexists. split; [by vm_compute |]. split; [by vm_compute |]. split; by vm_compute. Qed.

End SampleVsh.
