(* ===== verification/Psh.v ===== *)
(** * Pixel shaders

    src/hw/xbox/nv2a/nv2a_psh.c: the register combiners, up to eight stages and a final one,
    and the four texture stages are translated to the text of a GLSL fragment shader.

    The translation is shown to succeed exactly for the states that [psh_valid] describes, to
    give the text [psh_text] of them, with each name that is used declared once, to stay within
    the arrays of the names that it collects, and to fail in three ways for the other states. *)

From S2P Require Import Text Prelude PgraphState.

(** ** Numbers of the combiners *)

Definition PS_REGISTER_DISCARD : Z := 0x00.
Definition PS_REGISTER_C0 : Z := 0x01.
Definition PS_REGISTER_C1 : Z := 0x02.
Definition PS_REGISTER_FOG : Z := 0x03.
Definition PS_REGISTER_V0 : Z := 0x04.
Definition PS_REGISTER_V1 : Z := 0x05.
Definition PS_REGISTER_T0 : Z := 0x08.
Definition PS_REGISTER_T1 : Z := 0x09.
Definition PS_REGISTER_T2 : Z := 0x0a.
Definition PS_REGISTER_T3 : Z := 0x0b.
Definition PS_REGISTER_R0 : Z := 0x0c.
Definition PS_REGISTER_R1 : Z := 0x0d.
Definition PS_REGISTER_V1R0_SUM : Z := 0x0e.
Definition PS_REGISTER_EF_PROD : Z := 0x0f.

Definition PS_COMBINERCOUNT_UNIQUE_C0 : Z := 0x0010.
Definition PS_COMBINERCOUNT_UNIQUE_C1 : Z := 0x0100.

Definition PS_COMBINEROUTPUT_AB_BLUE_TO_ALPHA : Z := 0x80.
Definition PS_COMBINEROUTPUT_CD_BLUE_TO_ALPHA : Z := 0x40.
Definition PS_COMBINEROUTPUT_AB_DOT_PRODUCT : Z := 0x02.
Definition PS_COMBINEROUTPUT_CD_DOT_PRODUCT : Z := 0x01.
Definition PS_COMBINEROUTPUT_AB_CD_SUM : Z := 0x00.

Definition ALPHA_FUNC_NEVER : Z := 0.
Definition ALPHA_FUNC_ALWAYS : Z := 7.

(** ** The definition of a pixel shader *)

Record InputInfo := Input { in_reg : Z; in_mod : Z; in_chan : Z }.

Record InputVarInfo := InputVar { var_a : InputInfo; var_b : InputInfo; var_c : InputInfo; var_d : InputInfo }.

Record FCInputInfo := FCInput {
  fc_abcd : InputVarInfo;
  fc_e : InputInfo; fc_f : InputInfo; fc_g : InputInfo;
  clamp_sum : bool; inv_v1 : bool; inv_r0 : bool;
  enabled : bool
}.

Record OutputInfo := Output {
  out_ab : Z; out_cd : Z; out_muxsum : Z; out_flags : Z;
  ab_op : Z; cd_op : Z; muxsum_op : Z; out_mapping : Z;
  ab_alphablue : Z; cd_alphablue : Z
}.

Record PSStageInfo := Stage {
  rgb_input : InputVarInfo; alpha_input : InputVarInfo;
  rgb_output : OutputInfo; alpha_output : OutputInfo
}.

(** A pointer to a string is [None] if it is null. *)
Record PixelShader := Shader {
  ps_state : PshState;
  num_stages : Z;
  ps_flags : Z;
  ps_stage : list PSStageInfo;
  final_input : FCInputInfo;
  tex_modes : list Z;
  input_tex : list Z;
  varE : option string;
  varF : option string;
  code : string;
  cur_stage : Z;
  var_refs : list string;
  const_refs : list string
}.

#[global] Instance PixelShader_eta : Eta PixelShader := λ x,
  Shader (ps_state x) (num_stages x) (ps_flags x) (ps_stage x) (final_input x) (tex_modes x) (input_tex x) (varE x)
    (varF x) (code x) (cur_stage x) (var_refs x) (const_refs x).

(** ** Names *)

(** The arrays have room for 32 names of 31 characters. *)
Definition add_ref (refs : list string) (var : string) : res (list string) :=
  if existsb (String.eqb var) refs then Ok refs
  else _ ← in_bounds ((length refs <? 32)%nat && (String.length var <? 32)%nat); Ok (refs ++ [var]).

Definition add_var_ref (ps : PixelShader) (var : string) : res PixelShader :=
  refs ← add_ref (var_refs ps) var; Ok (ps <| var_refs := refs |>).

Definition add_const_ref (ps : PixelShader) (var : string) : res PixelShader :=
  refs ← add_ref (const_refs ps) var; Ok (ps <| const_refs := refs |>).

(** A constant of the stage, or the one that all stages share. *)
Definition get_const (ps : PixelShader) (name : string) (unique : Z) : res (string * PixelShader) :=
  let reg := if nz (ps_flags ps .& unique) || (cur_stage ps =? 8) then name +:+ "_" +:+ pretty (cur_stage ps)
             else name +:+ "_0" in
  ps ← add_const_ref ps reg; Ok (reg, ps).

Definition get_var (ps : PixelShader) (reg : Z) (is_dest : bool) : res (string * PixelShader) :=
  if reg =? PS_REGISTER_DISCARD then Ok (if is_dest then EmptyString else "vec4(0.0)", ps)
  else if reg =? PS_REGISTER_C0 then get_const ps "c0" PS_COMBINERCOUNT_UNIQUE_C0
  else if reg =? PS_REGISTER_C1 then get_const ps "c1" PS_COMBINERCOUNT_UNIQUE_C1
  else if reg =? PS_REGISTER_FOG then Ok ("pFog", ps)
  else if reg =? PS_REGISTER_V0 then Ok ("v0", ps)
  else if reg =? PS_REGISTER_V1 then Ok ("v1", ps)
  else if reg =? PS_REGISTER_T0 then Ok ("t0", ps)
  else if reg =? PS_REGISTER_T1 then Ok ("t1", ps)
  else if reg =? PS_REGISTER_T2 then Ok ("t2", ps)
  else if reg =? PS_REGISTER_T3 then Ok ("t3", ps)
  else if reg =? PS_REGISTER_R0 then ps ← add_var_ref ps "r0"; Ok ("r0", ps)
  else if reg =? PS_REGISTER_R1 then ps ← add_var_ref ps "r1"; Ok ("r1", ps)
  else if reg =? PS_REGISTER_V1R0_SUM then ps ← add_var_ref ps "r0"; Ok ("vec4(v1.rgb + r0.rgb, 0.0)", ps)
  else if reg =? PS_REGISTER_EF_PROD then
    match varE ps, varF ps with
    | Some e, Some f => Ok ("vec4(" +:+ e +:+ " * " +:+ f +:+ ", 0.0)", ps)
    | _, _ => Fault undefined_behaviour
    end
  else Fault assert_failed.

(** ** Inputs and outputs *)

Definition channel (chan : Z) (is_alpha : bool) : res string :=
  if chan =? 0x00 then Ok (if is_alpha then ".b" else ".rgb")
  else if chan =? 0x10 then Ok (if is_alpha then ".a" else ".aaa")
  else Fault assert_failed.

Definition input_mapping (mod_ : Z) (reg : string) : res string :=
  if mod_ =? 0x00 then Ok ("max(" +:+ reg +:+ ", 0.0)")
  else if mod_ =? 0x20 then Ok ("(1.0 - clamp(" +:+ reg +:+ ", 0.0, 1.0))")
  else if mod_ =? 0x40 then Ok ("(2.0 * max(" +:+ reg +:+ ", 0.0) - 1.0)")
  else if mod_ =? 0x60 then Ok ("(-2.0 * max(" +:+ reg +:+ ", 0.0) + 1.0)")
  else if mod_ =? 0x80 then Ok ("(max(" +:+ reg +:+ ", 0.0) - 0.5)")
  else if mod_ =? 0xa0 then Ok ("(-max(" +:+ reg +:+ ", 0.0) + 0.5)")
  else if mod_ =? 0xc0 then Ok reg
  else if mod_ =? 0xe0 then Ok ("-" +:+ reg)
  else Fault assert_failed.

Definition get_input_var (ps : PixelShader) (i : InputInfo) (is_alpha : bool) : res (string * PixelShader) :=
  '(reg, ps) ← get_var ps (in_reg i) false;
  c ← channel (in_chan i) is_alpha;
  v ← input_mapping (in_mod i) (reg +:+ c);
  Ok (v, ps).

Definition get_output (reg : string) (mapping : Z) : res string :=
  if mapping =? 0x00 then Ok reg
  else if mapping =? 0x08 then Ok ("(" +:+ reg +:+ " - 0.5)")
  else if mapping =? 0x10 then Ok ("(" +:+ reg +:+ " * 2.0)")
  else if mapping =? 0x18 then Ok ("((" +:+ reg +:+ " - 0.5) * 2.0)")
  else if mapping =? 0x20 then Ok ("(" +:+ reg +:+ " * 4.0)")
  else if mapping =? 0x30 then Ok ("(" +:+ reg +:+ " / 2.0)")
  else Fault assert_failed.

Definition append_code (s : string) (ps : PixelShader) : PixelShader := ps <| code ::= λ c, c +:+ s |>.

Definition product (dot : bool) (a b : string) : string :=
  if dot then "dot(" +:+ a +:+ ", " +:+ b +:+ ")" else "(" +:+ a +:+ " * " +:+ b +:+ ")".

Definition is_empty (s : string) : bool := String.eqb s EmptyString.

(** The assignment of a result, if it is not discarded. *)
Definition assignment (dest write_mask caster v : string) : string :=
  if is_empty dest then EmptyString
  else line (dest +:+ "." +:+ write_mask +:+ " = clamp(" +:+ caster +:+ "(" +:+ v +:+ "), -1.0, 1.0);").

Definition blue_to_alpha (b : bool) (dest : string) : string :=
  if b then line (dest +:+ ".a = " +:+ dest +:+ ".b;") else EmptyString.

Definition add_stage_code (ps : PixelShader) (input : InputVarInfo) (output : OutputInfo) (write_mask : string)
    (is_alpha : bool) : res PixelShader :=
  '(a, ps) ← get_input_var ps (var_a input) is_alpha;
  '(b, ps) ← get_input_var ps (var_b input) is_alpha;
  '(c, ps) ← get_input_var ps (var_c input) is_alpha;
  '(d, ps) ← get_input_var ps (var_d input) is_alpha;
  let caster := if (String.length write_mask =? 3)%nat then "vec3" else EmptyString in
  let ab := product (ab_op output =? PS_COMBINEROUTPUT_AB_DOT_PRODUCT) a b in
  let cd := product (cd_op output =? PS_COMBINEROUTPUT_CD_DOT_PRODUCT) c d in
  ab_mapping ← get_output ab (out_mapping output);
  cd_mapping ← get_output cd (out_mapping output);
  '(ab_dest, ps) ← get_var ps (out_ab output) true;
  '(cd_dest, ps) ← get_var ps (out_cd output) true;
  '(sum_dest, ps) ← get_var ps (out_muxsum output) true;
  let ps := append_code (assignment ab_dest write_mask caster ab_mapping) ps in
  let ab_dest := if is_empty ab_dest then ab_mapping else ab_dest in
  let ps := append_code (assignment cd_dest write_mask caster cd_mapping) ps in
  let cd_dest := if is_empty cd_dest then cd_mapping else cd_dest in
  let ps := append_code (blue_to_alpha (negb is_alpha && nz (out_flags output .& PS_COMBINEROUTPUT_AB_BLUE_TO_ALPHA)) ab_dest) ps in
  let ps := append_code (blue_to_alpha (negb is_alpha && nz (out_flags output .& PS_COMBINEROUTPUT_CD_BLUE_TO_ALPHA)) cd_dest) ps in
  let sum := if muxsum_op output =? PS_COMBINEROUTPUT_AB_CD_SUM then "(" +:+ ab +:+ " + " +:+ cd +:+ ")"
             else "((r0.a >= 0.5) ? " +:+ cd +:+ " : " +:+ ab +:+ ")" in
  sum_mapping ← get_output sum (out_mapping output);
  Ok (append_code (assignment sum_dest write_mask caster sum_mapping) ps).

Definition add_final_stage_code (ps : PixelShader) (final : FCInputInfo) : res PixelShader :=
  '(e, ps) ← get_input_var ps (fc_e final) false;
  let ps := ps <| varE := Some e |> in
  '(f, ps) ← get_input_var ps (fc_f final) false;
  let ps := ps <| varF := Some f |> in
  '(a, ps) ← get_input_var ps (var_a (fc_abcd final)) false;
  '(b, ps) ← get_input_var ps (var_b (fc_abcd final)) false;
  '(c, ps) ← get_input_var ps (var_c (fc_abcd final)) false;
  '(d, ps) ← get_input_var ps (var_d (fc_abcd final)) false;
  '(g, ps) ← get_input_var ps (fc_g final) true;
  let ps := append_code (line ("fragColor.rgb = " +:+ d +:+ " + mix(vec3(" +:+ c +:+ "), vec3(" +:+ b +:+ "), vec3(" +:+ a +:+ "));")) ps in
  let ps := append_code (line ("fragColor.a = " +:+ g +:+ ";")) ps in
  Ok (ps <| varE := None |> <| varF := None |>).

(** ** The whole shader *)

Definition STRUCT_VERTEX_DATA : string := "struct VertexData {
  float inv_w;
  vec4 D0;
  vec4 D1;
  vec4 B0;
  vec4 B1;
  float Fog;
  vec4 T0;
  vec4 T1;
  vec4 T2;
  vec4 T3;
};
".

Definition preflight_text : string := STRUCT_VERTEX_DATA +:+ "noperspective in VertexData g_vtx;
#define vtx g_vtx

out vec4 fragColor;

uniform vec4 fogColor;
".

(** Window clipping: what is declared, and the code. *)
Definition window_clip (st : PshState) : res (string * string) :=
  let count := pretty (window_clip_count st) in
  if negb (window_clip_count st =? 0) then
    _ ← assert (negb (window_clip_exclusive st));
    Ok (line ("uniform ivec4 clipRegion[" +:+ count +:+ "];"), "/*  Window-clip (Inclusive) */
bool clipContained = false;
for (int i = 0; i < " +:+ count +:+ "; i++) {
  bvec4 clipTest = bvec4(lessThan(gl_FragCoord.xy, clipRegion[i].xy),
                         greaterThan(gl_FragCoord.xy, clipRegion[i].zw));
  if (!any(clipTest)) {
    clipContained = true;
    break;
  }
}
if (!clipContained) { discard; }
")
  else Ok (EmptyString, if window_clip_exclusive st then line "discard;" else EmptyString).

Definition vars_text : string := "vec4 pD0 = vtx.D0 / vtx.inv_w;
vec4 pD1 = vtx.D1 / vtx.inv_w;
vec4 pB0 = vtx.B0 / vtx.inv_w;
vec4 pB1 = vtx.B1 / vtx.inv_w;
vec4 pFog = vec4(fogColor.rgb, clamp(vtx.Fog / vtx.inv_w, 0.0, 1.0));
vec4 pT0 = vtx.T0 / vtx.inv_w;
vec4 pT1 = vtx.T1 / vtx.inv_w;
vec4 pT2 = vtx.T2 / vtx.inv_w;
vec4 pT3 = vtx.T3 / vtx.inv_w;

vec4 v0 = pD0;
vec4 v1 = pD1;
".

(** What a texture stage contributes: declarations, code for the variables, code of the
    stages, and the type of the sampler if the texture is read. *)
Record TextureCode := TexCode { tc_preflight : string; tc_vars : string; tc_code : string; sampler_type : option string }.

Definition bump_vars (i from : string) : string :=
  line ("vec4 t" +:+ i +:+ " = texture(texSamp" +:+ i +:+ ", pT" +:+ i +:+ ".xy + t" +:+ from +:+ ".rg * mat2(bumpMat" +:+ i +:+
        "[0].xy,bumpMat" +:+ i +:+ "[1].yx));").

Definition clip_plane (i : string) (modes : list bool) : string :=
  concat_strings ((λ j, line ("  if(pT" +:+ i +:+ "." +:+ entry EmptyString ["x"; "y"; "z"; "w"] j +:+ " " +:+
                              (if entry false modes j then ">=" else "<") +:+ " 0.0) { discard; };")) <$> [0; 1; 2; 3]).

Definition texture_code (ps : PixelShader) (n : Z) : res TextureCode :=
  let mode := entry 0 (tex_modes ps) n in
  let rect := entry false (rect_tex (ps_state ps)) n in
  let i := pretty n in
  let from := pretty (entry 0 (input_tex ps) n) in
  let t s := line ("vec4 t" +:+ i +:+ " = " +:+ s) in
  if mode =? 0x00 then Ok (TexCode EmptyString (t "vec4(0.0); /* PS_TEXTUREMODES_NONE */") EmptyString None)
  else if mode =? 0x01 then
    Ok (TexCode EmptyString (t ("textureProj(texSamp" +:+ i +:+ ", pT" +:+ i +:+ ".xyw);")) EmptyString
          (Some (if rect then "sampler2DRect" else "sampler2D")))
  else if mode =? 0x02 then
    Ok (TexCode EmptyString (t ("textureProj(texSamp" +:+ i +:+ ", pT" +:+ i +:+ ".xyzw);")) EmptyString (Some "sampler3D"))
  else if mode =? 0x03 then
    Ok (TexCode EmptyString (t ("texture(texSamp" +:+ i +:+ ", pT" +:+ i +:+ ".xyz / pT" +:+ i +:+ ".w);")) EmptyString
          (Some "samplerCube"))
  else if mode =? 0x04 then Ok (TexCode EmptyString (t ("pT" +:+ i +:+ ";")) EmptyString None)
  else if mode =? 0x05 then
    Ok (TexCode EmptyString (t "vec4(0.0); /* PS_TEXTUREMODES_CLIPPLANE */" +:+
          clip_plane i (entry [] (compare_mode (ps_state ps)) n)) EmptyString None)
  else if mode =? 0x06 then
    _ ← assert (negb rect);
    Ok (TexCode (line ("uniform mat2 bumpMat" +:+ i +:+ ";")) (bump_vars i from) EmptyString (Some "sampler2D"))
  else if mode =? 0x07 then
    _ ← assert (negb rect);
    Ok (TexCode (line ("uniform float bumpScale" +:+ i +:+ ";") +:+ line ("uniform float bumpOffset" +:+ i +:+ ";") +:+
                 line ("uniform mat2 bumpMat" +:+ i +:+ ";"))
          (bump_vars i from)
          (line ("/* BUMPENVMAP_LUM for stage " +:+ i +:+ " */") +:+
           line ("t" +:+ i +:+ " = t" +:+ i +:+ " * (bumpScale" +:+ i +:+ " * t" +:+ from +:+ ".b + bumpOffset" +:+ i +:+ ");"))
          (Some "sampler2D"))
  else if mode =? 0x0f then
    _ ← assert (negb rect);
    Ok (TexCode EmptyString (t ("texture(texSamp" +:+ i +:+ ", t" +:+ from +:+ ".ar);")) EmptyString (Some "sampler2D"))
  else if mode =? 0x10 then
    _ ← assert (negb rect);
    Ok (TexCode EmptyString (t ("texture(texSamp" +:+ i +:+ ", t" +:+ from +:+ ".gb);")) EmptyString (Some "sampler2D"))
  else if mode =? 0x11 then
    Ok (TexCode EmptyString (t ("vec4(dot(pT" +:+ i +:+ ".xyz, t" +:+ from +:+ ".rgb));")) EmptyString None)
  else Fault assert_failed.

Definition add_texture (pvs : string * string * PixelShader) (n : Z) : res (string * string * PixelShader) :=
  let '(preflight, vars, ps) := pvs in
  c ← texture_code ps n;
  let preflight := preflight +:+ tc_preflight c in
  let vars := vars +:+ tc_vars c in
  let ps := append_code (tc_code c) ps in
  match sampler_type c with
  | Some s =>
      Ok (preflight +:+ line ("uniform " +:+ s +:+ " texSamp" +:+ pretty n +:+ ";"),
          vars +:+ (if entry false (alphakill (ps_state ps)) n then line ("if (t" +:+ pretty n +:+ ".a == 0.0) { discard; };")
                    else EmptyString), ps)
  | None => Ok (preflight, vars, ps)
  end.

Definition add_stage (ps : PixelShader) (i : Z) : res PixelShader :=
  let ps := append_code (line ("// Stage " +:+ pretty i)) (ps <| cur_stage := i |>) in
  s ← entry_at (ps_stage ps) i;
  ps ← add_stage_code ps (rgb_input s) (rgb_output s) "rgb" false;
  add_stage_code ps (alpha_input s) (alpha_output s) "a" true.

Definition add_final (ps : PixelShader) : res PixelShader :=
  if enabled (final_input ps)
  then add_final_stage_code (append_code (line "// Final Combiner") (ps <| cur_stage := 8 |>)) (final_input ps)
  else Ok ps.

(** The alpha test: what is declared, and the code. *)
Definition alpha_test_code (st : PshState) : res (string * string) :=
  if alpha_test st && negb (alpha_func st =? ALPHA_FUNC_ALWAYS) then
    let declared := line "uniform float alphaRef;" in
    if alpha_func st =? ALPHA_FUNC_NEVER then Ok (declared, line "discard;")
    else
      alpha_op ← (if alpha_func st =? 1 then Ok "<"
                  else if alpha_func st =? 2 then Ok "=="
                  else if alpha_func st =? 3 then Ok "<="
                  else if alpha_func st =? 4 then Ok ">"
                  else if alpha_func st =? 5 then Ok "!="
                  else if alpha_func st =? 6 then Ok ">="
                  else Fault assert_failed);
      Ok (declared, line ("if (!(fragColor.a " +:+ alpha_op +:+ " alphaRef)) discard;"))
  else Ok (EmptyString, EmptyString).

Definition declare_const (c : string) : string := line ("uniform vec4 " +:+ c +:+ ";").

Definition declare_var (ps : PixelShader) (v : string) : string :=
  line ("vec4 " +:+ v +:+ ";") +:+
  (if String.eqb v "r0"
   then line (if negb (entry 0 (tex_modes ps) 0 =? 0) then "r0.a = t0.a;" else "r0.a = 1.0;") else EmptyString).

Definition psh_convert (ps : PixelShader) : res string :=
  '(clip_uniform, clip) ← window_clip (ps_state ps);
  '(preflight, vars, ps) ←
    foldl (λ r n, s ← r; add_texture s n) (Ok (preflight_text +:+ clip_uniform, vars_text, ps <| code := EmptyString |>)) [0; 1; 2; 3];
  ps ← foldl (λ r i, ps ← r; add_stage ps i) (Ok ps) (seqZ 0 (num_stages ps));
  ps ← add_final ps;
  '(alpha_uniform, test) ← alpha_test_code (ps_state ps);
  let ps := append_code test ps in
  let preflight := preflight +:+ alpha_uniform +:+ concat_strings (declare_const <$> const_refs ps) in
  let vars := vars +:+ concat_strings (declare_var ps <$> var_refs ps) in
  Ok ("#version 330" +:+ newline +:+ newline +:+ preflight +:+ line "void main() {" +:+ clip +:+ vars +:+ code ps +:+ line "}").

Definition parse_input (value : Z) : InputInfo := Input (value .& 0xF) (value .& 0xE0) (value .& 0x10).

Definition parse_combiner_inputs (value : Z) : InputVarInfo :=
  InputVar (parse_input ((value .>> 24) .& 0xFF)) (parse_input ((value .>> 16) .& 0xFF))
    (parse_input ((value .>> 8) .& 0xFF)) (parse_input (value .& 0xFF)).

Definition parse_combiner_output (value : Z) : OutputInfo :=
  let flags := value .>> 12 in
  Output ((value .>> 4) .& 0xF) (value .& 0xF) ((value .>> 8) .& 0xF) flags (flags .& 2) (flags .& 1) (flags .& 4)
    (flags .& 0x38) (flags .& 0x80) (flags .& 0x40).

Definition parse_stage (st : PshState) (i : Z) : res PSStageInfo :=
  ri ← entry_at (rgb_inputs st) i;
  ai ← entry_at (alpha_inputs st) i;
  ro ← entry_at (rgb_outputs st) i;
  ao ← entry_at (alpha_outputs st) i;
  Ok (Stage (parse_combiner_inputs ri) (parse_combiner_inputs ai) (parse_combiner_output ro) (parse_combiner_output ao)).

Definition no_input : InputInfo := Input 0 0 0.
Definition no_inputs : InputVarInfo := InputVar no_input no_input no_input no_input.

Definition parse_final (st : PshState) : FCInputInfo :=
  if nz (final_inputs_0 st) || nz (final_inputs_1 st) then
    let efg := parse_combiner_inputs (final_inputs_1 st) in
    let flags := final_inputs_1 st .& 0xFF in
    FCInput (parse_combiner_inputs (final_inputs_0 st)) (var_a efg) (var_b efg) (var_c efg)
      (nz (flags .& 0x80)) (nz (flags .& 0x40)) (nz (flags .& 0x20)) true
  else FCInput no_inputs no_input no_input no_input false false false false.

Definition psh_translate (st : PshState) : res string :=
  let stages := combiner_control st .& 0xFF in
  parsed ← foldl (λ r i, l ← r; s ← parse_stage st i; Ok (l ++ [s])) (Ok []) (seqZ 0 stages);
  psh_convert (Shader st stages (combiner_control st .>> 8) parsed (parse_final st)
    ((λ i, (shader_stage_program st .>> (i * 5)) .& 0x1F) <$> [0; 1; 2; 3])
    [-1; 0; (other_stage_input st .>> 16) .& 0xF; (other_stage_input st .>> 20) .& 0xF]
    None None EmptyString 0 [] []).

(** ** When the translation succeeds *)

(** [m] is [a] if [b], and otherwise fails, with a fault that [P] allows. *)
Definition outcome {A} (P : fault → Prop) (m : res A) (b : bool) (a : A) : Prop :=
  if b then m = Ok a else ∃ x, m = Fault x ∧ P x.

Section outcomes.
Context (P : fault → Prop).

Lemma outcome_bind {A B} (m : res A) (k : A → res B) b b' a a' :
  outcome P m b a → outcome P (k a) b' a' → outcome P (m ≫= k) (b && b') a'.
Proof.
  unfold outcome. intros M K. destruct b; cbn [andb]; [by rewrite M |]. destruct M as (x & -> & Px). by exists x.
Qed.

Lemma outcome_eq {A} (m : res A) b b' a a' : outcome P m b a → b = b' → a = a' → outcome P m b' a'.
Proof. by intros M <- <-. Qed.

(** Steps that follow each other, over the elements of a list. *)
Lemma outcome_foldl {A I} (step : A → I → res A) (valid : I → bool) (at_ : list I → A) l :
  (∀ d i, d ++ [i] `prefix_of` l → outcome P (step (at_ d) i) (valid i) (at_ (d ++ [i]))) →
  outcome P (foldl (λ r i, s ← r; step s i) (Ok (at_ [])) l) (forallb valid l) (at_ l).
Proof.
  intros S. assert (∀ d l', d ++ l' = l →
    outcome P (foldl (λ r i, s ← r; step s i) (Ok (at_ d)) l') (forallb valid l') (at_ (d ++ l'))) as H; [| by apply (H [])].
  intros d l'. revert d. induction l' as [| i l' IH]; intros d E; [by rewrite app_nil_r |]. cbn [foldl forallb mbind res_bind].
  assert (∀ x, foldl (λ r i, s ← r; step s i) (Fault x) l' = Fault x) as F by (clear; intros x; by induction l').
  rewrite (cons_middle i d l'), app_assoc in E |- *.
  pose proof (S d i ltac:(rewrite <- E; by apply prefix_app_r)) as Hi. destruct (valid i); cbn [andb].
  - unfold outcome in Hi. rewrite Hi. by apply IH.
  - destruct Hi as (x & -> & Px). exists x. split; [apply F | done].
Qed.

(** An element that a list ends with is one of a list that it begins. *)
Lemma prefix_elem {I} (d l : list I) i : d ++ [i] `prefix_of` l → i ∈ l.
Proof. intros [k ->]. set_solver. Qed.
End outcomes.

(** ** The names *)

(** The elements of a list, each where it is first. *)
Definition uniques (l : list string) : list string := reverse (remove_dups (reverse l)).

Lemma uniques_NoDup l : NoDup (uniques l).
Proof. unfold uniques. rewrite reverse_Permutation. apply NoDup_remove_dups. Qed.

Lemma elem_of_uniques l x : x ∈ uniques l ↔ x ∈ l.
Proof. unfold uniques. by rewrite elem_of_reverse, elem_of_remove_dups, elem_of_reverse. Qed.

Lemma uniques_snoc l x : uniques (l ++ [x]) = if decide (x ∈ l) then uniques l else uniques l ++ [x].
Proof.
  unfold uniques. rewrite reverse_snoc. cbn [remove_dups]. do 2 case_decide.
  - done.
  - by rewrite elem_of_reverse in *.
  - by rewrite elem_of_reverse in *.
  - apply reverse_cons.
Qed.

(** The arrays have room for names out of a few short ones. *)
Lemma add_ref_uniques (all names : list string) var : (length all < 32)%nat → Forall (λ s, (String.length s < 32)%nat) all →
  names ⊆ all → var ∈ all → add_ref (uniques names) var = Ok (uniques (names ++ [var])).
Proof.
  intros L S I V. unfold add_ref. rewrite uniques_snoc.
  assert (existsb (String.eqb var) (uniques names) = bool_decide (var ∈ names)) as ->.
  { apply eq_true_iff_eq. rewrite existsb_exists, bool_decide_eq_true, <- elem_of_uniques. split.
    - intros (x & Hx & <-%String.eqb_eq). by apply list_elem_of_In.
    - intros H. exists var. split; [by apply list_elem_of_In | apply String.eqb_refl]. }
  case_bool_decide; destruct (decide (var ∈ names)); try done.
  assert (length (uniques names) ≤ length all)%nat.
  { apply submseteq_length, NoDup_submseteq; [apply uniques_NoDup |]. intros x. rewrite elem_of_uniques. apply I. }
  rewrite Forall_forall in S. apply S in V. by rewrite (proj2 (Nat.ltb_lt _ _)), (proj2 (Nat.ltb_lt _ _)) by lia.
Qed.

(** The names that a register stands for. *)
Definition const_name (fl cur : Z) (name : string) (unique : Z) : string :=
  if nz (fl .& unique) || (cur =? 8) then name +:+ "_" +:+ pretty cur else name +:+ "_0".

Definition reg_consts (fl cur reg : Z) : list string :=
  if reg =? PS_REGISTER_C0 then [const_name fl cur "c0" PS_COMBINERCOUNT_UNIQUE_C0]
  else if reg =? PS_REGISTER_C1 then [const_name fl cur "c1" PS_COMBINERCOUNT_UNIQUE_C1] else [].

Definition reg_vars (reg : Z) : list string :=
  if (reg =? PS_REGISTER_R0) || (reg =? PS_REGISTER_V1R0_SUM) then ["r0"]
  else if reg =? PS_REGISTER_R1 then ["r1"] else [].

(** The registers that exist; the product E * F only for the final combiner. *)
Definition reg_valid (ef : bool) (reg : Z) : bool :=
  ((0 <=? reg) && (reg <=? 5)) || ((8 <=? reg) && (reg <=? 14)) || (ef && (reg =? PS_REGISTER_EF_PROD)).

Definition all_consts : list string :=
  ((λ k, "c0_" +:+ pretty k) <$> seqZ 0 9) ++ ((λ k, "c1_" +:+ pretty k) <$> seqZ 0 9).

Lemma all_consts_short : Forall (λ s, (String.length s < 32)%nat) all_consts.
Proof. apply (bool_decide_unpack _). by vm_compute. Qed.

Lemma const_name_all fl cur name unique : 0 ≤ cur ≤ 8 → name = "c0" ∨ name = "c1" → const_name fl cur name unique ∈ all_consts.
Proof.
  intros C N. assert (∀ k, 0 ≤ k ≤ 8 → name +:+ "_" +:+ pretty k ∈ all_consts) as A.
  { intros k K. unfold all_consts. destruct N as [-> | ->]; apply elem_of_app; [left | right];
      apply list_elem_of_fmap; exists k; (split; [done | apply elem_of_seqZ; lia]). }
  unfold const_name. destruct (_ || _); [by apply A |]. by apply (A 0).
Qed.

Definition consts (fl cur : Z) (regs : list Z) : list string := flat_map (reg_consts fl cur) regs.
Definition vars_of (regs : list Z) : list string := flat_map reg_vars regs.

(** Names for which there is room. *)
Definition room (cs vs : list string) : Prop := cs ⊆ all_consts ∧ vs ⊆ ["r0"; "r1"].

Lemma room_reg fl cur cs vs reg : 0 ≤ cur ≤ 8 → room cs vs → room (cs ++ reg_consts fl cur reg) (vs ++ reg_vars reg).
Proof.
  intros C [Ic Iv]. split; intros x [Hx | Hx]%elem_of_app; auto.
  - unfold reg_consts in Hx. repeat case_match; try (by apply not_elem_of_nil in Hx);
      apply list_elem_of_singleton in Hx as ->; apply const_name_all; auto.
  - unfold reg_vars in Hx. repeat case_match; try (by apply not_elem_of_nil in Hx);
      apply list_elem_of_singleton in Hx as ->; set_solver.
Qed.

Lemma room_regs fl cur cs vs regs : 0 ≤ cur ≤ 8 → room cs vs → room (cs ++ consts fl cur regs) (vs ++ vars_of regs).
Proof.
  intros C. revert cs vs. induction regs as [| reg regs IH]; intros cs vs R; cbn; [by rewrite !app_nil_r |].
  rewrite !app_assoc. by apply IH, room_reg.
Qed.

(** Inputs as they are parsed. *)
Definition input_parsed (i : InputInfo) : Prop :=
  (in_chan i = 0x00 ∨ in_chan i = 0x10) ∧ in_mod i ∈ [0x00; 0x20; 0x40; 0x60; 0x80; 0xa0; 0xc0; 0xe0].

#[local] Instance input_parsed_dec i : Decision (input_parsed i).
Proof. unfold input_parsed. apply _. Defined.

Definition inputs_parsed (v : InputVarInfo) : Prop :=
  input_parsed (var_a v) ∧ input_parsed (var_b v) ∧ input_parsed (var_c v) ∧ input_parsed (var_d v).

Lemma parse_input_parsed v : input_parsed (parse_input (v .& 0xFF)).
Proof.
  assert (∀ n : nat, (n < 256)%nat → input_parsed (parse_input (Z.of_nat n))) as H.
  { intros n Hn. assert (Forall (λ n, input_parsed (parse_input (Z.of_nat n))) (seq 0 256)) as A
      by (apply (bool_decide_unpack _); by vm_compute). rewrite Forall_forall in A. apply A, elem_of_seq. lia. }
  change 0xFF with (Z.ones 8). rewrite Z.land_ones by lia. pose proof (Z.mod_pos_bound v (2 ^ 8)).
  rewrite <- (Z2Nat.id (v mod 2 ^ 8)) by lia. apply H. lia.
Qed.

Lemma parse_inputs_parsed v : inputs_parsed (parse_combiner_inputs v).
Proof. split_and!; apply parse_input_parsed. Qed.

(** ** The text, as a function of the state

    What the registers, inputs and stages are translated to, without the collection of names. *)

Definition text_of (m : res string) : string := match m with Ok s => s | Fault _ => EmptyString end.

(** A register; [e] and [f] are the texts of E and F. *)
Definition reg_text (fl cur : Z) (e f : string) (reg : Z) (is_dest : bool) : string :=
  if reg =? PS_REGISTER_DISCARD then if is_dest then EmptyString else "vec4(0.0)"
  else if reg =? PS_REGISTER_C0 then const_name fl cur "c0" PS_COMBINERCOUNT_UNIQUE_C0
  else if reg =? PS_REGISTER_C1 then const_name fl cur "c1" PS_COMBINERCOUNT_UNIQUE_C1
  else if reg =? PS_REGISTER_V1R0_SUM then "vec4(v1.rgb + r0.rgb, 0.0)"
  else if reg =? PS_REGISTER_EF_PROD then "vec4(" +:+ e +:+ " * " +:+ f +:+ ", 0.0)"
  else entry EmptyString [EmptyString; EmptyString; EmptyString; "pFog"; "v0"; "v1"; EmptyString; EmptyString;
                          "t0"; "t1"; "t2"; "t3"; "r0"; "r1"] reg.

Definition input_text (fl cur : Z) (e f : string) (i : InputInfo) (is_alpha : bool) : string :=
  text_of (input_mapping (in_mod i) (reg_text fl cur e f (in_reg i) false +:+ text_of (channel (in_chan i) is_alpha))).

(** The colour part or the alpha part of a stage. *)
Definition part_text (fl cur : Z) (input : InputVarInfo) (output : OutputInfo) (write_mask caster : string) (is_alpha : bool) : string :=
  let input_ i := input_text fl cur EmptyString EmptyString i is_alpha in
  let output_ r := reg_text fl cur EmptyString EmptyString r true in
  let mapped s := text_of (get_output s (out_mapping output)) in
  let ab := product (ab_op output =? PS_COMBINEROUTPUT_AB_DOT_PRODUCT) (input_ (var_a input)) (input_ (var_b input)) in
  let cd := product (cd_op output =? PS_COMBINEROUTPUT_CD_DOT_PRODUCT) (input_ (var_c input)) (input_ (var_d input)) in
  let sum := if muxsum_op output =? PS_COMBINEROUTPUT_AB_CD_SUM then "(" +:+ ab +:+ " + " +:+ cd +:+ ")"
             else "((r0.a >= 0.5) ? " +:+ cd +:+ " : " +:+ ab +:+ ")" in
  let named dest s := if is_empty dest then s else dest in
  assignment (output_ (out_ab output)) write_mask caster (mapped ab) +:+
  assignment (output_ (out_cd output)) write_mask caster (mapped cd) +:+
  blue_to_alpha (negb is_alpha && nz (out_flags output .& PS_COMBINEROUTPUT_AB_BLUE_TO_ALPHA)) (named (output_ (out_ab output)) (mapped ab)) +:+
  blue_to_alpha (negb is_alpha && nz (out_flags output .& PS_COMBINEROUTPUT_CD_BLUE_TO_ALPHA)) (named (output_ (out_cd output)) (mapped cd)) +:+
  assignment (output_ (out_muxsum output)) write_mask caster (mapped sum).

Definition stage_text (fl i : Z) (s : PSStageInfo) : string :=
  line ("// Stage " +:+ pretty i) +:+
  part_text fl i (rgb_input s) (rgb_output s) "rgb" "vec3" false +:+
  part_text fl i (alpha_input s) (alpha_output s) "a" EmptyString true.

Definition final_text (fl : Z) (final : FCInputInfo) : string :=
  let e := input_text fl 8 EmptyString EmptyString (fc_e final) false in
  let f := input_text fl 8 e EmptyString (fc_f final) false in
  let input_ i := input_text fl 8 e f i false in
  line "// Final Combiner" +:+
  line ("fragColor.rgb = " +:+ input_ (var_d (fc_abcd final)) +:+ " + mix(vec3(" +:+ input_ (var_c (fc_abcd final)) +:+ "), vec3(" +:+
        input_ (var_b (fc_abcd final)) +:+ "), vec3(" +:+ input_ (var_a (fc_abcd final)) +:+ "));") +:+
  line ("fragColor.a = " +:+ input_text fl 8 e f (fc_g final) true +:+ ";").

(** ** The translation keeps to the text

    Of the shader that is translated, [shader_at] has the code and the names so far. *)

(** The registers of a stage, in the order of the code. *)
Definition input_regs (v : InputVarInfo) : list Z := [in_reg (var_a v); in_reg (var_b v); in_reg (var_c v); in_reg (var_d v)].
Definition output_regs (o : OutputInfo) : list Z := [out_ab o; out_cd o; out_muxsum o].
Definition final_regs (f : FCInputInfo) : list Z := [in_reg (fc_e f); in_reg (fc_f f)] ++ input_regs (fc_abcd f) ++ [in_reg (fc_g f)].

Definition mapping_valid (m : Z) : bool :=
  (m =? 0x00) || (m =? 0x08) || (m =? 0x10) || (m =? 0x18) || (m =? 0x20) || (m =? 0x30).

Definition ef_known (e f : option string) : bool := match e, f with Some _, Some _ => true | _, _ => false end.

Section tracking.
Context (ps0 : PixelShader) (P : fault → Prop) (asserts : P assert_failed).

Notation fl := (ps_flags ps0).

Definition shader_at (cur : Z) (e f : option string) (c : string) (cs vs : list string) : PixelShader :=
  Shader (ps_state ps0) (num_stages ps0) (ps_flags ps0) (ps_stage ps0) (final_input ps0) (tex_modes ps0) (input_tex ps0)
    e f c cur (uniques vs) (uniques cs).

Lemma append_code_at cur e f c cs vs t : append_code t (shader_at cur e f c cs vs) = shader_at cur e f (c +:+ t) cs vs.
Proof. done. Qed.

Lemma outcome_ok {A} (a : A) : outcome P (Ok a) true a.
Proof. done. Qed.

Lemma get_output_outcome reg mapping : outcome P (get_output reg mapping) (mapping_valid mapping) (text_of (get_output reg mapping)).
Proof.
  unfold get_output, mapping_valid.
  repeat match goal with |- context [mapping =? ?k] => destruct (mapping =? k); cbn [orb]; [done |] end. by exists assert_failed.
Qed.

Section stage.
Context (cur : Z) (stage_number : 0 ≤ cur ≤ 8) (e f : option string).

Notation at_ := (shader_at cur e f).
Notation text reg is_dest := (reg_text fl cur (default EmptyString e) (default EmptyString f) reg is_dest).

Lemma get_const_at c cs vs name unique : room cs vs → name = "c0" ∨ name = "c1" →
  get_const (at_ c cs vs) name unique = Ok (const_name fl cur name unique, at_ c (cs ++ [const_name fl cur name unique]) (vs ++ [])).
Proof.
  intros [R _] N. unfold get_const, add_const_ref. cbn [shader_at set ps_flags cur_stage const_refs]. fold (const_name fl cur name unique).
  rewrite (add_ref_uniques all_consts); [| by vm_compute; lia | apply all_consts_short | done | by apply const_name_all].
  by rewrite app_nil_r.
Qed.

Lemma add_var_at c cs vs v (t : string) : room cs vs → v ∈ ["r0"; "r1"] →
  (ps ← add_var_ref (at_ c cs vs) v; Ok (t, ps)) = Ok (t, at_ c (cs ++ []) (vs ++ [v])).
Proof.
  intros [_ R] V. unfold add_var_ref. cbn [shader_at set var_refs].
  rewrite (add_ref_uniques ["r0"; "r1"]); [| cbn; lia | by repeat constructor; cbn; lia | done..].
  by rewrite app_nil_r.
Qed.

Lemma get_var_outcome c cs vs reg is_dest : room cs vs →
  (reg = PS_REGISTER_EF_PROD → ef_known e f = false → P undefined_behaviour) →
  outcome P (get_var (at_ c cs vs) reg is_dest) (reg_valid (ef_known e f) reg)
    (text reg is_dest, at_ c (cs ++ reg_consts fl cur reg) (vs ++ reg_vars reg)).
Proof.
  intros R U. assert (reg = 1 ∨ reg = 2 ∨ reg = 12 ∨ reg = 13 ∨ reg = 14 ∨ reg = 15 ∨
    (reg ∈ [0; 3; 4; 5; 8; 9; 10; 11] ∨ ~ (0 ≤ reg ≤ 5 ∨ 8 ≤ reg ≤ 15))) as H by (rewrite !elem_of_cons; lia).
  destruct H as [-> | [-> | [-> | [-> | [-> | [-> | [H | H]]]]]]].
  - apply (get_const_at c cs vs "c0"); auto.
  - apply (get_const_at c cs vs "c1"); auto.
  - apply (add_var_at c cs vs "r0" "r0"); [done | by left].
  - apply (add_var_at c cs vs "r1" "r1"); [done | by right; left].
  - apply (add_var_at c cs vs "r0" "vec4(v1.rgb + r0.rgb, 0.0)"); [done | by left].
  - change (reg_valid (ef_known e f) 15) with (ef_known e f && true). rewrite andb_true_r.
    change (get_var (at_ c cs vs) 15 is_dest) with (match e, f with
      | Some e, Some f => Ok ("vec4(" +:+ e +:+ " * " +:+ f +:+ ", 0.0)", at_ c cs vs)
      | _, _ => Fault undefined_behaviour end). specialize (U eq_refl).
    change (reg_consts fl cur 15) with (@nil string). change (reg_vars 15) with (@nil string). rewrite !app_nil_r.
    destruct e, f; [done |..]; exists undefined_behaviour; (split; [done | by apply U]).
  - rewrite !elem_of_cons in H.
    destruct H as [-> | [-> | [-> | [-> | [-> | [-> | [-> | [-> | H%not_elem_of_nil]]]]]]]]; [..| done]; cbn -[shader_at];
      by rewrite !app_nil_r.
  - assert (reg_valid (ef_known e f) reg = false) as ->.
    { unfold reg_valid, PS_REGISTER_EF_PROD. destruct (ef_known e f); lia. }
    assert (∀ k, 0 ≤ k ≤ 5 ∨ 8 ≤ k ≤ 15 → (reg =? k) = false) as N by lia. exists assert_failed. split; [| done].
    unfold get_var. by rewrite !N by
      (unfold PS_REGISTER_DISCARD, PS_REGISTER_C0, PS_REGISTER_C1, PS_REGISTER_FOG, PS_REGISTER_V0, PS_REGISTER_V1, PS_REGISTER_T0,
         PS_REGISTER_T1, PS_REGISTER_T2, PS_REGISTER_T3, PS_REGISTER_R0, PS_REGISTER_R1, PS_REGISTER_V1R0_SUM,
         PS_REGISTER_EF_PROD; lia).
Qed.

Lemma get_input_outcome c cs vs i is_alpha : room cs vs → input_parsed i →
  (in_reg i = PS_REGISTER_EF_PROD → ef_known e f = false → P undefined_behaviour) →
  outcome P (get_input_var (at_ c cs vs) i is_alpha) (reg_valid (ef_known e f) (in_reg i))
    (input_text fl cur (default EmptyString e) (default EmptyString f) i is_alpha,
     at_ c (cs ++ reg_consts fl cur (in_reg i)) (vs ++ reg_vars (in_reg i))).
Proof.
  intros R [C M] U. unfold get_input_var. rewrite <- (andb_true_r (reg_valid _ _)).
  eapply outcome_bind; [by apply get_var_outcome |]. unfold input_text. cbv beta iota.
  set (r := reg_text _ _ _ _ _ _).
  assert (channel (in_chan i) is_alpha = Ok (text_of (channel (in_chan i) is_alpha))) as Ec
    by (unfold channel; destruct C as [-> | ->]; done).
  rewrite Ec at 1. cbn [mbind res_bind]. set (t := r +:+ _).
  assert (input_mapping (in_mod i) t = Ok (text_of (input_mapping (in_mod i) t))) as Em.
  { unfold input_mapping. rewrite !elem_of_cons in M.
    destruct M as [-> | [-> | [-> | [-> | [-> | [-> | [-> | [-> | M%not_elem_of_nil]]]]]]]]; done. }
  by rewrite Em at 1.
Qed.
End stage.

Lemma add_stage_code_outcome cur c cs vs input output write_mask is_alpha : 0 ≤ cur ≤ 8 → room cs vs → inputs_parsed input →
  (PS_REGISTER_EF_PROD ∈ input_regs input ++ output_regs output → P undefined_behaviour) →
  outcome P (add_stage_code (shader_at cur None None c cs vs) input output write_mask is_alpha)
    (forallb (reg_valid false) (input_regs input) && mapping_valid (out_mapping output) && forallb (reg_valid false) (output_regs output))
    (shader_at cur None None
       (c +:+ part_text fl cur input output write_mask (if (String.length write_mask =? 3)%nat then "vec3" else EmptyString) is_alpha)
       (cs ++ consts fl cur (input_regs input ++ output_regs output)) (vs ++ vars_of (input_regs input ++ output_regs output))).
Proof.
  intros C R (Pa & Pb & Pc & Pd) U.
  assert (∀ reg, reg ∈ input_regs input ++ output_regs output → reg = PS_REGISTER_EF_PROD → ef_known None None = false →
    P undefined_behaviour) as U' by (intros ? ? -> _; auto).
  eapply outcome_eq.
  - unfold add_stage_code.
    do 4 (eapply outcome_bind; [apply get_input_outcome; [done | auto 10 using room_reg | done | apply U'; set_solver] |]; cbv beta iota zeta).
    do 2 (eapply outcome_bind; [apply get_output_outcome |]; cbv beta iota zeta).
    do 3 (eapply outcome_bind; [apply get_var_outcome; [done | auto 10 using room_reg | apply U'; set_solver] |]; cbv beta iota zeta).
    eapply outcome_bind; [apply get_output_outcome |]. apply outcome_ok.
  - unfold input_regs, output_regs. cbn [forallb ef_known]. btauto.
  - rewrite !append_code_at, !append_assoc. unfold consts, vars_of, input_regs, output_regs. cbn [flat_map app].
    rewrite !app_nil_r, <- !app_assoc. done.
Qed.

Lemma add_final_stage_outcome c cs vs final : room cs vs →
  inputs_parsed (fc_abcd final) → input_parsed (fc_e final) → input_parsed (fc_f final) → input_parsed (fc_g final) →
  (PS_REGISTER_EF_PROD ∈ [in_reg (fc_e final); in_reg (fc_f final)] → P undefined_behaviour) →
  outcome P (add_final_stage_code (append_code (line "// Final Combiner") (shader_at 8 None None c cs vs)) final)
    (forallb (reg_valid false) [in_reg (fc_e final); in_reg (fc_f final)] &&
     forallb (reg_valid true) (input_regs (fc_abcd final) ++ [in_reg (fc_g final)]))
    (shader_at 8 None None (c +:+ final_text fl final) (cs ++ consts fl 8 (final_regs final)) (vs ++ vars_of (final_regs final))).
Proof.
  intros R (Pa & Pb & Pc & Pd) Pe Pf Pg U. rewrite append_code_at.
  assert (∀ reg e f, reg ∈ [in_reg (fc_e final); in_reg (fc_f final)] → reg = PS_REGISTER_EF_PROD → ef_known e f = false →
    P undefined_behaviour) as U' by (intros ? ? ? ? -> _; auto).
  assert (∀ e f s c cs vs, (shader_at 8 e f c cs vs) <| varE := Some s |> = shader_at 8 (Some s) f c cs vs) as SE by done.
  assert (∀ e f s c cs vs, (shader_at 8 e f c cs vs) <| varF := Some s |> = shader_at 8 e (Some s) c cs vs) as SF by done.
  eapply outcome_eq.
  - unfold add_final_stage_code.
    eapply outcome_bind; [apply get_input_outcome; [lia | done | done | apply U'; set_solver] |]; cbv beta iota zeta; rewrite SE.
    eapply outcome_bind; [apply get_input_outcome; [lia | repeat (apply room_reg; [lia |]); done | done | apply U'; set_solver] |]; cbv beta iota zeta; rewrite SF.
    do 5 (eapply outcome_bind; [apply get_input_outcome; [lia | repeat (apply room_reg; [lia |]); done | done | done] |]; cbv beta iota zeta).
    apply outcome_ok.
  - unfold input_regs. cbn [forallb app ef_known]. btauto.
  - rewrite !append_code_at, !append_assoc. unfold consts, vars_of, final_regs, input_regs. cbn [flat_map app default].
    rewrite !app_nil_r, <- !app_assoc. done.
Qed.

End tracking.

(** ** The valid states *)

Definition stages (st : PshState) : Z := combiner_control st .& 0xFF.
Definition flags (st : PshState) : Z := combiner_control st .>> 8.

Definition stage_at (st : PshState) (i : Z) : PSStageInfo :=
  Stage (parse_combiner_inputs (entry 0 (rgb_inputs st) i)) (parse_combiner_inputs (entry 0 (alpha_inputs st) i))
    (parse_combiner_output (entry 0 (rgb_outputs st) i)) (parse_combiner_output (entry 0 (alpha_outputs st) i)).

Definition part_valid (input : InputVarInfo) (output : OutputInfo) : bool :=
  forallb (reg_valid false) (input_regs input) && mapping_valid (out_mapping output) && forallb (reg_valid false) (output_regs output).

Definition stage_valid (s : PSStageInfo) : bool :=
  part_valid (rgb_input s) (rgb_output s) && part_valid (alpha_input s) (alpha_output s).

Definition final_valid (f : FCInputInfo) : bool :=
  if enabled f then forallb (reg_valid false) [in_reg (fc_e f); in_reg (fc_f f)] &&
                    forallb (reg_valid true) (input_regs (fc_abcd f) ++ [in_reg (fc_g f)])
  else true.

(** The texture modes that are implemented; some of them not for rectangles. *)
Definition texture_valid (mode : Z) (rect : bool) : bool :=
  ((0 <=? mode) && (mode <=? 5)) || (mode =? 0x11) || (((mode =? 6) || (mode =? 7) || (mode =? 0xf) || (mode =? 0x10)) && negb rect).

Definition tex_mode (st : PshState) (i : Z) : Z := (shader_stage_program st .>> (i * 5)) .& 0x1F.

(** Regions of the window only as those to keep. *)
Definition clip_valid (st : PshState) : bool := (window_clip_count st =? 0) || negb (window_clip_exclusive st).

Definition alpha_valid (st : PshState) : bool := negb (alpha_test st) || ((0 <=? alpha_func st) && (alpha_func st <=? 7)).

Definition psh_valid (st : PshState) : bool :=
  (stages st <=? 8) &&
  (clip_valid st &&
   (forallb (λ i, texture_valid (tex_mode st i) (entry false (rect_tex st) i)) [0; 1; 2; 3] &&
    (forallb (λ i, stage_valid (stage_at st i)) (seqZ 0 (stages st)) &&
     (final_valid (parse_final st) && alpha_valid st)))).

(** The constants and variables that the registers of the stages name. *)
Definition stage_regs (s : PSStageInfo) : list Z :=
  (input_regs (rgb_input s) ++ output_regs (rgb_output s)) ++ (input_regs (alpha_input s) ++ output_regs (alpha_output s)).

Definition used_consts (st : PshState) : list string :=
  flat_map (λ i, consts (flags st) i (stage_regs (stage_at st i))) (seqZ 0 (stages st)) ++
  (if enabled (parse_final st) then consts (flags st) 8 (final_regs (parse_final st)) else []).

Definition used_vars (st : PshState) : list string :=
  flat_map (λ i, vars_of (stage_regs (stage_at st i))) (seqZ 0 (stages st)) ++
  (if enabled (parse_final st) then vars_of (final_regs (parse_final st)) else []).

(** E * F where it is not known: in a stage, or as E or F. *)
Definition ef_unknown (st : PshState) : Prop :=
  (∃ i, 0 ≤ i < stages st ∧ PS_REGISTER_EF_PROD ∈ stage_regs (stage_at st i)) ∨
  (enabled (parse_final st) = true ∧ PS_REGISTER_EF_PROD ∈ [in_reg (fc_e (parse_final st)); in_reg (fc_f (parse_final st))]).

(** The shader that the translation starts with. *)
Definition first_shader (st : PshState) : PixelShader :=
  Shader st (stages st) (flags st) (stage_at st <$> seqZ 0 (stages st)) (parse_final st) (tex_mode st <$> [0; 1; 2; 3])
    [-1; 0; (other_stage_input st .>> 16) .& 0xF; (other_stage_input st .>> 20) .& 0xF] None None EmptyString 0 [] [].

(** ** The text of a valid state *)

Definition texts_of (m : res (string * string)) : string * string := match m with Ok s => s | Fault _ => (EmptyString, EmptyString) end.

Definition texture_text (st : PshState) (i : Z) : TextureCode :=
  match texture_code (first_shader st) i with Ok c => c | Fault _ => TexCode EmptyString EmptyString EmptyString None end.

Definition texture_uniforms (st : PshState) (i : Z) : string :=
  let c := texture_text st i in
  tc_preflight c +:+ (if sampler_type c is Some s then line ("uniform " +:+ s +:+ " texSamp" +:+ pretty i +:+ ";") else EmptyString).

Definition texture_vars (st : PshState) (i : Z) : string :=
  let c := texture_text st i in
  tc_vars c +:+
  (if sampler_type c is Some _ then
     if entry false (alphakill st) i then line ("if (t" +:+ pretty i +:+ ".a == 0.0) { discard; };") else EmptyString
   else EmptyString).

(** The declarations of [constants] and [variables], and around them only what the textures,
    the clip regions, the alpha test and the stages are translated to. *)
Definition psh_text (st : PshState) (constants variables : list string) : string :=
  "#version 330" +:+ newline +:+ newline +:+
  preflight_text +:+ (texts_of (window_clip st)).1 +:+ concat_strings (texture_uniforms st <$> [0; 1; 2; 3]) +:+
  (texts_of (alpha_test_code st)).1 +:+
  concat_strings (declare_const <$> constants) +:+
  line "void main() {" +:+
  (texts_of (window_clip st)).2 +:+ vars_text +:+ concat_strings (texture_vars st <$> [0; 1; 2; 3]) +:+
  concat_strings (declare_var (first_shader st) <$> variables) +:+
  concat_strings ((λ i, tc_code (texture_text st i)) <$> [0; 1; 2; 3]) +:+
  concat_strings ((λ i, stage_text (flags st) i (stage_at st i)) <$> seqZ 0 (stages st)) +:+
  (if enabled (parse_final st) then final_text (flags st) (parse_final st) else EmptyString) +:+
  (texts_of (alpha_test_code st)).2 +:+
  line "}".

(** ** The parts of the translation *)

Section parts.
Context (P : fault → Prop) (asserts : P assert_failed).

Lemma window_clip_outcome st : outcome P (window_clip st) (clip_valid st) (texts_of (window_clip st)).
Proof. unfold window_clip, clip_valid. destruct (_ =? 0), (window_clip_exclusive st); try done. by exists assert_failed. Qed.

Lemma alpha_test_outcome st : outcome P (alpha_test_code st) (alpha_valid st) (texts_of (alpha_test_code st)).
Proof.
  unfold alpha_test_code, alpha_valid, ALPHA_FUNC_ALWAYS, ALPHA_FUNC_NEVER. destruct (alpha_test st); [| done]. cbn [negb orb andb].
  destruct (decide (0 ≤ alpha_func st ≤ 7)) as [H | H].
  - rewrite (proj2 (Z.leb_le _ _)), (proj2 (Z.leb_le _ _)) by lia.
    generalize dependent (alpha_func st). intros a H.
    assert (a = 0 ∨ a = 1 ∨ a = 2 ∨ a = 3 ∨ a = 4 ∨ a = 5 ∨ a = 6 ∨ a = 7) as M by lia.
    destruct M as [-> | [-> | [-> | [-> | [-> | [-> | [-> | ->]]]]]]]; done.
  - assert ((0 <=? alpha_func st) && (alpha_func st <=? 7) = false) as -> by lia.
    assert (∀ k, 0 ≤ k ≤ 7 → (alpha_func st =? k) = false) as N by lia. rewrite !N by lia. by exists assert_failed.
Qed.

Lemma texture_code_outcome st n : n ∈ [0; 1; 2; 3] →
  outcome P (texture_code (first_shader st) n) (texture_valid (tex_mode st n) (entry false (rect_tex st) n)) (texture_text st n).
Proof.
  intros Hn. assert (entry 0 (tex_modes (first_shader st)) n = tex_mode st n) as Em.
  { rewrite !elem_of_cons in Hn. by destruct Hn as [-> | [-> | [-> | [-> | Hn%not_elem_of_nil]]]]. }
  unfold texture_text, texture_code. cbv zeta. rewrite Em. cbn [first_shader ps_state].
  set (mode := tex_mode st n). set (rect := entry false (rect_tex st) n). clearbody mode rect.
  destruct (decide (mode ∈ [0; 1; 2; 3; 4; 5; 0x11] ∨ mode ∈ [6; 7; 0xf; 0x10])) as [[H | H] | H].
  - rewrite !elem_of_cons in H. destruct H as [-> | [-> | [-> | [-> | [-> | [-> | [-> | H%not_elem_of_nil]]]]]]]; done.
  - rewrite !elem_of_cons in H. destruct H as [-> | [-> | [-> | [-> | H%not_elem_of_nil]]]]; [destruct rect.. | done];
      (done || by exists assert_failed).
  - assert (∀ k, k ∈ [0; 1; 2; 3; 4; 5; 6; 7; 0xf; 0x10; 0x11] → (mode =? k) = false) as N.
    { intros k Hk. apply Z.eqb_neq. intros ->. apply H. revert Hk. rewrite !elem_of_cons. naive_solver. }
    unfold texture_valid. assert ((0 <=? mode) && (mode <=? 5) = false) as ->.
    { apply not_true_is_false. intros C. apply H. left. rewrite !elem_of_cons. lia. }
    rewrite !N by (apply (bool_decide_unpack _); by vm_compute). by exists assert_failed.
Qed.
End parts.

(** The arrays of the state have eight elements. *)
Definition psh_arrays (st : PshState) : Prop :=
  length (rgb_inputs st) = 8%nat ∧ length (alpha_inputs st) = 8%nat ∧ length (rgb_outputs st) = 8%nat ∧
  length (alpha_outputs st) = 8%nat.

Lemma parse_stage_at st i : psh_arrays st → 0 ≤ i → outcome (eq out_of_bounds) (parse_stage st i) (i <? 8) (stage_at st i).
Proof.
  intros (L1 & L2 & L3 & L4) Hi. unfold parse_stage, entry_at.
  assert (∀ l : list Z, length l = 8%nat → i < 8 → l !! Z.to_nat i = Some (entry 0 l i)) as A.
  { intros l L H. unfold entry. rewrite nth_lookup. destruct (lookup_lt_is_Some_2 l (Z.to_nat i)) as [x ->]; [lia | done]. }
  destruct (i <? 8) eqn:E.
  - by rewrite !A by (done || lia).
  - rewrite (lookup_ge_None_2 (rgb_inputs st)) by lia. by exists out_of_bounds.
Qed.

Lemma parsed_stages st : psh_arrays st →
  outcome (eq out_of_bounds) (foldl (λ r i, l ← r; s ← parse_stage st i; Ok (l ++ [s])) (Ok []) (seqZ 0 (stages st)))
    (stages st <=? 8) (stage_at st <$> seqZ 0 (stages st)).
Proof.
  intros A. assert (Ok [] = Ok (stage_at st <$> [])) as -> by done. eapply outcome_eq; [| | done].
  - apply (outcome_foldl (eq out_of_bounds) (λ l i, s ← parse_stage st i; Ok (l ++ [s])) (λ i, i <? 8) (fmap (stage_at st)) (seqZ 0 (stages st))).
    intros d i Hi%prefix_elem%elem_of_seqZ. rewrite <- (andb_true_r (i <? 8)).
    eapply outcome_bind; [apply parse_stage_at; [done | lia] |]. by rewrite fmap_app.
  - apply eq_true_iff_eq. rewrite forallb_forall, Z.leb_le. split.
    + intros H. destruct (decide (stages st ≤ 8)) as [| N]; [done |]. exfalso.
      specialize (H 8). rewrite <- list_elem_of_In, elem_of_seqZ in H. specialize (H ltac:(lia)). done.
    + intros H i. rewrite <- list_elem_of_In, elem_of_seqZ. lia.
Qed.

Section translation.
Context (st : PshState) (count : stages st ≤ 8).

Notation P := (λ x, x = assert_failed ∨ x = undefined_behaviour ∧ ef_unknown st).
Notation at_ := (shader_at (first_shader st)).

Let asserts : P assert_failed := or_introl eq_refl.

(** The text so far of the textures, and of the stages. *)
Definition textures_at (p v : string) (d : list Z) : string * string * PixelShader :=
  (p +:+ concat_strings (texture_uniforms st <$> d), v +:+ concat_strings (texture_vars st <$> d),
   at_ 0 None None (concat_strings ((λ i, tc_code (texture_text st i)) <$> d)) [] []).

Lemma textures_outcome p v : outcome P
  (foldl (λ r n, s ← r; add_texture s n) (Ok (p, v, first_shader st)) [0; 1; 2; 3])
  (forallb (λ i, texture_valid (tex_mode st i) (entry false (rect_tex st) i)) [0; 1; 2; 3])
  (textures_at p v [0; 1; 2; 3]).
Proof.
  assert ((p, v, first_shader st) = textures_at p v []) as -> by (unfold textures_at; cbn; by rewrite !append_nil).
  apply (outcome_foldl _ add_texture (λ i, texture_valid (tex_mode st i) (entry false (rect_tex st) i)) (textures_at p v)).
  intros d i Hi%prefix_elem. unfold add_texture, textures_at at 1. rewrite <- (andb_true_r (texture_valid _ _)).
  eapply outcome_bind; [exact (texture_code_outcome P asserts st i Hi) |].
  unfold textures_at, texture_uniforms, texture_vars. cbv zeta. rewrite !fmap_app, !concat_strings_app, append_code_at.
  cbn [fmap list_fmap concat_strings foldr].
  destruct (sampler_type (texture_text st i)); by rewrite ?append_nil, !append_assoc.
Qed.

Definition stages_at (c : string) (d : list Z) : PixelShader :=
  at_ (default 0 (last d)) None None (c +:+ concat_strings ((λ i, stage_text (flags st) i (stage_at st i)) <$> d))
    (flat_map (λ i, consts (flags st) i (stage_regs (stage_at st i))) d) (flat_map (λ i, vars_of (stage_regs (stage_at st i))) d).

Lemma room_stages d : Forall (λ i, 0 ≤ i < 8) d →
  room (flat_map (λ i, consts (flags st) i (stage_regs (stage_at st i))) d) (flat_map (λ i, vars_of (stage_regs (stage_at st i))) d).
Proof.
  induction d as [| i d IH] using rev_ind; [intros _; split; apply list_subseteq_nil |]. intros [Fd Fi]%Forall_app. rewrite !flat_map_app. cbn [flat_map]. rewrite !app_nil_r.
  apply room_regs; [inversion_clear Fi; lia | by apply IH].
Qed.

Lemma add_stage_outcome cur c cs vs i : 0 ≤ i < stages st → room cs vs →
  outcome P (add_stage (at_ cur None None c cs vs) i) (stage_valid (stage_at st i))
    (at_ i None None (c +:+ stage_text (flags st) i (stage_at st i))
       (cs ++ consts (flags st) i (stage_regs (stage_at st i))) (vs ++ vars_of (stage_regs (stage_at st i)))).
Proof.
  intros Hi R. unfold add_stage, stage_valid, part_valid. cbv zeta.
  assert (entry_at (ps_stage (first_shader st)) i = Ok (stage_at st i)) as Es.
  { unfold entry_at. cbn [first_shader ps_stage]. rewrite list_lookup_fmap, lookup_seqZ_lt by lia. cbn. by rewrite Z2Nat.id by lia. }
  change (append_code _ _) with (at_ i None None (c +:+ line ("// Stage " +:+ pretty i)) cs vs).
  change (ps_stage (at_ _ _ _ _ _ _)) with (ps_stage (first_shader st)). rewrite Es. cbn [mbind res_bind].
  assert (PS_REGISTER_EF_PROD ∈ stage_regs (stage_at st i) → P undefined_behaviour) as U.
  { intros H. right. split; [done |]. left. by exists i. }
  eapply outcome_eq; [eapply outcome_bind | done |].
  - apply (add_stage_code_outcome (first_shader st) P asserts); [lia | done | apply parse_inputs_parsed | intros H; apply U; by apply elem_of_app; left].
  - apply (add_stage_code_outcome (first_shader st) P asserts); [lia | by apply room_regs; [lia |] | apply parse_inputs_parsed |
      intros H; apply U; by apply elem_of_app; right].
  - unfold stage_text, stage_regs, consts, vars_of. by rewrite !flat_map_app, !append_assoc, <- !app_assoc.
Qed.

Lemma stages_outcome c : outcome P (foldl (λ r i, ps ← r; add_stage ps i) (Ok (at_ 0 None None c [] [])) (seqZ 0 (stages st)))
  (forallb (λ i, stage_valid (stage_at st i)) (seqZ 0 (stages st))) (stages_at c (seqZ 0 (stages st))).
Proof.
  assert (at_ 0 None None c [] [] = stages_at c []) as -> by (unfold stages_at; cbn -[shader_at]; by rewrite append_nil).
  apply (outcome_foldl P add_stage (λ i, stage_valid (stage_at st i)) (stages_at c)). intros d i Hd.
  unfold stages_at at 1. eapply outcome_eq; [| done |].
  - apply add_stage_outcome; [by apply prefix_elem, elem_of_seqZ in Hd |]. apply room_stages, Forall_forall. intros j Hj.
    assert (j ∈ seqZ 0 (stages st)) as ?%elem_of_seqZ by (destruct Hd as [k ->]; set_solver). lia.
  - unfold stages_at. rewrite last_snoc, fmap_app, concat_strings_app, !flat_map_app. cbn [fmap list_fmap concat_strings foldr flat_map].
    by rewrite !append_nil, !app_nil_r, append_assoc.
Qed.

Lemma final_outcome cur c cs vs : room cs vs → outcome P (add_final (at_ cur None None c cs vs)) (final_valid (parse_final st))
  (at_ (if enabled (parse_final st) then 8 else cur) None None
     (c +:+ if enabled (parse_final st) then final_text (flags st) (parse_final st) else EmptyString)
     (cs ++ if enabled (parse_final st) then consts (flags st) 8 (final_regs (parse_final st)) else [])
     (vs ++ if enabled (parse_final st) then vars_of (final_regs (parse_final st)) else [])).
Proof.
  intros R. unfold add_final, final_valid. change (final_input (at_ _ _ _ _ _ _)) with (parse_final st).
  destruct (enabled (parse_final st)) eqn:E; [| by rewrite !app_nil_r, append_nil].
  assert (PS_REGISTER_EF_PROD ∈ [in_reg (fc_e (parse_final st)); in_reg (fc_f (parse_final st))] → P undefined_behaviour) as U.
  { intros H. right. split; [done |]. by right. }
  assert (inputs_parsed (fc_abcd (parse_final st)) ∧ input_parsed (fc_e (parse_final st)) ∧ input_parsed (fc_f (parse_final st)) ∧
    input_parsed (fc_g (parse_final st))) as (Pa & Pe & Pf & Pg).
  { unfold parse_final in *. destruct (_ || _); [| done]. split_and!; [apply parse_inputs_parsed | apply parse_input_parsed..]. }
  assert ((at_ cur None None c cs vs) <| cur_stage := 8 |> = at_ 8 None None c cs vs) as -> by done.
  pose proof (add_final_stage_outcome (first_shader st) P asserts c cs vs (parse_final st) R Pa Pe Pf Pg U) as O.
  change (ps_flags (first_shader st)) with (flags st) in O. exact O.
Qed.

Lemma psh_convert_outcome : outcome P (psh_convert (first_shader st))
  (clip_valid st &&
   (forallb (λ i, texture_valid (tex_mode st i) (entry false (rect_tex st) i)) [0; 1; 2; 3] &&
    (forallb (λ i, stage_valid (stage_at st i)) (seqZ 0 (stages st)) &&
     (final_valid (parse_final st) && alpha_valid st))))
  (psh_text st (uniques (used_consts st)) (uniques (used_vars st))).
Proof.
  unfold psh_convert. rewrite <- (andb_true_r (alpha_valid st)).
  eapply outcome_bind; [exact (window_clip_outcome P asserts st) |]. destruct (texts_of (window_clip st)) as [clip_uniform clip] eqn:Ew.
  assert ((first_shader st) <| code := EmptyString |> = first_shader st) as -> by done.
  eapply outcome_bind; [apply textures_outcome |]. unfold textures_at. cbv beta iota.
  change (num_stages (at_ _ _ _ _ _ _)) with (stages st).
  eapply outcome_bind; [apply stages_outcome |]. unfold stages_at.
  eapply outcome_bind; [apply final_outcome, room_stages, Forall_forall; intros i Hi%elem_of_seqZ; lia |].
  change (ps_state (at_ _ _ _ _ _ _)) with st.
  eapply outcome_bind; [exact (alpha_test_outcome P asserts st) |]. destruct (texts_of (alpha_test_code st)) as [alpha_uniform test] eqn:Ea.
  cbv beta iota zeta. rewrite append_code_at. unfold outcome, psh_text. rewrite Ew, Ea. f_equal.
  cbn [fst snd shader_at set const_refs var_refs code]. by rewrite !append_assoc.
Qed.
End translation.

(** C14: The translation of a pixel shader, for every state.  A state can be translated if it has
    at most eight stages, registers and output mappings that exist, texture modes that are
    implemented, no exclusive window clip with regions, and a known alpha function.  Of such a
    state the result is the text [psh_text]: the declarations of constants and variables are
    those of the names in two lists, which have every name that a register of the stages names,
    no other ones, and each of them once; and everything around them is given by the state
    (the clip regions, the textures, the stages in their order, the final combiner, the alpha
    test; the text of a single mapping, product, assignment, declaration or texture mode is
    the one that the function of the code for it writes).  For any other state the translation fails: with more than eight stages it leaves
    the arrays of the state, and otherwise it stops at an assertion, or reads a null pointer for
    a product E * F in a stage or in E or F.  It never fails for a lack of room for the names. *)
Theorem psh_translate_correct st : psh_arrays st →
  if psh_valid st then
    ∃ constants variables, psh_translate st = Ok (psh_text st constants variables) ∧
      NoDup constants ∧ NoDup variables ∧
      (∀ c, c ∈ constants ↔ c ∈ used_consts st) ∧ (∀ v, v ∈ variables ↔ v ∈ used_vars st)
  else if stages st <=? 8 then
    psh_translate st = Fault assert_failed ∨ psh_translate st = Fault undefined_behaviour ∧ ef_unknown st
  else psh_translate st = Fault out_of_bounds.
Proof.
  intros A. pose proof (parsed_stages st A) as Hs. unfold psh_translate, psh_valid. fold (stages st) (flags st).
  destruct (stages st <=? 8) eqn:C; cbn [andb].
  - unfold outcome in Hs. rewrite Hs. cbn [mbind res_bind]. pose proof (psh_convert_outcome st (proj1 (Z.leb_le _ _) C)) as O.
    change (Shader st _ _ _ _ _ _ _ _ _ _ _ _) with (first_shader st).
    unfold outcome in O. destruct (_ && _).
    + exists (uniques (used_consts st)), (uniques (used_vars st)).
      split_and!; [done | apply uniques_NoDup.. | intros; apply elem_of_uniques | intros; apply elem_of_uniques].
    + destruct O as (x & -> & [-> | [-> U]]); auto.
  - destruct Hs as (x & -> & <-). done.
Qed.

(** ** Examples *)

Module SamplePsh.

(** Two stages that multiply, with their own first constants, and a final combiner. *)
Definition two_stages : PshState :=
  Psh 0x1002 0x1 0 0x0c000000 0x00001c80 (replicate 8 0xc1c4c8c1) (replicate 8 0x00000cd0) (replicate 8 0xd4d1d8d1)
    (replicate 8 0x00000cd0) [false; false; false; false] [] [false; false; false; false] true 4 false 0.

(** It names two constants and two variables. *)
Lemma psh_translate_correct_witness : ∃ constants variables,
  psh_translate two_stages = Ok (psh_text two_stages constants variables) ∧ NoDup constants ∧ NoDup variables ∧
  (∀ c, c ∈ constants ↔ c ∈ used_consts two_stages) ∧ (∀ v, v ∈ variables ↔ v ∈ used_vars two_stages) ∧
  remove_dups (used_consts two_stages) = ["c0_0"; "c0_1"] ∧ remove_dups (used_vars two_stages) = ["r1"; "r0"].
Proof.
  assert (psh_arrays two_stages) as A by (by repeat split).
  pose proof (psh_translate_correct two_stages A) as T.
  assert (psh_valid two_stages = true) as V by (by vm_compute). rewrite V in T.
  destruct T as (constants & variables & T & N1 & N2 & M1 & M2). exists constants, variables.
  split_and!; try done; by vm_compute.
Defined.

Definition contains (needle text : string) : bool := bool_decide (is_Some (String.index 0 needle text)).

(** One stage with given outputs of its colour part. *)
Definition one_stage (outputs : Z) : PshState :=
  Psh 1 0 0 0 0 (replicate 8 0xc4c5c4c5) (replicate 8 outputs) (replicate 8 0) (replicate 8 0)
    [false; false; false; false] [] [false; false; false; false] false 0 false 0.

(** The third output selects by [r0.a], which does not count as a use of r0: if no register
    names it, the text reads a variable that it does not declare. *)
Lemma mux_undeclared : ∃ text, psh_translate (one_stage 0x4800) = Ok text ∧
  contains "((r0.a >= 0.5) ? " text = true ∧ contains "vec4 r0;" text = false.
Proof. eexists. split; [by vm_compute |]. by vm_compute. Qed.

(** A result that is discarded and has its blue moved to alpha is assigned to all the same. *)
Lemma assigns_product : ∃ text, psh_translate (one_stage 0x80000) = Ok text ∧
  contains "(v0.rgb * v1.rgb).a = (v0.rgb * v1.rgb).b;" text = true.
Proof. eexists. split; [by vm_compute |]. by vm_compute. Qed.

(** E * F as an input of a stage, or as E itself, reads a null pointer. *)
Lemma ef_product_null : psh_translate ((one_stage 0) <| rgb_inputs := replicate 8 0x0f000000 |>) = Fault undefined_behaviour.
Proof. by vm_compute. Qed.

End SamplePsh.
