(* ===== verification/Shader.v ===== *)
(** * Shader state and constants

    [pgraph_bind_shaders] and [pgraph_shader_update_constants] of
    src/hw/xbox/nv2a/nv2a_pgraph.c.  The registers are gathered into a [ShaderState], by which
    the translated program is looked up; then the constants go to the uniforms of the program,
    those of the vertex shader and the lighting only when they are marked as changed.  The
    translation itself, [generate_shaders], is a parameter.

    After a draw the uniforms are shown to hold the constants, however few of them were
    uploaded. *)

From Stdlib Require Import Floats.SpecFloat.
From S2P Require Import Prelude Bytes Fields Swizzle Lru Nv2a PgraphRegs Gl PgraphState Surface Texture Vsh.

Section shader.
Context {V : Type} (generate_shaders : ShaderState → ShaderBinding).
Implicit Types g : Gpu V.

Definition NV_PGRAPH_CSV1_masks (odd : bool) : list Z :=
  if odd then [NV_PGRAPH_CSV1_A_T1_S; NV_PGRAPH_CSV1_A_T1_T; NV_PGRAPH_CSV1_A_T1_R; NV_PGRAPH_CSV1_A_T1_Q]
  else [NV_PGRAPH_CSV1_A_T0_S; NV_PGRAPH_CSV1_A_T0_T; NV_PGRAPH_CSV1_A_T0_R; NV_PGRAPH_CSV1_A_T0_Q].

(** ** The state *)

(** Row [i] of an array of rows of [n] words. *)
Definition row (n : Z) (m : mem) (i : Z) : list Z := rd_bytes m (n * i) n.

(** The tokens of the program, from the start up to the one marked as final. *)
Fixpoint program_tokens (fuel : nat) (data : mem) (i : Z) : list (list Z) :=
  match fuel with
  | O => []
  | S fuel =>
      if i <? NV2A_MAX_TRANSFORM_PROGRAM_LENGTH then
        let cur_token := row VSH_TOKEN_SIZE data i in
        if nz (vsh_get_field cur_token FLD_FINAL) then [cur_token]
        else cur_token :: program_tokens fuel data (i + 1)
      else []
  end.

Definition texgen_state g : list (list Z) :=
  (λ i, (λ mask, GET_MASK (reg g (if i <? 2 then NV_PGRAPH_CSV1_A else NV_PGRAPH_CSV1_B)) mask)
     <$> NV_PGRAPH_CSV1_masks (nz (i mod 2))) <$> seqZ 0 4.

(** The number of window clip regions: one more than the last that has an area and differs
    from the one before it that had. *)
Fixpoint window_clips (regions : list (Z * Z * Z)) (last_x last_y count : Z) : Z :=
  match regions with
  | [] => count
  | (i, x, y) :: regions =>
      let x_min := GET_MASK x NV_PGRAPH_WINDOWCLIPX0_XMIN in
      let x_max := GET_MASK x NV_PGRAPH_WINDOWCLIPX0_XMAX in
      let y_min := GET_MASK y NV_PGRAPH_WINDOWCLIPY0_YMIN in
      let y_max := GET_MASK y NV_PGRAPH_WINDOWCLIPY0_YMAX in
      if (x_min =? x_max) || (y_min =? y_max) then window_clips regions last_x last_y count
      else if (x =? last_x) && (y =? last_y) then window_clips regions last_x last_y count
      else window_clips regions x y (i + 1)
  end.

Definition clip_regions g : list (Z * Z * Z) :=
  (λ i, (i, reg g (NV_PGRAPH_WINDOWCLIPX0 + i * 4), reg g (NV_PGRAPH_WINDOWCLIPY0 + i * 4))) <$> seqZ 0 8.

(** The registers of the enabled combiner stages, in arrays of eight. *)
Definition combiner_stages g (base : Z) : res (list Z) :=
  let num_stages := reg g NV_PGRAPH_COMBINECTL .& 0xFF in
  _ ← in_bounds (num_stages <=? 8);
  Ok (((λ i, reg g (base + i * 4)) <$> seqZ 0 num_stages) ++ replicate (Z.to_nat (8 - num_stages)) 0).

Definition rect_texture g (i : Z) : res bool :=
  if nz (reg g (NV_PGRAPH_TEXCTL0_0 + i * 4) .& NV_PGRAPH_TEXCTL0_0_ENABLE) then
    f ← color_format_info (GET_MASK (reg g (NV_PGRAPH_TEXFMT0 + i * 4)) NV_PGRAPH_TEXFMT0_COLOR);
    Ok (linear f)
  else Ok false.

Definition psh_state g : res PshState :=
  let exclusive := nz (reg g NV_PGRAPH_SETUPRASTER .& NV_PGRAPH_SETUPRASTER_WINDOWCLIPTYPE) in
  _ ← assert (negb exclusive);
  let count := window_clips (clip_regions g) 0 0 0 in
  rgb_in ← combiner_stages g NV_PGRAPH_COMBINECOLORI0;
  rgb_out ← combiner_stages g NV_PGRAPH_COMBINECOLORO0;
  alpha_in ← combiner_stages g NV_PGRAPH_COMBINEALPHAI0;
  alpha_out ← combiner_stages g NV_PGRAPH_COMBINEALPHAO0;
  r0 ← rect_texture g 0;
  r1 ← rect_texture g 1;
  r2 ← rect_texture g 2;
  r3 ← rect_texture g 3;
  Ok (Psh (reg g NV_PGRAPH_COMBINECTL) (reg g NV_PGRAPH_SHADERPROG) (reg g NV_PGRAPH_SHADERCTL)
        (reg g NV_PGRAPH_COMBINESPECFOG0) (reg g NV_PGRAPH_COMBINESPECFOG1) rgb_in rgb_out alpha_in alpha_out
        [r0; r1; r2; r3]
        ((λ i, (λ j, nz ((reg g NV_PGRAPH_SHADERCLIPMODE .>> (4 * i + j)) .& 1)) <$> seqZ 0 4) <$> seqZ 0 4)
        ((λ i, nz (reg g (NV_PGRAPH_TEXCTL0_0 + i * 4) .& NV_PGRAPH_TEXCTL0_0_ALPHAKILLEN)) <$> seqZ 0 4)
        (nz (reg g NV_PGRAPH_CONTROL_0 .& NV_PGRAPH_CONTROL_0_ALPHATESTENABLE))
        (GET_MASK (reg g NV_PGRAPH_CONTROL_0) NV_PGRAPH_CONTROL_0_ALPHAFUNC) exclusive count).

Definition is_vertex_program g : bool := GET_MASK (reg g NV_PGRAPH_CSV0_D) NV_PGRAPH_CSV0_D_MODE =? 2.
Definition is_fixed_function g : bool := GET_MASK (reg g NV_PGRAPH_CSV0_D) NV_PGRAPH_CSV0_D_MODE =? 0.

Definition shader_state g : res ShaderState :=
  let c := reg g NV_PGRAPH_CSV0_C in
  let d := reg g NV_PGRAPH_CSV0_D in
  let s := shaders (pg g) in
  let program_start := GET_MASK c NV_PGRAPH_CSV0_C_CHEOPS_PROGRAM_START in
  let tokens := if is_vertex_program g
                then program_tokens (Z.to_nat NV2A_MAX_TRANSFORM_PROGRAM_LENGTH) (program_data s) program_start
                else [] in
  let fog := nz (reg g NV_PGRAPH_CONTROL_3 .& NV_PGRAPH_CONTROL_3_FOGENABLE) in
  let lit := nz (GET_MASK c NV_PGRAPH_CSV0_C_LIGHTING) in
  p ← psh_state g;
  Ok (ShState p
        ((λ i, bool_decide (i ∈ texture_matrix_enable (textures (pg g)))) <$> seqZ 0 4)
        (texgen_state g)
        fog (if fog then GET_MASK d NV_PGRAPH_CSV0_D_FOGGENMODE else 0)
        (if fog then GET_MASK (reg g NV_PGRAPH_CONTROL_3) NV_PGRAPH_CONTROL_3_FOG_MODE else 0)
        (GET_MASK d NV_PGRAPH_CSV0_D_SKIN)
        (nz (c .& NV_PGRAPH_CSV0_C_NORMALIZATION_ENABLE))
        (GET_MASK c NV_PGRAPH_CSV0_C_EMISSION) (GET_MASK c NV_PGRAPH_CSV0_C_AMBIENT)
        (GET_MASK c NV_PGRAPH_CSV0_C_DIFFUSE) (GET_MASK c NV_PGRAPH_CSV0_C_SPECULAR)
        lit
        ((λ i, if lit then GET_MASK d (NV_PGRAPH_CSV0_D_LIGHT0 .<< (i * 2)) else 0) <$> seqZ 0 NV2A_MAX_LIGHTS)
        (is_fixed_function g) (is_vertex_program g) tokens (Z.of_nat (length tokens))
        (nz (reg g NV_PGRAPH_CONTROL_0 .& NV_PGRAPH_CONTROL_0_Z_PERSPECTIVE_ENABLE))
        (GET_MASK (reg g NV_PGRAPH_SETUPRASTER) NV_PGRAPH_SETUPRASTER_FRONTFACEMODE)
        (GET_MASK (reg g NV_PGRAPH_SETUPRASTER) NV_PGRAPH_SETUPRASTER_BACKFACEMODE)
        (primitive_mode s)).

(** ** The uniforms *)

(** A call that sets a uniform, unless the program does not have it. *)
Definition uniform (loc : Z) (c : gl_call) g : Gpu V := if loc =? -1 then g else emit c g.

Definition combiner_constant (b : ShaderBinding) (i j : Z) g : Gpu V :=
  let constant :=
    if i =? 8 then reg g (if j =? 0 then NV_PGRAPH_SPECFOGFACTOR0 else NV_PGRAPH_SPECFOGFACTOR1)
    else reg g ((if j =? 0 then NV_PGRAPH_COMBINEFACTOR0 else NV_PGRAPH_COMBINEFACTOR1) + i * 4) in
  let loc := psh_constant_loc b i j in
  uniform loc (glUniform4fv loc
    [channel constant 16; channel constant 8; channel constant 0; channel constant 24]) g.

Definition bump_uniforms (b : ShaderBinding) (i : Z) g : Gpu V :=
  let g := uniform (bump_mat_loc b i) (glUniformMatrix2fv (bump_mat_loc b i) false
             (row 4 (bump_env_matrix (textures (pg g))) (i - 1))) g in
  let g := uniform (bump_scale_loc b i) (glUniform1f (bump_scale_loc b i)
             (reg g (NV_PGRAPH_BUMPSCALE1 + (i - 1) * 4))) g in
  uniform (bump_offset_loc b i) (glUniform1f (bump_offset_loc b i)
    (reg g (NV_PGRAPH_BUMPOFFSET1 + (i - 1) * 4))) g.

Definition fog_uniforms (b : ShaderBinding) g : Gpu V :=
  let fog_color := reg g NV_PGRAPH_FOGCOLOR in
  let g := uniform (fog_color_loc b) (glUniform4f (fog_color_loc b)
             (div_d (GET_MASK fog_color NV_PGRAPH_FOGCOLOR_RED) 255)
             (div_d (GET_MASK fog_color NV_PGRAPH_FOGCOLOR_GREEN) 255)
             (div_d (GET_MASK fog_color NV_PGRAPH_FOGCOLOR_BLUE) 255)
             (div_d (GET_MASK fog_color NV_PGRAPH_FOGCOLOR_ALPHA) 255)) g in
  let g := uniform (fog_param_loc b 0) (glUniform1f (fog_param_loc b 0) (reg g NV_PGRAPH_FOGPARAM0)) g in
  uniform (fog_param_loc b 1) (glUniform1f (fog_param_loc b 1) (reg g NV_PGRAPH_FOGPARAM1)) g.

(** The rows [i], [i + 1], ... of an array of constants that have to be uploaded: those
    marked as changed, or all of them when the program changed. *)
Definition upload_row (loc : Z → Z) (v : mem) (dirty : gset Z) (changed : bool) g (j : Z) : Gpu V :=
  if negb (bool_decide (j ∈ dirty)) && negb changed then g
  else uniform (loc j) (glUniform4fv (loc j) (row 4 v j)) g.

Definition upload_rows (loc : Z → Z) (v : mem) (dirty : gset Z) (changed : bool) (n : Z) g : Gpu V :=
  foldl (upload_row loc v dirty changed) g (seqZ 0 n).

(** What is left marked: nothing of the first [n] rows. *)
Definition clean (n : Z) (dirty : gset Z) : gset Z := dirty ∖ list_to_set (seqZ 0 n).

Definition light_uniforms (b : ShaderBinding) g (i : Z) : Gpu V :=
  let s := shaders (pg g) in
  let vec loc v g := uniform (loc b i) (glUniform3fv (loc b i) (row 3 v i)) g in
  let g := vec light_infinite_half_vector_loc (light_infinite_half_vector s) g in
  let g := vec light_infinite_direction_loc (light_infinite_direction s) g in
  let g := vec light_local_position_loc (light_local_position s) g in
  vec light_local_attenuation_loc (light_local_attenuation s) g.

(** [1.0 / m] in double precision. *)
Definition inverse (m : spec_float) : Z :=
  f32_bits (f32_of_f64 (SFdiv f64_digits f64_emax (f64_make 1 0) (f64_of_f32 m))).

Definition inv_viewport g : list Z :=
  let half m n := f32_of_f64 (SFmul f64_digits f64_emax (f64_make m (-1)) (f64_make n 0)) in
  let zclip_max := f32_of_bits (reg g NV_PGRAPH_ZCLIPMAX) in
  let zclip_min := f32_of_bits (reg g NV_PGRAPH_ZCLIPMIN) in
  let m11 := half 1 (clip_width (shape g)) in
  let m22 := half (-1) (clip_height (shape g)) in
  let m33 := SFsub f32_digits f32_emax zclip_max zclip_min in
  let m33 := if SFeqb m33 (S754_zero false) then f32_make 1 0 else m33 in
  [inverse m11; 0; 0; 0;
   0; inverse m22; 0; 0;
   0; 0; inverse m33; 0;
   float_of_int (-1); float_1; f32_bits (SFdiv f32_digits f32_emax (SFopp zclip_min) m33); float_1].

Definition lighting_uniforms (b : ShaderBinding) (changed : bool) g : Gpu V :=
  let s := shaders (pg g) in
  let g := upload_rows (ltctxa_loc b) (ltctxa s) (ltctxa_dirty s) changed NV2A_LTCTXA_COUNT g in
  let g := upload_rows (ltctxb_loc b) (ltctxb s) (ltctxb_dirty s) changed NV2A_LTCTXB_COUNT g in
  let g := upload_rows (ltc1_loc b) (ltc1 s) (ltc1_dirty s) changed NV2A_LTC1_COUNT g in
  let g := on_shaders (λ s, s <| ltctxa_dirty ::= clean NV2A_LTCTXA_COUNT |>
             <| ltctxb_dirty ::= clean NV2A_LTCTXB_COUNT |> <| ltc1_dirty ::= clean NV2A_LTC1_COUNT |>) g in
  let g := foldl (light_uniforms b) g (seqZ 0 NV2A_MAX_LIGHTS) in
  uniform (inv_viewport_loc b) (glUniformMatrix4fv (inv_viewport_loc b) false (inv_viewport g)) g.

Definition pgraph_shader_update_constants (b : ShaderBinding) (changed vertex_program fixed_function : bool) g : Gpu V :=
  let g := foldl (λ g i, combiner_constant b i 1 (combiner_constant b i 0 g)) g (seqZ 0 9) in
  let g := uniform (alpha_ref_loc b) (glUniform1f (alpha_ref_loc b)
             (div_d (GET_MASK (reg g NV_PGRAPH_CONTROL_0) NV_PGRAPH_CONTROL_0_ALPHAREF) 255)) g in
  let g := foldl (λ g i, if 0 <? i then bump_uniforms b i g else g) g (seqZ 0 NV2A_MAX_TEXTURES) in
  let g := fog_uniforms b g in
  let g := if fixed_function then lighting_uniforms b changed g else g in
  let g := upload_rows (vsh_constant_loc b) (vsh_constants (nv g)) (vsh_constants_dirty (shaders (pg g))) changed
             NV2A_VERTEXSHADER_CONSTANTS g in
  let g := on_shaders (λ s, s <| vsh_constants_dirty ::= clean NV2A_VERTEXSHADER_CONSTANTS |>) g in
  let g := uniform (surface_size_loc b) (glUniform2f (surface_size_loc b)
             (float_of_int (clip_width (shape g))) (float_of_int (clip_height (shape g)))) g in
  uniform (clip_range_loc b) (glUniform2f (clip_range_loc b) (reg g NV_PGRAPH_ZCLIPMIN) (reg g NV_PGRAPH_ZCLIPMAX)) g.

(** ** The program *)

(** The binding of a state, from the cache or new. *)
Definition find_shader (s : ShaderState) g : Z * Gpu V :=
  match list_find (λ e, e.1 = s) (shader_cache (shaders (pg g))) with
  | Some (_, (_, p)) => (p, g)
  | None =>
      let p := Z.of_nat (length (shader_cache (shaders (pg g)))) in
      (p, on_shaders (λ h, h <| shader_bindings := <[p := generate_shaders s]> (shader_bindings h) |>
                             <| shader_cache := shader_cache h ++ [(s, p)] |>) g)
  end.

(** A window clip region; OpenGL counts rows from the bottom. *)
Definition clip_region (b : ShaderBinding) (i : Z) g : res (Gpu V) :=
  if clip_region_loc b i =? -1 then Ok g
  else
    let x := reg g (NV_PGRAPH_WINDOWCLIPX0 + i * 4) in
    let y := reg g (NV_PGRAPH_WINDOWCLIPY0 + i * 4) in
    let flip v := u32 (clip_height (shape g) - 1 - v) in
    '(x_min, y_min) ← pgraph_apply_anti_aliasing_factor g (GET_MASK x NV_PGRAPH_WINDOWCLIPX0_XMIN)
                        (flip (GET_MASK y NV_PGRAPH_WINDOWCLIPY0_YMAX));
    '(x_max, y_max) ← pgraph_apply_anti_aliasing_factor g (GET_MASK x NV_PGRAPH_WINDOWCLIPX0_XMAX)
                        (flip (GET_MASK y NV_PGRAPH_WINDOWCLIPY0_YMIN));
    Ok (emit (glUniform4i (clip_region_loc b i) (s32 x_min) (s32 y_min) (s32 (u32 (x_max + 1))) (s32 (u32 (y_max + 1)))) g).

Definition pgraph_bind_shaders g : res (Gpu V) :=
  let old := shader_binding (shaders (pg g)) in
  s ← shader_state g;
  let '(p, g) := find_shader s g in
  let g := on_shaders (λ h, h <| shader_binding := Some p |>) g in
  match shader_bindings (shaders (pg g)) !! p with
  | None => Fault undefined_behaviour
  | Some b =>
      let changed := bool_decide (Some p ≠ old) in
      let g := emit (glUseProgram (gl_program b)) g in
      g ← for_int (window_clip_count (psh s)) (clip_region b) g;
      Ok (pgraph_shader_update_constants b changed (is_vertex_program g) (is_fixed_function g) g)
  end.

(** ** What the shaders leave alone *)

(** All but the shaders and the calls of OpenGL. *)
(** The values of which uniforms are made. *)
Definition constants (s : Shaders) :=
  (ltctxa s, ltctxb s, ltc1 s, light_infinite_half_vector s, light_infinite_direction s, light_local_position s,
   light_local_attenuation s).

Definition beside_shaders g :=
  (nv g, context_surfaces_2d (pg g), image_blit (pg g), contexts (pg g), surfaces (pg g),
   textures (pg g), batch (pg g), report (pg g), nv2a_dirty g, vga_dirty g, waiting g,
   (constants (shaders (pg g)), program_data (shaders (pg g)), primitive_mode (shaders (pg g)))).

Section calls.
Context {T : Type} (π : Gpu V → T) (ignores : ∀ c g, π (emit c g) = π g).

Lemma uniform_kept loc c g : π (uniform loc c g) = π g.
Proof. unfold uniform. case_match; [done | apply ignores]. Qed.
#[local] Hint Rewrite uniform_kept : kept.

Lemma upload_rows_kept loc v dirty changed n g : π (upload_rows loc v dirty changed n g) = π g.
Proof.
  apply kept_foldl. intros g1 j. unfold upload_row. case_match; [done |]. by autorewrite with kept.
Qed.

Lemma light_uniforms_kept b g i : π (light_uniforms b g i) = π g.
Proof. unfold light_uniforms. by autorewrite with kept. Qed.

Lemma combiner_constant_kept b i j g : π (combiner_constant b i j g) = π g.
Proof. apply uniform_kept. Qed.

Lemma bump_uniforms_kept b i g : π (bump_uniforms b i g) = π g.
Proof. unfold bump_uniforms. by autorewrite with kept. Qed.

Lemma fog_uniforms_kept b g : π (fog_uniforms b g) = π g.
Proof. unfold fog_uniforms. by autorewrite with kept. Qed.
End calls.

(** ** The uniforms hold the state

    The uniforms of a program by name, and the value that the state gives each. *)

Inductive uniform_name :=
| UCombiner (i j : Z) | UAlphaRef | UBumpMat (i : Z) | UBumpScale (i : Z) | UBumpOffset (i : Z)
| UFogColor | UFogParam (i : Z) | ULtctxa (j : Z) | ULtctxb (j : Z) | ULtc1 (j : Z)
| UHalfVector (i : Z) | UDirection (i : Z) | UPosition (i : Z) | UAttenuation (i : Z) | UInvViewport
| UConstant (j : Z) | USurfaceSize | UClipRange | UClipRegion (i : Z).

#[local] Instance uniform_name_eq : EqDecision uniform_name.
Proof. solve_decision. Defined.

Definition location (b : ShaderBinding) (u : uniform_name) : Z :=
  match u with
  | UCombiner i j => psh_constant_loc b i j
  | UAlphaRef => alpha_ref_loc b
  | UBumpMat i => bump_mat_loc b i
  | UBumpScale i => bump_scale_loc b i
  | UBumpOffset i => bump_offset_loc b i
  | UFogColor => fog_color_loc b
  | UFogParam i => fog_param_loc b i
  | ULtctxa j => ltctxa_loc b j
  | ULtctxb j => ltctxb_loc b j
  | ULtc1 j => ltc1_loc b j
  | UHalfVector i => light_infinite_half_vector_loc b i
  | UDirection i => light_infinite_direction_loc b i
  | UPosition i => light_local_position_loc b i
  | UAttenuation i => light_local_attenuation_loc b i
  | UInvViewport => inv_viewport_loc b
  | UConstant j => vsh_constant_loc b j
  | USurfaceSize => surface_size_loc b
  | UClipRange => clip_range_loc b
  | UClipRegion i => clip_region_loc b i
  end.

(** The columns and rows of samples that a pixel has. *)
Definition samples g : Z * Z :=
  let aa := anti_aliasing (shape g) in
  if aa =? NV097_SET_SURFACE_FORMAT_ANTI_ALIASING_CENTER_1 then (1, 1)
  else if aa =? NV097_SET_SURFACE_FORMAT_ANTI_ALIASING_CENTER_CORNER_2 then (2, 1) else (2, 2).

(** A window clip region: the first column and row of its samples and those after the last
    ones, the rows counted from the bottom of the surface. *)
Definition clip_window g (i : Z) : list Z :=
  let x := reg g (NV_PGRAPH_WINDOWCLIPX0 + i * 4) in
  let y := reg g (NV_PGRAPH_WINDOWCLIPY0 + i * 4) in
  let '(columns, rows) := samples g in
  let bottom := clip_height (shape g) - 1 in
  (λ v, s32 v) <$>
    [GET_MASK x NV_PGRAPH_WINDOWCLIPX0_XMIN * columns;
     (bottom - GET_MASK y NV_PGRAPH_WINDOWCLIPY0_YMAX) * rows;
     GET_MASK x NV_PGRAPH_WINDOWCLIPX0_XMAX * columns + 1;
     (bottom - GET_MASK y NV_PGRAPH_WINDOWCLIPY0_YMIN) * rows + 1].

Definition expected g (u : uniform_name) : list Z :=
  let s := shaders (pg g) in
  let argb v := [channel v 16; channel v 8; channel v 0; channel v 24] in
  match u with
  | UCombiner i j =>
      argb (if i =? 8 then reg g (if j =? 0 then NV_PGRAPH_SPECFOGFACTOR0 else NV_PGRAPH_SPECFOGFACTOR1)
            else reg g ((if j =? 0 then NV_PGRAPH_COMBINEFACTOR0 else NV_PGRAPH_COMBINEFACTOR1) + i * 4))
  | UAlphaRef => [div_d (GET_MASK (reg g NV_PGRAPH_CONTROL_0) NV_PGRAPH_CONTROL_0_ALPHAREF) 255]
  | UBumpMat i => row 4 (bump_env_matrix (textures (pg g))) (i - 1)
  | UBumpScale i => [reg g (NV_PGRAPH_BUMPSCALE1 + (i - 1) * 4)]
  | UBumpOffset i => [reg g (NV_PGRAPH_BUMPOFFSET1 + (i - 1) * 4)]
  | UFogColor => (λ mask, div_d (GET_MASK (reg g NV_PGRAPH_FOGCOLOR) mask) 255) <$>
      [NV_PGRAPH_FOGCOLOR_RED; NV_PGRAPH_FOGCOLOR_GREEN; NV_PGRAPH_FOGCOLOR_BLUE; NV_PGRAPH_FOGCOLOR_ALPHA]
  | UFogParam i => [reg g (if i =? 0 then NV_PGRAPH_FOGPARAM0 else NV_PGRAPH_FOGPARAM1)]
  | ULtctxa j => row 4 (ltctxa s) j
  | ULtctxb j => row 4 (ltctxb s) j
  | ULtc1 j => row 4 (ltc1 s) j
  | UHalfVector i => row 3 (light_infinite_half_vector s) i
  | UDirection i => row 3 (light_infinite_direction s) i
  | UPosition i => row 3 (light_local_position s) i
  | UAttenuation i => row 3 (light_local_attenuation s) i
  | UInvViewport => inv_viewport g
  | UConstant j => row 4 (vsh_constants (nv g)) j
  | USurfaceSize => [float_of_int (clip_width (shape g)); float_of_int (clip_height (shape g))]
  | UClipRange => [reg g NV_PGRAPH_ZCLIPMIN; reg g NV_PGRAPH_ZCLIPMAX]
  | UClipRegion i => clip_window g i
  end.

(** The names of the arrays' elements, and of the uniforms that only the fixed function has. *)
Definition in_array (u : uniform_name) : bool :=
  match u with
  | UCombiner i j => (0 <=? i) && (i <? 9) && (0 <=? j) && (j <? 2)
  | UBumpMat i | UBumpScale i | UBumpOffset i => (0 <? i) && (i <? NV2A_MAX_TEXTURES)
  | UFogParam i => (0 <=? i) && (i <? 2)
  | ULtctxa j => (0 <=? j) && (j <? NV2A_LTCTXA_COUNT)
  | ULtctxb j => (0 <=? j) && (j <? NV2A_LTCTXB_COUNT)
  | ULtc1 j => (0 <=? j) && (j <? NV2A_LTC1_COUNT)
  | UHalfVector i | UDirection i | UPosition i | UAttenuation i => (0 <=? i) && (i <? NV2A_MAX_LIGHTS)
  | UConstant j => (0 <=? j) && (j <? NV2A_VERTEXSHADER_CONSTANTS)
  | UClipRegion i => (0 <=? i) && (i <? 8)
  | _ => true
  end.

Definition is_lighting (u : uniform_name) : bool :=
  match u with
  | ULtctxa _ | ULtctxb _ | ULtc1 _ | UHalfVector _ | UDirection _ | UPosition _ | UAttenuation _
  | UInvViewport => true
  | _ => false
  end.

(** Different uniforms of a program have different locations. *)
Definition distinct_locations (b : ShaderBinding) : Prop :=
  ∀ u u', in_array u = true → in_array u' = true → location b u ≠ -1 → location b u = location b u' → u = u'.

Section uniforms.
Context (b : ShaderBinding) (D : distinct_locations b).

(** The program is in use, and its uniforms of the names [P] hold what they should. *)
Definition shows (P : uniform_name → Prop) g : Prop :=
  in_use (gl g) = Some (gl_program b) ∧
  ∀ u, P u → in_array u = true → location b u ≠ -1 →
    uniform_value (gl g) (gl_program b) (location b u) = Some (expected g u).

Lemma shows_weaken (P Q : uniform_name → Prop) g : (∀ u, Q u → in_array u = true → P u) → shows P g → shows Q g.
Proof. intros W [U S]. split; [done |]. intros u Qu A. apply S; auto. Qed.

(** A uniform is stored: with its value, or without being among the names. *)
Lemma shows_store (P : uniform_name → Prop) u c v g : in_array u = true → uniform_call c = Some (location b u, v) →
  shows P g → shows (λ x, (P x ∧ x ≠ u) ∨ (x = u ∧ v = expected g u)) (uniform (location b u) c g).
Proof.
  intros A Ec [U S]. unfold uniform. destruct (Z.eqb_spec (location b u) (-1)) as [El | El].
  - split; [done |]. intros x [[Px _] | [-> _]] Ax Lx; [by apply S | done].
  - split; [by destruct c |]. intros x Hx Ax Lx. cbn [emit set gl uniform_value]. rewrite Ec.
    change (expected (emit c g) x) with (expected g x).
    destruct (Z.eqb_spec (location b u) (location b x)) as [E | E]; cbn [andb].
    + assert (x = u) as -> by (symmetry; by apply D). rewrite bool_decide_eq_true_2 by done.
      destruct Hx as [[_ N] | [_ ->]]; done.
    + destruct Hx as [[Px _] | [-> _]]; [by apply S | done].
Qed.

Lemma shows_uniform (P : uniform_name → Prop) u c g : in_array u = true → uniform_call c = Some (location b u, expected g u) →
  shows P g → shows (λ x, P x ∨ x = u) (uniform (location b u) c g).
Proof.
  intros A Ec S. eapply shows_weaken; [| exact (shows_store P u c _ g A Ec S)].
  intros x Px _. destruct (decide (x = u)); naive_solver.
Qed.
Lemma expected_uniform loc c g u : expected (uniform loc c g) u = expected g u.
Proof. unfold uniform. by case_match. Qed.

(** Steps over a range. *)
Lemma shows_foldl (f : Gpu V → Z → Gpu V) (Q : Z → uniform_name → Prop) l :
  (∀ i P g, i ∈ l → shows P g → shows (λ x, P x ∨ Q i x) (f g i)) →
  ∀ P g, shows P g → shows (λ x, P x ∨ ∃ i, i ∈ l ∧ Q i x) (foldl f g l).
Proof.
  induction l as [| i l IH]; intros Hf P g Hg; cbn [foldl].
  - eapply shows_weaken; [| exact Hg]. intros u [Pu | (i & []%not_elem_of_nil & _)] _. done.
  - eapply shows_weaken; [| apply IH; [intros j P' g' Hj; apply Hf; by right | apply (Hf i); [by left | exact Hg]]].
    intros u [Pu | (j & [-> | Hj]%elem_of_cons & Qj)] _; naive_solver.
Qed.

Lemma shows_rows (P : uniform_name → Prop) (N : Z → uniform_name) v dirty changed n g :
  (∀ j, 0 ≤ j < n → in_array (N j) = true) → (∀ j, row 4 v j = expected g (N j)) →
  (∀ j, 0 ≤ j < n → j ∉ dirty → changed = false → P (N j)) → shows P g →
  shows (λ x, P x ∨ ∃ j, j ∈ seqZ 0 n ∧ x = N j) (upload_rows (λ j, location b (N j)) v dirty changed n g).
Proof.
  intros A Ev C. unfold upload_rows.
  assert (∀ j, j ∈ seqZ 0 n → 0 ≤ j < n) as Hl by (intros j Hj%elem_of_seqZ; lia).
  revert Hl P g Ev C. induction (seqZ 0 n) as [| j l IH]; intros Hl P g Ev C Hg; cbn [foldl].
  { eapply shows_weaken; [| exact Hg]. intros u [Pu | (i & []%not_elem_of_nil & _)] _. done. }
  eapply shows_weaken; [| apply IH with (P := λ x, P x ∨ x = N j)].
  - intros u [Pu | (i & [-> | Hi]%elem_of_cons & ->)] _; [by left; left | by left; right | right; eauto].
  - intros i Hi. apply Hl. by right.
  - intros i. unfold upload_row. case_match; [done |]. by rewrite expected_uniform.
  - intros i Hi Nd Ec. left. by apply C.
  - assert (0 ≤ j < n) as Hj by (apply Hl; by left). unfold upload_row.
    destruct (negb (bool_decide (j ∈ dirty)) && negb changed) eqn:X.
    + apply andb_true_iff in X as [X1 X2]. apply negb_true_iff in X1, X2. apply bool_decide_eq_false_1 in X1.
      eapply shows_weaken; [| exact Hg]. intros u [Pu | ->] _; [done | by apply C].
    + apply shows_uniform; [by apply A | cbn; by rewrite Ev | done].
Qed.

(** Single uniforms, the last first. *)
Lemma shows_nil (P : uniform_name → Prop) g : shows P g → shows (λ x, P x ∨ x ∈ []) g.
Proof. apply shows_weaken. by intros u [Pu | []%not_elem_of_nil]. Qed.

Lemma shows_add (P : uniform_name → Prop) l u c g :
  in_array u = true → uniform_call c = Some (location b u, expected g u) →
  shows (λ x, P x ∨ x ∈ l) g → shows (λ x, P x ∨ x ∈ u :: l) (uniform (location b u) c g).
Proof.
  intros A Ec Hg. eapply shows_weaken; [| exact (shows_uniform _ u c g A Ec Hg)].
  intros x [Px | [-> | Hx]%elem_of_cons] _; auto.
Qed.

Ltac adds :=
  repeat lazymatch goal with
  | |- shows (λ x, _ ∨ x ∈ ?u :: ?l) _ =>
      apply (shows_add _ l u); [try done | first [done | by rewrite !expected_uniform] |]
  | |- shows (λ x, _ ∨ x ∈ []) _ => apply shows_nil
  end.

Lemma shows_lights i (P : uniform_name → Prop) g : i ∈ seqZ 0 NV2A_MAX_LIGHTS → shows P g →
  shows (λ x, P x ∨ x ∈ [UAttenuation i; UPosition i; UDirection i; UHalfVector i]) (light_uniforms b g i).
Proof.
  intros Hi%elem_of_seqZ Hg. assert ((0 <=? i) && (i <? NV2A_MAX_LIGHTS) = true) as A by lia.
  unfold light_uniforms. by adds.
Qed.

Lemma shows_combiners i (P : uniform_name → Prop) g : i ∈ seqZ 0 9 → shows P g →
  shows (λ x, P x ∨ x ∈ [UCombiner i 1; UCombiner i 0]) (combiner_constant b i 1 (combiner_constant b i 0 g)).
Proof.
  intros Hi%elem_of_seqZ Hg. unfold combiner_constant. adds; [cbn; lia | cbn; lia | done].
Qed.

Lemma shows_bumps i (P : uniform_name → Prop) g : i ∈ seqZ 0 NV2A_MAX_TEXTURES → shows P g →
  shows (λ x, P x ∨ (0 < i ∧ x ∈ [UBumpOffset i; UBumpScale i; UBumpMat i]))
    (if 0 <? i then bump_uniforms b i g else g).
Proof.
  intros Hi%elem_of_seqZ Hg. destruct (Z.ltb_spec 0 i) as [L | L].
  - assert ((0 <? i) && (i <? NV2A_MAX_TEXTURES) = true) as A by lia.
    apply (shows_weaken (λ x, P x ∨ x ∈ [UBumpOffset i; UBumpScale i; UBumpMat i])); [naive_solver |].
    unfold bump_uniforms. by adds.
  - eapply shows_weaken; [| exact Hg]. intros u [Pu | [? _]] _; [done | lia].
Qed.

Lemma shows_fog (P : uniform_name → Prop) g : shows P g →
  shows (λ x, P x ∨ x ∈ [UFogParam 1; UFogParam 0; UFogColor]) (fog_uniforms b g).
Proof. intros Hg. unfold fog_uniforms. by adds. Qed.

Lemma shows_same (P : uniform_name → Prop) g g' : gl g' = gl g → (∀ u, expected g' u = expected g u) → shows P g → shows P g'.
Proof. intros El Ee [U S]. split; [by rewrite El |]. intros u Pu A L. rewrite El, Ee. by apply S. Qed.

(** The uniforms that are not marked as changed. *)
Definition unmarked (fixed_function : bool) g (u : uniform_name) : Prop :=
  let s := shaders (pg g) in
  match u with
  | ULtctxa j => fixed_function = true ∧ j ∉ ltctxa_dirty s
  | ULtctxb j => fixed_function = true ∧ j ∉ ltctxb_dirty s
  | ULtc1 j => fixed_function = true ∧ j ∉ ltc1_dirty s
  | UConstant j => j ∉ vsh_constants_dirty s
  | _ => False
  end.

(** The uniforms that a draw has: the lighting only with the fixed function, and as many
    clip regions as the pixel shader looks at. *)
Definition relevant (st : ShaderState) (u : uniform_name) : Prop :=
  match u with
  | UClipRegion i => i < window_clip_count (psh st)
  | _ => is_lighting u = true → fixed_function st = true
  end.

(** The values come from these parts of the state, which the calls do not change. *)
Definition values g := (nv g, pg g).

Lemma expected_values g g' u : values g' = values g → expected g' u = expected g u.
Proof.
  unfold values. intros [= En Ep].
  destruct u; unfold expected, inv_viewport, clip_window, samples, reg, shape; rewrite ?En, ?Ep; reflexivity.
Qed.

Lemma inv_viewport_frame g g' : nv g' = nv g → shape g' = shape g → inv_viewport g' = inv_viewport g.
Proof. intros En Es. unfold inv_viewport, reg. by rewrite En, Es. Qed.

Lemma clip_window_frame g g' i : nv g' = nv g → shape g' = shape g → clip_window g' i = clip_window g i.
Proof. intros En Es. unfold clip_window, samples, reg. by rewrite En, Es. Qed.

(** Nor do the marks. *)
Lemma expected_shaders f g u : constants (f (shaders (pg g))) = constants (shaders (pg g)) →
  expected (on_shaders f g) u = expected g u.
Proof.
  intros [= E1 E2 E3 E4 E5 E6 E7].
  destruct u; cbn [expected]; first [by apply inv_viewport_frame | by apply clip_window_frame | reflexivity
    | cbn [on_shaders set pg shaders]; congruence].
Qed.

Lemma values_rows loc v dirty changed n g : values (upload_rows loc v dirty changed n g) = values g.
Proof. by apply (upload_rows_kept values). Qed.

Lemma elem_of_rows n j : (0 <=? j) && (j <? n) = true → j ∈ seqZ 0 n.
Proof. intros. apply elem_of_seqZ. lia. Qed.

Lemma rows_elem_of n j : 0 ≤ j < n → (0 <=? j) && (j <? n) = true.
Proof. lia. Qed.

Lemma lighting_rows_shows (P : uniform_name → Prop) changed g :
  (∀ u, changed = false → unmarked true g u → P u) → shows P g →
  let s := shaders (pg g) in
  let g := upload_rows (ltctxa_loc b) (ltctxa s) (ltctxa_dirty s) changed NV2A_LTCTXA_COUNT g in
  let g := upload_rows (ltctxb_loc b) (ltctxb s) (ltctxb_dirty s) changed NV2A_LTCTXB_COUNT g in
  let g := upload_rows (ltc1_loc b) (ltc1 s) (ltc1_dirty s) changed NV2A_LTC1_COUNT g in
  shows (λ u, P u ∨ match u with ULtctxa _ | ULtctxb _ | ULtc1 _ => True | _ => False end) g.
Proof.
  intros C Hg s g1 g2 g3.
  apply (shows_rows P ULtctxa (ltctxa s) (ltctxa_dirty s) changed NV2A_LTCTXA_COUNT g) in Hg;
    [| intros j ?; by apply rows_elem_of | done | intros j _ Hj Ec; by apply C]. fold g1 in Hg.
  apply (shows_rows _ ULtctxb (ltctxb s) (ltctxb_dirty s) changed NV2A_LTCTXB_COUNT g1) in Hg;
    [| intros j ?; by apply rows_elem_of | intros j; by rewrite (expected_values g) by apply values_rows
     | intros j _ Hj Ec; left; by apply C]. fold g2 in Hg.
  apply (shows_rows _ ULtc1 (ltc1 s) (ltc1_dirty s) changed NV2A_LTC1_COUNT g2) in Hg;
    [| intros j ?; by apply rows_elem_of
     | intros j; by rewrite (expected_values g) by (unfold g2, g1; by rewrite !values_rows)
     | intros j _ Hj Ec; left; left; by apply C]. fold g3 in Hg.
  eapply shows_weaken; [| exact Hg]. intros u [Pu | Hu] A; [by left; left; left |].
  destruct u; try done; cbn in A; apply elem_of_rows in A; [left; left; right | left; right | right]; eauto.
Qed.

Lemma lights_shows (P : uniform_name → Prop) g : shows P g →
  shows (λ u, P u ∨ match u with UHalfVector _ | UDirection _ | UPosition _ | UAttenuation _ => True | _ => False end)
    (foldl (light_uniforms b) g (seqZ 0 NV2A_MAX_LIGHTS)).
Proof.
  intros Hg. eapply shows_weaken; [| exact (shows_foldl (light_uniforms b) _ _ shows_lights P g Hg)].
  intros u [Pu | Hu] A; [by left |].
  destruct u; try done; right; cbn in A; apply elem_of_rows in A; eexists; (split; [exact A |]); set_solver.
Qed.

Lemma lighting_shows (P : uniform_name → Prop) changed g :
  (∀ u, changed = false → unmarked true g u → P u) → shows P g →
  shows (λ u, P u ∨ is_lighting u = true) (lighting_uniforms b changed g).
Proof.
  intros C Hg. apply (lighting_rows_shows P changed g C) in Hg. unfold lighting_uniforms. revert Hg.
  cbv zeta. generalize (upload_rows (ltc1_loc b) (ltc1 (shaders (pg g))) (ltc1_dirty (shaders (pg g))) changed NV2A_LTC1_COUNT
    (upload_rows (ltctxb_loc b) (ltctxb (shaders (pg g))) (ltctxb_dirty (shaders (pg g))) changed NV2A_LTCTXB_COUNT
      (upload_rows (ltctxa_loc b) (ltctxa (shaders (pg g))) (ltctxa_dirty (shaders (pg g))) changed NV2A_LTCTXA_COUNT g))).
  clear g C. intros g Hg.
  apply (shows_same _ g (on_shaders (λ s, s <| ltctxa_dirty ::= clean NV2A_LTCTXA_COUNT |>
           <| ltctxb_dirty ::= clean NV2A_LTCTXB_COUNT |> <| ltc1_dirty ::= clean NV2A_LTC1_COUNT |>) g)) in Hg;
    [| done | intros u; by apply expected_shaders].
  apply lights_shows in Hg. revert Hg. generalize (foldl (light_uniforms b) (on_shaders
    (λ s, s <| ltctxa_dirty ::= clean NV2A_LTCTXA_COUNT |> <| ltctxb_dirty ::= clean NV2A_LTCTXB_COUNT |>
            <| ltc1_dirty ::= clean NV2A_LTC1_COUNT |>) g) (seqZ 0 NV2A_MAX_LIGHTS)).
  clear g. intros g Hg. pose proof (shows_uniform _ UInvViewport
    (glUniformMatrix4fv (inv_viewport_loc b) false (inv_viewport g)) g eq_refl eq_refl Hg) as Hg6.
  eapply shows_weaken; [| exact Hg6].
  intros [] [Pu | Hu] A; try done; auto.
Qed.

(** The uniforms before the lighting: they come from registers, and are always stored. *)
Definition first_uniforms g : Gpu V :=
  let g := foldl (λ g i, combiner_constant b i 1 (combiner_constant b i 0 g)) g (seqZ 0 9) in
  let g := uniform (alpha_ref_loc b) (glUniform1f (alpha_ref_loc b)
             (div_d (GET_MASK (reg g NV_PGRAPH_CONTROL_0) NV_PGRAPH_CONTROL_0_ALPHAREF) 255)) g in
  let g := foldl (λ g i, if 0 <? i then bump_uniforms b i g else g) g (seqZ 0 NV2A_MAX_TEXTURES) in
  fog_uniforms b g.

(** The vertex shader constants, and those after them. *)
Definition last_uniforms (changed : bool) g : Gpu V :=
  let g := upload_rows (vsh_constant_loc b) (vsh_constants (nv g)) (vsh_constants_dirty (shaders (pg g))) changed
             NV2A_VERTEXSHADER_CONSTANTS g in
  let g := on_shaders (λ s, s <| vsh_constants_dirty ::= clean NV2A_VERTEXSHADER_CONSTANTS |>) g in
  let g := uniform (surface_size_loc b) (glUniform2f (surface_size_loc b)
             (float_of_int (clip_width (shape g))) (float_of_int (clip_height (shape g)))) g in
  uniform (clip_range_loc b) (glUniform2f (clip_range_loc b) (reg g NV_PGRAPH_ZCLIPMIN) (reg g NV_PGRAPH_ZCLIPMAX)) g.

Lemma update_constants_parts changed vp ff g :
  pgraph_shader_update_constants b changed vp ff g =
  last_uniforms changed (if ff then lighting_uniforms b changed (first_uniforms g) else first_uniforms g).
Proof. reflexivity. Qed.

Lemma first_uniforms_kept {T} (π : Gpu V → T) g : (∀ c g, π (emit c g) = π g) → π (first_uniforms g) = π g.
Proof.
  intros I. unfold first_uniforms. rewrite (fog_uniforms_kept π I).
  rewrite kept_foldl by (intros g' i; case_match; [apply (bump_uniforms_kept π I) | done]).
  rewrite (uniform_kept π I). apply kept_foldl. intros g' i. by rewrite !(combiner_constant_kept π I).
Qed.

Lemma combiners_shows (P : uniform_name → Prop) g : shows P g →
  shows (λ u, P u ∨ match u with UCombiner _ _ => True | _ => False end)
    (foldl (λ g i, combiner_constant b i 1 (combiner_constant b i 0 g)) g (seqZ 0 9)).
Proof.
  intros Hg. eapply shows_weaken; [| exact (shows_foldl _ _ _ shows_combiners P g Hg)].
  intros u [Pu | Hu] A; [by left |]. destruct u as [i j | | | | | | | | | | | | | | | | | |]; try done. right.
  cbn in A. exists i. split; [apply elem_of_seqZ; lia |].
  assert (j = 0 ∨ j = 1) as [-> | ->] by lia; set_solver.
Qed.

Lemma bumps_shows (P : uniform_name → Prop) g : shows P g →
  shows (λ u, P u ∨ match u with UBumpMat _ | UBumpScale _ | UBumpOffset _ => True | _ => False end)
    (foldl (λ g i, if 0 <? i then bump_uniforms b i g else g) g (seqZ 0 NV2A_MAX_TEXTURES)).
Proof.
  intros Hg. eapply shows_weaken; [| exact (shows_foldl _ _ _ shows_bumps P g Hg)].
  intros u [Pu | Hu] A; [by left |].
  destruct u as [| | i | i | i | | | | | | | | | | | | | |]; try done; right; cbn in A;
    (exists i; split; [apply elem_of_seqZ; lia | split; [lia | set_solver]]).
Qed.

Lemma first_shows (P : uniform_name → Prop) g : shows P g →
  shows (λ u, P u ∨ match u with UCombiner _ _ | UAlphaRef | UBumpMat _ | UBumpScale _ | UBumpOffset _ | UFogColor
                       | UFogParam _ => True | _ => False end) (first_uniforms g).
Proof.
  intros Hg. apply combiners_shows in Hg. unfold first_uniforms. revert Hg.
  generalize (foldl (λ g i, combiner_constant b i 1 (combiner_constant b i 0 g)) g (seqZ 0 9)).
  clear g. intros g Hg. cbv zeta.
  apply (shows_uniform _ UAlphaRef (glUniform1f (alpha_ref_loc b)
    (div_d (GET_MASK (reg g NV_PGRAPH_CONTROL_0) NV_PGRAPH_CONTROL_0_ALPHAREF) 255)) g eq_refl eq_refl) in Hg.
  apply bumps_shows, shows_fog in Hg. eapply shows_weaken; [| exact Hg].
  intros u [Pu | Hu] A; [by left; left; left; left |]. destruct u; try done; auto 6.
  - right. set_solver.
  - right. cbn in A. assert (i = 0 ∨ i = 1) as [-> | ->] by lia; set_solver.
Qed.

Lemma last_shows (P : uniform_name → Prop) changed g :
  (∀ j, changed = false → j ∉ vsh_constants_dirty (shaders (pg g)) → P (UConstant j)) → shows P g →
  shows (λ u, P u ∨ match u with UConstant _ | USurfaceSize | UClipRange => True | _ => False end)
    (last_uniforms changed g).
Proof.
  intros C Hg. apply (shows_rows P UConstant (vsh_constants (nv g)) (vsh_constants_dirty (shaders (pg g))) changed
    NV2A_VERTEXSHADER_CONSTANTS g) in Hg; [| intros j ?; by apply rows_elem_of | done | intros j _ Hj Ec; by apply C].
  change (λ j, location b (UConstant j)) with (vsh_constant_loc b) in Hg.
  unfold last_uniforms. cbv zeta. revert Hg.
  generalize (upload_rows (vsh_constant_loc b) (vsh_constants (nv g)) (vsh_constants_dirty (shaders (pg g)))
                changed NV2A_VERTEXSHADER_CONSTANTS g).
  clear g C. intros g Hg.
  apply (shows_same _ g (on_shaders (λ s, s <| vsh_constants_dirty ::= clean NV2A_VERTEXSHADER_CONSTANTS |>) g)) in Hg;
    [| done | intros u; by apply expected_shaders].
  revert Hg. generalize (on_shaders (λ s, s <| vsh_constants_dirty ::= clean NV2A_VERTEXSHADER_CONSTANTS |>) g).
  clear g. intros g Hg.
  apply (shows_uniform _ USurfaceSize (glUniform2f (surface_size_loc b) (float_of_int (clip_width (shape g)))
    (float_of_int (clip_height (shape g)))) g eq_refl eq_refl) in Hg. revert Hg. cbn [location].
  generalize (uniform (surface_size_loc b) (glUniform2f (surface_size_loc b) (float_of_int (clip_width (shape g)))
    (float_of_int (clip_height (shape g)))) g). clear g. intros g Hg.
  apply (shows_uniform _ UClipRange (glUniform2f (clip_range_loc b) (reg g NV_PGRAPH_ZCLIPMIN)
    (reg g NV_PGRAPH_ZCLIPMAX)) g eq_refl eq_refl) in Hg.
  eapply shows_weaken; [| exact Hg]. intros u [Pu | Hu] A; [by left; left; left |].
  destruct u; try done; auto. left. left. right. cbn in A. apply elem_of_rows in A. eauto.
Qed.

Lemma lighting_uniforms_kept {T} (π : Gpu V → T) changed g : (∀ c g, π (emit c g) = π g) →
  (∀ f1 f2 f3 g, π (on_shaders (λ s, s <| ltctxa_dirty ::= f1 |> <| ltctxb_dirty ::= f2 |> <| ltc1_dirty ::= f3 |>) g) = π g) →
  π (lighting_uniforms b changed g) = π g.
Proof.
  intros I M. unfold lighting_uniforms. cbv zeta. rewrite (uniform_kept π I).
  rewrite kept_foldl by (intros g' i; apply (light_uniforms_kept π I)).
  rewrite M. by rewrite !(upload_rows_kept π I).
Qed.

Lemma update_constants_shows changed vp st g (ff := fixed_function st) :
  shows (λ u, (changed = false ∧ unmarked ff g u) ∨ match u with UClipRegion i => relevant st u | _ => False end) g →
  shows (relevant st) (pgraph_shader_update_constants b changed vp ff g).
Proof.
  unfold relevant. fold ff. clearbody ff. intros Hg. rewrite update_constants_parts. apply first_shows in Hg.
  assert (pg (first_uniforms g) = pg g) as Eg by (by apply (first_uniforms_kept pg)).
  revert Hg Eg. generalize (first_uniforms g) as g1. intros g1 Hg Eg. destruct ff.
  - apply (lighting_shows _ changed g1) in Hg; [| intros u Ec Hu; left; left; split; [done |]; unfold unmarked in *; by rewrite <- Eg].
    assert (vsh_constants_dirty (shaders (pg (lighting_uniforms b changed g1))) = vsh_constants_dirty (shaders (pg g))) as Ed.
    { rewrite <- Eg. by apply (lighting_uniforms_kept (λ g, vsh_constants_dirty (shaders (pg g)))). }
    apply (last_shows _ changed) in Hg; [| intros j Ec Hj; left; left; left; split; [done |]; cbn; by rewrite <- Ed].
    eapply shows_weaken; [| exact Hg]. intros [] Hu A; auto.
  - apply (last_shows _ changed) in Hg; [| intros j Ec Hj; left; left; split; [done |]; cbn; by rewrite <- Eg].
    eapply shows_weaken; [| exact Hg]. intros [] Hu A; cbn in Hu; auto; by specialize (Hu eq_refl).
Qed.

Lemma update_constants_kept {T} (π : Gpu V → T) changed vp ff g : (∀ c g, π (emit c g) = π g) →
  (∀ f1 f2 f3 g, π (on_shaders (λ s, s <| ltctxa_dirty ::= f1 |> <| ltctxb_dirty ::= f2 |> <| ltc1_dirty ::= f3 |>) g) = π g) →
  (∀ f g, π (on_shaders (λ s, s <| vsh_constants_dirty ::= f |>) g) = π g) →
  π (pgraph_shader_update_constants b changed vp ff g) = π g.
Proof.
  intros I M1 M2. rewrite update_constants_parts. unfold last_uniforms. cbv zeta. rewrite !(uniform_kept π I), M2.
  rewrite (upload_rows_kept π I). destruct ff; [rewrite (lighting_uniforms_kept π) by done |]; by apply (first_uniforms_kept π).
Qed.
End uniforms.

Lemma clip_region_kept {T} (π : Gpu V → T) b i g : (∀ c g, π (emit c g) = π g) → kept π id g (clip_region b i g).
Proof. intros I. unfold clip_region. keeps. all: apply I. Qed.

Lemma find_shader_kept s g : beside_shaders (find_shader s g).2 = beside_shaders g.
Proof. unfold find_shader. by destruct (list_find _ _) as [[? []] |]. Qed.

Lemma bind_shaders_kept g : kept beside_shaders id g (pgraph_bind_shaders g).
Proof.
  unfold pgraph_bind_shaders. apply kept_pure. intros s. pose proof (find_shader_kept s g) as Ef.
  destruct (find_shader s g) as [p g1]. cbn [snd] in Ef. case_match; [| done].
  eapply kept_bind.
  - apply kept_for_int. intros. by apply (clip_region_kept beside_shaders).
  - exact Ef.
  - intros g2 E2. apply kept_ok. by apply (update_constants_kept _ beside_shaders).
Qed.

(** ** The program in use *)

(** The cache maps states to their programs, and the pointers are the places in it. *)
Definition cache_ok (s : Shaders) : Prop :=
  ∀ k st p, shader_cache s !! k = Some (st, p) → p = Z.of_nat k ∧ shader_bindings s !! p = Some (generate_shaders st).

(** The constants that are not marked as changed are in the uniforms of the program in use. *)
Definition in_sync g : Prop :=
  let s := shaders (pg g) in
  cache_ok s ∧ ∀ p, shader_binding s = Some p →
    ∃ k st, shader_cache s !! k = Some (st, p) ∧
      shows (generate_shaders st) (unmarked (fixed_function st) g) g.

Lemma find_shader_ok st g : cache_ok (shaders (pg g)) →
  let '(p, g') := find_shader st g in
  let s := shaders (pg g) in let s' := shaders (pg g') in
  cache_ok s' ∧ (∃ k, shader_cache s' !! k = Some (st, p)) ∧ prefix (shader_cache s) (shader_cache s') ∧
  gl g' = gl g ∧ ∃ c b, g' = on_shaders (λ h, h <| shader_bindings := b |> <| shader_cache := c |>) g.
Proof.
  intros C. unfold find_shader. destruct (list_find _ _) as [[k [st' p]] |] eqn:F.
  - apply list_find_Some in F as (Ek & <- & _). split_and!; [done | by exists k | done | done |].
    exists (shader_cache (shaders (pg g))), (shader_bindings (shaders (pg g))).
    by destruct g as [? [? ? ? ? ? [] ? ?] ? ? ? ?].
  - cbn [on_shaders set pg shaders shader_cache shader_bindings]. split_and!.
    + intros k st' p Hk. cbn [shader_cache shader_bindings set] in *. apply lookup_snoc_Some in Hk as [[Lk Hk] | [Lk [= <- <-]]].
      * destruct (C _ _ _ Hk) as [-> Hb]. split; [done |]. rewrite lookup_insert_ne by lia. done.
      * subst k. split; [done |]. by rewrite lookup_insert_eq.
    + exists (length (shader_cache (shaders (pg g)))). by apply list_lookup_middle.
    + by eexists.
    + done.
    + by eexists _, _.
Qed.

Lemma window_clips_bound l x y n : (∀ i x y, (i, x, y) ∈ l → 0 ≤ i < 8) → 0 ≤ n ≤ 8 → 0 ≤ window_clips l x y n ≤ 8.
Proof.
  revert x y n. induction l as [| [[i rx] ry] l IH]; intros x y n Hl Hn; cbn [window_clips]; [done |].
  assert (0 ≤ i < 8) by (eapply Hl; by left).
  repeat case_match; apply IH; try lia; intros; eapply Hl; by right.
Qed.

Lemma shader_state_facts g s : shader_state g = Ok s →
  fixed_function s = is_fixed_function g ∧ 0 ≤ window_clip_count (psh s) ≤ 8.
Proof.
  unfold shader_state. intros (p & Ep & E%Ok_inj)%bind_ok. subst s. split; [reflexivity |]. cbn [psh].
  unfold psh_state in Ep. do 9 apply bind_ok in Ep as (? & _ & Ep). apply Ok_inj in Ep. subst p.
  cbn [window_clip_count].
  apply window_clips_bound; [| lia]. intros i rx ry Hi. apply list_elem_of_fmap in Hi as (j & [= -> _ _] & Hj%elem_of_seqZ). lia.
Qed.

Lemma s32_u32 z : s32 (u32 z) = s32 z.
Proof. unfold swrap, wrap. by rewrite Zplus_mod_idemp_l. Qed.
Lemma u32_add z n : u32 (u32 z + n) = u32 (z + n).
Proof. unfold wrap. apply Zplus_mod_idemp_l. Qed.
Lemma u32_mul z n : u32 (u32 z * n) = u32 (z * n).
Proof. unfold wrap. apply Zmult_mod_idemp_l. Qed.

(** The code computes the region without sign, and wraps. *)
Lemma clip_region_value b i g : clip_region_loc b i ≠ -1 →
  ensures (clip_region b i g) (λ g', ∃ v0 v1 v2 v3, g' = emit (glUniform4i (clip_region_loc b i) v0 v1 v2 v3) g ∧
    [v0; v1; v2; v3] = clip_window g i).
Proof.
  intros N. unfold clip_region. rewrite (proj2 (Z.eqb_neq _ _) N). cbv zeta.
  unfold clip_window, samples, pgraph_apply_anti_aliasing_factor.
  destruct (_ =? NV097_SET_SURFACE_FORMAT_ANTI_ALIASING_CENTER_1); [| destruct (_ =? NV097_SET_SURFACE_FORMAT_ANTI_ALIASING_CENTER_CORNER_2);
    [| destruct (_ =? NV097_SET_SURFACE_FORMAT_ANTI_ALIASING_SQUARE_OFFSET_4); [| done]]].
  all: apply ensures_ok; eexists _, _, _, _; (split; [reflexivity |]); cbn [fmap list_fmap].
  all: rewrite ?u32_mul, ?u32_add, ?s32_u32, ?Z.mul_1_r; reflexivity.
Qed.

Lemma clip_region_shows b (P : uniform_name → Prop) i g : distinct_locations b → 0 ≤ i < 8 →
  shows b P g → ensures (clip_region b i g) (shows b (λ u, P u ∨ u = UClipRegion i)).
Proof.
  intros D Hi Hg. destruct (Z.eqb_spec (clip_region_loc b i) (-1)) as [E | E].
  - unfold clip_region. rewrite (proj2 (Z.eqb_eq _ _) E). apply ensures_ok. destruct Hg as [U S]. split; [done |].
    intros u [Pu | ->] A L; [by apply S | done].
  - intros g' E'. destruct (clip_region_value b i g E g' E') as (v0 & v1 & v2 & v3 & -> & Ev).
    pose proof (shows_uniform b D P (UClipRegion i) (glUniform4i (clip_region_loc b i) v0 v1 v2 v3) g ltac:(cbn; lia)
      ltac:(cbn [uniform_call]; by rewrite Ev) Hg) as Hs.
    unfold uniform in Hs. cbn [location] in Hs. by rewrite (proj2 (Z.eqb_neq _ _) E) in Hs.
Qed.

(** Before the clip regions: what is not marked is still there, unless the program changed. *)
Lemma use_program_shows st g p g1 : in_sync g → find_shader st g = (p, g1) →
  let g2 := emit (glUseProgram (gl_program (generate_shaders st))) (on_shaders (λ h, h <| shader_binding := Some p |>) g1) in
  let changed := bool_decide (Some p ≠ shader_binding (shaders (pg g))) in
  cache_ok (shaders (pg g2)) ∧ (∃ k, shader_cache (shaders (pg g2)) !! k = Some (st, p)) ∧
  shows (generate_shaders st) (λ u, changed = false ∧ unmarked (fixed_function st) g2 u) g2.
Proof.
  intros [C S] Ef. pose proof (find_shader_ok st g C) as F. rewrite Ef in F.
  destruct F as (C' & (k & Hk) & [l Pre] & El & c & b & Eg). split_and!; [done | by exists k |].
  split; [done |]. intros u [Ec Hu] A L. apply bool_decide_eq_false_1 in Ec. apply dec_stable in Ec.
  destruct (S p (eq_sym Ec)) as (k0 & st0 & Hk0 & [_ Sh]).
  assert (st0 = st) as ->.
  { pose proof (prefix_lookup_Some _ _ _ _ Hk0 (ex_intro _ l Pre)) as Hk1.
    destruct (C' _ _ _ Hk) as [-> _], (C' _ _ _ Hk1) as [Ek _]. apply Nat2Z.inj in Ek. subst k0. congruence. }
  subst g1. specialize (Sh u). cbn [emit set gl uniform_value uniform_call on_shaders].
  rewrite Sh; [| by destruct u | done | done]. reflexivity.
Qed.

Lemma bind_shaders_sync g g' : (∀ st, distinct_locations (generate_shaders st)) → in_sync g →
  pgraph_bind_shaders g = Ok g' →
  in_sync g' ∧ ∃ st p, shader_state g = Ok st ∧ shader_binding (shaders (pg g')) = Some p ∧
    shader_bindings (shaders (pg g')) !! p = Some (generate_shaders st) ∧
    shows (generate_shaders st) (relevant st) g'.
Proof.
  intros D I. unfold pgraph_bind_shaders. intros (st & Es & E)%bind_ok.
  destruct (find_shader st g) as [p g1] eqn:Ef.
  pose proof (use_program_shows st g p g1 I Ef) as (C2 & (k & Hk) & S2).
  destruct (C2 _ _ _ Hk) as [_ Hb]. cbn [emit set pg on_shaders shaders shader_bindings] in Hb.
  cbn [set pg on_shaders shaders shader_bindings] in E. rewrite Hb in E.
  set (b := generate_shaders st) in *. set (changed := bool_decide _) in *.
  set (g2 := emit (glUseProgram (gl_program b)) (on_shaders (λ h, h <| shader_binding := Some p |>) g1)) in *.
  apply bind_ok in E as (g3 & E3 & E).
  destruct (shader_state_facts g st Es) as [Ff Bn].
  assert (values g3 = values g2) as V3.
  { refine (kept_for_int values _ _ _ _ _ E3). intros. by apply (clip_region_kept values). }
  assert (pg g3 = pg g2 ∧ nv g3 = nv g2) as [P3 N3] by (by injection V3).
  assert (is_fixed_function g3 = fixed_function st) as F3.
  { rewrite Ff. unfold is_fixed_function, reg. rewrite N3.
    pose proof (find_shader_kept st g) as K. rewrite Ef in K. cbn [snd] in K.
    injection K as K. cbn [g2 emit on_shaders set nv]. by rewrite K. }
  apply Ok_inj in E. subst g'. rewrite F3.
  assert (shows b (λ u, (changed = false ∧ unmarked (fixed_function st) g3 u) ∨
    match u with UClipRegion i => relevant st u | _ => False end) g3) as S3.
  { pose proof (ensures_for_int_upto (λ i, shows b (λ u, (changed = false ∧ unmarked (fixed_function st) g3 u) ∨
      match u with UClipRegion j => j < i | _ => False end)) _ (clip_region b) g2 (proj1 Bn)) as W.
    unshelve refine (shows_weaken b _ _ g3 _ (W _ _ g3 E3)).
    - by intros [] Hu A; try done; cbn in *; naive_solver.
    - eapply shows_weaken; [| exact S2]. intros u [[? Hu] | Hu] A.
      + split; [done |]. unfold unmarked in *. by rewrite <- P3.
      + destruct u; try done. cbn in A. lia.
    - intros i h Hi Hh. apply (ensures_weaken _ _ _ (clip_region_shows b _ i h (D st) ltac:(lia) Hh)).
      intros h'. apply shows_weaken. intros u [Hu | Hu] A; [by left; left |]. destruct u; try done.
      destruct (decide (i0 = i)) as [-> |]; [by right | left; right; lia]. }
  pose proof (update_constants_shows b (D st) changed (is_vertex_program g3) st g3 S3) as S4.
  pose proof (update_constants_kept b (λ g, (shader_cache (shaders (pg g)), shader_bindings (shaders (pg g)),
    shader_binding (shaders (pg g)))) changed (is_vertex_program g3) (fixed_function st) g3
    ltac:(done) ltac:(done) ltac:(done)) as K4. cbv beta in K4. rewrite P3 in K4. injection K4 as K1 K2 K3.
  set (g4 := pgraph_shader_update_constants _ _ _ _ _) in *. clearbody g4.
  split.
  - split.
    + intros k' st' p' Hk'. rewrite K1 in Hk'. rewrite K2. by apply (C2 k').
    + intros p' Ep'. rewrite K3 in Ep'. injection Ep' as <-. exists k, st. split; [by rewrite K1 |].
      eapply shows_weaken; [| exact S4]. by intros [] Hu _; cbn in *; try done; intros; naive_solver.
  - exists st, p. split_and!; [done | by rewrite K3 | by rewrite K2 | done].
Qed.

(** What the program and the values of its uniforms are made of. *)
Definition inputs g :=
  (nv g, shape g, (texture_matrix_enable (textures (pg g)), bump_env_matrix (textures (pg g))),
   (constants (shaders (pg g)), program_data (shaders (pg g)), primitive_mode (shaders (pg g)))).

Lemma psh_state_nv g g' : nv g' = nv g → psh_state g' = psh_state g.
Proof. intros E. unfold psh_state, combiner_stages, rect_texture, clip_regions, reg. by rewrite E. Qed.

Lemma shader_state_inputs g g' : inputs g' = inputs g → shader_state g' = shader_state g.
Proof.
  unfold inputs. rewrite !pair_equal_spec. intros [[[En _] [Et _]] [[_ Ep] Em]].
  unfold shader_state, texgen_state, is_vertex_program, is_fixed_function, reg.
  by rewrite (psh_state_nv g g' En), En, Et, Ep, Em.
Qed.

Lemma expected_inputs g g' u : inputs g' = inputs g → expected g' u = expected g u.
Proof.
  unfold inputs, constants. rewrite !pair_equal_spec. intros [[[En Es] [Et Eb]] [[[[[[[[E1 E2] E3] E4] E5] E6] E7] _] _]].
  destruct u; cbn [expected]; first [by apply inv_viewport_frame | by apply clip_window_frame |
    unfold reg; rewrite ?En, ?Es, ?Eb, ?E1, ?E2, ?E3, ?E4, ?E5, ?E6, ?E7; reflexivity].
Qed.

Lemma inputs_beside g g' : beside_shaders g' = beside_shaders g → inputs g' = inputs g.
Proof.
  unfold beside_shaders, inputs, shape. rewrite !pair_equal_spec.
  intros [[[[[[[[[[[E1 _] _] _] E5] E6] E7] _] _] _] E11] [[E12 E13] E14]]. by rewrite E1, E5, E6, E12, E13, E14.
Qed.

(** The program in use is that of the state, and its uniforms have the values of the state. *)
Definition drawable g : Prop :=
  ∃ st p, shader_state g = Ok st ∧ shader_binding (shaders (pg g)) = Some p ∧
    shader_bindings (shaders (pg g)) !! p = Some (generate_shaders st) ∧
    shows (generate_shaders st) (relevant st) g.

Lemma bind_shaders_drawable g g' : (∀ st, distinct_locations (generate_shaders st)) → in_sync g →
  pgraph_bind_shaders g = Ok g' → in_sync g' ∧ drawable g'.
Proof.
  intros D I E. destruct (bind_shaders_sync g g' D I E) as [I' (st & p & Es & Hp)]. split; [done |].
  exists st, p. split; [| done]. rewrite <- Es. apply shader_state_inputs, inputs_beside, (bind_shaders_kept g g' E).
Qed.

Lemma shows_calls b P g g' : inputs g' = inputs g → program_calls (gl g') = program_calls (gl g) →
  shows b P g → shows b P g'.
Proof.
  intros Ei El [Us Sh]. split; [by rewrite <- in_use_calls, El, in_use_calls |].
  intros u Hu A L. rewrite (expected_inputs g g' u Ei), <- uniform_value_calls, El, uniform_value_calls. by apply Sh.
Qed.

Lemma drawable_frame g g' : inputs g' = inputs g → program_calls (gl g') = program_calls (gl g) →
  (shader_bindings (shaders (pg g')), shader_binding (shaders (pg g'))) =
  (shader_bindings (shaders (pg g)), shader_binding (shaders (pg g))) → drawable g → drawable g'.
Proof.
  intros Ei El. rewrite pair_equal_spec. intros [E1 E2] (st & p & Es & Ep & Eb & Sh). exists st, p.
  rewrite (shader_state_inputs g g' Ei), E1, E2. split_and!; [done.. |]. by apply (shows_calls _ _ g).
Qed.

End shader.

#[export] Hint Resolve bind_shaders_kept : kept.
