(* ===== verification/Vertex.v ===== *)
(** * Vertices

    The ways of src/hw/xbox/nv2a/nv2a_pgraph.c to submit vertices: attribute by attribute
    with methods ("inline buffer"), packed into one array ("inline array"), or from memory by
    index ("inline elements", "draw arrays").

    With the first way the vertices are collected per attribute, and an attribute that does
    not change between the vertices has no buffer.  The buffers are shown to hold, in effect,
    the sequence of the vertices as they were submitted. *)

From S2P Require Import Prelude Bytes Fields Swizzle Lru Nv2a PgraphRegs Gl PgraphState Surface.

Section vertex.
Context {V : Type} `{OpenGL} (vram_size : Z).
Implicit Types g : Gpu V.

(** ** Attributes *)

Definition get_attribute (i : Z) g : res VertexAttribute :=
  match vertex_attributes (batch (pg g)) !! Z.to_nat i with
  | Some a => Ok a
  | None => Fault out_of_bounds
  end.

Definition set_attribute (i : Z) (a : VertexAttribute) : Gpu V → Gpu V :=
  on_batch (λ b, b <| vertex_attributes := <[Z.to_nat i := a]> (vertex_attributes b) |>).

(** The buffer of an attribute that changes after the first vertex: the vertices before had
    the value it has now. *)
Definition pgraph_allocate_inline_buffer_vertices (attr : Z) g : res (Gpu V) :=
  a ← get_attribute attr g;
  let n := inline_buffer_length (batch (pg g)) in
  match inline_buffer a with
  | Some _ => Ok g
  | None =>
      if n =? 0 then Ok g
      else
        let buf := foldl (λ m i, <[i := inline_value a]> m) ∅ (seqZ 0 n) in
        Ok (set_attribute attr (a <| inline_buffer := Some buf |>) g)
  end.

Definition finish_attribute (n : Z) (a : VertexAttribute) : VertexAttribute :=
  match inline_buffer a with
  | Some buf => a <| inline_buffer := Some (<[n := inline_value a]> buf) |>
  | None => a
  end.

Definition pgraph_finish_inline_buffer_vertex g : res (Gpu V) :=
  let n := inline_buffer_length (batch (pg g)) in
  _ ← assert (n <? NV2A_MAX_BATCH_LENGTH);
  Ok (on_batch (λ b, b <| vertex_attributes := finish_attribute n <$> vertex_attributes b |>
                       <| inline_buffer_length := n + 1 |>) g).

(** A method that sets components of an attribute, and finishes the vertex if [last]. *)
Definition set_inline_value (attr : Z) (values : list (Z * Z)) (last : bool) g : res (Gpu V) :=
  g ← pgraph_allocate_inline_buffer_vertices attr g;
  a ← get_attribute attr g;
  let v := foldl (λ v kx, <[Z.to_nat kx.1 := kx.2]> v) (inline_value a) values in
  let g := set_attribute attr (a <| inline_value := v |>) g in
  if last then pgraph_finish_inline_buffer_vertex g else Ok g.

(** ** The vertices as arrays *)

(** The words of the first [n] vertices of a buffer; the ones past what was stored are not
    initialised. *)
Definition buffer_words (buf : gmap Z (list Z)) (n : Z) : res (list Z) :=
  for_each (seqZ 0 n) (λ i acc,
    match buf !! i with Some v => Ok (acc ++ v) | None => Fault undefined_behaviour end) [].

Definition bind_inline_buffer (i : Z) g : res (Gpu V) :=
  a ← get_attribute i g;
  match inline_buffer a with
  | Some buf =>
      let n := inline_buffer_length (batch (pg g)) in
      let g := emit (glBindBuffer GL_ARRAY_BUFFER (gl_inline_buffer a)) g in
      words ← buffer_words buf n;
      let g := emit (glBufferData GL_ARRAY_BUFFER (n * 4 * 4) words) g in
      let g := set_attribute i (a <| inline_buffer := None |>) g in
      Ok (emit (glEnableVertexAttribArray i)
            (emit (glVertexAttribPointer i (inr 4) GL_FLOAT false 0 0) g))
  | None => Ok (emit (glVertexAttrib4fv i (inline_value a)) (emit (glDisableVertexAttribArray i) g))
  end.

(** ** Vertex data in memory *)

(** Three signed components packed into 32 bits, as floats. *)
Definition unpack_cmp (p : Z) : list Z :=
  let sign_extend v bits := s32 (u32 (v .<< (32 - bits))) .>> (32 - bits) in
  [div_f (sign_extend ((p .>> 0) .& 0x7FF) 11) 1023;
   div_f (sign_extend ((p .>> 11) .& 0x7FF) 11) 1023;
   div_f (sign_extend ((p .>> 22) .& 0x3FF) 10) 511].

(** A word of the vertex data, in the inline array or in the video memory. *)
Definition vertex_word (inline : bool) (data offset : Z) g : res Z :=
  if inline then
    _ ← in_bounds ((data + offset) / 4 <? NV2A_MAX_BATCH_LENGTH);
    Ok (rd (inline_array (batch (pg g))) ((data + offset) / 4))
  else vram_ldl vram_size (nv g) (data + offset).

Definition convert_element (inline : bool) (data in_stride out_stride fmt : Z) g (j : Z) (buf : mem) : res mem :=
  if fmt =? NV097_SET_VERTEX_DATA_ARRAY_FORMAT_TYPE_CMP then
    p ← vertex_word inline data (u32 (j * in_stride)) g;
    Ok (wr_bytes buf (u32 (j * out_stride)) (concat (le_bytes 4 <$> unpack_cmp p)))
  else Fault assert_failed.

(** An attribute in a format that OpenGL does not have: the elements that were not converted
    before are converted. *)
Definition bind_converted (i : Z) (inline : bool) (data in_stride num_elements : Z) (a : VertexAttribute) g : res (Gpu V) :=
  let out_stride := u32 (converted_size a * converted_count a) in
  let first := converted_elements a in
  let buf := default ∅ (converted_buffer a) in
  buf ← for_each (seqZ first (num_elements - first)) (convert_element inline data in_stride out_stride (attr_format a) g) buf;
  let converted := if (converted_elements a <? num_elements) then Some buf else converted_buffer a in
  let g := emit (glBindBuffer GL_ARRAY_BUFFER (gl_converted_buffer a)) g in
  let '(a, g) :=
    if negb (num_elements =? converted_elements a) then
      (a <| converted_buffer := converted |> <| converted_elements := num_elements |>,
       emit (glBufferData GL_ARRAY_BUFFER (u32 (num_elements * out_stride))
               (rd_bytes buf 0 (u32 (num_elements * out_stride)))) g)
    else (a <| converted_buffer := converted |>, g) in
  let g := set_attribute i a g in
  Ok (emit (glVertexAttribPointer i (inr (converted_count a)) (gl_type a) (gl_normalize a) out_stride 0) g).

Definition bind_attribute (num_elements : Z) (inline_data : bool) (inline_stride i : Z) g : res (Gpu V) :=
  a ← get_attribute i g;
  if attr_count a =? 0 then
    Ok (emit (glVertexAttrib4fv i (inline_value a)) (emit (glDisableVertexAttribArray i) g))
  else
    '(data, in_stride) ← (if inline_data && needs_conversion a then Ok (inline_array_offset a, inline_stride)
      else
        '(base, dma_len) ← nv_dma_map vram_size (nv g)
          (if attr_dma_select a then dma_vertex_b (contexts (pg g)) else dma_vertex_a (contexts (pg g)));
        _ ← assert (attr_offset a <? dma_len);
        Ok (base + attr_offset a, attr_stride a));
    g ← (if needs_conversion a then bind_converted i inline_data data in_stride num_elements a g
         else if inline_data then
           let g := emit (glBindBuffer GL_ARRAY_BUFFER (gl_inline_array_buffer (batch (pg g)))) g in
           Ok (emit (glVertexAttribPointer i (gl_count a) (gl_type a) (gl_normalize a) inline_stride
                       (inline_array_offset a)) g)
         else
           g ← pgraph_update_memory_buffer vram_size data (u32 (num_elements * attr_stride a)) false g;
           Ok (emit (glVertexAttribPointer i (gl_count a) (gl_type a) (gl_normalize a) (attr_stride a) data) g));
    Ok (emit (glEnableVertexAttribArray i) g).

Definition pgraph_bind_vertex_attributes (num_elements : Z) (inline_data : bool) (inline_stride : Z) g : res (Gpu V) :=
  for_int NV2A_VERTEXSHADER_ATTRIBUTES (bind_attribute num_elements inline_data inline_stride) g.

(** The enabled attributes follow each other in a vertex of the inline array. *)
Definition place_attribute (i : Z) (og : Z * Gpu V) : res (Z * Gpu V) :=
  let '(offset, g) := og in
  a ← get_attribute i g;
  if attr_count a =? 0 then Ok (offset, g)
  else
    let g := set_attribute i (a <| inline_array_offset := offset |>) g in
    let offset := u32 (offset + attr_size a * attr_count a) in
    _ ← assert (offset mod 4 =? 0);
    Ok (offset, g).

Definition pgraph_bind_inline_array g : res (Z * Gpu V) :=
  '(vertex_size, g) ← for_int NV2A_VERTEXSHADER_ATTRIBUTES place_attribute (0, g);
  let b := batch (pg g) in
  _ ← (if vertex_size =? 0 then Fault undefined_behaviour else Ok ());
  let index_count := u32 (inline_array_length b * 4) / vertex_size in
  let g := emit (glBindBuffer GL_ARRAY_BUFFER (gl_inline_array_buffer b)) g in
  let g := emit (glBufferData GL_ARRAY_BUFFER (u32 (inline_array_length b * 4))
                   (concat (le_bytes 4 <$> rd_bytes (inline_array b) 0 (inline_array_length b)))) g in
  g ← pgraph_bind_vertex_attributes index_count true vertex_size g;
  Ok (index_count, g).

(** ** What the vertices leave alone *)

(** All but the batch, the dirty pages and the calls of OpenGL that do not concern programs. *)
Definition beside_vertices g :=
  (nv g, context_surfaces_2d (pg g), image_blit (pg g), contexts (pg g), surfaces (pg g), textures (pg g),
   shaders (pg g), report (pg g), waiting g, program_calls (gl g)).

Lemma set_inline_value_kept attr values last g : kept beside_vertices id g (set_inline_value attr values last g).
Proof.
  unfold set_inline_value, pgraph_allocate_inline_buffer_vertices, pgraph_finish_inline_buffer_vertex. keeps.
Qed.

Lemma bind_inline_buffer_kept i g : kept beside_vertices id g (bind_inline_buffer i g).
Proof. unfold bind_inline_buffer. keeps. Qed.

Lemma bind_attribute_kept n inline stride i g : kept beside_vertices id g (bind_attribute n inline stride i g).
Proof.
  unfold bind_attribute, bind_converted, pgraph_update_memory_buffer, test_and_clear_dirty. keeps.
Qed.

Lemma bind_vertex_attributes_kept n inline stride g :
  kept beside_vertices id g (pgraph_bind_vertex_attributes n inline stride g).
Proof. apply kept_for_int. intros. apply bind_attribute_kept. Qed.
#[local] Hint Resolve bind_vertex_attributes_kept : kept.

Lemma bind_inline_array_kept g : kept beside_vertices snd g (pgraph_bind_inline_array g).
Proof.
  unfold pgraph_bind_inline_array. apply (kept_bind beside_vertices snd snd g g).
  - unfold for_int. case_match; [done |]. generalize (seqZ 0 NV2A_VERTEXSHADER_ATTRIBUTES) as l.
    intros l. generalize 0 as o. revert g. induction l as [| i l IH]; intros g o; cbn [for_each]; [by apply kept_ok |].
    apply (kept_bind beside_vertices snd snd g g); [| reflexivity | intros [o' g'] E; exact (IH g' o')].
    unfold place_attribute. keeps.
  - reflexivity.
  - intros [o g1] E. cbn [snd]. keeps.
Qed.

(** ** The attributes of a batch

    No operation gives an attribute another buffer, or another number of components. *)

Definition attributes (b : Batch) : list (Z * nat) :=
  (λ a, (gl_inline_buffer a, length (inline_value a))) <$> vertex_attributes b.

(** Also of the batch, what the methods that give vertices leave alone. *)
Definition batch_frame (b : Batch) :=
  (attributes b, draw_arrays_length b, inline_array_length b, inline_elements_length b).

Lemma set_attribute_frame attr a a' g : get_attribute attr g = Ok a →
  (gl_inline_buffer a', length (inline_value a')) = (gl_inline_buffer a, length (inline_value a)) →
  batch_frame (batch (pg (set_attribute attr a' g))) = batch_frame (batch (pg g)).
Proof.
  unfold get_attribute. intros Ea Eb. case_match eqn:Hl; [| done]. injection Ea as ->.
  unfold batch_frame, attributes.
  cbn [set_attribute on_batch set pg batch vertex_attributes draw_arrays_length inline_array_length inline_elements_length].
  rewrite list_fmap_insert, Eb, list_insert_id by (by rewrite list_lookup_fmap, Hl). done.
Qed.

Lemma finish_attribute_shape n a : (gl_inline_buffer (finish_attribute n a), length (inline_value (finish_attribute n a))) =
  (gl_inline_buffer a, length (inline_value a)).
Proof. unfold finish_attribute. by destruct (inline_buffer a). Qed.

Lemma foldl_insert_length (values : list (Z * Z)) (v : list Z) :
  length (foldl (λ v kx, <[Z.to_nat kx.1 := kx.2]> v) v values) = length v.
Proof. revert v. induction values as [| kx values IH]; intros v; cbn; [done |]. by rewrite IH, length_insert. Qed.

Lemma set_inline_value_frame attr values last g :
  ensures (set_inline_value attr values last g) (λ g', batch_frame (batch (pg g')) = batch_frame (batch (pg g))).
Proof.
  intros g' (g1 & E1 & (a & Ea & E)%bind_ok)%bind_ok.
  assert (batch_frame (batch (pg g1)) = batch_frame (batch (pg g))) as F1.
  { apply bind_ok in E1 as (a0 & Ea0 & E1). cbv zeta in E1.
    destruct (inline_buffer a0); [| destruct (_ =? 0)]; apply Ok_inj in E1; subst g1; [done | done |].
    by apply (set_attribute_frame attr a0). }
  cbv zeta in E. set (a' := a <| inline_value := _ |>) in E.
  rewrite <- F1, <- (set_attribute_frame attr a a' g1) by (done || unfold a'; cbn; by rewrite foldl_insert_length).
  destruct last; [| by apply Ok_inj in E; subst g']. unfold pgraph_finish_inline_buffer_vertex in E.
  apply bind_ok in E as (? & _ & <-%Ok_inj). unfold batch_frame, attributes.
  cbn [on_batch set pg batch vertex_attributes draw_arrays_length inline_array_length inline_elements_length].
  rewrite <- list_fmap_compose. rewrite (list_fmap_ext (_ ∘ _) (λ a, (gl_inline_buffer a, length (inline_value a)))); [done |].
  intros i y _. apply finish_attribute_shape.
Qed.

(** Attributes have four components, and their buffers are different ones. *)
Definition attributes_ok (b : Batch) : Prop :=
  length (vertex_attributes b) = Z.to_nat NV2A_VERTEXSHADER_ATTRIBUTES ∧
  NoDup (gl_inline_buffer <$> vertex_attributes b) ∧
  Forall (λ a, length (inline_value a) = 4%nat) (vertex_attributes b).

Lemma attributes_buffers b b' : attributes b' = attributes b →
  gl_inline_buffer <$> vertex_attributes b' = gl_inline_buffer <$> vertex_attributes b.
Proof. intros E. apply (f_equal (fmap fst)) in E. unfold attributes in E. by rewrite <- !list_fmap_compose in E. Qed.

Lemma attributes_ok_same b b' : attributes b' = attributes b → attributes_ok b → attributes_ok b'.
Proof.
  intros E (A1 & A2 & A3). pose proof (attributes_buffers b b' E) as Eb. split_and!.
  - apply (f_equal length) in E. unfold attributes in E. rewrite !length_fmap in E. congruence.
  - by rewrite Eb.
  - assert (∀ b, Forall (λ a, length (inline_value a) = 4%nat) (vertex_attributes b) ↔ Forall (λ x, x.2 = 4%nat) (attributes b)) as Q
      by (intros ?; unfold attributes; by rewrite Forall_fmap).
    by rewrite Q, E, <- Q.
Qed.

Lemma kept_get {T A} (π : Gpu V → T) (out : A → Gpu V) i g (k : VertexAttribute → res A) :
  (∀ a, get_attribute i g = Ok a → kept π out g (k a)) → kept π out g (a ← get_attribute i g; k a).
Proof. intros K r (a & Ea & E)%bind_ok. exact (K a Ea r E). Qed.

Definition attribute_parts g := attributes (batch (pg g)).

Lemma set_attribute_parts attr a a' g g' : get_attribute attr g = Ok a → batch (pg g') = batch (pg g) →
  (gl_inline_buffer a', length (inline_value a')) = (gl_inline_buffer a, length (inline_value a)) →
  attribute_parts (set_attribute attr a' g') = attribute_parts g.
Proof.
  intros Ea Eb Es. assert (get_attribute attr g' = Ok a) as Ea' by (unfold get_attribute; by rewrite Eb).
  pose proof (set_attribute_frame attr a a' g' Ea' Es) as F. unfold batch_frame in F. rewrite !pair_equal_spec in F.
  unfold attribute_parts. rewrite <- Eb. apply F.
Qed.

Lemma bind_inline_buffer_parts i g : kept attribute_parts id g (bind_inline_buffer i g).
Proof.
  unfold bind_inline_buffer. apply kept_get. intros a Ea. case_match; [| by apply kept_ok].
  cbv zeta. apply kept_pure. intros w. apply kept_ok. by apply (set_attribute_parts i a).
Qed.

Lemma update_memory_parts addr size f g : kept attribute_parts id g (pgraph_update_memory_buffer vram_size addr size f g).
Proof. unfold pgraph_update_memory_buffer, test_and_clear_dirty. keeps. Qed.

Lemma bind_attribute_parts n inline stride i g : kept attribute_parts id g (bind_attribute n inline stride i g).
Proof.
  unfold bind_attribute. apply kept_get. intros a Ea. case_match; [by apply kept_ok |].
  apply kept_pure. intros [data st]. apply (kept_bind attribute_parts id id g g); [| done | intros g1 E; by apply kept_ok].
  case_match; [| case_match; [by apply kept_ok |]].
  - unfold bind_converted. apply kept_pure. intros buf. cbv zeta.
    destruct (negb _); apply kept_ok; by apply (set_attribute_parts i a).
  - apply (kept_bind attribute_parts id id g g); [apply update_memory_parts | done | intros g1 E; by apply kept_ok].
Qed.

Lemma bind_vertex_attributes_parts n inline stride g :
  kept attribute_parts id g (pgraph_bind_vertex_attributes n inline stride g).
Proof. apply kept_for_int. intros. apply bind_attribute_parts. Qed.

Lemma bind_inline_array_parts g : kept attribute_parts snd g (pgraph_bind_inline_array g).
Proof.
  unfold pgraph_bind_inline_array. apply (kept_bind attribute_parts snd snd g g).
  - unfold for_int. case_match; [done |]. generalize (seqZ 0 NV2A_VERTEXSHADER_ATTRIBUTES) as l.
    intros l. generalize 0 as o. revert g. induction l as [| i l IH]; intros g o; cbn [for_each]; [by apply kept_ok |].
    apply (kept_bind attribute_parts snd snd g g); [| reflexivity | intros [o' g'] E; exact (IH g' o')].
    unfold place_attribute. apply kept_get. intros a Ea. case_match; [by apply kept_ok |].
    apply kept_pure. intros ?. apply kept_ok. by apply (set_attribute_parts i a).
  - reflexivity.
  - intros [o g1] E. cbn [snd]. apply kept_pure. intros ?. cbv zeta.
    eapply (kept_bind attribute_parts snd id); [apply bind_vertex_attributes_parts | done | intros g2 E2; by apply kept_ok].
Qed.

(** ** The submitted vertices

    A vertex is the value of every attribute when it is finished.  The state of the batch
    stands for the current values [cur] and the vertices [vs] so far. *)

Definition stored (a : VertexAttribute) (k : nat) : option (list Z) :=
  match inline_buffer a with Some buf => buf !! Z.of_nat k | None => Some (inline_value a) end.

Definition vertices (b : Batch) (cur : list (list Z)) (vs : list (list (list Z))) : Prop :=
  inline_buffer_length b = Z.of_nat (length vs) ∧ cur = inline_value <$> vertex_attributes b ∧
  Forall (λ v, length v = length cur) vs ∧
  ∀ i a k v, vertex_attributes b !! i = Some a → vs !! k = Some v → v !! i = stored a k.

(** A method sets components of an attribute; the last one of a vertex finishes it. *)
Definition set_components (values : list (Z * Z)) (v : list Z) : list Z :=
  foldl (λ v kx, <[Z.to_nat kx.1 := kx.2]> v) v values.

Definition submit (attr : Z) (values : list (Z * Z)) (last : bool) (s : list (list Z) * list (list (list Z))) :=
  let '(cur, vs) := s in
  let cur := alter (set_components values) (Z.to_nat attr) cur in
  (cur, if last then vs ++ [cur] else vs).

Lemma fill_lookup {A} (x : A) (l : list Z) (m : gmap Z A) k : k ∈ l → foldl (λ m i, <[i := x]> m) m l !! k = Some x.
Proof.
  assert (∀ l (m : gmap Z A), m !! k = Some x → foldl (λ m i, <[i := x]> m) m l !! k = Some x) as Keep.
  { clear l m. intros l. induction l as [| i l IH]; intros m Hm; cbn; [done |]. apply IH.
    destruct (decide (i = k)) as [-> | N]; [apply lookup_insert_eq | by rewrite lookup_insert_ne]. }
  revert m. induction l as [| i l IH]; intros m; [by intros ?%not_elem_of_nil |].
  intros [-> | Hk]%elem_of_cons; cbn; [apply Keep, lookup_insert_eq | by apply IH].
Qed.

(** Changing one attribute. *)
Lemma vertices_set b cur vs i a a' : vertices b cur vs → vertex_attributes b !! i = Some a →
  (∀ k v, vs !! k = Some v → stored a' k = stored a k) →
  vertices (b <| vertex_attributes := <[i := a']> (vertex_attributes b) |>)
    (<[i := inline_value a']> cur) vs.
Proof.
  intros (L & -> & F & S) Ha St. split_and!; cbn [set inline_buffer_length vertex_attributes]; [done | | |].
  - by rewrite list_fmap_insert.
  - by rewrite length_insert.
  - intros j c k v Hj Hk. destruct (decide (i = j)) as [<- | N].
    + rewrite list_lookup_insert_eq in Hj by (by eapply lookup_lt_Some). injection Hj as <-.
      rewrite (St _ _ Hk). by eapply S.
    + rewrite list_lookup_insert_ne in Hj by done. by eapply S.
Qed.

Lemma allocate_vertices attr g cur vs a : vertices (batch (pg g)) cur vs → get_attribute attr g = Ok a →
  ∃ g' a', pgraph_allocate_inline_buffer_vertices attr g = Ok g' ∧ vertices (batch (pg g')) cur vs ∧
    get_attribute attr g' = Ok a' ∧ inline_value a' = inline_value a ∧ (vs = [] ∨ inline_buffer a' ≠ None).
Proof.
  intros Hv Ea. unfold pgraph_allocate_inline_buffer_vertices. rewrite Ea. cbn [mbind res_bind].
  destruct (inline_buffer a) as [buf |] eqn:Hb; [exists g, a; rewrite Hb; auto 6 |].
  pose proof Hv as (L & Ec & F & S). rewrite L. destruct vs as [| v0 vs0] eqn:Evs; [exists g, a; auto 6 |]. rewrite <- Evs in *.
  rewrite (proj2 (Z.eqb_neq _ 0)) by (subst vs; cbn; lia).
  unfold get_attribute in Ea. destruct (vertex_attributes (batch (pg g)) !! Z.to_nat attr) as [a1 |] eqn:Ha; [| done].
  injection Ea as ->. eexists _, _. split; [reflexivity |].
  match goal with |- context [set_attribute attr ?x g] => set (a' := x) end. split_and!.
  - assert (<[Z.to_nat attr := inline_value a']> cur = cur) as Ei
      by (apply list_insert_id; rewrite Ec, list_lookup_fmap, Ha; done).
    rewrite <- Ei. apply (vertices_set _ _ _ _ a); [done | done |].
    intros k v Hk. unfold stored, a'. cbn [set inline_buffer]. rewrite Hb. apply fill_lookup, elem_of_seqZ.
    apply lookup_lt_Some in Hk. lia.
  - unfold get_attribute. cbn [set_attribute on_batch set pg batch vertex_attributes].
    rewrite list_lookup_insert_eq by (by eapply lookup_lt_Some). done.
  - done.
  - by right.
Qed.

Lemma finish_vertex b cur vs : vertices b cur vs → vertices (b
    <| vertex_attributes := finish_attribute (inline_buffer_length b) <$> vertex_attributes b |>
    <| inline_buffer_length := inline_buffer_length b + 1 |>) cur (vs ++ [cur]).
Proof.
  intros (L & Ec & F & S). split_and!; cbn [set inline_buffer_length vertex_attributes].
  - rewrite length_app. cbn. lia.
  - rewrite Ec, <- list_fmap_compose. apply list_fmap_ext. intros i a _. cbn. unfold finish_attribute.
    by destruct (inline_buffer a).
  - apply Forall_app. auto.
  - intros i a k v Hi Hk. rewrite list_lookup_fmap in Hi.
    destruct (vertex_attributes b !! i) as [a0 |] eqn:Ha; [| done]. injection Hi as <-.
    apply lookup_snoc_Some in Hk as [[Lk Hk] | [-> <-]].
    + rewrite (S _ _ _ _ Ha Hk). unfold stored, finish_attribute. destruct (inline_buffer a0) as [buf |] eqn:Hb; cbn; [| by rewrite Hb].
      by rewrite lookup_insert_ne by lia.
    + rewrite Ec, list_lookup_fmap, Ha. unfold stored, finish_attribute.
      destruct (inline_buffer a0) as [buf |] eqn:Hb; cbn; [| by rewrite Hb]. by rewrite L, lookup_insert_eq.
Qed.

Lemma set_inline_value_submits attr values last g cur vs :
  vertices (batch (pg g)) cur vs → 0 ≤ attr < Z.of_nat (length cur) →
  let '(cur', vs') := submit attr values last (cur, vs) in
  if last && (NV2A_MAX_BATCH_LENGTH <=? Z.of_nat (length vs)) then set_inline_value attr values last g = Fault assert_failed
  else ∃ g', set_inline_value attr values last g = Ok g' ∧ vertices (batch (pg g')) cur' vs'.
Proof.
  intros Hv Hattr. unfold submit, set_inline_value.
  assert (∃ a, get_attribute attr g = Ok a) as [a Ea].
  { unfold get_attribute. destruct Hv as (_ & -> & _). rewrite length_fmap in Hattr.
    destruct (lookup_lt_is_Some_2 (vertex_attributes (batch (pg g))) (Z.to_nat attr)) as [a Ha]; [lia |].
    rewrite Ha. by eexists. }
  destruct (allocate_vertices _ _ _ _ _ Hv Ea) as (g1 & a1 & -> & Hv1 & Ea1 & Ev & Hb). cbn [mbind res_bind].
  rewrite Ea1. cbn [mbind res_bind]. fold (set_components values (inline_value a1)).
  unfold get_attribute in Ea1. destruct (vertex_attributes (batch (pg g1)) !! Z.to_nat attr) as [a2 |] eqn:Ha1; [| done].
  injection Ea1 as ->.
  pose proof (vertices_set _ _ _ _ a1 (a1 <| inline_value := set_components values (inline_value a1) |>) Hv1 Ha1) as Hv2.
  lapply Hv2; [clear Hv2; intros Hv2 | intros k v Hk; unfold stored; destruct Hb as [-> | Hb]; [done |]; cbn; by case_match].
  assert (alter (set_components values) (Z.to_nat attr) cur = <[Z.to_nat attr := set_components values (inline_value a1)]> cur) as ->.
  { pose proof Hv1 as (_ & Ec & _). apply list_eq. intros j. destruct (decide (Z.to_nat attr = j)) as [<- | N].
    - rewrite list_lookup_alter_eq, list_lookup_insert_eq by lia. by rewrite Ec, list_lookup_fmap, Ha1.
    - by rewrite list_lookup_alter_ne, list_lookup_insert_ne. }
  pose proof Hv2 as (L2 & _). cbn [set inline_buffer_length] in L2.
  destruct last; [| by eexists]. unfold pgraph_finish_inline_buffer_vertex. cbn [andb].
  cbn [set_attribute on_batch set pg batch inline_buffer_length]. rewrite L2.
  destruct (Z.leb_spec NV2A_MAX_BATCH_LENGTH (Z.of_nat (length vs))) as [M | M].
  - by rewrite (proj2 (Z.ltb_ge _ _) M).
  - rewrite (proj2 (Z.ltb_lt _ _) M). cbn [assert mbind res_bind]. eexists. split; [reflexivity |].
    rewrite <- L2. exact (finish_vertex _ _ _ Hv2).
Qed.

(** ** The vertices that OpenGL reads *)

(** The words of the first [n] vertices, when the buffer has them. *)
Lemma buffer_words_ok (buf : gmap Z (list Z)) (col : nat → list Z) n :
  (∀ k, (k < n)%nat → buf !! Z.of_nat k = Some (col k)) →
  buffer_words buf (Z.of_nat n) = Ok (concat (col <$> seq 0 n)).
Proof.
  intros Hb. unfold buffer_words.
  assert (∀ m j acc, (j + m ≤ n)%nat → for_each (seqZ (Z.of_nat j) (Z.of_nat m)) (λ i acc,
    match buf !! i with Some v => Ok (acc ++ v) | None => Fault undefined_behaviour end) acc =
    Ok (acc ++ concat (col <$> seq j m))) as L.
  { induction m as [| m IH]; intros j acc Hj; [by rewrite app_nil_r |]. rewrite seqZ_cons by lia. cbn [for_each].
    rewrite (Hb j) by lia. cbn [mbind res_bind]. replace (Z.succ (Z.of_nat j)) with (Z.of_nat (S j)) by lia.
    replace (Z.pred (Z.of_nat (S m))) with (Z.of_nat m) by lia. rewrite IH by lia. cbn. by rewrite app_assoc. }
  exact (L n 0%nat [] ltac:(lia)).
Qed.

Lemma concat_rows (col : nat → list Z) n k j : (∀ k, length (col k) = 4%nat) → (k < n)%nat →
  take 4 (drop (4 * k) (concat (col <$> seq j n))) = col (j + k)%nat.
Proof.
  intros H4. revert k j. induction n as [| n IH]; intros k j Hk; [lia |]. cbn [seq fmap list_fmap concat].
  destruct k as [| k].
  - rewrite Nat.mul_0_r, drop_0, Nat.add_0_r, take_app_le by (by rewrite H4). by rewrite take_ge by (by rewrite H4).
  - rewrite drop_app_ge by (rewrite H4; lia). rewrite H4. replace (4 * S k - 4)%nat with (4 * k)%nat by lia.
    change (col <$> seq (S j) n) with (col <$> seq (S j) n). rewrite IH by lia. f_equal. lia.
Qed.

(** OpenGL is set up to read the attribute. *)
Definition ready (log : list gl_call) (n : nat) (i : Z) (a : VertexAttribute) : Prop :=
  match inline_buffer a with
  | Some buf => array_enabled log i = true ∧
      attrib_pointer log i = Some (inr 4, GL_FLOAT, false, 0, 0, gl_inline_buffer a) ∧
      buffer_words buf (Z.of_nat n) = Ok (buffer_data log (gl_inline_buffer a))
  | None => array_enabled log i = false ∧ attrib_value log i = inline_value a
  end.

Lemma ready_fetch log n i a col : (∀ k, length (col k) = 4%nat) → ready log n i a →
  (∀ k, (k < n)%nat → stored a k = Some (col k)) → ∀ k, (k < n)%nat → fetch log k i = Some (col k).
Proof.
  intros H4 R St k Hk. unfold ready, stored, fetch in *. destruct (inline_buffer a) as [buf |].
  - destruct R as (-> & -> & W). rewrite (buffer_words_ok buf col n St) in W. injection W as W.
    rewrite bool_decide_eq_true_2 by done. by rewrite <- W, (concat_rows col n k 0).
  - destruct R as [-> ->]. by apply St.
Qed.

(** Setting up another attribute does not disturb it. *)
Lemma ready_other log n i a j a' data : i ≠ j → gl_inline_buffer a ≠ gl_inline_buffer a' → ready log n i a →
  ready (glEnableVertexAttribArray j :: glVertexAttribPointer j (inr 4) GL_FLOAT false 0 0
           :: glBufferData GL_ARRAY_BUFFER (Z.of_nat n * 4 * 4) data
           :: glBindBuffer GL_ARRAY_BUFFER (gl_inline_buffer a') :: log) n i a ∧
  ready (glVertexAttrib4fv j (inline_value a') :: glDisableVertexAttribArray j :: log) n i a.
Proof.
  intros N B. unfold ready. cbn [array_enabled attrib_pointer attrib_value buffer_data bound_buffer].
  rewrite !(proj2 (Z.eqb_neq j i)) by done. change (is_array_buffer GL_ARRAY_BUFFER) with true. cbn [andb].
  rewrite (proj2 (Z.eqb_neq (gl_inline_buffer a') (gl_inline_buffer a))) by done. by destruct (inline_buffer a).
Qed.

Lemma stored_words b cur vs i a buf : vertices b cur vs → vertex_attributes b !! i = Some a → inline_buffer a = Some buf →
  ∃ w, buffer_words buf (inline_buffer_length b) = Ok w.
Proof.
  intros (L & Ec & F & S) Ha Hb. rewrite L. eexists. apply (buffer_words_ok buf (λ k, default [] (stored a k))).
  intros k Hk. destruct (lookup_lt_is_Some_2 vs k Hk) as [v Hv].
  assert (is_Some (v !! i)) as [x Hx].
  { apply lookup_lt_is_Some_2. rewrite Forall_lookup in F. rewrite (F _ _ Hv), Ec, length_fmap. by eapply lookup_lt_Some. }
  rewrite (S _ _ _ _ Ha Hv) in Hx. rewrite Hx. unfold stored in Hx. by rewrite Hb in Hx.
Qed.

(** The loop over the attributes, in [g], has set up the first [n] of them. *)
Definition bound_upto g (count : nat) (n : Z) g1 : Prop :=
  let attrs := vertex_attributes (batch (pg g)) in
  batch (pg g1) = (batch (pg g)) <| vertex_attributes := vertex_attributes (batch (pg g1)) |> ∧
  length (vertex_attributes (batch (pg g1))) = length attrs ∧
  ∀ i a, attrs !! i = Some a →
    vertex_attributes (batch (pg g1)) !! i = Some (if Z.of_nat i <? n then a <| inline_buffer := None |> else a) ∧
    (Z.of_nat i < n → ready (gl g1) count (Z.of_nat i) a).

Lemma bind_inline_buffer_step g cur vs n g1 : vertices (batch (pg g)) cur vs →
  NoDup (gl_inline_buffer <$> vertex_attributes (batch (pg g))) →
  0 ≤ n < Z.of_nat (length (vertex_attributes (batch (pg g)))) → bound_upto g (length vs) n g1 →
  ∃ g2, bind_inline_buffer n g1 = Ok g2 ∧ bound_upto g (length vs) (n + 1) g2.
Proof.
  intros Hv ND Hn (Eb & El & H1). set (attrs := vertex_attributes (batch (pg g))) in *.
  destruct (lookup_lt_is_Some_2 attrs (Z.to_nat n)) as [a Ha]; [lia |].
  destruct (H1 _ _ Ha) as [Ha1 _]. rewrite Z2Nat.id, Z.ltb_irrefl in Ha1 by lia.
  unfold bind_inline_buffer, get_attribute. rewrite Ha1. cbn [mbind res_bind].
  assert (∀ i b, attrs !! i = Some b → Z.of_nat i < n → gl_inline_buffer b ≠ gl_inline_buffer a) as Nb.
  { intros i b Hi Li E. assert (i = Z.to_nat n); [| lia]. eapply NoDup_lookup; [exact ND | |];
      rewrite list_lookup_fmap; [by rewrite Hi | by rewrite Ha, E]. }
  assert (inline_buffer_length (batch (pg g1)) = Z.of_nat (length vs)) as Ln by (rewrite Eb; by destruct Hv).
  destruct (inline_buffer a) as [buf |] eqn:Hb.
  - destruct (stored_words _ _ _ _ _ _ Hv Ha Hb) as [w Hw]. pose proof Hv as (L & _).
    rewrite Ln, <- L, Hw. cbn [mbind res_bind]. eexists. split; [reflexivity |].
    split_and!; cbn [emit set_attribute on_batch set pg batch vertex_attributes gl].
    + by rewrite Eb.
    + by rewrite length_insert.
    + intros i b Hi. destruct (H1 _ _ Hi) as [E R]. destruct (decide (i = Z.to_nat n)) as [-> | N].
      * pose proof (eq_trans (eq_sym Ha) Hi) as Ea. injection Ea as <-. rewrite list_lookup_insert_eq by (rewrite El; by eapply lookup_lt_Some).
        rewrite Z2Nat.id, (proj2 (Z.ltb_lt n (n + 1))) by lia. split; [done |]. intros _. unfold ready. rewrite Hb.
        cbn [array_enabled attrib_pointer buffer_data bound_buffer]. rewrite !Z.eqb_refl.
        change (is_array_buffer GL_ARRAY_BUFFER) with true. cbn [andb]. by rewrite <- L.
      * rewrite list_lookup_insert_ne, E by done. replace (Z.of_nat i <? n + 1) with (Z.of_nat i <? n) by lia.
        split; [done |]. intros Li. rewrite L. apply (ready_other _ _ _ _ n a); [lia | apply (Nb i); [done | lia] | apply R; lia].
  - eexists. split; [reflexivity |]. split_and!; cbn [emit set pg batch vertex_attributes gl]; [done | done |].
    intros i b Hi. destruct (H1 _ _ Hi) as [E R]. destruct (decide (i = Z.to_nat n)) as [-> | N].
    + pose proof (eq_trans (eq_sym Ha) Hi) as Ea. injection Ea as <-. rewrite E, Z2Nat.id, Z.ltb_irrefl, (proj2 (Z.ltb_lt n (n + 1))) by lia.
      split; [f_equal; destruct a; cbn in Hb; by rewrite Hb |]. intros _. unfold ready. rewrite Hb.
      cbn [array_enabled attrib_value]. by rewrite !Z.eqb_refl.
    + replace (Z.of_nat i <? n + 1) with (Z.of_nat i <? n) by lia. split; [done |]. intros Li.
      apply (ready_other _ _ _ _ n a []); [lia | apply (Nb i); [done | lia] | apply R; lia].
Qed.

Lemma bind_inline_buffers g cur vs : vertices (batch (pg g)) cur vs →
  NoDup (gl_inline_buffer <$> vertex_attributes (batch (pg g))) →
  length (vertex_attributes (batch (pg g))) = Z.to_nat NV2A_VERTEXSHADER_ATTRIBUTES →
  ∃ g', for_int NV2A_VERTEXSHADER_ATTRIBUTES bind_inline_buffer g = Ok g' ∧
    batch (pg g') = (batch (pg g)) <| vertex_attributes := (λ a, a <| inline_buffer := None |>) <$> vertex_attributes (batch (pg g)) |> ∧
    ∀ i a, vertex_attributes (batch (pg g)) !! i = Some a → ready (gl g') (length vs) (Z.of_nat i) a.
Proof.
  intros Hv ND L. destruct (for_int_invariant (bound_upto g (length vs)) NV2A_VERTEXSHADER_ATTRIBUTES bind_inline_buffer g)
    as (g' & E & Eb & El & Hr).
  - by vm_compute.
  - split_and!; [by destruct g as [? [? ? ? ? ? ? [] ?]] | done |]. intros i a Hi.
    rewrite (proj2 (Z.ltb_ge _ _)) by lia. split; [done | lia].
  - intros i g1 Hi H1. apply (bind_inline_buffer_step g cur vs i g1 Hv ND); [rewrite L; lia | done].
  - exists g'. split; [done |]. split.
    + etransitivity; [exact Eb |]. enough (vertex_attributes (batch (pg g')) =
        (λ a, a <| inline_buffer := None |>) <$> vertex_attributes (batch (pg g))) as -> by done.
      apply list_eq. intros i. rewrite list_lookup_fmap.
      destruct (vertex_attributes (batch (pg g)) !! i) as [a |] eqn:Hi.
      * destruct (Hr _ _ Hi) as [-> _]. apply lookup_lt_Some in Hi. rewrite (proj2 (Z.ltb_lt _ _)) by lia. done.
      * apply lookup_ge_None_2. rewrite El. by apply lookup_ge_None_1.
    + intros i a Hi. apply (Hr _ _ Hi). apply lookup_lt_Some in Hi. lia.
Qed.

End vertex.

#[export] Hint Resolve set_inline_value_kept bind_inline_buffer_kept bind_vertex_attributes_kept bind_inline_array_kept : kept.
