(* ===== verification/Pgraph.v ===== *)
(** * The methods of PGRAPH

    [pgraph_method] of src/hw/xbox/nv2a/nv2a_pgraph.c, which executes the commands that the
    puller takes from the FIFO, for the four graphics classes it knows: patterns, 2D surfaces,
    image blits and the 3D engine.

    The big [switch] is a table of cases in the order of the source; a case has labels (one
    value, a range, or [CASE_4]) and the code behind them.  A method that blocks the thread
    returns what it waits for in [waiting]; nothing follows the wait in any of them. *)

From S2P Require Import Prelude Bytes Fields Swizzle Lru Nv2a PgraphRegs Gl PgraphState Surface Texture Shader Vertex.

(** ** Switches *)

Inductive label :=
| At (v : Z)
| Range (first last : Z)
| CASE_4 (v step : Z).

Definition covers (method : Z) (l : label) : bool :=
  match l with
  | At v => method =? v
  | Range first last => (first <=? method) && (method <=? last)
  | CASE_4 v step => (method =? v) || (method =? v + step) || (method =? v + step * 2) || (method =? v + step * 3)
  end.

(** ** Values of methods and of registers *)

(** A [switch] on the parameter that fails in its default case. *)
Fixpoint choose (cases : list (Z * Z)) (parameter : Z) : res Z :=
  match cases with
  | [] => Fault assert_failed
  | (v, x) :: cases => if parameter =? v then Ok x else choose cases parameter
  end.

Definition kelvin_map_stencil_op : Z → res Z := choose [
  (NV097_SET_STENCIL_OP_V_KEEP, NV_PGRAPH_CONTROL_2_STENCIL_OP_V_KEEP);
  (NV097_SET_STENCIL_OP_V_ZERO, NV_PGRAPH_CONTROL_2_STENCIL_OP_V_ZERO);
  (NV097_SET_STENCIL_OP_V_REPLACE, NV_PGRAPH_CONTROL_2_STENCIL_OP_V_REPLACE);
  (NV097_SET_STENCIL_OP_V_INCRSAT, NV_PGRAPH_CONTROL_2_STENCIL_OP_V_INCRSAT);
  (NV097_SET_STENCIL_OP_V_DECRSAT, NV_PGRAPH_CONTROL_2_STENCIL_OP_V_DECRSAT);
  (NV097_SET_STENCIL_OP_V_INVERT, NV_PGRAPH_CONTROL_2_STENCIL_OP_V_INVERT);
  (NV097_SET_STENCIL_OP_V_INCR, NV_PGRAPH_CONTROL_2_STENCIL_OP_V_INCR);
  (NV097_SET_STENCIL_OP_V_DECR, NV_PGRAPH_CONTROL_2_STENCIL_OP_V_DECR)].

Definition kelvin_map_polygon_mode : Z → res Z := choose [
  (NV097_SET_FRONT_POLYGON_MODE_V_POINT, NV_PGRAPH_SETUPRASTER_FRONTFACEMODE_POINT);
  (NV097_SET_FRONT_POLYGON_MODE_V_LINE, NV_PGRAPH_SETUPRASTER_FRONTFACEMODE_LINE);
  (NV097_SET_FRONT_POLYGON_MODE_V_FILL, NV_PGRAPH_SETUPRASTER_FRONTFACEMODE_FILL)].

Definition kelvin_map_texgen (parameter channel : Z) : res Z :=
  _ ← assert (channel <? 4);
  if parameter =? NV097_SET_TEXGEN_S_DISABLE then Ok NV_PGRAPH_CSV1_A_T0_S_DISABLE
  else if parameter =? NV097_SET_TEXGEN_S_EYE_LINEAR then Ok NV_PGRAPH_CSV1_A_T0_S_EYE_LINEAR
  else if parameter =? NV097_SET_TEXGEN_S_OBJECT_LINEAR then Ok NV_PGRAPH_CSV1_A_T0_S_OBJECT_LINEAR
  else if parameter =? NV097_SET_TEXGEN_S_SPHERE_MAP then
    _ ← assert (channel <? 2); Ok NV_PGRAPH_CSV1_A_T0_S_SPHERE_MAP
  else if parameter =? NV097_SET_TEXGEN_S_REFLECTION_MAP then
    _ ← assert (channel <? 3); Ok NV_PGRAPH_CSV1_A_T0_S_REFLECTION_MAP
  else if parameter =? NV097_SET_TEXGEN_S_NORMAL_MAP then
    _ ← assert (channel <? 3); Ok NV_PGRAPH_CSV1_A_T0_S_NORMAL_MAP
  else Fault assert_failed.

Definition fog_mode_map : Z → res Z := choose [
  (NV097_SET_FOG_MODE_V_LINEAR, NV_PGRAPH_CONTROL_3_FOG_MODE_LINEAR);
  (NV097_SET_FOG_MODE_V_EXP, NV_PGRAPH_CONTROL_3_FOG_MODE_EXP);
  (NV097_SET_FOG_MODE_V_EXP2, NV_PGRAPH_CONTROL_3_FOG_MODE_EXP2);
  (NV097_SET_FOG_MODE_V_EXP_ABS, NV_PGRAPH_CONTROL_3_FOG_MODE_EXP_ABS);
  (NV097_SET_FOG_MODE_V_EXP2_ABS, NV_PGRAPH_CONTROL_3_FOG_MODE_EXP2_ABS);
  (NV097_SET_FOG_MODE_V_LINEAR_ABS, NV_PGRAPH_CONTROL_3_FOG_MODE_LINEAR_ABS)].

Definition fog_gen_mode_map : Z → res Z := choose [
  (NV097_SET_FOG_GEN_MODE_V_SPEC_ALPHA, NV_PGRAPH_CSV0_D_FOGGENMODE_SPEC_ALPHA);
  (NV097_SET_FOG_GEN_MODE_V_RADIAL, NV_PGRAPH_CSV0_D_FOGGENMODE_RADIAL);
  (NV097_SET_FOG_GEN_MODE_V_PLANAR, NV_PGRAPH_CSV0_D_FOGGENMODE_PLANAR);
  (NV097_SET_FOG_GEN_MODE_V_ABS_PLANAR, NV_PGRAPH_CSV0_D_FOGGENMODE_ABS_PLANAR);
  (NV097_SET_FOG_GEN_MODE_V_FOG_X, NV_PGRAPH_CSV0_D_FOGGENMODE_FOG_X)].

Definition sfactor_map : Z → res Z := choose [
  (NV097_SET_BLEND_FUNC_SFACTOR_V_ZERO, NV_PGRAPH_BLEND_SFACTOR_ZERO);
  (NV097_SET_BLEND_FUNC_SFACTOR_V_ONE, NV_PGRAPH_BLEND_SFACTOR_ONE);
  (NV097_SET_BLEND_FUNC_SFACTOR_V_SRC_COLOR, NV_PGRAPH_BLEND_SFACTOR_SRC_COLOR);
  (NV097_SET_BLEND_FUNC_SFACTOR_V_ONE_MINUS_SRC_COLOR, NV_PGRAPH_BLEND_SFACTOR_ONE_MINUS_SRC_COLOR);
  (NV097_SET_BLEND_FUNC_SFACTOR_V_SRC_ALPHA, NV_PGRAPH_BLEND_SFACTOR_SRC_ALPHA);
  (NV097_SET_BLEND_FUNC_SFACTOR_V_ONE_MINUS_SRC_ALPHA, NV_PGRAPH_BLEND_SFACTOR_ONE_MINUS_SRC_ALPHA);
  (NV097_SET_BLEND_FUNC_SFACTOR_V_DST_ALPHA, NV_PGRAPH_BLEND_SFACTOR_DST_ALPHA);
  (NV097_SET_BLEND_FUNC_SFACTOR_V_ONE_MINUS_DST_ALPHA, NV_PGRAPH_BLEND_SFACTOR_ONE_MINUS_DST_ALPHA);
  (NV097_SET_BLEND_FUNC_SFACTOR_V_DST_COLOR, NV_PGRAPH_BLEND_SFACTOR_DST_COLOR);
  (NV097_SET_BLEND_FUNC_SFACTOR_V_ONE_MINUS_DST_COLOR, NV_PGRAPH_BLEND_SFACTOR_ONE_MINUS_DST_COLOR);
  (NV097_SET_BLEND_FUNC_SFACTOR_V_SRC_ALPHA_SATURATE, NV_PGRAPH_BLEND_SFACTOR_SRC_ALPHA_SATURATE);
  (NV097_SET_BLEND_FUNC_SFACTOR_V_CONSTANT_COLOR, NV_PGRAPH_BLEND_SFACTOR_CONSTANT_COLOR);
  (NV097_SET_BLEND_FUNC_SFACTOR_V_ONE_MINUS_CONSTANT_COLOR, NV_PGRAPH_BLEND_SFACTOR_ONE_MINUS_CONSTANT_COLOR);
  (NV097_SET_BLEND_FUNC_SFACTOR_V_CONSTANT_ALPHA, NV_PGRAPH_BLEND_SFACTOR_CONSTANT_ALPHA);
  (NV097_SET_BLEND_FUNC_SFACTOR_V_ONE_MINUS_CONSTANT_ALPHA, NV_PGRAPH_BLEND_SFACTOR_ONE_MINUS_CONSTANT_ALPHA)].

Definition dfactor_map : Z → res Z := choose [
  (NV097_SET_BLEND_FUNC_DFACTOR_V_ZERO, NV_PGRAPH_BLEND_DFACTOR_ZERO);
  (NV097_SET_BLEND_FUNC_DFACTOR_V_ONE, NV_PGRAPH_BLEND_DFACTOR_ONE);
  (NV097_SET_BLEND_FUNC_DFACTOR_V_SRC_COLOR, NV_PGRAPH_BLEND_DFACTOR_SRC_COLOR);
  (NV097_SET_BLEND_FUNC_DFACTOR_V_ONE_MINUS_SRC_COLOR, NV_PGRAPH_BLEND_DFACTOR_ONE_MINUS_SRC_COLOR);
  (NV097_SET_BLEND_FUNC_DFACTOR_V_SRC_ALPHA, NV_PGRAPH_BLEND_DFACTOR_SRC_ALPHA);
  (NV097_SET_BLEND_FUNC_DFACTOR_V_ONE_MINUS_SRC_ALPHA, NV_PGRAPH_BLEND_DFACTOR_ONE_MINUS_SRC_ALPHA);
  (NV097_SET_BLEND_FUNC_DFACTOR_V_DST_ALPHA, NV_PGRAPH_BLEND_DFACTOR_DST_ALPHA);
  (NV097_SET_BLEND_FUNC_DFACTOR_V_ONE_MINUS_DST_ALPHA, NV_PGRAPH_BLEND_DFACTOR_ONE_MINUS_DST_ALPHA);
  (NV097_SET_BLEND_FUNC_DFACTOR_V_DST_COLOR, NV_PGRAPH_BLEND_DFACTOR_DST_COLOR);
  (NV097_SET_BLEND_FUNC_DFACTOR_V_ONE_MINUS_DST_COLOR, NV_PGRAPH_BLEND_DFACTOR_ONE_MINUS_DST_COLOR);
  (NV097_SET_BLEND_FUNC_DFACTOR_V_SRC_ALPHA_SATURATE, NV_PGRAPH_BLEND_DFACTOR_SRC_ALPHA_SATURATE);
  (NV097_SET_BLEND_FUNC_DFACTOR_V_CONSTANT_COLOR, NV_PGRAPH_BLEND_DFACTOR_CONSTANT_COLOR);
  (NV097_SET_BLEND_FUNC_DFACTOR_V_ONE_MINUS_CONSTANT_COLOR, NV_PGRAPH_BLEND_DFACTOR_ONE_MINUS_CONSTANT_COLOR);
  (NV097_SET_BLEND_FUNC_DFACTOR_V_CONSTANT_ALPHA, NV_PGRAPH_BLEND_DFACTOR_CONSTANT_ALPHA);
  (NV097_SET_BLEND_FUNC_DFACTOR_V_ONE_MINUS_CONSTANT_ALPHA, NV_PGRAPH_BLEND_DFACTOR_ONE_MINUS_CONSTANT_ALPHA)].

Definition blend_equation_map : Z → res Z := choose [
  (NV097_SET_BLEND_EQUATION_V_FUNC_SUBTRACT, 0);
  (NV097_SET_BLEND_EQUATION_V_FUNC_REVERSE_SUBTRACT, 1);
  (NV097_SET_BLEND_EQUATION_V_FUNC_ADD, 2);
  (NV097_SET_BLEND_EQUATION_V_MIN, 3);
  (NV097_SET_BLEND_EQUATION_V_MAX, 4);
  (NV097_SET_BLEND_EQUATION_V_FUNC_REVERSE_SUBTRACT_SIGNED, 5);
  (NV097_SET_BLEND_EQUATION_V_FUNC_ADD_SIGNED, 6)].

Definition cull_face_map : Z → res Z := choose [
  (NV097_SET_CULL_FACE_V_FRONT, NV_PGRAPH_SETUPRASTER_CULLCTRL_FRONT);
  (NV097_SET_CULL_FACE_V_BACK, NV_PGRAPH_SETUPRASTER_CULLCTRL_BACK);
  (NV097_SET_CULL_FACE_V_FRONT_AND_BACK, NV_PGRAPH_SETUPRASTER_CULLCTRL_FRONT_AND_BACK)].

Definition front_face_map : Z → res Z := choose [
  (NV097_SET_FRONT_FACE_V_CW, 0); (NV097_SET_FRONT_FACE_V_CCW, 1)].

Definition blit_bytes_per_pixel : Z → res Z := choose [
  (NV062_SET_COLOR_FORMAT_LE_Y8, 1); (NV062_SET_COLOR_FORMAT_LE_R5G6B5, 2);
  (NV062_SET_COLOR_FORMAT_LE_A8R8G8B8, 4)].

(** ** Enumerators of OpenGL *)

Definition pgraph_blend_factor_map : list gl_enum := [
  GL_ZERO; GL_ONE; GL_SRC_COLOR; GL_ONE_MINUS_SRC_COLOR; GL_SRC_ALPHA; GL_ONE_MINUS_SRC_ALPHA;
  GL_DST_ALPHA; GL_ONE_MINUS_DST_ALPHA; GL_DST_COLOR; GL_ONE_MINUS_DST_COLOR;
  GL_SRC_ALPHA_SATURATE; GL_ZERO; GL_CONSTANT_COLOR; GL_ONE_MINUS_CONSTANT_COLOR;
  GL_CONSTANT_ALPHA; GL_ONE_MINUS_CONSTANT_ALPHA].

Definition pgraph_blend_equation_map : list gl_enum := [
  GL_FUNC_SUBTRACT; GL_FUNC_REVERSE_SUBTRACT; GL_FUNC_ADD; GL_MIN; GL_MAX;
  GL_FUNC_REVERSE_SUBTRACT; GL_FUNC_ADD].

Definition pgraph_cull_face_map : list gl_enum := [GL_ZERO; GL_FRONT; GL_BACK; GL_FRONT_AND_BACK].

Definition pgraph_depth_func_map : list gl_enum := [
  GL_NEVER; GL_LESS; GL_EQUAL; GL_LEQUAL; GL_GREATER; GL_NOTEQUAL; GL_GEQUAL; GL_ALWAYS].

Definition pgraph_stencil_func_map : list gl_enum := [
  GL_NEVER; GL_LESS; GL_EQUAL; GL_LEQUAL; GL_GREATER; GL_NOTEQUAL; GL_GEQUAL; GL_ALWAYS].

Definition pgraph_stencil_op_map : list gl_enum := [
  GL_ZERO; GL_KEEP; GL_ZERO; GL_REPLACE; GL_INCR; GL_DECR; GL_INVERT; GL_INCR_WRAP; GL_DECR_WRAP].

(** An entry of a table, which the code first checks to be there. *)
Definition entry (t : list gl_enum) (i : Z) : res gl_enum :=
  match t !! Z.to_nat i with Some x => Ok x | None => Fault assert_failed end.

Section pgraph.
Context {V : Type} `{OpenGL} (generate_shaders : ShaderState → ShaderBinding) (vram_size : Z).
Implicit Types g : Gpu V.

(** The code behind a label, given the method and its parameter. *)
Definition handler : Type := Z → Z → Gpu V → res (Gpu V).
Definition cases : Type := list (list label * handler).

Fixpoint find_case (cs : cases) (method : Z) : option handler :=
  match cs with
  | [] => None
  | (ls, h) :: cs => if existsb (covers method) ls then Some h else find_case cs method
  end.

(** A method without a case is ignored. *)
Definition switch (cs : cases) : handler := λ method parameter g,
  match find_case cs method with
  | Some h => h method parameter g
  | None => Ok g
  end.

(** ** Common kinds of cases *)

(** Store the parameter: in a register, in one of an array of registers, in a field. *)
Definition to_reg (r : Z) : handler := λ _ parameter g, Ok (set_reg r parameter g).

Definition to_regs (r first step : Z) : handler := λ method parameter g,
  let slot := (method - first) / step in Ok (set_reg (r + slot * 4) parameter g).

Definition to_field (r mask : Z) : handler := λ _ parameter g, Ok (set_mask r mask parameter g).

(** A field that gets a part of the parameter, or the value for it that a table has. *)
Definition to_field_of (r mask : Z) (f : Z → res Z) : handler := λ _ parameter g,
  v ← f parameter; Ok (set_mask r mask v g).

Definition set_masks (r : Z) (fields : list (Z * Z)) g : Gpu V :=
  foldl (λ g mv, set_mask r mv.1 mv.2 g) g fields.

Definition then_ (f : Z → Gpu V → Gpu V) : handler := λ _ parameter g, Ok (f parameter g).

(** The draws of before belong to the surface of before. *)
Definition flush_then (f : Z → Gpu V → Gpu V) : handler := λ _ parameter g,
  g ← pgraph_update_surface vram_size false true true g; Ok (f parameter g).

(** Constants of the shaders, in rows of four words. *)
Definition set_vsh_constant (row col v : Z) g : Gpu V :=
  on_shaders (λ s, s <| vsh_constants_dirty := vsh_constants_dirty s ∪ {[row]} |>)
    (g <| nv ::= λ d, d <| vsh_constants := wr (vsh_constants d) (4 * row + col) v |> |>).

Definition set_ltctxa (row col v : Z) : Gpu V → Gpu V :=
  on_shaders (λ s, s <| ltctxa := wr (ltctxa s) (4 * row + col) v |>
                     <| ltctxa_dirty := ltctxa_dirty s ∪ {[row]} |>).

Definition set_ltctxb (row col v : Z) : Gpu V → Gpu V :=
  on_shaders (λ s, s <| ltctxb := wr (ltctxb s) (4 * row + col) v |>
                     <| ltctxb_dirty := ltctxb_dirty s ∪ {[row]} |>).

Definition to_row (row first : Z) : handler := λ method parameter g,
  let slot := (method - first) / 4 in
  Ok (set_vsh_constant (row + slot / 4) (slot mod 4) parameter g).

(** Matrix [m] of several is at row [8 m]. *)
Definition to_matrices (row first : Z) : handler := λ method parameter g,
  let slot := (method - first) / 4 in
  let entry := slot mod 16 in
  Ok (set_vsh_constant (row + slot / 16 * 8 + entry / 4) (entry mod 4) parameter g).

Definition to_ltctxa (row first : Z) : handler := λ method parameter g,
  Ok (set_ltctxa row ((method - first) / 4) parameter g).

(** ** The 2D classes *)

Definition context_pattern : cases := [
  ([At NV044_SET_MONOCHROME_COLOR0], to_reg NV_PGRAPH_PATT_COLOR0)].

Definition on_surfaces_2d (f : Z → ContextSurfaces2DState → ContextSurfaces2DState) : handler :=
  then_ (λ p g, g <| pg ::= λ s, s <| context_surfaces_2d ::= f p |> |>).

Definition context_surfaces_2d_cases : cases := [
  ([At NV062_SET_OBJECT], on_surfaces_2d (λ p s, s <| s2d_object_instance := p |>));
  ([At NV062_SET_CONTEXT_DMA_IMAGE_SOURCE], on_surfaces_2d (λ p s, s <| dma_image_source := p |>));
  ([At NV062_SET_CONTEXT_DMA_IMAGE_DESTIN], on_surfaces_2d (λ p s, s <| dma_image_dest := p |>));
  ([At NV062_SET_COLOR_FORMAT], on_surfaces_2d (λ p s, s <| s2d_color_format := p |>));
  ([At NV062_SET_PITCH], on_surfaces_2d (λ p s,
     s <| source_pitch := p .& 0xFFFF |> <| dest_pitch := p .>> 16 |>));
  ([At NV062_SET_OFFSET_SOURCE], on_surfaces_2d (λ p s, s <| source_offset := p .& 0x07FFFFFF |>));
  ([At NV062_SET_OFFSET_DESTIN], on_surfaces_2d (λ p s, s <| dest_offset := p .& 0x07FFFFFF |>))].

Definition on_blit (f : Z → ImageBlitState → ImageBlitState) : handler :=
  then_ (λ p g, g <| pg ::= λ s, s <| image_blit ::= f p |> |>).

(** A row of the rectangle; source and destination may overlap. *)
Definition blit_row (b : ImageBlitState) (s : ContextSurfaces2DState) (bytes_per_pixel source dest y : Z) (m : mem) : res mem :=
  let source_row := source + u32 ((in_y b + y) * source_pitch s) + u32 (in_x b * bytes_per_pixel) in
  let dest_row := dest + u32 ((out_y b + y) * dest_pitch s) + u32 (out_x b * bytes_per_pixel) in
  let n := u32 (blit_width b * bytes_per_pixel) in
  _ ← vram_range vram_size source_row n;
  _ ← vram_range vram_size dest_row n;
  Ok (wr_bytes m dest_row (rd_bytes m source_row n)).

Definition blit g : res (Gpu V) :=
  let b := image_blit (pg g) in
  let s := context_surfaces_2d (pg g) in
  _ ← assert (operation b =? NV09F_SET_OPERATION_SRCCOPY);
  _ ← assert (s2d_object_instance s =? context_surfaces b);
  bytes_per_pixel ← blit_bytes_per_pixel (s2d_color_format s);
  '(source, source_dma_len) ← nv_dma_map vram_size (nv g) (dma_image_source s);
  _ ← assert (source_offset s <? source_dma_len);
  '(dest, dest_dma_len) ← nv_dma_map vram_size (nv g) (dma_image_dest s);
  _ ← assert (dest_offset s <? dest_dma_len);
  m ← for_int (blit_height b)
        (blit_row b s bytes_per_pixel (source + source_offset s) (dest + dest_offset s)) (vram (nv g));
  Ok (set_vram m g).

Definition image_blit_size : handler := λ _ parameter g,
  blit (g <| pg ::= λ s, s <| image_blit ::= λ b,
          b <| blit_width := parameter .& 0xFFFF |> <| blit_height := parameter .>> 16 |> |> |>).

Definition image_blit_cases : cases := [
  ([At NV09F_SET_OBJECT], on_blit (λ p b, b <| blit_object_instance := p |>));
  ([At NV09F_SET_CONTEXT_SURFACES], on_blit (λ p b, b <| context_surfaces := p |>));
  ([At NV09F_SET_OPERATION], on_blit (λ p b, b <| operation := p |>));
  ([At NV09F_CONTROL_POINT_IN], on_blit (λ p b, b <| in_x := p .& 0xFFFF |> <| in_y := p .>> 16 |>));
  ([At NV09F_CONTROL_POINT_OUT], on_blit (λ p b, b <| out_x := p .& 0xFFFF |> <| out_y := p .>> 16 |>));
  ([At NV09F_SIZE], image_blit_size)].

(** ** The 3D class: flow control, contexts and surfaces *)

(** A parameter other than 0 raises a notification, and waits for the guest to clear it. *)
Definition no_operation (subchannel : Z) : handler := λ method parameter g,
  if parameter =? 0 then Ok g
  else
    let chid := GET_MASK (reg g NV_PGRAPH_CTX_USER) NV_PGRAPH_CTX_USER_CHID in
    _ ← assert (negb (nz (pgraph_pending (nv g) .& NV_PGRAPH_INTR_ERROR)));
    let g := set_masks NV_PGRAPH_TRAPPED_ADDR [(NV_PGRAPH_TRAPPED_ADDR_CHID, chid);
               (NV_PGRAPH_TRAPPED_ADDR_SUBCH, subchannel); (NV_PGRAPH_TRAPPED_ADDR_MTHD, method)] g in
    let g := set_reg NV_PGRAPH_TRAPPED_DATA_LOW parameter g in
    let g := set_reg NV_PGRAPH_NSOURCE NV_PGRAPH_NSOURCE_NOTIFICATION g in
    let g := g <| nv ::= λ d, update_irq (d <| pgraph_pending := pgraph_pending d .| NV_PGRAPH_INTR_ERROR |>) |> in
    Ok (g <| waiting := AwaitNotify |>).

Definition flip_increment_write : handler := λ _ _ g,
  let s := reg g NV_PGRAPH_SURFACE in
  let modulo := GET_MASK s NV_PGRAPH_SURFACE_MODULO_3D in
  if modulo =? 0 then Fault undefined_behaviour
  else Ok (set_mask NV_PGRAPH_SURFACE NV_PGRAPH_SURFACE_WRITE_3D
             ((GET_MASK s NV_PGRAPH_SURFACE_WRITE_3D + 1) mod modulo) g).

(** The buffer to be shown is the one that is drawn to. *)
Definition flip_pending g : bool :=
  let s := reg g NV_PGRAPH_SURFACE in
  GET_MASK s NV_PGRAPH_SURFACE_READ_3D =? GET_MASK s NV_PGRAPH_SURFACE_WRITE_3D.

Definition flip_stall : handler := λ _ _ g,
  g ← pgraph_update_surface vram_size false true true g;
  Ok (if flip_pending g then g <| waiting := AwaitFlip |> else g).

Definition on_context (f : Z → Contexts → Contexts) : handler := then_ (λ p, on_contexts (f p)).

Definition kelvin_flow (subchannel : Z) : cases := [
  ([At NV097_SET_OBJECT], on_context (λ p c, c <| kelvin_object_instance := p |>));
  ([At NV097_NO_OPERATION], no_operation subchannel);
  ([At NV097_WAIT_FOR_IDLE], flush_then (λ _ g, g));
  ([At NV097_SET_FLIP_READ], to_field NV_PGRAPH_SURFACE NV_PGRAPH_SURFACE_READ_3D);
  ([At NV097_SET_FLIP_WRITE], to_field NV_PGRAPH_SURFACE NV_PGRAPH_SURFACE_WRITE_3D);
  ([At NV097_SET_FLIP_MODULO], to_field NV_PGRAPH_SURFACE NV_PGRAPH_SURFACE_MODULO_3D);
  ([At NV097_FLIP_INCREMENT_WRITE], flip_increment_write);
  ([At NV097_FLIP_STALL], flip_stall)].

Definition kelvin_contexts : cases := [
  ([At NV097_SET_CONTEXT_DMA_NOTIFIES], on_context (λ p c, c <| dma_notifies := p |>));
  ([At NV097_SET_CONTEXT_DMA_A], on_context (λ p c, c <| dma_a := p |>));
  ([At NV097_SET_CONTEXT_DMA_B], on_context (λ p c, c <| dma_b := p |>));
  ([At NV097_SET_CONTEXT_DMA_STATE], on_context (λ p c, c <| dma_state := p |>));
  ([At NV097_SET_CONTEXT_DMA_COLOR], flush_then (λ p, on_contexts (λ c, c <| dma_color := p |>)));
  ([At NV097_SET_CONTEXT_DMA_ZETA], on_context (λ p c, c <| dma_zeta := p |>));
  ([At NV097_SET_CONTEXT_DMA_VERTEX_A], on_context (λ p c, c <| dma_vertex_a := p |>));
  ([At NV097_SET_CONTEXT_DMA_VERTEX_B], on_context (λ p c, c <| dma_vertex_b := p |>));
  ([At NV097_SET_CONTEXT_DMA_SEMAPHORE], on_context (λ p c, c <| dma_semaphore := p |>));
  ([At NV097_SET_CONTEXT_DMA_REPORT], on_context (λ p c, c <| dma_report := p |>))].

Definition set_surface_format (p : Z) : Gpu V → Gpu V :=
  on_surfaces (λ s, s
    <| surface_shape ::= λ sh, sh
         <| color_format := GET_MASK p NV097_SET_SURFACE_FORMAT_COLOR |>
         <| zeta_format := GET_MASK p NV097_SET_SURFACE_FORMAT_ZETA |>
         <| anti_aliasing := GET_MASK p NV097_SET_SURFACE_FORMAT_ANTI_ALIASING |>
         <| log_width := GET_MASK p NV097_SET_SURFACE_FORMAT_WIDTH |>
         <| log_height := GET_MASK p NV097_SET_SURFACE_FORMAT_HEIGHT |> |>
    <| surface_type := GET_MASK p NV097_SET_SURFACE_FORMAT_TYPE |>).

Definition set_control0 (p : Z) g : Gpu V :=
  let g := set_mask NV_PGRAPH_CONTROL_0 NV_PGRAPH_CONTROL_0_STENCIL_WRITE_ENABLE
             (b2z (nz (p .& NV097_SET_CONTROL0_STENCIL_WRITE_ENABLE))) g in
  let g := set_mask NV_PGRAPH_SETUPRASTER NV_PGRAPH_SETUPRASTER_Z_FORMAT
             (GET_MASK p NV097_SET_CONTROL0_Z_FORMAT) g in
  set_mask NV_PGRAPH_CONTROL_0 NV_PGRAPH_CONTROL_0_Z_PERSPECTIVE_ENABLE
    (b2z (nz (p .& NV097_SET_CONTROL0_Z_PERSPECTIVE_ENABLE))) g.

Definition kelvin_surfaces : cases := [
  ([At NV097_SET_SURFACE_CLIP_HORIZONTAL], flush_then (λ p, on_shape (λ s,
     s <| clip_x := GET_MASK p NV097_SET_SURFACE_CLIP_HORIZONTAL_X |>
       <| clip_width := GET_MASK p NV097_SET_SURFACE_CLIP_HORIZONTAL_WIDTH |>)));
  ([At NV097_SET_SURFACE_CLIP_VERTICAL], flush_then (λ p, on_shape (λ s,
     s <| clip_y := GET_MASK p NV097_SET_SURFACE_CLIP_VERTICAL_Y |>
       <| clip_height := GET_MASK p NV097_SET_SURFACE_CLIP_VERTICAL_HEIGHT |>)));
  ([At NV097_SET_SURFACE_FORMAT], flush_then set_surface_format);
  ([At NV097_SET_SURFACE_PITCH], flush_then (λ p g,
     on_zeta (λ s, s <| surface_pitch := GET_MASK p NV097_SET_SURFACE_PITCH_ZETA |> <| buffer_dirty := true |>)
       (on_color (λ s, s <| surface_pitch := GET_MASK p NV097_SET_SURFACE_PITCH_COLOR |>
                         <| buffer_dirty := true |>) g)));
  ([At NV097_SET_SURFACE_COLOR_OFFSET], flush_then (λ p, on_color (λ s,
     s <| surface_offset := p |> <| buffer_dirty := true |>)));
  ([At NV097_SET_SURFACE_ZETA_OFFSET], flush_then (λ p, on_zeta (λ s,
     s <| surface_offset := p |> <| buffer_dirty := true |>)));
  ([Range NV097_SET_COMBINER_ALPHA_ICW (NV097_SET_COMBINER_ALPHA_ICW + 28)],
     to_regs NV_PGRAPH_COMBINEALPHAI0 NV097_SET_COMBINER_ALPHA_ICW 4);
  ([At NV097_SET_COMBINER_SPECULAR_FOG_CW0], to_reg NV_PGRAPH_COMBINESPECFOG0);
  ([At NV097_SET_COMBINER_SPECULAR_FOG_CW1], to_reg NV_PGRAPH_COMBINESPECFOG1);
  ([CASE_4 NV097_SET_TEXTURE_ADDRESS 64], to_regs NV_PGRAPH_TEXADDRESS0 NV097_SET_TEXTURE_ADDRESS 64);
  ([At NV097_SET_CONTROL0], flush_then set_control0)].

(** ** Fog, blending and tests *)

Definition set_fog_color (p : Z) : Gpu V → Gpu V := set_masks NV_PGRAPH_FOGCOLOR [
  (NV_PGRAPH_FOGCOLOR_RED, u8 (GET_MASK p NV097_SET_FOG_COLOR_RED));
  (NV_PGRAPH_FOGCOLOR_GREEN, u8 (GET_MASK p NV097_SET_FOG_COLOR_GREEN));
  (NV_PGRAPH_FOGCOLOR_BLUE, u8 (GET_MASK p NV097_SET_FOG_COLOR_BLUE));
  (NV_PGRAPH_FOGCOLOR_ALPHA, u8 (GET_MASK p NV097_SET_FOG_COLOR_ALPHA))].

Definition set_color_material (p : Z) : Gpu V → Gpu V := set_masks NV_PGRAPH_CSV0_C [
  (NV_PGRAPH_CSV0_C_EMISSION, (p .>> 0) .& 3); (NV_PGRAPH_CSV0_C_AMBIENT, (p .>> 2) .& 3);
  (NV_PGRAPH_CSV0_C_DIFFUSE, (p .>> 4) .& 3); (NV_PGRAPH_CSV0_C_SPECULAR, (p .>> 6) .& 3)].

Definition kelvin_fog : cases := [
  ([At NV097_SET_COLOR_MATERIAL], then_ set_color_material);
  ([At NV097_SET_FOG_MODE], to_field_of NV_PGRAPH_CONTROL_3 NV_PGRAPH_CONTROL_3_FOG_MODE fog_mode_map);
  ([At NV097_SET_FOG_GEN_MODE], to_field_of NV_PGRAPH_CSV0_D NV_PGRAPH_CSV0_D_FOGGENMODE fog_gen_mode_map);
  ([At NV097_SET_FOG_ENABLE], to_field NV_PGRAPH_CONTROL_3 NV_PGRAPH_CONTROL_3_FOGENABLE);
  ([At NV097_SET_FOG_COLOR], then_ set_fog_color);
  ([At NV097_SET_WINDOW_CLIP_TYPE], to_field NV_PGRAPH_SETUPRASTER NV_PGRAPH_SETUPRASTER_WINDOWCLIPTYPE);
  ([Range NV097_SET_WINDOW_CLIP_HORIZONTAL (NV097_SET_WINDOW_CLIP_HORIZONTAL + 0x1c)],
     to_regs NV_PGRAPH_WINDOWCLIPX0 NV097_SET_WINDOW_CLIP_HORIZONTAL 4);
  ([Range NV097_SET_WINDOW_CLIP_VERTICAL (NV097_SET_WINDOW_CLIP_VERTICAL + 0x1c)],
     to_regs NV_PGRAPH_WINDOWCLIPY0 NV097_SET_WINDOW_CLIP_VERTICAL 4);
  ([At NV097_SET_ALPHA_TEST_ENABLE], to_field NV_PGRAPH_CONTROL_0 NV_PGRAPH_CONTROL_0_ALPHATESTENABLE);
  ([At NV097_SET_BLEND_ENABLE], to_field NV_PGRAPH_BLEND NV_PGRAPH_BLEND_EN);
  ([At NV097_SET_CULL_FACE_ENABLE], to_field NV_PGRAPH_SETUPRASTER NV_PGRAPH_SETUPRASTER_CULLENABLE);
  ([At NV097_SET_DEPTH_TEST_ENABLE], to_field NV_PGRAPH_CONTROL_0 NV_PGRAPH_CONTROL_0_ZENABLE);
  ([At NV097_SET_DITHER_ENABLE], to_field NV_PGRAPH_CONTROL_0 NV_PGRAPH_CONTROL_0_DITHERENABLE);
  ([At NV097_SET_LIGHTING_ENABLE], to_field NV_PGRAPH_CSV0_C NV_PGRAPH_CSV0_C_LIGHTING);
  ([At NV097_SET_SKIN_MODE], to_field NV_PGRAPH_CSV0_D NV_PGRAPH_CSV0_D_SKIN);
  ([At NV097_SET_STENCIL_TEST_ENABLE], to_field NV_PGRAPH_CONTROL_1 NV_PGRAPH_CONTROL_1_STENCIL_TEST_ENABLE);
  ([At NV097_SET_POLY_OFFSET_POINT_ENABLE], to_field NV_PGRAPH_SETUPRASTER NV_PGRAPH_SETUPRASTER_POFFSETPOINTENABLE);
  ([At NV097_SET_POLY_OFFSET_LINE_ENABLE], to_field NV_PGRAPH_SETUPRASTER NV_PGRAPH_SETUPRASTER_POFFSETLINEENABLE);
  ([At NV097_SET_POLY_OFFSET_FILL_ENABLE], to_field NV_PGRAPH_SETUPRASTER NV_PGRAPH_SETUPRASTER_POFFSETFILLENABLE);
  ([At NV097_SET_ALPHA_FUNC], to_field_of NV_PGRAPH_CONTROL_0 NV_PGRAPH_CONTROL_0_ALPHAFUNC (λ p, Ok (p .& 0xF)));
  ([At NV097_SET_ALPHA_REF], to_field NV_PGRAPH_CONTROL_0 NV_PGRAPH_CONTROL_0_ALPHAREF)].

Definition kelvin_blend : cases := [
  ([At NV097_SET_BLEND_FUNC_SFACTOR], to_field_of NV_PGRAPH_BLEND NV_PGRAPH_BLEND_SFACTOR sfactor_map);
  ([At NV097_SET_BLEND_FUNC_DFACTOR], to_field_of NV_PGRAPH_BLEND NV_PGRAPH_BLEND_DFACTOR dfactor_map);
  ([At NV097_SET_BLEND_COLOR], to_reg NV_PGRAPH_BLENDCOLOR);
  ([At NV097_SET_BLEND_EQUATION], to_field_of NV_PGRAPH_BLEND NV_PGRAPH_BLEND_EQN blend_equation_map)].

(** Whether the surface was written to is kept before the writes may be disabled. *)
Definition set_color_mask (p : Z) g : Gpu V :=
  let g := on_color (λ s, s <| write_enabled_cache := write_enabled_cache s || pgraph_color_write_enabled g |>) g in
  set_masks NV_PGRAPH_CONTROL_0 [
    (NV_PGRAPH_CONTROL_0_ALPHA_WRITE_ENABLE, b2z (nz (p .& NV097_SET_COLOR_MASK_ALPHA_WRITE_ENABLE)));
    (NV_PGRAPH_CONTROL_0_RED_WRITE_ENABLE, b2z (nz (p .& NV097_SET_COLOR_MASK_RED_WRITE_ENABLE)));
    (NV_PGRAPH_CONTROL_0_GREEN_WRITE_ENABLE, b2z (nz (p .& NV097_SET_COLOR_MASK_GREEN_WRITE_ENABLE)));
    (NV_PGRAPH_CONTROL_0_BLUE_WRITE_ENABLE, b2z (nz (p .& NV097_SET_COLOR_MASK_BLUE_WRITE_ENABLE)))] g.

Definition set_depth_mask (p : Z) g : Gpu V :=
  let g := on_zeta (λ s, s <| write_enabled_cache := write_enabled_cache s || pgraph_zeta_write_enabled g |>) g in
  set_mask NV_PGRAPH_CONTROL_0 NV_PGRAPH_CONTROL_0_ZWRITEENABLE p g.

Definition kelvin_tests : cases := [
  ([At NV097_SET_DEPTH_FUNC], to_field_of NV_PGRAPH_CONTROL_0 NV_PGRAPH_CONTROL_0_ZFUNC (λ p, Ok (p .& 0xF)));
  ([At NV097_SET_COLOR_MASK], then_ set_color_mask);
  ([At NV097_SET_DEPTH_MASK], then_ set_depth_mask);
  ([At NV097_SET_STENCIL_MASK], to_field NV_PGRAPH_CONTROL_1 NV_PGRAPH_CONTROL_1_STENCIL_MASK_WRITE);
  ([At NV097_SET_STENCIL_FUNC], to_field_of NV_PGRAPH_CONTROL_1 NV_PGRAPH_CONTROL_1_STENCIL_FUNC (λ p, Ok (p .& 0xF)));
  ([At NV097_SET_STENCIL_FUNC_REF], to_field NV_PGRAPH_CONTROL_1 NV_PGRAPH_CONTROL_1_STENCIL_REF);
  ([At NV097_SET_STENCIL_FUNC_MASK], to_field NV_PGRAPH_CONTROL_1 NV_PGRAPH_CONTROL_1_STENCIL_MASK_READ);
  ([At NV097_SET_STENCIL_OP_FAIL], to_field_of NV_PGRAPH_CONTROL_2 NV_PGRAPH_CONTROL_2_STENCIL_OP_FAIL kelvin_map_stencil_op);
  ([At NV097_SET_STENCIL_OP_ZFAIL], to_field_of NV_PGRAPH_CONTROL_2 NV_PGRAPH_CONTROL_2_STENCIL_OP_ZFAIL kelvin_map_stencil_op);
  ([At NV097_SET_STENCIL_OP_ZPASS], to_field_of NV_PGRAPH_CONTROL_2 NV_PGRAPH_CONTROL_2_STENCIL_OP_ZPASS kelvin_map_stencil_op);
  ([At NV097_SET_POLYGON_OFFSET_SCALE_FACTOR], to_reg NV_PGRAPH_ZOFFSETFACTOR);
  ([At NV097_SET_POLYGON_OFFSET_BIAS], to_reg NV_PGRAPH_ZOFFSETBIAS);
  ([At NV097_SET_FRONT_POLYGON_MODE], to_field_of NV_PGRAPH_SETUPRASTER NV_PGRAPH_SETUPRASTER_FRONTFACEMODE kelvin_map_polygon_mode);
  ([At NV097_SET_BACK_POLYGON_MODE], to_field_of NV_PGRAPH_SETUPRASTER NV_PGRAPH_SETUPRASTER_BACKFACEMODE kelvin_map_polygon_mode);
  ([At NV097_SET_CLIP_MIN], to_reg NV_PGRAPH_ZCLIPMIN);
  ([At NV097_SET_CLIP_MAX], to_reg NV_PGRAPH_ZCLIPMAX);
  ([At NV097_SET_CULL_FACE], to_field_of NV_PGRAPH_SETUPRASTER NV_PGRAPH_SETUPRASTER_CULLCTRL cull_face_map);
  ([At NV097_SET_FRONT_FACE], to_field_of NV_PGRAPH_SETUPRASTER NV_PGRAPH_SETUPRASTER_FRONTFACE front_face_map);
  ([At NV097_SET_NORMALIZATION_ENABLE], to_field NV_PGRAPH_CSV0_C NV_PGRAPH_CSV0_C_NORMALIZATION_ENABLE);
  ([Range NV097_SET_MATERIAL_EMISSION (NV097_SET_MATERIAL_EMISSION + 8)],
     to_ltctxa NV_IGRAPH_XF_LTCTXA_CM_COL NV097_SET_MATERIAL_EMISSION);
  ([At NV097_SET_LIGHT_ENABLE_MASK], to_field NV_PGRAPH_CSV0_D NV_PGRAPH_CSV0_D_LIGHTS)].

(** ** Texture coordinates, matrices and programs *)

Definition set_texgen (first channel : Z) : handler := λ method parameter g,
  let slot := (method - first) / 16 in
  let r := if slot <? 2 then NV_PGRAPH_CSV1_A else NV_PGRAPH_CSV1_B in
  match NV_PGRAPH_CSV1_masks (nz (slot mod 2)) !! Z.to_nat channel with
  | Some mask => to_field_of r mask (λ p, kelvin_map_texgen p channel) method parameter g
  | None => Fault assert_failed
  end.

Definition set_fog_params : handler := λ method parameter g,
  let slot := (method - NV097_SET_FOG_PARAMS) / 4 in
  let g := if slot <? 2 then set_reg (NV_PGRAPH_FOGPARAM0 + slot * 4) parameter g else g in
  Ok (set_ltctxa NV_IGRAPH_XF_LTCTXA_FOG_K slot parameter g).

Definition set_texture_matrix_enable : handler := λ method parameter g,
  let slot := (method - NV097_SET_TEXTURE_MATRIX_ENABLE) / 4 in
  Ok (on_textures (λ t, t <| texture_matrix_enable :=
        if nz parameter then texture_matrix_enable t ∪ {[slot]} else texture_matrix_enable t ∖ {[slot]} |>) g).

Definition kelvin_matrices : cases := [
  ([CASE_4 NV097_SET_TEXGEN_S 16], set_texgen NV097_SET_TEXGEN_S 0);
  ([CASE_4 NV097_SET_TEXGEN_T 16], set_texgen NV097_SET_TEXGEN_T 1);
  ([CASE_4 NV097_SET_TEXGEN_R 16], set_texgen NV097_SET_TEXGEN_R 2);
  ([CASE_4 NV097_SET_TEXGEN_Q 16], set_texgen NV097_SET_TEXGEN_Q 3);
  ([CASE_4 NV097_SET_TEXTURE_MATRIX_ENABLE 4], set_texture_matrix_enable);
  ([Range NV097_SET_PROJECTION_MATRIX (NV097_SET_PROJECTION_MATRIX + 0x3c)],
     to_row NV_IGRAPH_XF_XFCTX_PMAT0 NV097_SET_PROJECTION_MATRIX);
  ([Range NV097_SET_MODEL_VIEW_MATRIX (NV097_SET_MODEL_VIEW_MATRIX + 0xfc)],
     to_matrices NV_IGRAPH_XF_XFCTX_MMAT0 NV097_SET_MODEL_VIEW_MATRIX);
  ([Range NV097_SET_INVERSE_MODEL_VIEW_MATRIX (NV097_SET_INVERSE_MODEL_VIEW_MATRIX + 0xfc)],
     to_matrices NV_IGRAPH_XF_XFCTX_IMMAT0 NV097_SET_INVERSE_MODEL_VIEW_MATRIX);
  ([Range NV097_SET_COMPOSITE_MATRIX (NV097_SET_COMPOSITE_MATRIX + 0x3c)],
     to_row NV_IGRAPH_XF_XFCTX_CMAT0 NV097_SET_COMPOSITE_MATRIX);
  ([Range NV097_SET_TEXTURE_MATRIX (NV097_SET_TEXTURE_MATRIX + 0xfc)],
     to_matrices NV_IGRAPH_XF_XFCTX_T0MAT NV097_SET_TEXTURE_MATRIX);
  ([Range NV097_SET_FOG_PARAMS (NV097_SET_FOG_PARAMS + 8)], set_fog_params);
  ([Range NV097_SET_TEXGEN_PLANE_S (NV097_SET_TEXGEN_PLANE_S + 0xfc)],
     to_matrices NV_IGRAPH_XF_XFCTX_TG0MAT NV097_SET_TEXGEN_PLANE_S);
  ([At NV097_SET_TEXGEN_VIEW_MODEL], to_field NV_PGRAPH_CSV0_D NV_PGRAPH_CSV0_D_TEXGEN_REF);
  ([Range NV097_SET_FOG_PLANE (NV097_SET_FOG_PLANE + 12)], to_row NV_IGRAPH_XF_XFCTX_FOG NV097_SET_FOG_PLANE);
  ([Range NV097_SET_SCENE_AMBIENT_COLOR (NV097_SET_SCENE_AMBIENT_COLOR + 8)],
     to_ltctxa NV_IGRAPH_XF_LTCTXA_FR_AMB NV097_SET_SCENE_AMBIENT_COLOR);
  ([Range NV097_SET_VIEWPORT_OFFSET (NV097_SET_VIEWPORT_OFFSET + 12)],
     to_row NV_IGRAPH_XF_XFCTX_VPOFF NV097_SET_VIEWPORT_OFFSET);
  ([Range NV097_SET_EYE_POSITION (NV097_SET_EYE_POSITION + 12)],
     to_row NV_IGRAPH_XF_XFCTX_EYEP NV097_SET_EYE_POSITION)].

(** A word of the program or of the constants; the last one of a row moves the pointer on. *)
Definition set_transform_program : handler := λ method parameter g,
  let slot := (method - NV097_SET_TRANSFORM_PROGRAM) / 4 in
  let program_load := GET_MASK (reg g NV_PGRAPH_CHEOPS_OFFSET) NV_PGRAPH_CHEOPS_OFFSET_PROG_LD_PTR in
  _ ← assert (program_load <? NV2A_MAX_TRANSFORM_PROGRAM_LENGTH);
  let g := on_shaders (λ s, s <| program_data :=
             wr (program_data s) (VSH_TOKEN_SIZE * program_load + slot mod 4) parameter |>) g in
  Ok (if slot mod 4 =? 3 then
        set_mask NV_PGRAPH_CHEOPS_OFFSET NV_PGRAPH_CHEOPS_OFFSET_PROG_LD_PTR (program_load + 1) g
      else g).

Definition set_transform_constant : handler := λ method parameter g,
  let slot := (method - NV097_SET_TRANSFORM_CONSTANT) / 4 in
  let const_load := GET_MASK (reg g NV_PGRAPH_CHEOPS_OFFSET) NV_PGRAPH_CHEOPS_OFFSET_CONST_LD_PTR in
  _ ← assert (const_load <? NV2A_VERTEXSHADER_CONSTANTS);
  let i := 4 * const_load + slot mod 4 in
  let changed := negb (parameter =? rd (vsh_constants (nv g)) i) in
  let g := on_shaders (λ s, s <| vsh_constants_dirty :=
             if changed then vsh_constants_dirty s ∪ {[const_load]} else vsh_constants_dirty s |>) g in
  let g := g <| nv ::= λ d, d <| vsh_constants := wr (vsh_constants d) i parameter |> |> in
  Ok (if slot mod 4 =? 3 then
        set_mask NV_PGRAPH_CHEOPS_OFFSET NV_PGRAPH_CHEOPS_OFFSET_CONST_LD_PTR (const_load + 1) g
      else g).

Definition kelvin_programs : cases := [
  ([Range NV097_SET_COMBINER_FACTOR0 (NV097_SET_COMBINER_FACTOR0 + 28)],
     to_regs NV_PGRAPH_COMBINEFACTOR0 NV097_SET_COMBINER_FACTOR0 4);
  ([Range NV097_SET_COMBINER_FACTOR1 (NV097_SET_COMBINER_FACTOR1 + 28)],
     to_regs NV_PGRAPH_COMBINEFACTOR1 NV097_SET_COMBINER_FACTOR1 4);
  ([Range NV097_SET_COMBINER_ALPHA_OCW (NV097_SET_COMBINER_ALPHA_OCW + 28)],
     to_regs NV_PGRAPH_COMBINEALPHAO0 NV097_SET_COMBINER_ALPHA_OCW 4);
  ([Range NV097_SET_COMBINER_COLOR_ICW (NV097_SET_COMBINER_COLOR_ICW + 28)],
     to_regs NV_PGRAPH_COMBINECOLORI0 NV097_SET_COMBINER_COLOR_ICW 4);
  ([Range NV097_SET_VIEWPORT_SCALE (NV097_SET_VIEWPORT_SCALE + 12)],
     to_row NV_IGRAPH_XF_XFCTX_VPSCL NV097_SET_VIEWPORT_SCALE);
  ([Range NV097_SET_TRANSFORM_PROGRAM (NV097_SET_TRANSFORM_PROGRAM + 0x7c)], set_transform_program);
  ([Range NV097_SET_TRANSFORM_CONSTANT (NV097_SET_TRANSFORM_CONSTANT + 0x7c)], set_transform_constant)].

(** ** Vertices and lights *)

Definition set_vertex3f : handler := λ method parameter g,
  let slot := (method - NV097_SET_VERTEX3F) / 4 in
  set_inline_value NV2A_VERTEX_ATTR_POSITION [(slot, parameter); (3, float_1)] (slot =? 2) g.

Definition set_vertex4f : handler := λ method parameter g,
  let slot := (method - NV097_SET_VERTEX4F) / 4 in
  set_inline_value NV2A_VERTEX_ATTR_POSITION [(slot, parameter)] (slot =? 3) g.

(** Component [part] of a property, if the method is one of it. *)
Definition part_of (first last method : Z) : option Z :=
  if (first <=? method) && (method <=? last) then Some (method / 4 - first / 4) else None.

Definition set_back_light : handler := λ method parameter g,
  let slot := (method - NV097_SET_BACK_LIGHT_AMBIENT_COLOR) / 4 in
  let part := NV097_SET_BACK_LIGHT_AMBIENT_COLOR / 4 + slot mod 16 in
  let slot := slot / 16 in
  _ ← assert (slot <? 8);
  let is_part first n := part_of first (first + n) (part * 4) in
  if is_part NV097_SET_BACK_LIGHT_AMBIENT_COLOR 8 is Some i then
    Ok (set_ltctxb (NV_IGRAPH_XF_LTCTXB_L0_BAMB + slot * 6) i parameter g)
  else if is_part NV097_SET_BACK_LIGHT_DIFFUSE_COLOR 8 is Some i then
    Ok (set_ltctxb (NV_IGRAPH_XF_LTCTXB_L0_BDIF + slot * 6) i parameter g)
  else if is_part NV097_SET_BACK_LIGHT_SPECULAR_COLOR 8 is Some i then
    Ok (set_ltctxb (NV_IGRAPH_XF_LTCTXB_L0_BSPC + slot * 6) i parameter g)
  else Fault assert_failed.

Definition set_light : handler := λ method parameter g,
  let slot := (method - NV097_SET_LIGHT_AMBIENT_COLOR) / 4 in
  let part := NV097_SET_LIGHT_AMBIENT_COLOR / 4 + slot mod 32 in
  let slot := slot / 32 in
  _ ← assert (slot <? 8);
  let is_part first n := part_of first (first + n) (part * 4) in
  if is_part NV097_SET_LIGHT_AMBIENT_COLOR 8 is Some i then
    Ok (set_ltctxb (NV_IGRAPH_XF_LTCTXB_L0_AMB + slot * 6) i parameter g)
  else if is_part NV097_SET_LIGHT_DIFFUSE_COLOR 8 is Some i then
    Ok (set_ltctxb (NV_IGRAPH_XF_LTCTXB_L0_DIF + slot * 6) i parameter g)
  else if is_part NV097_SET_LIGHT_SPECULAR_COLOR 8 is Some i then
    Ok (set_ltctxb (NV_IGRAPH_XF_LTCTXB_L0_SPC + slot * 6) i parameter g)
  else if is_part NV097_SET_LIGHT_LOCAL_RANGE 0 is Some _ then
    let r := NV_IGRAPH_XF_LTC1_r0 + slot in
    Ok (on_shaders (λ s, s <| ltc1 := wr (ltc1 s) (4 * r) parameter |>
                           <| ltc1_dirty := ltc1_dirty s ∪ {[r]} |>) g)
  else if is_part NV097_SET_LIGHT_INFINITE_HALF_VECTOR 8 is Some i then
    Ok (on_shaders (λ s, s <| light_infinite_half_vector ::= λ m, wr m (3 * slot + i) parameter |>) g)
  else if is_part NV097_SET_LIGHT_INFINITE_DIRECTION 8 is Some i then
    Ok (on_shaders (λ s, s <| light_infinite_direction ::= λ m, wr m (3 * slot + i) parameter |>) g)
  else if is_part NV097_SET_LIGHT_SPOT_FALLOFF 8 is Some i then
    Ok (set_ltctxa (NV_IGRAPH_XF_LTCTXA_L0_K + slot * 2) i parameter g)
  else if is_part NV097_SET_LIGHT_SPOT_DIRECTION 12 is Some i then
    Ok (set_ltctxa (NV_IGRAPH_XF_LTCTXA_L0_SPT + slot * 2) i parameter g)
  else if is_part NV097_SET_LIGHT_LOCAL_POSITION 8 is Some i then
    Ok (on_shaders (λ s, s <| light_local_position ::= λ m, wr m (3 * slot + i) parameter |>) g)
  else if is_part NV097_SET_LIGHT_LOCAL_ATTENUATION 8 is Some i then
    Ok (on_shaders (λ s, s <| light_local_attenuation ::= λ m, wr m (3 * slot + i) parameter |>) g)
  else Fault assert_failed.

Definition kelvin_lights : cases := [
  ([Range NV097_SET_VERTEX3F (NV097_SET_VERTEX3F + 8)], set_vertex3f);
  ([Range NV097_SET_BACK_LIGHT_AMBIENT_COLOR (NV097_SET_BACK_LIGHT_SPECULAR_COLOR + 0x1C8)], set_back_light);
  ([Range NV097_SET_LIGHT_AMBIENT_COLOR (NV097_SET_LIGHT_LOCAL_ATTENUATION + 0x38C)], set_light);
  ([Range NV097_SET_VERTEX4F (NV097_SET_VERTEX4F + 12)], set_vertex4f)].

(** ** Vertex arrays and reports *)

(** How OpenGL reads an element of a format: type, normalisation, size, conversion. *)
Definition array_format (format : Z) : res (gl_enum * bool * Z * bool) :=
  if format =? NV097_SET_VERTEX_DATA_ARRAY_FORMAT_TYPE_UB_D3D then Ok (GL_UNSIGNED_BYTE, true, 1, false)
  else if format =? NV097_SET_VERTEX_DATA_ARRAY_FORMAT_TYPE_UB_OGL then Ok (GL_UNSIGNED_BYTE, true, 1, false)
  else if format =? NV097_SET_VERTEX_DATA_ARRAY_FORMAT_TYPE_S1 then Ok (GL_SHORT, true, 2, false)
  else if format =? NV097_SET_VERTEX_DATA_ARRAY_FORMAT_TYPE_F then Ok (GL_FLOAT, false, 4, false)
  else if format =? NV097_SET_VERTEX_DATA_ARRAY_FORMAT_TYPE_S32K then Ok (GL_SHORT, false, 2, false)
  else if format =? NV097_SET_VERTEX_DATA_ARRAY_FORMAT_TYPE_CMP then Ok (GL_FLOAT, false, 4, true)
  else Fault assert_failed.

Definition set_vertex_data_array_format : handler := λ method parameter g,
  let slot := (method - NV097_SET_VERTEX_DATA_ARRAY_FORMAT) / 4 in
  a ← get_attribute slot g;
  let format := GET_MASK parameter NV097_SET_VERTEX_DATA_ARRAY_FORMAT_TYPE in
  let count := GET_MASK parameter NV097_SET_VERTEX_DATA_ARRAY_FORMAT_SIZE in
  let a := a <| attr_format := format |> <| attr_count := count |>
             <| attr_stride := GET_MASK parameter NV097_SET_VERTEX_DATA_ARRAY_FORMAT_STRIDE |> in
  '(ty, norm, size, conv) ← array_format format;
  let d3d := format =? NV097_SET_VERTEX_DATA_ARRAY_FORMAT_TYPE_UB_D3D in
  _ ← assert (negb d3d || (count =? 4));
  let a := a <| gl_count := if d3d then inl GL_BGRA else inr count |> <| gl_type := ty |>
             <| gl_normalize := norm |> <| attr_size := size |> <| needs_conversion := conv |> in
  let a := if conv then a <| converted_size := 4 |> <| converted_count := 3 * count |>
                          <| converted_elements := 0 |>
           else a <| converted_buffer := None |> in
  Ok (set_attribute slot a g).

Definition set_vertex_data_array_offset : handler := λ method parameter g,
  let slot := (method - NV097_SET_VERTEX_DATA_ARRAY_OFFSET) / 4 in
  a ← get_attribute slot g;
  Ok (set_attribute slot (a <| attr_dma_select := nz (parameter .& 0x80000000) |>
        <| attr_offset := parameter .& 0x7fffffff |> <| converted_elements := 0 |>) g).

Definition delete_queries g : Gpu V :=
  let ids := gl_zpass_pixel_count_queries (report (pg g)) in
  on_report (λ r, r <| gl_zpass_pixel_count_queries := [] |>)
    (if ids is [] then g else emit (glDeleteQueries ids) g).

Definition clear_report_value : handler := λ _ _ g,
  Ok (on_report (λ r, r <| zpass_pixel_count_result := 0 |>) (delete_queries g)).

(** Store [n] bytes in the video memory. *)
Definition vram_st (n addr v : Z) g : res (Gpu V) :=
  _ ← vram_range vram_size addr n;
  Ok (set_vram (wr_bytes (vram (nv g)) addr (le_bytes (Z.to_nat n) v)) g).

Definition get_report : handler := λ _ parameter g,
  _ ← assert (u8 (GET_MASK parameter NV097_GET_REPORT_TYPE) =? NV097_GET_REPORT_TYPE_ZPASS_PIXEL_CNT);
  let offset := GET_MASK parameter NV097_GET_REPORT_OFFSET in
  let result := foldl (λ n id, u32 (n + gl_query_result (gl g) id)) (zpass_pixel_count_result (report (pg g)))
                  (gl_zpass_pixel_count_queries (report (pg g))) in
  let g := delete_queries (on_report (λ r, r <| zpass_pixel_count_result := result |>) g) in
  '(report_data, report_dma_len) ← nv_dma_map vram_size (nv g) (dma_report (contexts (pg g)));
  _ ← assert (offset <? report_dma_len);
  g ← vram_st 8 (report_data + offset) 0x0011223344556677 g;
  g ← vram_st 4 (report_data + offset + 8) result g;
  vram_st 4 (report_data + offset + 12) 0 g.

Definition kelvin_arrays : cases := [
  ([Range NV097_SET_VERTEX_DATA_ARRAY_FORMAT (NV097_SET_VERTEX_DATA_ARRAY_FORMAT + 0x3c)],
     set_vertex_data_array_format);
  ([Range NV097_SET_VERTEX_DATA_ARRAY_OFFSET (NV097_SET_VERTEX_DATA_ARRAY_OFFSET + 0x3c)],
     set_vertex_data_array_offset);
  ([At NV097_SET_LOGIC_OP_ENABLE], to_field NV_PGRAPH_BLEND NV_PGRAPH_BLEND_LOGICOP_ENABLE);
  ([At NV097_SET_LOGIC_OP], to_field_of NV_PGRAPH_BLEND NV_PGRAPH_BLEND_LOGICOP (λ p, Ok (p .& 0xF)));
  ([At NV097_CLEAR_REPORT_VALUE], clear_report_value);
  ([At NV097_SET_ZPASS_PIXEL_COUNT_ENABLE],
     then_ (λ p, on_report (λ r, r <| zpass_pixel_count_enable := nz p |>)));
  ([At NV097_GET_REPORT], get_report);
  ([Range NV097_SET_EYE_DIRECTION (NV097_SET_EYE_DIRECTION + 8)],
     to_ltctxa NV_IGRAPH_XF_LTCTXA_EYED NV097_SET_EYE_DIRECTION)].

(** ** Drawing *)

Definition enable_if (b : bool) (cap : gl_enum) : Gpu V → Gpu V := emit (if b then glEnable cap else glDisable cap).

Definition test (r mask : Z) g : bool := nz (reg g r .& mask).

Definition depth_test g : bool := test NV_PGRAPH_CONTROL_0 NV_PGRAPH_CONTROL_0_ZENABLE g.
Definition stencil_test g : bool := test NV_PGRAPH_CONTROL_1 NV_PGRAPH_CONTROL_1_STENCIL_TEST_ENABLE g.

(** The primitive mode of the program in use. *)
Definition gl_mode g : res Z :=
  match shader_binding (shaders (pg g)) ≫= (shader_bindings (shaders (pg g)) !!.) with
  | Some b => Ok (gl_primitive_mode b)
  | None => Fault assert_failed
  end.

Definition draw_arrays g : res (Gpu V) :=
  let b := batch (pg g) in
  mode ← gl_mode g;
  _ ← assert ((inline_buffer_length b =? 0) && (inline_array_length b =? 0) && (inline_elements_length b =? 0));
  g ← pgraph_bind_vertex_attributes vram_size (draw_arrays_max_count b) false 0 g;
  Ok (emit (glMultiDrawArrays mode (rd_bytes (gl_draw_arrays_start b) 0 (draw_arrays_length b))
              (rd_bytes (gl_draw_arrays_count b) 0 (draw_arrays_length b))) g).

Definition draw_inline_buffer g : res (Gpu V) :=
  let b := batch (pg g) in
  mode ← gl_mode g;
  _ ← assert ((draw_arrays_length b =? 0) && (inline_array_length b =? 0) && (inline_elements_length b =? 0));
  g ← for_int NV2A_VERTEXSHADER_ATTRIBUTES bind_inline_buffer g;
  Ok (emit (glDrawArrays mode 0 (inline_buffer_length b)) g).

Definition draw_inline_array g : res (Gpu V) :=
  let b := batch (pg g) in
  mode ← gl_mode g;
  _ ← assert ((draw_arrays_length b =? 0) && (inline_buffer_length b =? 0) && (inline_elements_length b =? 0));
  '(index_count, g) ← pgraph_bind_inline_array vram_size g;
  Ok (emit (glDrawArrays mode 0 index_count) g).

Definition draw_inline_elements g : res (Gpu V) :=
  let b := batch (pg g) in
  mode ← gl_mode g;
  _ ← assert ((draw_arrays_length b =? 0) && (inline_buffer_length b =? 0) && (inline_array_length b =? 0));
  let elements := rd_bytes (inline_elements b) 0 (inline_elements_length b) in
  let max_element := foldl Z.max 0 elements in
  let min_element := foldl Z.min (2 ^ 32 - 1) elements in
  g ← pgraph_bind_vertex_attributes vram_size (u32 (max_element + 1)) false 0 g;
  let g := emit (glBindBuffer GL_ELEMENT_ARRAY_BUFFER (gl_element_buffer b)) g in
  let g := emit (glBufferData GL_ELEMENT_ARRAY_BUFFER (u32 (inline_elements_length b * 4)) elements) g in
  Ok (emit (glDrawRangeElements mode min_element max_element (inline_elements_length b) GL_UNSIGNED_INT) g).

Definition end_primitive g : res (Gpu V) :=
  let b := batch (pg g) in
  _ ← assert (bool_decide (shader_binding (shaders (pg g)) ≠ None));
  g ← (if nz (draw_arrays_length b) then draw_arrays g
       else if nz (inline_buffer_length b) then draw_inline_buffer g
       else if nz (inline_array_length b) then draw_inline_array g
       else if nz (inline_elements_length b) then draw_inline_elements g
       else Fault assert_failed);
  Ok (if zpass_pixel_count_enable (report (pg g)) then emit (glEndQuery GL_SAMPLES_PASSED) g else g).

(** The registers as state of OpenGL. *)
Definition write_masks g : Gpu V :=
  let control_0 bit := test NV_PGRAPH_CONTROL_0 bit g in
  emit (glStencilMask (GET_MASK (reg g NV_PGRAPH_CONTROL_1) NV_PGRAPH_CONTROL_1_STENCIL_MASK_WRITE))
    (emit (glDepthMask (control_0 NV_PGRAPH_CONTROL_0_ZWRITEENABLE))
      (emit (glColorMask (control_0 NV_PGRAPH_CONTROL_0_RED_WRITE_ENABLE)
               (control_0 NV_PGRAPH_CONTROL_0_GREEN_WRITE_ENABLE)
               (control_0 NV_PGRAPH_CONTROL_0_BLUE_WRITE_ENABLE)
               (control_0 NV_PGRAPH_CONTROL_0_ALPHA_WRITE_ENABLE)) g)).

Definition blend_state g : res (Gpu V) :=
  let r := reg g NV_PGRAPH_BLEND in
  if test NV_PGRAPH_BLEND NV_PGRAPH_BLEND_EN g then
    let g := emit (glEnable GL_BLEND) g in
    sfactor ← entry pgraph_blend_factor_map (GET_MASK r NV_PGRAPH_BLEND_SFACTOR);
    dfactor ← entry pgraph_blend_factor_map (GET_MASK r NV_PGRAPH_BLEND_DFACTOR);
    let g := emit (glBlendFunc sfactor dfactor) g in
    equation ← entry pgraph_blend_equation_map (GET_MASK r NV_PGRAPH_BLEND_EQN);
    let g := emit (glBlendEquation equation) g in
    let c := reg g NV_PGRAPH_BLENDCOLOR in
    Ok (emit (glBlendColor (channel c 16) (channel c 8) (channel c 0) (channel c 24)) g)
  else Ok (emit (glDisable GL_BLEND) g).

Definition raster_state g : res (Gpu V) :=
  let setup bit := test NV_PGRAPH_SETUPRASTER bit g in
  g ← (if setup NV_PGRAPH_SETUPRASTER_CULLENABLE then
         face ← entry pgraph_cull_face_map (GET_MASK (reg g NV_PGRAPH_SETUPRASTER) NV_PGRAPH_SETUPRASTER_CULLCTRL);
         Ok (emit (glEnable GL_CULL_FACE) (emit (glCullFace face) g))
       else Ok (emit (glDisable GL_CULL_FACE) g));
  let g := emit (glFrontFace (if setup NV_PGRAPH_SETUPRASTER_FRONTFACE then GL_CCW else GL_CW)) g in
  let g := enable_if (setup NV_PGRAPH_SETUPRASTER_POFFSETFILLENABLE) GL_POLYGON_OFFSET_FILL g in
  let g := enable_if (setup NV_PGRAPH_SETUPRASTER_POFFSETLINEENABLE) GL_POLYGON_OFFSET_LINE g in
  let g := enable_if (setup NV_PGRAPH_SETUPRASTER_POFFSETPOINTENABLE) GL_POLYGON_OFFSET_POINT g in
  Ok (if setup (NV_PGRAPH_SETUPRASTER_POFFSETFILLENABLE .| NV_PGRAPH_SETUPRASTER_POFFSETLINEENABLE
                .| NV_PGRAPH_SETUPRASTER_POFFSETPOINTENABLE)
      then emit (glPolygonOffset (reg g NV_PGRAPH_ZOFFSETFACTOR) (reg g NV_PGRAPH_ZOFFSETBIAS)) g else g).

Definition test_state g : res (Gpu V) :=
  let control_1 := GET_MASK (reg g NV_PGRAPH_CONTROL_1) in
  let control_2 := GET_MASK (reg g NV_PGRAPH_CONTROL_2) in
  g ← (if depth_test g then
         let g := emit (glEnable GL_DEPTH_TEST) g in
         f ← entry pgraph_depth_func_map (GET_MASK (reg g NV_PGRAPH_CONTROL_0) NV_PGRAPH_CONTROL_0_ZFUNC);
         Ok (emit (glDepthFunc f) g)
       else Ok (emit (glDisable GL_DEPTH_TEST) g));
  g ← (if stencil_test g then
         let g := emit (glEnable GL_STENCIL_TEST) g in
         f ← entry pgraph_stencil_func_map (control_1 NV_PGRAPH_CONTROL_1_STENCIL_FUNC);
         fail ← entry pgraph_stencil_op_map (control_2 NV_PGRAPH_CONTROL_2_STENCIL_OP_FAIL);
         zfail ← entry pgraph_stencil_op_map (control_2 NV_PGRAPH_CONTROL_2_STENCIL_OP_ZFAIL);
         zpass ← entry pgraph_stencil_op_map (control_2 NV_PGRAPH_CONTROL_2_STENCIL_OP_ZPASS);
         let g := emit (glStencilFunc f (control_1 NV_PGRAPH_CONTROL_1_STENCIL_REF)
                          (control_1 NV_PGRAPH_CONTROL_1_STENCIL_MASK_READ)) g in
         Ok (emit (glStencilOp fail zfail zpass) g)
       else Ok (emit (glDisable GL_STENCIL_TEST) g));
  Ok (enable_if (test NV_PGRAPH_CONTROL_0 NV_PGRAPH_CONTROL_0_DITHERENABLE g) GL_DITHER g).

Definition empty_batch (b : Batch) : Batch :=
  b <| inline_elements_length := 0 |> <| inline_array_length := 0 |> <| inline_buffer_length := 0 |>
    <| draw_arrays_length := 0 |> <| draw_arrays_max_count := 0 |>.

Definition begin_query g : Gpu V :=
  if zpass_pixel_count_enable (report (pg g)) then
    let gl_query := gl_new_query (gl g) in
    let g := emit (glGenQueries gl_query) g in
    let g := on_report (λ r, r <| gl_zpass_pixel_count_queries := gl_zpass_pixel_count_queries r ++ [gl_query] |>) g in
    emit (glBeginQuery GL_SAMPLES_PASSED gl_query) g
  else g.

Definition begin_primitive (parameter : Z) g : res (Gpu V) :=
  _ ← assert (parameter <=? NV097_SET_BEGIN_END_OP_POLYGON);
  g ← pgraph_update_surface vram_size true true (depth_test g || stencil_test g) g;
  let g := on_shaders (λ s, s <| primitive_mode := parameter |>) g in
  g ← blend_state (write_masks g);
  g ← raster_state g;
  g ← test_state g;
  g ← pgraph_bind_shaders generate_shaders g;
  g ← pgraph_bind_textures vram_size g;
  '(w, h) ← pgraph_get_surface_dimensions g;
  '(w, h) ← pgraph_apply_anti_aliasing_factor g w h;
  let g := emit (glViewport 0 0 w h) g in
  Ok (begin_query (on_batch empty_batch g)).

Definition set_begin_end : handler := λ _ parameter g,
  let zeta := depth_test g || stencil_test g in
  g ← (if parameter =? NV097_SET_BEGIN_END_OP_END then end_primitive g else begin_primitive parameter g);
  Ok (pgraph_set_surface_dirty true zeta g).

(** ** Textures *)

Definition mark_texture (slot : Z) : Gpu V → Gpu V :=
  on_textures (λ t, t <| texture_dirty := texture_dirty t ∪ {[slot]} |>).

(** A register of a texture unit; a change means that the texture is bound anew. *)
Definition to_texture (r first : Z) : handler := λ method parameter g,
  let slot := (method - first) / 64 in
  Ok (mark_texture slot (set_reg (r + slot * 4) parameter g)).

Definition set_texture_format : handler := λ method parameter g,
  let slot := (method - NV097_SET_TEXTURE_FORMAT) / 64 in
  let p := GET_MASK parameter in
  let g := set_masks (NV_PGRAPH_TEXFMT0 + slot * 4) [
    (NV_PGRAPH_TEXFMT0_CONTEXT_DMA, b2z (p NV097_SET_TEXTURE_FORMAT_CONTEXT_DMA =? 2));
    (NV_PGRAPH_TEXFMT0_CUBEMAPENABLE, b2z (nz (p NV097_SET_TEXTURE_FORMAT_CUBEMAP_ENABLE)));
    (NV_PGRAPH_TEXFMT0_BORDER_SOURCE, p NV097_SET_TEXTURE_FORMAT_BORDER_SOURCE);
    (NV_PGRAPH_TEXFMT0_DIMENSIONALITY, p NV097_SET_TEXTURE_FORMAT_DIMENSIONALITY);
    (NV_PGRAPH_TEXFMT0_COLOR, p NV097_SET_TEXTURE_FORMAT_COLOR);
    (NV_PGRAPH_TEXFMT0_MIPMAP_LEVELS, p NV097_SET_TEXTURE_FORMAT_MIPMAP_LEVELS);
    (NV_PGRAPH_TEXFMT0_BASE_SIZE_U, p NV097_SET_TEXTURE_FORMAT_BASE_SIZE_U);
    (NV_PGRAPH_TEXFMT0_BASE_SIZE_V, p NV097_SET_TEXTURE_FORMAT_BASE_SIZE_V);
    (NV_PGRAPH_TEXFMT0_BASE_SIZE_P, p NV097_SET_TEXTURE_FORMAT_BASE_SIZE_P)] g in
  Ok (mark_texture slot g).

Definition set_texture_palette : handler := λ method parameter g,
  let slot := (method - NV097_SET_TEXTURE_PALETTE) / 64 in
  let p := GET_MASK parameter in
  let g := set_masks (NV_PGRAPH_TEXPALETTE0 + slot * 4) [
    (NV_PGRAPH_TEXPALETTE0_CONTEXT_DMA, b2z (p NV097_SET_TEXTURE_PALETTE_CONTEXT_DMA =? 1));
    (NV_PGRAPH_TEXPALETTE0_LENGTH, p NV097_SET_TEXTURE_PALETTE_LENGTH);
    (NV_PGRAPH_TEXPALETTE0_OFFSET, p NV097_SET_TEXTURE_PALETTE_OFFSET)] g in
  Ok (mark_texture slot g).

Definition set_bump_env_mat : handler := λ method parameter g,
  let slot := (method - NV097_SET_TEXTURE_SET_BUMP_ENV_MAT) / 4 in
  _ ← assert (0 <? slot / 16);
  let slot := slot - 16 in
  Ok (on_textures (λ t, t <| bump_env_matrix ::= λ m, wr m (4 * (slot / 16) + slot mod 4) parameter |>) g).

(** Units 1 to 3 only. *)
Definition to_bump (r first : Z) : handler := λ method parameter g,
  let slot := (method - first) / 64 in
  _ ← assert (0 <? slot);
  Ok (set_reg (r + (slot - 1) * 4) parameter g).

Definition kelvin_textures : cases := [
  ([CASE_4 NV097_SET_TEXTURE_OFFSET 64], to_texture NV_PGRAPH_TEXOFFSET0 NV097_SET_TEXTURE_OFFSET);
  ([CASE_4 NV097_SET_TEXTURE_FORMAT 64], set_texture_format);
  ([CASE_4 NV097_SET_TEXTURE_CONTROL0 64], to_regs NV_PGRAPH_TEXCTL0_0 NV097_SET_TEXTURE_CONTROL0 64);
  ([CASE_4 NV097_SET_TEXTURE_CONTROL1 64], to_regs NV_PGRAPH_TEXCTL1_0 NV097_SET_TEXTURE_CONTROL1 64);
  ([CASE_4 NV097_SET_TEXTURE_FILTER 64], to_regs NV_PGRAPH_TEXFILTER0 NV097_SET_TEXTURE_FILTER 64);
  ([CASE_4 NV097_SET_TEXTURE_IMAGE_RECT 64], to_texture NV_PGRAPH_TEXIMAGERECT0 NV097_SET_TEXTURE_IMAGE_RECT);
  ([CASE_4 NV097_SET_TEXTURE_PALETTE 64], set_texture_palette);
  ([CASE_4 NV097_SET_TEXTURE_BORDER_COLOR 64], to_regs NV_PGRAPH_BORDERCOLOR0 NV097_SET_TEXTURE_BORDER_COLOR 64);
  ([CASE_4 (NV097_SET_TEXTURE_SET_BUMP_ENV_MAT + 0x0) 64; CASE_4 (NV097_SET_TEXTURE_SET_BUMP_ENV_MAT + 0x4) 64;
    CASE_4 (NV097_SET_TEXTURE_SET_BUMP_ENV_MAT + 0x8) 64; CASE_4 (NV097_SET_TEXTURE_SET_BUMP_ENV_MAT + 0xc) 64],
     set_bump_env_mat);
  ([CASE_4 NV097_SET_TEXTURE_SET_BUMP_ENV_SCALE 64], to_bump NV_PGRAPH_BUMPSCALE1 NV097_SET_TEXTURE_SET_BUMP_ENV_SCALE);
  ([CASE_4 NV097_SET_TEXTURE_SET_BUMP_ENV_OFFSET 64], to_bump NV_PGRAPH_BUMPOFFSET1 NV097_SET_TEXTURE_SET_BUMP_ENV_OFFSET)].

(** ** Batches *)

Definition push_element (v : Z) (b : Batch) : res Batch :=
  let n := inline_elements_length b in
  _ ← in_bounds (n <? NV2A_MAX_BATCH_LENGTH);
  Ok (b <| inline_elements := wr (inline_elements b) n v |> <| inline_elements_length := n + 1 |>).

Definition change_batch (f : Batch → res Batch) g : res (Gpu V) :=
  b ← f (batch (pg g)); Ok (on_batch (λ _, b) g).

(** Two elements, after a check for one. *)
Definition array_element16 (parameter : Z) (b : Batch) : res Batch :=
  _ ← assert (inline_elements_length b <? NV2A_MAX_BATCH_LENGTH);
  b ← push_element (parameter .& 0xFFFF) b;
  push_element (parameter .>> 16) b.

Definition array_element32 (parameter : Z) (b : Batch) : res Batch :=
  _ ← assert (inline_elements_length b <? NV2A_MAX_BATCH_LENGTH);
  push_element parameter b.

Definition draw_arrays_size : Z := 1000.

(** A range that continues the last one is joined to it. *)
Definition add_draw_arrays (parameter : Z) (b : Batch) : res Batch :=
  let start := GET_MASK parameter NV097_DRAW_ARRAYS_START_INDEX in
  let count := GET_MASK parameter NV097_DRAW_ARRAYS_COUNT + 1 in
  let b := b <| draw_arrays_max_count := Z.max (draw_arrays_max_count b) (start + count) |> in
  let n := draw_arrays_length b in
  _ ← assert (n <? draw_arrays_size);
  let last_start := rd (gl_draw_arrays_start b) (n - 1) in
  let last_count := rd (gl_draw_arrays_count b) (n - 1) in
  if (0 <? n) && (start =? u32 (last_start + last_count)) then
    Ok (b <| gl_draw_arrays_count := wr (gl_draw_arrays_count b) (n - 1) (last_count + count) |>)
  else
    Ok (b <| gl_draw_arrays_start := wr (gl_draw_arrays_start b) n start |>
          <| gl_draw_arrays_count := wr (gl_draw_arrays_count b) n count |>
          <| draw_arrays_length := n + 1 |>).

Definition add_inline_array (parameter : Z) (b : Batch) : res Batch :=
  let n := inline_array_length b in
  _ ← assert (n <? NV2A_MAX_BATCH_LENGTH);
  Ok (b <| inline_array := wr (inline_array b) n parameter |> <| inline_array_length := n + 1 |>).

Definition set_vertex_data2f : handler := λ method parameter g,
  let slot := (method - NV097_SET_VERTEX_DATA2F_M) / 4 in
  let part := slot mod 2 in
  let slot := slot / 2 in
  set_inline_value slot [(part, parameter); (2, float_0); (3, float_1)] ((slot =? 0) && (part =? 1)) g.

Definition set_vertex_data4f : handler := λ method parameter g,
  let slot := (method - NV097_SET_VERTEX_DATA4F_M) / 4 in
  let part := slot mod 4 in
  let slot := slot / 4 in
  set_inline_value slot [(part, parameter)] ((slot =? 0) && (part =? 3)) g.

Definition set_vertex_data2s : handler := λ method parameter g,
  let slot := (method - NV097_SET_VERTEX_DATA2S) / 4 in
  set_inline_value slot [(0, float_of_int (s16 (parameter .& 0xFFFF))); (1, float_of_int (s16 (parameter .>> 16)));
    (2, float_0); (3, float_1)] (slot =? 0) g.

Definition set_vertex_data4ub : handler := λ method parameter g,
  let slot := (method - NV097_SET_VERTEX_DATA4UB) / 4 in
  set_inline_value slot [(0, div_d (parameter .& 0xFF) 255); (1, div_d ((parameter .>> 8) .& 0xFF) 255);
    (2, div_d ((parameter .>> 16) .& 0xFF) 255); (3, div_d ((parameter .>> 24) .& 0xFF) 255)] (slot =? 0) g.

Definition kelvin_batches : cases := [
  ([At NV097_ARRAY_ELEMENT16], λ _ p, change_batch (array_element16 p));
  ([At NV097_ARRAY_ELEMENT32], λ _ p, change_batch (array_element32 p));
  ([At NV097_DRAW_ARRAYS], λ _ p, change_batch (add_draw_arrays p));
  ([At NV097_INLINE_ARRAY], λ _ p, change_batch (add_inline_array p));
  ([Range NV097_SET_EYE_VECTOR (NV097_SET_EYE_VECTOR + 8)], to_regs NV_PGRAPH_EYEVEC0 NV097_SET_EYE_VECTOR 4);
  ([Range NV097_SET_VERTEX_DATA2F_M (NV097_SET_VERTEX_DATA2F_M + 0x7c)], set_vertex_data2f);
  ([Range NV097_SET_VERTEX_DATA4F_M (NV097_SET_VERTEX_DATA4F_M + 0xfc)], set_vertex_data4f);
  ([Range NV097_SET_VERTEX_DATA2S (NV097_SET_VERTEX_DATA2S + 0x3c)], set_vertex_data2s);
  ([Range NV097_SET_VERTEX_DATA4UB (NV097_SET_VERTEX_DATA4UB + 0x3c)], set_vertex_data4ub);
  ([Range NV097_SET_VERTEX_DATA4S_M (NV097_SET_VERTEX_DATA4S_M + 0x7c)], λ _ _ _, Fault assert_failed)].

(** ** Semaphores and clears *)

Definition write_semaphore_release : handler := λ _ parameter g,
  g ← pgraph_update_surface vram_size false true true g;
  let semaphore_offset := reg g NV_PGRAPH_SEMAPHOREOFFSET in
  '(semaphore_data, semaphore_dma_len) ← nv_dma_map vram_size (nv g) (dma_semaphore (contexts (pg g)));
  _ ← assert (semaphore_offset <? semaphore_dma_len);
  vram_st 4 (semaphore_data + semaphore_offset) parameter g.

(** The depth to clear to, and the stencil value if the format has one. *)
Definition clear_values g : res (Z * option Z) :=
  let v := reg g NV_PGRAPH_ZSTENCILCLEARVALUE in
  let float_z := nz (z_format (shape g)) in
  if zeta_format (shape g) =? NV097_SET_SURFACE_FORMAT_ZETA_Z16 then
    if float_z then Fault assert_failed else Ok (div_f (v .& 0xFFFF) 0xFFFF, None)
  else if zeta_format (shape g) =? NV097_SET_SURFACE_FORMAT_ZETA_Z24S8 then
    if float_z then Fault assert_failed else Ok (div_f (v .>> 8) 0xFFFFFF, Some (v .& 0xFF))
  else Fault assert_failed.

(** A format without stencil leaves the value to clear it to uninitialised. *)
Definition clear_zeta (parameter : Z) g : res (Gpu V) :=
  '(depth, stencil) ← clear_values g;
  let g := if nz (parameter .& NV097_CLEAR_SURFACE_Z)
           then emit (glClearDepth depth) (emit (glDepthMask true) g) else g in
  if nz (parameter .& NV097_CLEAR_SURFACE_STENCIL) then
    match stencil with
    | Some s => Ok (emit (glClearStencil s) (emit (glStencilMask 0xff) g))
    | None => Fault undefined_behaviour
    end
  else Ok g.

(** The formats that the code has, less those that it does not go on with. *)
Definition clear_color_value (format c : Z) : res (Z * Z * Z * Z) :=
  if format =? NV097_SET_SURFACE_FORMAT_COLOR_LE_R5G6B5 then
    Ok (div_f ((c .>> 11) .& 0x1F) 31, div_f ((c .>> 5) .& 0x3F) 63, div_f (c .& 0x1F) 31, float_1)
  else if (format =? NV097_SET_SURFACE_FORMAT_COLOR_LE_X8R8G8B8_Z8R8G8B8)
          || (format =? NV097_SET_SURFACE_FORMAT_COLOR_LE_X8R8G8B8_O8R8G8B8) then
    Ok (channel c 16, channel c 8, channel c 0, float_1)
  else if format =? NV097_SET_SURFACE_FORMAT_COLOR_LE_A8R8G8B8 then
    Ok (channel c 16, channel c 8, channel c 0, channel c 24)
  else Fault assert_failed.

Definition clear_color (parameter : Z) g : res (Gpu V) :=
  let on bit := nz (parameter .& bit) in
  let g := emit (glColorMask (on NV097_CLEAR_SURFACE_R) (on NV097_CLEAR_SURFACE_G)
                   (on NV097_CLEAR_SURFACE_B) (on NV097_CLEAR_SURFACE_A)) g in
  '(red, green, blue, alpha) ← clear_color_value (color_format (shape g)) (reg g NV_PGRAPH_COLORCLEARVALUE);
  Ok (emit (glClearColor red green blue alpha) g).

Definition clear_scissor g : res (Gpu V) :=
  let rx := GET_MASK (reg g NV_PGRAPH_CLEARRECTX) in
  let ry := GET_MASK (reg g NV_PGRAPH_CLEARRECTY) in
  let xmin := rx NV_PGRAPH_CLEARRECTX_XMIN in
  let xmax := rx NV_PGRAPH_CLEARRECTX_XMAX in
  let ymin := ry NV_PGRAPH_CLEARRECTY_YMIN in
  let ymax := ry NV_PGRAPH_CLEARRECTY_YMAX in
  '(x, y) ← pgraph_apply_anti_aliasing_factor g xmin (u32 (clip_height (shape g) - ymax - 1));
  '(w, h) ← pgraph_apply_anti_aliasing_factor g (u32 (xmax - xmin + 1)) (u32 (ymax - ymin + 1));
  Ok (emit (glScissor x y w h) g).

Definition clear_surface : handler := λ _ parameter g,
  let write_color := nz (parameter .& NV097_CLEAR_SURFACE_COLOR) in
  let write_zeta := nz (parameter .& (NV097_CLEAR_SURFACE_Z .| NV097_CLEAR_SURFACE_STENCIL)) in
  g ← (if write_zeta then clear_zeta parameter g else Ok g);
  g ← (if write_color then clear_color parameter g else Ok g);
  g ← pgraph_update_surface vram_size true write_color write_zeta g;
  g ← clear_scissor (emit (glEnable GL_SCISSOR_TEST) g);
  let g := enable_if (test NV_PGRAPH_CONTROL_0 NV_PGRAPH_CONTROL_0_DITHERENABLE g) GL_DITHER g in
  let g := emit (glClear write_color (nz (parameter .& NV097_CLEAR_SURFACE_Z))
                   (nz (parameter .& NV097_CLEAR_SURFACE_STENCIL))) g in
  let g := emit (glDisable GL_SCISSOR_TEST) g in
  Ok (pgraph_set_surface_dirty write_color write_zeta g).

Definition kelvin_clears : cases := [
  ([At NV097_SET_SEMAPHORE_OFFSET], to_reg NV_PGRAPH_SEMAPHOREOFFSET);
  ([At NV097_BACK_END_WRITE_SEMAPHORE_RELEASE], write_semaphore_release);
  ([At NV097_SET_ZSTENCIL_CLEAR_VALUE], to_reg NV_PGRAPH_ZSTENCILCLEARVALUE);
  ([At NV097_SET_COLOR_CLEAR_VALUE], to_reg NV_PGRAPH_COLORCLEARVALUE);
  ([At NV097_CLEAR_SURFACE], clear_surface);
  ([At NV097_SET_CLEAR_RECT_HORIZONTAL], to_reg NV_PGRAPH_CLEARRECTX);
  ([At NV097_SET_CLEAR_RECT_VERTICAL], to_reg NV_PGRAPH_CLEARRECTY)].

(** ** Combiners and programs *)

(** A pointer into an array of [size] rows. *)
Definition to_pointer (r mask size : Z) : handler := λ _ parameter g,
  _ ← assert (parameter <? size); Ok (set_mask r mask parameter g).

Definition set_shadow_zslope_threshold : handler := λ _ parameter g,
  _ ← assert (parameter =? 0x7F800000);
  Ok (set_reg NV_PGRAPH_SHADOWZSLOPETHRESHOLD parameter g).

Definition set_transform_execution_mode (p : Z) : Gpu V → Gpu V := set_masks NV_PGRAPH_CSV0_D [
  (NV_PGRAPH_CSV0_D_MODE, GET_MASK p NV097_SET_TRANSFORM_EXECUTION_MODE_MODE);
  (NV_PGRAPH_CSV0_D_RANGE_MODE, GET_MASK p NV097_SET_TRANSFORM_EXECUTION_MODE_RANGE_MODE)].

Definition kelvin_combiners : cases := [
  ([Range NV097_SET_SPECULAR_FOG_FACTOR (NV097_SET_SPECULAR_FOG_FACTOR + 4)],
     to_regs NV_PGRAPH_SPECFOGFACTOR0 NV097_SET_SPECULAR_FOG_FACTOR 4);
  ([At NV097_SET_SHADER_CLIP_PLANE_MODE], to_reg NV_PGRAPH_SHADERCLIPMODE);
  ([Range NV097_SET_COMBINER_COLOR_OCW (NV097_SET_COMBINER_COLOR_OCW + 28)],
     to_regs NV_PGRAPH_COMBINECOLORO0 NV097_SET_COMBINER_COLOR_OCW 4);
  ([At NV097_SET_COMBINER_CONTROL], to_reg NV_PGRAPH_COMBINECTL);
  ([At NV097_SET_SHADOW_ZSLOPE_THRESHOLD], set_shadow_zslope_threshold);
  ([At NV097_SET_SHADER_STAGE_PROGRAM], to_reg NV_PGRAPH_SHADERPROG);
  ([At NV097_SET_SHADER_OTHER_STAGE_INPUT], to_reg NV_PGRAPH_SHADERCTL);
  ([At NV097_SET_TRANSFORM_EXECUTION_MODE], then_ set_transform_execution_mode);
  ([At NV097_SET_TRANSFORM_PROGRAM_CXT_WRITE_EN],
     then_ (λ p, on_shaders (λ s, s <| enable_vertex_program_write := nz p |>)));
  ([At NV097_SET_TRANSFORM_PROGRAM_LOAD],
     to_pointer NV_PGRAPH_CHEOPS_OFFSET NV_PGRAPH_CHEOPS_OFFSET_PROG_LD_PTR NV2A_MAX_TRANSFORM_PROGRAM_LENGTH);
  ([At NV097_SET_TRANSFORM_PROGRAM_START],
     to_pointer NV_PGRAPH_CSV0_C NV_PGRAPH_CSV0_C_CHEOPS_PROGRAM_START NV2A_MAX_TRANSFORM_PROGRAM_LENGTH);
  ([At NV097_SET_TRANSFORM_CONSTANT_LOAD],
     to_pointer NV_PGRAPH_CHEOPS_OFFSET NV_PGRAPH_CHEOPS_OFFSET_CONST_LD_PTR NV2A_VERTEXSHADER_CONSTANTS)].

(** ** The method *)

Definition kelvin (subchannel : Z) : cases :=
  kelvin_flow subchannel ++ kelvin_contexts ++ kelvin_surfaces ++ kelvin_fog ++ kelvin_blend ++ kelvin_tests
  ++ kelvin_matrices ++ kelvin_programs ++ kelvin_lights ++ kelvin_arrays
  ++ [([At NV097_SET_BEGIN_END], set_begin_end)]
  ++ kelvin_textures ++ kelvin_batches ++ kelvin_clears ++ kelvin_combiners.

(** The object is loaded into the registers of the subchannel. *)
Definition set_object (subchannel parameter : Z) g : res (Gpu V) :=
  _ ← assert (parameter <? RAMIN_SIZE);
  ctx_1 ← ramin_ldl (nv g) parameter;
  ctx_2 ← ramin_ldl (nv g) (parameter + 4);
  ctx_3 ← ramin_ldl (nv g) (parameter + 8);
  ctx_4 ← ramin_ldl (nv g) (parameter + 12);
  let g := set_reg (NV_PGRAPH_CTX_CACHE1 + subchannel * 4) ctx_1 g in
  let g := set_reg (NV_PGRAPH_CTX_CACHE2 + subchannel * 4) ctx_2 g in
  let g := set_reg (NV_PGRAPH_CTX_CACHE3 + subchannel * 4) ctx_3 g in
  let g := set_reg (NV_PGRAPH_CTX_CACHE4 + subchannel * 4) ctx_4 g in
  Ok (set_reg (NV_PGRAPH_CTX_CACHE5 + subchannel * 4) parameter g).

Definition load_context (subchannel : Z) g : Gpu V :=
  foldl (λ g cs, set_reg cs.2 (reg g (cs.1 + subchannel * 4)) g) g [
    (NV_PGRAPH_CTX_CACHE1, NV_PGRAPH_CTX_SWITCH1); (NV_PGRAPH_CTX_CACHE2, NV_PGRAPH_CTX_SWITCH2);
    (NV_PGRAPH_CTX_CACHE3, NV_PGRAPH_CTX_SWITCH3); (NV_PGRAPH_CTX_CACHE4, NV_PGRAPH_CTX_SWITCH4);
    (NV_PGRAPH_CTX_CACHE5, NV_PGRAPH_CTX_SWITCH5)].

Definition graphics_class g : Z := GET_MASK (reg g NV_PGRAPH_CTX_SWITCH1) NV_PGRAPH_CTX_SWITCH1_GRCLASS.

Definition class_cases (class subchannel : Z) : cases :=
  if class =? NV_CONTEXT_PATTERN then context_pattern
  else if class =? NV_CONTEXT_SURFACES_2D then context_surfaces_2d_cases
  else if class =? NV_IMAGE_BLIT then image_blit_cases
  else if class =? NV_KELVIN_PRIMITIVE then kelvin subchannel
  else [].

Definition pgraph_method (subchannel method parameter : Z) g : res (Gpu V) :=
  _ ← assert (nz (reg g NV_PGRAPH_CTX_CONTROL .& NV_PGRAPH_CTX_CONTROL_CHID));
  _ ← assert (subchannel <? 8);
  g ← (if method =? NV_SET_OBJECT then set_object subchannel parameter g else Ok g);
  let g := load_context subchannel g in
  let class := graphics_class g in
  _ ← assert ((subchannel =? 0) || negb (class =? 0x97));
  switch (class_cases class subchannel) method parameter g.

End pgraph.
