(* ===== verification/PgraphFrame.v ===== *)
(** * What the methods keep

    Most methods of PGRAPH change a register or a field; this file shows what each of them
    leaves alone, and that all of them keep the invariants of the textures, the programs and
    the submitted vertices. *)

From S2P Require Import Prelude Bytes Fields Swizzle Lru Nv2a PgraphRegs Gl PgraphState Surface Texture Shader Vertex Pgraph.

Section frame.
Context {V : Type} `{OpenGL} (generate_shaders : ShaderState → ShaderBinding) (vram_size : Z).
Implicit Types g : Gpu V.

(** ** The frame *)

(** The device, but for what the methods are there to change. *)
Definition rest (d : NV2AState V) : NV2AState V :=
  d <| vram := ∅ |> <| pgraph_regs := ∅ |> <| vsh_constants := ∅ |>.

Definition shader_part (s : Shaders) :=
  (shader_cache s, shader_bindings s, shader_binding s, ltctxa s, ltctxb s, ltc1 s, vsh_constants_dirty s,
   ltctxa_dirty s, ltctxb_dirty s, ltc1_dirty s).

Definition vertex_part (b : Batch) :=
  (inline_buffer_length b,
   (λ a, (inline_value a, inline_buffer a, gl_inline_buffer a)) <$> vertex_attributes b).

Definition frame g :=
  (rest (nv g), texture_store g, program_calls (gl g), shader_part (shaders (pg g)), vsh_constants (nv g),
   vertex_part (batch (pg g)), waiting g).

Lemma kept_weaken {T T' A} (π : Gpu V → T) (π' : Gpu V → T') (out : A → Gpu V) g m :
  (∀ g g', π g' = π g → π' g' = π' g) → kept π out g m → kept π' out g m.
Proof. intros W K a E. by apply W, K. Qed.

(** The operations on the parts keep the frame, less what they are about. *)
Lemma frame_surfaces g g' : beside_surfaces g' = beside_surfaces g → frame g' = frame g.
Proof.
  unfold beside_surfaces. rewrite !pair_equal_spec. intros [[[[[[[[[E1 _] _] _] E5] E6] E7] _] E9] E10].
  unfold frame, texture_store. rewrite E5, E6, E7, E9, E10.
  change (rest (nv g')) with (rest ((nv g') <| vram := ∅ |>)).
  change (vsh_constants (nv g')) with (vsh_constants ((nv g') <| vram := ∅ |>)). by rewrite E1.
Qed.

Lemma update_surface_frame upload c z g : kept frame id g (pgraph_update_surface vram_size upload c z g).
Proof. eapply kept_weaken; [exact frame_surfaces | apply update_surface_kept]. Qed.
#[local] Hint Resolve update_surface_frame : kept.

(** What the textures keep is all of the frame but their own part; and so on. *)
Definition frame_but_textures g :=
  (rest (nv g), program_calls (gl g), shader_part (shaders (pg g)), vsh_constants (nv g),
   vertex_part (batch (pg g)), waiting g).

Lemma bind_textures_frame g : kept frame_but_textures id g (pgraph_bind_textures vram_size g).
Proof.
  eapply kept_weaken; [| apply bind_textures_kept]. clear g. intros g g'. unfold beside_textures.
  rewrite !pair_equal_spec. intros [[[[[[[[[[[[E1 _] _] _] _] E6] E7] _] _] _] E11] E12] _].
  unfold frame_but_textures. by rewrite E1, E6, E7, E11, E12.
Qed.

Definition frame_but_shaders g := (rest (nv g), texture_store g, vsh_constants (nv g), vertex_part (batch (pg g)), waiting g).

Lemma bind_shaders_frame g : kept frame_but_shaders id g (pgraph_bind_shaders generate_shaders g).
Proof.
  eapply kept_weaken; [| apply bind_shaders_kept]. clear g. intros g g'. unfold beside_shaders.
  rewrite !pair_equal_spec. intros [[[[[[[[[[[E1 _] _] _] _] E6] E7] _] _] _] E11] _].
  unfold frame_but_shaders, texture_store. by rewrite E1, E6, E7, E11.
Qed.

Definition frame_but_vertices g :=
  (rest (nv g), texture_store g, program_calls (gl g), shader_part (shaders (pg g)), vsh_constants (nv g), waiting g).

Lemma frame_vertices g g' : beside_vertices g' = beside_vertices g → frame_but_vertices g' = frame_but_vertices g.
Proof.
  unfold beside_vertices. rewrite !pair_equal_spec. intros [[[[[[[[[E1 _] _] _] _] E6] E7] _] E9] E10].
  unfold frame_but_vertices, texture_store. by rewrite E1, E6, E7, E9, E10.
Qed.

(** ** The plain methods *)

Definition plain (cs : cases (V := V)) : Prop := Forall (λ c, ∀ m p g, kept frame id g (c.2 m p g)) cs.

Lemma find_case_covers (cs : cases (V := V)) m hd : find_case cs m = Some hd →
  ∃ ls, (ls, hd) ∈ cs ∧ existsb (covers m) ls = true.
Proof.
  induction cs as [| [ls h] cs IH]; cbn; [done |]. case_match eqn:X.
  - intros [= ->]. exists ls. split; [by left | done].
  - intros E. destruct (IH E) as (ls' & Hin & C). exists ls'. split; [by right | done].
Qed.

Lemma set_masks_frame r l g : frame (set_masks r l g) = frame g.
Proof. unfold set_masks. by apply (kept_foldl frame). Qed.
Lemma set_reg_frame r v g : frame (set_reg r v g) = frame g.
Proof. done. Qed.
Lemma frame_emit c g : is_program_call c = false → frame (emit c g) = frame g.
Proof. by destruct c. Qed.
Lemma frame_enable_if b cap g : frame (enable_if b cap g) = frame g.
Proof. by destruct b. Qed.
Lemma frame_set_surface_dirty c z g : frame (pgraph_set_surface_dirty c z g) = frame g.
Proof. done. Qed.
#[local] Hint Rewrite set_masks_frame frame_enable_if frame_set_surface_dirty : kept.
#[local] Hint Rewrite frame_emit using done : kept.

Ltac plain_cases :=
  repeat (apply List.Forall_cons; [cbn [snd]; intros ? ? ? |]); [.. | by apply List.Forall_nil].

Lemma plain_pattern : plain context_pattern.
Proof. plain_cases. unfold to_reg. keeps. Qed.

Lemma plain_surfaces_2d : plain context_surfaces_2d_cases.
Proof. plain_cases. all: unfold on_surfaces_2d, then_; keeps. Qed.

Lemma plain_image_blit : plain (image_blit_cases vram_size).
Proof. plain_cases. all: unfold on_blit, then_, image_blit_size, blit; keeps. Qed.

Ltac plain_table := plain_cases; unfold on_context, to_reg, to_regs, to_field, to_field_of, then_, flush_then; keeps.

Lemma plain_contexts : plain (kelvin_contexts vram_size).
Proof. plain_table.
Qed.

Lemma plain_surfaces : plain (kelvin_surfaces vram_size).
Proof. plain_table. Qed.

Lemma plain_fog : plain kelvin_fog.
Proof. unfold kelvin_fog, set_color_material, set_fog_color. plain_table. Qed.

Lemma plain_blend : plain kelvin_blend.
Proof. plain_table. Qed.

Lemma plain_textures : plain kelvin_textures.
Proof.
  unfold kelvin_textures, to_texture, set_texture_format, set_texture_palette, set_bump_env_mat, to_bump, mark_texture.
  plain_table.
Qed.

Lemma plain_clears : plain (kelvin_clears vram_size).
Proof.
  unfold kelvin_clears, write_semaphore_release, clear_surface, clear_zeta, clear_color, clear_scissor, vram_st.
  plain_table.
Qed.

Lemma plain_combiners : plain kelvin_combiners.
Proof.
  unfold kelvin_combiners, set_transform_execution_mode, to_pointer, set_shadow_zslope_threshold. plain_table.
Qed.

(** ** Programs and constants *)

Lemma row_other m r c v j : 0 ≤ c < 4 → j ≠ r → row 4 (wr m (4 * r + c) v) j = row 4 m j.
Proof.
  intros Hc N. unfold row. apply rd_bytes_ext. intros i Hi. unfold rd, wr. rewrite lookup_insert_ne by lia. done.
Qed.

Notation in_sync := (in_sync generate_shaders).

(** The constants that stay unmarked have not changed, and no uniform was stored. *)
Lemma in_sync_change g g' : program_calls (gl g') = program_calls (gl g) →
  (let s := shaders (pg g) in let s' := shaders (pg g') in
   (shader_cache s', shader_bindings s', shader_binding s') = (shader_cache s, shader_bindings s, shader_binding s)) →
  (∀ ff u, unmarked ff g' u → unmarked ff g u ∧ expected g' u = expected g u) → in_sync g → in_sync g'.
Proof.
  cbv zeta. rewrite !pair_equal_spec. intros El [[E1 E2] E3] Eu [C S]. split.
  - unfold cache_ok in *. by rewrite E1, E2.
  - intros p Ep. rewrite E3 in Ep. destruct (S p Ep) as (k & st & Hk & Us & Sh). exists k, st.
    split; [by rewrite E1 |]. split; [by rewrite <- in_use_calls, El, in_use_calls |].
    intros u Hu A L. destruct (Eu _ _ Hu) as [Hu' ->].
    rewrite <- uniform_value_calls, El, uniform_value_calls. by apply Sh.
Qed.

Definition sync_part g := (program_calls (gl g), shader_part (shaders (pg g)), vsh_constants (nv g)).

Lemma in_sync_part g g' : sync_part g' = sync_part g → in_sync g → in_sync g'.
Proof.
  unfold sync_part, shader_part. rewrite !pair_equal_spec.
  intros [[El [[[[[[[[[E1 E2] E3] E4] E5] E6] E7] E8] E9] E10]] E11]. apply in_sync_change; [done | cbv zeta; by rewrite E1, E2, E3 |].
  intros ff u Hu. destruct u; cbn [unmarked expected] in *; try done;
    rewrite ?E4, ?E5, ?E6, ?E7, ?E8, ?E9, ?E10, ?E11 in *; done.
Qed.

Lemma set_vsh_constant_sync r c v g : 0 ≤ c < 4 → in_sync g → in_sync (set_vsh_constant r c v g).
Proof.
  intros Hc. apply in_sync_change; [done | done |]. intros ff u Hu. destruct u; try done; cbn in Hu |- *; try naive_solver.
  apply not_elem_of_union in Hu as [Hu N]. split; [done |]. apply row_other; [done | set_solver].
Qed.

Lemma set_ltctxa_sync r c v g : 0 ≤ c < 4 → in_sync g → in_sync (set_ltctxa r c v g).
Proof.
  intros Hc. apply in_sync_change; [done | done |]. intros ff u Hu. destruct u; try done; cbn in Hu |- *; try naive_solver.
  destruct Hu as [Hf Hu]. apply not_elem_of_union in Hu as [Hu N]. split; [done |]. apply row_other; [done | set_solver].
Qed.

Lemma set_ltctxb_sync r c v g : 0 ≤ c < 4 → in_sync g → in_sync (set_ltctxb r c v g).
Proof.
  intros Hc. apply in_sync_change; [done | done |]. intros ff u Hu. destruct u; try done; cbn in Hu |- *; try naive_solver.
  destruct Hu as [Hf Hu]. apply not_elem_of_union in Hu as [Hu N]. split; [done |]. apply row_other; [done | set_solver].
Qed.

Lemma set_transform_constant_sync m p g : in_sync g → ensures (set_transform_constant m p g) in_sync.
Proof.
  intros I. unfold set_transform_constant. skips. apply ensures_ok.
  set (r := GET_MASK _ _). set (c := (m - NV097_SET_TRANSFORM_CONSTANT) / 4 mod 4).
  assert (0 ≤ c < 4) as Hc by (apply Z.mod_pos_bound; lia).
  match goal with |- context [if c =? 3 then set_mask ?x ?y ?z ?g' else _] => assert (in_sync g') as I' end.
  - revert I. apply in_sync_change; [done | done |]. intros ff u Hu. destruct u; try done; cbn in Hu |- *; try naive_solver.
    destruct (Z.eqb_spec p (rd (vsh_constants (nv g)) (4 * r + c))) as [E | E]; cbn [negb] in Hu.
    + split; [done |]. unfold row. apply rd_bytes_ext. intros i Hi. unfold rd at 1, wr.
      destruct (decide (4 * j + i = 4 * r + c)) as [-> | N]; [by rewrite lookup_insert_eq | by rewrite lookup_insert_ne].
    + apply not_elem_of_union in Hu as [Hu N]. split; [done |]. apply row_other; [done | set_solver].
  - destruct (c =? 3); [| done]. revert I'. by apply in_sync_part.
Qed.

(** ** Every method *)

(** The interrupt that a notification raises. *)
Definition notify (d : NV2AState V) : NV2AState V :=
  update_irq (d <| pgraph_pending := pgraph_pending d .| NV_PGRAPH_INTR_ERROR |>).

(** A step that keeps the invariants of the textures and of the programs, and the device. *)
Definition calm g g' : Prop :=
  (textures_hold [] g → textures_hold [] g') ∧ (in_sync g → in_sync g') ∧ attribute_parts g' = attribute_parts g ∧
  rest (nv g') = rest (nv g).

Lemma calm_beside g g' : frame_but_vertices g' = frame_but_vertices g → attribute_parts g' = attribute_parts g → calm g g'.
Proof.
  unfold frame_but_vertices. rewrite !pair_equal_spec. intros [[[[[E1 E2] E3] E4] E5] E6] Ea.
  split_and!; [by apply textures_hold_store | | done | done]. apply in_sync_part. unfold sync_part. by rewrite E3, E4, E5.
Qed.

Lemma vertex_part_attributes b b' : vertex_part b' = vertex_part b → attributes b' = attributes b.
Proof.
  unfold vertex_part. rewrite pair_equal_spec. intros [_ E].
  apply (f_equal (fmap (λ t : list Z * option (gmap Z (list Z)) * Z, (t.2, length t.1.1)))) in E.
  by rewrite <- !list_fmap_compose in E.
Qed.

Lemma calm_frame g g' : frame g' = frame g → calm g g'.
Proof.
  unfold frame. rewrite !pair_equal_spec. intros [[[[[[E1 E2] E3] E4] E5] E6] E7].
  apply calm_beside; [unfold frame_but_vertices; by rewrite E1, E2, E3, E4, E5, E7 | by apply vertex_part_attributes].
Qed.

Lemma calm_trans g1 g2 g3 : calm g1 g2 → calm g2 g3 → calm g1 g3.
Proof. unfold calm. intros (A1 & A2 & A3 & A4) (B1 & B2 & B3 & B4). rewrite B3, A3, B4, A4. auto. Qed.

Definition calm_cases (cs : cases (V := V)) : Prop :=
  Forall (λ c, ∀ m p g, existsb (covers m) c.1 = true → ensures (c.2 m p g) (calm g)) cs.

Lemma kept_calm g m : kept frame id g m → ensures m (calm g).
Proof. intros K g' E. apply calm_frame, (K g' E). Qed.
Lemma kept_calm_vertices g m : kept beside_vertices id g m → kept attribute_parts id g m → ensures m (calm g).
Proof. intros K A g' E. apply calm_beside; [apply frame_vertices, (K g' E) | exact (A g' E)]. Qed.

Lemma plain_calm cs : plain cs → calm_cases cs.
Proof. intros P. eapply Forall_impl; [exact P |]. cbn. intros c K m p g _. apply kept_calm, K. Qed.

Lemma set_vsh_constant_calm r c v g : 0 ≤ c < 4 → calm g (set_vsh_constant r c v g).
Proof. intros Hc. split_and!; [by apply textures_hold_store | by apply set_vsh_constant_sync | done | done]. Qed.
Lemma set_ltctxa_calm r c v g : 0 ≤ c < 4 → calm g (set_ltctxa r c v g).
Proof. intros Hc. split_and!; [by apply textures_hold_store | by apply set_ltctxa_sync | done | done]. Qed.
Lemma set_ltctxb_calm r c v g : 0 ≤ c < 4 → calm g (set_ltctxb r c v g).
Proof. intros Hc. split_and!; [by apply textures_hold_store | by apply set_ltctxb_sync | done | done]. Qed.

Lemma to_row_calm r first m p g : ensures (to_row r first m p g) (calm g).
Proof. apply ensures_ok, set_vsh_constant_calm, Z.mod_pos_bound. lia. Qed.
Lemma to_matrices_calm r first m p g : ensures (to_matrices r first m p g) (calm g).
Proof. apply ensures_ok, set_vsh_constant_calm, Z.mod_pos_bound. lia. Qed.

Lemma component m first n : n < 16 → existsb (covers m) [Range first (first + n)] = true → 0 ≤ (m - first) / 4 < 4.
Proof.
  cbn. intros Hn Hm. assert (first ≤ m ≤ first + n) by (destruct (Z.leb_spec first m), (Z.leb_spec m (first + n)); try done; lia).
  split; [apply Z.div_pos | apply Z.div_lt_upper_bound]; lia.
Qed.

Lemma to_ltctxa_calm r first n m p g : n < 16 → existsb (covers m) [Range first (first + n)] = true →
  ensures (to_ltctxa r first m p g) (calm g).
Proof. intros Hn Hm. by eapply ensures_ok, set_ltctxa_calm, component. Qed.

Create HintDb calm.
#[local] Hint Resolve to_row_calm to_matrices_calm : calm.
#[local] Hint Extern 1 (ensures (to_ltctxa _ _ _ _ _) _) => eapply to_ltctxa_calm; [| eassumption]; lia : calm.

Ltac calm_table :=
  repeat (apply List.Forall_cons; [cbn [fst snd]; intros ? ? ? ? |]); [.. | by apply List.Forall_nil];
  try (solve [eauto 2 with calm]);
  try (apply kept_calm; unfold on_context, to_reg, to_regs, to_field, to_field_of, then_, flush_then; keeps).

Lemma calm_tests : calm_cases kelvin_tests.
Proof. unfold kelvin_tests. calm_table. Qed.

Lemma set_fog_params_calm m p g :
  existsb (covers m) [Range NV097_SET_FOG_PARAMS (NV097_SET_FOG_PARAMS + 8)] = true → ensures (set_fog_params m p g) (calm g).
Proof.
  intros Hm. apply ensures_ok. eapply calm_trans; [| eapply set_ltctxa_calm, component; [| exact Hm]; lia].
  apply calm_frame. by case_match.
Qed.

#[local] Hint Resolve set_fog_params_calm : calm.

Lemma calm_matrices : calm_cases kelvin_matrices.
Proof. unfold kelvin_matrices, set_texgen, set_texture_matrix_enable. calm_table. Qed.

Lemma set_transform_constant_calm m p g : ensures (set_transform_constant m p g) (calm g).
Proof.
  intros g' E. split_and!; [| intros I; exact (set_transform_constant_sync m p g I g' E) | |];
    unfold set_transform_constant in E; apply bind_ok in E as (? & _ & <-%Ok_inj); [apply textures_hold_store | |];
    by repeat case_match.
Qed.
#[local] Hint Resolve set_transform_constant_calm : calm.

Lemma calm_programs : calm_cases kelvin_programs.
Proof. unfold kelvin_programs, set_transform_program. calm_table. Qed.

Lemma part_of_component first n m i : n < 16 → part_of first (first + n) (m * 4) = Some i → first mod 4 = 0 → 0 ≤ i < 4.
Proof.
  unfold part_of. intros Hn. case_match eqn:E; [| done]. intros [= <-] Hf. apply andb_prop in E as [].
  rewrite Z.div_mul by lia. pose proof (Z.div_mod first 4). lia.
Qed.

Ltac each_part := cbv zeta; apply (ensures_bind _ _ (λ _, True)); [done | intros _ _]; repeat (case_match; [| try done]).
Ltac one_part := match goal with H : part_of _ _ _ = Some _ |- _ => eapply part_of_component; [| exact H | done]; lia end.

Lemma set_back_light_calm m p g : ensures (set_back_light m p g) (calm g).
Proof.
  unfold set_back_light. each_part. all: apply ensures_ok, set_ltctxb_calm; one_part.
Qed.

Lemma set_ltc1_calm r v g :
  calm g (on_shaders (λ s, s <| ltc1 := wr (ltc1 s) (4 * r) v |> <| ltc1_dirty := ltc1_dirty s ∪ {[r]} |>) g).
Proof.
  split_and!; [by apply textures_hold_store | | done | done]. apply in_sync_change; [done | done |].
  intros ff u Hu. destruct u; try done; cbn in Hu |- *; try naive_solver.
  destruct Hu as [Hf Hu]. apply not_elem_of_union in Hu as [Hu N]. split; [done |].
  rewrite <- (Z.add_0_r (4 * r)). apply row_other; [lia | set_solver].
Qed.

Lemma set_light_calm m p g : ensures (set_light m p g) (calm g).
Proof.
  unfold set_light. each_part. all: apply ensures_ok.
  all: lazymatch goal with
       | |- calm _ (set_ltctxb _ _ _ _) => apply set_ltctxb_calm; one_part
       | |- calm _ (set_ltctxa _ _ _ _) => apply set_ltctxa_calm; one_part
       | |- context [singleton] => apply set_ltc1_calm
       | |- _ => by apply calm_frame
       end.
Qed.
#[local] Hint Resolve set_back_light_calm set_light_calm : calm.

Lemma set_inline_value_calm slot values last g : ensures (set_inline_value slot values last g) (calm g).
Proof.
  apply kept_calm_vertices; [auto with kept |]. intros g' E.
  pose proof (set_inline_value_frame slot values last g g' E) as F. unfold batch_frame in F. rewrite !pair_equal_spec in F. apply F.
Qed.
#[local] Hint Resolve set_inline_value_calm : calm.

Lemma calm_lights : calm_cases kelvin_lights.
Proof. unfold kelvin_lights, set_vertex3f, set_vertex4f. calm_table. Qed.

(** ** Arrays and batches *)

Lemma set_vertex_data_array_format_calm m p g : ensures (set_vertex_data_array_format m p g) (calm g).
Proof.
  apply kept_calm_vertices; unfold set_vertex_data_array_format; [keeps |].
  apply kept_get. intros a Ea. cbv zeta. apply kept_pure. intros [[[ty norm] size] conv]. apply kept_pure. intros _.
  apply kept_ok. apply (set_attribute_parts _ a); [done | done |]. by destruct conv.
Qed.

Lemma set_vertex_data_array_offset_calm m p g : ensures (set_vertex_data_array_offset m p g) (calm g).
Proof.
  apply kept_calm_vertices; unfold set_vertex_data_array_offset; [keeps |].
  apply kept_get. intros a Ea. apply kept_ok. by apply (set_attribute_parts _ a).
Qed.

Lemma change_batch_calm f g : (∀ b, ensures (f b) (λ b', vertex_attributes b' = vertex_attributes b)) →
  ensures (change_batch f g) (calm g).
Proof.
  intros K. apply kept_calm_vertices; unfold change_batch; [keeps |].
  intros g' (b & Eb & <-%Ok_inj)%bind_ok. unfold attribute_parts, attributes. cbn [id on_batch set pg batch].
  by rewrite (K _ _ Eb).
Qed.

Lemma push_element_attributes v b : ensures (push_element v b) (λ b', vertex_attributes b' = vertex_attributes b).
Proof. intros b' (? & _ & <-%Ok_inj)%bind_ok. done. Qed.
Lemma array_element16_attributes p b : ensures (array_element16 p b) (λ b', vertex_attributes b' = vertex_attributes b).
Proof.
  intros b' (? & _ & (b1 & E1 & E2)%bind_ok)%bind_ok. by rewrite (push_element_attributes _ _ _ E2), (push_element_attributes _ _ _ E1).
Qed.
Lemma array_element32_attributes p b : ensures (array_element32 p b) (λ b', vertex_attributes b' = vertex_attributes b).
Proof. intros b' (? & _ & E)%bind_ok. exact (push_element_attributes _ _ _ E). Qed.
Lemma add_draw_arrays_attributes p b : ensures (add_draw_arrays p b) (λ b', vertex_attributes b' = vertex_attributes b).
Proof. unfold add_draw_arrays. skips; by apply ensures_ok. Qed.
Lemma add_inline_array_attributes p b : ensures (add_inline_array p b) (λ b', vertex_attributes b' = vertex_attributes b).
Proof. unfold add_inline_array. skips. by apply ensures_ok. Qed.
#[local] Hint Resolve set_vertex_data_array_format_calm set_vertex_data_array_offset_calm : calm.
#[local] Hint Extern 1 (ensures (change_batch _ _) _) => apply change_batch_calm; intros;
  first [apply array_element16_attributes | apply array_element32_attributes | apply add_draw_arrays_attributes
    | apply add_inline_array_attributes] : calm.

Lemma delete_queries_frame g : frame (delete_queries g) = frame g.
Proof. unfold delete_queries. by case_match. Qed.
Lemma on_report_frame f g : frame (on_report f g) = frame g.
Proof. done. Qed.
Lemma set_vram_frame m g : frame (set_vram m g) = frame g.
Proof. done. Qed.
#[local] Hint Rewrite delete_queries_frame on_report_frame set_vram_frame : kept.
Lemma calm_arrays : calm_cases (kelvin_arrays vram_size).
Proof. unfold kelvin_arrays, clear_report_value, get_report, vram_st. calm_table.
Qed.

Lemma calm_batches : calm_cases kelvin_batches.
Proof.
  unfold kelvin_batches, set_vertex_data2f, set_vertex_data4f, set_vertex_data2s, set_vertex_data4ub. calm_table.
Qed.

(** ** The begin and the end of a primitive *)

Section calls.
Context {T : Type} (π : Gpu V → T) (ignores : ignores_calls π).
#[local] Hint Rewrite ignores using done : kept.

Lemma write_masks_kept g : π (write_masks g) = π g.
Proof. unfold write_masks. by rewrite !ignores. Qed.
Lemma enable_if_kept b cap g : π (enable_if b cap g) = π g.
Proof. unfold enable_if. apply ignores. by destruct b. Qed.
#[local] Hint Rewrite enable_if_kept : kept.
Lemma blend_state_kept g : kept π id g (blend_state g).
Proof. unfold blend_state. keeps. Qed.
Lemma raster_state_kept g : kept π id g (raster_state g).
Proof. unfold raster_state. keeps. Qed.
Lemma test_state_kept g : kept π id g (test_state g).
Proof. unfold test_state. keeps. Qed.
End calls.
#[local] Hint Resolve blend_state_kept raster_state_kept test_state_kept : kept.

(** A primitive that has begun has its program, and an empty batch. *)
Definition setting g := (batch (pg g), pgraph_regs (nv g)).

Definition begun g g' : Prop :=
  calm g g' ∧ setting g' = (empty_batch (batch (pg g)), pgraph_regs (nv g)) ∧ (in_sync g → drawable generate_shaders g').

Lemma set_mode_calm p g : calm g (on_shaders (λ s, s <| primitive_mode := p |>) g).
Proof. by apply calm_frame. Qed.

Lemma bind_shaders_calm g : (∀ st, distinct_locations (generate_shaders st)) →
  ensures (pgraph_bind_shaders generate_shaders g) (calm g).
Proof.
  intros D g' E. pose proof (bind_shaders_frame g g' E) as K. unfold frame_but_shaders in K. cbn [id] in K.
  rewrite !pair_equal_spec in K. destruct K as [[[[K1 K2] _] K4] _].
  split_and!; [by apply textures_hold_store | | by apply vertex_part_attributes | done]. intros I. by apply (bind_shaders_sync generate_shaders g g').
Qed.

Lemma bind_textures_calm g : ensures (pgraph_bind_textures vram_size g) (calm g).
Proof.
  intros g' E. pose proof (bind_textures_frame g g' E) as K. unfold frame_but_textures in K. cbn [id] in K.
  rewrite !pair_equal_spec in K. destruct K as [[[[[K1 K2] K3] K4] K5] _].
  split_and!; [intros I; by apply (bind_textures_holds vram_size g g') | | by apply vertex_part_attributes | done].
  apply in_sync_part. unfold sync_part. by rewrite K2, K3, K4.
Qed.

Lemma begin_query_frame g : frame (begin_query g) = frame g ∧ setting (begin_query g) = setting g ∧
  inputs (begin_query g) = inputs g ∧ program_calls (gl (begin_query g)) = program_calls (gl g) ∧
  shaders (pg (begin_query g)) = shaders (pg g).
Proof. unfold begin_query. by case_match. Qed.

Lemma bind_textures_drawable g : ensures (pgraph_bind_textures vram_size g)
  (λ g', (drawable generate_shaders g → drawable generate_shaders g') ∧ setting g' = setting g).
Proof.
  intros g' E. pose proof (bind_textures_kept vram_size g g' E) as K. unfold beside_textures in K. cbn [id] in K.
  rewrite !pair_equal_spec in K. destruct K as [[[[[[[[[[[[E1 E2] E3] E4] E5] E6] E7] _] _] _] E11] E12] [E13 E14]].
  split; [| unfold setting; by rewrite E1, E7]. apply drawable_frame; [| done | by rewrite E6].
  unfold inputs, shape. by rewrite E1, E5, E6, E13, E14.
Qed.

Lemma surfaces_calm g g' : beside_surfaces g' = beside_surfaces g → calm g g' ∧ setting g' = setting g.
Proof.
  intros E. split; [by apply calm_frame, frame_surfaces |].
  unfold beside_surfaces in E. rewrite !pair_equal_spec in E. destruct E as [[[[[[[[[E1 _] _] _] _] _] E7] _] _] _].
  unfold setting. rewrite E7. f_equal. exact (f_equal pgraph_regs E1).
Qed.

Lemma kept_beside_calm g m : kept beside_surfaces id g m →
  ensures m (λ g', calm g g' ∧ setting g' = setting g).
Proof. intros K g' E. apply surfaces_calm, (K g' E). Qed.

(** The states of OpenGL before the program is bound. *)
Lemma raster_setup_kept g g1 g2 g' : blend_state (write_masks g) = Ok g1 → raster_state g1 = Ok g2 →
  test_state g2 = Ok g' → beside_surfaces g' = beside_surfaces g.
Proof.
  intros E1 E2 E3.
  assert (ignores_calls (beside_surfaces (V := V))) as I by (intros []; done).
  pose proof (test_state_kept _ I g2 g' E3) as K3. pose proof (raster_state_kept _ I g1 g2 E2) as K2.
  pose proof (blend_state_kept _ I (write_masks g) g1 E1) as K1. cbn [id] in *.
  rewrite K3, K2, K1. by apply write_masks_kept.
Qed.

Lemma finish_begin w h g : let g' := begin_query (on_batch empty_batch (emit (glViewport 0 0 w h) g)) in
  calm g g' ∧ setting g' = (empty_batch (batch (pg g)), pgraph_regs (nv g)) ∧ (drawable generate_shaders g → drawable generate_shaders g').
Proof.
  cbv zeta. set (g1 := on_batch empty_batch _). destruct (begin_query_frame g1) as (F & B & I & L & S).
  split_and!.
  - apply (calm_trans _ g1); [by apply calm_beside |]. by apply calm_frame.
  - by rewrite B.
  - apply drawable_frame; [by rewrite I | by rewrite L | by rewrite S].
Qed.

Lemma begin_primitive_begun p g : (∀ st, distinct_locations (generate_shaders st)) →
  ensures (begin_primitive generate_shaders vram_size p g) (begun g).
Proof.
  intros D g' E. unfold begin_primitive in E. apply bind_ok in E as (_ & _ & E). apply bind_ok in E as (g1 & E1 & E).
  cbv zeta in E. set (g2 := on_shaders _ g1) in E.
  apply bind_ok in E as (g3 & E3 & E). apply bind_ok in E as (g4 & E4 & E). apply bind_ok in E as (g5 & E5 & E).
  apply bind_ok in E as (g6 & E6 & E). apply bind_ok in E as (g7 & E7 & E).
  apply bind_ok in E as ([w h] & _ & E). apply bind_ok in E as ([w' h'] & _ & <-%Ok_inj).
  destruct (kept_beside_calm g _ (update_surface_kept vram_size _ _ _ g) g1 E1) as [C1 B1].
  destruct (surfaces_calm g2 g5 (raster_setup_kept g2 g3 g4 g5 E3 E4 E5)) as [C5 B5].
  pose proof (bind_shaders_calm g5 D g6 E6) as C6. pose proof (bind_textures_calm g6 g7 E7) as C7.
  destruct (bind_textures_drawable g6 g7 E7) as [R7 B7]. destruct (finish_begin w' h' g7) as (C8 & B8 & R8).
  assert (calm g g5) as G5 by exact (calm_trans _ _ _ C1 (calm_trans _ _ _ (set_mode_calm p g1) C5)).
  assert (setting g6 = setting g5) as B6.
  { pose proof (bind_shaders_kept generate_shaders g5 g6 E6) as K. unfold beside_shaders in K. cbn [id] in K.
    rewrite !pair_equal_spec in K. destruct K as [[[[[[[[[[[K1 _] _] _] _] _] K7] _] _] _] _] _].
    unfold setting. by rewrite K1, K7. }
  split_and!.
  - exact (calm_trans _ _ _ G5 (calm_trans _ _ _ C6 (calm_trans _ _ _ C7 C8))).
  - rewrite B8. rewrite B6, B5 in B7. unfold setting in *. rewrite pair_equal_spec in B1, B7. destruct B1 as [B1 R1], B7 as [-> ->].
    by rewrite <- B1, <- R1.
  - intros I. apply R8, R7. apply (bind_shaders_drawable generate_shaders g5 g6 D); [| done]. by apply G5.
Qed.

Lemma draw_arrays_kept g : kept beside_vertices id g (draw_arrays vram_size g).
Proof. unfold draw_arrays. keeps. Qed.
Lemma draw_inline_buffer_kept g : kept beside_vertices id g (draw_inline_buffer g).
Proof. unfold draw_inline_buffer. keeps. Qed.
Lemma draw_inline_array_kept g : kept beside_vertices id g (draw_inline_array vram_size g).
Proof. unfold draw_inline_array. keeps. Qed.
Lemma draw_inline_elements_kept g : kept beside_vertices id g (draw_inline_elements vram_size g).
Proof. unfold draw_inline_elements. keeps. Qed.
#[local] Hint Resolve draw_arrays_kept draw_inline_buffer_kept draw_inline_array_kept draw_inline_elements_kept : kept.

#[local] Hint Resolve bind_inline_buffer_parts bind_vertex_attributes_parts bind_inline_array_parts : kept.
Lemma end_primitive_parts g : kept attribute_parts id g (end_primitive vram_size g).
Proof. unfold end_primitive, draw_arrays, draw_inline_buffer, draw_inline_array, draw_inline_elements. keeps.
Qed.
Lemma end_primitive_kept g : kept beside_vertices id g (end_primitive vram_size g).
Proof. unfold end_primitive. keeps. Qed.

Context (distinct : ∀ st, distinct_locations (generate_shaders st)).

Lemma set_begin_end_calm m p g : ensures (set_begin_end generate_shaders vram_size m p g) (calm g).
Proof.
  intros g' E. unfold set_begin_end in E. cbv zeta in E. apply bind_ok in E as (g1 & E & <-%Ok_inj).
  eapply calm_trans; [| by apply calm_frame, frame_set_surface_dirty]. case_match.
  - exact (kept_calm_vertices g _ (end_primitive_kept g) (end_primitive_parts g) g1 E).
  - by apply (begin_primitive_begun p g distinct g1 E).
Qed.

(** ** The whole engine *)

(** What a method does to the invariants and to the rest of the device. *)
Definition outcome g g' : Prop :=
  (textures_hold [] g → textures_hold [] g') ∧ (in_sync g → in_sync g') ∧ attribute_parts g' = attribute_parts g ∧
  (rest (nv g') = rest (nv g) ∨ rest (nv g') = rest (notify (nv g)) ∧ waiting g' = AwaitNotify).

Lemma calm_outcome g g' : calm g g' → outcome g g'.
Proof. intros (A & B & C & D). split_and!; auto. Qed.

Lemma rest_notify d : rest (notify d) = notify (rest d).
Proof. reflexivity. Qed.

Lemma raise_outcome g g' : calm g g' → outcome g (g' <| nv ::= notify |> <| waiting := AwaitNotify |>).
Proof.
  intros (A & B & P & C). split_and!.
  - intros Hg. apply (textures_hold_store [] g'); [done | auto].
  - intros Hg. apply (in_sync_part g'); [done | auto].
  - exact P.
  - right. split; [| done]. change (rest (notify (nv g')) = rest (notify (nv g))). by rewrite !rest_notify, C.
Qed.

Lemma no_operation_outcome sub m p g : ensures (no_operation sub m p g) (outcome g).
Proof.
  unfold no_operation. skips; apply ensures_ok; [by apply calm_outcome, calm_frame |].
  apply raise_outcome. apply calm_frame.
  by rewrite !set_reg_frame, set_masks_frame.
Qed.

Lemma flip_stall_calm m p g : ensures (flip_stall vram_size m p g) (calm g).
Proof.
  intros g' (g1 & E & <-%Ok_inj)%bind_ok. pose proof (kept_calm g _ (update_surface_frame _ _ _ g) g1 E) as C.
  case_match; [| done]. eapply calm_trans; [exact C |]. split_and!; [by apply textures_hold_store | by apply in_sync_part | done | done].
Qed.

Definition method_cases (cs : cases (V := V)) : Prop :=
  Forall (λ c, ∀ m p g, existsb (covers m) c.1 = true → ensures (c.2 m p g) (outcome g)) cs.

Lemma calm_methods cs : calm_cases cs → method_cases cs.
Proof.
  intros C. eapply Forall_impl; [exact C |]. cbn. intros c K m p g Hc. eapply ensures_weaken; [by apply K |].
  intros g'. apply calm_outcome.
Qed.

Lemma flow_methods sub : method_cases (kelvin_flow vram_size sub).
Proof.
  repeat (apply List.Forall_cons; [cbn [fst snd]; intros ? ? ? ? |]); [.. | by apply List.Forall_nil].
  all: first [apply no_operation_outcome | eapply ensures_weaken; [| intros ?; apply calm_outcome]].
  all: first [apply flip_stall_calm | apply kept_calm;
    unfold on_context, flip_increment_write, to_reg, to_field, then_, flush_then; keeps].
Qed.

Lemma switch_outcome cs m p g : method_cases cs → ensures (switch cs m p g) (outcome g).
Proof.
  intros C. unfold switch. destruct (find_case cs m) as [hd |] eqn:E; [| by apply ensures_ok, calm_outcome, calm_frame].
  apply find_case_covers in E as (ls & Hin & Hc). unfold method_cases in C. rewrite Forall_forall in C.
  by apply (C (ls, hd) Hin).
Qed.

Lemma calm_begin_end : calm_cases [([At NV097_SET_BEGIN_END], set_begin_end generate_shaders vram_size)].
Proof. apply List.Forall_cons; [intros m p g _; apply set_begin_end_calm | by apply List.Forall_nil]. Qed.

Lemma kelvin_methods sub : method_cases (kelvin generate_shaders vram_size sub).
Proof.
  unfold kelvin, method_cases. rewrite !Forall_app. fold method_cases.
  split; [apply flow_methods |].
  repeat split; apply calm_methods.
  all: first [apply calm_tests | apply calm_matrices | apply calm_programs | apply calm_lights | apply calm_arrays
    | apply calm_batches | apply calm_begin_end | apply plain_calm].
  all: first [apply plain_contexts | apply plain_surfaces | apply plain_fog | apply plain_blend | apply plain_textures
    | apply plain_clears | apply plain_combiners].
Qed.

Lemma class_methods class sub : method_cases (class_cases generate_shaders vram_size class sub).
Proof.
  unfold class_cases. repeat case_match.
  - apply calm_methods, plain_calm, plain_pattern.
  - apply calm_methods, plain_calm, plain_surfaces_2d.
  - apply calm_methods, plain_calm, plain_image_blit.
  - apply kelvin_methods.
  - apply List.Forall_nil.
Qed.

Lemma set_object_frame sub p g : kept frame id g (set_object sub p g).
Proof. unfold set_object. keeps. all: by rewrite !set_reg_frame. Qed.

Lemma load_context_frame sub g : frame (load_context sub g) = frame g.
Proof. unfold load_context. by apply (kept_foldl frame). Qed.

Lemma outcome_calm g1 g2 g3 : calm g1 g2 → outcome g2 g3 → outcome g1 g3.
Proof.
  intros (A1 & A2 & A & A3) (B1 & B2 & B & B3). split_and!; [auto.. | by rewrite B |].
  rewrite rest_notify, <- A3, <- rest_notify. exact B3.
Qed.

Lemma method_outcome sub m p g : ensures (pgraph_method generate_shaders vram_size sub m p g) (outcome g).
Proof.
  intros g' E. unfold pgraph_method in E. do 2 apply bind_ok in E as (? & _ & E).
  apply bind_ok in E as (g1 & E1 & E). apply bind_ok in E as (? & _ & E).
  apply (outcome_calm _ (load_context sub g1)); [| exact (switch_outcome _ _ _ _ (class_methods _ sub) g' E)].
  apply calm_frame. rewrite load_context_frame.
  case_match; [exact (set_object_frame sub p g g1 E1) | by injection E1 as <-].
Qed.

(** ** Sequences of methods: subchannel, method and parameter *)

Fixpoint methods (ms : list (Z * Z * Z)) g : res (Gpu V) :=
  match ms with
  | [] => Ok g
  | (subchannel, method, parameter) :: ms =>
      g ← pgraph_method generate_shaders vram_size subchannel method parameter g; methods ms g
  end.

Lemma methods_app ms ms' g : methods (ms ++ ms') g = (g ← methods ms g; methods ms' g).
Proof.
  revert g. induction ms as [| [[s m] p] ms IH]; intros g; cbn [methods app]; [done |].
  destruct (pgraph_method _ _ _ _ _ _); cbn [mbind res_bind]; [apply IH | done].
Qed.

Lemma methods_keep ms g : ensures (methods ms g) (λ g',
  (textures_hold [] g → textures_hold [] g') ∧ (in_sync g → in_sync g') ∧ attribute_parts g' = attribute_parts g).
Proof.
  revert g. induction ms as [| [[s m] p] ms IH]; intros g; cbn [methods]; [by apply ensures_ok |].
  eapply ensures_bind; [apply method_outcome |]. intros g1 (T1 & S1 & A1 & _).
  eapply ensures_weaken; [apply IH |]. intros g2 (T2 & S2 & A2). rewrite A2. auto.
Qed.

End frame.
