(* ===== verification/PgraphInit.v ===== *)
(** * The life of PGRAPH

    [pgraph_init] and [pgraph_destroy], and the invariants of the graphics engine over any
    sequence of methods after the first.  The context of OpenGL itself (creating it, making
    it current, destroying it) and the locks are not part of the model. *)

From S2P Require Import Prelude Bytes Fields Swizzle Lru Nv2a PgraphRegs Gl PgraphState Surface Texture Shader Vertex Pgraph PgraphFrame.

Section init.
Context {V : Type} `{OpenGL} (generate_shaders : ShaderState → ShaderBinding) (vram_size : Z).
Implicit Types g : Gpu V.

(** ** The state of before: the device is allocated cleared *)

Definition zero_attribute : VertexAttribute :=
  Attribute false 0 0 [0; 0; 0; 0] 0 0 0 0 false None 0 0 0 None (inr 0) GL_ZERO false 0 0.

Definition zero_surface : Surface := Surf false false false 0 0.
Definition zero_shape : SurfaceShape := Shape 0 0 0 0 0 0 0 0 0 0.

Definition zero_pgraph : PGRAPHState :=
  Pgraph (Surfaces2D 0 0 0 0 0 0 0 0) (ImageBlit 0 0 0 0 0 0 0 0 0) (Ctxs 0 0 0 0 0 0 0 0 0 0 0)
    (Surfs zero_surface zero_surface 0 zero_shape zero_shape 0 0 0)
    (Texs ∅ ∅ ∅ ∅ (lru_init ∅) ∅ 0)
    (Shs [] ∅ None 0 false ∅ ∅ ∅ ∅ ∅ ∅ ∅ ∅ ∅ ∅ ∅ ∅)
    (Bat (replicate (Z.to_nat NV2A_VERTEXSHADER_ATTRIBUTES) zero_attribute) 0 ∅ 0 ∅ 0 0 0 ∅ ∅ 0 0 0 0)
    (Rep false 0 []).

(** ** Start and end *)

Definition gen_buffer g : Z * Gpu V := let b := gl_new_buffer (gl g) in (b, emit (glGenBuffers b) g).

Definition texture_cache_size : Z := 512.

Definition gen_attribute_buffers (i : Z) g : res (Gpu V) :=
  a ← get_attribute i g;
  let '(converted, g) := gen_buffer g in
  let '(inline, g) := gen_buffer g in
  Ok (set_attribute i (a <| gl_converted_buffer := converted |> <| gl_inline_buffer := inline |>) g).

(** A framebuffer with a texture, before there is a surface. *)
Definition first_framebuffer g : res (Gpu V) :=
  let fb := gl_new_framebuffer (gl g) in
  let g := emit (glGenFramebuffers fb) g in
  let g := on_surfaces (λ s, s <| gl_framebuffer := fb |>) g in
  let g := emit (glBindFramebuffer GL_FRAMEBUFFER fb) g in
  let t := gl_new_texture (gl g) in
  let g := set_gl_buffer true t (emit (glGenTextures t) g) in
  let g := emit (glBindTexture GL_TEXTURE_2D t) g in
  let g := emit (glTexImage2D GL_TEXTURE_2D 0 GL_RGBA8 640 480 0 GL_RGBA GL_UNSIGNED_BYTE []) g in
  let g := emit (glFramebufferTexture2D GL_FRAMEBUFFER GL_COLOR_ATTACHMENT0 GL_TEXTURE_2D t 0) g in
  _ ← assert (gl_framebuffer_complete (gl g));
  Ok g.

(** The entries of the texture cache are allocated, with whatever they have in them. *)
Definition first_texture_cache (entries : gmap Z (lru_node TextureKey)) : res (lru TextureKey) :=
  for_int texture_cache_size (λ i s, lru_add_free s i) (lru_init entries).

Definition pgraph_init (entries : gmap Z (lru_node TextureKey)) g : res (Gpu V) :=
  _ ← assert (gl_has_extension "GL_EXT_texture_compression_s3tc");
  _ ← assert (gl_has_extension "GL_ARB_ES2_compatibility");
  _ ← assert (NV2A_VERTEXSHADER_ATTRIBUTES <=? gl_integer (gl g) GL_MAX_VERTEX_ATTRIBS);
  g ← first_framebuffer g;
  cache ← first_texture_cache entries;
  let g := on_textures (λ t, t <| texture_cache := cache |>) g in
  let g := on_shaders (λ s, s <| shader_cache := [] |>) g in
  g ← for_int NV2A_VERTEXSHADER_ATTRIBUTES gen_attribute_buffers g;
  let '(b, g) := gen_buffer g in
  let g := on_batch (λ x, x <| gl_inline_array_buffer := b |>) g in
  let '(b, g) := gen_buffer g in
  let g := on_batch (λ x, x <| gl_element_buffer := b |>) g in
  let '(b, g) := gen_buffer g in
  let g := on_batch (λ x, x <| gl_memory_buffer := b |>) g in
  let g := emit (glBindBuffer GL_ARRAY_BUFFER b) g in
  let g := emit (glBufferData GL_ARRAY_BUFFER vram_size []) g in
  let v := gl_new_vertex_array (gl g) in
  let g := on_batch (λ x, x <| gl_vertex_array := v |>) (emit (glGenVertexArrays v) g) in
  let g := emit (glBindVertexArray v) g in
  _ ← assert (gl_no_error (gl g));
  Ok g.

Definition pgraph_destroy g : res (Gpu V) :=
  let s := surfaces (pg g) in
  let g := if nz (gl_color_buffer s) then emit (glDeleteTextures (gl_color_buffer s)) g else g in
  let g := if nz (gl_zeta_buffer s) then emit (glDeleteTextures (gl_zeta_buffer s)) g else g in
  let g := emit (glDeleteFramebuffers (gl_framebuffer s)) g in
  '(cache, g) ← lru_flush (H := texture_lru vram_size) g (texture_cache (textures (pg g)));
  Ok (on_textures (λ t, t <| texture_cache := cache |>) g).

(** ** The invariants *)

(** Names of buffers are handed out once. *)
Definition fresh_buffers : Prop := ∀ log b, glGenBuffers b ∈ log → gl_new_buffer log ≠ b.

(** The loop over the attributes has given buffers to [n] of them, with the names [bs]. *)
Definition buffers_upto (g : Gpu V) (n : Z) g1 : Prop :=
  (∃ bs, NoDup bs ∧ Forall (λ b, glGenBuffers b ∈ gl g1) bs ∧ Z.of_nat (length bs) = n ∧
     attribute_parts g1 = ((λ b, (b, 4%nat)) <$> bs) ++ replicate (Z.to_nat (NV2A_VERTEXSHADER_ATTRIBUTES - n)) (0, 4%nat)) ∧
  textures (pg g1) = textures (pg g) ∧ shaders (pg g1) = shaders (pg g).

Lemma gen_attribute_buffers_step g n g1 : fresh_buffers → 0 ≤ n < NV2A_VERTEXSHADER_ATTRIBUTES → buffers_upto g n g1 →
  ∃ g2, gen_attribute_buffers n g1 = Ok g2 ∧ buffers_upto g (n + 1) g2.
Proof.
  intros F Hn ((bs & ND & Fl & Ln & Ea) & Et & Es). unfold gen_attribute_buffers, get_attribute.
  unfold attribute_parts, attributes in Ea.
  assert (∃ a, vertex_attributes (batch (pg g1)) !! Z.to_nat n = Some a ∧ length (inline_value a) = 4%nat) as (a & Ha & L4).
  { apply (f_equal (.!! Z.to_nat n)) in Ea. rewrite list_lookup_fmap, lookup_app_r in Ea by (rewrite length_fmap; lia).
    rewrite length_fmap in Ea. replace (Z.to_nat n - length bs)%nat with 0%nat in Ea by lia.
    replace (Z.to_nat (NV2A_VERTEXSHADER_ATTRIBUTES - n)) with (S (Z.to_nat (NV2A_VERTEXSHADER_ATTRIBUTES - n - 1))) in Ea by lia.
    destruct (vertex_attributes (batch (pg g1)) !! Z.to_nat n) as [a |]; [| done]. injection Ea as _ L4. by exists a. }
  rewrite Ha. cbn [mbind res_bind gen_buffer]. eexists. split; [reflexivity |].
  cbn [set_attribute on_batch emit set gl pg textures shaders]. split_and!; [| done | done].
  set (c := gl_new_buffer (gl g1)). set (b := gl_new_buffer (glGenBuffers c :: gl g1)).
  exists (bs ++ [b]). split_and!.
  - apply NoDup_app. split_and!; [done | | apply NoDup_singleton]. intros x Hx ->%list_elem_of_singleton.
    rewrite Forall_forall in Fl. apply (F (glGenBuffers c :: gl g1) b); [right; by apply Fl | done].
  - apply Forall_app. split; [| constructor; [left | done]].
    eapply Forall_impl; [exact Fl |]. intros x Hx. by do 2 right.
  - rewrite length_app. cbn. lia.
  - unfold attribute_parts, attributes. cbn [set_attribute on_batch emit set pg batch vertex_attributes].
    rewrite list_fmap_insert, Ea. cbn [set gl_inline_buffer inline_value]. rewrite L4.
    replace (Z.to_nat n) with (length ((λ b, (b, 4%nat)) <$> bs) + 0)%nat by (rewrite length_fmap; lia).
    rewrite insert_app_r, fmap_app, <- app_assoc. f_equal.
    replace (Z.to_nat (NV2A_VERTEXSHADER_ATTRIBUTES - n)) with (S (Z.to_nat (NV2A_VERTEXSHADER_ATTRIBUTES - (n + 1)))) by lia.
    done.
Qed.

Lemma first_texture_cache_free entries : (∀ i, 0 ≤ i < texture_cache_size → is_Some (entries !! i)) →
  ∃ s f c, first_texture_cache entries = Ok s ∧ represents s (View [] f c) ∧ length f = Z.to_nat texture_cache_size.
Proof.
  intros He. set (I n (s : lru TextureKey) := (∀ i, 0 ≤ i < texture_cache_size → is_Some (heap s !! i)) ∧
    ∃ f c, represents s (View [] f c) ∧ Z.of_nat (length f) = n ∧ ∀ j, j ∈ f → j < n).
  destruct (for_int_invariant I texture_cache_size (λ i s, lru_add_free s i) (lru_init entries)) as (s & E & _ & f & c & R & L & _).
  - done.
  - split; [done |]. exists [], (view_of entries). split_and!; [apply lru_init_represents | done | by intros j ?%not_elem_of_nil].
  - intros i s Hi (Hh & f & c & R & L & Lt). destruct (Hh i Hi) as [n Hn].
    destruct (add_free_spec s [] f c i n R Hn) as (s' & E & R'); [intros ?%Lt; lia |]. exists s'. split; [done |]. split.
    + intros j Hj. unfold lru_add_free in E. cbn [deref] in E. rewrite Hn in E. cbn [mbind res_bind] in E.
      injection E as <-. cbn [heap]. destruct (decide (i = j)) as [-> | N]; [by rewrite lookup_insert_eq |].
      rewrite lookup_insert_ne by done. by apply Hh.
    + exists (i :: f), c. split_and!; [done | cbn [length]; lia |]. intros j [-> | Hj]%elem_of_cons; [lia | apply Lt in Hj; lia].
  - exists s, f, c. split_and!; [done | done | lia].
Qed.

Lemma attributes_of b bs : attributes b = (λ b, (b, 4%nat)) <$> bs → NoDup bs →
  length bs = Z.to_nat NV2A_VERTEXSHADER_ATTRIBUTES → attributes_ok b.
Proof.
  intros E ND L. unfold attributes_ok.
  assert (gl_inline_buffer <$> vertex_attributes b = bs) as ->.
  { apply (f_equal (fmap fst)) in E. unfold attributes in E. rewrite <- !list_fmap_compose in E.
    transitivity (id <$> bs); [exact E | apply list_fmap_id]. }
  split_and!; [| done |].
  - apply (f_equal length) in E. unfold attributes in E. rewrite !length_fmap in E. congruence.
  - assert (Forall (λ x, x.2 = 4%nat) (attributes b)) as F4 by (rewrite E, Forall_fmap; by apply Forall_true).
    unfold attributes in F4. by rewrite Forall_fmap in F4.
Qed.

(** The state from which everything starts. *)
Definition cleared g : Prop := pg g = zero_pgraph ∧ gl g = [].

Lemma counted_nothing : counted (textures zero_pgraph) [].
Proof. split; [| done]. intros p. cbn. by apply not_elem_of_nil. Qed.

Lemma init_invariants entries g g' : fresh_buffers → (∀ i, 0 ≤ i < texture_cache_size → is_Some (entries !! i)) →
  cleared g → pgraph_init entries g = Ok g' →
  textures_hold [] g' ∧ in_sync generate_shaders g' ∧ attributes_ok (batch (pg g')).
Proof.
  intros F He [Ep El] E. unfold pgraph_init in E. do 3 apply bind_ok in E as (? & _ & E).
  apply bind_ok in E as (g1 & E1 & E). apply bind_ok in E as (cache & Ec & E). cbv zeta in E.
  set (g2 := on_shaders _ _) in E.
  assert (pg g1 = zero_pgraph <| surfaces := surfaces (pg g1) |>) as P1.
  { unfold first_framebuffer in E1. cbv zeta in E1. apply bind_ok in E1 as (? & _ & <-%Ok_inj).
    cbn [emit set_gl_buffer on_surfaces set pg]. by rewrite Ep. }
  destruct (for_int_invariant (buffers_upto g2) NV2A_VERTEXSHADER_ATTRIBUTES gen_attribute_buffers g2) as (g3 & E3 & B3).
  { done. }
  { split_and!; [| done | done]. exists []. split_and!; [apply NoDup_nil_2 | constructor | done |].
    unfold attribute_parts, attributes. unfold g2. cbn [on_shaders on_textures set pg batch]. by rewrite P1. }
  { intros i s Hi. by apply gen_attribute_buffers_step. }
  rewrite E3 in E. cbn [mbind res_bind gen_buffer] in E. apply bind_ok in E as (? & _ & <-%Ok_inj).
  destruct B3 as ((bs & ND & _ & L & Ea) & Et & Es).
  destruct (first_texture_cache_free entries He) as (s & f & c & Ec' & R & Lf). rewrite Ec in Ec'. apply Ok_inj in Ec'. subst s.
  split_and!.
  - apply (textures_hold_store [] g2); [unfold texture_store; cbn; by rewrite Et |].
    exists (View [] f c). unfold g2. cbn [on_shaders on_textures set pg textures texture_cache texture_binding]. rewrite P1. split_and!.
    + exact R.
    + cbn [used unused app]. rewrite Lf. done.
    + split_and!; [apply List.Forall_nil | |]; cbn [on_shaders on_textures set pg textures]; rewrite P1; [exact counted_nothing | done].
    + set_solver.
  - split.
    + intros k st p Hk. cbn in Hk. rewrite Es in Hk. by destruct k.
    + intros p Hp. cbn in Hp. rewrite Es in Hp. unfold g2 in Hp. cbn [on_shaders on_textures set pg shaders shader_binding] in Hp.
      by rewrite P1 in Hp.
  - apply (attributes_of _ bs); [| done | lia].
    etransitivity; [exact Ea |]. by rewrite Z.sub_diag, app_nil_r.
Qed.

End init.

(** ** A renderer and a start, as an example *)

Module Sample.

Fixpoint last_buffer (log : list gl_call) : Z :=
  match log with
  | [] => 0
  | glGenBuffers b :: log => Z.max b (last_buffer log)
  | _ :: log => last_buffer log
  end.

#[export] Instance renderer : OpenGL := {|
  gl_new_texture := λ log, Z.of_nat (length log) + 1;
  gl_new_query := λ log, Z.of_nat (length log) + 1;
  gl_new_buffer := λ log, last_buffer log + 1;
  gl_new_framebuffer := λ _, 1;
  gl_new_vertex_array := λ _, 1;
  gl_has_extension := λ _, true;
  gl_query_result := λ _ _, 0;
  gl_pixels := λ _ _ _ _ _, [];
  gl_integer := λ _ _, 16;
  gl_framebuffer_complete := λ _, true;
  gl_no_error := λ _, true
|}.

Lemma renderer_fresh : fresh_buffers.
Proof.
  intros log b Hb E. cbn in E. assert (b ≤ last_buffer log) as L; [| lia]. clear E.
  induction log as [| c log IH]; [by apply not_elem_of_nil in Hb |].
  apply elem_of_cons in Hb as [<- | Hb]; [cbn; lia |]. specialize (IH Hb). destruct c; cbn; lia.
Qed.

(** Programs with the constants of the vertex shader, the alpha reference and the clip regions as
    uniforms. *)
Definition programs (st : ShaderState) : ShaderBinding :=
  let none := λ _, -1 in
  ShBinding 7 4 (λ _ _, -1) 0 none none none (-1) (-1) (λ j, j + 1) (-1) none none none (-1) none none none none none
    (λ i, 1000 + i).

Lemma programs_distinct st : distinct_locations (programs st).
Proof.
  intros u u' A A' N E. destruct u, u'; cbn in *; unfold NV2A_VERTEXSHADER_CONSTANTS in *; first [done | lia | f_equal; lia].
Qed.

Definition entries : gmap Z (lru_node TextureKey) :=
  list_to_map ((λ i, (i, Node 0 None (Key (TexShape false 0 0 0 0 0 0 0 0 0) 0 0 None))) <$> seqZ 0 512).

Lemma entries_all i : 0 ≤ i < texture_cache_size → is_Some (entries !! i).
Proof.
  intros Hi. unfold entries. eexists. apply elem_of_list_to_map_1.
  - rewrite <- list_fmap_compose. apply NoDup_fmap_2; [intros ? ? E; exact E | apply NoDup_seqZ].
  - apply list_elem_of_fmap. exists i. split; [done |]. apply elem_of_seqZ. unfold texture_cache_size in Hi. lia.
Qed.

(** The state of before, on a device; and the one that an operation returns, if it does. *)
Definition before (d : NV2AState ()) : Gpu () := GPU d zero_pgraph [] ∅ ∅ Running.

Definition returns (m : res (Gpu ())) : bool := match m with Ok _ => true | Fault _ => false end.
Definition result (m : res (Gpu ())) : Gpu () :=
  match m with Ok g => g | Fault _ => before (nv2a_realize ∅ ()) end.

Lemma result_ok m : returns m = true → m = Ok (result m).
Proof. by destruct m. Qed.

Definition started_on (d : NV2AState ()) : Gpu () := result (pgraph_init 4096 entries (before d)).

End Sample.
