(* ===== verification/SurfaceCopy.v ===== *)
(** * Uploading and reading back a surface

    What [pgraph_update_surface_part] of src/hw/xbox/nv2a/nv2a_pgraph.c and [glo_readpixels]
    of gl/gloffscreen_common.c do to the rows of a surface: they are reversed on the way to
    OpenGL and on the way back, and unswizzled and swizzled if the surface is swizzled.  A
    surface that was uploaded and not drawn to is read back as it was, if OpenGL does what
    its specification says of the calls made ([OpenGLReads] of GlImage.v) and the rows have
    a multiple of four bytes; for two-byte pixels in rows of an odd width OpenGL reads past
    the buffer. *)

From S2P Require Import Prelude Bytes Fields Swizzle Lru Nv2a PgraphRegs Gl GlImage PgraphState Surface PgraphInit.

(** ** Rows *)

(** Byte [i] is in row [r], at column [j], of [h] rows that start at [start]. *)
Definition in_row (start stride n h i r j : Z) : Prop := i = start + stride * r + j ∧ 0 ≤ r < h ∧ 0 ≤ j < n.

Lemma in_row_unique start stride n h i r j r' j' : n ≤ stride →
  in_row start stride n h i r j → in_row start stride n h i r' j' → r = r' ∧ j = j'.
Proof. unfold in_row. intros Hn (E & Hr & Hj) (E' & Hr' & Hj'). assert (r = r') by nia. subst. lia. Qed.






(** ** An image, to OpenGL and back *)

Lemma flipped_length buf from w h bpp pitch : length (flipped_buf buf from w h bpp pitch) = Z.to_nat (w * h * bpp).
Proof. unfold flipped_buf. apply rd_bytes_length. Qed.






(** ** A surface *)

Section surface.
Context {V : Type} `{OpenGLReads} (vram_size : Z).
Implicit Types g : Gpu V.
























(** The alignment of 4, which the code never changes, does not fit two-byte surfaces of an odd
    width: OpenGL looks for each row two bytes later than it is, and reads past the end of the
    buffer that it is given. *)
Theorem odd_width_overrun log buf from w h pitch : pixel_store log GL_UNPACK_ROW_LENGTH = 0 →
  pixel_store log GL_UNPACK_ALIGNMENT = 4 → 0 < w → w mod 2 = 1 → 2 ≤ h →
  let data := flipped_buf buf from w h 2 pitch in
  let stride := row_stride log GL_UNPACK_ROW_LENGTH GL_UNPACK_ALIGNMENT w 2 in
  stride = w * 2 + 2 ∧ stride * (h - 1) + w * 2 = Z.of_nat (length data) + 2 * (h - 1) ∧ unpacked log w h 2 data = None.
Proof.
  intros L A Hw Hodd Hh data stride.
  assert (stride = w * 2 + 2) as E.
  { unfold stride, row_stride. rewrite L, A. cbn [Z.eqb]. Z.div_mod_to_equations. lia. }
  assert (Z.of_nat (length data) = w * h * 2) as Ed by (unfold data; rewrite flipped_length; nia).
  split; [done |]. split; [rewrite E, Ed; lia |]. unfold unpacked. fold stride.
  by rewrite (proj2 (Z.leb_gt _ _)) by (rewrite E, Ed; nia).
Qed.

End surface.

Module SampleCopy.

(** A renderer that keeps images as the specification says, and supports every framebuffer
    with something attached. *)
#[export] Instance renderer : OpenGL := {|
  gl_new_texture := λ log, Z.of_nat (length log) + 1;
  gl_new_query := λ log, Z.of_nat (length log) + 1;
  gl_new_buffer := λ log, Z.of_nat (length log) + 1;
  gl_new_framebuffer := λ _, 1;
  gl_new_vertex_array := λ _, 1;
  gl_has_extension := λ _, true;
  gl_query_result := λ _ _, 0;
  gl_pixels := λ log _ _ fmt _,
    match log with _ :: log => default [] (read_image log fmt ≫= image_pixels) | [] => [] end;
  gl_integer := λ _ _, 16;
  gl_framebuffer_complete := λ log,
    existsb (λ p, bool_decide (is_Some (attached log (bound_framebuffer log) p))) [PointColor; PointDepth];
  gl_no_error := λ _, true
|}.

#[export] Instance renderer_reads : OpenGLReads.
Proof.
  split; [intros log; cbn; lia | done |]. intros log w h fmt typ data _ E. cbn. by rewrite E.
Qed.

(** A swizzled surface of 4 by 2 pixels, at 0x40 of the video memory, after the start. *)
Definition painted : Gpu () :=
  let d := (nv2a_realize ∅ ()) <| vram := wr_bytes ∅ 0x40 (seqZ 1 32) |> in
  on_shape (λ s, s <| color_format := NV097_SET_SURFACE_FORMAT_COLOR_LE_A8R8G8B8 |>)
    (on_color (λ s, s <| surface_pitch := 16 |> <| surface_offset := 0x40 |>)
      (on_surfaces (λ s, s <| surface_type := NV097_SET_SURFACE_FORMAT_TYPE_SWIZZLE |>)
        (Sample.result (pgraph_init 0x2000 Sample.entries (Sample.before d))))).

Definition format : surface_format := SurfFormat 4 GL_RGBA8 GL_BGRA GL_UNSIGNED_INT_8_8_8_8_REV GL_COLOR_ATTACHMENT0.









(** The image that OpenGL got: the lower row first, each row in the order of its pixels. *)
Lemma painted_image : (λ g, read_image (gl g) GL_BGRA) <$> (match upload_surface 0x2000 true format 4 2 0 0 painted with Ok g => Some g | _ => None end)
  = Some (Some (Image 4 2 GL_BGRA GL_UNSIGNED_INT_8_8_8_8_REV (Some (seqZ 9 8 ++ seqZ 25 8 ++ seqZ 1 8 ++ seqZ 17 8)))).
Proof. by vm_compute. Qed.

End SampleCopy.
