(* ===== verification/PgraphDraw.v ===== *)
(** * What a draw draws

    A primitive given vertex by vertex is a sequence of methods: a begin, methods that set
    components of the attributes, and an end.  This file composes what the parts do for
    each of these methods into what OpenGL is asked to draw at the end: the vertices that
    were submitted, with the program and the uniforms that belong to the state. *)

From S2P Require Import Prelude Bytes Fields Swizzle Lru Nv2a PgraphRegs Gl PgraphState Surface Texture Shader Vertex Pgraph PgraphFrame PgraphInit.

Section draw.
Context {V : Type} `{OpenGL} (generate_shaders : ShaderState → ShaderBinding) (vram_size : Z).
Implicit Types g : Gpu V.

Notation pgraph_method := (pgraph_method generate_shaders vram_size).
Notation kelvin := (kelvin (V := V) generate_shaders vram_size).

(** ** The object of the subchannel *)

Definition switches : list (Z * Z) := [
  (NV_PGRAPH_CTX_CACHE1, NV_PGRAPH_CTX_SWITCH1); (NV_PGRAPH_CTX_CACHE2, NV_PGRAPH_CTX_SWITCH2);
  (NV_PGRAPH_CTX_CACHE3, NV_PGRAPH_CTX_SWITCH3); (NV_PGRAPH_CTX_CACHE4, NV_PGRAPH_CTX_SWITCH4);
  (NV_PGRAPH_CTX_CACHE5, NV_PGRAPH_CTX_SWITCH5)].

(** Subchannel 0 has an object of the Kelvin class, and its context is valid. *)
Definition kelvin_bound g : Prop :=
  nz (reg g NV_PGRAPH_CTX_CONTROL .& NV_PGRAPH_CTX_CONTROL_CHID) = true ∧
  GET_MASK (reg g NV_PGRAPH_CTX_CACHE1) NV_PGRAPH_CTX_SWITCH1_GRCLASS = NV_KELVIN_PRIMITIVE.

(** The context is in the registers. *)
Definition loaded g : Prop := Forall (λ cs, pgraph_regs (nv g) !! cs.2 = Some (reg g cs.1)) switches.

Lemma bound_regs g g' : pgraph_regs (nv g') = pgraph_regs (nv g) → kelvin_bound g → kelvin_bound g'.
Proof. unfold kelvin_bound, reg. by intros ->. Qed.
Lemma loaded_regs g g' : pgraph_regs (nv g') = pgraph_regs (nv g) → loaded g → loaded g'.
Proof. unfold loaded, reg. by intros ->. Qed.

Lemma load_context_regs g : pgraph_regs (nv (load_context 0 g)) =
  foldl (λ m cs, wr m cs.2 (rd (pgraph_regs (nv g)) cs.1)) (pgraph_regs (nv g)) switches.
Proof.
  unfold load_context. cbn [foldl switches fst snd]. unfold reg, set_reg, rd, wr. cbn [set nv pgraph_regs].
  by rewrite !lookup_insert_ne by done.
Qed.

Lemma load_context_other g r : Forall (λ cs, cs.2 ≠ r) switches → reg (load_context 0 g) r = reg g r.
Proof.
  intros F. unfold reg. rewrite load_context_regs. unfold switches in *.
  repeat (apply Forall_cons in F as [? F]). cbn [foldl fst snd] in *. unfold rd, wr. by rewrite !lookup_insert_ne.
Qed.

Lemma load_context_loaded g : loaded (load_context 0 g).
Proof.
  unfold loaded, switches. repeat apply List.Forall_cons; [.. | apply List.Forall_nil]; cbn [fst snd].
  all: rewrite load_context_other by (repeat apply List.Forall_cons; [.. | apply List.Forall_nil]; done).
  all: rewrite load_context_regs; unfold switches, wr; cbn [foldl fst snd].
  all: rewrite ?lookup_insert_ne, ?lookup_insert_eq by done; done.
Qed.

Lemma set_reg_id r v g : pgraph_regs (nv g) !! r = Some v → set_reg r v g = g.
Proof.
  intros E. unfold set_reg, wr. destruct g as [d p l n v' w]. cbn [set nv] in *.
  change (GPU (d <| pgraph_regs := <[r := v]> (pgraph_regs d) |>) p l n v' w = GPU d p l n v' w).
  f_equal. rewrite insert_id by done. by destruct d.
Qed.

Lemma load_context_id g : loaded g → load_context 0 g = g.
Proof.
  unfold loaded, switches. rewrite !Forall_cons. intros (L1 & L2 & L3 & L4 & L5 & _). cbn [fst snd] in *.
  unfold load_context. cbn [foldl fst snd]. rewrite !Z.mul_0_l, !Z.add_0_r.
  by rewrite (set_reg_id _ _ g L1), (set_reg_id _ _ g L2), (set_reg_id _ _ g L3), (set_reg_id _ _ g L4), (set_reg_id _ _ g L5).
Qed.

Lemma load_context_bound g : kelvin_bound g → kelvin_bound (load_context 0 g).
Proof.
  unfold kelvin_bound. by rewrite !load_context_other by (repeat apply List.Forall_cons; [.. | apply List.Forall_nil]; done).
Qed.

(** A method of the object is one of the class. *)
Lemma kelvin_method m p g : kelvin_bound g → m ≠ NV_SET_OBJECT →
  pgraph_method 0 m p g = switch (kelvin 0) m p (load_context 0 g).
Proof.
  intros [C K] N. unfold Pgraph.pgraph_method. rewrite C. cbn [assert mbind res_bind Z.ltb Z.compare].
  rewrite (proj2 (Z.eqb_neq m NV_SET_OBJECT) N). cbn [mbind res_bind]. rewrite Z.eqb_refl. cbn [orb assert mbind res_bind].
  assert (graphics_class (load_context 0 g) = NV_KELVIN_PRIMITIVE) as ->; [| done].
  unfold graphics_class. rewrite <- K. f_equal. unfold reg. rewrite load_context_regs. unfold switches, rd, wr.
  cbn [foldl fst snd]. by rewrite !lookup_insert_ne, lookup_insert_eq by done.
Qed.

(** ** Finding the case *)

Fixpoint position (ls : list (list label)) (m : Z) : option nat :=
  match ls with
  | [] => None
  | l :: ls => if existsb (covers m) l then Some 0%nat else S <$> position ls m
  end.

Definition labels (cs : cases (V := V)) : list (list label) := fst <$> cs.

Lemma find_case_position (cs : cases (V := V)) m k c : position (labels cs) m = Some k → cs !! k = Some c →
  find_case cs m = Some c.2.
Proof.
  revert k. induction cs as [| [l h] cs IH]; intros k; cbn; [done |]. case_match.
  - by intros [= <-] [= <-].
  - fold (labels cs). destruct (position (labels cs) m) as [j |]; [| done]. intros [= <-]. by apply IH.
Qed.

(** The methods of a range all have the case at [k]. *)
Definition range_at (first : Z) (n : nat) (k : nat) : bool :=
  forallb (λ i, bool_decide (position (labels (kelvin 0)) (first + Z.of_nat i) = Some k)) (seq 0 n).

Lemma switch_range first n k c m p g : range_at first n k = true → kelvin 0 !! k = Some c →
  first ≤ m < first + Z.of_nat n → switch (kelvin 0) m p g = c.2 m p g.
Proof.
  intros R Hc Hm. unfold range_at in R. rewrite forallb_forall in R.
  specialize (R (Z.to_nat (m - first))). rewrite in_seq in R. specialize (R ltac:(lia)).
  apply bool_decide_eq_true_1 in R. rewrite Z2Nat.id in R by lia. replace (first + (m - first)) with m in R by lia.
  unfold switch. by rewrite (find_case_position _ _ _ _ R Hc).
Qed.

(** ** The methods that give vertices *)

Definition within (m first last : Z) : bool := (first <=? m) && (m <=? last).

(** The attribute that a method sets, the components with their values, and whether that
    ends the vertex: the methods of the position always end with its last component, those
    of any attribute do so for attribute 0. *)
Definition vertex_write (m p : Z) : option (Z * list (Z * Z) * bool) :=
  let word first := (m - first) / 4 in
  if within m NV097_SET_VERTEX3F (NV097_SET_VERTEX3F + 8) then
    let i := word NV097_SET_VERTEX3F in Some (0, [(i, p); (3, float_1)], i =? 2)
  else if within m NV097_SET_VERTEX4F (NV097_SET_VERTEX4F + 12) then
    let i := word NV097_SET_VERTEX4F in Some (0, [(i, p)], i =? 3)
  else if within m NV097_SET_VERTEX_DATA2F_M (NV097_SET_VERTEX_DATA2F_M + 0x7c) then
    let i := word NV097_SET_VERTEX_DATA2F_M in
    Some (i / 2, [(i mod 2, p); (2, float_0); (3, float_1)], (i / 2 =? 0) && (i mod 2 =? 1))
  else if within m NV097_SET_VERTEX_DATA4F_M (NV097_SET_VERTEX_DATA4F_M + 0xfc) then
    let i := word NV097_SET_VERTEX_DATA4F_M in Some (i / 4, [(i mod 4, p)], (i / 4 =? 0) && (i mod 4 =? 3))
  else if within m NV097_SET_VERTEX_DATA2S (NV097_SET_VERTEX_DATA2S + 0x3c) then
    let i := word NV097_SET_VERTEX_DATA2S in
    Some (i, [(0, float_of_int (s16 (p .& 0xFFFF))); (1, float_of_int (s16 (p .>> 16))); (2, float_0); (3, float_1)], i =? 0)
  else if within m NV097_SET_VERTEX_DATA4UB (NV097_SET_VERTEX_DATA4UB + 0x3c) then
    let i := word NV097_SET_VERTEX_DATA4UB in
    Some (i, (λ k, (k, div_d ((p .>> (8 * k)) .& 0xFF) 255)) <$> [0; 1; 2; 3], i =? 0)
  else None.

Ltac each_range E :=
  cbv zeta in E;
  repeat match type of E with (if ?b then _ else _) = _ => let X := fresh "X" in destruct b eqn:X; [injection E as <- <- <- | clear X] end;
  [.. | discriminate E].

Ltac vertex_ranges :=
  unfold NV097_SET_VERTEX3F, NV097_SET_VERTEX4F, NV097_SET_VERTEX_DATA2F_M, NV097_SET_VERTEX_DATA4F_M, NV097_SET_VERTEX_DATA2S,
    NV097_SET_VERTEX_DATA4UB in *.

Lemma vertex_write_attr m p attr values last : vertex_write m p = Some (attr, values, last) → 0 ≤ attr < 16.
Proof.
  unfold vertex_write. intros E. each_range E. all: Z.div_mod_to_equations; unfold within in *; vertex_ranges; lia.
Qed.

Ltac at_case first n k :=
  match goal with X : within ?m _ _ = true |- switch _ ?m ?p ?g = _ =>
    let L := fresh in
    assert (first ≤ m < first + Z.of_nat n) as L by (unfold within in X; lia);
    etransitivity; [exact (switch_range first n k _ m p g ltac:(by vm_compute) eq_refl L) |]
  end.

Lemma vertex_switch m p g attr values last : vertex_write m p = Some (attr, values, last) →
  switch (kelvin 0) m p g = set_inline_value attr values last g.
Proof.
  unfold vertex_write. intros E. each_range E.
  - at_case NV097_SET_VERTEX3F 9%nat 99%nat. done.
  - at_case NV097_SET_VERTEX4F 13%nat 102%nat. done.
  - at_case NV097_SET_VERTEX_DATA2F_M 125%nat 128%nat. done.
  - at_case NV097_SET_VERTEX_DATA4F_M 253%nat 129%nat. done.
  - at_case NV097_SET_VERTEX_DATA2S 61%nat 130%nat. done.
  - at_case NV097_SET_VERTEX_DATA4UB 61%nat 131%nat. done.
Qed.

(** ** Between the begin and the end *)

Definition four (v : list Z) : Prop := length v = 4%nat.

Record collecting g (cur : list (list Z)) (vs : list (list (list Z))) : Prop := {
  collecting_bound : kelvin_bound g;
  collecting_loaded : loaded g;
  collecting_vertices : vertices (batch (pg g)) cur vs;
  collecting_buffers : NoDup (gl_inline_buffer <$> vertex_attributes (batch (pg g)));
  collecting_other : (draw_arrays_length (batch (pg g)), inline_array_length (batch (pg g)),
    inline_elements_length (batch (pg g))) = (0, 0, 0);
  collecting_size : length cur = Z.to_nat NV2A_VERTEXSHADER_ATTRIBUTES;
  collecting_current : Forall four cur;
  collecting_four : Forall (Forall four) vs;
  collecting_drawable : drawable generate_shaders g
}.

Lemma set_components_length values v : length (set_components values v) = length v.
Proof.
  unfold set_components. revert v. induction values as [| kx values IH]; intros v; cbn; [done |]. by rewrite IH, length_insert.
Qed.

Lemma submit_four attr values last cur vs : Forall four cur → Forall (Forall four) vs →
  let '(cur', vs') := submit attr values last (cur, vs) in
  length cur' = length cur ∧ Forall four cur' ∧ Forall (Forall four) vs'.
Proof.
  intros F4 Fv. unfold submit. assert (Forall four (alter (set_components values) (Z.to_nat attr) cur)) as F'.
  { apply Forall_alter; [done |]. intros x _ Hx. unfold four. by rewrite set_components_length. }
  split_and!; [by rewrite length_alter | done |]. destruct last; [| done]. apply Forall_app. auto.
Qed.

(** A method does to the state what it stands for. *)
Lemma collect m p attr values last g cur vs : vertex_write m p = Some (attr, values, last) → collecting g cur vs →
  let '(cur', vs') := submit attr values last (cur, vs) in
  if last && (NV2A_MAX_BATCH_LENGTH <=? Z.of_nat (length vs)) then pgraph_method 0 m p g = Fault assert_failed
  else ∃ g', pgraph_method 0 m p g = Ok g' ∧ collecting g' cur' vs'.
Proof.
  intros W [B L Hv Hb Ho Hs H4 Hf Hd].
  assert (pgraph_method 0 m p g = set_inline_value attr values last g) as ->.
  { rewrite kelvin_method, load_context_id by (done || by intros ->). by apply vertex_switch. }
  pose proof (set_inline_value_submits attr values last g cur vs Hv) as S.
  pose proof (submit_four attr values last cur vs H4 Hf) as S4.
  destruct (submit attr values last (cur, vs)) as [cur' vs'].
  specialize (S ltac:(rewrite Hs; exact (vertex_write_attr _ _ _ _ _ W))). case_match; [done |].
  destruct S as (g' & E & Hv'), S4 as (S1 & S2 & S3). exists g'. split; [done |].
  pose proof (set_inline_value_frame attr values last g g' E) as F. unfold batch_frame in F. rewrite !pair_equal_spec in F.
  destruct F as [[[F1 F2] F3] F4].
  pose proof (set_inline_value_kept attr values last g g' E) as K. unfold beside_vertices in K. cbn [id] in K.
  rewrite !pair_equal_spec in K. destruct K as [[[[[[[[[K1 _] _] _] K5] K6] K7] _] _] K10].
  constructor; [| | done | by rewrite (attributes_buffers _ _ F1) | by rewrite F2, F3, F4 | by rewrite S1 | done | done |].
  - apply (bound_regs g); [by rewrite K1 | done].
  - apply (loaded_regs g); [by rewrite K1 | done].
  - revert Hd. apply drawable_frame; [| done | by rewrite K7]. unfold inputs, shape. by rewrite K1, K5, K6, K7.
Qed.

(** ** The begin *)

Context (distinct : ∀ st, distinct_locations (generate_shaders st)).

Lemma begin_switch p g : switch (kelvin 0) NV097_SET_BEGIN_END p g = set_begin_end generate_shaders vram_size NV097_SET_BEGIN_END p g.
Proof.
  exact (switch_range NV097_SET_BEGIN_END 1 111 _ NV097_SET_BEGIN_END p g ltac:(by vm_compute) eq_refl
    (conj (Z.le_refl _) (Z.lt_succ_diag_r _))).
Qed.

Lemma begin_collecting p g g1 : kelvin_bound g → in_sync generate_shaders g → attributes_ok (batch (pg g)) →
  p ≠ NV097_SET_BEGIN_END_OP_END → pgraph_method 0 NV097_SET_BEGIN_END p g = Ok g1 →
  collecting g1 (inline_value <$> vertex_attributes (batch (pg g))) [].
Proof.
  intros B I (A1 & A2 & A3) Np E. rewrite kelvin_method, begin_switch in E by done.
  unfold set_begin_end in E. cbv zeta in E. apply bind_ok in E as (g2 & E & <-%Ok_inj).
  rewrite (proj2 (Z.eqb_neq _ _) Np) in E.
  destruct (begin_primitive_begun generate_shaders vram_size p _ distinct g2 E) as (_ & S & D).
  unfold setting in S. rewrite pair_equal_spec in S. destruct S as [Sb Sr].
  change (batch (pg (load_context 0 g))) with (batch (pg g)) in Sb.
  assert (pgraph_regs (nv (pgraph_set_surface_dirty true (depth_test (load_context 0 g) || stencil_test (load_context 0 g)) g2))
    = pgraph_regs (nv (load_context 0 g))) as Er by (by rewrite <- Sr).
  constructor.
  - by apply (bound_regs _ _ Er), load_context_bound.
  - apply (loaded_regs _ _ Er), load_context_loaded.
  - change (vertices (batch (pg g2)) (inline_value <$> vertex_attributes (batch (pg g))) []). rewrite Sb. by split_and!.
  - change (NoDup (gl_inline_buffer <$> vertex_attributes (batch (pg g2)))). by rewrite Sb.
  - change ((draw_arrays_length (batch (pg g2)), inline_array_length (batch (pg g2)), inline_elements_length (batch (pg g2))) = (0, 0, 0)).
    by rewrite Sb.
  - by rewrite length_fmap.
  - by rewrite Forall_fmap.
  - done.
  - apply (drawable_frame generate_shaders g2); [done.. |]. apply D. revert I. by apply calm_frame, load_context_frame.
Qed.

(** ** The vertices *)

Definition on_kelvin (ms : list (Z * Z)) : list (Z * Z * Z) := (λ mp, (0, mp.1, mp.2)) <$> ms.

(** What methods of vertices submit, after the current values and the vertices of before. *)
Fixpoint submitted (ms : list (Z * Z)) (s : list (list Z) * list (list (list Z))) :=
  match ms with
  | [] => s
  | (m, p) :: ms =>
      submitted ms (match vertex_write m p with
                    | Some (attr, values, last) => submit attr values last s
                    | None => s
                    end)
  end.

Lemma submitted_length ms cur vs : (length vs ≤ length (submitted ms (cur, vs)).2)%nat.
Proof.
  revert cur vs. induction ms as [| [m p] ms IH]; intros cur vs; cbn [submitted]; [done |].
  destruct (vertex_write m p) as [[[attr values] last] |]; [| apply IH]. unfold submit.
  etransitivity; [| apply IH]. destruct last; [rewrite length_app; lia | done].
Qed.

Notation methods := (methods generate_shaders vram_size).

Lemma collect_all ms g cur vs : Forall (λ mp, vertex_write mp.1 mp.2 ≠ None) ms →
  collecting g cur vs → Z.of_nat (length vs) ≤ NV2A_MAX_BATCH_LENGTH →
  let '(cur', vs') := submitted ms (cur, vs) in
  if NV2A_MAX_BATCH_LENGTH <? Z.of_nat (length vs') then methods (on_kelvin ms) g = Fault assert_failed
  else ∃ g', methods (on_kelvin ms) g = Ok g' ∧ collecting g' cur' vs'.
Proof.
  intros F. revert g cur vs. induction F as [| [m p] ms W F IH]; intros g cur vs C L; cbn [submitted].
  { rewrite (proj2 (Z.ltb_ge _ _) L). by exists g. }
  change (on_kelvin ((m, p) :: ms)) with ((0, m, p) :: on_kelvin ms). cbn [PgraphFrame.methods fst snd] in *.
  destruct (vertex_write m p) as [[[attr values] last] |] eqn:Ew; [| done].
  pose proof (collect m p attr values last g cur vs Ew C) as S. unfold submit in *.
  pose proof (submitted_length ms (alter (set_components values) (Z.to_nat attr) cur)
    (if last then vs ++ [alter (set_components values) (Z.to_nat attr) cur] else vs)) as Lm.
  destruct (last && (NV2A_MAX_BATCH_LENGTH <=? Z.of_nat (length vs))) eqn:X.
  - rewrite S. apply andb_prop in X as [-> X]. rewrite length_app in Lm. cbn [length] in Lm.
    destruct (submitted ms _) as [cur' vs']. cbn [snd] in Lm. by rewrite (proj2 (Z.ltb_lt _ _)) by lia.
  - destruct S as (g1 & -> & C1). cbn [mbind res_bind]. apply IH; [done |].
    destruct last; [| done]. rewrite length_app. cbn [length andb] in *. lia.
Qed.

(** ** The end *)

(** The log of a draw: the draw itself is the last call, but for the end of a query. *)
Definition drawn (log : list gl_call) (mode : Z) (vs : list (list (list Z))) : Prop :=
  ∃ before, (log = glDrawArrays mode 0 (Z.of_nat (length vs)) :: before ∨
             log = glEndQuery GL_SAMPLES_PASSED :: glDrawArrays mode 0 (Z.of_nat (length vs)) :: before) ∧
    ∀ k v i x, vs !! k = Some v → v !! i = Some x → fetch before k (Z.of_nat i) = Some x.

Lemma ready_vertices g cur vs log : collecting g cur vs →
  (∀ i a, vertex_attributes (batch (pg g)) !! i = Some a → ready log (length vs) (Z.of_nat i) a) →
  ∀ k v i x, vs !! k = Some v → v !! i = Some x → fetch log k (Z.of_nat i) = Some x.
Proof.
  intros [_ _ Hv _ _ _ _ H4 _] R k v i x Hk Hi. destruct Hv as (L & Ec & F & S).
  assert (∃ a, vertex_attributes (batch (pg g)) !! i = Some a) as [a Ha].
  { apply lookup_lt_is_Some_2. rewrite Forall_lookup in F. apply lookup_lt_Some in Hi.
    by rewrite (F _ _ Hk), Ec, length_fmap in Hi. }
  set (col k := default (replicate 4 0) (vs !! k ≫= (.!! i))).
  assert (col k = x) as <- by (unfold col; rewrite Hk; cbn; by rewrite Hi).
  eapply ready_fetch; [| exact (R _ _ Ha) | | by eapply lookup_lt_Some].
  - intros j. unfold col. destruct (vs !! j) as [w |] eqn:Ej; [| done]. cbn.
    destruct (w !! i) as [y |] eqn:Ey; [| done]. cbn. rewrite Forall_lookup in H4. pose proof (H4 _ _ Ej) as Hw.
    rewrite Forall_lookup in Hw. exact (Hw _ _ Ey).
  - intros j Hj. apply lookup_lt_is_Some_2 in Hj as [w Hw]. rewrite <- (S _ _ _ _ Ha Hw). unfold col. rewrite Hw. cbn.
    destruct (w !! i) as [y |] eqn:Ey; [done |]. apply lookup_ge_None_1 in Ey. rewrite Forall_lookup in F.
    rewrite (F _ _ Hw), Ec, length_fmap in Ey. apply lookup_lt_Some in Ha. lia.
Qed.

(** The state of a draw: the program is the one of the state, with its uniforms. *)
Definition draws g (vs : list (list (list Z))) : Prop :=
  ∃ st, shader_state g = Ok st ∧ shows (generate_shaders st) (relevant st) g ∧
    drawn (gl g) (gl_primitive_mode (generate_shaders st)) vs.

(** What the next primitive needs of the state. *)
Definition primitive_ready g : Prop := kelvin_bound g ∧ in_sync generate_shaders g ∧ attributes_ok (batch (pg g)).

Definition after_draw g (cur : list (list Z)) (vs : list (list (list Z))) : Prop :=
  draws g vs ∧ kelvin_bound g ∧ attributes_ok (batch (pg g)) ∧ inline_value <$> vertex_attributes (batch (pg g)) = cur.

Lemma draw_collected g cur vs : collecting g cur vs →
  ∃ g1 st, draw_inline_buffer g = Ok (emit (glDrawArrays (gl_primitive_mode (generate_shaders st)) 0 (Z.of_nat (length vs))) g1) ∧
    beside_vertices g1 = beside_vertices g ∧ shader_state g = Ok st ∧
    shows (generate_shaders st) (relevant st) g ∧
    batch (pg g1) = (batch (pg g)) <| vertex_attributes := (λ a, a <| inline_buffer := None |>) <$> vertex_attributes (batch (pg g)) |> ∧
    ∀ i a, vertex_attributes (batch (pg g)) !! i = Some a → ready (gl g1) (length vs) (Z.of_nat i) a.
Proof.
  intros [_ _ Hv Hb Ho Hs _ _ (st & p & Es & Ep & Eb & Sh)]. rewrite !pair_equal_spec in Ho. destruct Ho as [[O1 O2] O3].
  pose proof Hv as (L & Ec & _).
  destruct (bind_inline_buffers g cur vs Hv Hb) as (g1 & E & B1 & R); [by rewrite Ec, length_fmap in Hs |].
  exists g1, st. split_and!; [| | done | done | done | done].
  - unfold draw_inline_buffer, gl_mode. rewrite Ep. cbn [mbind option_bind]. rewrite Eb. cbn [mbind res_bind].
    rewrite O1, O2, O3. cbn [assert andb Z.eqb mbind res_bind]. rewrite E. cbn [mbind res_bind]. by rewrite L.
  - exact (kept_for_int beside_vertices _ _ g (λ i g, bind_inline_buffer_kept i g) g1 E).
Qed.

Lemma end_switch g : kelvin_bound g → loaded g →
  pgraph_method 0 NV097_SET_BEGIN_END NV097_SET_BEGIN_END_OP_END g =
  (let zeta := depth_test g || stencil_test g in
   g ← end_primitive vram_size g; Ok (pgraph_set_surface_dirty true zeta g)).
Proof. intros B L. rewrite kelvin_method, load_context_id, begin_switch by done. reflexivity. Qed.

Lemma inputs_beside_vertices g g' : beside_vertices g' = beside_vertices g →
  inputs g' = inputs g ∧ program_calls (gl g') = program_calls (gl g) ∧ nv g' = nv g ∧ shaders (pg g') = shaders (pg g).
Proof.
  unfold beside_vertices. rewrite !pair_equal_spec. intros [[[[[[[[[K1 _] _] _] K5] K6] K7] _] _] K10].
  unfold inputs, shape. by rewrite K1, K5, K6, K7.
Qed.

(** The calls that end a draw. *)
Definition end_calls (call : gl_call) (zeta : bool) g : Gpu V :=
  let g := emit call g in
  pgraph_set_surface_dirty true zeta
    (if zpass_pixel_count_enable (report (pg g)) then emit (glEndQuery GL_SAMPLES_PASSED) g else g).

Lemma end_calls_facts call zeta g : is_program_call call = false → let g' := end_calls call zeta g in
  inputs g' = inputs g ∧ program_calls (gl g') = program_calls (gl g) ∧ nv g' = nv g ∧ batch (pg g') = batch (pg g) ∧
  (gl g' = call :: gl g ∨ gl g' = glEndQuery GL_SAMPLES_PASSED :: call :: gl g).
Proof.
  intros Hc. cbv zeta. unfold end_calls. cbv zeta. case_match; (split_and!; [done | by destruct call | done | done |]); auto.
Qed.

Lemma end_attributes b cur vs : vertices b cur vs → NoDup (gl_inline_buffer <$> vertex_attributes b) →
  length cur = Z.to_nat NV2A_VERTEXSHADER_ATTRIBUTES → Forall four cur →
  let b' := b <| vertex_attributes := (λ a, a <| inline_buffer := None |>) <$> vertex_attributes b |> in
  attributes_ok b' ∧ inline_value <$> vertex_attributes b' = cur.
Proof.
  intros (_ & Ec & _) Hb Hs H4. cbv zeta. unfold attributes_ok. cbn [set vertex_attributes].
  rewrite Ec, length_fmap in Hs. rewrite Ec, Forall_fmap in H4.
  assert (inline_value <$> ((λ a, a <| inline_buffer := None |>) <$> vertex_attributes b) = cur) as Ei
    by (by rewrite Ec, <- list_fmap_compose).
  assert (gl_inline_buffer <$> ((λ a, a <| inline_buffer := None |>) <$> vertex_attributes b) =
    gl_inline_buffer <$> vertex_attributes b) as Eg by (by rewrite <- list_fmap_compose).
  rewrite Ei, Eg, length_fmap, Forall_fmap. by split_and!.
Qed.

Lemma finish_draw g cur vs : collecting g cur vs → vs ≠ [] →
  ∃ g', pgraph_method 0 NV097_SET_BEGIN_END NV097_SET_BEGIN_END_OP_END g = Ok g' ∧ after_draw g' cur vs.
Proof.
  intros C N. pose proof C as [B Ld Hv Hb Ho Hs H4 _ Hd]. rewrite end_switch by done. cbv zeta.
  destruct (draw_collected g cur vs C) as (g1 & st & E & K & Es & Sh & B1 & R).
  rewrite !pair_equal_spec in Ho. destruct Ho as [[O1 O2] O3]. pose proof Hv as (L & _).
  unfold end_primitive. destruct Hd as (_ & p & _ & Ep & _). rewrite Ep, O1, L, E. rewrite bool_decide_eq_true_2 by done.
  cbn [assert mbind res_bind nz Z.eqb negb]. assert (nz (Z.of_nat (length vs)) = true) as -> by (destruct vs; done).
  cbn [mbind res_bind]. set (call := glDrawArrays _ 0 _). eexists. split; [reflexivity |].
  fold (end_calls call (depth_test g || stencil_test g) g1).
  destruct (end_calls_facts call (depth_test g || stencil_test g) g1 eq_refl) as (F1 & F2 & F3 & F4 & F5).
  destruct (inputs_beside_vertices g g1 K) as (K1 & K2 & K3 & _).
  set (g2 := end_calls _ _ g1) in *. clearbody g2.
  split_and!.
  - exists st. split_and!.
    + by rewrite (shader_state_inputs g g2) by (by rewrite F1).
    + revert Sh. apply (shows_calls _ _ g g2); [by rewrite F1 | by rewrite F2].
    + exists (gl g1). split; [done |]. by apply (ready_vertices g cur vs).
  - apply (bound_regs g); [by rewrite F3, K3 | done].
  - rewrite F4, B1. by apply (end_attributes (batch (pg g)) cur vs).
  - rewrite F4, B1. by apply (end_attributes (batch (pg g)) cur vs).
Qed.

Lemma end_empty g cur : collecting g cur [] →
  pgraph_method 0 NV097_SET_BEGIN_END NV097_SET_BEGIN_END_OP_END g = Fault assert_failed.
Proof.
  intros [B Ld Hv _ Ho _ _ _ (_ & p & _ & Ep & _)]. rewrite end_switch by done.
  rewrite !pair_equal_spec in Ho. destruct Ho as [[O1 O2] O3]. pose proof Hv as (L & _).
  unfold end_primitive. rewrite Ep, O1, O2, O3, L. by rewrite bool_decide_eq_true_2.
Qed.

Lemma methods_sync ms g g' : methods ms g = Ok g' → in_sync generate_shaders g → in_sync generate_shaders g'.
Proof. intros E. exact (proj1 (proj2 (methods_keep generate_shaders vram_size distinct ms g g' E))). Qed.

(** C4: A primitive that is given vertex by vertex is drawn as it was given.  Subchannel 0
    has an object of the Kelvin class and a valid context, what the uniforms of the program
    in use hold and is not marked as changed is up to date, and the sixteen attributes have
    buffers of their own and four components, as on every run from the start.  After a
    begin that returns, any sequence of the methods that set components of attributes
    either stops on the assertion about the size of a batch, when it has more vertices than
    fit, or it returns; the end then stops on its assertion when there is no vertex, and
    otherwise asks OpenGL to draw exactly as many vertices as were finished.  What OpenGL
    reads for each attribute of each vertex is the value that the attribute had when the
    vertex was finished, also where it comes from the current value and not from a buffer;
    the program in use is the one of the state, with the primitive mode of it, and all its
    uniforms hold the values of the state: the lighting if the fixed function is used, the
    window clip regions that the pixel shader looks at, and all others.  The current values
    are kept, and the state is again one from which this holds for the next primitive. *)
Theorem pgraph_draws_vertices p ms g g1 :
  primitive_ready g → p ≠ NV097_SET_BEGIN_END_OP_END → methods [(0, NV097_SET_BEGIN_END, p)] g = Ok g1 →
  Forall (λ mp, vertex_write mp.1 mp.2 ≠ None) ms →
  let '(cur, vs) := submitted ms (inline_value <$> vertex_attributes (batch (pg g)), []) in
  let run := methods (on_kelvin ms ++ [(0, NV097_SET_BEGIN_END, NV097_SET_BEGIN_END_OP_END)]) g1 in
  if (0 <? Z.of_nat (length vs)) && (Z.of_nat (length vs) <=? NV2A_MAX_BATCH_LENGTH)
  then ∃ g', run = Ok g' ∧ draws g' vs ∧ primitive_ready g' ∧ inline_value <$> vertex_attributes (batch (pg g')) = cur
  else run = Fault assert_failed.
Proof.
  intros (B & I & A) Np E F. pose proof (methods_sync _ _ _ E I) as I1.
  cbn [PgraphFrame.methods] in E. apply bind_ok in E as (g1' & E & [= <-]).
  pose proof (begin_collecting p g g1' B I A Np E) as C.
  pose proof (collect_all ms g1' _ [] F C ltac:(done)) as R.
  destruct (submitted ms _) as [cur vs]. cbv zeta.
  set (run := methods _ g1'). assert (∀ g', run = Ok g' → in_sync generate_shaders g') as Ir.
  { intros g' Er. exact (methods_sync _ _ _ Er I1). }
  unfold run in *. clear run. rewrite methods_app in Ir |- *.
  destruct (Z.ltb_spec NV2A_MAX_BATCH_LENGTH (Z.of_nat (length vs))) as [M | M].
  - rewrite R. rewrite (proj2 (Z.leb_gt _ _) M), andb_false_r. done.
  - destruct R as (g2 & E2 & C2). rewrite E2 in Ir |- *. rewrite (proj2 (Z.leb_le _ _) M), andb_true_r.
    cbn [mbind res_bind PgraphFrame.methods] in Ir |- *.
    destruct vs as [| v vs]; [by rewrite (end_empty g2 cur C2) |].
    destruct (finish_draw g2 cur (v :: vs) C2 ltac:(done)) as (g3 & E3 & D & K & A3 & Ec). rewrite E3 in Ir |- *.
    exists g3. split; [done |]. split; [done |]. split; [| done]. split; [done |]. split; [by apply Ir | done].
Qed.

End draw.

(** ** A triangle, as an example *)

Module SampleDraw.
Import Sample.

(** A device whose subchannel 0 has an object of the Kelvin class, with a clip region. *)
Definition device : NV2AState () :=
  (nv2a_realize ∅ ()) <| pgraph_regs := list_to_map [
    (NV_PGRAPH_CTX_CONTROL, NV_PGRAPH_CTX_CONTROL_CHID); (NV_PGRAPH_CTX_CACHE1, NV_KELVIN_PRIMITIVE);
    (NV_PGRAPH_WINDOWCLIPX0, 0x027f0010); (NV_PGRAPH_WINDOWCLIPY0, 0x01df0020)] |>.

Definition begun_triangle : res (Gpu ()) :=
  methods programs 4096 [(0, NV097_SET_BEGIN_END, 5)] (started_on device).

(** The colour changes after the first vertex. *)
Definition triangle : list (Z * Z) :=
  let vertex x y z := [(NV097_SET_VERTEX3F, x); (NV097_SET_VERTEX3F + 4, y); (NV097_SET_VERTEX3F + 8, z)] in
  vertex 10 11 12 ++ [(NV097_SET_VERTEX_DATA4UB + 12, 0xff00ff00)] ++ vertex 20 21 22 ++ vertex 30 31 32.

Definition no_values : list (list Z) := replicate 16 [0; 0; 0; 0].

Lemma device_started : pgraph_init 4096 entries (before device) = Ok (started_on device).
Proof. apply result_ok. by vm_compute. Qed.

Lemma triangle_begun : begun_triangle = Ok (result begun_triangle).
Proof. apply result_ok. by vm_compute. Qed.

Lemma device_bound : kelvin_bound (started_on device).
Proof. split; by vm_compute. Qed.

Lemma triangle_vertices : Forall (λ mp, vertex_write mp.1 mp.2 ≠ None) triangle.
Proof. repeat (constructor; [by vm_compute |]). by constructor. Qed.

Lemma first_values : inline_value <$> vertex_attributes (batch (pg (started_on device))) = no_values.
Proof. by vm_compute. Qed.
End SampleDraw.

Import Sample SampleDraw.

Lemma pgraph_draws_vertices_witness : ∃ g',
  PgraphFrame.methods programs 4096
    (on_kelvin triangle ++ [(0, NV097_SET_BEGIN_END, NV097_SET_BEGIN_END_OP_END)])
    (result begun_triangle) = Ok g' ∧
  draws programs g' (submitted triangle (no_values, [])).2 ∧ primitive_ready programs g' ∧
  inline_value <$> vertex_attributes (batch (pg g')) = (submitted triangle (no_values, [])).1.
Proof.
  destruct (init_invariants programs 4096 entries (before device) _ renderer_fresh entries_all ltac:(done) device_started)
    as (_ & S & A).
  pose proof (pgraph_draws_vertices programs 4096 programs_distinct 5 triangle _ _
    (conj device_bound (conj S A)) ltac:(done) triangle_begun triangle_vertices) as W.
  rewrite first_values in W.
  destruct (submitted triangle (no_values, [])) as [cur vs] eqn:Es. cbn [fst snd].
  assert (length vs = 3%nat) as L by (apply (f_equal (λ s, length s.2)) in Es; cbn [snd] in Es; rewrite <- Es; by vm_compute).
  rewrite L in W. exact W.
Defined.
