(* ===== verification/GpuRun.v ===== *)
(** * The graphics processor as a whole

    PFIFO and PGRAPH run together: the pusher fills CACHE1, the puller takes an entry and
    makes the calls of PGRAPH it stands for, some of which wait for the guest, and the guest
    accesses registers and memory in between.  Every call is made before the next entry is
    taken, so PGRAPH does what was submitted in the order of submission; and the invariants
    of PGRAPH hold whatever the others do.  The steps interleave, and each is atomic: PGRAPH
    makes a call under its lock, and a store of the guest falls between two calls. *)

From S2P Require Import Prelude Bytes Fields Swizzle Lru Nv2a Pfifo PgraphRegs Gl PgraphState Surface Texture Shader Vertex Pgraph PgraphFrame PgraphDraw PgraphInit.

(** ** What the accesses of the guest leave alone *)

Section accesses.
Context {V : Type} `{VgaPort V}.
Implicit Types d : NV2AState V.

Lemma block_write_constants d b addr val d' : block_write d b addr val = Ok d' → vsh_constants d' = vsh_constants d.
Proof.
  intros E. destruct b; cbn [block_write] in E; try (apply Ok_inj in E; subst d'; try done).
  - unfold pmc_write. by repeat case_match.
  - unfold pbus_write. by case_match.
  - unfold pfifo_write. by repeat case_match.
  - unfold pvideo_write, pvideo_vga_invalidate. by repeat case_match.
  - unfold ptimer_write. by repeat case_match.
  - unfold pgraph_write, rdi_next in E. repeat case_match; repeat (apply bind_ok in E as (? & ? & E)); try done;
      apply Ok_inj in E; by subst d'.
  - unfold pcrtc_write. by repeat case_match.
  - unfold user_write in E. rewrite bind_ok in E. destruct E as (? & _ & E).
    repeat case_match; apply Ok_inj in E || done; by subst d'.
Qed.

Lemma block_read_constants vram_size d now b addr size r d' : block_read vram_size d now b addr size = Ok (r, d') →
  (vsh_constants d', pfifo_regs d') = (vsh_constants d, pfifo_regs d).
Proof.
  intros E. destruct b; cbn [block_read] in E; repeat (apply bind_ok in E as (? & ? & E));
    try (injection E as _ <-; done).
  - unfold prmcio_read in E. case_match. by injection E as _ <-.
  - unfold pgraph_read, rdi_next in E. repeat case_match;
      repeat (apply bind_ok in E as (? & ? & E)); try (injection E as _ <-; done).
    match goal with H : _ = Ok ?d1 |- _ => apply bind_ok in H as (? & ? & H); apply Ok_inj in H; subst d1 end.
    by injection E as _ <-.
  - unfold prmcio_read in E. case_match. by injection E as _ <-.
Qed.

Lemma puller_step_device d d' calls : puller_step d = Ok (Some (d', calls)) → vsh_constants d' = vsh_constants d.
Proof.
  unfold puller_step. do 2 (case_match; [done |]). intros ([[r e] p] & _ & ([r' cs] & _ & [= <- _])%bind_ok)%bind_ok. done.
Qed.
End accesses.

Section run.
Context {V : Type} `{VgaPort V} `{OpenGL} (generate_shaders : ShaderState → ShaderBinding) (vram_size : Z).
Implicit Types g : Gpu V.

(** ** The calls of PGRAPH *)

Definition access_allowed g : bool := nz (reg g NV_PGRAPH_FIFO .& NV_PGRAPH_FIFO_ACCESS).

Definition pgraph_wait_fifo_access g : Gpu V := if access_allowed g then g else g <| waiting := AwaitAccess |>.

Definition exec_call (c : pgraph_call) g : res (Gpu V) :=
  match c with
  | ContextSwitch chid =>
      '((d, wait) : NV2AState V * bool) ← pgraph_context_switch (nv g) chid;
      Ok (if wait then g <| nv := d |> <| waiting := AwaitSwitch |> else g <| nv := d |>)
  | WaitFifoAccess => Ok (pgraph_wait_fifo_access g)
  | Method subchannel method parameter => pgraph_method generate_shaders vram_size subchannel method parameter g
  end.

(** The condition of the loop around the wait is checked again when the thread is woken. *)
Definition woken g : bool :=
  match waiting g with
  | Running => true
  | AwaitNotify => negb (nz (pgraph_pending (nv g) .& NV_PGRAPH_INTR_ERROR))
  | AwaitFlip => negb (flip_pending g)
  | AwaitSwitch => negb (nz (pgraph_pending (nv g) .& NV_PGRAPH_INTR_CONTEXT_SWITCH))
  | AwaitAccess => access_allowed g
  end.

(** ** Runs

    A step is one of the pusher, of the puller, of PGRAPH or of the guest.
    [gpu_step own_ring g todo ps cs es g' todo']: from the state [g], with the calls [todo] of
    the entry taken last still to be made, to [g'] and [todo'].  The pusher adds the entries
    [ps], the puller takes an entry from the device and for the calls in [cs], and PGRAPH
    makes the calls [es].

    An iteration of the pusher is a step of its own, on any buffer of commands.  The guest
    accesses registers, and stores to the video memory, which makes pages dirty, and to the
    instance memory, which is plain memory of the device to it (nv2a_init_memory).  Only if
    [own_ring] is set, it leaves the registers of the ring of CACHE1 to the device. *)
Inductive gpu_step (own_ring : bool) : Gpu V → list pgraph_call → list (Z * Z) → list (NV2AState V * list pgraph_call) →
  list pgraph_call → Gpu V → list pgraph_call → Prop :=
| step_push g todo dma len o : pusher_step vram_size (nv g) (pfifo_regs (nv g)) dma len = Ok o →
    gpu_step own_ring g todo (pushed vram_size (nv g) (pfifo_regs (nv g)) dma) [] []
      (g <| nv ::= λ d, d <| pfifo_regs := outcome_regs o |> |>) todo
| step_pull g d calls : waiting g = Running → puller_step (nv g) = Ok (Some (d, calls)) →
    gpu_step own_ring g [] [] [(nv g, calls)] [] (g <| nv := d |>) calls
| step_call g c todo g' : waiting g = Running → exec_call c g = Ok g' → gpu_step own_ring g (c :: todo) [] [] [c] g' todo
| step_wake g todo : woken g = true → gpu_step own_ring g todo [] [] [] (g <| waiting := Running |>) todo
| step_write g todo b addr val d : (own_ring = true → b = PFIFO → ~ ring_reg addr) → block_write (nv g) b addr val = Ok d →
    gpu_step own_ring g todo [] [] [] (g <| nv := d |>) todo
| step_read g todo now b addr size r d : block_read vram_size (nv g) now b addr size = Ok (r, d) →
    gpu_step own_ring g todo [] [] [] (g <| nv := d |>) todo
| step_store g todo m pages : gpu_step own_ring g todo [] [] []
    (g <| nv ::= λ d, d <| vram := m |> |> <| nv2a_dirty ::= (pages ∪.) |> <| vga_dirty ::= (pages ∪.) |>) todo
| step_ramin g todo m : gpu_step own_ring g todo [] [] [] (g <| nv ::= λ d, d <| ramin := m |> |>) todo
| step_vblank g todo : gpu_step own_ring g todo [] [] [] (g <| nv ::= nv2a_vga_gfx_update |>) todo.

Inductive gpu_run (own_ring : bool) : Gpu V → list pgraph_call → list (Z * Z) → list (NV2AState V * list pgraph_call) →
  list pgraph_call → Gpu V → list pgraph_call → Prop :=
| gpu_done g todo : gpu_run own_ring g todo [] [] [] g todo
| gpu_more g todo ps cs es g1 todo1 ps' cs' es' g' todo' :
    gpu_step own_ring g todo ps cs es g1 todo1 → gpu_run own_ring g1 todo1 ps' cs' es' g' todo' →
    gpu_run own_ring g todo (ps ++ ps') (cs ++ cs') (es ++ es') g' todo'.

(** ** Scripts

    A run that is given step by step, and computed. *)

#[export] Instance block_eq_dec : EqDecision block.
Proof. solve_decision. Defined.

Inductive action :=
| Push (dma len : Z)
| Pull
| Call
| Wake
| WriteReg (b : block) (addr val : Z)
| StoreVram (m : mem)
| StoreRamin (m : mem).

Definition played : Type := Gpu V * list pgraph_call * list (Z * Z) * list (NV2AState V * list pgraph_call) * list pgraph_call.

Definition act (a : action) g (todo : list pgraph_call) : option played :=
  match a with
  | Push dma len =>
      match pusher_step vram_size (nv g) (pfifo_regs (nv g)) dma len with
      | Ok o => Some (g <| nv ::= λ d, d <| pfifo_regs := outcome_regs o |> |>, todo,
                      pushed vram_size (nv g) (pfifo_regs (nv g)) dma, [], [])
      | Fault _ => None
      end
  | Pull =>
      match waiting g, todo, puller_step (nv g) with
      | Running, [], Ok (Some (d, calls)) => Some (g <| nv := d |>, calls, [], [(nv g, calls)], [])
      | _, _, _ => None
      end
  | Call =>
      match waiting g, todo with
      | Running, c :: todo => match exec_call c g with Ok g => Some (g, todo, [], [], [c]) | Fault _ => None end
      | _, _ => None
      end
  | Wake => if woken g then Some (g <| waiting := Running |>, todo, [], [], []) else None
  | WriteReg b addr val =>
      if bool_decide (b = PFIFO ∧ ring_reg addr) then None
      else match block_write (nv g) b addr val with Ok d => Some (g <| nv := d |>, todo, [], [], []) | Fault _ => None end
  | StoreVram m =>
      Some (g <| nv ::= λ d, d <| vram := m |> |> <| nv2a_dirty ::= (∅ ∪.) |> <| vga_dirty ::= (∅ ∪.) |>, todo, [], [], [])
  | StoreRamin m => Some (g <| nv ::= λ d, d <| ramin := m |> |>, todo, [], [], [])
  end.

Fixpoint play (script : list action) g (todo : list pgraph_call) : option played :=
  match script with
  | [] => Some (g, todo, [], [], [])
  | a :: script =>
      '(g, todo, ps, cs, es) ← act a g todo;
      '(g, todo, ps', cs', es') ← play script g todo;
      Some (g, todo, ps ++ ps', cs ++ cs', es ++ es')
  end.

Lemma act_step own_ring a g todo g' todo' ps cs es : act a g todo = Some (g', todo', ps, cs, es) →
  gpu_step own_ring g todo ps cs es g' todo'.
Proof.
  destruct a; cbn [act]; intros E.
  - destruct (pusher_step _ _ _ _ _) as [o |] eqn:P; simplify_eq. by eapply step_push.
  - destruct (waiting g) eqn:W, todo; try done. destruct (puller_step (nv g)) as [[[d calls] |] |] eqn:P; simplify_eq.
    by apply step_pull.
  - destruct (waiting g) eqn:W, todo as [| c todo]; try done. destruct (exec_call c g) eqn:P; simplify_eq. by apply step_call.
  - destruct (woken g) eqn:W; simplify_eq. by apply step_wake.
  - case_bool_decide as N; [done |]. destruct (block_write _ _ _ _) as [d |] eqn:P; simplify_eq.
    eapply step_write; [| exact P]. intros _ -> R. by apply N.
  - simplify_eq. apply step_store.
  - simplify_eq. apply step_ramin.
Qed.

Lemma play_run own_ring script g todo g' todo' ps cs es : play script g todo = Some (g', todo', ps, cs, es) →
  gpu_run own_ring g todo ps cs es g' todo'.
Proof.
  revert g todo ps cs es. induction script as [| a script IH]; intros g todo ps cs es; cbn [play].
  - intros [= <- <- <- <- <-]. apply gpu_done.
  - destruct (act a g todo) as [[[[[g1 todo1] ps1] cs1] es1] |] eqn:E1; [| done]. cbn.
    destruct (play script g1 todo1) as [[[[[g2 todo2] ps2] cs2] es2] |] eqn:E2; [| done]. intros [= <- <- <- <- <-].
    eapply gpu_more; [by eapply act_step | by apply IH].
Qed.

(** ** What every step keeps *)

Context (distinct : ∀ st, distinct_locations (generate_shaders st)).

(** What a call does to the rest of the processor. *)
Definition holds g : Prop := textures_hold [] g ∧ in_sync generate_shaders g ∧ attributes_ok (batch (pg g)).

Lemma holds_device g g' : vsh_constants (nv g') = vsh_constants (nv g) → pg g' = pg g → gl g' = gl g → holds g → holds g'.
Proof.
  intros Ev Ep El (T & S & A). split_and!; [| | by rewrite Ep].
  - revert T. apply textures_hold_store. unfold texture_store. by rewrite Ep.
  - revert S. apply in_sync_part. unfold sync_part. by rewrite Ev, Ep, El.
Qed.

Lemma method_regs sub m p g g' : pgraph_method generate_shaders vram_size sub m p g = Ok g' →
  pfifo_regs (nv g') = pfifo_regs (nv g).
Proof.
  intros E. destruct (method_outcome generate_shaders vram_size distinct sub m p g g' E) as (_ & _ & _ & [R | [R _]]);
    exact (f_equal pfifo_regs R).
Qed.

Lemma exec_call_keeps c g g' : exec_call c g = Ok g' → (holds g → holds g') ∧ pfifo_regs (nv g') = pfifo_regs (nv g).
Proof.
  intros E. destruct c as [chid | | sub m p]; cbn [exec_call] in E.
  - apply bind_ok in E as ([d wait] & E & <-%Ok_inj).
    assert (vsh_constants d = vsh_constants (nv g) ∧ pfifo_regs d = pfifo_regs (nv g)) as [V1 V2].
    { unfold pgraph_context_switch in E. case_match; [by injection E as <- _ |].
      apply bind_ok in E as (? & _ & E). by injection E as <- _. }
    split; [| by destruct wait]. destruct wait; by apply holds_device.
  - injection E as <-. unfold pgraph_wait_fifo_access. case_match; [done |]. split; [by apply holds_device | done].
  - split; [| by eapply method_regs]. intros (T & S & A).
    destruct (method_outcome generate_shaders vram_size distinct sub m p g g' E) as (T' & S' & A' & _).
    split_and!; [auto.. |]. by apply (attributes_ok_same (batch (pg g))).
Qed.

Lemma gfx_update_constants (d : NV2AState V) : vsh_constants (nv2a_vga_gfx_update d) = vsh_constants d ∧
  pfifo_regs (nv2a_vga_gfx_update d) = pfifo_regs d.
Proof. done. Qed.

Lemma gpu_step_keeps own_ring g todo ps cs es g' todo' : gpu_step own_ring g todo ps cs es g' todo' → holds g → holds g'.
Proof.
  intros S. destruct S as [g todo dma len o E | g d calls W E | g c todo g' W E | g todo W | g todo b addr val d N E
    | g todo now b addr size r d E | g todo m pages | g todo m | g todo]; try (by apply holds_device).
  - apply holds_device; [| done | done]. exact (puller_step_device _ _ _ E).
  - apply (exec_call_keeps c g g' E).
  - apply holds_device; [| done | done]. exact (block_write_constants _ _ _ _ _ E).
  - pose proof (block_read_constants _ _ _ _ _ _ _ _ E) as K. rewrite pair_equal_spec in K. destruct K as [K _]. by apply holds_device.
Qed.

Lemma gpu_run_keeps own_ring g todo ps cs es g' todo' : gpu_run own_ring g todo ps cs es g' todo' → holds g → holds g'.
Proof. induction 1 as [| g todo ps cs es g1 todo1 ps' cs' es' g' todo' S R IH]; [done |]. intros Hg. by eapply IH, gpu_step_keeps. Qed.

(** A step is one of PFIFO, with the calls of PGRAPH among the other changes. *)
Lemma gpu_step_fifo g todo ps cs es g1 todo1 : gpu_step true g todo ps cs es g1 todo1 →
  todo ++ concat cs.*2 = es ++ todo1 ∧
  ∀ ps' cs' d, fifo_run vram_size (nv g1) ps' cs' d → fifo_run vram_size (nv g) (ps ++ ps') (cs ++ cs') d.
Proof.
  intros S. destruct S as [g todo dma len o E | g d calls W E | g c todo g' W E | g todo W | g todo b addr val d N E
    | g todo now b addr size r d E | g todo m pages | g todo m | g todo]; (split; [cbn; by rewrite ?app_nil_r |]); intros ps' cs' d' F.
  - by eapply run_push.
  - by eapply run_pull.
  - eapply run_other; [| exact F]. by apply (exec_call_keeps c g g' E).
  - exact F.
  - eapply run_guest; [| exact E | exact F]. by apply N.
  - pose proof (block_read_constants _ _ _ _ _ _ _ _ E) as K. rewrite pair_equal_spec in K. destruct K as [_ K].
    by eapply run_other.
  - by eapply run_other; [| exact F].
  - by eapply run_other; [| exact F].
  - by eapply run_other; [| exact F].
Qed.

Lemma gpu_run_fifo g todo ps cs es g' todo' : gpu_run true g todo ps cs es g' todo' →
  fifo_run vram_size (nv g) ps cs (nv g') ∧ todo ++ concat cs.*2 = es ++ todo'.
Proof.
  induction 1 as [| g todo ps cs es g1 todo1 ps' cs' es' g' todo' S R (F & Q)]; [split; [apply run_done | by rewrite app_nil_r] |].
  destruct (gpu_step_fifo _ _ _ _ _ _ _ S) as [Q1 F1]. split; [by apply F1 |].
  rewrite fmap_app, concat_app, app_assoc, Q1, <- !app_assoc. by f_equal.
Qed.

(** ** From the start *)

(** The device after [nv2a_realize] and [pgraph_init]. *)
Definition started (cfg : mem) (v : V) (entries : gmap Z (lru_node TextureKey)) g : Prop :=
  (∀ i, 0 ≤ i < texture_cache_size → is_Some (entries !! i)) ∧
  ∃ g0, nv g0 = nv2a_realize cfg v ∧ cleared g0 ∧ pgraph_init vram_size entries g0 = Ok g.

Lemma gen_attribute_buffers_nv i g : kept nv id g (gen_attribute_buffers i g).
Proof. unfold gen_attribute_buffers, gen_buffer. keeps. Qed.

Lemma init_nv entries g : kept nv id g (pgraph_init vram_size entries g).
Proof.
  unfold pgraph_init, first_framebuffer, gen_buffer. keeps.
  eapply kept_base; [apply kept_for_int; intros; apply gen_attribute_buffers_nv | done].
Qed.

Lemma started_holds cfg v entries g : fresh_buffers → started cfg v entries g → nv g = nv2a_realize cfg v ∧ holds g.
Proof.
  intros F (He & g0 & En & C & E). split; [by rewrite <- En, <- (init_nv entries g0 g E) |].
  exact (init_invariants generate_shaders vram_size entries g0 g F He C E).
Qed.

(** C2: the graphics processor does what was submitted, in the order of submission.  From
    the start, however pusher, puller, PGRAPH and the guest interleave, and however long
    PGRAPH waits for the guest: the entries the pusher added are those the puller took
    followed by those that CACHE1 still holds; each entry taken stands for its calls of
    PGRAPH, with the objects that the instance memory had for its handles when it was
    taken; and the calls that PGRAPH made are exactly these calls in this order, up to
    those of the entry taken last that it has still to make.  Nothing is lost, made twice
    or made out of order, and no method of PGRAPH touches the ring.  The guest reads and
    writes registers and stores to the video memory and the instance memory as it likes,
    with one restriction: it does not write the registers of CACHE1's ring itself (GET,
    PUT, STATUS and the entries), which would change the queue. *)
Theorem gpu_in_order cfg v entries g ps cs es g' todo' : fresh_buffers → started cfg v entries g →
  gpu_run true g [] ps cs es g' todo' →
  ∃ pulled q', queue (pfifo_regs (nv g')) q' ∧ ps = pulled ++ q' ∧
    Forall2 (λ e c, delivered c.1 e c.2) pulled cs ∧ concat cs.*2 = es ++ todo'.
Proof.
  intros F S R. destruct (gpu_run_fifo _ _ _ _ _ _ _ R) as (R1 & Q). destruct (started_holds _ _ _ _ F S) as [En _].
  destruct (fifo_run_order vram_size _ _ _ _ R1 []) as (pulled & q' & Hq & Eq & D); [rewrite En; apply realize_queue |].
  by exists pulled, q'.
Qed.

(** C3: the invariants of PGRAPH hold at every moment of every run from the start,
    whatever methods the guest submits, whatever registers it reads and writes in between
    (those of CACHE1's ring included), and whatever it stores to the video memory and the
    instance memory.  The reference count of every texture object is the number of texture
    units and cache entries that hold it, no one holds an object that is gone, the cache is
    well formed, and every entry of it in use has its object; the constants that are not
    marked as changed are those that the program in use has in its uniforms, and every
    program in the cache is that of the state it is filed under; the attributes have
    different buffers and four components. *)
Theorem gpu_invariants own_ring cfg v entries g ps cs es g' todo' : fresh_buffers → started cfg v entries g →
  gpu_run own_ring g [] ps cs es g' todo' →
  textures_hold [] g' ∧ in_sync generate_shaders g' ∧ attributes_ok (batch (pg g')).
Proof. intros F S R. apply (gpu_run_keeps _ _ _ _ _ _ _ _ R). by eapply started_holds. Qed.

End run.

(** ** A frame with a texture, as an example *)

Module SampleRun.
Import Sample.

#[export] Instance no_vga_port : VgaPort () := {|
  vga_ioport_read := λ v _, (0, v); vga_ioport_write := λ v _ _, v;
  vga_invalidate_scanlines := λ v _ _, v; ar_flip_flop := λ _, 0; cr := λ _ _, 0
|}.

Definition vram_size : Z := 0x2000.
Definition start : Gpu () := result (pgraph_init vram_size entries (before (nv2a_realize ∅ ()))).

Lemma start_started : started vram_size ∅ () entries start.
Proof.
  split; [exact entries_all |]. exists (before (nv2a_realize ∅ ())). split_and!; [done | done |].
  apply result_ok. by vm_compute.
Qed.

Definition words (ws : list Z) : list Z := ws ≫= le_bytes 4.

(** The instance memory: in the hash table, the handle 1 for an object of the Kelvin class at
    0x1000 and the handle 2 for a context of memory at 0x1100, which is the video memory. *)
Definition instance : mem :=
  wr_bytes (wr_bytes (wr_bytes ∅ 8 (words [1; 0x80010100; 2; 0x80010110]))
    0x1000 (words [NV_KELVIN_PRIMITIVE; 0; 0; 0])) 0x1100 (words [NV_DMA_IN_MEMORY_CLASS; 0x1fff; 0]).

(** The methods: the objects, the surface of four by four pixels at 0xc00, the texture of two
    by two at 0x800 in the unit 0, and a triangle. *)
Definition methods : list (Z * list Z) :=
  [(0, [1]); (NV097_SET_CONTEXT_DMA_A, [2]); (NV097_SET_CONTEXT_DMA_COLOR, [2]);
   (NV097_SET_SURFACE_CLIP_HORIZONTAL, [0x40000; 0x40000; 0x128; 0x100010; 0xc00]);
   (NV097_SET_COLOR_MASK, [0x01010101]);
   (NV097_SET_TEXTURE_OFFSET, [0x800; 0x01110629; 0x101; Z.shiftl 1 30]);
   (NV097_SET_BEGIN_END, [5]);
   (NV097_SET_VERTEX3F, [0; 0; 0]); (NV097_SET_VERTEX3F, [0x3f800000; 0; 0]); (NV097_SET_VERTEX3F, [0; 0x3f800000; 0]);
   (NV097_SET_BEGIN_END, [0])].

Definition commands : list Z := methods ≫= λ '(m, ps), (Z.of_nat (length ps) .<< 18 .| m) :: ps.
Definition size : Z := 4 * Z.of_nat (length commands).

Definition script : list action :=
  [StoreRamin instance; StoreVram (wr_bytes ∅ 0 (words commands));
   WriteReg PFIFO NV_PFIFO_CACHE1_DMA_PUT size; WriteReg PFIFO NV_PFIFO_CACHE1_ENGINE 1; WriteReg PFIFO NV_PFIFO_CACHE1_PULL0 1;
   WriteReg PGRAPH NV_PGRAPH_CTX_CONTROL NV_PGRAPH_CTX_CONTROL_CHID; WriteReg PGRAPH NV_PGRAPH_FIFO NV_PGRAPH_FIFO_ACCESS] ++
  methods ≫= λ '(m, ps), replicate (S (length ps)) (Push 0 vram_size) ++
    (ps ≫= λ _, Pull :: replicate (if m =? 0 then 3 else 2) Call).

(** The texture of the unit 0, held by the unit and the cache, and the triangle (GL_TRIANGLES is 4) drawn. *)
Definition textured (g : Gpu ()) : Prop :=
  (p ← texture_binding (textures (pg g)) !! 0; refcnt <$> bindings (textures (pg g)) !! p) = Some 2 ∧
  glDrawArrays 4 0 3 ∈ gl g.

Definition textured_b (g : Gpu ()) : bool :=
  bool_decide ((p ← texture_binding (textures (pg g)) !! 0; refcnt <$> bindings (textures (pg g)) !! p) = Some 2) &&
  existsb (λ c, match c with glDrawArrays m f n => (m =? 4) && (f =? 0) && (n =? 3) | _ => false end) (gl g).

Lemma textured_sound g : textured_b g = true → textured g.
Proof.
  intros [B%bool_decide_eq_true (c & Hc & E)%existsb_exists]%andb_true_iff. split; [exact B |].
  destruct c; try done. apply andb_true_iff in E as [[-> %Z.eqb_eq -> %Z.eqb_eq]%andb_true_iff ->%Z.eqb_eq].
  by apply list_elem_of_In.
Qed.

(** How a script ends: with nothing to do, [n] calls made and the texture in place. *)
Definition ends (n : nat) (o : option (played (V := ()))) : bool :=
  match o with Some (g, [], _, _, es) => (length es =? n)%nat && textured_b g | _ => false end.

Lemma ends_sound n o : ends n o = true →
  ∃ g ps cs es, o = Some (g, [], ps, cs, es) ∧ length es = n ∧ textured g.
Proof.
  destruct o as [[[[[g [|]] ps] cs] es] |]; try done. intros [L%Nat.eqb_eq T%textured_sound]%andb_true_iff.
  by exists g, ps, cs, es.
Qed.

Lemma script_ends : ends 49 (play programs vram_size script start []) = true.
Proof. by vm_compute. Qed.

Lemma script_run own_ring : ∃ g ps cs es, gpu_run programs vram_size own_ring start [] ps cs es g [] ∧ length es = 49%nat ∧ textured g.
Proof.
  destruct (ends_sound _ _ script_ends) as (g & ps & cs & es & E & L & T). exists g, ps, cs, es.
  exact (conj (play_run programs vram_size own_ring script start [] g [] ps cs es E) (conj L T)).
Qed.
End SampleRun.

Import Sample SampleRun.

Lemma gpu_in_order_witness : ∃ ps cs es g' pulled q',
  gpu_run programs vram_size true start [] ps cs es g' [] ∧ length es = 49%nat ∧ textured g' ∧
  queue (pfifo_regs (nv g')) q' ∧ ps = pulled ++ q' ∧
  Forall2 (λ e c, delivered c.1 e c.2) pulled cs ∧ concat cs.*2 = es ++ [].
Proof.
  destruct (script_run true) as (g' & ps & cs & es & R & L & T).
  destruct (gpu_in_order programs vram_size programs_distinct ∅ () entries start ps cs es g' [] renderer_fresh start_started R)
    as (pulled & q' & W). exists ps, cs, es, g', pulled, q'. exact (conj R (conj L (conj T W))).
Defined.

Lemma gpu_invariants_witness : ∃ ps cs es g', gpu_run programs vram_size false start [] ps cs es g' [] ∧ textured g' ∧
  textures_hold [] g' ∧ in_sync programs g' ∧ attributes_ok (batch (pg g')).
Proof.
  destruct (script_run false) as (g' & ps & cs & es & R & _ & T). exists ps, cs, es, g'.
  exact (conj R (conj T (gpu_invariants programs vram_size programs_distinct false ∅ () entries start ps cs es g' []
    renderer_fresh start_started R))).
Defined.
