(* ===== verification/Smbus.v ===== *)
(** * The system management bus

    The controller the guest programs (src/hw/xbox/amd_smbus.c), the master side of the
    protocol (src/hw/i2c/smbus_master.c), the bus (src/hw/i2c/core.c), the state machine on
    the device side (src/hw/i2c/smbus_slave.c) and the chips of the Xbox behind it: the
    system management controller (smbus_xbox_smc.c), the TV encoder (smbus_cx25871.c), the
    temperature sensor (smbus_adm1032.c) and the EEPROM (src/hw/i2c/smbus_eeprom.c).

    A transaction of the controller passes through five layers, byte by byte; it is shown
    to amount to one call of the chip's functions, with the bus idle again afterwards. *)

From S2P Require Import Prelude Bytes.

(** What a chip does: [quick_cmd], [write_data] and [receive_byte] of [SMBusDeviceClass]. *)
Class SmbusChip (D : Type) := {
  quick_cmd : D → bool → D;
  write_data : D → list Z → D;
  receive_byte : D → res (Z * D)
}.

Inductive smbus_mode := SMBUS_IDLE | SMBUS_WRITE_DATA | SMBUS_READ_DATA | SMBUS_DONE | SMBUS_CONFUSED.

Inductive i2c_event := I2C_START_RECV | I2C_START_SEND | I2C_FINISH | I2C_NACK.

Definition SMBUS_DATA_MAX_LEN := 34.
Definition I2C_BROADCAST := 0.

(** ** The device side *)

Section bus.
Context {D : Type} `{SmbusChip D}.

(** [data_len] is the length of [data_buf]. *)
Record SMBusDevice := Dev {
  mode : smbus_mode;
  data_buf : list Z;
  chip : D
}.

Implicit Types (dev : SMBusDevice).

Definition smbus_do_write dev : D := write_data (chip dev) (data_buf dev).

Definition smbus_i2c_event dev (event : i2c_event) : SMBusDevice :=
  match event with
  | I2C_START_SEND =>
      match mode dev with
      | SMBUS_IDLE => Dev SMBUS_WRITE_DATA (data_buf dev) (chip dev)
      | _ => Dev SMBUS_CONFUSED (data_buf dev) (chip dev)
      end
  | I2C_START_RECV =>
      match mode dev with
      | SMBUS_IDLE => Dev SMBUS_READ_DATA (data_buf dev) (chip dev)
      | SMBUS_WRITE_DATA =>
          match data_buf dev with
          | [] => Dev SMBUS_CONFUSED (data_buf dev) (chip dev)
          | _ => Dev SMBUS_READ_DATA (data_buf dev) (smbus_do_write dev)
          end
      | _ => Dev SMBUS_CONFUSED (data_buf dev) (chip dev)
      end
  | I2C_FINISH =>
      let c :=
        match data_buf dev, mode dev with
        | [], SMBUS_WRITE_DATA => quick_cmd (chip dev) false
        | [], SMBUS_READ_DATA => quick_cmd (chip dev) true
        | _ :: _, SMBUS_WRITE_DATA => smbus_do_write dev
        | _, _ => chip dev
        end in
      Dev SMBUS_IDLE [] c
  | I2C_NACK =>
      match mode dev with
      | SMBUS_DONE => dev
      | SMBUS_READ_DATA => Dev SMBUS_DONE (data_buf dev) (chip dev)
      | _ => Dev SMBUS_CONFUSED (data_buf dev) (chip dev)
      end
  end.

Definition smbus_i2c_recv dev : res (Z * SMBusDevice) :=
  match mode dev with
  | SMBUS_READ_DATA =>
      '(ret, c) ← receive_byte (chip dev);
      Ok (ret, Dev (mode dev) (data_buf dev) c)
  | _ => Ok (0xff, Dev SMBUS_CONFUSED (data_buf dev) (chip dev))
  end.

Definition smbus_i2c_send dev (data : Z) : SMBusDevice :=
  match mode dev with
  | SMBUS_WRITE_DATA =>
      if SMBUS_DATA_MAX_LEN <=? Z.of_nat (length (data_buf dev)) then dev
      else Dev (mode dev) (data_buf dev ++ [data]) (chip dev)
  | _ => dev
  end.

(** ** The bus *)

(** The devices with their addresses, the positions of those that take part in the
    transfer, and whether it is a broadcast. *)
Record I2CBus := Bus {
  children : list (Z * SMBusDevice);
  current_devs : list nat;
  broadcast : bool
}.

Implicit Types (bus : I2CBus).

(** Apply [f] to the devices that take part. *)
Definition on_current (f : SMBusDevice → SMBusDevice) bus : I2CBus :=
  Bus (foldl (λ l i, alter (prod_map id f) i l) (children bus) (current_devs bus))
    (current_devs bus) (broadcast bus).

(** The devices that answer, the one inserted last in front. *)
Definition scan bus (address : Z) (all : bool) : list nat :=
  if all then rev (seq 0 (length (children bus)))
  else match list_find (λ c, c.1 = address) (children bus) with Some (i, _) => [i] | None => [] end.

(** The second component is the error. *)
Definition i2c_start_transfer bus (address : Z) (recv : bool) : I2CBus * bool :=
  let all := (address =? I2C_BROADCAST) || broadcast bus in
  let current := match current_devs bus with [] => scan bus address all | l => l end in
  let bus := Bus (children bus) current all in
  match current with
  | [] => (bus, true)
  | _ => (on_current (λ dev, smbus_i2c_event dev (if recv then I2C_START_RECV else I2C_START_SEND)) bus, false)
  end.

Definition i2c_end_transfer bus : I2CBus :=
  let bus := on_current (λ dev, smbus_i2c_event dev I2C_FINISH) bus in
  Bus (children bus) [] false.

Definition i2c_send bus (data : Z) : I2CBus := on_current (λ dev, smbus_i2c_send dev data) bus.

Definition i2c_recv bus : res (Z * I2CBus) :=
  match current_devs bus with
  | i :: _ =>
      if broadcast bus then Ok (0xff, bus)
      else
        match children bus !! i with
        | Some (a, dev) =>
            '(ret, dev) ← smbus_i2c_recv dev;
            Ok (ret, Bus (<[i := (a, dev)]> (children bus)) (current_devs bus) (broadcast bus))
        | None => Fault out_of_bounds
        end
  | [] => Ok (0xff, bus)
  end.

Definition i2c_nack bus : I2CBus := on_current (λ dev, smbus_i2c_event dev I2C_NACK) bus.

(** ** The master side: the value is -1 when no device answers *)

Definition smbus_quick_command bus (addr : Z) (read : bool) : Z * I2CBus :=
  let '(bus, err) := i2c_start_transfer bus addr read in
  if err then (-1, bus) else (0, i2c_end_transfer bus).

Definition smbus_receive_byte bus (addr : Z) : res (Z * I2CBus) :=
  let '(bus, err) := i2c_start_transfer bus addr true in
  if err then Ok (-1, bus)
  else
    '(data, bus) ← i2c_recv bus;
    Ok (data, i2c_end_transfer (i2c_nack bus)).

Definition smbus_send_byte bus (addr data : Z) : Z * I2CBus :=
  let '(bus, err) := i2c_start_transfer bus addr false in
  if err then (-1, bus) else (0, i2c_end_transfer (i2c_send bus data)).

Definition smbus_read_byte bus (addr command : Z) : res (Z * I2CBus) :=
  let '(bus, err) := i2c_start_transfer bus addr false in
  if err then Ok (-1, bus)
  else
    let bus := i2c_send bus command in
    let '(bus, err) := i2c_start_transfer bus addr true in
    if err then Ok (-1, i2c_end_transfer bus)
    else
      '(data, bus) ← i2c_recv bus;
      Ok (data, i2c_end_transfer (i2c_nack bus)).

Definition smbus_write_byte bus (addr command data : Z) : Z * I2CBus :=
  let '(bus, err) := i2c_start_transfer bus addr false in
  if err then (-1, bus) else (0, i2c_end_transfer (i2c_send (i2c_send bus command) data)).

Definition smbus_read_word bus (addr command : Z) : res (Z * I2CBus) :=
  let '(bus, err) := i2c_start_transfer bus addr false in
  if err then Ok (-1, bus)
  else
    let bus := i2c_send bus command in
    let '(bus, err) := i2c_start_transfer bus addr true in
    if err then Ok (-1, i2c_end_transfer bus)
    else
      '(lo, bus) ← i2c_recv bus;
      '(hi, bus) ← i2c_recv bus;
      Ok (u16 (lo .| (hi .<< 8)), i2c_end_transfer (i2c_nack bus)).

Definition smbus_write_word bus (addr command data : Z) : Z * I2CBus :=
  let '(bus, err) := i2c_start_transfer bus addr false in
  if err then (-1, bus)
  else (0, i2c_end_transfer (i2c_send (i2c_send (i2c_send bus command) (data .& 0xff)) (u8 (data .>> 8)))).

(** The loop of [smbus_read_block]. *)
Fixpoint recv_block (n : nat) bus : res (list Z * I2CBus) :=
  match n with
  | O => Ok ([], bus)
  | S n =>
      '(b, bus) ← i2c_recv bus;
      '(rest, bus) ← recv_block n bus;
      Ok (b :: rest, bus)
  end.

(** With [recv_len] and [send_cmd]; the bytes received are the second component. *)
Definition smbus_read_block bus (addr command len : Z) : res (Z * list Z * I2CBus) :=
  let '(bus, err) := i2c_start_transfer bus addr false in
  if err then Ok (-1, [], bus)
  else
    let bus := i2c_send bus command in
    let '(bus, err) := i2c_start_transfer bus addr true in
    if err then Ok (-1, [], i2c_end_transfer bus)
    else
      '(rlen, bus) ← i2c_recv bus;
      let rlen := if len <? rlen then 0 else rlen in
      '(data, bus) ← recv_block (Z.to_nat rlen) bus;
      Ok (rlen, data, i2c_end_transfer (i2c_nack bus)).

(** With [send_len]. *)
Definition smbus_write_block bus (addr command : Z) (data : mem) (len : Z) : Z * I2CBus :=
  let len := if 32 <? len then 32 else len in
  let '(bus, err) := i2c_start_transfer bus addr false in
  if err then (-1, bus)
  else (0, i2c_end_transfer (foldl i2c_send (i2c_send (i2c_send bus command) len) (rd_bytes data 0 len))).

(** ** The controller *)

Record AMD756SMBus := Smb {
  smbus : I2CBus;
  smb_stat : Z;
  smb_ctl : Z;
  smb_cmd : Z;
  smb_addr : Z;
  smb_data0 : Z;
  smb_data1 : Z;
  smb_data : mem;
  smb_index : Z;
  irq_line : bool
}.

#[global] Instance AMD756SMBus_eta : Eta AMD756SMBus := λ s,
  Smb (smbus s) (smb_stat s) (smb_ctl s) (smb_cmd s) (smb_addr s) (smb_data0 s) (smb_data1 s)
    (smb_data s) (smb_index s) (irq_line s).

Implicit Types (s : AMD756SMBus).

Definition GS_HCYC_STS := 1 .<< 4.
Definition GS_PRERR_STS := 1 .<< 2.
Definition GS_ABRT_STS := 1 .<< 0.
Definition GS_CLEAR_STS := (1 .<< 0) .| (1 .<< 1) .| (1 .<< 2) .| (1 .<< 4) .| (1 .<< 5).
Definition GE_HOST_STC := 1 .<< 3.
Definition GE_HCYC_EN := 1 .<< 4.
Definition GE_ABORT := 1 .<< 5.

Definition amd756_smb_transaction s : res AMD756SMBus :=
  let prot := smb_ctl s .& 7 in
  let read := nz (smb_addr s .& 1) in
  let cmd := smb_cmd s in
  let addr := (smb_addr s .>> 1) .& 0x7f in
  let bus := smbus s in
  let finish s := Ok (s <| smb_stat := smb_stat s .| GS_HCYC_STS |>) in
  if prot =? 0 then finish (s <| smbus := (smbus_quick_command bus addr read).2 |>)
  else if prot =? 1 then
    if read then
      '(v, bus) ← smbus_receive_byte bus addr;
      finish (s <| smb_data0 := u8 v |> <| smbus := bus |>)
    else finish (s <| smbus := (smbus_send_byte bus addr cmd).2 |>)
  else if prot =? 2 then
    if read then
      '(v, bus) ← smbus_read_byte bus addr cmd;
      finish (s <| smb_data0 := u8 v |> <| smbus := bus |>)
    else finish (s <| smbus := (smbus_write_byte bus addr cmd (smb_data0 s)).2 |>)
  else if prot =? 3 then
    if read then
      '(v, bus) ← smbus_read_word bus addr cmd;
      finish (s <| smb_data0 := u8 v |> <| smb_data1 := u8 (u16 v .>> 8) |> <| smbus := bus |>)
    else finish (s <| smbus := (smbus_write_word bus addr cmd ((smb_data1 s .<< 8) .| smb_data0 s)).2 |>)
  else if prot =? 5 then
    if read then
      '(n, data, bus) ← smbus_read_block bus addr cmd 32;
      finish (s <| smb_data0 := u8 n |> <| smb_data := wr_bytes (smb_data s) 0 data |> <| smbus := bus |>)
    else finish (s <| smbus := (smbus_write_block bus addr cmd (smb_data s) (smb_data0 s)).2 |>)
  else Ok (s <| smb_stat := smb_stat s .| GS_PRERR_STS |>).

Definition amd756_smb_ioport_writeb s (addr val : Z) : res AMD756SMBus :=
  let addr := addr .& 0x3f in
  if addr =? 0x0 then
    let fresh := (val .& GS_CLEAR_STS) .& .~ (smb_stat s .& GS_CLEAR_STS) in
    let s := s <| irq_line := nz (smb_ctl s .& GE_HCYC_EN) && nz fresh |> in
    Ok (s <| smb_stat := if nz (val .& GS_CLEAR_STS) then 0 else GS_HCYC_STS |> <| smb_index := 0 |>)
  else if addr =? 0x2 then
    let s := s <| smb_ctl := u8 val |> in
    let s := if nz (val .& GE_ABORT) then s <| smb_stat := smb_stat s .| GS_ABRT_STS |> else s in
    if nz (val .& GE_HOST_STC) then
      s ← amd756_smb_transaction s;
      Ok (if nz (val .& GE_HCYC_EN) && nz (smb_stat s .& GS_CLEAR_STS)
          then s <| irq_line := true |> else s)
    else Ok s
  else if addr =? 0x8 then Ok (s <| smb_cmd := u8 val |>)
  else if addr =? 0x4 then Ok (s <| smb_addr := u8 val |>)
  else if addr =? 0x6 then Ok (s <| smb_data0 := u8 val |>)
  else if addr =? 0x7 then Ok (s <| smb_data1 := u8 val |>)
  else if addr =? 0x9 then
    _ ← in_bounds (smb_index s <? 32);
    let i := u8 (smb_index s + 1) in
    Ok (s <| smb_data := wr (smb_data s) (smb_index s) (u8 val) |>
          <| smb_index := if 31 <? i then 0 else i |>)
  else Ok s.

Definition amd756_smb_ioport_readb s (addr : Z) : res (Z * AMD756SMBus) :=
  let addr := addr .& 0x3f in
  if addr =? 0x0 then Ok (smb_stat s, s)
  else if addr =? 0x2 then Ok (smb_ctl s .& 0x1f, s)
  else if addr =? 0x8 then Ok (smb_cmd s, s)
  else if addr =? 0x4 then Ok (smb_addr s, s)
  else if addr =? 0x6 then Ok (smb_data0 s, s)
  else if addr =? 0x7 then Ok (smb_data1 s, s)
  else if addr =? 0x9 then
    _ ← in_bounds (smb_index s <? 32);
    let i := u8 (smb_index s + 1) in
    Ok (rd (smb_data s) (smb_index s), s <| smb_index := if 31 <? i then 0 else i |>)
  else Ok (0, s).

Definition amd756_smbus_init (l : list (Z * SMBusDevice)) : AMD756SMBus :=
  Smb (Bus l [] false) 0 0 0 0 0 0 ∅ 0 false.

(** The window of the PCI function, which the memory core already addresses from 0: the
    base of the window is subtracted once more. *)
Definition xbox_smb_ioport_writeb s (base addr val : Z) : res AMD756SMBus :=
  amd756_smb_ioport_writeb s (u32 (u64 (addr - base))) val.

Definition xbox_smb_ioport_readb s (base addr : Z) : res (Z * AMD756SMBus) :=
  amd756_smb_ioport_readb s (u32 (u64 (addr - base))).

End bus.

Arguments SMBusDevice D : clear implicits.
Arguments I2CBus D : clear implicits.
Arguments AMD756SMBus D : clear implicits.

(** ** The chips *)

(** *** System management controller *)

Inductive power_request := RESET_REQUEST | SHUTDOWN_REQUEST.

(** The requests it has made to the machine are kept in order, the last in front. *)
Record SMBusSMCDevice := Smc {
  version_string_index : Z;
  smc_cmd : Z;
  avpack_reg : Z;
  scratch_reg : Z;
  requests : list power_request
}.

#[global] Instance SMBusSMCDevice_eta : Eta SMBusSMCDevice := λ s,
  Smc (version_string_index s) (smc_cmd s) (avpack_reg s) (scratch_reg s) (requests s).

Definition smc_write_data (smc : SMBusSMCDevice) (buf : list Z) : SMBusSMCDevice :=
  match buf with
  | [] => smc
  | cmd :: rest =>
      let smc := smc <| smc_cmd := cmd |> in
      match rest with
      | [] => smc
      | b :: _ =>
          if cmd =? 0x01 then smc <| version_string_index := b |>
          else if cmd =? 0x02 then
            if nz (b .& (0x01 .| 0x40)) then smc <| requests := RESET_REQUEST :: requests smc |>
            else if nz (b .& 0x80) then smc <| requests := SHUTDOWN_REQUEST :: requests smc |>
            else smc
          else if cmd =? 0x1b then smc <| scratch_reg := b |>
          else smc
      end
  end.

(** "P01" and the byte that ends it. *)
Definition smc_version_string : list Z := [0x50; 0x30; 0x31; 0].

(** [sizeof (smc_version_string) - 1] is the size of a pointer less one. *)
Definition smc_receive_byte (smc : SMBusSMCDevice) : res (Z * SMBusSMCDevice) :=
  let cmd := smc_cmd smc in
  let smc := smc <| smc_cmd := u8 (cmd + 1) |> in
  if cmd =? 0x01 then
    let i := version_string_index smc in
    match smc_version_string !! Z.to_nat (i mod (8 - 1)) with
    | Some c => Ok (c, smc <| version_string_index := i + 1 |>)
    | None => Fault out_of_bounds
    end
  else Ok (if cmd =? 0x04 then avpack_reg smc
           else if cmd =? 0x1b then scratch_reg smc
           else if cmd =? 0x1c then 0x52
           else if cmd =? 0x1d then 0x72
           else if cmd =? 0x1e then 0xea
           else if cmd =? 0x1f then 0x46
           else 0, smc).

Definition xbox_smc_avpack_to_reg (avpack : string) : option Z :=
  if decide (avpack = "composite"%string) then Some 0x06
  else if decide (avpack = "scart"%string) then Some 0x00
  else if decide (avpack = "svideo"%string) then Some 0x04
  else if decide (avpack = "vga"%string) then Some 0x02
  else if decide (avpack = "rfu"%string) then Some 0x03
  else if decide (avpack = "hdtv"%string) then Some 0x01
  else if decide (avpack = "none"%string) then Some 0x07
  else None.

(** The second component is the error of an unknown name. *)
Definition smbus_smc_realize (short_animation : bool) (avpack : option string) : SMBusSMCDevice * bool :=
  let smc := Smc 0 0 0 (if short_animation then 0x04 else 0) [] in
  match avpack with
  | None => (smc, false)
  | Some a =>
      match xbox_smc_avpack_to_reg a with
      | Some r => (smc <| avpack_reg := r |>, false)
      | None => (smc, true)
      end
  end.

(** *** TV encoder *)

Record SMBusCX25871Device := Cx {
  registers : mem;
  cx_cmd : Z
}.

Definition smbus_cx25871_write_data (cx : SMBusCX25871Device) (buf : list Z) : SMBusCX25871Device :=
  match buf with
  | [] => cx
  | cmd :: buf => Cx (wr_bytes (registers cx) cmd (take (Z.to_nat (256 - cmd)) buf)) cmd
  end.

Definition smbus_cx25871_receive_byte (cx : SMBusCX25871Device) : Z * SMBusCX25871Device :=
  (rd (registers cx) (cx_cmd cx), Cx (registers cx) (u8 (cx_cmd cx + 1))).

(** *** Temperature sensor *)

Definition smbus_adm1032_write_data (cmd : Z) (buf : list Z) : Z :=
  match buf with [] => cmd | b :: _ => b end.

Definition smbus_adm1032_receive_byte (cmd : Z) : Z * Z :=
  ((if (cmd =? 0x0) || (cmd =? 0x1) then 50 else 0), u8 (cmd + 1)).

(** *** EEPROM *)

Record SMBusEEPROMDevice := Eeprom {
  eeprom_data : mem;
  offset : Z;
  accessed : bool
}.

Fixpoint eeprom_store (data : mem) (off : Z) (buf : list Z) : mem * Z :=
  match buf with
  | [] => (data, off)
  | b :: buf => eeprom_store (wr data off b) ((off + 1) mod 256) buf
  end.

Definition eeprom_write_data (e : SMBusEEPROMDevice) (buf : list Z) : SMBusEEPROMDevice :=
  match buf with
  | [] => e
  | cmd :: buf => let '(data, off) := eeprom_store (eeprom_data e) cmd buf in Eeprom data off true
  end.

Definition eeprom_receive_byte (e : SMBusEEPROMDevice) : Z * SMBusEEPROMDevice :=
  (rd (eeprom_data e) (offset e), Eeprom (eeprom_data e) (u8 (offset e + 1)) true).

(** *** The chips of the machine *)

Inductive xbox_chip :=
| SMC (smc : SMBusSMCDevice)
| CX25871 (cx : SMBusCX25871Device)
| ADM1032 (cmd : Z)
| EEPROM (e : SMBusEEPROMDevice).

#[global] Instance xbox_chips : SmbusChip xbox_chip := {|
  quick_cmd := λ c _, c;
  write_data := λ c buf,
    match c with
    | SMC s => SMC (smc_write_data s buf)
    | CX25871 cx => CX25871 (smbus_cx25871_write_data cx buf)
    | ADM1032 cmd => ADM1032 (smbus_adm1032_write_data cmd buf)
    | EEPROM e => EEPROM (eeprom_write_data e buf)
    end;
  receive_byte := λ c,
    match c with
    | SMC s => '(v, s) ← smc_receive_byte s; Ok (v, SMC s)
    | CX25871 cx => let '(v, cx) := smbus_cx25871_receive_byte cx in Ok (v, CX25871 cx)
    | ADM1032 cmd => let '(v, cmd) := smbus_adm1032_receive_byte cmd in Ok (v, ADM1032 cmd)
    | EEPROM e => let '(v, e) := eeprom_receive_byte e in Ok (v, EEPROM e)
    end
|}.

(** The bus as [xbox_init_common] populates it. *)
Definition xbox_smbus_devices (eeprom_buf : mem) (short_animation : bool) (avpack : option string)
    : list (Z * SMBusDevice xbox_chip) :=
  [(0x54, Dev SMBUS_IDLE [] (EEPROM (Eeprom eeprom_buf 0 false)));
   (0x10, Dev SMBUS_IDLE [] (SMC (smbus_smc_realize short_animation avpack).1));
   (0x45, Dev SMBUS_IDLE [] (CX25871 (Cx ∅ 0)));
   (0x4c, Dev SMBUS_IDLE [] (ADM1032 0))].

(** ** A transaction reaches one chip *)

Section transaction.
Context {D : Type} `{SmbusChip D}.
Implicit Types (bus : I2CBus D) (dev : SMBusDevice D) (c : D).

(** No transfer is going on. *)
Definition bus_idle bus : Prop :=
  current_devs bus = [] ∧ broadcast bus = false ∧
  Forall (λ x, mode x.2 = SMBUS_IDLE ∧ data_buf x.2 = []) (children bus).

(** The chip at an address: the first device with it. *)
Definition chip_at bus (a : Z) : option (nat * D) :=
  match list_find (λ x : Z * SMBusDevice D, x.1 = a) (children bus) with
  | Some (i, x) => Some (i, chip x.2)
  | None => None
  end.

(** The bus with another device in the place [i]. *)
Definition with_dev bus (i : nat) (a : Z) dev (cur : list nat) : I2CBus D :=
  Bus (<[i := (a, dev)]> (children bus)) cur false.

Definition with_chip bus (i : nat) (a : Z) c : I2CBus D := with_dev bus i a (Dev SMBUS_IDLE [] c) [].

Lemma alter_lookup {A} (f : A → A) (i : nat) (l : list A) x : l !! i = Some x → alter f i l = <[i := f x]> l.
Proof.
  revert i. induction l as [| y l IH]; intros [| i]; cbn; [done | done | intros [= ->]; done |].
  intros E. f_equal. by apply IH.
Qed.

Context (bus : I2CBus D) (a : Z) (i : nat) (c0 : D).
Context (Hidle : bus_idle bus) (Hc : chip_at bus a = Some (i, c0)) (Ha : a ≠ I2C_BROADCAST).

Lemma chip_device : children bus !! i = Some (a, Dev SMBUS_IDLE [] c0) ∧ (i < length (children bus))%nat.
Proof.
  unfold chip_at in Hc. destruct (list_find _ _) as [[j [b dev]] |] eqn:E; [| done].
  apply list_find_Some in E as (E & Eb & _). cbn in *. subst b. injection Hc as -> <-.
  destruct Hidle as (_ & _ & F). rewrite Forall_lookup in F. destruct (F _ _ E) as [Em Ed]. cbn in *.
  split; [| by eapply lookup_lt_Some]. destruct dev; cbn in *; by subst.
Qed.

Lemma on_current_one f dev : on_current f (with_dev bus i a dev [i]) = with_dev bus i a (f dev) [i].
Proof.
  destruct chip_device as [_ L]. unfold on_current, with_dev. cbn [current_devs children broadcast foldl].
  rewrite (alter_lookup _ _ _ (a, dev)) by (by apply list_lookup_insert_eq). by rewrite list_insert_insert_eq.
Qed.

Lemma start_idle recv : i2c_start_transfer bus a recv =
  (with_dev bus i a (smbus_i2c_event (Dev SMBUS_IDLE [] c0) (if recv then I2C_START_RECV else I2C_START_SEND)) [i], false).
Proof.
  destruct chip_device as [E L]. pose proof Hidle as (Ecur & Eb & _). unfold i2c_start_transfer, scan.
  rewrite Ecur, Eb, (proj2 (Z.eqb_neq _ _) Ha). cbn [orb].
  unfold chip_at in Hc. destruct (list_find _ _) as [[j x] |]; [| done]. injection Hc as -> _.
  f_equal. unfold on_current, with_dev. cbn [current_devs children broadcast foldl].
  by rewrite (alter_lookup _ _ _ _ E).
Qed.

Lemma start_again dev recv : i2c_start_transfer (with_dev bus i a dev [i]) a recv =
  (with_dev bus i a (smbus_i2c_event dev (if recv then I2C_START_RECV else I2C_START_SEND)) [i], false).
Proof.
  unfold i2c_start_transfer. cbn [current_devs broadcast children with_dev].
  rewrite (proj2 (Z.eqb_neq _ _) Ha). cbn [orb]. f_equal. apply on_current_one.
Qed.

Lemma send_one dev b : i2c_send (with_dev bus i a dev [i]) b = with_dev bus i a (smbus_i2c_send dev b) [i].
Proof. apply on_current_one. Qed.

Lemma nack_one dev : i2c_nack (with_dev bus i a dev [i]) = with_dev bus i a (smbus_i2c_event dev I2C_NACK) [i].
Proof. apply on_current_one. Qed.

Lemma end_one dev : i2c_end_transfer (with_dev bus i a dev [i]) = with_dev bus i a (smbus_i2c_event dev I2C_FINISH) [].
Proof. unfold i2c_end_transfer. by rewrite on_current_one. Qed.

Lemma recv_one buf c : i2c_recv (with_dev bus i a (Dev SMBUS_READ_DATA buf c) [i]) =
  ('(v, c) ← receive_byte c; Ok (v, with_dev bus i a (Dev SMBUS_READ_DATA buf c) [i])).
Proof.
  destruct chip_device as [_ L]. unfold i2c_recv. cbn [current_devs broadcast children with_dev].
  rewrite list_lookup_insert_eq by done. cbn. destruct (receive_byte c) as [[v c'] |]; [| done]. cbn.
  by rewrite list_insert_insert_eq.
Qed.

Lemma send_write l c b : (length l < 34)%nat →
  i2c_send (with_dev bus i a (Dev SMBUS_WRITE_DATA l c) [i]) b =
  with_dev bus i a (Dev SMBUS_WRITE_DATA (l ++ [b]) c) [i].
Proof.
  intros L. rewrite send_one. unfold smbus_i2c_send. cbn [mode data_buf chip].
  by rewrite (proj2 (Z.leb_gt _ _)) by (unfold SMBUS_DATA_MAX_LEN; lia).
Qed.

Lemma sends_one ds l c : (length l + length ds ≤ 34)%nat →
  foldl i2c_send (with_dev bus i a (Dev SMBUS_WRITE_DATA l c) [i]) ds =
  with_dev bus i a (Dev SMBUS_WRITE_DATA (l ++ ds) c) [i].
Proof.
  revert l. induction ds as [| b ds IH]; intros l L; cbn [foldl]; [by rewrite app_nil_r |].
  cbn [length] in L. rewrite send_write by lia. rewrite IH by (rewrite length_app; cbn; lia). by rewrite <- app_assoc.
Qed.

(** The chip's bytes, one after the other. *)
Fixpoint receive_bytes (n : nat) c : res (list Z * D) :=
  match n with
  | O => Ok ([], c)
  | S n =>
      '(b, c) ← receive_byte c;
      '(rest, c) ← receive_bytes n c;
      Ok (b :: rest, c)
  end.

Lemma recv_block_one n buf c : recv_block n (with_dev bus i a (Dev SMBUS_READ_DATA buf c) [i]) =
  ('(l, c) ← receive_bytes n c; Ok (l, with_dev bus i a (Dev SMBUS_READ_DATA buf c) [i])).
Proof.
  revert c. induction n as [| n IH]; intros c; cbn [recv_block receive_bytes]; [done |].
  rewrite recv_one. destruct (receive_byte c) as [[b c'] |]; [| done]. cbn [mbind res_bind].
  rewrite IH. by destruct (receive_bytes n c') as [[l c''] |].
Qed.

(** Each function of the master side, as what it does with the chip. *)

Ltac on_bus :=
  repeat (
  first [rewrite start_idle | rewrite start_again | rewrite send_write by (cbn; lia)
        | rewrite nack_one | rewrite end_one];
  cbn [smbus_i2c_event mode data_buf chip app]; try unfold smbus_do_write; cbn [mode data_buf chip]).

Lemma quick_command_chip read :
  smbus_quick_command bus a read = (0, with_chip bus i a (quick_cmd c0 read)).
Proof. unfold smbus_quick_command. on_bus. by destruct read. Qed.

Lemma send_byte_chip b : smbus_send_byte bus a b = (0, with_chip bus i a (write_data c0 [b])).
Proof. unfold smbus_send_byte. on_bus. done. Qed.

Lemma write_byte_chip cmd b : smbus_write_byte bus a cmd b = (0, with_chip bus i a (write_data c0 [cmd; b])).
Proof. unfold smbus_write_byte. on_bus. done. Qed.

Lemma write_word_chip cmd w : smbus_write_word bus a cmd w =
  (0, with_chip bus i a (write_data c0 [cmd; w .& 0xff; u8 (w .>> 8)])).
Proof. unfold smbus_write_word. on_bus. done. Qed.

Lemma receive_byte_chip : smbus_receive_byte bus a =
  ('(v, c) ← receive_byte c0; Ok (v, with_chip bus i a c)).
Proof.
  unfold smbus_receive_byte. on_bus. rewrite recv_one. destruct (receive_byte c0) as [[v c] |]; [| done].
  cbn [mbind res_bind]. on_bus. done.
Qed.

Lemma read_byte_chip cmd : smbus_read_byte bus a cmd =
  ('(v, c) ← receive_byte (write_data c0 [cmd]); Ok (v, with_chip bus i a c)).
Proof.
  unfold smbus_read_byte. on_bus. rewrite recv_one.
  destruct (receive_byte (write_data c0 [cmd])) as [[v c] |]; [| done]. cbn [mbind res_bind]. on_bus. done.
Qed.

Lemma read_word_chip cmd : smbus_read_word bus a cmd =
  ('(lo, c) ← receive_byte (write_data c0 [cmd]); '(hi, c) ← receive_byte c;
   Ok (u16 (lo .| (hi .<< 8)), with_chip bus i a c)).
Proof.
  unfold smbus_read_word. on_bus. rewrite recv_one.
  destruct (receive_byte (write_data c0 [cmd])) as [[v c] |]; [| done]. cbn [mbind res_bind].
  rewrite recv_one. destruct (receive_byte c) as [[w c'] |]; [| done]. cbn [mbind res_bind]. on_bus. done.
Qed.

Lemma read_block_chip cmd len : smbus_read_block bus a cmd len =
  ('(n, c) ← receive_byte (write_data c0 [cmd]);
   let n := if len <? n then 0 else n in
   '(l, c) ← receive_bytes (Z.to_nat n) c;
   Ok (n, l, with_chip bus i a c)).
Proof.
  unfold smbus_read_block. on_bus. rewrite recv_one.
  destruct (receive_byte (write_data c0 [cmd])) as [[n c] |]; [| done]. cbn [mbind res_bind].
  rewrite recv_block_one. destruct (receive_bytes _ c) as [[l c'] |]; [| done]. cbn [mbind res_bind].
  on_bus. done.
Qed.

Lemma write_block_chip cmd data len : 0 ≤ len →
  smbus_write_block bus a cmd data len =
  (0, with_chip bus i a (write_data c0 (cmd :: Z.min 32 len :: rd_bytes data 0 (Z.min 32 len)))).
Proof.
  intros Hl. unfold smbus_write_block.
  replace (if 32 <? len then 32 else len) with (Z.min 32 len) by (destruct (Z.ltb_spec 32 len); lia).
  on_bus. rewrite sends_one by (rewrite rd_bytes_length; cbn; lia). on_bus. done.
Qed.

End transaction.

Section controller.
Context {D : Type} `{SmbusChip D}.
Implicit Types (s : AMD756SMBus D) (c : D).

Lemma list_find_insert_key (l : list (Z * SMBusDevice D)) i a a' dev dev' : l !! i = Some (a, dev) → a ≠ a' →
  list_find (λ x, x.1 = a') (<[i := (a, dev')]> l) = list_find (λ x, x.1 = a') l.
Proof.
  revert i. induction l as [| [b d] l IH]; intros [| i] E N; cbn in E |- *; try done.
  - injection E as -> ->. by rewrite !decide_False by done.
  - case_decide; [done |]. by rewrite IH.
Qed.

Lemma list_find_insert_same (l : list (Z * SMBusDevice D)) i a dev dev' :
  list_find (λ x, x.1 = a) l = Some (i, (a, dev)) →
  list_find (λ x, x.1 = a) (<[i := (a, dev')]> l) = Some (i, (a, dev')).
Proof.
  revert i. induction l as [| [b d] l IH]; intros i; cbn; [done |]. case_decide as Eb; cbn in *.
  - intros [= <- <- <-]. cbn. by rewrite decide_True.
  - destruct (list_find _ l) as [[j x] |] eqn:F; [| done]. intros [= <- ->].
    change (list_find (λ x, x.1 = a) ((b, d) :: <[j := (a, dev')]> l) = Some (S j, (a, dev'))). cbn [list_find].
    rewrite decide_False by done. by rewrite (IH j eq_refl).
Qed.

(** After a transaction the bus is idle, and only the chip addressed has changed. *)
Lemma with_chip_spec (bus : I2CBus D) a i c c' : bus_idle bus → chip_at bus a = Some (i, c) →
  bus_idle (with_chip bus i a c') ∧ chip_at (with_chip bus i a c') a = Some (i, c') ∧
  ∀ a', a' ≠ a → chip_at (with_chip bus i a c') a' = chip_at bus a'.
Proof.
  intros Hidle Hc. destruct (chip_device bus a i c Hidle Hc) as [E L]. split; [| split].
  - split; [done |]. split; [done |]. cbn [with_chip with_dev children]. apply Forall_insert; [apply Hidle | done].
  - unfold chip_at in *. cbn [with_chip with_dev children].
    destruct (list_find _ (children bus)) as [[j [b d]] |] eqn:F; [| done]. injection Hc as -> _.
    pose proof F as (F1 & F2 & _)%list_find_Some. cbn in F2. subst b.
    by rewrite (list_find_insert_same _ _ _ _ _ F).
  - intros a' N. unfold chip_at. cbn [with_chip with_dev children]. by rewrite (list_find_insert_key _ _ _ _ _ _ E).
Qed.

(** What the controller is asked for, as calls of the chip: the chip afterwards, the two
    data registers, and the bytes of a block that was read. *)
Definition spec_transaction s c : res (D * Z * Z * list Z) :=
  let prot := smb_ctl s .& 7 in
  let read := nz (smb_addr s .& 1) in
  let cmd := smb_cmd s in
  let keep c := Ok (c, smb_data0 s, smb_data1 s, []) in
  if prot =? 0 then keep (quick_cmd c read)
  else if prot =? 1 then
    if read then '(v, c) ← receive_byte c; Ok (c, u8 v, smb_data1 s, [])
    else keep (write_data c [cmd])
  else if prot =? 2 then
    if read then '(v, c) ← receive_byte (write_data c [cmd]); Ok (c, u8 v, smb_data1 s, [])
    else keep (write_data c [cmd; smb_data0 s])
  else if prot =? 3 then
    if read then
      '(lo, c) ← receive_byte (write_data c [cmd]);
      '(hi, c) ← receive_byte c;
      Ok (c, u8 (lo .| (hi .<< 8)), u8 (u16 (lo .| (hi .<< 8)) .>> 8), [])
    else keep (write_data c [cmd; smb_data0 s; smb_data1 s])
  else
    if read then
      '(n, c) ← receive_byte (write_data c [cmd]);
      let n := if 32 <? n then 0 else n in
      '(l, c) ← receive_bytes (Z.to_nat n) c;
      Ok (c, u8 n, smb_data1 s, l)
    else keep (write_data c (cmd :: Z.min 32 (smb_data0 s) :: rd_bytes (smb_data s) 0 (Z.min 32 (smb_data0 s)))).

Definition smb_address s : Z := (smb_addr s .>> 1) .& 0x7f.

(** A protocol the controller knows. *)
Definition known_protocol s : Prop := smb_ctl s .& 7 ∈ [0; 1; 2; 3; 5].

Lemma word_bytes lo hi : 0 ≤ lo < 256 → 0 ≤ hi < 256 →
  ((hi .<< 8) .| lo) .& 0xff = lo ∧ u8 (((hi .<< 8) .| lo) .>> 8) = hi.
Proof.
  intros Hlo Hhi. rewrite lor_concat by (lia || done). rewrite (land_mask _ 8) by done.
  rewrite shiftr_div by done. unfold wrap. pow2_lits. split; Z.to_euclidean_division_equations; lia.
Qed.

Lemma u8_u16 v : u8 (u16 v) = u8 v.
Proof. unfold wrap. by apply mod_mod_pow2. Qed.

Lemma transaction_chip s i c : bus_idle (smbus s) → chip_at (smbus s) (smb_address s) = Some (i, c) →
  smb_address s ≠ I2C_BROADCAST → known_protocol s → 0 ≤ smb_data0 s < 256 → 0 ≤ smb_data1 s < 256 →
  amd756_smb_transaction s =
  ('(c', d0, d1, l) ← spec_transaction s c;
   Ok (s <| smbus := with_chip (smbus s) i (smb_address s) c' |> <| smb_data0 := d0 |> <| smb_data1 := d1 |>
         <| smb_data := wr_bytes (smb_data s) 0 l |> <| smb_stat := smb_stat s .| GS_HCYC_STS |>)).
Proof.
  intros Hidle Hc Ha Hp H0 H1. destruct (word_bytes (smb_data0 s) (smb_data1 s) H0 H1) as [E0 E1].
  destruct s as [bus stat ctl cmd addr d0 d1 data idx irq].
  unfold amd756_smb_transaction, spec_transaction, known_protocol, smb_address in *.
  cbn [smbus smb_stat smb_ctl smb_cmd smb_addr smb_data0 smb_data1 smb_data smb_index irq_line] in *.
  set (a := (addr .>> 1) .& 0x7f) in *. clearbody a.
  rewrite !elem_of_cons, elem_of_nil in Hp.
  destruct Hp as [Hp | [Hp | [Hp | [Hp | [Hp | []]]]]]; rewrite Hp;
    cbn [Z.eqb Pos.eqb]; destruct (nz (addr .& 1)); cbn [mbind res_bind].
  - by rewrite (quick_command_chip bus a i c Hidle Hc Ha).
  - by rewrite (quick_command_chip bus a i c Hidle Hc Ha).
  - rewrite (receive_byte_chip bus a i c Hidle Hc Ha). by destruct (receive_byte c) as [[v c'] |].
  - by rewrite (send_byte_chip bus a i c Hidle Hc Ha).
  - rewrite (read_byte_chip bus a i c Hidle Hc Ha). by destruct (receive_byte (write_data c [cmd])) as [[v c'] |].
  - by rewrite (write_byte_chip bus a i c Hidle Hc Ha).
  - rewrite (read_word_chip bus a i c Hidle Hc Ha).
    destruct (receive_byte (write_data c [cmd])) as [[lo c'] |]; [| done]. cbn [mbind res_bind].
    destruct (receive_byte c') as [[hi c''] |]; [| done]. cbn [mbind res_bind]. by rewrite u8_u16, wrap_wrap.
  - rewrite (write_word_chip bus a i c Hidle Hc Ha), E0, E1. done.
  - rewrite (read_block_chip bus a i c Hidle Hc Ha).
    destruct (receive_byte (write_data c [cmd])) as [[n c'] |]; [| done]. cbn [mbind res_bind].
    by destruct (receive_bytes _ c') as [[l c''] |].
  - by rewrite (write_block_chip bus a i c Hidle Hc Ha) by lia.
Qed.

(** C7: a transaction of the controller, carried out byte by byte over the bus and the
    state machine of the device, is one call of the chip: for every protocol and direction
    the chip, the data registers and the block buffer are those of the corresponding calls
    of the chip's functions, completion is signalled, the bus is idle afterwards (no device
    is left waiting or confused), and no other chip has changed. *)
Theorem smbus_transaction_correct s i c :
  bus_idle (smbus s) → chip_at (smbus s) (smb_address s) = Some (i, c) →
  smb_address s ≠ I2C_BROADCAST → known_protocol s → 0 ≤ smb_data0 s < 256 → 0 ≤ smb_data1 s < 256 →
  amd756_smb_transaction s =
  ('(c', d0, d1, l) ← spec_transaction s c;
   Ok (s <| smbus := with_chip (smbus s) i (smb_address s) c' |> <| smb_data0 := d0 |> <| smb_data1 := d1 |>
         <| smb_data := wr_bytes (smb_data s) 0 l |> <| smb_stat := smb_stat s .| GS_HCYC_STS |>)) ∧
  ∀ c', bus_idle (with_chip (smbus s) i (smb_address s) c') ∧
    chip_at (with_chip (smbus s) i (smb_address s) c') (smb_address s) = Some (i, c') ∧
    ∀ a', a' ≠ smb_address s →
      chip_at (with_chip (smbus s) i (smb_address s) c') a' = chip_at (smbus s) a'.
Proof.
  intros Hidle Hc Ha Hp H0 H1. split; [by apply transaction_chip |].
  intros c'. by eapply with_chip_spec.
Qed.

End controller.

(** ** The guest's view of a register *)

Section ports.
Context {D : Type} `{SmbusChip D}.
Implicit Types (s : AMD756SMBus D) (c : D).

(** What a driver does to write and to read a register of the chip at the address [a]:
    address, command and data, and then the start bit with the byte-data protocol. *)
Definition write_register s (a r v : Z) : res (AMD756SMBus D) :=
  s ← amd756_smb_ioport_writeb s 0x4 (2 * a);
  s ← amd756_smb_ioport_writeb s 0x8 r;
  s ← amd756_smb_ioport_writeb s 0x6 v;
  amd756_smb_ioport_writeb s 0x2 0x0a.

Definition read_register s (a r : Z) : res (Z * AMD756SMBus D) :=
  s ← amd756_smb_ioport_writeb s 0x4 (2 * a + 1);
  s ← amd756_smb_ioport_writeb s 0x8 r;
  s ← amd756_smb_ioport_writeb s 0x2 0x0a;
  amd756_smb_ioport_readb s 0x6.

(** The controller is between transactions. *)
Definition smb_ready s : Prop := bus_idle (smbus s) ∧ 0 ≤ smb_data0 s < 256 ∧ 0 ≤ smb_data1 s < 256.

Lemma address_bits a b : 0 ≤ a < 128 → 0 ≤ b < 2 →
  (u8 (2 * a + b) .>> 1) .& 0x7f = a ∧ nz (u8 (2 * a + b) .& 1) = nz b.
Proof.
  intros Ha Hb. rewrite (wrap_small 8) by lia. rewrite shiftr_div, (land_mask _ 7), land_1 by done.
  pow2_lits. split; [Z.to_euclidean_division_equations; lia |].
  f_equal. Z.to_euclidean_division_equations; lia.
Qed.

Lemma write_register_chip s a i c r v : smb_ready s → chip_at (smbus s) a = Some (i, c) → 0 < a < 128 →
  0 ≤ r < 256 → 0 ≤ v < 256 → ∃ s', write_register s a r v = Ok s' ∧ smb_ready s' ∧
  chip_at (smbus s') a = Some (i, write_data c [r; v]) ∧
  ∀ a', a' ≠ a → chip_at (smbus s') a' = chip_at (smbus s) a'.
Proof.
  intros (Hidle & H0 & H1) Hc Ha Hr Hv. destruct s as [bus stat ctl cmd addr d0 d1 data idx irq].
  cbn [smbus smb_data0 smb_data1] in *. destruct (address_bits a 0 ltac:(lia) ltac:(lia)) as [Ea Eb].
  rewrite Z.add_0_r in Ea, Eb.
  set (s1 := Smb bus stat (u8 0x0a) (u8 r) (u8 (2 * a)) (u8 v) d1 data idx irq).
  assert (E : write_register (Smb bus stat ctl cmd addr d0 d1 data idx irq) a r v =
    (s ← amd756_smb_transaction s1; Ok s)) by reflexivity.
  assert (Es : smb_address s1 = a) by exact Ea.
  pose proof (transaction_chip s1 i c Hidle) as T. rewrite Es in T. rewrite T in E;
    [| done | unfold I2C_BROADCAST; lia | change (2 ∈ [0; 1; 2; 3; 5]); decided | apply wrap_bound; lia | done].
  unfold spec_transaction in E. change (smb_ctl s1 .& 7) with 2 in E. change (smb_addr s1) with (u8 (2 * a)) in E.
  rewrite Eb in E. cbn [Z.eqb Pos.eqb nz negb mbind res_bind] in E. eexists. split; [exact E |].
  destruct (with_chip_spec bus a i c (write_data c [smb_cmd s1; smb_data0 s1]) Hidle Hc) as (I & C & O).
  change (smb_cmd s1) with (u8 r) in *. change (smb_data0 s1) with (u8 v) in *. rewrite !(wrap_small 8) in * by lia.
  split; [| split]; [| exact C | exact O]. split; [exact I |]. split; [exact Hv | exact H1].
Qed.

Lemma read_register_chip s a i c r v c' : smb_ready s → chip_at (smbus s) a = Some (i, c) → 0 < a < 128 →
  0 ≤ r < 256 → receive_byte (write_data c [r]) = Ok (v, c') → 0 ≤ v < 256 →
  ∃ s', read_register s a r = Ok (v, s') ∧ smb_ready s' ∧ chip_at (smbus s') a = Some (i, c') ∧
  ∀ a', a' ≠ a → chip_at (smbus s') a' = chip_at (smbus s) a'.
Proof.
  intros (Hidle & H0 & H1) Hc Ha Hr R Hv. destruct s as [bus stat ctl cmd addr d0 d1 data idx irq].
  cbn [smbus smb_data0 smb_data1] in *. destruct (address_bits a 1 ltac:(lia) ltac:(lia)) as [Ea Eb].
  set (s1 := Smb bus stat (u8 0x0a) (u8 r) (u8 (2 * a + 1)) d0 d1 data idx irq).
  assert (E : read_register (Smb bus stat ctl cmd addr d0 d1 data idx irq) a r =
    (s ← (s ← amd756_smb_transaction s1; Ok s); amd756_smb_ioport_readb s 6)) by reflexivity.
  assert (Es : smb_address s1 = a) by exact Ea.
  pose proof (transaction_chip s1 i c Hidle) as T. rewrite Es in T. rewrite T in E;
    [| done | unfold I2C_BROADCAST; lia | change (2 ∈ [0; 1; 2; 3; 5]); decided | done | done].
  unfold spec_transaction in E. change (smb_ctl s1 .& 7) with 2 in E. change (smb_addr s1) with (u8 (2 * a + 1)) in E.
  change (smb_cmd s1) with (u8 r) in E. rewrite (wrap_small 8 r) in E by lia.
  rewrite Eb in E. cbn [Z.eqb Pos.eqb nz negb] in E. rewrite R in E. cbn [mbind res_bind] in E.
  rewrite (wrap_small 8 v) in E by lia. eexists. split; [exact E |].
  destruct (with_chip_spec bus a i c c' Hidle Hc) as (I & C & O).
  split; [| split]; [| exact C | exact O]. split; [exact I |]. split; [exact Hv | exact H1].
Qed.

End ports.

(** The registers of a chip that has them. *)
Definition stored (c : xbox_chip) : option mem :=
  match c with
  | CX25871 cx => Some (registers cx)
  | EEPROM e => Some (eeprom_data e)
  | SMC _ | ADM1032 _ => None
  end.

Lemma write_stored c m r v : stored c = Some m → 0 ≤ r < 256 →
  ∃ m', stored (write_data c [r; v]) = Some m' ∧ ∀ r', rd m' r' = if decide (r = r') then v else rd m r'.
Proof.
  intros E Hr. destruct c as [| [regs cmd] | | [data off acc]]; try done; injection E as <-.
  - exists (wr regs r v). split; [| intros; apply rd_wr].
    change (Some (wr_bytes regs r (take (Z.to_nat (256 - r)) [v])) = Some (wr regs r v)).
    destruct (Z.to_nat (256 - r)) eqn:N; [lia |]. cbn. by rewrite take_nil.
  - exists (wr data r v). split; [done | intros; apply rd_wr].
Qed.

Lemma read_stored c m r : stored c = Some m → 
  ∃ c', receive_byte (write_data c [r]) = Ok (rd m r, c') ∧ stored c' = Some m.
Proof.
  intros E. destruct c as [| [regs cmd] | | [data off acc]]; try done; injection E as <-.
  - eexists. cbn. by rewrite take_nil.
  - eexists. done.
Qed.

(** C25: the guest can store in the chips.  A byte written through the ports of the
    controller to a register of the TV encoder or of the EEPROM is what the guest then
    reads from it, every other register of the chip reads as before, and the other chips
    on the bus are not affected. *)
Theorem smbus_register_roundtrip s a i c m r v r' :
  smb_ready s → chip_at (smbus s) a = Some (i, c) → stored c = Some m → 0 < a < 128 → mem_ok 8 m →
  0 ≤ r < 256 → 0 ≤ v < 256 → 0 ≤ r' < 256 →
  ∃ s1 s2 x, write_register s a r v = Ok s1 ∧ read_register s1 a r' = Ok (x, s2) ∧
    x = (if decide (r = r') then v else rd m r') ∧ smb_ready s2 ∧
    ∀ a', a' ≠ a → chip_at (smbus s2) a' = chip_at (smbus s) a'.
Proof.
  intros Hs Hc Hm Ha Hok Hr Hv Hr'.
  destruct (write_register_chip s a i c r v Hs Hc Ha Hr Hv) as (s1 & E1 & Hs1 & Hc1 & O1).
  destruct (write_stored c m r v Hm Hr) as (m1 & Hm1 & R1).
  destruct (read_stored _ m1 r' Hm1) as (c2 & E2 & _).
  destruct (read_register_chip s1 a i _ r' _ c2 Hs1 Hc1 Ha Hr' E2) as (s2 & E3 & Hs2 & _ & O2).
  { rewrite R1. case_decide; [done | apply Hok]. }
  exists s1, s2, (rd m1 r'). split; [done |]. split; [done |]. split; [apply R1 |]. split; [done |].
  intros a' N. by rewrite O2, O1.
Qed.

(** reading the version of the system management controller runs past its string.  The
    index the guest sets is reduced modulo the size of a pointer less one, 7, and not
    modulo the length of the string: the characters and the final zero are read for the
    remainders 0 to 3, and memory behind the string for 4, 5 and 6. *)
Theorem smc_version_overrun smc b :
  (b mod 7 < 4 → ∃ c smc', smc_receive_byte (smc_write_data (smc_write_data smc [0x01; b]) [0x01]) = Ok (c, smc') ∧
     smc_version_string !! Z.to_nat (b mod 7) = Some c ∧ version_string_index smc' = b + 1) ∧
  (4 ≤ b mod 7 →
     smc_receive_byte (smc_write_data (smc_write_data smc [0x01; b]) [0x01]) = Fault out_of_bounds).
Proof.
  assert (E : smc_receive_byte (smc_write_data (smc_write_data smc [0x01; b]) [0x01]) =
    match smc_version_string !! Z.to_nat (b mod 7) with
    | Some c => Ok (c, Smc (b + 1) 2 (avpack_reg smc) (scratch_reg smc) (requests smc))
    | None => Fault out_of_bounds
    end) by reflexivity.
  rewrite E. pose proof (Z.mod_pos_bound b 7 ltac:(lia)). split; intros L.
  - destruct (lookup_lt_is_Some_2 smc_version_string (Z.to_nat (b mod 7))) as [c Ec]; [cbn; lia |].
    rewrite Ec. eauto.
  - rewrite lookup_ge_None_2 by (cbn; lia). done.
Qed.

Lemma window_offset base addr : base mod 64 = 32 → 0 ≤ addr < 32 → u32 (u64 (addr - base)) .& 0x3f = addr + 32.
Proof.
  intros Hb Ha. rewrite (land_mask _ 6) by done. unfold wrap. rewrite !mod_mod_pow2 by lia.
  pow2_lits. Z.to_euclidean_division_equations. lia.
Qed.

(** The window works at some bases only: at a base that is 32 above a multiple of 64, which
    its size allows, every write is lost and every read gives 0. *)
Lemma smb_window_lost {D} `{SmbusChip D} (s : AMD756SMBus D) base addr val : base mod 64 = 32 → 0 ≤ addr < 32 →
  xbox_smb_ioport_writeb s base addr val = Ok s ∧ xbox_smb_ioport_readb s base addr = Ok (0, s).
Proof.
  intros Hb Ha. unfold xbox_smb_ioport_writeb, xbox_smb_ioport_readb, amd756_smb_ioport_writeb, amd756_smb_ioport_readb.
  rewrite (window_offset base addr Hb Ha). by rewrite !(proj2 (Z.eqb_neq (addr + 32) _)) by lia.
Qed.

Lemma transaction_index {D} `{SmbusChip D} (s s' : AMD756SMBus D) :
  amd756_smb_transaction s = Ok s' → smb_index s' = smb_index s.
Proof.
  intros E. unfold amd756_smb_transaction in E.
  repeat case_match; repeat (apply bind_ok in E as ([] & ? & E)); repeat case_match; apply Ok_inj in E; by subst s'.
Qed.

(** The block index stays in the buffer. *)
Lemma smb_index_bounded {D} `{SmbusChip D} (s s' : AMD756SMBus D) addr val : 0 ≤ smb_index s < 32 →
  amd756_smb_ioport_writeb s addr val = Ok s' → 0 ≤ smb_index s' < 32.
Proof.
  intros Hi E. unfold amd756_smb_ioport_writeb in E.
  repeat case_match; repeat (apply bind_ok in E as (? & ? & E)); apply Ok_inj in E; subst s'; try exact Hi.
  all: try (match goal with T : amd756_smb_transaction _ = Ok ?b |- _ =>
    apply transaction_index in T; case_match; change (0 ≤ smb_index b < 32); rewrite T; exact Hi end).
  all: try (change (0 ≤ 0 < 32); lia).
  match goal with E : (31 <? ?i) = false |- _ => apply Z.ltb_ge in E; change (0 ≤ i < 32) end.
  pose proof (wrap_bound 8 (smb_index s + 1) ltac:(lia)). lia.
Qed.

(** The machine at its start. *)
Definition sample_smb : AMD756SMBus xbox_chip :=
  amd756_smbus_init (xbox_smbus_devices ∅ false (Some "vga"%string)).

Lemma sample_smb_ready : smb_ready sample_smb.
Proof. split; [| by vm_compute]. split; [done |]. split; [done |]. by repeat constructor. Qed.

(** The transaction that reads the video connector. *)
Definition sample_transaction : AMD756SMBus xbox_chip :=
  sample_smb <| smb_addr := 0x21 |> <| smb_cmd := 4 |> <| smb_ctl := 2 |>.

Lemma smbus_transaction_witness : ∃ s', amd756_smb_transaction sample_transaction = Ok s' ∧ smb_data0 s' = 2.
Proof.
  destruct (smbus_transaction_correct sample_transaction 1 (SMC (smbus_smc_realize false (Some "vga"%string)).1))
    as [E _].
  - apply sample_smb_ready.
  - by vm_compute.
  - by vm_compute.
  - change (2 ∈ [0; 1; 2; 3; 5]). decided.
  - by vm_compute.
  - by vm_compute.
  - eexists. split; [exact E | reflexivity].
Defined.

Lemma smbus_register_witness : ∃ s1 s2,
  write_register sample_smb 0x45 0xba 0x3f = Ok s1 ∧ read_register s1 0x45 0xba = Ok (0x3f, s2).
Proof.
  destruct (smbus_register_roundtrip sample_smb 0x45 2 (CX25871 (Cx ∅ 0)) ∅ 0xba 0x3f 0xba)
    as (s1 & s2 & x & E1 & E2 & Ex & _).
  - apply sample_smb_ready.
  - by vm_compute.
  - done.
  - lia.
  - intros j. rewrite rd_empty. lia.
  - lia.
  - lia.
  - lia.
  - exists s1, s2. subst x. split; [exact E1 | exact E2].
Defined.
