(* ===== verification/Nvnet.v ===== *)
(** * The network controller

    src/hw/xbox/nvnet.c.  The driver and the controller share two rings of descriptors in
    guest memory: the controller sends the packets the driver has marked valid, and stores
    received packets in the buffers the driver has marked available.

    [NvNetState] declares 256 bytes for a register window of 1024 ([regs] has
    [MMIO_SIZE / 4] bytes), so that three quarters of the registers lie over the fields
    that follow it.  The fields from [regs] to [txrx_dma_buf] are therefore one image, with
    the offsets the compiler gives them (no padding: every field starts aligned), and a
    register access is an access to the image. *)

From S2P Require Import Prelude Bytes.

Definition NvRegIrqStatus := 0x000.
Definition NvRegIrqMask := 0x004.
Definition NvRegTxRingPhysAddr := 0x100.
Definition NvRegRxRingPhysAddr := 0x104.
Definition NvRegRingSizes := 0x108.
Definition NvRegUnknownSetupReg5 := 0x130.
Definition NvRegUnknownSetupReg3 := 0x134.
Definition NvRegTxRxControl := 0x144.
Definition NvRegMIIStatus := 0x180.
Definition NvRegMIIControl := 0x190.
Definition NvRegMIIData := 0x194.

Definition NVREG_IRQSTAT_BIT1 := 0x002.
Definition NVREG_IRQSTAT_BIT4 := 0x010.
Definition NVREG_UNKSETUP5_BIT31 := 1 .<< 31.
Definition NVREG_UNKSETUP3_VAL1 := 0x200010.
Definition NVREG_TXRXCTL_KICK := 0x0001.
Definition NVREG_TXRXCTL_BIT1 := 0x0002.
Definition NVREG_TXRXCTL_BIT2 := 0x0004.
Definition NVREG_TXRXCTL_IDLE := 0x0008.
Definition NVREG_MIICTL_INUSE := 0x10000.
Definition NVREG_MIICTL_WRITE := 0x08000.
Definition NVREG_MIICTL_ADDRSHIFT := 5.
Definition NVREG_RINGSZ_TXSHIFT := 0.
Definition NVREG_RINGSZ_RXSHIFT := 16.

Definition NV_TX_LASTPACKET := 1 .<< 0.
Definition NV_TX_RETRYERROR := 1 .<< 3.
Definition NV_TX_DEFERRED := 1 .<< 10.
Definition NV_TX_CARRIERLOST := 1 .<< 11.
Definition NV_TX_LATECOLLISION := 1 .<< 12.
Definition NV_TX_UNDERFLOW := 1 .<< 13.
Definition NV_TX_ERROR := 1 .<< 14.
Definition NV_TX_VALID := 1 .<< 15.
Definition NV_RX_DESCRIPTORVALID := 1 .<< 0.
Definition NV_RX_BIT4 := 1 .<< 4.
Definition NV_RX_AVAIL := 1 .<< 15.

Definition MII_BMSR := 0x01.
Definition MII_ADVERTISE := 0x04.
Definition MII_LPA := 0x05.
Definition BMSR_ANEGCOMPLETE := 0x0020.
Definition BMSR_BIT2 := 0x0004.
Definition LPA_10HALF := 0x0020.
Definition LPA_10FULL := 0x0040.
Definition LPA_100HALF := 0x0080.
Definition LPA_100FULL := 0x0100.
Definition LPA_100BASE4 := 0x0200.

Definition RX_ALLOC_BUFSIZE := 1500 + 128.

(** Offsets in the image. *)
Definition TX_RING_INDEX := 0x118.
Definition TX_RING_SIZE := 0x119.
Definition RX_RING_INDEX := 0x11a.
Definition RX_RING_SIZE := 0x11b.
Definition TXRX_DMA_BUF := 0x11c.

(** ** Guest memory

    [pci_dma_read] and [pci_dma_write] of QEMU's PCI layer, on a state of the address space.
    Of addresses backed by RAM they are promised to read and to store bytes. *)
Class PciDma (M : Type) := {
  pci_dma_read : M → Z → Z → list Z * M;
  pci_dma_write : M → Z → list Z → M
}.

Class PciDmaOk (M : Type) `{PciDma M} := {
  dma_ram : Z → Prop;
  dma_byte : M → Z → Z;
  dma_byte_ok m a : 0 ≤ dma_byte m a < 256;
  dma_read_ok m a n : (∀ i, 0 ≤ i < n → dma_ram (a + i)) →
    pci_dma_read m a n = ((λ i, dma_byte m (a + i)) <$> seqZ 0 n, m);
  dma_write_ok m a l b : (∀ i, 0 ≤ i < Z.of_nat (length l) → dma_ram (a + i)) → bytes l →
    dma_byte (pci_dma_write m a l) b =
    if decide (a ≤ b < a + Z.of_nat (length l)) then l !!! Z.to_nat (b - a) else dma_byte m b
}.

(** ** State *)

(** [wire] has the packets passed to [qemu_send_packet]. *)
Record NvNetState (M : Type) := NvNet {
  image : mem;
  irq : bool;
  wire : list (list Z);
  memory : M
}.
Arguments NvNet {M} _ _ _ _.
Arguments image {M} _.
Arguments irq {M} _.
Arguments wire {M} _.
Arguments memory {M} _.

#[global] Instance NvNetState_eta M : Eta (NvNetState M) := λ s,
  NvNet (image s) (irq s) (wire s) (memory s).

Record RingDesc := Desc {
  packet_buffer : Z;
  len : Z;
  flags : Z
}.

(** The descriptor in memory. *)
Definition desc_of (l : list Z) : RingDesc :=
  Desc (le_value (take 4 l)) (le_value (take 2 (drop 4 l))) (le_value (drop 6 l)).
Definition desc_bytes (d : RingDesc) : list Z :=
  le_bytes 4 (packet_buffer d) ++ le_bytes 2 (len d) ++ le_bytes 2 (flags d).

Section nvnet.
Context {M : Type} `{PciDma M}.
Implicit Types s : NvNetState M.

Definition tx_ring_index s := rd (image s) TX_RING_INDEX.
Definition tx_ring_size s := rd (image s) TX_RING_SIZE.
Definition rx_ring_index s := rd (image s) RX_RING_INDEX.
Definition rx_ring_size s := rd (image s) RX_RING_SIZE.

(** Assignment to a field of one byte. *)
Definition set_byte s (field v : Z) : NvNetState M := s <| image := wr (image s) field (u8 v) |>.

(** ** Registers *)

Definition nvnet_get_reg s (addr size : Z) : res Z :=
  if size =? 4 then
    _ ← assert (addr .& 3 =? 0); Ok (le_value (rd_bytes (image s) addr 4))
  else if size =? 2 then
    _ ← assert (addr .& 1 =? 0); Ok (le_value (rd_bytes (image s) addr 2))
  else if size =? 1 then Ok (rd (image s) addr)
  else Fault assert_failed.

Definition nvnet_set_reg s (addr val size : Z) : res (NvNetState M) :=
  let store n := Ok (s <| image := wr_bytes (image s) addr (le_bytes n val) |>) in
  if size =? 4 then _ ← assert (addr .& 3 =? 0); store 4%nat
  else if size =? 2 then _ ← assert (addr .& 1 =? 0); store 2%nat
  else if size =? 1 then store 1%nat
  else Fault assert_failed.

Definition nvnet_update_irq s : res (NvNetState M) :=
  mask ← nvnet_get_reg s NvRegIrqMask 4;
  status ← nvnet_get_reg s NvRegIrqStatus 4;
  Ok (s <| irq := nz mask && nz status |>).

(** The value is an [int]. *)
Definition nvnet_mii_rw s : res Z :=
  mii_ctl ← nvnet_get_reg s NvRegMIIControl 4;
  let phy_addr := (mii_ctl .>> NVREG_MIICTL_ADDRSHIFT) .& 0x1f in
  let reg := mii_ctl .& ((1 .<< NVREG_MIICTL_ADDRSHIFT) - 1) in
  Ok (if negb (phy_addr =? 1) then -1
      else if nz (mii_ctl .& NVREG_MIICTL_WRITE) then 0
      else if reg =? MII_BMSR then BMSR_ANEGCOMPLETE .| BMSR_BIT2
      else if (reg =? MII_ADVERTISE) || (reg =? MII_LPA) then
        LPA_10HALF .| LPA_10FULL .| (LPA_100HALF .| LPA_100FULL .| LPA_100BASE4)
      else 0).

Definition nvnet_mmio_read s (addr size : Z) : res Z :=
  if addr =? NvRegMIIData then
    _ ← assert (size =? 4); r ← nvnet_mii_rw s; Ok (u64 r)
  else if addr =? NvRegMIIControl then
    r ← nvnet_get_reg s addr size; Ok (r .& u64 (.~ NVREG_MIICTL_INUSE))
  else if addr =? NvRegMIIStatus then Ok 0
  else nvnet_get_reg s addr size.

(** ** Packets *)

(** The loop over the receive ring; the result is -1 or the size. *)
Fixpoint rx_loop (fuel : nat) s (i : Z) (buf : list Z) : res (Z * NvNetState M) :=
  if i <? rx_ring_size s then
    match fuel with
    | O => Fault out_of_fuel
    | S fuel =>
        let size := Z.of_nat (length buf) in
        let s := set_byte s RX_RING_INDEX (rx_ring_index s mod rx_ring_size s) in
        base ← nvnet_get_reg s NvRegRxRingPhysAddr 4;
        let rx_ring_addr := base + rx_ring_index s * 8 in
        let '(l, m) := pci_dma_read (memory s) rx_ring_addr 8 in
        let desc := desc_of l in
        let s := s <| memory := m |> in
        let s := set_byte s RX_RING_INDEX (rx_ring_index s + 1) in
        if negb (nz (flags desc .& NV_RX_AVAIL)) || negb (size <=? len desc) then
          rx_loop fuel s (i + 1) buf
        else
          let m := pci_dma_write (memory s) (packet_buffer desc) buf in
          let desc := Desc (packet_buffer desc) (u16 size) (NV_RX_BIT4 .| NV_RX_DESCRIPTORVALID) in
          let m := pci_dma_write m rx_ring_addr (desc_bytes desc) in
          s ← nvnet_set_reg (s <| memory := m |>) NvRegIrqStatus NVREG_IRQSTAT_BIT1 4;
          s ← nvnet_update_irq s;
          Ok (size, s)
    end
  else Ok (-1, s).

Definition nvnet_dma_packet_to_guest s (buf : list Z) : res (Z * NvNetState M) := rx_loop 256 s 0 buf.

(** A packet from the network, in pieces. *)
Definition nvnet_receive_iov s (iov : list (list Z)) : res (Z * NvNetState M) :=
  let packet := concat iov in
  let size := Z.of_nat (length packet) in
  _ ← assert (size <=? RX_ALLOC_BUFSIZE);
  let s := s <| image := wr_bytes (image s) TXRX_DMA_BUF packet |> in
  nvnet_dma_packet_to_guest s (rd_bytes (image s) TXRX_DMA_BUF size).

Definition nvnet_receive s (buf : list Z) : res (Z * NvNetState M) := nvnet_receive_iov s [buf].

Definition nvnet_send_packet s (buf : list Z) : NvNetState M := s <| wire := wire s ++ [buf] |>.

Definition sent_flags (f : Z) : Z :=
  f .& u16 (.~ (NV_TX_VALID .| NV_TX_RETRYERROR .| NV_TX_DEFERRED .| NV_TX_CARRIERLOST .|
                NV_TX_LATECOLLISION .| NV_TX_UNDERFLOW .| NV_TX_ERROR)).

(** The loop over the transmit ring; whether a packet was sent. *)
Fixpoint tx_loop (fuel : nat) s (i : Z) (packet_sent : bool) : res (bool * NvNetState M) :=
  if i <? tx_ring_size s then
    match fuel with
    | O => Fault out_of_fuel
    | S fuel =>
        let s := set_byte s TX_RING_INDEX (tx_ring_index s mod tx_ring_size s) in
        base ← nvnet_get_reg s NvRegTxRingPhysAddr 4;
        let tx_ring_addr := base + tx_ring_index s * 8 in
        let '(l, m) := pci_dma_read (memory s) tx_ring_addr 8 in
        let desc := desc_of l in
        let s := s <| memory := m |> in
        let s := set_byte s TX_RING_INDEX (tx_ring_index s + 1) in
        if negb (nz (flags desc .& NV_TX_VALID)) then tx_loop fuel s (i + 1) packet_sent
        else
          _ ← in_bounds (len desc + 1 <=? RX_ALLOC_BUFSIZE);
          let '(l, m) := pci_dma_read (memory s) (packet_buffer desc) (len desc + 1) in
          let s := s <| memory := m |> <| image := wr_bytes (image s) TXRX_DMA_BUF l |> in
          let s := nvnet_send_packet s (rd_bytes (image s) TXRX_DMA_BUF (len desc + 1)) in
          let is_last_packet := nz (flags desc .& NV_TX_LASTPACKET) in
          let desc := Desc (packet_buffer desc) (u16 (len desc + 5)) (sent_flags (flags desc)) in
          let s := s <| memory := pci_dma_write (memory s) tx_ring_addr (desc_bytes desc) |> in
          if is_last_packet then Ok (true, s) else tx_loop fuel s (i + 1) true
    end
  else Ok (packet_sent, s).

Definition nvnet_dma_packet_from_guest s : res (NvNetState M) :=
  '(packet_sent, s) ← tx_loop 256 s 0 false;
  if (packet_sent : bool) then
    s ← nvnet_set_reg s NvRegIrqStatus NVREG_IRQSTAT_BIT4 4;
    nvnet_update_irq s
  else Ok s.

Definition txrx_control s (val size : Z) : res (NvNetState M) :=
  s ← (if val =? NVREG_TXRXCTL_KICK then nvnet_dma_packet_from_guest s else Ok s);
  if nz (val .& NVREG_TXRXCTL_BIT2) then nvnet_set_reg s NvRegTxRxControl NVREG_TXRXCTL_IDLE 4
  else if nz (val .& NVREG_TXRXCTL_BIT1) then nvnet_set_reg s NvRegIrqStatus 0 4
  else
    temp ← nvnet_get_reg s NvRegUnknownSetupReg3 4;
    if (val =? 0) && (temp =? NVREG_UNKSETUP3_VAL1) then
      nvnet_set_reg s NvRegUnknownSetupReg5 NVREG_UNKSETUP5_BIT31 4
    else nvnet_set_reg s NvRegTxRxControl val size.

Definition nvnet_mmio_write s (addr val size : Z) : res (NvNetState M) :=
  if addr =? NvRegRingSizes then
    s ← nvnet_set_reg s addr val size;
    let s := set_byte s RX_RING_SIZE (((val .>> NVREG_RINGSZ_RXSHIFT) .& 0xffff) + 1) in
    Ok (set_byte s TX_RING_SIZE (((val .>> NVREG_RINGSZ_TXSHIFT) .& 0xffff) + 1))
  else if addr =? NvRegMIIData then _ ← nvnet_mii_rw s; Ok s
  else if addr =? NvRegTxRxControl then txrx_control s val size
  else if addr =? NvRegIrqMask then
    s ← nvnet_set_reg s addr val size; nvnet_update_irq s
  else if addr =? NvRegIrqStatus then
    r ← nvnet_get_reg s addr size;
    s ← nvnet_set_reg s addr (r .& .~ val) size;
    nvnet_update_irq s
  else nvnet_set_reg s addr val size.

(** Registers and rings as [nvnet_realize] leaves them. *)
Definition nvnet_realize (m : M) : NvNetState M := NvNet ∅ false [] m.

End nvnet.

(** ** Receiving *)

Lemma next_slot size x j : 0 < size → (x mod size + 1 + j) mod size = (x + (j + 1)) mod size.
Proof. intros Hs. rewrite <- Z.add_assoc, (Z.add_comm 1), Zplus_mod_idemp_l. done. Qed.

Section receive.
Context {M : Type} `{PciDmaOk M}.
Implicit Types s : NvNetState M.

(** A 32-bit register, the bytes of guest memory, and descriptor [k] of a ring. *)
Definition reg32 s (a : Z) : Z := le_value (rd_bytes (image s) a 4).
Definition dma_bytes (m : M) (a n : Z) : list Z := (λ i, dma_byte m (a + i)) <$> seqZ 0 n.
Definition desc_at (m : M) (base k : Z) : RingDesc := desc_of (dma_bytes m (base + k * 8) 8).

Definition in_ram (a n : Z) : Prop := ∀ i, 0 ≤ i < n → dma_ram (a + i).

(** Two images agree on the fields in [P]. *)
Definition agree (P : Z → Prop) (i j : mem) : Prop := ∀ a, P a → rd i a = rd j a.

Lemma reg32_agree (P : Z → Prop) s s' a : agree P (image s) (image s') → (∀ i, 0 ≤ i < 4 → P (a + i)) →
  reg32 s a = reg32 s' a.
Proof. intros E HP. unfold reg32. f_equal. apply rd_bytes_ext. auto. Qed.

Lemma set_status s v : nvnet_set_reg s NvRegIrqStatus v 4 =
  Ok (s <| image := wr_bytes (image s) NvRegIrqStatus (le_bytes 4 v) |>).
Proof. reflexivity. Qed.

Lemma raise_ok s v : 0 ≤ v < 2 ^ 32 →
  nvnet_update_irq (s <| image := wr_bytes (image s) NvRegIrqStatus (le_bytes 4 v) |>) =
  Ok (NvNet (wr_bytes (image s) NvRegIrqStatus (le_bytes 4 v)) (nz (reg32 s NvRegIrqMask) && nz v)
        (wire s) (memory s)).
Proof.
  intros Hv. destruct s as [im ir wi m]. set (im' := wr_bytes im NvRegIrqStatus (le_bytes 4 v)).
  transitivity (Ok (NvNet im' (nz (le_value (rd_bytes im' NvRegIrqMask 4)) &&
                               nz (le_value (rd_bytes im' NvRegIrqStatus 4))) wi m)); [reflexivity |].
  cbn [image wire memory]. unfold reg32, im'. cbn [image]. f_equal. f_equal. f_equal.
  - do 2 f_equal. apply rd_bytes_ext. intros i Hi. rewrite rd_wr_bytes, decide_False; [done |].
    rewrite le_bytes_length. unfold NvRegIrqMask, NvRegIrqStatus. lia.
  - f_equal. rewrite <- (le_value_bytes 4 v) at 2 by done. f_equal. apply (rd_bytes_wr im 0 (le_bytes 4 v)).
Qed.

(** The descriptor can take a packet of [n] bytes. *)
Definition fits (n : Z) (d : RingDesc) : bool := nz (flags d .& NV_RX_AVAIL) && (n <=? len d).

(** The state after a packet was stored in slot [k]. *)
Definition rx_done s (base k : Z) (buf : list Z) : NvNetState M :=
  let d := desc_at (memory s) base k in
  NvNet (wr_bytes (wr (image s) RX_RING_INDEX (k + 1)) NvRegIrqStatus (le_bytes 4 NVREG_IRQSTAT_BIT1))
    (nz (reg32 s NvRegIrqMask)) (wire s)
    (pci_dma_write (pci_dma_write (memory s) (packet_buffer d) buf) (base + k * 8)
       (desc_bytes (Desc (packet_buffer d) (u16 (Z.of_nat (length buf))) (NV_RX_BIT4 .| NV_RX_DESCRIPTORVALID)))).

Definition at_index s (v : Z) : NvNetState M := s <| image := wr (image s) RX_RING_INDEX v |>.

Lemma reg32_at_index s v a : a + 3 < RX_RING_INDEX → reg32 (at_index s v) a = reg32 s a.
Proof.
  intros Ha. apply (reg32_agree (λ a, a ≠ RX_RING_INDEX)); [| lia]. intros b Hb. by apply rd_wr_ne.
Qed.

Lemma at_index_rx_done s v base k buf : rx_done (at_index s v) base k buf = rx_done s base k buf.
Proof.
  unfold rx_done, at_index. cbn [image irq wire memory set]. rewrite wr_wr. f_equal. f_equal.
  by apply reg32_at_index.
Qed.

Lemma rx_step fuel s i buf base k : mem_ok 8 (image s) → i < rx_ring_size s → 0 ≤ i →
  reg32 s NvRegRxRingPhysAddr = base → rx_ring_index s mod rx_ring_size s = k → in_ram (base + k * 8) 8 →
  rx_loop (S fuel) s i buf =
  if fits (Z.of_nat (length buf)) (desc_at (memory s) base k)
  then Ok (Z.of_nat (length buf), rx_done s base k buf)
  else rx_loop fuel (at_index s (k + 1)) (i + 1) buf.
Proof.
  intros Hok Hi Hi0 Hb Hk Hr. pose proof (Hok RX_RING_SIZE) as Hs. change (2 ^ 8) with 256 in Hs.
  fold (rx_ring_size s) in Hs.
  assert (Hk' : 0 ≤ k < rx_ring_size s) by (rewrite <- Hk; apply Z.mod_pos_bound; lia).
  assert (E : ∀ v, reg32 (at_index s v) NvRegRxRingPhysAddr = base).
  { intros v. rewrite <- Hb. by apply reg32_at_index. }
  assert (E' : ∀ v, reg32 (at_index s v) NvRegIrqMask = reg32 s NvRegIrqMask) by (intros v; by apply reg32_at_index).
  cbn [rx_loop]. rewrite (proj2 (Z.ltb_lt _ _) Hi), Hk. destruct s as [im ir wi m].
  unfold set_byte, at_index, rx_ring_index in *. cbn [set image irq wire memory] in *.
  rewrite !rd_wr_eq, !wr_wr, !(wrap_small 8) by lia. unfold fits.
  change (nvnet_get_reg ?s NvRegRxRingPhysAddr 4) with (Ok (reg32 s NvRegRxRingPhysAddr)).
  rewrite E. cbn [mbind res_bind]. rewrite dma_read_ok by exact Hr. rewrite <- negb_andb.
  change (desc_of ((λ i, _) <$> _)) with (desc_at m base k).
  destruct (_ && _); cbn [negb]; [| done].
  rewrite set_status. cbn [mbind res_bind]. rewrite raise_ok by done. cbn [mbind res_bind set image irq wire memory]. unfold rx_done. cbn [image irq wire memory].
  specialize (E' (k + 1)). unfold reg32 in *. cbn [set image] in *. by rewrite E', andb_true_r.
Qed.

Lemma at_index_size s v : rx_ring_size (at_index s v) = rx_ring_size s.
Proof. by apply rd_wr_ne. Qed.

Lemma at_index_index s v : rx_ring_index (at_index s v) = v.
Proof. apply rd_wr_eq. Qed.

Lemma at_index_ok s v : mem_ok 8 (image s) → 0 ≤ v < 256 → mem_ok 8 (image (at_index s v)).
Proof. apply mem_ok_wr. Qed.

Section ring.
Context (buf : list Z) (base size : Z).

Definition slot_fits (m : M) (k : Z) : bool := fits (Z.of_nat (length buf)) (desc_at m base k).

(** The ring as the loop meets it. *)
Definition rx_ready s : Prop :=
  mem_ok 8 (image s) ∧ rx_ring_size s = size ∧ reg32 s NvRegRxRingPhysAddr = base ∧ in_ram base (8 * size).

Lemma rx_ready_size s : rx_ready s → 0 ≤ size < 256.
Proof. intros (Hok & <- & _). apply Hok. Qed.

Lemma at_index_ready s v : rx_ready s → 0 ≤ v < 256 → rx_ready (at_index s v).
Proof.
  intros (Hok & Hs & Hb & Hr) Hv. split; [by apply at_index_ok |]. rewrite at_index_size.
  split; [done |]. split; [| done]. rewrite <- Hb. by apply reg32_at_index.
Qed.

Lemma rx_step_ready fuel s i : rx_ready s → 0 ≤ i < size →
  rx_loop (S fuel) s i buf =
  let k := rx_ring_index s mod size in
  if slot_fits (memory s) k then Ok (Z.of_nat (length buf), rx_done s base k buf)
  else rx_loop fuel (at_index s (k + 1)) (i + 1) buf.
Proof.
  intros (Hok & Hs & Hb & Hr) Hi. apply rx_step; try done; try lia; [by rewrite Hs |].
  intros j Hj. replace (base + _ + j) with (base + (rx_ring_index s mod size * 8 + j)) by lia.
  apply Hr. pose proof (Z.mod_pos_bound (rx_ring_index s) size). lia.
Qed.

(** The first slot that fits, counted from the index, takes the packet. *)
Lemma rx_loop_found (j : nat) : ∀ fuel s i, rx_ready s → 0 ≤ i → i + Z.of_nat j < size → (j < fuel)%nat →
  (∀ j', 0 ≤ j' < Z.of_nat j → slot_fits (memory s) ((rx_ring_index s + j') mod size) = false) →
  slot_fits (memory s) ((rx_ring_index s + Z.of_nat j) mod size) = true →
  rx_loop fuel s i buf =
  Ok (Z.of_nat (length buf), rx_done s base ((rx_ring_index s + Z.of_nat j) mod size) buf).
Proof.
  induction j as [| j IH]; intros [| fuel] s i Hs Hi Hj Hf Hno Hyes; try lia;
    rewrite rx_step_ready by (done || lia); cbv zeta.
  - rewrite Z.add_0_r in *. by rewrite Hyes.
  - pose proof (rx_ready_size s Hs). pose proof (Z.mod_pos_bound (rx_ring_index s) size ltac:(lia)).
    specialize (Hno 0 ltac:(lia)) as H0'. rewrite Z.add_0_r in H0'. rewrite H0'.
    rewrite IH; rewrite ?at_index_index, ?next_slot by lia; try lia.
    + rewrite at_index_rx_done. by replace (Z.of_nat j + 1) with (Z.of_nat (S j)) by lia.
    + apply at_index_ready; [done | lia].
    + intros j' Hj'. rewrite next_slot by lia. apply Hno. lia.
    + by replace (Z.of_nat j + 1) with (Z.of_nat (S j)) by lia.
Qed.

(** When none fits, the packet is refused and only the index has moved. *)
Lemma rx_loop_full (n : nat) : ∀ fuel s i, rx_ready s → 0 ≤ i → i + Z.of_nat n = size → (n ≤ fuel)%nat →
  (∀ j, 0 ≤ j < Z.of_nat n → slot_fits (memory s) ((rx_ring_index s + j) mod size) = false) →
  ∃ s', rx_loop fuel s i buf = Ok (-1, s') ∧ memory s' = memory s ∧ irq s' = irq s ∧ wire s' = wire s ∧
    agree (λ a, a ≠ RX_RING_INDEX) (image s') (image s).
Proof.
  induction n as [| n IH]; intros fuel s i Hs Hi Hn Hf Hno.
  - exists s. split; [| done]. pose proof Hs as (_ & Hsz & _).
    destruct fuel; cbn [rx_loop]; by rewrite (proj2 (Z.ltb_ge _ _)) by lia.
  - destruct fuel as [| fuel]; [lia |]. rewrite rx_step_ready by (done || lia). cbv zeta.
    pose proof (rx_ready_size s Hs). pose proof (Z.mod_pos_bound (rx_ring_index s) size ltac:(lia)).
    specialize (Hno 0 ltac:(lia)) as H0'. rewrite Z.add_0_r in H0'. rewrite H0'.
    destruct (IH fuel (at_index s (rx_ring_index s mod size + 1)) (i + 1)) as (s' & E & Em & Ei & Ew & A).
    + apply at_index_ready; [done | lia].
    + lia.
    + lia.
    + lia.
    + intros j Hj. rewrite at_index_index, next_slot by lia. apply Hno. lia.
    + exists s'. repeat split; [done.. |]. intros a Ha. rewrite A by done. by apply rd_wr_ne.
Qed.

End ring.

(** Guest memory behind the interface. *)
Lemma dma_bytes_length m a n : length (dma_bytes m a n) = Z.to_nat n.
Proof. unfold dma_bytes. by rewrite length_fmap, length_seqZ. Qed.

Lemma dma_bytes_ok m a n : bytes (dma_bytes m a n).
Proof. apply Forall_fmap, Forall_true. intros i. apply dma_byte_ok. Qed.

Lemma dma_bytes_ext m m' a n : (∀ i, 0 ≤ i < n → dma_byte m (a + i) = dma_byte m' (a + i)) →
  dma_bytes m a n = dma_bytes m' a n.
Proof. intros E. apply list_fmap_ext. intros k i Hi. apply lookup_seqZ in Hi. apply E. lia. Qed.

Lemma dma_bytes_write m a l : in_ram a (Z.of_nat (length l)) → bytes l →
  dma_bytes (pci_dma_write m a l) a (Z.of_nat (length l)) = l.
Proof.
  intros Hr Hl. apply list_eq. intros i. unfold dma_bytes. rewrite list_lookup_fmap.
  destruct (decide (i < length l)%nat) as [Hi | Hi].
  - rewrite lookup_seqZ_lt by lia. cbn. rewrite Z.add_0_l, dma_write_ok, decide_True by (done || lia).
    replace (Z.to_nat (a + Z.of_nat i - a)) with i by lia. symmetry. by apply list_lookup_lookup_total_lt.
  - rewrite lookup_seqZ_ge by lia. by rewrite lookup_ge_None_2 by lia.
Qed.

Definition apart (a n b k : Z) : Prop := a + n ≤ b ∨ b + k ≤ a.

Lemma dma_bytes_apart m a l b n : in_ram a (Z.of_nat (length l)) → bytes l →
  apart a (Z.of_nat (length l)) b n → dma_bytes (pci_dma_write m a l) b n = dma_bytes m b n.
Proof.
  intros Hr Hl Ha. apply dma_bytes_ext. intros i Hi. rewrite dma_write_ok, decide_False; [done | | done..].
  unfold apart in Ha. lia.
Qed.

Lemma desc_bytes_length d : length (desc_bytes d) = 8%nat.
Proof. unfold desc_bytes. by rewrite !length_app, !le_bytes_length. Qed.

Lemma desc_bytes_ok d : bytes (desc_bytes d).
Proof. unfold desc_bytes. repeat apply Forall_app_2; apply le_bytes_byte. Qed.

Definition desc_ok (d : RingDesc) : Prop :=
  0 ≤ packet_buffer d < 2 ^ 32 ∧ 0 ≤ len d < 2 ^ 16 ∧ 0 ≤ flags d < 2 ^ 16.

Lemma desc_of_bytes d : desc_ok d → desc_of (desc_bytes d) = d.
Proof.
  intros (Hp & Hl & Hf). unfold desc_of, desc_bytes.
  rewrite take_app_length', drop_app_length' by (by rewrite le_bytes_length).
  rewrite take_app_length' by (by rewrite le_bytes_length).
  rewrite app_assoc, drop_app_length' by (by rewrite length_app, !le_bytes_length).
  rewrite !le_value_bytes by done. by destruct d.
Qed.

Lemma desc_at_ok m base k : desc_ok (desc_at m base k).
Proof.
  unfold desc_at, desc_of. pose proof (dma_bytes_ok m (base + k * 8) 8) as B.
  pose proof (dma_bytes_length m (base + k * 8) 8) as L. set (l := dma_bytes _ _ _) in *.
  repeat split; cbn [packet_buffer len flags];
    match goal with |- _ ≤ le_value ?x => apply (le_value_bound x) | |- le_value ?x < _ =>
      eapply Z.lt_le_trans; [apply (le_value_bound x) |] end; try (by repeat apply Forall_take || apply Forall_drop);
    rewrite ?length_take, ?length_drop, L; done.
Qed.

Lemma desc_write m base k d : in_ram (base + k * 8) 8 → desc_ok d →
  desc_at (pci_dma_write m (base + k * 8) (desc_bytes d)) base k = d.
Proof.
  intros Hr Hd. unfold desc_at.
  pose proof (dma_bytes_write m (base + k * 8) (desc_bytes d)) as E. rewrite desc_bytes_length in E.
  change (Z.of_nat 8) with 8 in E. rewrite E; [by apply desc_of_bytes | done | apply desc_bytes_ok].
Qed.

Lemma rx_done_memory s base k l (d := desc_at (memory s) base k) (m' := memory (rx_done s base k l)) :
  bytes l → Z.of_nat (length l) < 2 ^ 16 → in_ram (packet_buffer d) (Z.of_nat (length l)) →
  in_ram (base + k * 8) 8 → apart (packet_buffer d) (Z.of_nat (length l)) (base + k * 8) 8 →
  dma_bytes m' (packet_buffer d) (Z.of_nat (length l)) = l ∧
  desc_at m' base k = Desc (packet_buffer d) (Z.of_nat (length l)) (NV_RX_BIT4 .| NV_RX_DESCRIPTORVALID) ∧
  ∀ b, ~ (packet_buffer d ≤ b < packet_buffer d + Z.of_nat (length l)) → ~ (base + k * 8 ≤ b < base + k * 8 + 8) →
    dma_byte m' b = dma_byte (memory s) b.
Proof.
  intros Hl Hn Hb Hr Ha. unfold m', rx_done. cbn [memory]. fold d. rewrite (wrap_small 16) by lia.
  assert (Hr' : in_ram (base + k * 8) (Z.of_nat (length (desc_bytes (Desc (packet_buffer d) (Z.of_nat (length l))
    (NV_RX_BIT4 .| NV_RX_DESCRIPTORVALID)))))) by (by rewrite desc_bytes_length).
  split; [| split].
  - rewrite dma_bytes_apart; [by apply dma_bytes_write | done | apply desc_bytes_ok |].
    rewrite desc_bytes_length. unfold apart in *. lia.
  - apply desc_write; [done |]. split; [apply desc_at_ok |]. split; [cbn; lia | done].
  - intros b Hb1 Hb2. rewrite dma_write_ok, decide_False by (rewrite ?desc_bytes_length; done || apply desc_bytes_ok || lia).
    by rewrite dma_write_ok, decide_False by done.
Qed.

(** The packet is copied to the buffer of the device first, over the registers there. *)
Definition with_buf s (l : list Z) : NvNetState M := s <| image := wr_bytes (image s) TXRX_DMA_BUF l |>.

Lemma with_buf_low s l a : a < TXRX_DMA_BUF → rd (image (with_buf s l)) a = rd (image s) a.
Proof. intros Ha. cbn. rewrite rd_wr_bytes, decide_False; [done | lia]. Qed.

Lemma with_buf_reg32 s l a : a + 3 < TXRX_DMA_BUF → reg32 (with_buf s l) a = reg32 s a.
Proof.
  intros Ha. apply (reg32_agree (λ a, a < TXRX_DMA_BUF)); [| lia]. intros b Hb. by apply with_buf_low.
Qed.

Lemma receive_packet s l : Z.of_nat (length l) ≤ RX_ALLOC_BUFSIZE →
  nvnet_receive s l = rx_loop 256 (with_buf s l) 0 l.
Proof.
  intros Hn. unfold nvnet_receive, nvnet_receive_iov. cbn [concat]. rewrite app_nil_r.
  rewrite (proj2 (Z.leb_le _ _) Hn). cbn [assert mbind res_bind]. unfold nvnet_dma_packet_to_guest.
  fold (with_buf s l). cbn [with_buf set image]. by rewrite rd_bytes_wr.
Qed.

Lemma with_buf_ready s l base size : bytes l → rx_ready base size s → rx_ready base size (with_buf s l).
Proof.
  intros Hl (Hok & Hs & Hb & Hr). split; [by apply wr_bytes_ok |]. split; [| split; [| done]].
  - rewrite <- Hs. by apply with_buf_low.
  - rewrite <- Hb. by apply with_buf_reg32.
Qed.

(** The buffer of every slot that could take the packet is in RAM and outside of the ring. *)
Definition buffers_ok (m : M) (l : list Z) (base size : Z) : Prop :=
  ∀ k, 0 ≤ k < size → slot_fits l base m k = true →
    in_ram (packet_buffer (desc_at m base k)) (Z.of_nat (length l)) ∧
    apart (packet_buffer (desc_at m base k)) (Z.of_nat (length l)) base (8 * size).

Lemma receive_into s l base size j (k := (rx_ring_index s + j) mod size) :
  rx_ready base size s → bytes l → Z.of_nat (length l) ≤ RX_ALLOC_BUFSIZE → 0 ≤ j < size →
  slot_fits l base (memory s) k = true →
  (∀ j', 0 ≤ j' < j → slot_fits l base (memory s) ((rx_ring_index s + j') mod size) = false) →
  nvnet_receive s l = Ok (Z.of_nat (length l), rx_done (with_buf s l) base k l).
Proof.
  intros Hs Hl Hn Hj Hyes Hno. rewrite receive_packet by done.
  pose proof (rx_ready_size _ _ _ Hs) as Hsz. pose proof (with_buf_ready s l _ _ Hl Hs) as Hs'.
  assert (E : rx_ring_index (with_buf s l) = rx_ring_index s) by (by apply with_buf_low).
  rewrite (rx_loop_found l base size (Z.to_nat j)); rewrite ?E, ?Z2Nat.id by lia; try done; try lia.
Qed.

(** C11: receiving a packet.  The first available buffer that is large enough, counted
    around the ring from the place of the last one, has the packet, its descriptor has the
    size of the packet and is handed back to the driver, no other byte of guest memory has
    changed, and the interrupt is raised if any is enabled.  When there is no such buffer
    the packet is refused and guest memory has not changed. *)
Theorem nvnet_receive_correct s l base size :
  rx_ready base size s → bytes l → Z.of_nat (length l) ≤ RX_ALLOC_BUFSIZE →
  buffers_ok (memory s) l base size →
  let fit := slot_fits l base (memory s) in
  let place j := (rx_ring_index s + j) mod size in
  (∀ j, 0 ≤ j < size → fit (place j) = true → (∀ j', 0 ≤ j' < j → fit (place j') = false) →
     let d := desc_at (memory s) base (place j) in
     ∃ s', nvnet_receive s l = Ok (Z.of_nat (length l), s') ∧
       dma_bytes (memory s') (packet_buffer d) (Z.of_nat (length l)) = l ∧
       desc_at (memory s') base (place j) =
         Desc (packet_buffer d) (Z.of_nat (length l)) (NV_RX_BIT4 .| NV_RX_DESCRIPTORVALID) ∧
       (∀ b, ~ (packet_buffer d ≤ b < packet_buffer d + Z.of_nat (length l)) →
          ~ (base + place j * 8 ≤ b < base + place j * 8 + 8) → dma_byte (memory s') b = dma_byte (memory s) b) ∧
       rx_ring_index s' = place j + 1 ∧ reg32 s' NvRegIrqStatus = NVREG_IRQSTAT_BIT1 ∧
       irq s' = nz (reg32 s NvRegIrqMask)) ∧
  ((∀ k, 0 ≤ k < size → fit k = false) →
     ∃ s', nvnet_receive s l = Ok (-1, s') ∧ memory s' = memory s ∧ irq s' = irq s).
Proof.
  intros Hs Hl Hn Hbuf fit place. pose proof (rx_ready_size _ _ _ Hs) as Hsz.
  pose proof Hs as (Hok & _ & _ & Hr). split.
  - intros j Hj Hyes Hno d. pose proof (Z.mod_pos_bound (rx_ring_index s + j) size ltac:(lia)) as Hk.
    fold (place j) in Hk. destruct (Hbuf (place j) Hk Hyes) as [Hram Hap].
    eexists. split; [exact (receive_into s l base size j Hs Hl Hn Hj Hyes Hno) |].
    destruct (rx_done_memory (with_buf s l) base (place j) l) as (M1 & M2 & M3); try done.
    + unfold RX_ALLOC_BUFSIZE in Hn. lia.
    + intros i Hi. rewrite <- Z.add_assoc. apply Hr. lia.
    + change (memory (with_buf s l)) with (memory s). unfold apart in *. lia.
    + split; [exact M1 |]. split; [exact M2 |]. split; [exact M3 |]. split; [| split].
      * unfold rx_ring_index, rx_done. cbn [image]. rewrite rd_wr_bytes, decide_False by (rewrite le_bytes_length; unfold RX_RING_INDEX, NvRegIrqStatus; lia).
        apply rd_wr_eq.
      * unfold reg32, rx_done. cbn [image].
        apply (f_equal le_value (rd_bytes_wr _ NvRegIrqStatus (le_bytes 4 NVREG_IRQSTAT_BIT1))).
      * unfold rx_done. cbn [irq]. by rewrite with_buf_reg32.
  - intros Hno. rewrite receive_packet by done.
    destruct (rx_loop_full l base size (Z.to_nat size) 256 (with_buf s l) 0) as (s' & E & Em & Ei & _); try lia.
    + by apply with_buf_ready.
    + intros j Hj. apply Hno, Z.mod_pos_bound. lia.
    + exists s'. done.
Qed.

End receive.

(** ** Sending *)

Section transmit.
Context {M : Type} `{PciDmaOk M}.
Implicit Types s : NvNetState M.

Definition tx_valid (d : RingDesc) : bool := nz (flags d .& NV_TX_VALID).
Definition tx_last (d : RingDesc) : bool := nz (flags d .& NV_TX_LASTPACKET).

(** A descriptor after its packet was sent. *)
Definition sent_desc (d : RingDesc) : RingDesc :=
  Desc (packet_buffer d) (u16 (len d + 5)) (sent_flags (flags d)).

(** The packet a descriptor stands for. *)
Definition packet (m : M) (d : RingDesc) : list Z := dma_bytes m (packet_buffer d) (len d + 1).

Lemma packet_length m d : desc_ok d → Z.of_nat (length (packet m d)) = len d + 1.
Proof. intros (_ & Hl & _). unfold packet. rewrite dma_bytes_length. lia. Qed.

Lemma sent_desc_ok d : desc_ok d → desc_ok (sent_desc d).
Proof.
  intros (Hp & Hl & Hf). split; [done |]. split; [by apply (wrap_bound 16) |].
  cbn [sent_desc flags]. unfold sent_flags. apply land_bound; [done |]. by apply wrap_bound.
Qed.

(** The state after the packet of slot [k] was sent, and after a slot was passed over. *)
Definition tx_done s (base k : Z) : NvNetState M :=
  let d := desc_at (memory s) base k in
  NvNet (wr_bytes (wr (image s) TX_RING_INDEX (k + 1)) TXRX_DMA_BUF (packet (memory s) d)) (irq s)
    (wire s ++ [packet (memory s) d])
    (pci_dma_write (memory s) (base + k * 8) (desc_bytes (sent_desc d))).

Definition at_tx s (v : Z) : NvNetState M := s <| image := wr (image s) TX_RING_INDEX v |>.

(** What a turn of the loop leaves alone. *)
Definition tx_kept (a : Z) : Prop := a < TXRX_DMA_BUF ∧ a ≠ TX_RING_INDEX.

Lemma at_tx_agree s v : agree tx_kept (image (at_tx s v)) (image s).
Proof. intros a [_ Ha]. by apply rd_wr_ne. Qed.

Lemma tx_done_agree s base k : agree tx_kept (image (tx_done s base k)) (image s).
Proof.
  intros a [Ha Ha']. cbn [tx_done image]. rewrite rd_wr_bytes, decide_False by lia. by apply rd_wr_ne.
Qed.

Lemma reg32_kept s s' a : agree tx_kept (image s) (image s') → a + 3 < TX_RING_INDEX → reg32 s a = reg32 s' a.
Proof.
  intros E Ha. apply (reg32_agree tx_kept); [done |]. unfold tx_kept, TX_RING_INDEX, TXRX_DMA_BUF in *. lia.
Qed.

Section ring.
Context (base size : Z).

Definition tx_ready s : Prop :=
  mem_ok 8 (image s) ∧ tx_ring_size s = size ∧ reg32 s NvRegTxRingPhysAddr = base ∧ in_ram base (8 * size).

Lemma tx_ready_size s : tx_ready s → 0 ≤ size < 256.
Proof. intros (Hok & <- & _). apply Hok. Qed.

Lemma tx_ready_kept s s' : tx_ready s → mem_ok 8 (image s') → agree tx_kept (image s') (image s) → tx_ready s'.
Proof.
  intros (Hok & Hs & Hb & Hr) Hok' E. split; [done |]. split; [rewrite <- Hs; by apply E |].
  split; [| done]. rewrite <- Hb. by apply reg32_kept.
Qed.

Lemma in_slot k : in_ram base (8 * size) → 0 ≤ k < size → in_ram (base + k * 8) 8.
Proof. intros Hr Hk i Hi. rewrite <- Z.add_assoc. apply Hr. lia. Qed.

Lemma at_tx_ready s v : tx_ready s → 0 ≤ v < 256 → tx_ready (at_tx s v).
Proof.
  intros Hs Hv. apply (tx_ready_kept s); [done | | apply at_tx_agree]. apply mem_ok_wr; [apply Hs | done].
Qed.

Lemma tx_done_ready s k : tx_ready s → 0 ≤ k < size → tx_ready (tx_done s base k).
Proof.
  intros Hs Hk. pose proof (tx_ready_size s Hs). apply (tx_ready_kept s); [done | | apply tx_done_agree].
  apply wr_bytes_ok; [| apply dma_bytes_ok]. apply mem_ok_wr; [apply Hs | lia].
Qed.

(** A valid descriptor names a buffer in RAM, outside of the ring, that fits. *)
Definition tx_buffer_ok (d : RingDesc) : Prop :=
  len d + 1 ≤ RX_ALLOC_BUFSIZE ∧ in_ram (packet_buffer d) (len d + 1) ∧
  apart (packet_buffer d) (len d + 1) base (8 * size).

Lemma tx_step fuel s i b (k := tx_ring_index s mod size) (d := desc_at (memory s) base k) :
  tx_ready s → 0 ≤ i < size →
  (tx_valid d = true → len d + 1 ≤ RX_ALLOC_BUFSIZE → in_ram (packet_buffer d) (len d + 1)) →
  tx_loop (S fuel) s i b =
  if tx_valid d then
    _ ← in_bounds (len d + 1 <=? RX_ALLOC_BUFSIZE);
    if tx_last d then Ok (true, tx_done s base k) else tx_loop fuel (tx_done s base k) (i + 1) true
  else tx_loop fuel (at_tx s (k + 1)) (i + 1) b.
Proof.
  intros Hs Hi Hbuf. pose proof (tx_ready_size s Hs) as Hsz. pose proof Hs as (Hok & Hsize & Hb & Hr).
  assert (Hk : 0 ≤ k < size) by (apply Z.mod_pos_bound; lia).
  assert (E : ∀ v, reg32 (at_tx s v) NvRegTxRingPhysAddr = base).
  { intros v. rewrite <- Hb. apply reg32_kept; [apply at_tx_agree | done]. }
  cbn [tx_loop]. rewrite Hsize, (proj2 (Z.ltb_lt i size)) by lia. fold k. unfold tx_valid in *. fold d in Hbuf.
  unfold tx_done. fold d. clearbody k. destruct s as [im ir wi m]. unfold set_byte, at_tx, tx_ring_index in *.
  cbn [set image irq wire memory nvnet_send_packet] in *.
  rewrite !rd_wr_eq, !wr_wr, !(wrap_small 8) by lia.
  change (nvnet_get_reg ?s NvRegTxRingPhysAddr 4) with (Ok (reg32 s NvRegTxRingPhysAddr)).
  rewrite E. cbn [mbind res_bind]. rewrite dma_read_ok by (by apply in_slot).
  change (desc_of ((λ i, _) <$> _)) with (desc_at m base k). fold d.
  destruct (nz (flags d .& NV_TX_VALID)); cbn [negb]; [| done].
  destruct (Z.leb_spec (len d + 1) RX_ALLOC_BUFSIZE) as [Hlen | Hlen]; cbn [in_bounds mbind res_bind]; [| done].
  rewrite dma_read_ok by exact (Hbuf eq_refl Hlen). fold (dma_bytes m (packet_buffer d) (len d + 1)). fold (packet m d).
  rewrite <- (packet_length m d) by apply desc_at_ok. by rewrite rd_bytes_wr.
Qed.

(** The slots the loop visits: around the ring, up to the last packet. *)
Fixpoint ring_slots (n : nat) (idx : Z) : list Z :=
  match n with
  | O => []
  | S n => idx mod size :: ring_slots n (idx mod size + 1)
  end.

(** The slots of a list whose packets are sent: the valid ones, up to the last packet; and
    the index afterwards. *)
Fixpoint tx_sent (d : Z → RingDesc) (l : list Z) : list Z :=
  match l with
  | [] => []
  | k :: l => if tx_valid (d k) then k :: if tx_last (d k) then [] else tx_sent d l else tx_sent d l
  end.

Fixpoint tx_end (d : Z → RingDesc) (l : list Z) (idx : Z) : Z :=
  match l with
  | [] => idx
  | k :: l => if tx_valid (d k) && tx_last (d k) then k + 1 else tx_end d l (k + 1)
  end.

Lemma tx_sent_ext d d' l : (∀ k, k ∈ l → d k = d' k) → tx_sent d l = tx_sent d' l.
Proof.
  induction l as [| k l IH]; intros E; [done |]. cbn. rewrite (E k), IH by set_solver. done.
Qed.

Lemma tx_end_ext d d' l idx : (∀ k, k ∈ l → d k = d' k) → tx_end d l idx = tx_end d' l idx.
Proof.
  revert idx. induction l as [| k l IH]; intros idx E; [done |]. cbn. rewrite (E k), IH by set_solver. done.
Qed.

Lemma tx_sent_incl d l k : k ∈ tx_sent d l → k ∈ l ∧ tx_valid (d k) = true.
Proof.
  induction l as [| k' l IH]; [by intros ?%elem_of_nil |]. cbn. destruct (tx_valid (d k')) eqn:E; [| set_solver].
  destruct (tx_last (d k')); set_solver.
Qed.

Lemma ring_slots_lookup n idx (j : nat) : 0 < size → (j < n)%nat →
  ring_slots n idx !! j = Some ((idx + Z.of_nat j) mod size).
Proof.
  intros Hs. revert idx j. induction n as [| n IH]; intros idx [| j] Hj; try lia; cbn [ring_slots lookup list_lookup].
  - by rewrite Z.add_0_r.
  - change (ring_slots n (idx mod size + 1) !! j = Some ((idx + Z.of_nat (S j)) mod size)).
    rewrite IH by lia. rewrite next_slot by done. do 2 f_equal. lia.
Qed.

Lemma ring_slots_length n idx : length (ring_slots n idx) = n.
Proof. revert idx. induction n as [| n IH]; intros idx; [done |]. cbn. by rewrite IH. Qed.

Lemma ring_slots_bound n idx k : 0 < size → k ∈ ring_slots n idx → 0 ≤ k < size.
Proof.
  intros Hs (j & E)%list_elem_of_lookup. pose proof (lookup_lt_Some _ _ _ E) as Hj. rewrite ring_slots_length in Hj.
  rewrite ring_slots_lookup in E by done. injection E as <-. by apply Z.mod_pos_bound.
Qed.

Lemma ring_slots_NoDup n idx : 0 < size → Z.of_nat n ≤ size → NoDup (ring_slots n idx).
Proof.
  intros Hs Hn. apply NoDup_alt. intros j j' k E E'.
  pose proof (lookup_lt_Some _ _ _ E) as Hj. pose proof (lookup_lt_Some _ _ _ E') as Hj'. rewrite ring_slots_length in *.
  rewrite ring_slots_lookup in E, E' by done. assert (Q : (idx + Z.of_nat j) mod size = (idx + Z.of_nat j') mod size) by congruence.
  apply Nat2Z.inj, (mod_add_inj size idx); [lia.. | done].
Qed.

Lemma tx_done_desc s k k' : in_ram base (8 * size) → 0 ≤ k < size →
  desc_at (memory (tx_done s base k)) base k' =
  if decide (k' = k) then sent_desc (desc_at (memory s) base k) else desc_at (memory s) base k'.
Proof.
  intros Hr Hk. cbn [tx_done memory]. case_decide as E.
  - subst. apply desc_write; [by apply in_slot |]. apply sent_desc_ok, desc_at_ok.
  - unfold desc_at. rewrite dma_bytes_apart; [done | rewrite desc_bytes_length; by apply in_slot | apply desc_bytes_ok |].
    rewrite desc_bytes_length. unfold apart. lia.
Qed.

Lemma tx_done_byte s k a : in_ram base (8 * size) → 0 ≤ k < size → ~ (base ≤ a < base + 8 * size) →
  dma_byte (memory (tx_done s base k)) a = dma_byte (memory s) a.
Proof.
  intros Hr Hk Ha. cbn [tx_done memory].
  rewrite dma_write_ok, decide_False by (rewrite ?desc_bytes_length; (by apply in_slot) || apply desc_bytes_ok || lia). done.
Qed.

Lemma packet_ext m m' d : (∀ a, ~ (base ≤ a < base + 8 * size) → dma_byte m a = dma_byte m' a) →
  tx_buffer_ok d → packet m d = packet m' d.
Proof.
  intros E (_ & _ & Ha). apply dma_bytes_ext. intros i Hi. apply E. unfold apart in Ha. lia.
Qed.

Definition is_sent (l : list Z) (k : Z) (d : RingDesc) : RingDesc := if decide (k ∈ l) then sent_desc d else d.

Definition tx_buffers_ok (m : M) : Prop :=
  ∀ k, 0 ≤ k < size → tx_valid (desc_at m base k) = true → tx_buffer_ok (desc_at m base k).

(** What the loop has done with a list of slots. *)
Definition tx_post (b : bool) s (slots : list Z) (r : res (bool * NvNetState M)) : Prop :=
  let d := desc_at (memory s) base in
  ∃ s', r = Ok (b || bool_decide (tx_sent d slots ≠ []), s') ∧
    wire s' = wire s ++ ((packet (memory s) ∘ d) <$> tx_sent d slots) ∧
    (∀ k, 0 ≤ k < size → desc_at (memory s') base k = is_sent (tx_sent d slots) k (d k)) ∧
    (∀ a, ~ (base ≤ a < base + 8 * size) → dma_byte (memory s') a = dma_byte (memory s) a) ∧
    tx_ring_index s' = tx_end d slots (tx_ring_index s) ∧ irq s' = irq s ∧ tx_ready s' ∧
    agree tx_kept (image s') (image s).

Lemma agree_trans P i j k : agree P i j → agree P j k → agree P i k.
Proof. intros E E' a Ha. by rewrite E, E'. Qed.

Lemma tx_post_skip b s k slots r : tx_valid (desc_at (memory s) base k) = false →
  tx_post b (at_tx s (k + 1)) slots r → tx_post b s (k :: slots) r.
Proof.
  intros Hv (s' & E & Ew & Ed & Ea & Ei & Eq & Hs' & A). exists s'. cbn [tx_sent tx_end]. rewrite Hv. cbn [andb].
  repeat (split; [done |]). split; [| repeat (split; [done |])].
  - rewrite Ei. unfold tx_ring_index at 1. cbn [at_tx image set]. by rewrite rd_wr_eq.
  - eapply agree_trans; [exact A | apply at_tx_agree].
Qed.

Lemma tx_done_index s k : tx_ring_index (tx_done s base k) = k + 1.
Proof.
  unfold tx_ring_index. cbn [tx_done image]. rewrite rd_wr_bytes, decide_False by (unfold TX_RING_INDEX, TXRX_DMA_BUF; lia).
  apply rd_wr_eq.
Qed.

Lemma tx_post_last b s k slots : tx_ready s → 0 ≤ k < size →
  tx_valid (desc_at (memory s) base k) = true → tx_last (desc_at (memory s) base k) = true →
  tx_post b s (k :: slots) (Ok (true, tx_done s base k)).
Proof.
  intros Hs Hk Hv Hl. pose proof Hs as (_ & _ & _ & Hr). exists (tx_done s base k). cbn [tx_sent tx_end]. rewrite Hv, Hl. cbn [andb].
  split; [by rewrite orb_true_r |]. split; [done |].
  split. { intros k' Hk'. rewrite tx_done_desc by done. unfold is_sent. repeat case_decide; subst; set_solver. }
  split; [intros; by apply tx_done_byte |]. split; [apply tx_done_index |]. split; [done |].
  split; [by apply tx_done_ready | apply tx_done_agree].
Qed.

Lemma tx_post_more b s k slots r : tx_ready s → 0 ≤ k < size → k ∉ slots → (∀ k', k' ∈ slots → 0 ≤ k' < size) →
  tx_valid (desc_at (memory s) base k) = true → tx_last (desc_at (memory s) base k) = false →
  tx_buffers_ok (memory s) → tx_post true (tx_done s base k) slots r → tx_post b s (k :: slots) r.
Proof.
  intros Hs Hk Hn Hsl Hv Hl Hbuf (s' & E & Ew & Ed & Ea & Ei & Eq & Hs' & A). pose proof Hs as (_ & _ & _ & Hr).
  assert (Q : ∀ k', k' ∈ slots → desc_at (memory (tx_done s base k)) base k' = desc_at (memory s) base k').
  { intros k' Hk'. rewrite tx_done_desc, decide_False by (done || set_solver). done. }
  rewrite (tx_sent_ext _ _ _ Q) in E, Ew, Ed. rewrite (tx_end_ext _ _ _ _ Q) in Ei.
  exists s'. cbn [tx_sent tx_end]. rewrite Hv, Hl. cbn [andb].
  split; [by rewrite E, orb_true_r |]. split; [| split; [| split; [| split; [| split; [| split]]]]].
  - rewrite Ew. cbn [fmap list_fmap]. cbn [tx_done wire]. rewrite <- app_assoc. cbn [app]. do 2 f_equal.
    apply list_fmap_ext. intros j k' Hj. apply list_elem_of_lookup_2 in Hj. apply tx_sent_incl in Hj as [Hj Hj'].
    cbn [compose]. rewrite Q by done. apply packet_ext; [intros; by apply tx_done_byte | by apply Hbuf; auto].
  - intros k' Hk'. rewrite Ed, tx_done_desc by done. unfold is_sent.
    assert (k ∉ tx_sent (desc_at (memory s) base) slots) by (intros [? _]%tx_sent_incl; done).
    repeat case_decide; subst; set_solver.
  - intros a Ha. rewrite Ea by done. by apply tx_done_byte.
  - by rewrite Ei, tx_done_index.
  - done.
  - done.
  - eapply agree_trans; [exact A | apply tx_done_agree].
Qed.

Lemma tx_buffers_done s k : in_ram base (8 * size) → 0 ≤ k < size → tx_buffers_ok (memory s) →
  tx_buffers_ok (memory (tx_done s base k)).
Proof.
  intros Hr Hk Hbuf k' Hk' Hv. rewrite tx_done_desc in * by done. case_decide; [| by apply Hbuf].
  subst. exfalso. revert Hv. unfold tx_valid, sent_desc, sent_flags. cbn [flags].
  by rewrite <- Z.land_assoc, Z.land_0_r.
Qed.

Lemma tx_loop_spec (n : nat) : ∀ fuel s i b, tx_ready s → 0 ≤ i → i + Z.of_nat n = size → (n ≤ fuel)%nat →
  tx_buffers_ok (memory s) → tx_post b s (ring_slots n (tx_ring_index s)) (tx_loop fuel s i b).
Proof.
  induction n as [| n IH]; intros fuel s i b Hs Hi Hn Hf Hbuf; pose proof Hs as (_ & Hsz' & _ & Hr).
  - exists s. cbn. rewrite orb_false_r, app_nil_r.
    split; [| done]. destruct fuel; cbn [tx_loop]; by rewrite (proj2 (Z.ltb_ge _ _)) by lia.
  - destruct fuel as [| fuel]; [lia |]. pose proof (tx_ready_size s Hs) as Hsz.
    assert (Hk : 0 ≤ tx_ring_index s mod size < size) by (apply Z.mod_pos_bound; lia).
    pose proof (ring_slots_NoDup (S n) (tx_ring_index s) ltac:(lia) ltac:(lia)) as Hnd.
    rewrite tx_step; [| done | lia | intros ? _; by apply Hbuf]. cbn [ring_slots] in *. apply NoDup_cons in Hnd as [Hnd _].
    destruct (tx_valid _) eqn:Hv; [destruct (Hbuf _ Hk Hv) as [Hlen _]; rewrite (proj2 (Z.leb_le _ _) Hlen);
      cbn [in_bounds mbind res_bind]; destruct (tx_last _) eqn:Hl |].
    + by apply tx_post_last.
    + apply tx_post_more; try done; [intros k'; by apply ring_slots_bound; lia |].
      rewrite <- (tx_done_index s (tx_ring_index s mod size)) at 1.
      apply IH; [by apply tx_done_ready | lia | lia | lia | by apply tx_buffers_done].
    + apply tx_post_skip; [done |]. replace (tx_ring_index s mod size + 1) with (tx_ring_index (at_tx s (tx_ring_index s mod size + 1))) at 2 by apply rd_wr_eq.
      apply IH; [apply at_tx_ready; [done | lia] | lia | lia | lia | done].
Qed.

End ring.

Lemma kick s s' : nvnet_dma_packet_from_guest s = Ok s' →
  nvnet_mmio_write s NvRegTxRxControl NVREG_TXRXCTL_KICK 4 =
  Ok (s' <| image := wr_bytes (image s') NvRegTxRxControl (le_bytes 4 NVREG_TXRXCTL_KICK) |>).
Proof.
  intros E. change (nvnet_mmio_write s NvRegTxRxControl NVREG_TXRXCTL_KICK 4) with (txrx_control s NVREG_TXRXCTL_KICK 4).
  unfold txrx_control. cbn [Z.eqb Pos.eqb NVREG_TXRXCTL_KICK]. rewrite E. reflexivity.
Qed.

(** The interrupt after the loop. *)
Lemma from_guest_irq s s1 (sent : list Z) : tx_loop 256 s 0 false = Ok (bool_decide (sent ≠ []), s1) →
  reg32 s1 NvRegIrqMask = reg32 s NvRegIrqMask → irq s1 = irq s →
  ∃ s2, nvnet_dma_packet_from_guest s = Ok s2 ∧ wire s2 = wire s1 ∧ memory s2 = memory s1 ∧
    tx_ring_index s2 = tx_ring_index s1 ∧
    (sent ≠ [] → reg32 s2 NvRegIrqStatus = NVREG_IRQSTAT_BIT4 ∧ irq s2 = nz (reg32 s NvRegIrqMask)) ∧
    (sent = [] → irq s2 = irq s).
Proof.
  intros E Em Eq. unfold nvnet_dma_packet_from_guest. rewrite E. cbn [mbind res_bind]. case_bool_decide as Hsent.
  - rewrite set_status. cbn [mbind res_bind]. rewrite raise_ok by done. eexists. split; [done |].
    cbn [wire memory irq]. split; [done |]. split; [done |]. split; [| split; [| done]].
    + unfold tx_ring_index. cbn [image]. by rewrite rd_wr_bytes, decide_False by (rewrite le_bytes_length; unfold TX_RING_INDEX, NvRegIrqStatus; lia).
    + intros _. split; [apply (f_equal le_value (rd_bytes_wr _ NvRegIrqStatus (le_bytes 4 NVREG_IRQSTAT_BIT4))) |].
      by rewrite andb_true_r, Em.
  - exists s1. split_and!; [done.. | by intros ?].
Qed.

(** The packets a kick sends, as slots of the ring. *)
Definition tx_slots s (base size : Z) : list Z :=
  tx_sent (desc_at (memory s) base) (ring_slots size (Z.to_nat size) (tx_ring_index s)).

(** C10: sending packets.  When the driver kicks the controller, the packets of the valid
    descriptors go out in the order of the ring, from where the last kick stopped to the
    descriptor marked last (or all around), each with the bytes of its buffer.  Their
    descriptors, and no other byte of guest memory, have changed: they are no longer valid.
    The interrupt is raised if a packet was sent and any interrupt is enabled. *)
Theorem nvnet_transmit_correct s base size :
  tx_ready base size s → tx_buffers_ok base size (memory s) →
  let d := desc_at (memory s) base in
  let sent := tx_slots s base size in
  ∃ s', nvnet_mmio_write s NvRegTxRxControl NVREG_TXRXCTL_KICK 4 = Ok s' ∧
    wire s' = wire s ++ ((packet (memory s) ∘ d) <$> sent) ∧
    (∀ k, 0 ≤ k < size → desc_at (memory s') base k = is_sent sent k (d k)) ∧
    (∀ a, ~ (base ≤ a < base + 8 * size) → dma_byte (memory s') a = dma_byte (memory s) a) ∧
    tx_ring_index s' = tx_end d (ring_slots size (Z.to_nat size) (tx_ring_index s)) (tx_ring_index s) ∧
    (sent ≠ [] → reg32 s' NvRegIrqStatus = NVREG_IRQSTAT_BIT4 ∧ irq s' = nz (reg32 s NvRegIrqMask)) ∧
    (sent = [] → irq s' = irq s).
Proof.
  intros Hs Hbuf d sent. pose proof (tx_ready_size _ _ _ Hs) as Hsz.
  destruct (tx_loop_spec base size (Z.to_nat size) 256 s 0 false Hs) as (s1 & E & Ew & Ed & Ea & Ei & Eq & Hs1 & A);
    try lia; [done |]. fold (tx_slots s base size) in E, Ew, Ed. cbn [orb] in E. fold d sent in E, Ew, Ed, Ei.
  destruct (from_guest_irq s s1 sent E (reg32_kept _ _ NvRegIrqMask A eq_refl) Eq) as (s2 & K & Kw & Km & Ki & K1 & K2).
  eexists. split; [by apply kick |]. cbn [wire memory irq set]. rewrite Kw, Km.
  split; [done |]. split; [done |]. split; [done |]. split; [| split; [| done]].
  - rewrite <- Ei, <- Ki. unfold tx_ring_index. cbn [image set].
    by rewrite rd_wr_bytes, decide_False by (unfold TX_RING_INDEX, NvRegTxRxControl; lia).
  - intros Hsent. destruct (K1 Hsent) as [<- ->]. split; [| done].
    unfold reg32. cbn [image set]. f_equal. apply rd_bytes_ext. intros j Hj. rewrite rd_wr_bytes, decide_False; [done |].
    unfold NvRegTxRxControl, NvRegIrqStatus. lia.
Qed.

End transmit.

(** ** Where registers and packets meet *)

Section overlap.
Context {M : Type} `{PciDmaOk M}.
Implicit Types s : NvNetState M.

Lemma tx_overrun fuel s i b base size (d := desc_at (memory s) base (tx_ring_index s mod size)) :
  tx_ready base size s → 0 ≤ i < size → tx_valid d = true → RX_ALLOC_BUFSIZE ≤ len d →
  tx_loop (S fuel) s i b = Fault out_of_bounds.
Proof.
  intros Hs Hi Hv Hl. rewrite (tx_step base size); [| done | done | fold d; lia]. fold d.
  by rewrite Hv, (proj2 (Z.leb_gt _ _)) by lia.
Qed.

(** Nothing but the copy of the packet changes what lies in the buffer. *)
Lemma rx_loop_buffer fuel : ∀ s i buf r s', rx_loop fuel s i buf = Ok (r, s') →
  ∀ a, TXRX_DMA_BUF ≤ a → rd (image s') a = rd (image s) a.
Proof.
  induction fuel as [| fuel IH]; intros s i buf r s' E a Ha; cbn [rx_loop] in E; destruct (i <? rx_ring_size s); try done; [injection E as <- <-; done | | injection E as <- <-; done].
  change (nvnet_get_reg ?s NvRegRxRingPhysAddr 4) with (Ok (reg32 s NvRegRxRingPhysAddr)) in E. cbn [mbind res_bind] in E.
  destruct (pci_dma_read _ _ _) as [l m]. case_match.
  - apply IH with (a := a) in E; [| done]. rewrite E. unfold set_byte. cbn [image set].
    by rewrite !rd_wr_ne by (unfold TXRX_DMA_BUF, RX_RING_INDEX in *; lia).
  - rewrite set_status in E. cbn [mbind res_bind] in E. rewrite raise_ok in E by done. cbn [mbind res_bind] in E.
    injection E as <- <-. cbn [image set].
    by rewrite !rd_wr_ne by (unfold TXRX_DMA_BUF, RX_RING_INDEX, NvRegIrqStatus in *; lia).
Qed.

Lemma receive_reg s l r s' a : nvnet_receive s l = Ok (r, s') →
  TXRX_DMA_BUF ≤ a → a + 4 ≤ TXRX_DMA_BUF + Z.of_nat (length l) →
  rd_bytes (image s') a 4 = take 4 (drop (Z.to_nat (a - TXRX_DMA_BUF)) l).
Proof.
  intros E Ha Hl. assert (Hn : Z.of_nat (length l) ≤ RX_ALLOC_BUFSIZE).
  { unfold nvnet_receive, nvnet_receive_iov in E. cbn [concat] in E. rewrite app_nil_r in E.
    destruct (_ <=? _) eqn:L; [by apply Z.leb_le | done]. }
  rewrite receive_packet in E by done. apply list_eq. intros j. destruct (decide (j < 4)%nat) as [Hj | Hj].
  - rewrite rd_bytes_lookup by lia. rewrite (rx_loop_buffer _ _ _ _ _ _ E) by lia. cbn [with_buf image set].
    rewrite rd_wr_bytes, decide_True by lia. rewrite lookup_take_lt, lookup_drop by lia.
    rewrite list_lookup_lookup_total_lt by lia. do 2 f_equal. lia.
  - rewrite !lookup_ge_None_2; [done | rewrite length_take, length_drop; lia | rewrite rd_bytes_length; lia].
Qed.

(** C38: the controller does not keep packets and registers apart.  A valid descriptor with
    a length of 1628 or more makes the controller write past its packet buffer, with bytes
    the driver chooses.  And every register from 0x11c on lies in that buffer: after a
    packet has come in, stored or refused, it holds bytes of the packet; so does the
    register that selects the PHY. *)
Theorem nvnet_overlap_flaws s base size (d := desc_at (memory s) base (tx_ring_index s mod size)) :
  tx_ready base size s → 0 < size →
  (tx_valid d = true → RX_ALLOC_BUFSIZE ≤ len d →
   nvnet_mmio_write s NvRegTxRxControl NVREG_TXRXCTL_KICK 4 = Fault out_of_bounds) ∧
  (∀ l r s' a, nvnet_receive s l = Ok (r, s') →
     TXRX_DMA_BUF ≤ a → a .& 3 = 0 → a + 4 ≤ TXRX_DMA_BUF + Z.of_nat (length l) →
     nvnet_get_reg s' a 4 = Ok (le_value (take 4 (drop (Z.to_nat (a - TXRX_DMA_BUF)) l)))).
Proof.
  intros Hs Hsz. split.
  - intros Hv Hl. change (nvnet_mmio_write s NvRegTxRxControl NVREG_TXRXCTL_KICK 4) with (txrx_control s NVREG_TXRXCTL_KICK 4).
    unfold txrx_control, nvnet_dma_packet_from_guest. cbn [Z.eqb Pos.eqb NVREG_TXRXCTL_KICK].
    by rewrite (tx_overrun _ _ _ _ base size) by (done || lia).
  - intros l r s' a E Ha Hal Hl. unfold nvnet_get_reg. cbn [Z.eqb Pos.eqb]. rewrite Hal. cbn [Z.eqb assert mbind res_bind].
    by rewrite (receive_reg s l r s' a) by done.
Qed.

End overlap.

(** ** An address space that is all RAM *)

#[global] Instance flat_dma : PciDma mem := {|
  pci_dma_read m a n := ((λ i, u8 (rd m (a + i))) <$> seqZ 0 n, m);
  pci_dma_write m a l := wr_bytes m a l
|}.

#[global] Program Instance flat_dma_ok : PciDmaOk mem := {|
  dma_ram _ := True;
  dma_byte m a := u8 (rd m a)
|}.
Next Obligation. intros. by apply (wrap_bound 8). Qed.
Next Obligation. done. Qed.
Next Obligation.
  intros m a l b _ Hl. cbn. rewrite rd_wr_bytes. case_decide as Hb; [| done]. apply wrap_small.
  eapply (Forall_lookup_1 _ _ _ _ Hl). apply list_lookup_lookup_total_lt. lia.
Qed.

(** Two descriptors in each ring: the second can take a packet, the first one sends one. *)
Definition sample_net : NvNetState mem :=
  NvNet (wr_bytes (wr_bytes ∅ NvRegIrqMask [1]) NvRegTxRingPhysAddr
           (le_bytes 4 0x2000 ++ le_bytes 4 0x1000 ++ le_bytes 16 0 ++ [0; 2; 0; 2])) false []
    (wr_bytes (wr_bytes (wr_bytes ∅ 0x1008 (desc_bytes (Desc 0x3000 100 0x8000)))
       0x2000 (desc_bytes (Desc 0x4000 2 0x8001))) 0x4000 [7; 8; 9]).

Lemma sample_image_ok : mem_ok 8 (image sample_net).
Proof.
  apply wr_bytes_ok; [apply wr_bytes_ok |]; [| by repeat constructor | unfold bytes; decided].
  intros i. by rewrite rd_empty.
Qed.

Lemma sample_rx_ready : rx_ready 0x1000 2 sample_net.
Proof.
  split; [apply sample_image_ok |]. split; [vm_compute; reflexivity |]. split; [vm_compute; reflexivity | done].
Qed.

Lemma sample_tx_ready : tx_ready 0x2000 2 sample_net.
Proof.
  split; [apply sample_image_ok |]. split; [vm_compute; reflexivity |]. split; [vm_compute; reflexivity | done].
Qed.

Lemma sample_slots (P : Z → Prop) : P 0 → P 1 → ∀ k, 0 ≤ k < 2 → P k.
Proof. intros H0 H1 k Hk. assert (k = 0 ∨ k = 1) as [-> | ->] by lia; done. Qed.

Lemma nvnet_receive_witness : ∃ s',
  nvnet_receive sample_net [1; 2; 3] = Ok (3, s') ∧ dma_bytes (memory s') 0x3000 3 = [1; 2; 3] ∧ irq s' = true.
Proof.
  destruct (nvnet_receive_correct sample_net [1; 2; 3] 0x1000 2 sample_rx_ready) as [Hyes _].
  - unfold bytes. decided.
  - done.
  - refine (sample_slots _ _ _); [vm_compute; discriminate |]. intros _. split; [done | right; vm_compute; discriminate].
  - destruct (Hyes 1 ltac:(lia)) as (s' & E & D & _ & _ & _ & _ & I).
    + vm_compute. reflexivity.
    + intros j' Hj'. assert (j' = 0) as -> by lia. vm_compute. reflexivity.
    + exists s'. split; [exact E |]. split; [exact D |]. rewrite I. vm_compute. reflexivity.
Defined.

Lemma nvnet_transmit_witness : ∃ s',
  nvnet_mmio_write sample_net NvRegTxRxControl NVREG_TXRXCTL_KICK 4 = Ok s' ∧ wire s' = [[7; 8; 9]].
Proof.
  destruct (nvnet_transmit_correct sample_net 0x2000 2 sample_tx_ready) as (s' & E & W & _).
  - refine (sample_slots _ _ _); [| vm_compute; discriminate]. intros _.
    split; [vm_compute; discriminate |]. split; [done | right; vm_compute; discriminate].
  - exists s'. split; [exact E |]. rewrite W. vm_compute. reflexivity.
Defined.

Lemma nvnet_overlap_witness : ∃ r s',
  nvnet_receive sample_net (replicate 0x78 5) = Ok (r, s') ∧ nvnet_get_reg s' NvRegMIIControl 4 = Ok 0x5050505.
Proof.
  destruct (nvnet_receive sample_net (replicate 0x78 5)) as [[r s'] | f] eqn:E; [| vm_compute in E; discriminate E].
  exists r, s'. split; [reflexivity |]. destruct (nvnet_overlap_flaws sample_net 0x2000 2 sample_tx_ready ltac:(lia)) as [_ Hr].
  rewrite (Hr _ r s' NvRegMIIControl E); [vm_compute; reflexivity | | reflexivity |]; vm_compute; discriminate.
Defined.
