(* ===== verification/Lpc.v ===== *)
(** * The super I/O chip

    src/hw/xbox/lpc47m157.c: two ports select and access the configuration registers of the
    chip and of its logical devices; leaving the configuration mode attaches the serial
    ports that have been activated.  The serial ports themselves are QEMU's; an attached
    port is its I/O base and interrupt.

    The theorem follows the sequence a driver writes to set up a port. *)

From S2P Require Import Prelude.

Definition MAX_DEVICE := 0xC.
Definition DEVICE_SERIAL_PORT_1 := 0x4.
Definition ENTER_CONFIG_KEY := 0x55.
Definition EXIT_CONFIG_KEY := 0xAA.
Definition MAX_CONFIG_REG := 0x30.
Definition MAX_DEVICE_REGS := 0xFF.
Definition CONFIG_DEVICE_NUMBER := 0x07.
Definition CONFIG_PORT_LOW := 0x26.
Definition CONFIG_PORT_HIGH := 0x27.
Definition CONFIG_DEVICE_ACTIVATE := 0x30.
Definition CONFIG_DEVICE_BASE_ADDRESS_HIGH := 0x60.
Definition CONFIG_DEVICE_BASE_ADDRESS_LOW := 0x61.
Definition CONFIG_DEVICE_INTERRUPT := 0x70.
Definition ISA_NUM_IRQS := 16.

(** [device_regs] is an array of rows of 255 registers, one after the other; [nirqs] is the
    number of interrupts the ISA device has claimed, of two at most. *)
Record LPC47M157State := Lpc {
  configuration_mode : bool;
  selected_reg : Z;
  config_regs : mem;
  device_regs : mem;
  serial : list (option (Z * Z));
  nirqs : Z
}.

#[global] Instance LPC47M157State_eta : Eta LPC47M157State := λ s,
  Lpc (configuration_mode s) (selected_reg s) (config_regs s) (device_regs s) (serial s) (nirqs s).

Implicit Types s : LPC47M157State.

(** src/hw/isa/isa-bus.c: an interrupt that does not exist is a fatal error. *)
Definition isa_init_irq s (isairq : Z) : res LPC47M157State :=
  _ ← assert (nirqs s <? 2);
  _ ← assert (isairq <? ISA_NUM_IRQS);
  Ok (s <| nirqs := nirqs s + 1 |>).

Definition device_reg (n r : Z) : Z := n * MAX_DEVICE_REGS + r.

Definition update_device s (i : nat) : res LPC47M157State :=
  let dev r := rd (device_regs s) (device_reg (DEVICE_SERIAL_PORT_1 + Z.of_nat i) r) in
  if nz (dev CONFIG_DEVICE_ACTIVATE) && bool_decide (serial s !! i = Some None) then
    let iobase := (dev CONFIG_DEVICE_BASE_ADDRESS_HIGH .<< 8) .| dev CONFIG_DEVICE_BASE_ADDRESS_LOW in
    let irq := dev CONFIG_DEVICE_INTERRUPT in
    s ← (if nz irq then isa_init_irq s irq else Ok s);
    Ok (s <| serial := <[i := Some (iobase, irq)]> (serial s) |>)
  else Ok s.

Definition update_devices s : res LPC47M157State := s ← update_device s 0; update_device s 1.

(** The index of the device register that is selected. *)
Definition selected s : res Z :=
  _ ← assert (rd (config_regs s) CONFIG_DEVICE_NUMBER <? MAX_DEVICE);
  let i := device_reg (rd (config_regs s) CONFIG_DEVICE_NUMBER) (selected_reg s) in
  _ ← in_bounds (i <? MAX_DEVICE * MAX_DEVICE_REGS);
  Ok i.

(** The ports are one byte wide. *)
Definition lpc47m157_io_write s (addr val : Z) : res LPC47M157State :=
  if addr =? 0 then
    if val =? ENTER_CONFIG_KEY then
      _ ← assert (negb (configuration_mode s)); Ok (s <| configuration_mode := true |>)
    else if val =? EXIT_CONFIG_KEY then
      _ ← assert (configuration_mode s); update_devices (s <| configuration_mode := false |>)
    else Ok (s <| selected_reg := val |>)
  else if addr =? 1 then
    if selected_reg s <? MAX_CONFIG_REG then
      Ok (s <| config_regs := wr (config_regs s) (selected_reg s) (u8 val) |>)
    else
      i ← selected s; Ok (s <| device_regs := wr (device_regs s) i (u8 val) |>)
  else Fault assert_failed.

Definition lpc47m157_io_read s (addr : Z) : res Z :=
  if addr =? 0 then Ok 0
  else if addr =? 1 then
    if selected_reg s <? MAX_CONFIG_REG then Ok (rd (config_regs s) (selected_reg s))
    else i ← selected s; Ok (rd (device_regs s) i)
  else Fault assert_failed.

Definition lpc47m157_realize : LPC47M157State :=
  Lpc false 0 (wr (wr ∅ CONFIG_PORT_LOW 0x2e) CONFIG_PORT_HIGH 0) ∅ [None; None] 0.

(** ** Setting up a serial port *)

(** A sequence of writes to the ports, and the write of a register. *)
Fixpoint io_writes s (l : list (Z * Z)) : res LPC47M157State :=
  match l with
  | [] => Ok s
  | (addr, val) :: l => s ← lpc47m157_io_write s addr val; io_writes s l
  end.

Definition write_reg (r v : Z) : list (Z * Z) := [(0, r); (1, v)].

(** What a driver writes to attach serial port [p]. *)
Definition configure (p iobase irq : Z) : list (Z * Z) :=
  [(0, ENTER_CONFIG_KEY)] ++ write_reg CONFIG_DEVICE_NUMBER (DEVICE_SERIAL_PORT_1 + p) ++
  write_reg CONFIG_DEVICE_BASE_ADDRESS_HIGH (iobase / 256) ++
  write_reg CONFIG_DEVICE_BASE_ADDRESS_LOW (iobase mod 256) ++
  write_reg CONFIG_DEVICE_INTERRUPT irq ++ write_reg CONFIG_DEVICE_ACTIVATE 1 ++ [(0, EXIT_CONFIG_KEY)].

(** A register that the index port can select. *)
Definition selectable (r : Z) : Prop := r ≠ ENTER_CONFIG_KEY ∧ r ≠ EXIT_CONFIG_KEY.

Lemma index_write s r : selectable r → lpc47m157_io_write s 0 r = Ok (s <| selected_reg := r |>).
Proof.
  intros [H1 H2]. unfold lpc47m157_io_write.
  by rewrite Z.eqb_refl, (proj2 (Z.eqb_neq _ _) H1), (proj2 (Z.eqb_neq _ _) H2).
Qed.

Lemma data_write s v : lpc47m157_io_write s 1 v =
  if selected_reg s <? MAX_CONFIG_REG then
    Ok (s <| config_regs := wr (config_regs s) (selected_reg s) (u8 v) |>)
  else i ← selected s; Ok (s <| device_regs := wr (device_regs s) i (u8 v) |>).
Proof. reflexivity. Qed.

Lemma data_read s : lpc47m157_io_read s 1 =
  if selected_reg s <? MAX_CONFIG_REG then Ok (rd (config_regs s) (selected_reg s))
  else i ← selected s; Ok (rd (device_regs s) i).
Proof. reflexivity. Qed.

Lemma write_reg_step s r v l : selectable r → io_writes s (write_reg r v ++ l) =
  s ← lpc47m157_io_write (s <| selected_reg := r |>) 1 v; io_writes s l.
Proof. intros Hr. cbn [write_reg app io_writes]. by rewrite index_write. Qed.

Lemma write_config s r v l : selectable r → r < MAX_CONFIG_REG →
  io_writes s (write_reg r v ++ l) =
  io_writes (s <| selected_reg := r |> <| config_regs := wr (config_regs s) r (u8 v) |>) l.
Proof.
  intros H1 Hr. rewrite write_reg_step, data_write by done. cbn [selected_reg set]. by rewrite (proj2 (Z.ltb_lt _ _) Hr).
Qed.

Lemma select_ok s n : rd (config_regs s) CONFIG_DEVICE_NUMBER = n → 0 ≤ n < MAX_DEVICE →
  0 ≤ selected_reg s < MAX_DEVICE_REGS → selected s = Ok (device_reg n (selected_reg s)).
Proof.
  intros <- Hn Hr. unfold selected. rewrite (proj2 (Z.ltb_lt _ MAX_DEVICE)) by lia. cbn [assert mbind res_bind].
  rewrite (proj2 (Z.ltb_lt _ _)); [done |]. unfold device_reg, MAX_DEVICE, MAX_DEVICE_REGS in *. lia.
Qed.

Lemma write_device s r v n l : selectable r → rd (config_regs s) CONFIG_DEVICE_NUMBER = n → 0 ≤ n < MAX_DEVICE →
  MAX_CONFIG_REG ≤ r < MAX_DEVICE_REGS →
  io_writes s (write_reg r v ++ l) =
  io_writes (s <| selected_reg := r |> <| device_regs := wr (device_regs s) (device_reg n r) (u8 v) |>) l.
Proof.
  intros H1 Hc Hn Hr. rewrite write_reg_step, data_write by done. cbn [selected_reg set]. rewrite (proj2 (Z.ltb_ge _ _)) by lia.
  rewrite (select_ok _ n); [done | done | done |]. cbn. unfold MAX_CONFIG_REG in Hr. lia.
Qed.

(** A register written through the ports reads back. *)
Lemma write_read s r v s' : selectable r → 0 ≤ v < 256 →
  io_writes s (write_reg r v) = Ok s' → lpc47m157_io_read s' 1 = Ok v.
Proof.
  intros H1 Hv E. rewrite <- (app_nil_r (write_reg r v)), write_reg_step, data_write in E by done.
  rewrite data_read. cbn [selected_reg set] in E. destruct (r <? MAX_CONFIG_REG) eqn:Hc.
  - injection E as <-. cbn [selected_reg set config_regs]. rewrite Hc, rd_wr_eq. by rewrite (wrap_small 8).
  - destruct (selected _) as [i | f] eqn:S; [| done]. injection E as <-. cbn [selected_reg set device_regs].
    rewrite Hc. match goal with |- context [selected ?s'] => change (selected s') with (selected (s <| selected_reg := r |>)) end.
    rewrite S. cbn [mbind res_bind]. rewrite rd_wr_eq. by rewrite (wrap_small 8).
Qed.

Lemma init_irq_serial s irq t : isa_init_irq s irq = Ok t → serial t = serial s.
Proof.
  unfold isa_init_irq. destruct (nirqs s <? 2); [| done]. destruct (irq <? ISA_NUM_IRQS); [| done].
  by intros [= <-].
Qed.

(** A port that is attached stays where it is. *)
Lemma update_device_stays s i s' p x : update_device s i = Ok s' → serial s !! p = Some (Some x) → serial s' !! p = Some (Some x).
Proof.
  intros E Hp. unfold update_device in E. destruct (_ && _) eqn:A; [| by injection E as <-].
  apply andb_true_iff in A as [_ A]. apply bool_decide_eq_true in A.
  assert (F : ∀ t, (if nz (rd (device_regs s) (device_reg (DEVICE_SERIAL_PORT_1 + Z.of_nat i) CONFIG_DEVICE_INTERRUPT))
    then isa_init_irq s (rd (device_regs s) (device_reg (DEVICE_SERIAL_PORT_1 + Z.of_nat i) CONFIG_DEVICE_INTERRUPT))
    else Ok s) = Ok t → serial t = serial s).
  { intros t. destruct (nz _); [| by intros [= <-]]. apply init_irq_serial. }
  apply bind_ok in E as (t & Et & E). apply F in Et. injection E as <-. cbn [serial set].
  rewrite Et, list_lookup_insert_ne; [done |]. intros ->. congruence.
Qed.

Lemma io_writes_stays l : ∀ s s' p x, io_writes s l = Ok s' → serial s !! p = Some (Some x) → serial s' !! p = Some (Some x).
Proof.
  induction l as [| [addr val] l IH]; intros s s' p x E Hp; [by injection E as <- |].
  cbn [io_writes] in E. apply bind_ok in E as (t & Et & E). apply (IH t s' p x E).
  unfold lpc47m157_io_write in Et. repeat case_match; try done; repeat (apply bind_ok in Et as (? & ? & Et));
    try (injection Et as <-; exact Hp).
  eapply update_device_stays; [exact Et |]. eapply update_device_stays; [eassumption | exact Hp].
Qed.

(** The port [p] is attached when its device is active. *)
Lemma update_device_attach s p iobase irq : serial s !! p = Some None →
  let dev r := rd (device_regs s) (device_reg (DEVICE_SERIAL_PORT_1 + Z.of_nat p) r) in
  dev CONFIG_DEVICE_ACTIVATE = 1 → dev CONFIG_DEVICE_BASE_ADDRESS_HIGH = iobase / 256 →
  dev CONFIG_DEVICE_BASE_ADDRESS_LOW = iobase mod 256 → dev CONFIG_DEVICE_INTERRUPT = irq →
  nirqs s < 2 → irq < ISA_NUM_IRQS →
  ∃ n, update_device s p = Ok (s <| serial := <[p := Some (iobase, irq)]> (serial s) |> <| nirqs := n |>).
Proof.
  intros Hp dev Ha Hh Hl Hi Hn Hirq. unfold update_device. fold (dev CONFIG_DEVICE_ACTIVATE). rewrite Ha.
  rewrite bool_decide_true by done. cbn [nz negb Z.eqb andb].
  fold (dev CONFIG_DEVICE_BASE_ADDRESS_HIGH) (dev CONFIG_DEVICE_BASE_ADDRESS_LOW) (dev CONFIG_DEVICE_INTERRUPT).
  rewrite Hh, Hl, Hi. rewrite lor_concat by (apply Z.mod_pos_bound || done; lia).
  change (2 ^ 8) with 256. replace (iobase / 256 * 256 + iobase mod 256) with iobase by (pose proof (Z.div_mod iobase 256); lia).
  destruct (nz irq).
  - unfold isa_init_irq. rewrite (proj2 (Z.ltb_lt _ _) Hn), (proj2 (Z.ltb_lt _ _) Hirq). cbn [assert mbind res_bind].
    eexists. reflexivity.
  - exists (nirqs s). by destruct s.
Qed.

Lemma update_device_idle s q : serial s !! q ≠ Some None ∨
  rd (device_regs s) (device_reg (DEVICE_SERIAL_PORT_1 + Z.of_nat q) CONFIG_DEVICE_ACTIVATE) = 0 →
  update_device s q = Ok s.
Proof.
  intros Hq. unfold update_device. rewrite (proj2 (andb_false_iff _ _)); [done |].
  destruct Hq as [Hq | ->]; [right; by apply bool_decide_eq_false | by left].
Qed.

(** The registers the sequence leaves. *)
Definition configured (dr : mem) (n iobase irq : Z) : mem :=
  wr (wr (wr (wr dr (device_reg n CONFIG_DEVICE_BASE_ADDRESS_HIGH) (u8 (iobase / 256)))
            (device_reg n CONFIG_DEVICE_BASE_ADDRESS_LOW) (u8 (iobase mod 256)))
         (device_reg n CONFIG_DEVICE_INTERRUPT) (u8 irq))
      (device_reg n CONFIG_DEVICE_ACTIVATE) (u8 1).

Lemma configure_writes s p iobase irq : configuration_mode s = false → 0 ≤ p < 2 →
  io_writes s (configure p iobase irq) =
  update_devices (Lpc false CONFIG_DEVICE_ACTIVATE (wr (config_regs s) CONFIG_DEVICE_NUMBER (DEVICE_SERIAL_PORT_1 + p))
    (configured (device_regs s) (DEVICE_SERIAL_PORT_1 + p) iobase irq) (serial s) (nirqs s)).
Proof.
  intros Hm Hp. unfold configure. cbn [app io_writes]. unfold lpc47m157_io_write at 1.
  rewrite Hm. cbn [Z.eqb Pos.eqb ENTER_CONFIG_KEY negb assert mbind res_bind].
  rewrite write_config by done. rewrite !(wrap_small 8 (_ + p)) by (unfold DEVICE_SERIAL_PORT_1; lia).
  do 4 (rewrite (write_device _ _ _ (DEVICE_SERIAL_PORT_1 + p));
    [| done | cbn [config_regs set]; by rewrite rd_wr_eq | unfold DEVICE_SERIAL_PORT_1, MAX_DEVICE; lia | done]).
  cbn [io_writes]. unfold lpc47m157_io_write. cbn [Z.eqb Pos.eqb ENTER_CONFIG_KEY EXIT_CONFIG_KEY configuration_mode set assert mbind res_bind].
  by destruct (update_devices _).
Qed.

Lemma configured_regs dr n iobase irq (c := configured dr n iobase irq) : 0 ≤ iobase < 2 ^ 16 → 0 ≤ irq < 256 →
  rd c (device_reg n CONFIG_DEVICE_ACTIVATE) = 1 ∧
  rd c (device_reg n CONFIG_DEVICE_BASE_ADDRESS_HIGH) = iobase / 256 ∧
  rd c (device_reg n CONFIG_DEVICE_BASE_ADDRESS_LOW) = iobase mod 256 ∧
  rd c (device_reg n CONFIG_DEVICE_INTERRUPT) = irq ∧
  ∀ m, m ≠ n → rd c (device_reg m CONFIG_DEVICE_ACTIVATE) = rd dr (device_reg m CONFIG_DEVICE_ACTIVATE).
Proof.
  intros Hb Hi. unfold c, configured. rewrite !(wrap_small 8) by (try lia; Z.to_euclidean_division_equations; lia).
  unfold device_reg, CONFIG_DEVICE_ACTIVATE, CONFIG_DEVICE_BASE_ADDRESS_HIGH, CONFIG_DEVICE_BASE_ADDRESS_LOW,
    CONFIG_DEVICE_INTERRUPT, MAX_DEVICE_REGS.
  split_and!; [.. | intros m Hm]; rewrite !rd_wr; repeat case_decide; done || lia.
Qed.

(** C33: a driver that unlocks the chip and writes base, interrupt and activation of one of
    the two serial ports gets that port, at the base and with the interrupt it wrote; the
    other port is not touched, the chip is locked again, and no later access moves or
    detaches the port. *)
Theorem lpc_configure_serial s (p q : nat) iobase irq :
  (p, q) = (0, 1)%nat ∨ (p, q) = (1, 0)%nat → configuration_mode s = false →
  serial s !! p = Some None →
  serial s !! q ≠ Some None ∨
    rd (device_regs s) (device_reg (DEVICE_SERIAL_PORT_1 + Z.of_nat q) CONFIG_DEVICE_ACTIVATE) = 0 →
  nirqs s < 2 → 0 ≤ iobase < 2 ^ 16 → 0 ≤ irq < ISA_NUM_IRQS →
  ∃ s', io_writes s (configure (Z.of_nat p) iobase irq) = Ok s' ∧ configuration_mode s' = false ∧
    serial s' = <[p := Some (iobase, irq)]> (serial s) ∧
    ∀ l s'', io_writes s' l = Ok s'' → serial s'' !! p = Some (Some (iobase, irq)).
Proof.
  intros Hpq Hm Hp Hq Hn Hb Hi. rewrite configure_writes by (done || destruct Hpq; simplify_eq; lia).
  destruct (configured_regs (device_regs s) (DEVICE_SERIAL_PORT_1 + Z.of_nat p) iobase irq Hb) as (R1 & R2 & R3 & R4 & R5);
    [unfold ISA_NUM_IRQS in Hi; lia |].
  set (s1 := Lpc _ _ _ _ _ _).
  destruct (update_device_attach s1 p iobase irq Hp R1 R2 R3 R4 Hn ltac:(lia)) as [n E].
  assert (I : ∀ t, serial t !! q = serial s !! q → device_regs t = device_regs s1 → update_device t q = Ok t).
  { intros t Et Ed. apply update_device_idle. rewrite Et, Ed. cbn [s1 device_regs].
    rewrite R5 by (destruct Hpq; simplify_eq; lia). exact Hq. }
  assert (Hu : update_devices s1 = Ok (s1 <| serial := <[p := Some (iobase, irq)]> (serial s1) |> <| nirqs := n |>)).
  { unfold update_devices. destruct Hpq as [[= -> ->] | [= -> ->]].
    - rewrite E. cbn [mbind res_bind]. apply I; [| done]. cbn [serial set]. by rewrite list_lookup_insert_ne.
    - rewrite I by done. exact E. }
  rewrite Hu. eexists. split; [done |]. split; [done |]. split; [done |]. intros l s'' El.
  eapply io_writes_stays; [exact El |]. cbn [serial set]. apply list_lookup_insert_eq.
  by eapply lookup_lt_Some.
Qed.

Lemma lpc_configure_witness : ∃ s',
  io_writes lpc47m157_realize (configure 0 0x3f8 4) = Ok s' ∧ serial s' = [Some (0x3f8, 4); None].
Proof.
  destruct (lpc_configure_serial lpc47m157_realize 0 1 0x3f8 4) as (s' & E & _ & S & _).
  - by left.
  - reflexivity.
  - reflexivity.
  - right. reflexivity.
  - reflexivity.
  - split; [discriminate | reflexivity].
  - split; [discriminate | reflexivity].
  - exists s'. split; [exact E | exact S].
Defined.

(** Register accesses that stop the emulator: either key out of turn, a device that does
    not exist, and register 0xff of the last device, which is outside of the array. *)
Lemma lpc_faults s :
  (configuration_mode s = true → lpc47m157_io_write s 0 ENTER_CONFIG_KEY = Fault assert_failed) ∧
  (configuration_mode s = false → lpc47m157_io_write s 0 EXIT_CONFIG_KEY = Fault assert_failed) ∧
  (MAX_CONFIG_REG ≤ selected_reg s → MAX_DEVICE ≤ rd (config_regs s) CONFIG_DEVICE_NUMBER →
   lpc47m157_io_read s 1 = Fault assert_failed) ∧
  (selected_reg s = 0xff → rd (config_regs s) CONFIG_DEVICE_NUMBER = 0xB → lpc47m157_io_read s 1 = Fault out_of_bounds).
Proof.
  split; [by intros E; unfold lpc47m157_io_write; rewrite E |].
  split; [by intros E; unfold lpc47m157_io_write; rewrite E |]. rewrite data_read. unfold selected. split.
  - intros Hr Hd. rewrite (proj2 (Z.ltb_ge _ _)) by lia. by rewrite (proj2 (Z.ltb_ge _ MAX_DEVICE)) by lia.
  - by intros -> ->.
Qed.
